(* ===== verification/_CoqProject ===== *)
-Q . S2P
Prelude.v
GoStr.v
Effects.v
GoText.v
GoFields.v
GoJson.v
Event.v
FileUtil.v
Net.v
Topology.v
RuntimeConfig.v
CertPair.v
ExecPayload.v
Protocol.v
ExecCollect.v
Executor.v
Stage.v
Journal.v
ResponseLoop.v
Spool.v
Queue.v
Sender.v
Client.v
Enroll.v
Fim.v
Float.v
Sketch.v
GoIP.v
Netctx.v
Pcapx.v
Ddos.v
L7.v
Scan.v
Flows.v
Regex.v
AuthLog.v
ProcExec.v
Settings.v
Overrides.v
ScanStats.v
Manager.v
Cycle.v
Cvss.v
Inventory.v
Exposure.v
Osv.v
Pollers.v
Discovery.v
Summary.v
Report.v
Service.v
Transport.v
Main.v
