(* ===== verification/Prelude.v ===== *)
(** * Verification development of the seagull-agent endpoint agent

  The agent (Go, under src/) collects security telemetry on a host, keeps it in
  a durable queue until the server has acknowledged it, and runs the response
  actions the server orders.  This library is a shallow embedding of its Go
  code: one Rocq definition per Go function, method or type, under the Go
  name, composed as the code composes them, and theorems about those
  definitions.

  ** How the program is put together, and which file models what

  Foundations
  - Prelude    integers at their width, instants and durations, shared lemmas,
               tactics and hints.
  - GoStr, GoText, GoFields, GoJson, GoIP, Float
               the parts of Go's standard library the code uses: byte strings,
               splitting and numbers, lexical paths, decoding of JSON
               documents into Go values, addresses and their text, float64.
  - Effects    the monad of methods that call the operating system: a call
               succeeds, fails without effect, or is the point where the
               process is killed.  Theorems quantify over all environments,
               hence over all failures and crash points.
  - FileUtil   internal/config/fileutil.go: files replaced atomically.
  - Net        networks and containment; Event: protocol/event.go.

  Response actions, from the server's order to its acknowledged result
  - Protocol   protocol/: version negotiation, incompatibility, profiles,
               response actions.
  - Client     internal/controlplane/client.go: the calls to the server.
  - Stage      internal/responseactions/stage.go: the in-memory queue.
  - Journal    internal/responseactions/journal.go: the durable journal.
  - ExecPayload, ExecCollect, Executor
               internal/responseactions/executor.go: payload validation,
               collectors and redaction, the handlers and [Execute].
  - ResponseLoop
               internal/runtime/controlplane.go, service.go and
               internal/responseactions/poller.go: the loop over journal,
               queue and executor.

  Telemetry, from an event to the server's acknowledgement
  - Spool      internal/spool/spool.go: the durable queue.
  - Queue      the interface between queue and sender: a class of operations
               with laws, and its instance for Spool.
  - Sender     internal/sender/sender.go, proved against the class.

  Identity and configuration
  - Enroll     internal/enrollment, internal/config/identity.go.
  - CertPair   internal/certrenew/certrenew.go.
  - RuntimeConfig, Topology
               internal/sources/runtime_config.go and
               internal/topologydiscovery/discovery.go.
  - Settings, Overrides
               internal/config/config.go, validation.go, log.go, overrides.go.

  Collectors
  - Fim        internal/collectors/fim.
  - Netctx     internal/netcontext; Pcapx: internal/collectors/pcapx.
  - Sketch, Ddos
               internal/collectors/ddos.
  - L7, Scan   internal/collectors/l7 and internal/collectors/scan.
  - Flows      internal/collectors/proc and internal/collectors/lateral.
  - ProcExec   internal/collectors/procexec.
  - Regex, AuthLog
               internal/collectors/ssh and the part of Go's regexp it uses.
  - ScanStats, Manager, Cycle
               internal/sources scan.go, manager.go, cycle.go: which collectors
               run, and one polling cycle over all of them and the sender.
  - Cvss       internal/collectors/vuln/cvss.go, in 64-bit floating point.
  - Inventory  internal/collectors/syscollector.
  - Exposure, Osv
               internal/collectors/vuln: the sockets of the host, the queries.
  - Pollers, Discovery
               internal/sources syscollector.go, vuln.go, topology_discovery.go.

  The agent around them
  - Summary    internal/runtime/loop.go: counters and summary lines.
  - Report     internal/buildinfo and the capabilities, metrics and subnets of
               a heartbeat (internal/runtime).
  - Service    internal/runtime service.go, loop.go, controlplane.go and
               certrotate.go, internal/heartbeat, internal/jitter: the start,
               the main loop and the turns of each background loop, over one
               state that holds the states of the components above.
  - Transport  internal/transport: which certificates the HTTP client shows
               and how it verifies the server, with crypto/tls a parameter.
  - Main       cmd/seagull-agent: the commands and how the agent is put
               together; build/sbom: the modules of a build.

  ** State and steps

  A Go struct is a Record; a method with effects is a computation over a world
  that has the struct and the files it owns (Effects), and a pure method is a
  function that returns the new state.  Mutexes make methods atomic steps;
  where a second goroutine can interfere, its steps are an explicit input
  (the inbox of ResponseLoop).  Maps are [gmap]s; where Go's iteration order
  can be observed the order is a parameter (Fim, Sketch, Ddos).  Clock
  readings are arguments or come from the environment of Effects.

  ** What the theorems show

  - Response actions: an accepted action is executed at most once, is removed
    only after its result was acknowledged and does complete when calls
    succeed (ResponseLoop); the journal is atomic under crashes and reads back
    what it wrote (Journal); the queue does not hand out an action twice
    (Stage); actions do what their payloads permit and no more: refusal before
    dispatch, signals to targets only, allowed commands only, no file lost by
    quarantine, secrets redacted (Executor, ExecPayload, ExecCollect).
  - Delivery: what a batch's outcome means, nothing leaves the queue but by
    acknowledgement or definitive refusal (Sender over Queue), retention,
    priority and draining do exactly what they say (Spool).
  - Identity and configuration: requests are durable before they are sent and
    credentials survive restarts (Enroll); certificate and key stay a pair
    under interruptions (CertPair); remote configuration never rolls back and
    only restricts (RuntimeConfig); discovery plans are exact (Topology).
  - Collectors: changes are reported and caches sound (Fim); deduplication
    with forgetting equals deduplication with full memory (Pcapx, Flows);
    error bounds of the sketches (Sketch); alerts are spaced and counters
    consistent (Ddos); parsers of network data never panic and find the names
    they should (L7); events only of packets that pass the filters (Scan).
  - Hosts: no line of the authentication log is lost but by the rotations the
    theorem names (AuthLog); new processes are the difference of successive
    process tables (ProcExec).  Settings that load are well formed (Settings)
    and remote overrides only restrict them (Overrides).
  - Cycles: the manager runs the selected collectors (Manager); a cycle commits
    the lines of the authentication log only when what was made of them is
    durable (Cycle); scan summaries account for every probe (ScanStats).
  - Inventory and scores: the dpkg database is read exactly and the hash stands
    for the inventory (Inventory); CVSS scores in floating point are the exact
    ones (Cvss); the exposure of the host is exact (Exposure); a vulnerability
    query is complete and loses no answer to a failure (Osv).
  - Pollers: a query or an inventory is left out only when the server has what it
    would give (Pollers); active discovery stays within its policy (Discovery).
  - The agent: the first failure of any goroutine ends it and is what it reports,
    a renewal of the certificate never loses a valid pair, and no event leaves
    before identity and protocol are settled (Service); action types it does not
    advertise have no effect (Report); the counters of the summaries account for
    every event (Summary); the certificates shown match their keys (Transport);
    settings that load give a client that verifies the server and can only fail
    on its files, and commands start nothing (Main).

  Theorems that show a behaviour the code probably does not mean are kept
  beside the others: they say precisely what happens.

  ** Bounds and fuel

  [int] and [int64] are integers with the wrap-around or the range check
  written out where the code can reach it; counters that would take centuries
  to overflow are plain integers.  Recursions that are not structural take
  fuel computed from their input and are proved never to run out of it (the
  loops of L7 and Topology), or are bounded by the code itself (nine levels
  of DNS pointers, attempts of the sender).

  ** Parameters

  Code outside src/ and what cannot be computed here is a parameter of the
  definitions that use it: the JSON byte scanner and encoders, SHA-256, PEM and
  X.509, random identifiers, [math.Log] and [math.Log2], the text of a
  float64, [time.ParseDuration], the answers of the server, of the operating
  system and of subprocesses.  Hypotheses about a parameter state its
  documented behaviour and have witnesses.

  ** Not modelled

  - Goroutines and timers around the turns of Service and the runs of Pollers:
    they wait for times that are modelled and call what is modelled.  A turn of
    Service is a step; which turns occur, and when, is universally quantified.
  - The writing of the bill of materials and the decoders of the contract
    documents, which no part of the agent calls (protocol/schema.go).
  - crypto/tls, X.509, key generation, net/http and gopacket: parameters.
  - Capture devices: each collector's [Start] opens one with libpcap; what
    gopacket decodes of a packet is the input of the models. *)

From stdpp Require Export base tactics list gmap strings sorting fin_maps.
From Stdlib Require Export ZArith Lia.

(** ** Scope and elementary Go types *)

Declare Scope go_scope.
Delimit Scope go_scope with go.
Local Open Scope Z_scope.
Local Open Scope go_scope.

(** An instant, in nanoseconds since Go's zero time (0001-01-01 UTC), so that
    [time.Time.IsZero] is the comparison with [0]; a [time.Duration] is a
    signed 64-bit count of nanoseconds. *)
Abbreviation time := Z (only parsing).
Abbreviation duration := Z (only parsing).

Definition max_int64 : Z := 2 ^ 63 - 1.
Definition min_int64 : Z := - 2 ^ 63.
Definition max_uint64 : Z := 2 ^ 64 - 1.

(** Saturation to int64 ([time.Time.Sub]), wrap-around of uint64 and of int64. *)
Definition sat64 (z : Z) : Z := Z.max min_int64 (Z.min max_int64 z).
Definition u64 (z : Z) : Z := z mod 2 ^ 64.
Definition wrap64 (z : Z) : Z := (z + 2 ^ 63) mod 2 ^ 64 - 2 ^ 63.
Definition in_int64 (z : Z) : bool := (min_int64 <=? z) && (z <=? max_int64).

Definition is_zero_time (t : time) : bool := t =? 0.
Definition time_sub (t u : time) : duration := sat64 (t - u).

Definition millisecond : duration := 10 ^ 6.
Definition second : duration := 10 ^ 9.
Definition minute : duration := 60 * second.
Definition hour : duration := 60 * minute.

(** [time.Time.UnixNano]: nanoseconds since 1970, in an int64. *)
Definition unix_epoch : Z := 62135596800 * second.
Definition UnixNano (t : time) : Z := wrap64 (t - unix_epoch).

Lemma UnixNano_exact t : unix_epoch < t < unix_epoch + 2 ^ 63 → 0 < UnixNano t < 2 ^ 63.
Proof.
  intros Ht. unfold UnixNano, wrap64. rewrite Z.mod_small by lia. lia.
Qed.

(** ** Tactics of the development *)

(** Normalise boolean tests on [Z] and [nat] into the propositions [lia]
    understands. *)
Ltac zbool :=
  repeat match goal with
  | H : (_ <? _) = true |- _ => apply Z.ltb_lt in H
  | H : (_ <? _) = false |- _ => apply Z.ltb_ge in H
  | H : (_ <=? _) = true |- _ => apply Z.leb_le in H
  | H : (_ <=? _) = false |- _ => apply Z.leb_gt in H
  | H : (_ =? _) = true |- _ => apply Z.eqb_eq in H
  | H : (_ =? _) = false |- _ => apply Z.eqb_neq in H
  | H : (_ >? _) = _ |- _ => rewrite Z.gtb_ltb in H
  | H : (_ >=? _) = _ |- _ => rewrite Z.geb_leb in H
  | H : _ && _ = true |- _ => apply andb_true_iff in H as [? ?]
  | H : _ || _ = false |- _ => apply orb_false_iff in H as [? ?]
  | H : negb _ = true |- _ => apply negb_true_iff in H
  | H : negb _ = false |- _ => apply negb_false_iff in H
  | H : bool_decide _ = true |- _ => apply bool_decide_eq_true in H
  | H : bool_decide _ = false |- _ => apply bool_decide_eq_false in H
  end.

(** Case analysis on every [match]/[if] of the goal, with the arithmetic facts
    of each branch. *)
Ltac go_cases := repeat (case_match; zbool; simplify_eq/=).
Ltac go_solve := zbool; simplify_eq/=; first [done | lia | naive_solver lia].

(** ** Sums over lists and finite maps *)

Definition sumZ {A} (f : A → Z) (l : list A) : Z := foldr (λ x acc, f x + acc) 0 l.

Lemma sumZ_app {A} (f : A → Z) l1 l2 : sumZ f (l1 ++ l2) = sumZ f l1 + sumZ f l2.
Proof. induction l1; simpl; lia. Qed.

Lemma sumZ_Permutation {A} (f : A → Z) l1 l2 : l1 ≡ₚ l2 → sumZ f l1 = sumZ f l2.
Proof. induction 1; simpl; lia. Qed.

#[export] Instance sumZ_proper {A} (f : A → Z) : Proper (Permutation ==> eq) (sumZ f).
Proof. intros ??. apply sumZ_Permutation. Qed.

Lemma sumZ_nonneg {A} (f : A → Z) l : (∀ x, x ∈ l → 0 <= f x) → 0 <= sumZ f l.
Proof.
  induction l as [|x l IH]; simpl; [lia|]. intros Hf.
  pose proof (Hf x ltac:(set_solver)).
  assert (0 <= sumZ f l) by (apply IH; set_solver). lia.
Qed.

Lemma sumZ_ext {A} (f g : A → Z) l : (∀ x, x ∈ l → f x = g x) → sumZ f l = sumZ g l.
Proof.
  induction l as [|x l IH]; simpl; [done|]. intros Hfg.
  rewrite (Hfg x) by set_solver. rewrite IH; [done|]. set_solver.
Qed.

Lemma sumZ_const_1 {A} (l : list A) : sumZ (λ _, 1) l = Z.of_nat (length l).
Proof. induction l; simpl; lia. Qed.

(** The sum of a measure over the bindings of a finite map. *)
Definition map_sum `{Countable K} {V} (f : K → V → Z) (m : gmap K V) : Z :=
  sumZ (λ kv, f kv.1 kv.2) (map_to_list m).

Section map_sum.
  Context `{Countable K} {V : Type} (f : K → V → Z).
  Implicit Types m : gmap K V.

Lemma map_sum_empty : map_sum f (∅ : gmap K V) = 0.
Proof. unfold map_sum. by rewrite map_to_list_empty. Qed.

Lemma map_sum_insert_None m k v :
  m !! k = None → map_sum f (<[k:=v]> m) = f k v + map_sum f m.
Proof. intros Hk. unfold map_sum. by rewrite map_to_list_insert. Qed.

(** The contribution of a key, absent keys included. *)
Definition at_key m k : Z := match m !! k with Some v => f k v | None => 0 end.

Lemma map_sum_delete m k : map_sum f (delete k m) = map_sum f m - at_key m k.
Proof.
  unfold at_key. destruct (m !! k) as [v|] eqn:Hk.
  - unfold map_sum. rewrite <- (sumZ_Permutation _ _ _ (map_to_list_delete m k v Hk)).
    simpl. lia.
  - rewrite delete_id by done. lia.
Qed.

Lemma map_sum_insert m k v : map_sum f (<[k:=v]> m) = map_sum f m - at_key m k + f k v.
Proof.
  rewrite <- insert_delete_eq, map_sum_insert_None by apply lookup_delete_eq.
  rewrite map_sum_delete. lia.
Qed.

Lemma map_sum_nonneg m : (∀ k v, m !! k = Some v → 0 <= f k v) → 0 <= map_sum f m.
Proof.
  intros Hf. apply sumZ_nonneg. intros [k v] Hin.
  apply elem_of_map_to_list in Hin. by apply Hf.
Qed.

Lemma map_sum_at_key m k : (∀ k v, m !! k = Some v → 0 <= f k v) → at_key m k <= map_sum f m.
  Proof.
    intros Hf. pose proof (map_sum_nonneg (delete k m)) as Hn. rewrite map_sum_delete in Hn.
    enough (0 <= map_sum f m - at_key m k) by lia. apply Hn.
    intros k' v Hv. apply lookup_delete_Some in Hv as [_ Hv]. by apply Hf.
  Qed.
End map_sum.


(** ** Lists *)

(** Go's slice expressions [s[i:j]] on a list, for the in-range bounds the
    modelled code uses. *)
Definition slice {A} (l : list A) (i j : nat) : list A := take (j - i)%nat (drop i l).

Lemma length_slice {A} (l : list A) i j :
  (i <= j)%nat → (j <= length l)%nat → length (slice l i j) = (j - i)%nat.
Proof. intros. unfold slice. rewrite length_take, length_drop. lia. Qed.

Lemma length_slice_le {A} (l : list A) i j : (length (slice l i j) <= j - i)%nat.
Proof. unfold slice. rewrite length_take. lia. Qed.

(** Filtering with a boolean test, the shape of Go's [for]/[continue] loops. *)
Lemma foldr_delete_sub {A} (keys : list string) (m : gmap string A) k x :
  foldr delete m keys !! k = Some x → m !! k = Some x.
Proof. induction keys as [|k' keys IH]; cbn; [done|]. rewrite lookup_delete_Some. naive_solver. Qed.

Lemma list_filter_length_le {A} (P : A → Prop) `{∀ x, Decision (P x)} (l : list A) :
  (length (filter P l) <= length l)%nat.
Proof. apply length_filter. Qed.

(** ** Loops

    A loop whose body continues with a new state or leaves with a result,
    repeated at most [p] times; [p] is binary, so that a bound as large as the
    code's loops need is no obstacle to evaluation. *)
Section iter.
Context {S R : Type} (step : S → S + R).

Fixpoint repeat_loop (p : positive) (s : S) : S + R :=
  match p with
  | xH => step s
  | xO p => match repeat_loop p s with inl s => repeat_loop p s | inr r => inr r end
  | xI p =>
    match step s with
    | inl s => match repeat_loop p s with inl s => repeat_loop p s | inr r => inr r end
    | inr r => inr r
    end
  end.

Context (I : S → Prop) (Q : R → Prop) (m : S → Z).
Context (Hstep : ∀ s, I s → match step s with inl s' => I s' ∧ m s' < m s | inr r => Q r end).

Lemma repeat_progress p : ∀ s, I s →
  match repeat_loop p s with inl s' => I s' ∧ m s' + Z.pos p <= m s | inr r => Q r end.
Proof using Hstep.
  induction p as [p IH|p IH|]; intros s Hs; cbn [repeat_loop].
  - specialize (Hstep s Hs). destruct (step s) as [s1|r]; [|done]. destruct Hstep as [H1 ?].
    specialize (IH s1 H1) as IH1. destruct (repeat_loop p s1) as [s2|r]; [|done]. destruct IH1 as [H2 ?].
    specialize (IH s2 H2). destruct (repeat_loop p s2) as [s3|r]; [|done]. destruct IH. split; [done|lia].
  - specialize (IH s Hs) as IH1. destruct (repeat_loop p s) as [s2|r]; [|done]. destruct IH1 as [H2 ?].
    specialize (IH s2 H2). destruct (repeat_loop p s2) as [s3|r]; [|done]. destruct IH. split; [done|lia].
  - specialize (Hstep s Hs). destruct (step s) as [s1|r]; [|done]. destruct Hstep. split; [done|lia].
Qed.

(** With more rounds than the measure of the initial state the loop ends. *)
Lemma repeat_ends p s : (∀ s, I s → 0 <= m s) → I s → m s < Z.pos p → ∃ r, repeat_loop p s = inr r ∧ Q r.
Proof using Hstep.
  intros Hm Hs Hp. pose proof (repeat_progress p s Hs) as H.
  destruct (repeat_loop p s) as [s'|r]; [|by exists r]. destruct H as [H1 H2]. specialize (Hm s' H1). lia.
Qed.
End iter.
