(* ===== verification/GoStr.v ===== *)
(** * GoStr: the operations of Go's [strings], [strconv] and [fmt] the agent uses

  A Go string is a sequence of bytes: here Stdlib's [string], a list of
  8-bit [ascii] characters.  [TrimSpace] and [Fields] cut exactly the UTF-8
  encodings of the runes [unicode.IsSpace] accepts.  [ToLower] and [ToUpper]
  map the ASCII letters and the four non-ASCII runes whose image is an ASCII
  letter (U+0130, U+212A; U+0131, U+017F); other runes are copied, so a
  comparison of a mapped string with an ASCII constant, and a search for an
  ASCII substring, have exactly Go's answer. *)

From S2P Require Import Prelude.
From Stdlib Require Import Ascii NArith.
From Stdlib Require String.

Local Open Scope Z_scope.
Local Open Scope go_scope.

Definition to_chars (s : string) : list ascii := String.list_ascii_of_string s.
Definition of_chars (l : list ascii) : string := String.string_of_list_ascii l.

Lemma of_to_chars s : of_chars (to_chars s) = s.
Proof. apply String.string_of_list_ascii_of_string. Qed.
Lemma to_of_chars l : to_chars (of_chars l) = l.
Proof. apply String.list_ascii_of_string_of_list_ascii. Qed.

Lemma to_chars_app s t : to_chars (s +:+ t) = to_chars s ++ to_chars t.
Proof. induction s as [|a s IH]; [done|]. unfold to_chars in *. simpl. by f_equal. Qed.

Lemma str_app_assoc (a b c : string) : a +:+ b +:+ c = (a +:+ b) +:+ c.
Proof. unfold String.app. induction a as [|x a IH]; simpl; [done|by f_equal]. Qed.

Lemma string_app_inj_r s1 s2 t : s1 +:+ t = s2 +:+ t → s1 = s2.
Proof.
  intros H. apply (f_equal to_chars) in H. rewrite !to_chars_app in H.
  apply app_inv_tail in H. by rewrite <-(of_to_chars s1), <-(of_to_chars s2), H.
Qed.

Definition strlen (s : string) : Z := Z.of_nat (String.length s).

Lemma strlen_nonneg s : 0 <= strlen s.
Proof. unfold strlen. lia. Qed.

Definition is_empty (s : string) : bool := match s with EmptyString => true | _ => false end.

Lemma is_empty_true s : is_empty s = true ↔ s = "".
Proof. by destruct s. Qed.
Lemma is_empty_false s : is_empty s = false ↔ s ≠ "".
Proof. by destruct s. Qed.

Definition str_eqb (s t : string) : bool := String.eqb s t.

Lemma str_eqb_eq s t : str_eqb s t = true ↔ s = t.
Proof. apply String.eqb_eq. Qed.
Lemma str_eqb_neq s t : str_eqb s t = false ↔ s ≠ t.
Proof. apply String.eqb_neq. Qed.
Lemma str_eqb_refl s : str_eqb s s = true.
Proof. apply String.eqb_refl. Qed.

(** [x == c1 || x == c2 ...], the shape of a Go [switch] on string constants. *)
Definition str_in (s : string) (l : list string) : bool := existsb (str_eqb s) l.

Lemma str_in_elem s l : str_in s l = true ↔ s ∈ l.
Proof.
  unfold str_in. rewrite existsb_exists, list_elem_of_In. split.
  - intros (x & Hx & Heq). apply str_eqb_eq in Heq. by subst.
  - intros Hin. exists s. split; [done|]. apply str_eqb_refl.
Qed.

(** ** White space *)

Definition code (a : ascii) : N := N_of_ascii a.

Definition in_rng (lo hi n : N) : bool := (N.leb lo n && N.leb n hi)%bool.

Definition space1 (a : ascii) : bool := in_rng 9 13 (code a) || N.eqb (code a) 32.
Definition space2 (a b : ascii) : bool :=
  N.eqb (code a) 194 && (N.eqb (code b) 133 || N.eqb (code b) 160).
Definition space3 (a b c : ascii) : bool :=
  (N.eqb (code a) 225 && N.eqb (code b) 154 && N.eqb (code c) 128)
  || (N.eqb (code a) 226 && N.eqb (code b) 128
      && (in_rng 128 138 (code c) || N.eqb (code c) 168 || N.eqb (code c) 169
          || N.eqb (code c) 175))
  || (N.eqb (code a) 226 && N.eqb (code b) 129 && N.eqb (code c) 159)
  || (N.eqb (code a) 227 && N.eqb (code b) 128 && N.eqb (code c) 128).

(** Stripping white-space runes from the front of a byte list; the encodings are
    a parameter so that the same function strips the reversed list. *)
Section strip.
  Variables (sp2 : ascii → ascii → bool) (sp3 : ascii → ascii → ascii → bool).

Fixpoint strip (l : list ascii) : list ascii :=
  match l with
  | a :: l1 =>
    if space1 a then strip l1 else
    match l1 with
    | b :: l2 =>
      if sp2 a b then strip l2 else
      match l2 with
      | c :: l3 => if sp3 a b c then strip l3 else l
      | [] => l
      end
    | [] => l
    end
  | [] => []
  end.

Definition head_space (l : list ascii) : bool :=
  match l with
  | a :: l1 => space1 a ||
    match l1 with
    | b :: l2 => sp2 a b || match l2 with c :: _ => sp3 a b c | [] => false end
    | [] => false
    end
  | [] => false
  end.

Lemma strip_props l :
  head_space (strip l) = false ∧ ∃ p, l = p ++ strip l.
Proof.
  induction l as [l IH] using (induction_ltof1 _ length).
  unfold ltof in IH. destruct l as [|a l1]; [by split; [|exists []]|]. simpl.
  destruct (space1 a) eqn:Ha.
  { destruct (IH l1) as [? [p Hp]]; [simpl; lia|].
    split; [done|]. exists (a :: p). simpl. congruence. }
  destruct l1 as [|b l2]; [simpl; rewrite Ha; split; [done|by exists []]|].
  destruct (sp2 a b) eqn:Hb.
  { destruct (IH l2) as [? [p Hp]]; [simpl; lia|].
    split; [done|]. exists (a :: b :: p). simpl. congruence. }
  destruct l2 as [|c l3]; [simpl; rewrite Ha, Hb; split; [done|by exists []]|].
  destruct (sp3 a b c) eqn:Hc.
  { destruct (IH l3) as [? [p Hp]]; [simpl; lia|].
    split; [done|]. exists (a :: b :: c :: p). simpl. congruence. }
  simpl. rewrite Ha, Hb, Hc. split; [done|by exists []].
Qed.

Lemma strip_id l : head_space l = false → strip l = l.
Proof.
  destruct l as [|a [|b [|c l]]]; simpl; [done|..]; intros H;
    repeat match goal with
    | H : _ || _ = false |- _ => apply orb_false_iff in H as [? H]
    end;
    repeat match goal with
    | H : ?b = false |- context [if ?b then _ else _] => rewrite H
    end; done.
Qed.

Lemma strip_idem l : strip (strip l) = strip l.
Proof. apply strip_id, strip_props. Qed.

Lemma head_space_app l1 l2 : head_space (l1 ++ l2) = false → head_space l1 = false.
  Proof.
    destruct l1 as [|a [|b [|c l1]]]; simpl; intros H; [done|..];
      repeat match goal with
      | H : _ || _ = false |- _ => apply orb_false_iff in H as [? H]
      | |- _ || _ = false => apply orb_false_iff; split
      end; done.
  Qed.
End strip.

Definition strip_left : list ascii → list ascii := strip space2 space3.
Definition strip_rev : list ascii → list ascii :=
  strip (λ b a, space2 a b) (λ c b a, space3 a b c).

Definition trim_chars (l : list ascii) : list ascii :=
  reverse (strip_rev (reverse (strip_left l))).

(** [strings.TrimSpace]. *)
Definition TrimSpace (s : string) : string := of_chars (trim_chars (to_chars s)).

Lemma trim_chars_fix l :
  head_space space2 space3 l = false →
  head_space (λ b a, space2 a b) (λ c b a, space3 a b c) (reverse l) = false →
  trim_chars l = l.
Proof.
  intros Hl Hr. unfold trim_chars, strip_left, strip_rev.
  rewrite (strip_id _ _ l Hl), (strip_id _ _ _ Hr). apply reverse_involutive.
Qed.

Lemma trim_chars_heads l :
  head_space space2 space3 (trim_chars l) = false ∧
  head_space (λ b a, space2 a b) (λ c b a, space3 a b c) (reverse (trim_chars l)) = false.
Proof.
  unfold trim_chars, strip_left, strip_rev. rewrite reverse_involutive. split.
  - destruct (strip_props (λ b a, space2 a b) (λ c b a, space3 a b c)
      (reverse (strip space2 space3 l))) as [_ [p Hp]].
    apply (f_equal reverse) in Hp. rewrite reverse_involutive, reverse_app in Hp.
    eapply head_space_app. rewrite <-Hp. apply strip_props.
  - apply strip_props.
Qed.

Lemma TrimSpace_idem s : TrimSpace (TrimSpace s) = TrimSpace s.
Proof.
  unfold TrimSpace. rewrite to_of_chars. f_equal.
  apply trim_chars_fix; apply trim_chars_heads.
Qed.

Lemma TrimSpace_empty : TrimSpace "" = "".
Proof. done. Qed.

(** ** Case mapping *)

Definition is_lower (a : ascii) : bool := in_rng 97 122 (code a).
Definition is_upper (a : ascii) : bool := in_rng 65 90 (code a).
Definition lower1 (a : ascii) : ascii :=
  if is_upper a then ascii_of_N (code a + 32) else a.
Definition upper1 (a : ascii) : ascii :=
  if is_lower a then ascii_of_N (code a - 32) else a.

(** The runes outside ASCII with an ASCII image, by their UTF-8 bytes. *)
Definition rune_0130 (a b : ascii) : bool := N.eqb (code a) 196 && N.eqb (code b) 176.
Definition rune_212A (a b c : ascii) : bool :=
  N.eqb (code a) 226 && N.eqb (code b) 132 && N.eqb (code c) 170.
Definition rune_0131 (a b : ascii) : bool := N.eqb (code a) 196 && N.eqb (code b) 177.
Definition rune_017F (a b : ascii) : bool := N.eqb (code a) 197 && N.eqb (code b) 191.

Fixpoint lower_chars (l : list ascii) : list ascii :=
  match l with
  | a :: l1 =>
    match l1 with
    | b :: l2 =>
      if rune_0130 a b then "i"%char :: lower_chars l2 else
      match l2 with
      | c :: l3 =>
        if rune_212A a b c then "k"%char :: lower_chars l3 else lower1 a :: lower_chars l1
      | [] => lower1 a :: lower_chars l1
      end
    | [] => [lower1 a]
    end
  | [] => []
  end.

Fixpoint upper_chars (l : list ascii) : list ascii :=
  match l with
  | a :: l1 =>
    match l1 with
    | b :: l2 =>
      if rune_0131 a b then "I"%char :: upper_chars l2 else
      if rune_017F a b then "S"%char :: upper_chars l2 else upper1 a :: upper_chars l1
    | [] => [upper1 a]
    end
  | [] => []
  end.

Definition ToLower (s : string) : string := of_chars (lower_chars (to_chars s)).
Definition ToUpper (s : string) : string := of_chars (upper_chars (to_chars s)).

(** [strings.ToLower(strings.TrimSpace(s))], the agent's usual normalisation. *)
Definition norm (s : string) : string := ToLower (TrimSpace s).

(** Does [lower_chars] treat the head of the list as an ordinary byte? *)
Definition plain_head (l : list ascii) : bool :=
  match l with
  | a :: b :: l2 => negb (rune_0130 a b) &&
      match l2 with c :: _ => negb (rune_212A a b c) | [] => true end
  | _ => true
  end.

Lemma lower_chars_plain a l :
  plain_head (a :: l) = true → lower_chars (a :: l) = lower1 a :: lower_chars l.
Proof.
  destruct l as [|b [|c l]]; cbn [plain_head lower_chars]; [done|..];
    rewrite ?andb_true_iff, ?negb_true_iff; intros.
  - destruct H as [-> _]. done.
  - destruct H as [-> ->]. done.
Qed.

(** Induction following the case split of [lower_chars]. *)
Lemma lower_chars_ind (P : list ascii → list ascii → Prop) :
  P [] [] →
  (∀ a l, plain_head (a :: l) = true → P l (lower_chars l) →
     P (a :: l) (lower1 a :: lower_chars l)) →
  (∀ a b l, rune_0130 a b = true → P l (lower_chars l) →
     P (a :: b :: l) ("i"%char :: lower_chars l)) →
  (∀ a b c l, rune_0130 a b = false → rune_212A a b c = true → P l (lower_chars l) →
     P (a :: b :: c :: l) ("k"%char :: lower_chars l)) →
  ∀ l, P l (lower_chars l).
Proof.
  intros Hnil Hplain Hi Hk l.
  induction l as [l IH] using (induction_ltof1 _ length). unfold ltof in IH.
  destruct l as [|a l1]; [done|].
  destruct (plain_head (a :: l1)) eqn:Hp.
  { rewrite (lower_chars_plain _ _ Hp). apply Hplain; [done|]. apply IH. simpl. lia. }
  destruct l1 as [|b l2]; [done|]. cbn [plain_head] in Hp. cbn [lower_chars].
  destruct (rune_0130 a b) eqn:H0.
  { apply Hi; [done|]. apply IH. simpl. lia. }
  destruct l2 as [|c l3]; [done|]. simpl in Hp. apply negb_false_iff in Hp. rewrite Hp.
  apply Hk; [done..|]. apply IH. simpl. lia.
Qed.

Ltac all_ascii a := destruct a as [[] [] [] [] [] [] [] []]; try done.

Lemma lower1_inv a x : lower1 a = x → is_lower x = false → a = x.
Proof. intros <-. by all_ascii a. Qed.
Lemma lower1_idem a : lower1 (lower1 a) = lower1 a.
Proof. by all_ascii a. Qed.

(** A byte of the image that is no lower-case letter is the same byte of the
    argument, at the front ... *)
Lemma lower_chars_head l x r :
  lower_chars l = x :: r → is_lower x = false →
  ∃ l', l = x :: l' ∧ r = lower_chars l'.
Proof.
  revert x r. apply (lower_chars_ind (λ l m, ∀ x r, m = x :: r → is_lower x = false →
    ∃ l', l = x :: l' ∧ r = lower_chars l')).
  - done.
  - intros a l' Hp _ x r [= <- <-] Hx. exists l'. split; [|done].
    by rewrite (lower1_inv a _ eq_refl Hx) at 1.
  - by intros a b l' _ _ x r [= <- <-].
  - by intros a b c l' _ _ _ x r [= <- <-].
Qed.

Lemma lower_chars_nil l : lower_chars l = [] → l = [].
Proof.
  apply (lower_chars_ind (λ l m, m = [] → l = [])); by intros.
Qed.

Lemma plain_head_prefix a l x : plain_head (a :: l ++ [x]) = true → plain_head (a :: l) = true.
Proof.
  destruct l as [|b [|c l]]; cbn; [done|..]; rewrite ?andb_true_iff; tauto.
Qed.

(** ... and at the end. *)
Lemma lower_chars_last l r x :
  lower_chars l = r ++ [x] → is_lower x = false →
  ∃ l', l = l' ++ [x] ∧ r = lower_chars l'.
Proof.
  revert r. apply (lower_chars_ind (λ l m, ∀ r, m = r ++ [x] → is_lower x = false →
    ∃ l', l = l' ++ [x] ∧ r = lower_chars l')).
  - by intros [].
  - intros a l' Hp IH [|y r] Hr Hx; simplify_eq/=.
    + match goal with H : lower_chars l' = [] |- _ => apply lower_chars_nil in H as -> end.
      exists []. split; [|done]. by rewrite (lower1_inv a _ eq_refl Hx) at 1.
    + destruct (IH r ltac:(assumption) Hx) as (l'' & -> & ->). exists (a :: l''). split; [done|].
      by rewrite lower_chars_plain by (by eapply plain_head_prefix).
  - intros a b l' H0 IH [|y r] Hr Hx; simplify_eq/=.
    destruct (IH r ltac:(assumption) Hx) as (l'' & -> & ->). exists (a :: b :: l'').
    split; [done|]. simpl. by rewrite H0.
  - intros a b c l' H0 H1 IH [|y r] Hr Hx; simplify_eq/=.
    destruct (IH r ltac:(assumption) Hx) as (l'' & -> & ->). exists (a :: b :: c :: l'').
    split; [done|]. simpl. by rewrite H0, H1.
Qed.

Lemma rune_bytes_not_lower a b :
  rune_0130 a b = true → is_lower a = false ∧ is_lower b = false ∧ code a = 196%N.
Proof.
  unfold rune_0130, is_lower, in_rng. rewrite andb_true_iff, !N.eqb_eq. by intros [-> ->].
Qed.

Lemma rune_bytes_not_lower3 a b c :
  rune_212A a b c = true →
  is_lower a = false ∧ is_lower b = false ∧ is_lower c = false ∧ code a = 226%N.
Proof.
  unfold rune_212A, is_lower, in_rng.
  rewrite !andb_true_iff, !N.eqb_eq. by intros [[-> ->] ->].
Qed.

(** The image never begins with one of the special runes. *)
Lemma plain_head_lower l : plain_head (lower_chars l) = true.
Proof.
  destruct (lower_chars l) as [|a [|b m]] eqn:Hm; [done..|].
  cbn [plain_head]. apply andb_true_iff; split.
  - apply negb_true_iff, not_true_iff_false. intros H.
    destruct (rune_bytes_not_lower _ _ H) as (Ha & Hb & Hc).
    destruct (lower_chars_head _ _ _ Hm Ha) as (l1 & -> & Hm1). symmetry in Hm1.
    destruct (lower_chars_head _ _ _ Hm1 Hb) as (l2 & -> & Hm2).
    simpl in Hm. rewrite H in Hm. by simplify_eq.
  - destruct m as [|c m]; [done|].
    apply negb_true_iff, not_true_iff_false. intros H.
    destruct (rune_bytes_not_lower3 _ _ _ H) as (Ha & Hb & Hc & Hv).
    destruct (lower_chars_head _ _ _ Hm Ha) as (l1 & -> & Hm1). symmetry in Hm1.
    destruct (lower_chars_head _ _ _ Hm1 Hb) as (l2 & -> & Hm2). symmetry in Hm2.
    destruct (lower_chars_head _ _ _ Hm2 Hc) as (l3 & -> & Hm3).
    simpl in Hm. rewrite H in Hm.
    by destruct (rune_0130 a b) eqn:H2; simplify_eq.
Qed.

Lemma lower_chars_idem l : lower_chars (lower_chars l) = lower_chars l.
Proof.
  apply (lower_chars_ind (λ _ m, lower_chars m = m)).
  - done.
  - intros a l' Hp IH. rewrite lower_chars_plain; [by rewrite lower1_idem, IH|].
    rewrite <-lower_chars_plain by done. apply plain_head_lower.
  - intros a b l' _ IH. rewrite lower_chars_plain; [by rewrite IH|].
    by destruct (lower_chars l') as [|? [|??]].
  - intros a b c l' _ _ IH. rewrite lower_chars_plain; [by rewrite IH|].
    by destruct (lower_chars l') as [|? [|??]].
Qed.

Lemma space_bytes_not_lower :
  (∀ a, space1 a = true → is_lower a = false) ∧
  (∀ a b, space2 a b = true → is_lower a = false ∧ is_lower b = false) ∧
  (∀ a b c, space3 a b c = true → is_lower a = false ∧ is_lower b = false ∧ is_lower c = false).
Proof.
  unfold space1, space2, space3, is_lower, in_rng. repeat split; intros;
    repeat match goal with
    | H : _ || _ = true |- _ => apply orb_true_iff in H as [H|H]
    | H : _ && _ = true |- _ => apply andb_true_iff in H as [? ?]
    | H : N.eqb _ _ = true |- _ => apply N.eqb_eq in H
    | H : N.leb _ _ = true |- _ => apply N.leb_le in H
    end;
    apply andb_false_iff; rewrite ?N.leb_gt; lia.
Qed.

(** Lower-casing creates no white space at either end. *)
Lemma head_space_lower l :
  head_space space2 space3 l = false → head_space space2 space3 (lower_chars l) = false.
Proof.
  destruct space_bytes_not_lower as (S1 & S2 & S3).
  intros Hl. destruct (lower_chars l) as [|a m] eqn:Hm; [done|].
  simpl. apply orb_false_iff; split.
  { apply not_true_iff_false. intros H.
    destruct (lower_chars_head _ _ _ Hm (S1 _ H)) as (l1 & -> & _).
    simpl in Hl. by rewrite H in Hl. }
  destruct m as [|b m]; [done|]. apply orb_false_iff; split.
  { apply not_true_iff_false. intros H. destruct (S2 _ _ H) as [Ha Hb].
    destruct (lower_chars_head _ _ _ Hm Ha) as (l1 & -> & Hm1). symmetry in Hm1.
    destruct (lower_chars_head _ _ _ Hm1 Hb) as (l2 & -> & _).
    simpl in Hl. by rewrite H, orb_true_r in Hl. }
  destruct m as [|c m]; [done|].
  apply not_true_iff_false. intros H. destruct (S3 _ _ _ H) as (Ha & Hb & Hc).
  destruct (lower_chars_head _ _ _ Hm Ha) as (l1 & -> & Hm1). symmetry in Hm1.
  destruct (lower_chars_head _ _ _ Hm1 Hb) as (l2 & -> & Hm2). symmetry in Hm2.
  destruct (lower_chars_head _ _ _ Hm2 Hc) as (l3 & -> & _).
  simpl in Hl. by rewrite H, !orb_true_r in Hl.
Qed.

Lemma reverse_cons_inv {A} (l : list A) a m : reverse l = a :: m → l = reverse m ++ [a].
Proof. intros H. rewrite <-(reverse_involutive l), H. apply reverse_cons. Qed.

Lemma last_space_lower l :
  let sp2 := (λ b a, space2 a b) in let sp3 := (λ c b a, space3 a b c) in
  head_space sp2 sp3 (reverse l) = false →
  head_space sp2 sp3 (reverse (lower_chars l)) = false.
Proof.
  destruct space_bytes_not_lower as (S1 & S2 & S3).
  intros sp2 sp3 Hl. destruct (reverse (lower_chars l)) as [|a m] eqn:Hm; [done|].
  apply reverse_cons_inv in Hm. simpl. apply orb_false_iff; split.
  { apply not_true_iff_false. intros H.
    destruct (lower_chars_last _ _ _ Hm (S1 _ H)) as (l1 & -> & _).
    rewrite reverse_app in Hl. simpl in Hl. by rewrite H in Hl. }
  destruct m as [|b m]; [done|]. rewrite reverse_cons in Hm. apply orb_false_iff; split.
  { apply not_true_iff_false. intros H. destruct (S2 _ _ H) as [Hb Ha].
    destruct (lower_chars_last _ _ _ Hm Ha) as (l1 & -> & Hm1). symmetry in Hm1.
    destruct (lower_chars_last _ _ _ Hm1 Hb) as (l2 & -> & _).
    rewrite !reverse_app in Hl. simpl in Hl. unfold sp2 in *. by rewrite H, orb_true_r in Hl. }
  destruct m as [|c m]; [done|]. rewrite reverse_cons in Hm.
  apply not_true_iff_false. intros H. destruct (S3 _ _ _ H) as (Hc & Hb & Ha).
  destruct (lower_chars_last _ _ _ Hm Ha) as (l1 & -> & Hm1). symmetry in Hm1.
  destruct (lower_chars_last _ _ _ Hm1 Hb) as (l2 & -> & Hm2). symmetry in Hm2.
  destruct (lower_chars_last _ _ _ Hm2 Hc) as (l3 & -> & _).
  rewrite !reverse_app in Hl. simpl in Hl. unfold sp3 in *. by rewrite H, !orb_true_r in Hl.
Qed.

Lemma norm_trimmed s : TrimSpace (norm s) = norm s.
Proof.
  unfold TrimSpace, norm, ToLower, TrimSpace. rewrite !to_of_chars. f_equal.
  destruct (trim_chars_heads (to_chars s)).
  apply trim_chars_fix; [by apply head_space_lower|by apply last_space_lower].
Qed.

Lemma norm_idem s : norm (norm s) = norm s.
Proof.
  unfold norm at 1. rewrite norm_trimmed. unfold norm, ToLower.
  by rewrite to_of_chars, lower_chars_idem.
Qed.

(** ** Searching and formatting *)

Definition HasPrefix (s p : string) : bool := String.prefix p s.
Definition HasSuffix (s p : string) : bool :=
  bool_decide (reverse (to_chars p) = take (length (to_chars p)) (reverse (to_chars s))).

Lemma HasSuffix_app s p : HasSuffix (s +:+ p) p = true.
Proof.
  unfold HasSuffix. rewrite to_chars_app, reverse_app.
  apply bool_decide_eq_true. rewrite take_app_le by (by rewrite length_reverse).
  by rewrite take_ge by (by rewrite length_reverse).
Qed.

Fixpoint Contains (s p : string) : bool :=
  String.prefix p s || match s with String _ s' => Contains s' p | EmptyString => false end.

Definition digit (z : Z) : ascii := ascii_of_N (Z.to_N (48 + z)).

(** The [n] low decimal digits of [z], most significant first. *)
Fixpoint digits (n : nat) (z : Z) : string :=
  match n with
  | O => ""
  | S n => digits n (z / 10) +:+ String (digit (z mod 10)) EmptyString
  end.

(** [fmt.Sprintf("%020d", z)] for an int64: 20 characters, sign included. *)
Definition fmt020 (z : Z) : string :=
  if z <? 0 then "-" +:+ digits 19 (- z) else digits 20 z.

Lemma string_app_snoc_inj s1 s2 a1 a2 :
  s1 +:+ String a1 EmptyString = s2 +:+ String a2 EmptyString → s1 = s2 ∧ a1 = a2.
Proof.
  revert s2. induction s1 as [|c s1 IH]; intros [|c2 s2]; unfold String.app; simpl;
    intros Heq; injection Heq; intros; subst.
  - done.
  - by destruct s2.
  - by destruct s1.
  - by edestruct IH as [-> ->].
Qed.

Lemma digit_inj x y : 0 <= x < 10 → 0 <= y < 10 → digit x = digit y → x = y.
Proof.
  intros Hx Hy H. apply (f_equal N_of_ascii) in H. unfold digit in H.
  rewrite !N_ascii_embedding in H by lia. lia.
Qed.

Lemma digits_inj n z1 z2 :
  0 <= z1 < 10 ^ Z.of_nat n → 0 <= z2 < 10 ^ Z.of_nat n → digits n z1 = digits n z2 → z1 = z2.
Proof.
  revert z1 z2. induction n as [|n IH]; intros z1 z2 H1 H2 H; [simpl in *; lia|].
  rewrite Nat2Z.inj_succ, Z.pow_succ_r in H1, H2 by lia.
  simpl in H. apply string_app_snoc_inj in H as [Hq Hd].
  apply digit_inj in Hd; [|apply Z.mod_pos_bound; lia..].
  apply IH in Hq; [|split; [apply Z.div_pos; lia|apply Z.div_lt_upper_bound; lia]..].
  rewrite (Z.div_mod z1 10), (Z.div_mod z2 10) by lia. lia.
Qed.

Lemma fmt020_inj z1 z2 :
  0 <= z1 <= max_int64 → 0 <= z2 <= max_int64 → fmt020 z1 = fmt020 z2 → z1 = z2.
Proof.
  intros H1 H2. unfold fmt020.
  destruct (z1 <? 0) eqn:E1, (z2 <? 0) eqn:E2; zbool; [lia..|].
  apply digits_inj; unfold max_int64 in *; simpl; lia.
Qed.
