(* ===== verification/Effects.v ===== *)
(** * Effects: Go methods that call the operating system

  A method is a function on a world [W] and an environment, which fixes in
  advance how each system call of the execution turns out and what each
  reading of the clock returns.  A call succeeds, fails without effect, or
  is the point where the process is killed; a killed execution keeps the
  world as it is, so what is on disk at that moment is what the next start
  of the agent finds.  Go's [error] results are the [Err] outcome, with the
  error type [E] of the component; [try] turns an error back into a value
  where the code inspects it. *)

From S2P Require Import Prelude.

Local Open Scope Z_scope.
Local Open Scope go_scope.

Inductive fault := FOk | FErr | FCrash.

Record env := Env { e_faults : list fault; e_clock : list time }.

Inductive outcome (E A : Type) :=
  | Ok (a : A)
  | Err (e : E)
  | Crashed.
Arguments Ok {E A} a.
Arguments Err {E A} e.
Arguments Crashed {E A}.

#[export] Instance fault_eq_dec : EqDecision fault.
Proof. solve_decision. Defined.

Definition M (W E A : Type) : Type := env → W → outcome E A * env * W.

Definition retM {W E A} (a : A) : M W E A := λ v w, (Ok a, v, w).
Definition bindM {W E A B} (m : M W E A) (f : A → M W E B) : M W E B := λ v w,
  match m v w with
  | (Ok a, v', w') => f a v' w'
  | (Err e, v', w') => (Err e, v', w')
  | (Crashed, v', w') => (Crashed, v', w')
  end.

Notation "x <- m ;; k" := (bindM m (λ x, k))
  (at level 60, m at next level, right associativity) : go_scope.
Notation "' x <- m ;; k" := (bindM m (λ x, k))
  (at level 20, x pattern, m at level 99, k at level 200, only parsing) : go_scope.
Notation "m ;;; k" := (bindM m (λ _, k))
  (at level 60, right associativity) : go_scope.

Section operations.
  Context {W E : Type}.

(** [return ..., err]. *)
Definition throw {A} (e : E) : M W E A := λ v w, (Err e, v, w).

(** [x, err := m] followed by an inspection of [err]; a killed process does
    not come back. *)
Definition try {E' A} (m : M W E A) : M W E' (E + A) := λ v w,
  match m v w with
  | (Ok a, v', w') => (Ok (inr a), v', w')
  | (Err e, v', w') => (Ok (inl e), v', w')
  | (Crashed, v', w') => (Crashed, v', w')
  end.

Definition gets {A} (f : W → A) : M W E A := λ v w, (Ok (f w), v, w).
Definition modify (f : W → W) : M W E unit := λ v w, (Ok tt, v, f w).

(** One system call with effect [f]; the result says whether it succeeded. *)
Definition sys (f : W → W) : M W E bool := λ v w,
  match e_faults v with
  | [] => (Ok true, v, f w)
  | FOk :: fs => (Ok true, Env fs (e_clock v), f w)
  | FErr :: fs => (Ok false, Env fs (e_clock v), w)
  | FCrash :: fs => (Crashed, Env fs (e_clock v), w)
  end.

(** A system call whose failure is the error [e]. *)
Definition sys_or (e : E) (f : W → W) : M W E unit :=
  b <- sys f;; if b then retM tt else throw e.

(** [time.Now().UTC()]: the last reading repeats when the list runs out. *)
Definition now : M W E time := λ v w,
  match e_clock v with
  | [] => (Ok 0, v, w)
  | [t] => (Ok t, v, w)
  | t :: ts => (Ok t, Env (e_faults v) ts, w)
  end.

(** ** Program logic

      [triple P m Q R C]: from a world satisfying [P], whatever the
      environment, [m] ends with a value and world in [Q], with an error and
      world in [R], or is killed in a world of [C]. *)
Definition triple {A} (P : W → Prop) (m : M W E A) (Q : A → W → Prop)
      (R : E → W → Prop) (C : W → Prop) : Prop :=
    ∀ v w, P w →
      match m v w with
      | (Ok a, _, w') => Q a w'
      | (Err e, _, w') => R e w'
      | (Crashed, _, w') => C w'
      end.
End operations.

(** [I] survives [m] on every path. *)
Definition preserves {W E A} (I : W → Prop) (m : M W E A) : Prop :=
  triple I m (λ _, I) (λ _, I) I.

Section rules.
  Context {W E : Type}.
  Implicit Types (P C I : W → Prop).

Lemma triple_ret {A} P (a : A) Q (R : E → W → Prop) C :
  (∀ w, P w → Q a w) → triple P (retM a) Q R C.
Proof. intros H v w Hw. by apply H. Qed.

Lemma triple_throw {A} P (e : E) (Q : A → W → Prop) R C :
  (∀ w, P w → R e w) → triple P (throw e) Q R C.
Proof. intros H v w Hw. by apply H. Qed.

Lemma triple_bind {A B} P (m : M W E A) (f : A → M W E B) Q' Q R C :
  triple P m Q' R C → (∀ a, triple (Q' a) (f a) Q R C) → triple P (bindM m f) Q R C.
Proof.
  intros Hm Hf v w Hw. specialize (Hm v w Hw).
  unfold bindM. destruct (m v w) as [[[a|e|] v'] w']; [|done..].
  by apply Hf.
Qed.

Lemma triple_conseq {A} P P' (m : M W E A) Q Q' R R' C C' :
  triple P' m Q' R' C' → (∀ w, P w → P' w) → (∀ a w, Q' a w → Q a w) →
  (∀ e w, R' e w → R e w) → (∀ w, C' w → C w) → triple P m Q R C.
Proof.
  intros Hm HP HQ HR HC v w Hw. specialize (Hm v w (HP w Hw)).
  destruct (m v w) as [[[a|e|] v'] w']; eauto.
Qed.

Lemma triple_gets {A} P (f : W → A) Q (R : E → W → Prop) C :
  (∀ w, P w → Q (f w) w) → triple P (gets f) Q R C.
Proof. intros H v w Hw. by apply H. Qed.

Lemma triple_modify P (f : W → W) (Q : unit → W → Prop) (R : E → W → Prop) C :
  (∀ w, P w → Q tt (f w)) → triple P (modify f) Q R C.
Proof. intros H v w Hw. by apply H. Qed.

Lemma triple_now P Q (R : E → W → Prop) C :
  (∀ t w, P w → Q t w) → triple P now Q R C.
Proof. intros H v w Hw. unfold now. destruct (e_clock v) as [|? [|??]]; by apply H. Qed.

Lemma triple_sys P (f : W → W) Q (R : E → W → Prop) C :
  (∀ w, P w → Q true (f w)) → (∀ w, P w → Q false w) → (∀ w, P w → C w) →
  triple P (sys f) Q R C.
Proof. intros H1 H2 H3 v w Hw. unfold sys. destruct (e_faults v) as [|[]]; eauto. Qed.

Lemma triple_sys_or P (e : E) (f : W → W) (Q : unit → W → Prop) (R : E → W → Prop) C :
  (∀ w, P w → Q tt (f w)) → (∀ w, P w → R e w) → (∀ w, P w → C w) →
  triple P (sys_or e f) Q R C.
Proof.
  intros H1 H2 H3. eapply triple_bind.
  - apply (triple_sys _ _ (λ b w, if b then Q tt w else P w)); eauto.
  - intros []; [by apply triple_ret|by apply triple_throw].
Qed.

Lemma triple_try {E' A} P (m : M W E A) (Q : E + A → W → Prop) (R : E' → W → Prop) C :
  triple P m (λ a, Q (inr a)) (λ e, Q (inl e)) C → triple P (try m) Q R C.
Proof.
  intros Hm v w Hw. specialize (Hm v w Hw).
  unfold try. by destruct (m v w) as [[[a|e|] v'] w'].
Qed.

(** Fix the world a triple starts from. *)
Lemma triple_start {A} P (m : M W E A) Q R C :
  (∀ w0, P w0 → triple (λ w, w = w0) m Q R C) → triple P m Q R C.
Proof. intros H v w Hw. by apply (H w). Qed.

Lemma triple_weaken {A} P' P (m : M W E A) Q R C :
  (∀ w, P w → P' w) → triple P' m Q R C → triple P m Q R C.
Proof. intros Hw Hm v w HP. by apply Hm, Hw. Qed.

Lemma triple_known {A} P w0 (m : M W E A) Q R C :
  P w0 → triple P m Q R C → triple (λ w, w = w0) m Q R C.
Proof. intros Hw Hm v w ->. by apply Hm. Qed.

Lemma triple_and {A} P (m : M W E A) Q1 Q2 R1 R2 C1 C2 :
  triple P m Q1 R1 C1 → triple P m Q2 R2 C2 →
  triple P m (λ a w, Q1 a w ∧ Q2 a w) (λ e w, R1 e w ∧ R2 e w) (λ w, C1 w ∧ C2 w).
Proof.
  intros H1 H2 v w Hw. specialize (H1 v w Hw). specialize (H2 v w Hw).
  by destruct (m v w) as [[[a|e|] v'] w'].
Qed.

Lemma triple_pure {A} (φ : Prop) P (m : M W E A) Q R C :
  (φ → triple P m Q R C) → triple (λ w, φ ∧ P w) m Q R C.
Proof. intros H v w [Hφ Hw]. by apply H. Qed.

Lemma triple_pure_r {A} (φ : Prop) P (m : M W E A) Q R C :
  (φ → triple P m Q R C) → triple (λ w, P w ∧ φ) m Q R C.
Proof. intros H v w [Hw Hφ]. by apply H. Qed.

  (** Invariants through control flow. *)
Lemma preserves_ret {A} I (a : A) : preserves (E:=E) I (retM a).
  Proof. by apply triple_ret. Qed.
Lemma preserves_throw {A} I (e : E) : preserves (A:=A) I (throw e).
  Proof. by apply triple_throw. Qed.
Lemma preserves_bind {A B} I (m : M W E A) (f : A → M W E B) :
    preserves I m → (∀ a, preserves I (f a)) → preserves I (bindM m f).
  Proof. intros. by eapply triple_bind. Qed.
Lemma preserves_gets {A} I (f : W → A) : preserves (E:=E) I (gets f).
  Proof. by apply triple_gets. Qed.
Lemma preserves_now I : preserves (E:=E) I now.
  Proof. by apply triple_now. Qed.
Lemma preserves_modify I f : (∀ w, I w → I (f w)) → preserves (E:=E) I (modify f).
  Proof. intros. by apply triple_modify. Qed.
Lemma preserves_sys I f : (∀ w, I w → I (f w)) → preserves (E:=E) I (sys f).
  Proof. intros. by apply triple_sys. Qed.
Lemma preserves_sys_or I (e : E) f : (∀ w, I w → I (f w)) → preserves I (sys_or e f).
  Proof. intros. by apply triple_sys_or. Qed.
Lemma preserves_try {E' A} I (m : M W E A) : preserves I m → preserves (E:=E') I (try m).
  Proof. intros. by apply triple_try. Qed.
End rules.

(** [m] does not change the world and its value satisfies [φ]. *)
Definition reads {W E A} (m : M W E A) (φ : A → W → Prop) : Prop := ∀ w0,
  triple (λ w, w = w0) m (λ a w, w = w0 ∧ φ a w0) (λ _ w, w = w0) (λ w, w = w0).

Section reads.
  Context {W E : Type}.

Lemma triple_reads {A} (m : M W E A) φ P :
  reads m φ → triple P m (λ a w, P w ∧ φ a w) (λ _, P) P.
Proof.
  intros Hm v w Hw. specialize (Hm w v w eq_refl).
  destruct (m v w) as [[[a|e|] v'] w']; [destruct Hm; by subst..].
Qed.

Lemma triple_reads_bind {A B} (m : M W E A) φ P (k : A → M W E B) Q R C :
  reads m φ → (∀ a, triple (λ w, P w ∧ φ a w) (k a) Q R C) →
  (∀ e w, P w → R e w) → (∀ w, P w → C w) → triple P (bindM m k) Q R C.
Proof.
  intros Hm Hk HR HC v w Hw. pose proof (triple_reads m φ P Hm v w Hw) as H.
  unfold bindM. destruct (m v w) as [[[a|e|] v'] w']; [by apply Hk|auto..].
Qed.

Lemma reads_bind {A B} (m : M W E A) (k : A → M W E B) φ ψ :
  reads m φ → (∀ a, reads (k a) (λ b w, φ a w → ψ b w)) → reads (bindM m k) ψ.
Proof.
  intros Hm Hk w0. eapply triple_bind; [apply Hm|]. intros a v w [-> Hφ].
  specialize (Hk a w0 v w0 eq_refl). simpl in *.
  destruct (k a v w0) as [[[b|e|] v'] w']; [destruct Hk; auto|done..].
Qed.

Lemma reads_conseq {A} (m : M W E A) (φ ψ : A → W → Prop) :
  reads m φ → (∀ a w, φ a w → ψ a w) → reads m ψ.
Proof. intros Hm Hw w0. eapply triple_conseq; [apply Hm|naive_solver..]. Qed.

Lemma reads_ret {A} (a : A) (φ : A → W → Prop) : (∀ w, φ a w) → reads (E:=E) (retM a) φ.
Proof. intros H w0. by apply triple_ret; intros ? ->. Qed.
Lemma reads_throw {A} (e : E) (φ : A → W → Prop) : reads (throw e) φ.
Proof. intros w0. by apply triple_throw. Qed.
Lemma reads_gets {A} (f : W → A) : reads (E:=E) (gets f) (λ a w, a = f w).
Proof. intros w0. by apply triple_gets; intros ? ->. Qed.
Lemma reads_call (e : E) : reads (W:=W) (sys_or e id) (λ _ _, True).
Proof. intros w0. by apply triple_sys_or; intros ? ->. Qed.
Lemma reads_sys_id : reads (W:=W) (E:=E) (sys id) (λ _ _, True).
Proof. intros w0. by apply triple_sys; intros ? ->. Qed.
Lemma reads_now : reads (W:=W) (E:=E) now (λ _ _, True).
Proof. intros w0. by apply triple_now; intros ? ? ->. Qed.

Lemma preserves_reads {A} (m : M W E A) φ I : reads m φ → preserves I m.
Proof.
  intros Hm. eapply triple_conseq; [by apply triple_reads|naive_solver..].
Qed.

  (** A sequence of read-only steps whose first value is forgotten. *)
Lemma reads_seq {A B} (m : M W E A) (k : A → M W E B) ψ :
    reads m (λ _ _, True) → (∀ a, reads (k a) ψ) → reads (bindM m k) ψ.
  Proof.
    intros Hm Hk. eapply reads_bind; [exact Hm|]. intros a.
    eapply reads_conseq; [apply Hk|]. auto.
  Qed.
End reads.

(** Branch on the outermost condition of a program. *)
Ltac prog_if E :=
  match goal with
  | |- reads (if ?b then _ else _) _ => destruct b eqn:E
  | |- triple _ (if ?b then _ else _) _ _ _ => destruct b eqn:E
  | |- preserves _ (if ?b then _ else _) => destruct b eqn:E
  end.

Create HintDb effects.
#[export] Hint Resolve preserves_ret preserves_throw preserves_gets preserves_now
  preserves_modify preserves_sys preserves_sys_or preserves_try : effects.

(** Split an invariant goal along the program's control flow. *)
Ltac presv :=
  repeat first
    [ apply preserves_bind; [|intros ?]
    | progress (simpl; auto with effects)
    | case_match; simpl ].

(** [m] returns no error. *)
Definition nothrow {W E A} (m : M W E A) : Prop := ∀ v w,
  match m v w with (Err _, _, _) => False | _ => True end.

Section nothrow.
  Context {W E : Type}.

Lemma triple_nothrow {A} (m : M W E A) P Q R R' C :
  nothrow m → triple P m Q R C → triple P m Q R' C.
Proof.
  intros Hn Hm v w Hw. specialize (Hm v w Hw). specialize (Hn v w).
  by destruct (m v w) as [[[a|e|] v'] w'].
Qed.

Lemma nothrow_bind {A B} (m : M W E A) (k : A → M W E B) :
    nothrow m → (∀ a, nothrow (k a)) → nothrow (bindM m k).
  Proof.
    intros Hm Hk v w. specialize (Hm v w). unfold bindM.
    destruct (m v w) as [[[a|e|] v'] w']; [apply Hk|done..].
  Qed.
Lemma nothrow_ret {A} (a : A) : nothrow (W:=W) (E:=E) (retM a).
  Proof. done. Qed.
Lemma nothrow_gets {A} (f : W → A) : nothrow (E:=E) (gets f).
  Proof. done. Qed.
Lemma nothrow_modify (f : W → W) : nothrow (E:=E) (modify f).
  Proof. done. Qed.
Lemma nothrow_sys (f : W → W) : nothrow (E:=E) (sys f).
  Proof. intros v w. unfold sys. by destruct (e_faults v) as [|[]]. Qed.
Lemma nothrow_now : nothrow (W:=W) (E:=E) now.
  Proof. intros v w. unfold now. by destruct (e_clock v) as [|? [|]]. Qed.
Lemma nothrow_try {E' A} (m : M W E' A) : nothrow (E:=E) (try m).
  Proof. intros v w. unfold try. by destruct (m v w) as [[[]?]?]. Qed.
End nothrow.

#[export] Hint Resolve nothrow_ret nothrow_gets nothrow_modify nothrow_sys nothrow_now
  nothrow_try : effects.

Ltac nothrow_tac :=
  repeat first
    [ apply nothrow_bind; [|intros ?]
    | progress (auto with effects)
    | match goal with
      | |- nothrow (if ?b then _ else _) => destruct b
      | |- nothrow (match ?x with _ => _ end) => destruct x
      end ].

(** A method on a part [V] of the world. *)
Definition zoom {W V E A} (get : W → V) (set : V → W → W) (m : M V E A) : M W E A := λ v w,
  match m v (get w) with
  | (Ok a, v', x) => (Ok a, v', set x w)
  | (Err e, v', x) => (Err e, v', set x w)
  | (Crashed, v', x) => (Crashed, v', set x w)
  end.

Lemma triple_zoom {W V E A} (get : W → V) (set : V → W → W) w0 (m : M V E A) Q (R : E → V → Prop) C :
  triple (λ x, x = get w0) m Q R C →
  triple (λ w, w = w0) (zoom get set m)
    (λ a w, ∃ x, w = set x w0 ∧ Q a x) (λ e w, ∃ x, w = set x w0 ∧ R e x) (λ w, ∃ x, w = set x w0 ∧ C x).
Proof.
  intros Hm v w ->. specialize (Hm v (get w0) eq_refl). unfold zoom.
  destruct (m v (get w0)) as [[[a|e|] v'] x]; eauto.
Qed.

(** The environment in which every system call succeeds at instant [t]. *)
Definition quiet (t : time) : env := Env [] [t].

(** Evaluation of a known step. *)
Lemma bindM_Ok {W E A B} (m : M W E A) (f : A → M W E B) v w a v' w' :
  m v w = (Ok a, v', w') → bindM m f v w = f a v' w'.
Proof. intros H. unfold bindM. by rewrite H. Qed.

Lemma now_quiet {W E} t (w : W) : now (E:=E) (quiet t) w = (Ok t, quiet t, w).
Proof. done. Qed.
Lemma sys_quiet {W E} (f : W → W) t w : sys (E:=E) f (quiet t) w = (Ok true, quiet t, f w).
Proof. done. Qed.
Lemma gets_run {W E A} (f : W → A) v w : gets (E:=E) f v w = (Ok (f w), v, w).
Proof. done. Qed.
Lemma modify_run {W E} (f : W → W) v w : modify (E:=E) f v w = (Ok tt, v, f w).
Proof. done. Qed.

(** [m] returns when no call fails. *)
Definition succeeds {W E A} (P : W → Prop) (m : M W E A) (Q : A → W → Prop) : Prop :=
  ∀ t w, P w → ∃ a w', m (quiet t) w = (Ok a, quiet t, w') ∧ Q a w'.

Section succeeds.
Context {W E : Type}.

Lemma succeeds_ret {A} P (a : A) Q : (∀ w, P w → Q a w) → succeeds (E:=E) (W:=W) P (retM a) Q.
Proof. intros H t w Hw. exists a, w. by split; [|apply H]. Qed.

Lemma succeeds_bind {A B} P (m : M W E A) (f : A → M W E B) Q' Q :
  succeeds P m Q' → (∀ a, succeeds (Q' a) (f a) Q) → succeeds P (bindM m f) Q.
Proof.
  intros Hm Hf t w Hw. destruct (Hm t w Hw) as (a & w' & Hrun & Ha).
  destruct (Hf a t w' Ha) as (b & w'' & Hrun' & Hb). exists b, w''.
  split; [|done]. by rewrite (bindM_Ok _ _ _ _ _ _ _ Hrun).
Qed.

Lemma succeeds_gets {A} P (f : W → A) Q : (∀ w, P w → Q (f w) w) → succeeds (E:=E) P (gets f) Q.
Proof. intros H t w Hw. exists (f w), w. by split; [|apply H]. Qed.

Lemma succeeds_sys P (f : W → W) (Q : bool → W → Prop) :
  (∀ w, P w → Q true (f w)) → succeeds (E:=E) P (sys f) Q.
Proof. intros H t w Hw. exists true, (f w). by split; [|apply H]. Qed.

Lemma succeeds_sys_or P (e : E) (f : W → W) (Q : unit → W → Prop) :
  (∀ w, P w → Q tt (f w)) → succeeds P (sys_or e f) Q.
Proof. intros H t w Hw. exists tt, (f w). by split; [|apply H]. Qed.

Lemma succeeds_try {E' A} P (m : M W E A) (Q : E + A → W → Prop) :
  succeeds P m (λ a, Q (inr a)) → succeeds (E:=E') P (try m) Q.
Proof.
  intros H t w Hw. destruct (H t w Hw) as (a & w' & Hrun & Ha). exists (inr a), w'.
  split; [|done]. unfold try. by rewrite Hrun.
Qed.

(** What a successful run yields is what the triple of the program says. *)
Lemma succeeds_triple {A} P (m : M W E A) Q R C :
  succeeds P m (λ _ _, True) → triple P m Q R C → succeeds P m Q.
Proof.
  intros Hs Ht t w Hw. destruct (Hs t w Hw) as (a & w' & Hrun & _). exists a, w'.
  split; [done|]. specialize (Ht (quiet t) w Hw). by rewrite Hrun in Ht.
Qed.

Lemma succeeds_pure_r {A} (φ : Prop) P (m : M W E A) Q :
  (φ → succeeds P m Q) → succeeds (λ w, P w ∧ φ) m Q.
Proof. intros H t w [Hw Hφ]. by apply H. Qed.

Lemma succeeds_weaken {A} P P' (m : M W E A) Q Q' :
  (∀ w, P w → P' w) → succeeds P' m Q' → (∀ a w, Q' a w → Q a w) → succeeds P m Q.
Proof. intros HP Hm HQ t w Hw. destruct (Hm t w (HP w Hw)) as (a & w' & ? & ?). eauto. Qed.
End succeeds.
