(* ===== verification/GoText.v ===== *)
(** * GoText: the parts of strings, strconv and path/filepath the agent uses

    Functions of the Go standard library on byte strings, as the code calls
    them: splitting, numbers, and lexical paths on Unix. *)

From S2P Require Import Prelude GoStr.
From Stdlib Require Import Ascii NArith.
From stdpp Require Import pretty.

Local Open Scope Z_scope.
Local Open Scope go_scope.

(** ** Splitting *)

(** [strings.Split(s, sep)] for a one-byte separator. *)
Fixpoint split_chars (sep : ascii) (l : list ascii) : list (list ascii) :=
  match l with
  | [] => [[]]
  | a :: l =>
    if Ascii.eqb a sep then [] :: split_chars sep l
    else match split_chars sep l with
         | w :: ws => (a :: w) :: ws
         | [] => [[a]]
         end
  end.

Definition Split (s : string) (sep : ascii) : list string :=
  map of_chars (split_chars sep (to_chars s)).

(** The width of the white-space rune in front, [0] if there is none. *)
Definition space_width (l : list ascii) : nat :=
  match l with
  | a :: l1 =>
    if space1 a then 1 else
    match l1 with
    | b :: l2 =>
      if space2 a b then 2 else
      match l2 with c :: _ => if space3 a b c then 3 else 0 | [] => 0 end
    | [] => 0
    end
  | [] => 0
  end%nat.

(** [strings.Fields]: [skip] bytes of a space rune remain, [cur] is the current
    word, reversed. *)
Fixpoint fields_chars (skip : nat) (cur : list ascii) (l : list ascii) : list (list ascii) :=
  let flush := match cur with [] => [] | _ => [reverse cur] end in
  match l with
  | [] => flush
  | a :: l' =>
    match skip with
    | S skip => fields_chars skip cur l'
    | O =>
      match space_width l with
      | O => fields_chars 0 (a :: cur) l'
      | S w => flush ++ fields_chars w [] l'
      end
    end
  end.

Definition Fields (s : string) : list string := map of_chars (fields_chars 0 [] (to_chars s)).

Fixpoint Join (l : list string) (sep : string) : string :=
  match l with
  | [] => ""
  | [s] => s
  | s :: l => s +:+ sep +:+ Join l sep
  end.

Definition TrimPrefix (s p : string) : string :=
  if HasPrefix s p then String.substring (String.length p) (String.length s - String.length p) s else s.

(** [s[n:]] and [s[:n]] for an in-range [n]. *)
Definition str_drop (n : nat) (s : string) : string := of_chars (drop n (to_chars s)).
Definition str_take (n : nat) (s : string) : string := of_chars (take n (to_chars s)).

(** The text after the last occurrence of [p] ([strings.LastIndex]). *)
Fixpoint after_last (s p : string) : option string :=
  match s with
  | EmptyString => if is_empty p then Some "" else None
  | String _ s' =>
    match after_last s' p with
    | Some r => Some r
    | None => if HasPrefix s p then Some (str_drop (String.length p) s) else None
    end
  end.

(** The text before the first occurrence of a byte ([strings.IndexByte]). *)
Fixpoint before_byte (s : string) (c : ascii) : option string :=
  match s with
  | EmptyString => None
  | String a s => if Ascii.eqb a c then Some "" else String a <$> before_byte s c
  end.

Definition has_byte (s : string) (c : ascii) : bool :=
  match before_byte s c with Some _ => true | None => false end.

(** A string in double quotes: [fmt]'s [%q] of printable ASCII without quotes
    and backslashes. *)
Definition dquote : ascii := ascii_of_nat 34.
Definition quoted (s : string) : string := String dquote s +:+ String dquote EmptyString.

(** ** UTF-8 *)

Definition continuation (a : ascii) : bool := in_rng 128 191 (code a).

(** The width of the valid rune at the head, 0 when there is none. *)
Definition rune_width (l : list ascii) : nat :=
  match l with
  | [] => 0
  | a :: l =>
    let n := code a in
    if N.ltb n 128 then 1%nat else
    match l with
    | [] => 0%nat
    | b :: l =>
      let m := code b in
      if in_rng 194 223 n then if continuation b then 2%nat else 0%nat else
      match l with
      | [] => 0%nat
      | c :: l =>
        let second := if N.eqb n 224 then in_rng 160 191 m else if N.eqb n 237 then in_rng 128 159 m
                      else continuation b in
        if in_rng 224 239 n then if second && continuation c then 3%nat else 0%nat else
        match l with
        | [] => 0%nat
        | d :: _ =>
          let second := if N.eqb n 240 then in_rng 144 191 m else if N.eqb n 244 then in_rng 128 143 m
                        else continuation b in
          if in_rng 240 244 n && second && continuation c && continuation d then 4%nat else 0%nat
        end
      end
    end
  end.

(** ** Numbers *)

Definition is_digit (a : ascii) : bool := in_rng 48 57 (code a).

Fixpoint parse_dec (acc : Z) (l : list ascii) : option Z :=
  match l with
  | [] => Some acc
  | a :: l => if is_digit a then parse_dec (10 * acc + Z.of_N (code a - 48)) l else None
  end.

(** [strconv.Atoi]. *)
Definition Atoi (s : string) : option Z :=
  let '(neg, l) :=
    match to_chars s with
    | a :: l => if Ascii.eqb a "-" then (true, l) else if Ascii.eqb a "+" then (false, l) else (false, a :: l)
    | [] => (false, [])
    end in
  match l with
  | [] => None
  | _ => n ← parse_dec 0 l;
         let z := if neg : bool then - n else n in
         if in_int64 z then Some z else None
  end.

(** [strconv.ParseUint(s, 10, 64)] *)
Definition ParseUint10 (s : string) : option Z :=
  match to_chars s with [] => None | l => n ← parse_dec 0 l; if n <=? max_uint64 then Some n else None end.

Definition Itoa (z : Z) : string := pretty z.

Definition hex_digit (a : ascii) : option Z :=
  if is_digit a then Some (Z.of_N (code a - 48))
  else if in_rng 97 102 (code a) then Some (Z.of_N (code a - 87))
  else if in_rng 65 70 (code a) then Some (Z.of_N (code a - 55))
  else None.

Fixpoint parse_hex (acc : Z) (l : list ascii) : option Z :=
  match l with
  | [] => Some acc
  | a :: l => d ← hex_digit a; parse_hex (16 * acc + d) l
  end.

(** The value [strconv.ParseUint(s, 16, 16)] returns, error ignored: 0 on a
    syntax error, the maximum when the number is too large.  The scan stops at
    the first overflow, so a later bad digit is not seen. *)
Fixpoint uint16_hex (acc : Z) (l : list ascii) : Z :=
  match l with
  | [] => acc
  | a :: l =>
    match hex_digit a with
    | None => 0
    | Some d => if 65535 <? 16 * acc + d then 65535 else uint16_hex (16 * acc + d) l
    end
  end.

(** [hex.DecodeString]. *)
Fixpoint hex_bytes (l : list ascii) : option (list Z) :=
  match l with
  | [] => Some []
  | a :: b :: l => x ← hex_digit a; y ← hex_digit b; (16 * x + y ::.) <$> hex_bytes l
  | _ => None
  end.

(** ** Paths *)

Definition slash : ascii := "/"%char.

Definition IsAbs (p : string) : bool := HasPrefix p "/".

(** One component applied to the stack of [filepath.Clean] (innermost first). *)
Definition clean_step (rooted : bool) (stack : list string) (c : string) : list string :=
  if is_empty c || str_eqb c "." then stack
  else if str_eqb c ".." then
    match stack with
    | t :: rest => if str_eqb t ".." then ".." :: stack else rest
    | [] => if rooted then [] else [".."]
    end
  else c :: stack.

Definition clean_components (rooted : bool) (p : string) : list string :=
  reverse (fold_left (clean_step rooted) (Split p slash) []).

(** [filepath.Clean]. *)
Definition Clean (p : string) : string :=
  if is_empty p then "." else
  let rooted := IsAbs p in
  let body := Join (clean_components rooted p) "/" in
  if rooted then "/" +:+ body else if is_empty body then "." else body.

(** [filepath.Join] of two elements. *)
Definition JoinPath (a b : string) : string :=
  if is_empty a then (if is_empty b then "" else Clean b)
  else if is_empty b then Clean a
  else Clean (a +:+ "/" +:+ b).

Fixpoint drop_slashes (l : list ascii) : list ascii :=
  match l with a :: l' => if Ascii.eqb a slash then drop_slashes l' else l | [] => [] end.

Fixpoint until_slash (l : list ascii) : list ascii :=
  match l with a :: l => if Ascii.eqb a slash then [] else a :: until_slash l | [] => [] end.

(** [filepath.Base] and [filepath.Dir]. *)
Definition Base (p : string) : string :=
  if is_empty p then "." else
  match drop_slashes (reverse (to_chars p)) with
  | [] => "/"
  | l => of_chars (reverse (until_slash l))
  end.

Definition Dir (p : string) : string :=
  let l := reverse (to_chars p) in
  Clean (of_chars (reverse (drop (length (until_slash l)) l))).

(** ** Facts *)

Lemma str_app_nil_r (s : string) : s +:+ "" = s.
Proof. induction s as [|a s IH]; [done|]. unfold String.app in *. simpl. by rewrite IH. Qed.

Lemma HasPrefix_app (s t : string) : HasPrefix (s +:+ t) s = true.
Proof.
  unfold HasPrefix, String.app. induction s as [|a s IH]; [by destruct t|].
  simpl. destruct (ascii_dec a a); [exact IH|done].
Qed.

Lemma Join_cons c l : l ≠ [] → Join (c :: l) "/" = c +:+ "/" +:+ Join l "/".
Proof. by destruct l. Qed.

(** A path whose components start with those of a directory is that directory
    or lies below it in the sense of a string prefix. *)
Lemma Join_prefix l rest : l ≠ [] →
  Join (l ++ rest) "/" = match rest with [] => Join l "/" | _ => Join l "/" +:+ "/" +:+ Join rest "/" end.
Proof.
  intros Hl. destruct rest as [|r rest]; [by rewrite app_nil_r|].
  induction l as [|c l IH]; [done|]. destruct l as [|d l].
  - done.
  - cbn [app]. rewrite Join_cons by done.
    change (d :: (l ++ r :: rest)) with ((d :: l) ++ r :: rest). rewrite IH by done.
    rewrite (Join_cons c (d :: l)) by done. by rewrite !str_app_assoc.
Qed.

(** The components of a cleaned absolute path are proper names. *)
Definition proper_name (c : string) : Prop := c ≠ "" ∧ c ≠ "." ∧ c ≠ "..".

Lemma clean_step_proper stack c : Forall proper_name stack → Forall proper_name (clean_step true stack c).
Proof.
  intros Hs. unfold clean_step.
  destruct (is_empty c) eqn:H1; [done|]. destruct (str_eqb c ".") eqn:H2; [done|]. simpl.
  destruct (str_eqb c "..") eqn:H3.
  - destruct Hs as [|t rest Ht Hrest]; [done|]. destruct (str_eqb t "..") eqn:H4; [|done].
    apply str_eqb_eq in H4. subst. by destruct Ht as (_ & _ & ?).
  - apply is_empty_false in H1. apply str_eqb_neq in H2, H3. by constructor.
Qed.

Lemma clean_components_proper p : Forall proper_name (clean_components true p).
Proof.
  unfold clean_components. apply Forall_reverse.
  assert (∀ l stack, Forall proper_name stack → Forall proper_name (fold_left (clean_step true) l stack))
    as H; [|by apply H].
  induction l as [|c l IH]; intros stack Hs; [done|]. by apply IH, clean_step_proper.
Qed.

Lemma Clean_abs p : IsAbs p = true → Clean p = "/" +:+ Join (clean_components true p) "/".
Proof. intros H. unfold Clean. rewrite H. by destruct p. Qed.

Lemma strlen_chars s : strlen s = Z.of_nat (length (to_chars s)).
Proof. unfold strlen. f_equal. induction s; simpl; congruence. Qed.

Lemma strlen_app s t : strlen (s +:+ t) = strlen s + strlen t.
Proof. rewrite !strlen_chars, to_chars_app, length_app. lia. Qed.

Lemma to_chars_str_take n s : to_chars (str_take n s) = take n (to_chars s).
Proof. apply to_of_chars. Qed.

Lemma strlen_str_take n s : strlen (str_take n s) = Z.min (Z.of_nat n) (strlen s).
Proof. rewrite !strlen_chars, to_chars_str_take, length_take. lia. Qed.

Lemma str_app_inj (s1 s2 t1 t2 : string) :
  strlen t1 = strlen t2 → s1 +:+ t1 = s2 +:+ t2 → s1 = s2 ∧ t1 = t2.
Proof.
  intros Hl H. apply (f_equal to_chars) in H. rewrite !to_chars_app in H.
  rewrite !strlen_chars in Hl. apply app_inj_2 in H as [H1 H2]; [|lia].
  split; [rewrite <-(of_to_chars s1), <-(of_to_chars s2)|rewrite <-(of_to_chars t1), <-(of_to_chars t2)];
    congruence.
Qed.

Lemma string_eq s t : to_chars s = to_chars t → s = t.
Proof. intros E. by rewrite <- (of_to_chars s), E, of_to_chars. Qed.

(** Pieces without the separator, each ended by it, come apart again. *)
Lemma ended_app_inj (c : ascii) (r r' s s' : list ascii) : c ∉ r → c ∉ r' → r ++ c :: s = r' ++ c :: s' → r = r' ∧ s = s'.
Proof.
  revert r'. induction r as [|a r IH]; intros [|a' r'] Hr Hr' E; cbn in E; rewrite ?not_elem_of_cons in *.
  - by simplify_eq.
  - simplify_eq. naive_solver.
  - simplify_eq. naive_solver.
  - injection E as -> E. destruct (IH r') as [-> ->]; naive_solver.
Qed.
