(* ===== verification/GoFields.v ===== *)
(** * GoFields: texts of words and decimal numbers

    How [Fields], [TrimSpace], [Atoi] and [ParseUint] read back what was written
    with [Join] and [Itoa]; searching for a byte. *)

From stdpp Require Import pretty.
From S2P Require Import Prelude GoStr GoText.
From Stdlib Require Import Ascii NArith.

Local Open Scope Z_scope.
Local Open Scope go_scope.

(** ** Searching for a byte *)

(** [strings.IndexByte] and [strings.LastIndexByte]. *)
Fixpoint index_byte (a : ascii) (l : list ascii) : option nat :=
  match l with [] => None | b :: l => if Ascii.eqb b a then Some O else S <$> index_byte a l end.
Fixpoint last_index_byte (a : ascii) (l : list ascii) : option nat :=
  match l with
  | [] => None
  | b :: l => match last_index_byte a l with Some n => Some (S n) | None => if Ascii.eqb b a then Some O else None end
  end.

Lemma index_byte_first a l l' : a ∉ l → index_byte a (l ++ a :: l') = Some (length l).
Proof.
  induction l as [|b l IH]; cbn; [by rewrite Ascii.eqb_refl|]. rewrite not_elem_of_cons. intros [Hne Hl].
  destruct (Ascii.eqb_spec b a); [done|]. by rewrite IH.
Qed.

Lemma last_index_byte_none a l : a ∉ l → last_index_byte a l = None.
Proof.
  induction l as [|b l IH]; cbn; [done|]. rewrite not_elem_of_cons. intros [Hne Hl]. rewrite IH by done.
  by destruct (Ascii.eqb_spec b a).
Qed.

Lemma last_index_byte_last a l l' : a ∉ l' → last_index_byte a (l ++ a :: l') = Some (length l).
Proof.
  intros Hl. induction l as [|b l IH]; cbn; [by rewrite (last_index_byte_none a l'), Ascii.eqb_refl|]. by rewrite IH.
Qed.

(** ** Words *)

(** An ASCII byte that is no space. *)
Definition plain (a : ascii) : Prop := (code a < 128)%N ∧ space1 a = false.
(** A non-empty text of such bytes. *)
Definition word (s : string) : Prop := to_chars s ≠ [] ∧ Forall plain (to_chars s).

#[export] Instance plain_dec a : Decision (plain a).
Proof. unfold plain. apply _. Defined.
#[export] Instance word_dec s : Decision (word s).
Proof. unfold word. apply _. Defined.

Lemma plain_space2 a b : plain a → space2 a b = false.
Proof. intros [Ha _]. unfold space2. destruct (N.eqb_spec (code a) 194); [lia|done]. Qed.
Lemma plain_space2_r a b : plain b → space2 a b = false.
Proof.
  intros [Hb _]. unfold space2. destruct (N.eqb_spec (code b) 133); [lia|]. destruct (N.eqb_spec (code b) 160); [lia|].
  by rewrite ?andb_false_r.
Qed.
Lemma plain_space3 a b c : plain a → space3 a b c = false.
Proof.
  intros [Ha _]. unfold space3. repeat (match goal with |- context [N.eqb (code a) ?n] => destruct (N.eqb_spec (code a) n); [lia|] end). done.
Qed.
Lemma plain_space3_r a b c : plain c → space3 a b c = false.
Proof.
  intros [Hc _]. unfold space3, in_rng.
  repeat match goal with |- context [N.eqb (code c) ?n] => destruct (N.eqb_spec (code c) n); [lia|] end.
  repeat match goal with |- context [N.leb ?n (code c)] => destruct (N.leb_spec n (code c)); [lia|] end.
  by rewrite ?andb_false_r.
Qed.

Lemma space_width_plain a l : plain a → space_width (a :: l) = O.
Proof.
  intros Ha. unfold space_width. rewrite (proj2 Ha). destruct l as [|b [|c l]]; [done|by rewrite plain_space2|by rewrite plain_space2, plain_space3].
Qed.

Lemma fields_word w cur l : Forall plain w → fields_chars 0 cur (w ++ l) = fields_chars 0 (reverse w ++ cur) l.
Proof.
  intros Hw. revert cur. induction Hw as [|a w Ha Hw IH]; intros cur; [done|]. cbn [app fields_chars].
  rewrite space_width_plain by done. rewrite IH. by rewrite reverse_cons, <- app_assoc.
Qed.

Lemma fields_space cur l : cur ≠ [] → fields_chars 0 cur (" "%char :: l) = reverse cur :: fields_chars 0 [] l.
Proof. intros Hc. cbn. by destruct cur. Qed.

Lemma fields_last w : w ≠ [] → Forall plain w → fields_chars 0 [] w = [w].
Proof.
  intros Hne Hw. pose proof (fields_word w [] [] Hw) as H. rewrite !app_nil_r in H. rewrite H. cbn.
  destruct (reverse w) eqn:E; [by apply (f_equal reverse) in E; rewrite reverse_involutive in E|]. by rewrite <- E, reverse_involutive.
Qed.

(** Words joined by spaces come apart again. *)
Lemma Fields_Join ws : Forall word ws → Fields (Join ws " ") = ws.
Proof.
  unfold Fields. induction 1 as [|w ws [Hne Hw] Hws IH]; [done|]. destruct ws as [|w' ws].
  - cbn [Join]. rewrite fields_last by done. cbn. by rewrite of_to_chars.
  - change (Join (w :: w' :: ws) " ") with (w +:+ " " +:+ Join (w' :: ws) " ").
    rewrite !to_chars_app. change (to_chars " ") with [" "%char]. cbn [app].
    rewrite (fields_word (to_chars w)) by done. rewrite app_nil_r, fields_space.
    + cbn [map]. rewrite reverse_involutive, of_to_chars. by f_equal.
    + intros E. apply (f_equal reverse) in E. by rewrite reverse_involutive in E.
Qed.

Lemma Join_ends w ws : Forall word (w :: ws) → ∃ a l b l', to_chars (Join (w :: ws) " ") = a :: l ∧ plain a ∧ to_chars (Join (w :: ws) " ") = l' ++ [b] ∧ plain b.
Proof.
  revert w. induction ws as [|w' ws IH]; intros w [[Hne Hw] Hws]%Forall_cons.
  - cbn [Join]. destruct (to_chars w) as [|a l] eqn:E; [done|]. exists a, l.
    destruct (@exists_last _ (a :: l)) as (l' & b & E'); [done|]. exists b, l'. apply Forall_cons in Hw as Hw'. destruct Hw' as [Ha _].
    rewrite E' in Hw. apply Forall_app in Hw as [_ [Hb _]%Forall_cons]. by split_and!.
  - destruct (IH w' Hws) as (_ & _ & b & l' & _ & _ & El & Hb).
    change (Join (w :: w' :: ws) " ") with (w +:+ " " +:+ Join (w' :: ws) " "). rewrite !to_chars_app, El.
    destruct (to_chars w) as [|a l] eqn:E; [done|]. apply Forall_cons in Hw as [Ha _].
    eexists a, _, b, _. split; [done|]. split; [done|]. split; [by rewrite !app_assoc|done].
Qed.

(** ** Trimming *)

Lemma strip_spaces sp2 sp3 p l : Forall (λ a, space1 a = true) p → strip sp2 sp3 (p ++ l) = strip sp2 sp3 l.
Proof. induction 1 as [|a p Ha Hp IH]; [done|]. cbn [app strip]. by rewrite Ha. Qed.

Lemma head_plain a l : plain a → head_space space2 space3 (a :: l) = false.
Proof. intros Ha. cbn. rewrite (proj2 Ha). destruct l as [|b [|c l]]; [done|by rewrite plain_space2|by rewrite plain_space2, plain_space3]. Qed.
Lemma head_plain_rev a l : plain a → head_space (λ b a, space2 a b) (λ c b a, space3 a b c) (a :: l) = false.
Proof. intros Ha. cbn. rewrite (proj2 Ha). destruct l as [|b [|c l]]; [done|by rewrite plain_space2_r|by rewrite plain_space2_r, plain_space3_r]. Qed.

(** A text between two plain bytes, padded with spaces. *)
Lemma TrimSpace_pad p a l b l' q : Forall (λ a, space1 a = true) p → Forall (λ a, space1 a = true) q → plain a → plain b → a :: l = l' ++ [b] →
  TrimSpace (of_chars (p ++ (a :: l) ++ q)) = of_chars (a :: l).
Proof.
  intros Hp Hq Ha Hb E. unfold TrimSpace, trim_chars, strip_left, strip_rev. rewrite to_of_chars, strip_spaces by done.
  rewrite (strip_id _ _ ((a :: l) ++ q)) by (cbn [app]; by apply head_plain).
  rewrite reverse_app, strip_spaces by (by apply Forall_reverse). rewrite E, reverse_app. cbn [reverse rev_append app].
  rewrite strip_id by (by apply head_plain_rev). change (b :: reverse l') with (reverse [b] ++ reverse l').
  by rewrite <- reverse_app, reverse_involutive.
Qed.

(** ** Decimal numbers *)

Definition digit_byte (a : ascii) : Prop := is_digit a = true.

Lemma digit_plain a : digit_byte a → plain a.
Proof.
  unfold digit_byte, is_digit, plain, space1, in_rng. rewrite andb_true_iff, !N.leb_le. intros [H1 H2]. split; [lia|].
  apply orb_false_iff. split; [|apply N.eqb_neq; lia]. apply andb_false_iff. right. apply N.leb_gt. lia.
Qed.

Lemma parse_dec_app l l' acc : Forall digit_byte l → ∃ n, parse_dec acc (l ++ l') = parse_dec n l' ∧ parse_dec acc l = Some n.
Proof.
  intros Hl. revert acc. induction Hl as [|a l Ha Hl IH]; intros acc; [by exists acc|]. cbn. rewrite Ha. apply IH.
Qed.

Lemma pretty_digit x : (x < 10)%N → is_digit (pretty_N_char x) = true ∧ Z.of_N (code (pretty_N_char x) - 48) = Z.of_N x.
Proof.
  intros Hx. assert (x = 0 ∨ x = 1 ∨ x = 2 ∨ x = 3 ∨ x = 4 ∨ x = 5 ∨ x = 6 ∨ x = 7 ∨ x = 8 ∨ x = 9)%N as H by lia.
  by repeat destruct H as [->|H]; [..|subst].
Qed.

Lemma pretty_go_digits x : ∀ s, ∃ ds, to_chars (pretty_N_go x s) = ds ++ to_chars s ∧ Forall digit_byte ds ∧
  ((0 < x)%N → ds ≠ []) ∧ ∀ l, parse_dec 0 (ds ++ l) = parse_dec (Z.of_N x) l.
Proof.
  induction (N.lt_wf_0 x) as [x _ IH]; intros s. destruct (decide (x = 0)%N) as [->|Hx].
  { exists []. rewrite pretty_N_go_0. by split_and!. }
  rewrite pretty_N_go_step by lia. destruct (IH (x `div` 10)%N ltac:(apply N.div_lt; lia) (String (pretty_N_char (x `mod` 10)) s)) as (ds & E & Hd & _ & Hp).
  pose proof (N.mod_lt x 10 ltac:(done)) as Hm. destruct (pretty_digit _ Hm) as [Hdig Hval].
  exists (ds ++ [pretty_N_char (x `mod` 10)]). rewrite E. split_and!.
  - by rewrite <- app_assoc.
  - apply Forall_app. by repeat constructor.
  - intros _ H%app_nil. by destruct H.
  - intros l. rewrite <- app_assoc, Hp. cbn [app parse_dec]. rewrite Hdig, Hval. f_equal. pose proof (N.div_mod x 10 ltac:(done)). lia.
Qed.

Lemma pretty_N_digits (x : N) : ∃ ds, to_chars (pretty x) = ds ∧ ds ≠ [] ∧ Forall digit_byte ds ∧ parse_dec 0 ds = Some (Z.of_N x).
Proof.
  unfold pretty, pretty_N. destruct (decide (x = 0)%N) as [->|Hx]; [eexists; by repeat constructor|].
  destruct (pretty_go_digits x "") as (ds & E & Hd & Hne & Hp). exists ds. cbn in E. rewrite app_nil_r in E.
  split_and!; [done|apply Hne; lia|done|]. specialize (Hp []). rewrite app_nil_r in Hp. by rewrite Hp.
Qed.

Lemma Itoa_shape z : ∃ ds, to_chars (Itoa z) = (if z <? 0 then ["-"%char] else []) ++ ds ∧ ds ≠ [] ∧ Forall digit_byte ds ∧
  parse_dec 0 ds = Some (Z.abs z).
Proof.
  destruct (pretty_N_digits (Z.to_N (Z.abs z))) as (ds & E & Hne & Hd & Hp). rewrite Z2N.id in Hp by lia. exists ds. split; [|done].
  rewrite <- E. unfold Itoa, pretty at 1, pretty_Z. by destruct z.
Qed.

Lemma digit_no_sign a : digit_byte a → Ascii.eqb a "-" = false ∧ Ascii.eqb a "+" = false.
Proof. intros Ha. split; apply Ascii.eqb_neq; by intros ->. Qed.

Lemma Atoi_Itoa z : in_int64 z = true → Atoi (Itoa z) = Some z.
Proof.
  intros Hz. destruct (Itoa_shape z) as (ds & E & Hne & Hd & Hp). unfold Atoi. rewrite E. destruct ds as [|a l]; [done|].
  apply Forall_cons in Hd as [Ha _]. destruct (digit_no_sign a Ha) as [H1 H2].
  destruct (Z.ltb_spec z 0) as [H|H]; cbn [app]; [change (Ascii.eqb "-" "-") with true|rewrite H1, H2]; cbn [mbind option_bind]; rewrite Hp; cbn.
  - by rewrite Z.abs_neq, Z.opp_involutive, Hz by lia.
  - by rewrite Z.abs_eq, Hz by lia.
Qed.

Lemma ParseUint10_Itoa z : 0 <= z <= max_uint64 → ParseUint10 (Itoa z) = Some z.
Proof.
  intros Hz. destruct (Itoa_shape z) as (ds & E & Hne & Hd & Hp). unfold ParseUint10. rewrite E, (proj2 (Z.ltb_ge _ _) (proj1 Hz)). destruct ds as [|a l]; [done|].
  cbn [app]. rewrite Hp. cbn. by rewrite Z.abs_eq, (proj2 (Z.leb_le _ _) (proj2 Hz)) by lia.
Qed.

(** The bytes of a number. *)
Lemma Itoa_bytes z : Forall (λ a, digit_byte a ∨ a = "-"%char) (to_chars (Itoa z)).
Proof.
  destruct (Itoa_shape z) as (ds & -> & _ & Hd & _). apply Forall_app. split; [destruct (z <? 0); repeat constructor; by right|].
  eapply Forall_impl; [done|]. by left.
Qed.

Lemma word_Itoa z : word (Itoa z).
Proof.
  split.
  - destruct (Itoa_shape z) as (ds & -> & Hne & _). destruct (z <? 0); [done|]. exact Hne.
  - eapply Forall_impl; [apply Itoa_bytes|]. cbn. intros a [Ha| ->]; [by apply digit_plain|done].
Qed.

Lemma not_elem_of_Itoa a z : is_digit a = false → a ≠ "-"%char → a ∉ to_chars (Itoa z).
Proof.
  intros Ha Hm Hin. pose proof (Itoa_bytes z) as H. rewrite Forall_forall in H. destruct (H a Hin) as [Hd| ->]; [|done].
  unfold digit_byte in Hd. congruence.
Qed.

Lemma not_elem_of_Join a ws : a ≠ " "%char → Forall (λ w, a ∉ to_chars w) ws → a ∉ to_chars (Join ws " ").
Proof.
  intros Ha. induction 1 as [|w ws Hw Hws IH]; [by apply not_elem_of_nil|]. destruct ws as [|w' ws]; [done|].
  change (Join (w :: w' :: ws) " ") with (w +:+ " " +:+ Join (w' :: ws) " "). rewrite !to_chars_app, !not_elem_of_app. split; [done|]. split; [|done].
  change (to_chars " ") with [" "%char]. by rewrite list_elem_of_singleton.
Qed.
