(* ===== verification/GoJson.v ===== *)
(** * GoJson: decoding of JSON documents into Go values

    [encoding/json] is modelled after its scanner: a document is the tree the
    scanner delivers (object members in document order, duplicates included),
    and [json.Unmarshal] into a struct is a fold over the members.  A member
    goes to the field of that exact name, else to the first field of the same
    folded name; [null] leaves a non-pointer untouched and clears a pointer; a
    member of the wrong type makes the whole call fail. *)

From S2P Require Import Prelude GoStr.
From Stdlib Require Import Ascii NArith.

Local Open Scope Z_scope.
Local Open Scope go_scope.

#[warnings="-register-all"]
Inductive json :=
  | JNull
  | JBool (b : bool)
  | JInt (z : Z)                       (** a literal without fraction or exponent *)
  | JFrac (lit : string)               (** any other number literal *)
  | JStr (s : string)
  | JArr (l : list json)
  | JObj (kvs : list (string * json)).

(** ** Field names *)

(** The case folding of member names: ASCII letters to upper case and the two
    runes (U+017F, U+212A) that fold to an ASCII letter. *)
Fixpoint fold_chars (l : list ascii) : list ascii :=
  match l with
  | a :: l1 =>
    match l1 with
    | b :: l2 =>
      if rune_017F a b then "S"%char :: fold_chars l2 else
      match l2 with
      | c :: l3 =>
        if rune_212A a b c then "K"%char :: fold_chars l3 else upper1 a :: fold_chars l1
      | [] => upper1 a :: fold_chars l1
      end
    | [] => [upper1 a]
    end
  | [] => []
  end.

Definition fold_name (s : string) : string := of_chars (fold_chars (to_chars s)).

(** ** Decoders *)

(** A decoder updates a target in place or fails. *)
Definition decoder (S : Type) : Type := json → S → option S.

Definition dec_string : decoder string := λ j s,
  match j with JNull => Some s | JStr t => Some t | _ => None end.
Definition dec_bool : decoder bool := λ j b,
  match j with JNull => Some b | JBool c => Some c | _ => None end.
Definition dec_int : decoder Z := λ j n,
  match j with JNull => Some n | JInt z => if in_int64 z then Some z else None | _ => None end.
Definition dec_raw : decoder (option json) := λ j _, Some (Some j).

(** A pointer: [null] clears it, anything else fills it, allocating [zero]. *)
Definition dec_ptr {A} (zero : A) (d : decoder A) : decoder (option A) := λ j p,
  match j with
  | JNull => Some None
  | _ => Some <$> d j (default zero p)
  end.

(** A slice: [null] is the nil slice, an array is decoded element by element. *)
Definition dec_slice {A} (zero : A) (d : decoder A) : decoder (list A) := λ j _,
  match j with
  | JNull => Some []
  | JArr l => mapM (λ x, d x zero) l
  | _ => None
  end.

Definition fields (S : Type) : Type := list (string * decoder S).

Definition find_field {S} (fs : fields S) (key : string) : option (decoder S) :=
  match List.find (λ f, str_eqb f.1 key) fs with
  | Some f => Some f.2
  | None => snd <$> List.find (λ f, str_eqb (fold_name f.1) (fold_name key)) fs
  end.

Definition dec_member {S} (fs : fields S) (acc : option S) (kv : string * json) : option S :=
  match acc, find_field fs kv.1 with
  | Some s, Some d => d kv.2 s
  | Some s, None => Some s
  | None, _ => None
  end.

Definition dec_struct {S} (fs : fields S) : decoder S := λ j s,
  match j with
  | JNull => Some s
  | JObj kvs => fold_left (dec_member fs) kvs (Some s)
  | _ => None
  end.

(** Lift a decoder of one field to the struct that has it. *)
Definition on_field {S A} (get : S → A) (set : A → S → S) (d : decoder A) : decoder S :=
  λ j s, (λ a, set a s) <$> d j (get s).

(** [json.Unmarshal(data, &v)] with [v] initially [zero]; [parse] is the
    scanner of [encoding/json] on a whole document. *)
Definition unmarshal {S} (parse : string → option json) (d : decoder S) (zero : S)
    (data : string) : option S :=
  match parse data with Some j => d j zero | None => None end.

Lemma dec_member_None {S} (fs : fields S) kvs : fold_left (dec_member fs) kvs None = None.
Proof. by induction kvs. Qed.

(** A property of the target that every field decoder maintains is maintained
    by the decoder of the struct. *)
Lemma dec_struct_inv {S} (fs : fields S) (I : S → Prop) j s s' :
  Forall (λ f, ∀ j s s', I s → f.2 j s = Some s' → I s') fs →
  I s → dec_struct fs j s = Some s' → I s'.
Proof.
  intros Hfs. destruct j; simpl; try done; [by intros ? [= <-]|].
  revert s. induction kvs as [|[k v] kvs IH]; intros s Hs; simpl; [by intros [= <-]|].
  destruct (find_field fs k) as [d|] eqn:Hd; [|by apply IH].
  destruct (d v s) as [t|] eqn:Ht; [|by rewrite dec_member_None].
  apply IH. unfold find_field in Hd.
  assert (∃ f, In f fs ∧ f.2 = d) as (f & Hf & <-).
  { destruct (List.find (λ f, str_eqb f.1 k) fs) as [f|] eqn:E; simplify_eq.
    - apply find_some in E as [??]. by exists f.
    - apply fmap_Some in Hd as (g & E2 & ->).
      apply find_some in E2 as [??]. by exists g. }
  rewrite List.Forall_forall in Hfs. by eapply Hfs.
Qed.
