(* ===== verification/Event.v ===== *)
(** * Event: the events the collectors report (protocol/event.go)

    [Extra] is a nil map or a map of decoded values; the helpers below are the
    ways the collectors build one. *)

From S2P Require Import Prelude GoStr GoJson.

Local Open Scope Z_scope.
Local Open Scope go_scope.

Record NetEvent := {
  ne_EventID : string; ne_AgentID : string; ne_EventType : string; ne_SchemaVersion : Z;
  ne_Timestamp : time; ne_SrcIP : string; ne_DstIP : string; ne_SrcPort : Z; ne_DstPort : Z;
  ne_Proto : string; ne_Bytes : Z; ne_Extra : option (gmap string json) }.

(** An event as the collectors create it: everything they leave out is zero. *)
Definition event (agentID eventType : string) (ts : time) (proto : string) (bytes : Z)
    (extra : gmap string json) : NetEvent := {|
  ne_EventID := ""; ne_AgentID := agentID; ne_EventType := eventType; ne_SchemaVersion := 0;
  ne_Timestamp := ts; ne_SrcIP := ""; ne_DstIP := ""; ne_SrcPort := 0; ne_DstPort := 0;
  ne_Proto := proto; ne_Bytes := bytes; ne_Extra := Some extra |}.

(** A member of [Extra] that is a string. *)
Definition extra_string (e : NetEvent) (key : string) : option string :=
  match ne_Extra e with
  | Some extra => match extra !! key with Some (JStr s) => Some s | _ => None end
  | None => None
  end.
