(* ===== verification/FileUtil.v ===== *)
(** * FileUtil: files replaced atomically (internal/config/fileutil.go)

    The file system is a finite map from paths to files, a file being its
    content and permission bits.  Every system call may fail without effect or
    be the point where the process is killed (file Effects).  The name
    [os.CreateTemp] picks is the prefix the code asks for followed by a suffix
    that makes it unused; the suffix is a parameter. *)

From S2P Require Import Prelude GoStr GoText Effects.
From Stdlib Require Import Ascii.

Local Open Scope Z_scope.
Local Open Scope go_scope.

Record file := File { f_data : string; f_mode : Z }.
Abbreviation files := (gmap string file).

(** An error is the text its message starts with. *)
Definition FM : Type → Type := M files string.

Inductive read_result := Read (data : string) | NotExist | ReadFailed.
Inductive remove_result := Removed | Missing | RemoveFailed.

(** [os.ReadFile], [os.Remove], [os.Rename]. *)
Definition ReadFile (path : string) : FM read_result :=
  ok <- sys id;;
  fs <- gets id;;
  retM (if negb ok then ReadFailed else
        match fs !! path with Some f => Read (f_data f) | None => NotExist end).

Definition Remove (path : string) : FM remove_result :=
  fs <- gets id;;
  ok <- sys (delete path);;
  retM (if negb ok then RemoveFailed else
        match fs !! path with Some _ => Removed | None => Missing end).

Definition rename (from to : string) (fs : files) : files :=
  match fs !! from with Some f => <[to := f]> (delete from fs) | None => fs end.

Definition Rename (from to : string) : FM remove_result :=
  fs <- gets id;;
  ok <- sys (rename from to);;
  retM (if negb ok then RemoveFailed else
        match fs !! from with Some _ => Removed | None => Missing end).

(** [m] with its error wrapped by [fmt.Errorf] as [what: %w]. *)
Definition wrap {A} (what : string) (m : FM A) : FM A :=
  r <- try m;; match r with inl e => throw (what +:+ ": " +:+ e) | inr a => retM a end.

(** The pattern of the temporary files [AtomicWriteFile] creates for a path. *)
Definition temp_prefix (path : string) : string := JoinPath (Dir path) ("." +:+ Base path +:+ ".tmp-").

(** ** Facts *)

Lemma ReadFile_reads path : reads (ReadFile path) (λ r fs, match r with
  | Read d => f_data <$> fs !! path = Some d | NotExist => fs !! path = None | ReadFailed => True end).
Proof.
  unfold ReadFile. apply reads_seq; [apply reads_sys_id|]. intros ok.
  eapply reads_bind; [apply reads_gets|]. intros fs. apply reads_ret. intros w ->.
  destruct ok; simpl; [|done]. by destruct (w !! path).
Qed.

Lemma Remove_spec path fs0 :
  triple (λ fs, fs = fs0) (Remove path)
    (λ r fs, fs = match r with RemoveFailed => fs0 | _ => delete path fs0 end)
    (λ _ _, False) (λ fs, fs = fs0).
Proof.
  unfold Remove. eapply triple_bind with (Q' := λ fs fs', fs = fs0 ∧ fs' = fs0).
  { apply triple_gets. by intros fs ->. }
  intros fs. apply triple_pure. intros ->.
  eapply triple_bind with (Q' := λ ok fs, fs = if ok : bool then delete path fs0 else fs0).
  { apply triple_sys; by intros fs ->. }
  intros []; apply triple_ret; intros fs ->; simpl; [|done].
  by destruct (fs0 !! path).
Qed.

Lemma Rename_spec from to fs0 :
  triple (λ fs, fs = fs0) (Rename from to)
    (λ r fs, match r with
       | Removed => is_Some (fs0 !! from) ∧ fs = rename from to fs0
       | Missing => fs0 !! from = None ∧ fs = fs0
       | RemoveFailed => fs = fs0 end)
    (λ _ _, False) (λ fs, fs = fs0).
Proof.
  unfold Rename. eapply triple_bind with (Q' := λ fs fs', fs = fs0 ∧ fs' = fs0).
  { apply triple_gets. by intros fs ->. }
  intros fs. apply triple_pure. intros ->.
  eapply triple_bind with (Q' := λ ok fs, fs = if ok : bool then rename from to fs0 else fs0).
  { apply triple_sys; by intros fs ->. }
  intros []; apply triple_ret; intros fs ->; simpl; [|done].
  unfold rename. destruct (fs0 !! from); [by eauto|done].
Qed.

Lemma ReadFile_succeeds path P : succeeds P (ReadFile path) (λ r fs, P fs ∧
  r = match fs !! path with Some f => Read (f_data f) | None => NotExist end).
Proof. intros t fs H. by do 2 eexists. Qed.

Lemma Remove_succeeds path P : (∀ fs, P fs → P (delete path fs)) →
  succeeds P (Remove path) (λ r fs, P fs ∧ r ≠ RemoveFailed).
Proof.
  intros H t fs Hfs. do 2 eexists. split; [done|]. split; [by apply H|].
  cbn. destruct (fs !! path); discriminate.
Qed.

Lemma succeeds_wrap {A} what P (m : FM A) Q : succeeds P m Q → succeeds P (wrap what m) Q.
Proof.
  intros H t w Hw. destruct (H t w Hw) as (a & w' & Hrun & Ha). exists a, w'.
  split; [|done]. unfold wrap, try, bindM. by rewrite Hrun.
Qed.

Lemma triple_wrap {A} what P (m : FM A) Q R C :
  triple P m Q (λ _, R) C → triple P (wrap what m) Q (λ _, R) C.
Proof.
  intros H. unfold wrap. eapply triple_bind with (Q' := λ r w, match r with inl _ => R w | inr a => Q a w end).
  - by apply triple_try.
  - intros [e|a]; [by apply triple_throw|by apply triple_ret].
Qed.

(** A non-empty path without surrounding white space. *)
Definition plain_path (p : string) : bool := negb (is_empty p) && str_eqb (TrimSpace p) p.

Section atomic.
Context (suffix : files → string → string).

Definition temp_path (fs : files) (path : string) : string := temp_prefix path +:+ suffix fs path.

Definition AtomicWriteFile (path data : string) (perm : Z) : FM unit :=
  let path := TrimSpace path in
  if is_empty path then throw "atomic write path is empty" else
  sys_or "mkdir" id;;;
  fs <- gets id;;
  let tmp := temp_path fs path in
  sys_or "open temp file" (<[tmp := File "" 384]>);;;
  let discard e := _ <- sys (delete tmp);; throw (A := unit) e in
  ok <- sys (alter (λ f, File (f_data f) perm) tmp);;
  if negb ok then discard "chmod temp file" else
  wrote <- sys (alter (λ f, File data (f_mode f)) tmp);;
  synced <- sys id;;
  closed <- sys id;;
  if negb wrote then discard "write temp file" else
  if negb synced then discard "sync temp file" else
  if negb closed then discard "close temp file" else
  renamed <- Rename tmp path;;
  match renamed with
  | Removed =>
    sys_or "open parent directory" id;;;
    synced <- sys id;;
    closed <- sys id;;
    if negb synced then throw "sync parent directory" else
    if negb closed then throw "close parent directory" else retM tt
  | _ => discard "rename temp file"
  end.

Lemma AtomicWriteFile_succeeds path data perm P : plain_path path = true →
  succeeds P (AtomicWriteFile path data perm) (λ _ _, True).
Proof.
  intros Hplain t fs _. unfold AtomicWriteFile.
  apply andb_true_iff in Hplain as [Hne Htrim].
  apply str_eqb_eq in Htrim. rewrite Htrim. apply negb_true_iff in Hne. rewrite Hne.
  cbn [bindM sys_or sys gets quiet e_faults negb retM Rename]. unfold Rename.
  cbn [bindM sys gets quiet e_faults negb retM].
  do 2 eexists.
  unfold bindM, sys_or, sys, gets, bindM, retM; cbn [quiet e_faults negb].
  unfold id. rewrite !lookup_alter_eq, lookup_insert_eq. cbn. done.
Qed.

(** The ten calls of a write, and what they leave. *)
Lemma AtomicWriteFile_run path data perm fl c fs :
  plain_path path = true → fs !! temp_path fs path = None →
  AtomicWriteFile path data perm (Env (replicate 10 FOk ++ fl) c) fs =
    (Ok tt, Env fl c, <[path := File data perm]> fs).
Proof.
  intros Hplain Hfresh. unfold AtomicWriteFile.
  apply andb_true_iff in Hplain as [Hne Htrim].
  apply str_eqb_eq in Htrim. rewrite Htrim. apply negb_true_iff in Hne. rewrite Hne.
  unfold Rename, bindM, sys_or, sys, gets, bindM, retM, id; cbn [replicate app e_faults e_clock negb].
  unfold rename. rewrite !lookup_alter_eq, lookup_insert_eq. cbn.
  rewrite !alter_insert_eq, delete_insert_eq, delete_id by done. done.
Qed.

(** ** What a client sees

    A client looks at a fixed list of paths, none of which is the name of a
    temporary file. *)

Definition agree (V : list string) (fs fs' : files) : Prop := ∀ q, q ∈ V → fs !! q = fs' !! q.

Definition no_temp (V : list string) : bool :=
  forallb (λ p, forallb (λ q, negb (HasPrefix q (temp_prefix p))) V) V.

Context (suffix_fresh : ∀ fs path, fs !! temp_path fs path = None).

Context (V : list string) (HV : no_temp V = true).

Lemma temp_not_seen fs path q : path ∈ V → q ∈ V → q ≠ temp_path fs path.
Proof using HV.
  intros Hp Hq ->. unfold no_temp in HV. rewrite forallb_forall in HV.
  specialize (HV path). rewrite forallb_forall in HV.
  specialize (HV ltac:(by apply list_elem_of_In) (temp_path fs path) ltac:(by apply list_elem_of_In)).
  unfold temp_path in HV. by rewrite HasPrefix_app in HV.
Qed.

Lemma agree_insert fs fs' path f : agree V fs fs' → agree V (<[path := f]> fs) (<[path := f]> fs').
Proof.
  intros H q Hq. destruct (decide (q = path)) as [->|Hne]; [by rewrite !lookup_insert_eq|].
  rewrite !lookup_insert_ne by done. by apply H.
Qed.

Lemma agree_refl fs : agree V fs fs.
Proof. done. Qed.

(** The write takes effect as a whole or not at all, wherever it stops, and
    completely if it returns no error. *)
Section write.
Context (path : string) (Hp : path ∈ V) (fs0 : files).

(** The temporary file exists, with a content satisfying [φ]; nothing else changed. *)
Definition staged (φ : file → Prop) (fs : files) : Prop :=
  ∃ f, φ f ∧ fs = <[temp_path fs0 path := f]> fs0.

Lemma staged_same φ fs : staged φ fs → agree V fs fs0.
Proof using HV Hp.
  intros (f & _ & ->) q Hq. apply lookup_insert_ne. symmetry. by apply temp_not_seen.
Qed.

Lemma staged_alter φ ψ g fs :
  (∀ f, φ f → ψ (g f)) → staged φ fs → staged ψ (alter g (temp_path fs0 path) fs).
Proof.
  intros H (f & Hf & ->). exists (g f). split; [by apply H|]. by rewrite alter_insert_eq.
Qed.

Lemma staged_discard {A} φ (e : string) Q C :
  (∀ fs, agree V fs fs0 → C fs) →
  triple (staged φ) (_ <- sys (delete (temp_path fs0 path));; throw (A := A) e) Q
    (λ _ fs, agree V fs fs0) C.
Proof using suffix_fresh HV Hp.
  intros HC. eapply triple_bind with (Q' := λ _ fs, agree V fs fs0).
  - apply triple_sys.
    + intros fs (f & _ & ->). rewrite delete_insert_eq.
      rewrite delete_id by apply suffix_fresh. done.
    + intros fs H. by eapply staged_same.
    + intros fs H. eapply HC, staged_same, H.
  - intros _. by apply triple_throw.
Qed.

Lemma staged_rename (data : string) (perm : Z) fs :
  staged (λ f, f = File data perm) fs →
  agree V (rename (temp_path fs0 path) path fs) (<[path := File data perm]> fs0).
Proof using suffix_fresh HV Hp.
  intros (f & -> & ->). unfold rename. rewrite lookup_insert_eq, delete_insert_eq.
  by rewrite delete_id by apply suffix_fresh.
Qed.
End write.

Definition replaced (path data : string) (perm : Z) (fs0 fs : files) : Prop :=
  agree V fs (<[path := File data perm]> fs0).

Lemma AtomicWriteFile_spec path data perm fs0 :
  path ∈ V → plain_path path = true →
  let half fs := agree V fs fs0 ∨ replaced path data perm fs0 fs in
  triple (λ fs, fs = fs0) (AtomicWriteFile path data perm)
    (λ _, replaced path data perm fs0) (λ _, half) half.
Proof using suffix_fresh HV.
  intros Hp Hplain half. unfold AtomicWriteFile.
  apply andb_true_iff in Hplain as [Hne Htrim].
  apply str_eqb_eq in Htrim. rewrite Htrim. apply negb_true_iff in Hne. rewrite Hne.
  eapply triple_bind with (Q' := λ _ fs, fs = fs0).
  { apply triple_sys_or; intros fs ->; [done|by left..]. }
  intros _. eapply triple_bind with (Q' := λ fs fs', fs = fs0 ∧ fs' = fs0).
  { apply triple_gets. by intros fs ->. }
  intros fs. apply triple_pure. intros ->.
  pose proof (λ φ fs H, or_introl (staged_same path Hp fs0 φ fs H) : half fs) as Hsame.
  assert (∀ (A : Type) φ (e : string) (Q : A → files → Prop), triple (staged path fs0 φ)
    (_ <- sys (delete (temp_path fs0 path));; throw e) Q (λ _, half) half) as Hdiscard.
  { intros A φ e Q. eapply triple_conseq; [apply (staged_discard path Hp fs0 φ e Q half)|..];
      [by left|done|done|by left|done]. }
  eapply triple_bind with (Q' := λ _, staged path fs0 (λ _, True)).
  { apply triple_sys_or; intros fs ->; [by eexists|by left..]. }
  intros _. cbv zeta.
  eapply triple_bind with (Q' := λ b : bool, staged path fs0 (λ f, if b then f_mode f = perm else True)).
  { apply triple_sys; [|done|intros fs H; by eapply Hsame]. intros fs. by apply staged_alter. }
  intros [|]; cbn [negb]; [|apply Hdiscard].
  eapply triple_bind with (Q' := λ b : bool, staged path fs0 (λ f, if b then f = File data perm else True)).
  { apply triple_sys.
    - intros fs. apply staged_alter. by intros f <-.
    - intros fs (f & _ & ->). by exists f.
    - intros fs H. by eapply Hsame. }
  intros wrote. set (P := staged path fs0 (λ f, if wrote then f = File data perm else True)).
  assert (∀ fs, P fs → half fs) as HP by (intros fs H; by eapply Hsame).
  eapply triple_bind with (Q' := λ _, P); [by apply triple_sys|]. intros synced.
  eapply triple_bind with (Q' := λ _, P); [by apply triple_sys|]. intros closed.
  destruct wrote; cbn [negb]; [|apply Hdiscard].
  destruct synced, closed; cbn [negb]; [|apply Hdiscard..].
  eapply triple_bind with (Q' := λ r, match r with
    | Removed => replaced path data perm fs0 | _ => P end).
  { apply triple_start. intros fs HPs. eapply triple_conseq; [apply (Rename_spec _ _ fs)|done| |done|].
    - intros [] fs'; [intros [_ ->]; by apply staged_rename|intros [_ ->]; done|by intros ->].
    - intros fs' ->. by apply HP. }
  intros []; [|apply Hdiscard..].
  set (N := replaced path data perm fs0).
  assert (∀ fs, N fs → half fs) as HN by (intros; by right).
  eapply triple_bind with (Q' := λ _, N); [by apply triple_sys_or|]. intros _.
  eapply triple_bind with (Q' := λ _, N); [by apply triple_sys|]. intros [|].
  all: eapply triple_bind with (Q' := λ _, N); [by apply triple_sys|]; intros [|]; cbn [negb];
    first [by apply triple_ret|by apply triple_throw].
Qed.
End atomic.

(** A concrete choice of suffixes: longer than every name in use. *)
Definition longest (fs : files) : nat :=
  foldr (λ kv n, Nat.max (String.length kv.1) n) 0%nat (map_to_list fs).

Definition long_suffix (fs : files) (path : string) : string :=
  of_chars (replicate (S (longest fs)) "0"%char).

Lemma longest_spec fs q f : fs !! q = Some f → (String.length q <= longest fs)%nat.
Proof.
  intros H%elem_of_map_to_list. unfold longest. induction (map_to_list fs) as [|[k v] l IH].
  - by apply not_elem_of_nil in H.
  - apply elem_of_cons in H as [[= -> ->]|H]; simpl; [lia|]. specialize (IH H). lia.
Qed.

Lemma long_suffix_fresh fs path : fs !! temp_path long_suffix fs path = None.
Proof.
  destruct (fs !! temp_path long_suffix fs path) as [f|] eqn:H; [|done].
  apply longest_spec in H. pose proof (strlen_app (temp_prefix path) (long_suffix fs path)) as Ha.
  fold (temp_path long_suffix fs path) in Ha. rewrite (strlen_chars (long_suffix _ _)) in Ha.
  unfold long_suffix in Ha at 2. rewrite to_of_chars, length_replicate in Ha.
  pose proof (strlen_nonneg (temp_prefix path)). unfold strlen in *. lia.
Qed.
