(* ===== verification/Net.v ===== *)
(** * Net: IP networks

    [net.IPNet] as the Go programs use it: an address of [n_bits] bits (32, or
    128 for IPv6) and a prefix length.  Addresses are in the normal form of
    [net.IP.To4]: an IPv4-mapped IPv6 address is an IPv4 address. *)

From S2P Require Import Prelude.
From Stdlib Require Import ZArith Bool.

Local Open Scope Z_scope.
Local Open Scope go_scope.

Record ip := IP { ip_bits : Z; ip_val : Z }.
Record ipnet := IPNet { n_ip : Z; n_ones : Z; n_bits : Z }.

#[export] Instance ip_eq_dec : EqDecision ip.
Proof. solve_decision. Defined.
#[export] Instance ipnet_eq_dec : EqDecision ipnet.
Proof. solve_decision. Defined.

Definition net_wf (n : ipnet) : Prop :=
  (n_bits n = 32 ∨ n_bits n = 128) ∧ 0 <= n_ones n <= n_bits n ∧ 0 <= n_ip n < 2 ^ n_bits n.

Definition ip_wf (a : ip) : Prop := 0 <= ip_val a < 2 ^ ip_bits a.

(** The bits of the host part, and [IPNet.Contains]. *)
Definition host_bits (n : ipnet) : Z := n_bits n - n_ones n.

Definition net_Contains (n : ipnet) (a : ip) : bool :=
  (ip_bits a =? n_bits n) &&
  (Z.shiftr (ip_val a) (host_bits n) =? Z.shiftr (n_ip n) (host_bits n)).

(** [cidr.IP.Mask(cidr.Mask)]: the first address of the network. *)
Definition net_base (n : ipnet) : Z := Z.shiftl (Z.shiftr (n_ip n) (host_bits n)) (host_bits n).

Definition net_addr (n : ipnet) : ip := IP (n_bits n) (n_ip n).

(** [cidrContainedWithin]: the prefix of [child] extends that of [parent]. *)
Definition cidrContainedWithin (child parent : ipnet) : bool :=
  if negb (n_bits child =? n_bits parent) || (n_ones child <? n_ones parent) then false
  else net_Contains parent (net_addr child).

Definition v4 (a b c d ones : Z) : ipnet := IPNet (((a * 256 + b) * 256 + c) * 256 + d) ones 32.

Definition private_nets : list ipnet := [
  v4 10 0 0 0 8; v4 172 16 0 0 12; v4 192 168 0 0 16; v4 100 64 0 0 10; v4 127 0 0 0 8; v4 169 254 0 0 16;
  IPNet (252 * 2 ^ 120) 7 128;
  IPNet (254 * 2 ^ 120 + 128 * 2 ^ 112) 10 128;
  IPNet 1 128 128].

Definition isPrivateOrInternalCIDR (n : ipnet) : bool := existsb (cidrContainedWithin n) private_nets.

(** ** Facts *)

Lemma net_base_range n : net_wf n → 0 <= net_base n ∧ net_base n + 2 ^ host_bits n <= 2 ^ n_bits n.
Proof.
  intros (Hb & Ho & Hi). unfold net_base, host_bits. set (k := n_bits n - n_ones n).
  assert (0 <= k) by lia. rewrite Z.shiftl_mul_pow2, Z.shiftr_div_pow2 by lia.
  assert (0 < 2 ^ k) by (apply Z.pow_pos_nonneg; lia). pose proof (Z.div_pos (n_ip n) (2 ^ k) ltac:(lia) ltac:(lia)).
  split; [nia|].
  assert (2 ^ n_bits n = 2 ^ n_ones n * 2 ^ k) as Hp by (rewrite <- Z.pow_add_r by lia; f_equal; lia).
  assert (n_ip n / 2 ^ k < 2 ^ n_ones n) by (apply Z.div_lt_upper_bound; lia). nia.
Qed.

(** A network is an interval of addresses. *)
Lemma net_Contains_spec n a : net_wf n → ip_wf a →
  net_Contains n a = true ↔ ip_bits a = n_bits n ∧ net_base n <= ip_val a < net_base n + 2 ^ host_bits n.
Proof.
  intros (Hb & Ho & Hi) Ha. unfold net_Contains, net_base. set (k := host_bits n).
  assert (0 <= k) by (unfold k, host_bits; lia).
  rewrite Z.shiftl_mul_pow2, !Z.shiftr_div_pow2 by lia. assert (0 < 2 ^ k) by (apply Z.pow_pos_nonneg; lia).
  rewrite andb_true_iff, !Z.eqb_eq. split; intros [H1 H2]; (split; [done|]).
  - pose proof (Z.div_mod (ip_val a) (2 ^ k) ltac:(lia)).
    pose proof (Z.mod_pos_bound (ip_val a) (2 ^ k) ltac:(lia)). rewrite <- H2. nia.
  - symmetry. apply Z.div_unique with (r := ip_val a - n_ip n / 2 ^ k * 2 ^ k); lia.
Qed.

(** A contained network has no address outside its parent. *)
Lemma contained_sub child parent a :
  net_wf child → net_wf parent → ip_wf a →
  cidrContainedWithin child parent = true → net_Contains child a = true → net_Contains parent a = true.
Proof.
  intros (Hb & Ho & Hi) (Hb' & Ho' & Hi') Ha. unfold cidrContainedWithin.
  destruct (negb (n_bits child =? n_bits parent) || (n_ones child <? n_ones parent)) eqn:E; [done|].
  zbool. unfold net_Contains, net_addr. cbn [ip_bits ip_val].
  rewrite !andb_true_iff, !Z.eqb_eq. intros [_ H1] [H2 H3]. split; [congruence|].
  rewrite <- H1. set (k := host_bits child) in *. set (k' := host_bits parent).
  assert (0 <= k <= k') as Hk by (unfold k, k', host_bits; lia).
  replace k' with (k + (k' - k)) by lia. rewrite <- !Z.shiftr_shiftr by lia. by rewrite H3.
Qed.

Lemma private_nets_wf n : n ∈ private_nets → net_wf n.
Proof.
  assert (Forall net_wf private_nets) as H.
  { unfold private_nets, net_wf, v4. repeat constructor; cbn; lia. }
  intros Hin. exact (proj1 (Forall_forall net_wf private_nets) H n Hin).
Qed.

(** A private network lies in one of the private ranges. *)
Lemma private_sub n a : net_wf n → ip_wf a →
  isPrivateOrInternalCIDR n = true → net_Contains n a = true →
  ∃ p, p ∈ private_nets ∧ net_Contains p a = true.
Proof.
  intros Hn Ha (p & Hp & Hc)%existsb_exists Hin. apply list_elem_of_In in Hp. exists p. split; [done|].
  eapply contained_sub; [exact Hn|by apply private_nets_wf|done..].
Qed.
