(* ===== verification/Topology.v ===== *)
(** * Topology: active discovery of hosts (internal/topologydiscovery/discovery.go)

    [BuildPlan] turns the configured networks into the list of addresses to
    probe; [RunProbes] probes them at a bounded rate.  The text of an address
    ([net.IP.String]) is a parameter, injective on addresses.  Networks written
    in the IPv4-mapped form (::ffff:a.b.c.d/n) are not modelled. *)

From S2P Require Import Prelude GoStr Net.
From stdpp Require Import gmap strings pretty.
From Stdlib Require Import ZArith Bool.

Local Open Scope Z_scope.
Local Open Scope go_scope.

Section plan.
Context (ip_String : Z → string) (ipnet_String : ipnet → string).

Record PlanOptions := {
  po_ConfiguredCIDRs : list (option ipnet);
  po_LocalCIDRs : list (option ipnet);
  po_LocalIPs : gmap string bool;
  po_DenyCIDRs : list (option ipnet);
  po_MaxHosts : Z;
  po_AllowPublic : bool;
}.

Record Plan := {
  p_AllowedCIDRs : list string;
  p_Targets : list Z;
  p_SkippedDenied : Z;
  p_SkippedLocal : Z;
  p_Warnings : list string;
}.

Definition addr4 (v : Z) : ip := IP 32 v.
Definition is_v4 (n : ipnet) : bool := n_bits n =? 32.

(** The loop over the interfaces' networks; [seen] holds their texts. *)
Fixpoint private_local (seen : gset string) (cidrs : list (option ipnet)) : list ipnet :=
  match cidrs with
  | [] => []
  | None :: cidrs => private_local seen cidrs
  | Some cidr :: cidrs =>
    if negb (is_v4 cidr) || negb (isPrivateOrInternalCIDR cidr) then private_local seen cidrs else
    if decide (ipnet_String cidr ∈ seen) then private_local seen cidrs
    else cidr :: private_local ({[ipnet_String cidr]} ∪ seen) cidrs
  end.

Definition privateLocalCIDRs : list (option ipnet) → list ipnet := private_local ∅.

Definition incIPv4 (v : Z) : Z := (v + 1) mod 2 ^ 32.

(** Every byte of the address is that of the base with the host bits set. *)
Definition isIPv4Broadcast (v : Z) (cidr : ipnet) : bool :=
  v =? net_base cidr + (2 ^ host_bits cidr - 1).

Definition firstIPv4Host (cidr : ipnet) : option Z :=
  if negb (is_v4 cidr) then None
  else Some (if n_ones cidr <=? 30 then incIPv4 (net_base cidr) else net_base cidr).

Definition nextIPv4Host (v : Z) (cidr : ipnet) : option Z :=
  let next := incIPv4 v in
  if negb (net_Contains cidr (addr4 next)) then None else
  if negb (n_bits cidr =? 32) then None else
  if (n_ones cidr <=? 30) && isIPv4Broadcast next cidr then None else Some next.

Definition denied (v : Z) (cidrs : list (option ipnet)) : bool :=
  existsb (λ c, match c with Some c => net_Contains c (addr4 v) | None => false end) cidrs.

Definition cidrStrings (cidrs : list ipnet) : list string := merge_sort String.le (map ipnet_String cidrs).

Section build.
Context (opts : PlanOptions) (MaxHosts : Z).

Definition is_local (v : Z) : bool := default false (po_LocalIPs opts !! ip_String v).

(** The plan under construction and the texts of the addresses met. *)
Record progress := { g_plan : Plan; g_seen : gset string }.

Definition with_targets (f : list Z → list Z) (p : Plan) : Plan :=
  {| p_AllowedCIDRs := p_AllowedCIDRs p; p_Targets := f (p_Targets p);
     p_SkippedDenied := p_SkippedDenied p; p_SkippedLocal := p_SkippedLocal p; p_Warnings := p_Warnings p |}.
Definition skip_local (p : Plan) : Plan :=
  {| p_AllowedCIDRs := p_AllowedCIDRs p; p_Targets := p_Targets p;
     p_SkippedDenied := p_SkippedDenied p; p_SkippedLocal := p_SkippedLocal p + 1; p_Warnings := p_Warnings p |}.
Definition skip_denied (p : Plan) : Plan :=
  {| p_AllowedCIDRs := p_AllowedCIDRs p; p_Targets := p_Targets p;
     p_SkippedDenied := p_SkippedDenied p + 1; p_SkippedLocal := p_SkippedLocal p; p_Warnings := p_Warnings p |}.
Definition warn (w : string) (p : Plan) : Plan :=
  {| p_AllowedCIDRs := p_AllowedCIDRs p; p_Targets := p_Targets p;
     p_SkippedDenied := p_SkippedDenied p; p_SkippedLocal := p_SkippedLocal p; p_Warnings := p_Warnings p ++ [w] |}.

(** One address. *)
Definition visit (v : Z) (g : progress) : progress :=
  let key := ip_String v in
  if decide (key ∈ g_seen g) then g else
  {| g_seen := {[key]} ∪ g_seen g;
     g_plan :=
       if is_local v then skip_local (g_plan g) else
       if denied v (po_DenyCIDRs opts) then skip_denied (g_plan g) else
       with_targets (λ l, l ++ [v]) (g_plan g) |}.

(** One round of the inner loop: the next address and the progress, or the end
    of the network ([inl]) or of the whole plan ([inr]). *)
Definition host_step (cidr : ipnet) (s : option Z * progress) :
    (option Z * progress) + (progress + Plan) :=
  let '(cur, g) := s in
  match cur with
  | None => inr (inl g)
  | Some v =>
    if negb (net_Contains cidr (addr4 v)) then inr (inl g) else
    if MaxHosts <=? Z.of_nat (length (p_Targets (g_plan g)))
    then inr (inr (warn "target list capped by max_hosts" (g_plan g)))
    else inl (nextIPv4Host v cidr, visit v g)
  end.

(** A network has fewer rounds than it has addresses, and two more. *)
Definition host_rounds (cidr : ipnet) : positive := Z.to_pos (2 ^ host_bits cidr + 2).

Fixpoint plan_loop (allowed : list ipnet) (g : progress) : option Plan :=
  match allowed with
  | [] => Some (g_plan g)
  | cidr :: allowed =>
    match repeat_loop (host_step cidr) (host_rounds cidr) (firstIPv4Host cidr, g) with
    | inr (inl g) => plan_loop allowed g
    | inr (inr plan) => Some plan
    | inl _ => None
    end
  end.
End build.

(** The check of the selected networks. *)
Fixpoint check_cidrs (AllowPublic : bool) (selected : list (option ipnet)) : string + list ipnet :=
  match selected with
  | [] => inr []
  | None :: selected => check_cidrs AllowPublic selected
  | Some cidr :: selected =>
    if negb (is_v4 cidr)
    then inl ("active discovery currently supports IPv4 CIDRs only: " +:+ ipnet_String cidr) else
    if negb AllowPublic && negb (isPrivateOrInternalCIDR cidr)
    then inl ("public CIDR is not allowed for active discovery: " +:+ ipnet_String cidr) else
    match check_cidrs AllowPublic selected with
    | inl e => inl e
    | inr allowed => inr (cidr :: allowed)
    end
  end.

Definition empty_plan (cidrs warnings : list string) : Plan :=
  {| p_AllowedCIDRs := cidrs; p_Targets := []; p_SkippedDenied := 0; p_SkippedLocal := 0; p_Warnings := warnings |}.

Definition effective_max (opts : PlanOptions) : Z :=
  if po_MaxHosts opts <=? 0 then 256 else po_MaxHosts opts.

Definition selected_cidrs (opts : PlanOptions) : list (option ipnet) :=
  match po_ConfiguredCIDRs opts with
  | [] => Some <$> privateLocalCIDRs (po_LocalCIDRs opts)
  | l => l
  end.

(** [None]: the inner loop did not end. *)
Definition BuildPlan (opts : PlanOptions) : option (string + Plan) :=
  match selected_cidrs opts with
  | [] => Some (inr (empty_plan [] ["no eligible private or internal CIDRs available"]))
  | selected =>
    match check_cidrs (po_AllowPublic opts) selected with
    | inl e => Some (inl e)
    | inr allowed =>
      inr <$> plan_loop opts (effective_max opts) allowed
        {| g_plan := empty_plan (cidrStrings allowed) []; g_seen := ∅ |}
    end
  end.
End plan.

(** ** Probing *)

Record ProbeStats := { st_Attempted : Z; st_Succeeded : Z; st_Failed : Z }.

(** [RunProbes]: for each target, the outcome of the sleep before it, whether
    the context is done after it, and the outcome of the probe. *)
Record probe_env := { pe_sleep : bool; pe_done : bool; pe_ok : bool }.

Definition probe_interval (rateLimit : Z) : duration := second `quot` (if rateLimit <=? 0 then 1 else rateLimit).

Fixpoint probe_loop (interval : duration) (first : bool) (targets : list Z) (env : list probe_env)
    (stats : ProbeStats) : ProbeStats :=
  match targets, env with
  | _ :: targets, e :: env =>
    if negb first && (0 <? interval) && negb (pe_sleep e) then stats else
    if pe_done e then stats else
    probe_loop interval false targets env
      {| st_Attempted := st_Attempted stats + 1;
         st_Succeeded := if pe_ok e then st_Succeeded stats + 1 else st_Succeeded stats;
         st_Failed := if pe_ok e then st_Failed stats else st_Failed stats + 1 |}
  | _, _ => stats
  end.

Definition RunProbes (targets : list Z) (rateLimit : Z) (env : list probe_env) : ProbeStats :=
  probe_loop (probe_interval rateLimit) true targets env {| st_Attempted := 0; st_Succeeded := 0; st_Failed := 0 |}.

Definition NeighborIPs (entries : list string) : list string :=
  merge_sort String.le (filter (λ s, s ≠ "") (map TrimSpace entries)).

(** The addresses of [after] that [before] does not have, each once. *)
Fixpoint new_neighbors (seen : gset string) (after : list string) : list string :=
  match after with
  | [] => []
  | e :: after =>
    let ip := TrimSpace e in
    if decide (ip = "") then new_neighbors seen after else
    if decide (ip ∈ seen) then new_neighbors seen after
    else ip :: new_neighbors ({[ip]} ∪ seen) after
  end.

Definition NewNeighborIPs (before after : list string) : list string :=
  merge_sort String.le (new_neighbors (list_to_set (filter (λ s, s ≠ "") (map TrimSpace before))) after).

(** ** The hosts of a network

    All its addresses, less the first and the last when it has more than two. *)

Definition low_host (c : ipnet) : Z := if n_ones c <=? 30 then net_base c + 1 else net_base c.
Definition high_host (c : ipnet) : Z :=
  if n_ones c <=? 30 then net_base c + 2 ^ host_bits c - 2 else net_base c + 2 ^ host_bits c - 1.
Definition is_host (c : ipnet) (v : Z) : Prop := low_host c <= v <= high_host c.

Definition v4_wf (c : ipnet) : Prop := net_wf c ∧ is_v4 c = true.

Lemma hosts_range c : v4_wf c →
  0 <= net_base c ∧ net_base c <= low_host c ∧ low_host c <= high_host c ∧
  high_host c < net_base c + 2 ^ host_bits c ∧ net_base c + 2 ^ host_bits c <= 2 ^ 32.
Proof.
  intros [Hwf H4%Z.eqb_eq]. pose proof (net_base_range c Hwf) as [H1 H2].
  destruct Hwf as (_ & Ho & _). rewrite H4 in *. unfold low_host, high_host.
  assert (2 ^ 0 <= 2 ^ host_bits c) by (apply Z.pow_le_mono_r; unfold host_bits; lia).
  destruct (n_ones c <=? 30) eqn:E; zbool; [|lia].
  assert (2 ^ 2 <= 2 ^ host_bits c) by (apply Z.pow_le_mono_r; unfold host_bits; lia). lia.
Qed.

Lemma host_contained c v : v4_wf c → is_host c v → net_Contains c (addr4 v) = true.
Proof.
  intros Hc Hv. pose proof (hosts_range c Hc). unfold is_host in Hv. destruct Hc as [Hwf H4%Z.eqb_eq].
  apply net_Contains_spec; [done| |]; unfold ip_wf, addr4; cbn [ip_bits ip_val]; [lia|]. split; [done|lia].
Qed.

Lemma firstIPv4Host_spec c : v4_wf c → firstIPv4Host c = Some (low_host c).
Proof.
  intros Hc. pose proof (hosts_range c Hc). destruct Hc as [Hwf H4].
  unfold firstIPv4Host. rewrite H4. cbn [negb]. unfold low_host in *.
  destruct (n_ones c <=? 30); [|done]. unfold incIPv4. rewrite Z.mod_small; [done|lia].
Qed.

Lemma nextIPv4Host_spec c v : v4_wf c → is_host c v →
  nextIPv4Host v c = if v =? high_host c then None else Some (v + 1).
Proof.
  intros Hc Hv. pose proof (hosts_range c Hc) as Hr. destruct Hc as [Hwf H4]. apply Z.eqb_eq in H4 as H32.
  unfold nextIPv4Host, incIPv4, isIPv4Broadcast, is_host in *. rewrite H32.
  assert (∀ x, 0 <= x < 2 ^ 32 → net_Contains c (addr4 x) = true ↔
    net_base c <= x < net_base c + 2 ^ host_bits c) as Hcon.
  { intros x Hx. rewrite net_Contains_spec by (unfold ip_wf, addr4; cbn; done).
    cbn [addr4 ip_bits ip_val]. rewrite H32. tauto. }
  unfold high_host in *. destruct (n_ones c <=? 30) eqn:E; cbn [andb].
  - rewrite Z.mod_small by lia. destruct (net_Contains c (addr4 (v + 1))) eqn:Hn.
    + cbn [negb]. destruct (v =? _) eqn:E1; destruct (v + 1 =? _) eqn:E2; zbool; try done; lia.
    + assert (net_Contains c (addr4 (v + 1)) = true) by (apply Hcon; lia). congruence.
  - destruct (v =? _) eqn:E1; zbool.
    + destruct (net_Contains c (addr4 ((v + 1) mod 2 ^ 32))) eqn:Hn; [|done]. exfalso.
      assert (2 ^ host_bits c <= 2 ^ 1).
      { apply Z.pow_le_mono_r; [lia|]. unfold host_bits. lia. }
      apply Hcon in Hn; [|apply Z.mod_pos_bound; lia].
      destruct (decide (v + 1 = 2 ^ 32)) as [He|Hne]; [rewrite He, Z.mod_same in Hn by lia; lia|].
      rewrite Z.mod_small in Hn by lia. lia.
    + rewrite Z.mod_small by lia.
      assert (net_Contains c (addr4 (v + 1)) = true) as -> by (apply Hcon; lia). done.
Qed.

(** ** The plan *)

Section plan_facts.
Context (ip_String : Z → string) `{!Inj (=) (=) ip_String}.
Context (opts : PlanOptions) (MaxHosts : Z) (A : list ipnet).

Abbreviation local v := (is_local ip_String opts v = true).
Abbreviation deny v := (denied v (po_DenyCIDRs opts) = true).

(** What holds of the plan while it grows; [A] are the allowed networks. *)
Record growing (g : progress) : Prop := {
  gr_nodup : NoDup (p_Targets (g_plan g));
  gr_sound : ∀ v, v ∈ p_Targets (g_plan g) →
    ip_String v ∈ g_seen g ∧ ¬ local v ∧ ¬ deny v ∧ ∃ c, c ∈ A ∧ is_host c v;
  gr_seen : ∀ v, ip_String v ∈ g_seen g → v ∈ p_Targets (g_plan g) ∨ local v ∨ deny v;
  gr_bound : Z.of_nat (length (p_Targets (g_plan g))) <= Z.max 0 MaxHosts;
  gr_warn : p_Warnings (g_plan g) = [];
}.

Lemma visit_growing v c g : c ∈ A → is_host c v →
  Z.of_nat (length (p_Targets (g_plan g))) < MaxHosts →
  growing g → growing (visit ip_String opts v g).
Proof using Inj0.
  intros Hc Hv Hlen [Hnd Hs Hseen Hb Hw]. unfold visit.
  destruct (decide (ip_String v ∈ g_seen g)) as [|Hnew]; [by constructor|].
  assert (v ∉ p_Targets (g_plan g)) as Hnt by (intros H; by apply Hs in H as [? _]).
  destruct (is_local ip_String opts v) eqn:El; [|destruct (denied v (po_DenyCIDRs opts)) eqn:Ed];
    constructor; cbn [g_plan g_seen p_Targets p_Warnings with_targets skip_local skip_denied]; try done.
  1,3: intros u Hu; destruct (Hs u Hu) as (? & ? & ? & ?); split_and!; [set_solver|done..].
  1,2: intros u [->%elem_of_singleton%(inj ip_String)|Hu]%elem_of_union; [by auto|by apply Hseen].
  - apply NoDup_app. split_and!; [done| |by apply NoDup_singleton].
    intros u Hu ->%list_elem_of_singleton. done.
  - intros u [Hu| ->%list_elem_of_singleton]%elem_of_app.
    + destruct (Hs u Hu) as (? & ? & ? & ?). split_and!; [set_solver|done..].
    + split_and!; [set_solver|congruence|congruence|by exists c].
  - intros u [->%elem_of_singleton%(inj ip_String)|Hu]%elem_of_union; [left; set_solver|].
    apply Hseen in Hu as [?|?]; [left; set_solver|by right].
  - rewrite length_app. simpl. lia.
Qed.

Lemma visit_seen v g : ip_String v ∈ g_seen (visit ip_String opts v g) ∧
  g_seen g ⊆ g_seen (visit ip_String opts v g).
Proof. unfold visit. destruct (decide _); simpl; set_solver. Qed.

(** The state of the inner loop over the hosts of [c]. *)
Definition at_host (c : ipnet) (s0 : gset string) (s : option Z * progress) : Prop :=
  growing s.2 ∧ s0 ⊆ g_seen s.2 ∧
  match s.1 with
  | Some v => is_host c v ∧ ∀ u, low_host c <= u < v → ip_String u ∈ g_seen s.2
  | None => ∀ u, is_host c u → ip_String u ∈ g_seen s.2
  end.

(** What the loop leaves: all hosts met, or the cap. *)
Definition host_result (c : ipnet) (s0 : gset string) (r : progress + Plan) : Prop :=
  match r with
  | inl g => growing g ∧ s0 ⊆ g_seen g ∧ ∀ u, is_host c u → ip_String u ∈ g_seen g
  | inr p => ∃ g, growing g ∧ p = warn "target list capped by max_hosts" (g_plan g) ∧
      MaxHosts <= Z.of_nat (length (p_Targets p))
  end.

Definition hosts_left (c : ipnet) (s : option Z * progress) : Z :=
  match s.1 with Some v => high_host c - v + 1 | None => 0 end.

Lemma host_step_spec c s0 s : c ∈ A → v4_wf c → at_host c s0 s →
  match host_step ip_String opts MaxHosts c s with
  | inl s' => at_host c s0 s' ∧ hosts_left c s' < hosts_left c s
  | inr r => host_result c s0 r
  end.
Proof using Inj0.
  intros Hc Hwf. destruct s as [[v|] g]; intros (Hg & Hs0 & Hv); cbn [fst snd] in *; [|done].
  destruct Hv as [Hv Hprev]. unfold host_step. rewrite host_contained by done. cbn [negb].
  destruct (MaxHosts <=? _) eqn:E; zbool.
  { exists g. split_and!; [done..|simpl; lia]. }
  rewrite nextIPv4Host_spec by done.
  destruct (visit_seen v g) as [Hsv Hsub]. unfold is_host in Hv.
  assert (growing (visit ip_String opts v g)) as Hgv by (by eapply visit_growing).
  destruct (v =? high_host c) eqn:Eh; zbool; unfold at_host, hosts_left; cbn [fst snd].
  - split; [|lia]. split_and!; [done|set_solver|]. intros u Hu. unfold is_host in Hu.
    destruct (decide (u = v)) as [->|]; [done|]. apply Hsub, Hprev. lia.
  - split; [|lia]. split_and!; [done|set_solver|unfold is_host; lia|].
    intros u Hu. destruct (decide (u = v)) as [->|]; [done|]. apply Hsub, Hprev. lia.
Qed.

Lemma host_loop_spec c g : c ∈ A → v4_wf c → growing g →
  ∃ r, repeat_loop (host_step ip_String opts MaxHosts c) (host_rounds c) (firstIPv4Host c, g) = inr r ∧
    host_result c (g_seen g) r.
Proof using Inj0.
  intros Hc Hwf Hg. pose proof (hosts_range c Hwf) as Hr. rewrite firstIPv4Host_spec by done.
  apply (repeat_ends _ (at_host c (g_seen g)) _ (hosts_left c)).
  - intros s. by apply host_step_spec.
  - intros [[v|] g'] (_ & _ & H); unfold hosts_left; cbn [fst snd] in *; [|lia].
    destruct H as [H _]. unfold is_host in H. lia.
  - split; [done|]. split; [done|]. split; [unfold is_host; lia|intros u ?; lia].
  - unfold hosts_left, host_rounds. cbn [fst]. rewrite Z2Pos.id; [|lia].
    unfold low_host, high_host in *. destruct (n_ones c <=? 30); lia.
Qed.

(** A finished plan over the networks [A]. *)
Definition plan_ok (hosts : Z → Prop) (p : Plan) : Prop :=
  NoDup (p_Targets p) ∧
  Z.of_nat (length (p_Targets p)) <= Z.max 0 MaxHosts ∧
  (∀ v, v ∈ p_Targets p → ¬ local v ∧ ¬ deny v ∧ ∃ c, c ∈ A ∧ is_host c v) ∧
  (p_Warnings p = [] ∧ (∀ v, hosts v → v ∈ p_Targets p ∨ local v ∨ deny v) ∨
   p_Warnings p = ["target list capped by max_hosts"] ∧ MaxHosts <= Z.of_nat (length (p_Targets p))).

Lemma plan_loop_spec allowed : ∀ g (hosts : Z → Prop), (∀ c, c ∈ allowed → c ∈ A ∧ v4_wf c) → growing g →
  (∀ v, hosts v → ip_String v ∈ g_seen g ∨ ∃ c, c ∈ allowed ∧ is_host c v) →
  ∃ p, plan_loop ip_String opts MaxHosts allowed g = Some p ∧ plan_ok hosts p.
Proof using Inj0.
  induction allowed as [|c allowed IH]; intros g hosts Hall Hg Hh; cbn [plan_loop].
  - exists (g_plan g). split; [done|]. destruct Hg as [Hnd Hs Hseen Hb Hw]. split_and!; [done..| |].
    + intros v Hv. by destruct (Hs v Hv) as (_ & ? & ? & ?).
    + left. split; [done|]. intros v Hv. apply Hseen.
      destruct (Hh v Hv) as [?|(c & Hc & _)]; [done|]. by apply not_elem_of_nil in Hc.
  - destruct (Hall c) as [Hc Hwf]; [by left|].
    destruct (host_loop_spec c g Hc Hwf Hg) as ([g'|p] & -> & Hr).
    + destruct Hr as (Hg' & Hsub & Hmet). apply (IH g' hosts); [intros; apply Hall; by right|done|].
      intros v Hv. destruct (Hh v Hv) as [?|(d & [->|Hd]%elem_of_cons & Hvd)]; [left; by apply Hsub| |].
      * left. by apply Hmet.
      * right. by exists d.
    + destruct Hr as (g' & [Hnd Hs Hseen Hb Hw] & -> & Hcap). exists (warn "target list capped by max_hosts" (g_plan g')).
      split; [done|]. split_and!; cbn [warn p_Targets p_Warnings]; [done..| |].
      * intros v Hv. by destruct (Hs v Hv) as (_ & ? & ? & ?).
      * right. by rewrite Hw.
Qed.
End plan_facts.

Section build_facts.
Context (ip_String : Z → string) (ipnet_String : ipnet → string) `{!Inj (=) (=) ip_String}.
Context (opts : PlanOptions).

(** What the networks given to the planner are. *)
Context (Hwf : ∀ c, Some c ∈ po_ConfiguredCIDRs opts ∨ Some c ∈ po_LocalCIDRs opts → net_wf c).

Lemma check_cidrs_spec pub l :
  match check_cidrs ipnet_String pub l with
  | inl _ => ∃ c, Some c ∈ l ∧ (is_v4 c = false ∨ pub = false ∧ isPrivateOrInternalCIDR c = false)
  | inr allowed => ∀ c, (c ∈ allowed ↔ Some c ∈ l) ∧
      (c ∈ allowed → is_v4 c = true ∧ (pub = true ∨ isPrivateOrInternalCIDR c = true))
  end.
Proof.
  induction l as [|[c|] l IH]; cbn [check_cidrs].
  - intros c. split; [by rewrite !elem_of_nil|by intros ?%not_elem_of_nil].
  - destruct (is_v4 c) eqn:H4; cbn [negb]; [|exists c; split; [by left|by left]].
    destruct (negb pub && negb (isPrivateOrInternalCIDR c)) eqn:Hp.
    { zbool. exists c. split; [by left|by right]. }
    destruct (check_cidrs ipnet_String pub l) as [e|allowed].
    { destruct IH as (d & Hd & H). exists d. split; [by right|done]. }
    intros d. destruct (IH d) as [IH1 IH2]. rewrite !elem_of_cons, IH1. split; [naive_solver|].
    intros [->|Hd]; [|by apply IH2, IH1]. split; [done|].
    destruct pub, (isPrivateOrInternalCIDR c); naive_solver.
  - destruct (check_cidrs ipnet_String pub l) as [e|allowed].
    { destruct IH as (d & Hd & H). exists d. split; [by right|done]. }
    intros d. destruct (IH d) as [IH1 IH2]. rewrite elem_of_cons, IH1. naive_solver.
Qed.

Lemma private_local_sub seen l c : c ∈ private_local ipnet_String seen l →
  Some c ∈ l ∧ is_v4 c = true ∧ isPrivateOrInternalCIDR c = true.
Proof.
  revert seen. induction l as [|[d|] l IH]; intros seen; cbn [private_local].
  - by intros ?%not_elem_of_nil.
  - destruct (negb (is_v4 d) || negb (isPrivateOrInternalCIDR d)) eqn:E.
    { intros Hin%IH. destruct Hin as (? & ? & ?). split_and!; [by right|done..]. }
    zbool. destruct (decide _).
    + intros Hin%IH. destruct Hin as (? & ? & ?). split_and!; [by right|done..].
    + intros [->|Hin%IH]%elem_of_cons; [split_and!; [by left|done..]|].
      destruct Hin as (? & ? & ?). split_and!; [by right|done..].
  - intros Hin%IH. destruct Hin as (? & ? & ?). split_and!; [by right|done..].
Qed.

(** The networks whose hosts the plan is about. *)
Definition in_scope (c : ipnet) : Prop := Some c ∈ selected_cidrs ipnet_String opts.

Lemma in_scope_wf c : in_scope c → net_wf c.
Proof using Hwf.
  unfold in_scope, selected_cidrs. destruct (po_ConfiguredCIDRs opts) as [|x l] eqn:E.
  - intros (d & [= ->] & Hd)%list_elem_of_fmap. apply private_local_sub in Hd as [Hd _].
    apply Hwf. by right.
  - intros Hc. apply Hwf. by left.
Qed.

Lemma BuildPlan_spec :
  ∃ r, BuildPlan ip_String ipnet_String opts = Some r ∧
  match r with
  | inl _ => ∃ c, in_scope c ∧
      (is_v4 c = false ∨ po_AllowPublic opts = false ∧ isPrivateOrInternalCIDR c = false)
  | inr p =>
      NoDup (p_Targets p) ∧ Z.of_nat (length (p_Targets p)) <= effective_max opts ∧
      (∀ v, v ∈ p_Targets p →
         is_local ip_String opts v = false ∧ denied v (po_DenyCIDRs opts) = false ∧
         ∃ c, in_scope c ∧ is_v4 c = true ∧ is_host c v ∧ (po_AllowPublic opts = true ∨ isPrivateOrInternalCIDR c = true)) ∧
      ("target list capped by max_hosts" ∈ p_Warnings p ∨
       ∀ c v, in_scope c → is_host c v →
         v ∈ p_Targets p ∨ is_local ip_String opts v = true ∨ denied v (po_DenyCIDRs opts) = true)
  end.
Proof using Hwf Inj0.
  unfold BuildPlan. pose proof (check_cidrs_spec (po_AllowPublic opts) (selected_cidrs ipnet_String opts)) as Hchk.
  pose proof in_scope_wf as Hscope. unfold in_scope in *.
  assert (0 < effective_max opts) as Hmax by (unfold effective_max; destruct (_ <=? _) eqn:E; zbool; lia).
  destruct (selected_cidrs ipnet_String opts) as [|x l] eqn:Esel.
  { eexists. split; [done|]. cbn. split_and!; [constructor|lia|by intros v ?%not_elem_of_nil|].
    right. by intros c v ?%not_elem_of_nil. }
  destruct (check_cidrs ipnet_String (po_AllowPublic opts) (x :: l)) as [e|allowed]; [by eexists|].
  destruct (plan_loop_spec ip_String opts (effective_max opts) allowed allowed
    {| g_plan := empty_plan (cidrStrings ipnet_String allowed) []; g_seen := ∅ |}
    (λ v, ∃ c, c ∈ allowed ∧ is_host c v)) as (p & -> & Hnd & Hlen & Hsound & Hend).
  - intros c Hc. split; [done|]. destruct (Hchk c) as [Hin H4]. split; [by apply Hscope, Hin|by apply H4].
  - constructor; cbn; [constructor|by intros v ?%not_elem_of_nil|by intros v ?%not_elem_of_empty|lia|done].
  - intros v Hv. by right.
  - eexists. split; [done|]. cbn. split_and!; [done|lia| |].
    + intros v Hv. destruct (Hsound v Hv) as (H1 & H2 & c & Hc & Hvc). apply not_true_iff_false in H1, H2.
      split_and!; [done..|]. destruct (Hchk c) as [Hin H4]. exists c. split_and!; [by apply Hin|by apply H4|done|by apply H4].
    + destruct Hend as [[_ Hall]|[-> _]]; [right|left; by left].
      intros c v Hc Hv. apply Hall. exists c. split; [by apply (Hchk c)|done].
Qed.

End build_facts.

(** At most one probe per target; every attempted probe is counted as succeeded
    or failed; [rateLimit] intervals take a second, up to the rounding of a
    nanosecond each. *)
Lemma RunProbes_accounts targets rateLimit env :
  let s := RunProbes targets rateLimit env in
  st_Attempted s = st_Succeeded s + st_Failed s ∧
  0 <= st_Succeeded s ∧ 0 <= st_Failed s ∧ st_Attempted s <= Z.of_nat (length targets) ∧
  (0 < rateLimit <= second → second - rateLimit < probe_interval rateLimit * rateLimit).
Proof.
  assert (∀ targets env i first a b c, a = b + c → 0 <= b → 0 <= c →
    let s := probe_loop i first targets env {| st_Attempted := a; st_Succeeded := b; st_Failed := c |} in
    st_Attempted s = st_Succeeded s + st_Failed s ∧
    0 <= st_Succeeded s ∧ 0 <= st_Failed s ∧ st_Attempted s <= a + Z.of_nat (length targets)) as Hloop.
  { induction targets0 as [|t ts IH]; intros e i first a b c Ha Hb Hc; destruct e as [|e es];
      cbn [probe_loop]; [cbn; lia..|].
    destruct (negb first && _ && _); [cbn; lia|]. destruct (pe_done e); [cbn; lia|].
    destruct (pe_ok e).
    - specialize (IH es i false (a + 1) (b + 1) c ltac:(lia) ltac:(lia) ltac:(lia)).
      cbn [length] in *. cbn in IH |- *. lia.
    - specialize (IH es i false (a + 1) b (c + 1) ltac:(lia) ltac:(lia) ltac:(lia)).
      cbn [length] in *. cbn in IH |- *. lia. }
  unfold RunProbes. specialize (Hloop targets env (probe_interval rateLimit) true 0 0 0 ltac:(lia) ltac:(lia) ltac:(lia)).
  cbn zeta in *. destruct_and! Hloop. split_and!; [lia..|].
  intros Hr. unfold probe_interval. destruct (rateLimit <=? 0) eqn:E; zbool; [lia|].
  pose proof (Z.quot_rem' second rateLimit). pose proof (Z.rem_bound_pos second rateLimit ltac:(unfold second; lia) ltac:(lia)). lia.
Qed.

(** ** Examples *)

Definition demo_plan_opts : PlanOptions := {|
  po_ConfiguredCIDRs := [Some (v4 192 168 1 0 29); None]; po_LocalCIDRs := [];
  po_LocalIPs := {[ pretty (ip_val (net_addr (v4 192 168 1 1 32))) := true ]};
  po_DenyCIDRs := [Some (v4 192 168 1 4 31)]; po_MaxHosts := 10; po_AllowPublic := false |}.

Lemma demo_plan_wf c :
  Some c ∈ po_ConfiguredCIDRs demo_plan_opts ∨ Some c ∈ po_LocalCIDRs demo_plan_opts → net_wf c.
Proof.
  cbn. rewrite !elem_of_cons, !elem_of_nil. intros H. destruct_or! H; try done.
  injection H as ->. unfold net_wf, v4. cbn. lia.
Qed.

