(* ===== verification/RuntimeConfig.v ===== *)
(** * RuntimeConfig: the remotely managed configuration
      (internal/sources/runtime_config.go)

    The control plane sends a JSON object with an optional revision.  [Apply]
    accepts it only forward in revisions and keeps it in a file; the getters
    merge it into the local defaults.  Decoded values are [json] trees in the
    canonical form of Go's maps, members sorted and unique.  [encoding/json],
    the digest, [time.ParseDuration], [net.ParseCIDR], the conversion of number
    literals through float64 and [fmt.Sprintf("%v")] are parameters. *)

From stdpp Require Import pretty.
From S2P Require Import Prelude GoStr GoText Effects GoJson FileUtil Net Topology.
From Stdlib Require Import Ascii.

Local Open Scope Z_scope.
Local Open Scope go_scope.

Inductive rerror :=
  | ErrStaleConfigRevision (what : string)
  | ErrConfigRevisionConflict (revision : Z)
  | ErrRevision
  | ErrMarshalConfig
  | ErrConfigIO (e : string)
  | ErrParseConfig
  | ErrNotObject.

Record SyscollectorConfig := {
  sc_Enabled : bool;
  sc_Every : duration;
  sc_CmdTimeout : duration;
  sc_MaxOutputBytes : Z;
  sc_MaxPackages : Z;
}.

Record VulnScannerConfig := {
  vs_Enabled : bool;
  vs_Every : duration;
  vs_OSVURL : string;
  vs_MinSeverity : string;
  vs_AnalysisProfile : string;
  vs_ExposureEnabled : bool;
  vs_ScanNowToken : string;
  vs_QueryBatchSize : Z;
  vs_MaxPackages : Z;
  vs_CmdTimeout : duration;
  vs_HTTPTimeout : duration;
  vs_MaxOutputBytes : Z;
}.

Record TopologyDiscoveryConfig := {
  td_Enabled : bool;
  td_CIDRs : list (option ipnet);
  td_AllowPublic : bool;
  td_Every : duration;
  td_MaxHosts : Z;
  td_RateLimit : Z;
  td_Timeout : duration;
}.

Record RuntimeConfig := {
  rc_raw : json;
  rc_hash : string;
  rc_path : string;
  rc_defaults : SyscollectorConfig;
  rc_vulnDef : VulnScannerConfig;
  rc_topoDef : TopologyDiscoveryConfig;
  (** a token waits in the channel [changed] *)
  rc_changed : bool;
  rc_loadErr : option rerror;
}.

(** The object in memory and the files. *)
Record rworld := RW { rw_files : files; rw_rc : RuntimeConfig }.
Definition RM : Type → Type := M rworld rerror.

Definition set_files (fs : files) (w : rworld) : rworld := RW fs (rw_rc w).
Definition set_rc (f : RuntimeConfig → RuntimeConfig) (w : rworld) : rworld := RW (rw_files w) (f (rw_rc w)).

Definition onFiles {A} (m : FM A) : RM A := λ v w,
  match m v (rw_files w) with
  | (Ok a, v', fs) => (Ok a, v', set_files fs w)
  | (Err e, v', fs) => (Err (ErrConfigIO e), v', set_files fs w)
  | (Crashed, v', fs) => (Crashed, v', set_files fs w)
  end.

Definition empty_object : json := JObj [].

Section config.
Context (suffix : files → string → string).
(** [json.Marshal] of a decoded value and the decoding of a document. *)
Context (marshal : json → option string) (parse : string → option json).
(** The hexadecimal SHA-256 digest. *)
Context (sha256_hex : string → string).
(** A number literal as a float64, when that is an integer of 64 bits. *)
Context (number_int64 : json → option Z).
Context (ParseDuration : string → option duration).
Context (ParseCIDR : string → option ipnet).
(** [fmt.Sprintf("%v", item)] *)
Context (sprint : json → string).

(** ** Values *)

(** [m[key]] on a decoded object. *)
Definition member (j : json) (key : string) : option json :=
  match j with
  | JObj kvs => snd <$> List.find (λ kv, str_eqb kv.1 key) kvs
  | _ => None
  end.

Definition as_object (v : option json) : option json :=
  match v with Some (JObj kvs) => Some (JObj kvs) | _ => None end.
Definition as_string (v : option json) : option string :=
  match v with Some (JStr s) => Some s | _ => None end.
Definition as_bool (v : option json) : option bool :=
  match v with Some (JBool b) => Some b | _ => None end.

(** [agentcfg.DeepCopyMap] *)
Definition DeepCopyMap (j : json) : json :=
  match marshal j with
  | None => empty_object
  | Some s => match parse s with Some (JObj kvs) => JObj kvs | _ => empty_object end
  end.

(** [agentcfg.ToInt64] *)
Definition ToInt64 (v : option json) : option Z :=
  match v with
  | Some (JInt z) => number_int64 (JInt z)
  | Some (JFrac l) => number_int64 (JFrac l)
  | _ => None
  end.

Definition configHash (raw : json) : string :=
  match marshal raw with None => "" | Some s => sha256_hex s end.

(** The revision and whether there is one. *)
Definition parseConfigRevision (raw : json) : rerror + option Z :=
  match member raw "revision" with
  | None => inr None
  | Some value =>
    match ToInt64 (Some value) with
    | Some revision => if revision <? 1 then inl ErrRevision else inr (Some revision)
    | None => inl ErrRevision
    end
  end.

Definition configRevision (raw : json) : Z :=
  match parseConfigRevision raw with inr (Some r) => r | _ => 0 end.

Definition object_size (j : json) : nat := match j with JObj kvs => length kvs | _ => 0%nat end.

(** ** Loading *)

Definition loadFromFile (path : string) (raw : json) : FM (json * option rerror) :=
  if is_empty path then retM (raw, None) else
  b <- ReadFile path;;
  retM match b with
  | NotExist => (raw, None)
  | ReadFailed => (raw, Some (ErrConfigIO "read persisted runtime config"))
  | Read b =>
    match parse b with
    | Some (JObj kvs) =>
      match parseConfigRevision (JObj kvs) with
      | inl e => (raw, Some e)
      | inr _ => (DeepCopyMap (JObj kvs), None)
      end
    | Some JNull => (raw, Some ErrNotObject)
    | _ => (raw, Some ErrParseConfig)
    end
  end.

Definition NewRuntimeConfig (path : string) (defaults : SyscollectorConfig) (vulnDefaults : VulnScannerConfig)
    (topologyDefaults : TopologyDiscoveryConfig) : FM RuntimeConfig :=
  ' (raw, loadErr) <- loadFromFile path empty_object;;
  retM {| rc_raw := raw; rc_hash := configHash raw; rc_path := path; rc_defaults := defaults;
          rc_vulnDef := vulnDefaults; rc_topoDef := topologyDefaults; rc_changed := false;
          rc_loadErr := loadErr |}.

(** ** Apply *)

(** The order of the checks of [Apply]: [inl] the error, [inr false] nothing to
    do, [inr true] accept. *)
Definition admission (r : RuntimeConfig) (next : json) : rerror + bool :=
  match parseConfigRevision (rc_raw r) with
  | inl e => inl e
  | inr current =>
    match parseConfigRevision next with
    | inl e => inl e
    | inr nextRevision =>
      let newHash := configHash next in
      if str_eqb newHash (rc_hash r) then inr false else
      if (0 <? Z.of_nat (object_size (rc_raw r))) && bool_decide (current = None) &&
         bool_decide (nextRevision = None)
      then inl (ErrStaleConfigRevision "current configuration has no revision") else
      match current with
      | None => inr true
      | Some c =>
        match nextRevision with
        | None => inl (ErrStaleConfigRevision "no revision received")
        | Some n =>
          if n <? c then inl (ErrStaleConfigRevision "older revision received") else
          if (n =? c) && negb (str_eqb newHash (rc_hash r)) then inl (ErrConfigRevisionConflict n)
          else inr true
        end
      end
    end
  end.

Definition accept (next : json) (r : RuntimeConfig) : RuntimeConfig :=
  {| rc_raw := next; rc_hash := configHash next; rc_path := rc_path r; rc_defaults := rc_defaults r;
     rc_vulnDef := rc_vulnDef r; rc_topoDef := rc_topoDef r; rc_changed := true; rc_loadErr := rc_loadErr r |}.

Definition Apply (raw : option json) : RM bool :=
  let next := DeepCopyMap (default empty_object raw) in
  r <- gets rw_rc;;
  match admission r next with
  | inl e => throw e
  | inr false => retM false
  | inr true =>
    (if is_empty (rc_path r) then retM tt else
     match marshal next with
     | None => throw ErrMarshalConfig
     | Some b => onFiles (AtomicWriteFile suffix (rc_path r) b 384)
     end);;;
    modify (set_rc (accept next));;;
    retM true
  end.

(** ** The merged configurations *)

Definition module_of (raw : json) (name : string) : option json :=
  match as_object (member raw "modules") with
  | Some modules => as_object (member modules name)
  | None => None
  end.

Definition duration_of (v : option json) : option duration :=
  match as_string v with Some s => ParseDuration s | None => None end.
Definition positive_duration (v : option json) (def : duration) : duration :=
  match duration_of v with Some d => if 0 <? d then d else def | None => def end.
Definition positive_int (v : option json) (def : Z) : Z :=
  match ToInt64 v with Some n => if 0 <? n then n else def | None => def end.
Definition restrict_bool (v : option json) (def : bool) : bool :=
  match as_bool v with Some b => def && b | None => def end.
Definition nonempty_string (norm : string → string) (v : option json) (def : string) : string :=
  match as_string v with Some s => if is_empty (norm s) then def else norm s | None => def end.

Definition Syscollector (r : RuntimeConfig) : SyscollectorConfig :=
  let cfg := rc_defaults r in
  match module_of (rc_raw r) "syscollector" with
  | None => cfg
  | Some sys => {|
      sc_Enabled := restrict_bool (member sys "enabled") (sc_Enabled cfg);
      sc_Every := positive_duration (member sys "every") (sc_Every cfg);
      sc_CmdTimeout := positive_duration (member sys "cmd_timeout") (sc_CmdTimeout cfg);
      sc_MaxOutputBytes := positive_int (member sys "max_output_bytes") (sc_MaxOutputBytes cfg);
      sc_MaxPackages := positive_int (member sys "max_packages") (sc_MaxPackages cfg) |}
  end.

Definition VulnScanner (r : RuntimeConfig) : VulnScannerConfig :=
  let cfg := rc_vulnDef r in
  match module_of (rc_raw r) "vulnscanner" with
  | None => cfg
  | Some v => {|
      vs_Enabled := restrict_bool (member v "enabled") (vs_Enabled cfg);
      vs_Every := positive_duration (member v "every") (vs_Every cfg);
      vs_OSVURL := nonempty_string TrimSpace (member v "osv_url") (vs_OSVURL cfg);
      vs_MinSeverity := nonempty_string norm (member v "min_severity") (vs_MinSeverity cfg);
      vs_AnalysisProfile := nonempty_string TrimSpace (member v "analysis_profile") (vs_AnalysisProfile cfg);
      vs_ExposureEnabled := default (vs_ExposureEnabled cfg) (as_bool (member v "exposure_enabled"));
      vs_ScanNowToken := match as_string (member v "scan_now_token") with
                         | Some s => TrimSpace s | None => vs_ScanNowToken cfg end;
      vs_QueryBatchSize := positive_int (member v "query_batch_size") (vs_QueryBatchSize cfg);
      vs_MaxPackages := positive_int (member v "max_packages") (vs_MaxPackages cfg);
      vs_CmdTimeout := positive_duration (member v "cmd_timeout") (vs_CmdTimeout cfg);
      vs_HTTPTimeout := positive_duration (member v "http_timeout") (vs_HTTPTimeout cfg);
      vs_MaxOutputBytes := positive_int (member v "max_output_bytes") (vs_MaxOutputBytes cfg) |}
  end.

Definition stringSliceValue (v : option json) : list string :=
  match v with
  | Some (JArr l) =>
    List.filter (λ s, negb (is_empty s) && negb (str_eqb s "<nil>")) (map (TrimSpace ∘ sprint) l)
  | Some (JStr s) => List.filter (negb ∘ is_empty) (map TrimSpace (Split s ","%char))
  | _ => []
  end.

Definition cidrsWithin (requested allowed : list (option ipnet)) : bool :=
  forallb (λ c, match c with
    | None => false
    | Some candidate => existsb (λ b, match b with
        | None => false
        | Some boundary => (n_bits candidate =? n_bits boundary) && (n_ones boundary <=? n_ones candidate) &&
                           net_Contains boundary (net_addr candidate)
        end) allowed
    end) requested.

(** [ParseStrictCIDRs]: every element a network, none skipped but empty ones. *)
Fixpoint strict_cidrs (parts : list string) : string + list ipnet :=
  match parts with
  | [] => inr []
  | p :: parts =>
    let raw := TrimSpace p in
    if is_empty raw then strict_cidrs parts else
    match ParseCIDR raw with
    | None => inl ("invalid CIDR " +:+ raw)
    | Some n => match strict_cidrs parts with inl e => inl e | inr out => inr (n :: out) end
    end
  end.

Definition ParseStrictCIDRs (csv : string) : string + list ipnet := strict_cidrs (Split csv ","%char).

Definition ValidateActiveDiscoveryCIDRs (csv : string) (allowPublic : bool) : string + list ipnet :=
  match ParseStrictCIDRs csv with
  | inl e => inl e
  | inr cidrs =>
    if forallb (λ c, allowPublic || isPrivateOrInternalCIDR c) cidrs then inr cidrs
    else inl "public CIDR requires SEAGULL_TOPOLOGY_ACTIVE_DISCOVERY_ALLOW_PUBLIC=true"
  end.

(** A remote bound that may only tighten the local one. *)
Definition tighter_int (v : option json) (def : Z) : Z :=
  match ToInt64 v with Some n => if (0 <? n) && ((def <=? 0) || (n <=? def)) then n else def | None => def end.

Definition with_cidrs (cidrs : list (option ipnet)) (cfg : TopologyDiscoveryConfig) : TopologyDiscoveryConfig :=
  {| td_Enabled := td_Enabled cfg; td_CIDRs := cidrs; td_AllowPublic := td_AllowPublic cfg;
     td_Every := td_Every cfg; td_MaxHosts := td_MaxHosts cfg; td_RateLimit := td_RateLimit cfg;
     td_Timeout := td_Timeout cfg |}.

(** The scalar settings of the module [v]. *)
Definition merged_topology (def : TopologyDiscoveryConfig) (v : json) : TopologyDiscoveryConfig := {|
  td_Enabled := restrict_bool (member v "enabled") (td_Enabled def);
  td_CIDRs := td_CIDRs def;
  td_AllowPublic := restrict_bool (member v "allow_public") (td_AllowPublic def);
  td_Every := match duration_of (member v "every") with
              | Some d => if td_Every def <=? d then d else td_Every def | None => td_Every def end;
  td_MaxHosts := tighter_int (member v "max_hosts") (td_MaxHosts def);
  td_RateLimit := tighter_int (member v "rate_limit") (td_RateLimit def);
  td_Timeout := match duration_of (member v "timeout") with
                | Some d => if (0 <? d) && ((td_Timeout def <=? 0) || (d <=? td_Timeout def))
                            then d else td_Timeout def
                | None => td_Timeout def end |}.

(** The configuration and the error, if any. *)
Definition TopologyDiscovery (r : RuntimeConfig) : TopologyDiscoveryConfig * option string :=
  let def := rc_topoDef r in
  match module_of (rc_raw r) "topology_active_discovery" with
  | None => (def, None)
  | Some v =>
    let cfg := merged_topology def v in
    match stringSliceValue (member v "cidrs") with
    | [] => (cfg, None)
    | vals =>
      match ValidateActiveDiscoveryCIDRs (Join vals ",") (td_AllowPublic cfg) with
      | inl e => (cfg, Some e)
      | inr cidrs =>
        let cidrs := Some <$> cidrs in
        if (0 <? Z.of_nat (length (td_CIDRs def))) && negb (cidrsWithin cidrs (td_CIDRs def))
        then (cfg, Some "remote topology CIDRs exceed the local discovery policy")
        else (with_cidrs cidrs cfg, None)
      end
    end
  end.

(** ** A remote configuration only restricts the local one *)

Lemma restrict_bool_le v def : restrict_bool v def = true → def = true.
Proof. unfold restrict_bool. destruct (as_bool v) as [[]|], def; done. Qed.

Lemma tighter_int_le v def : 0 < def → 0 < tighter_int v def <= def.
Proof.
  unfold tighter_int. intros H. destruct (ToInt64 v) as [n|]; [|lia].
  destruct ((0 <? n) && _) eqn:E; zbool; lia.
Qed.

(** What the bounds of the merged configuration are, networks aside. *)
Definition tightens (def cfg : TopologyDiscoveryConfig) : Prop :=
  (td_Enabled cfg = true → td_Enabled def = true) ∧
  (td_AllowPublic cfg = true → td_AllowPublic def = true) ∧
  td_Every def <= td_Every cfg ∧
  (0 < td_MaxHosts def → 0 < td_MaxHosts cfg <= td_MaxHosts def) ∧
  (0 < td_RateLimit def → 0 < td_RateLimit cfg <= td_RateLimit def) ∧
  (0 < td_Timeout def → 0 < td_Timeout cfg <= td_Timeout def).

Lemma merged_tightens def v : tightens def (merged_topology def v).
Proof.
  unfold tightens, merged_topology. cbn. split_and!; try apply restrict_bool_le; try apply tighter_int_le.
  - destruct (duration_of _) as [d|]; [|lia]. destruct (_ <=? d) eqn:E; zbool; lia.
  - intros H. destruct (duration_of _) as [d|]; [|lia].
    destruct ((0 <? d) && _) eqn:E; [|lia]. apply andb_true_iff in E as [E1 E2].
    apply orb_true_iff in E2 as [?|?]; zbool; lia.
Qed.

Lemma TopologyDiscovery_shape r :
  (TopologyDiscovery r).1 = rc_topoDef r ∨
  ∃ v l, (TopologyDiscovery r).1 = with_cidrs l (merged_topology (rc_topoDef r) v).
Proof.
  unfold TopologyDiscovery. destruct (module_of _ _) as [v|]; [right; exists v|by left].
  destruct (stringSliceValue _); [by exists (td_CIDRs (rc_topoDef r))|].
  destruct (ValidateActiveDiscoveryCIDRs _ _) as [e|cidrs]; [by exists (td_CIDRs (rc_topoDef r))|].
  destruct (_ && _); [by exists (td_CIDRs (rc_topoDef r))|by eexists].
Qed.

Lemma TopologyDiscovery_tightens r : tightens (rc_topoDef r) (TopologyDiscovery r).1.
Proof.
  destruct (TopologyDiscovery_shape r) as [-> |(v & l & ->)]; [|apply merged_tightens].
  unfold tightens. split_and!; try done; lia.
Qed.


(** ** The networks of an active discovery *)

Context (ParseCIDR_wf : ∀ s n, ParseCIDR s = Some n → net_wf n).

Lemma strict_cidrs_wf parts out : strict_cidrs parts = inr out → Forall net_wf out.
Proof using ParseCIDR_wf.
  revert out. induction parts as [|p parts IH]; cbn [strict_cidrs]; intros out; [by intros [= <-]|].
  destruct (is_empty _); [apply IH|]. destruct (ParseCIDR _) as [n|] eqn:Hp; [|done].
  destruct (strict_cidrs parts); [done|]. intros [= <-]. constructor; [by eapply ParseCIDR_wf|by apply IH].
Qed.

(** The merged networks: the local ones, or remote ones within them. *)
Lemma TopologyDiscovery_cidrs r :
  let def := rc_topoDef r in
  (TopologyDiscovery r).2 = None →
  td_CIDRs (TopologyDiscovery r).1 = td_CIDRs def ∨
  ∃ cidrs, td_CIDRs (TopologyDiscovery r).1 = Some <$> cidrs ∧ Forall net_wf cidrs ∧
    (td_CIDRs def ≠ [] → cidrsWithin (Some <$> cidrs) (td_CIDRs def) = true).
Proof using ParseCIDR_wf.
  intros def. unfold TopologyDiscovery. fold def. destruct (module_of _ _) as [v|]; [|by left].
  destruct (stringSliceValue _) as [|x l]; [by left|].
  destruct (ValidateActiveDiscoveryCIDRs _ _) as [e|cidrs] eqn:Hv; [done|].
  destruct ((0 <? _) && _) eqn:E; [done|]. intros _. right. exists cidrs. split_and!; [done| |].
  - unfold ValidateActiveDiscoveryCIDRs in Hv. destruct (ParseStrictCIDRs _) eqn:Hp; [done|].
    destruct (forallb _ _); [|done]. injection Hv as <-. by eapply strict_cidrs_wf.
  - intros Hne. destruct (td_CIDRs def) as [|y m]; [done|]. cbn [length] in E.
    destruct (cidrsWithin _ _); [done|]. apply andb_false_iff in E as [E|E]; [zbool; lia|done].
Qed.

Lemma cidrsWithin_sound requested allowed c a : (∀ b, Some b ∈ allowed → net_wf b) → net_wf c → ip_wf a →
  cidrsWithin requested allowed = true → Some c ∈ requested → net_Contains c a = true →
  ∃ b, Some b ∈ allowed ∧ net_Contains b a = true.
Proof.
  intros Hwf Hc Ha Hw Hin Hca. unfold cidrsWithin in Hw. rewrite forallb_forall in Hw.
  specialize (Hw (Some c) ltac:(by apply list_elem_of_In)). cbn in Hw.
  apply existsb_exists in Hw as ([b|] & Hb & H); [|done]. apply list_elem_of_In in Hb.
  apply andb_true_iff in H as [[H1 H2]%andb_true_iff H3]. exists b. split; [done|].
  eapply (contained_sub c b); [done|by apply Hwf|done| |done].
  unfold cidrContainedWithin. rewrite H1. cbn [negb orb]. by destruct (n_ones c <? n_ones b) eqn:E; zbool; [lia|].
Qed.

(** The plan the agent makes with the merged configuration, the local networks
    of the host and the local deny list. *)
Definition discovery_options (cfg : TopologyDiscoveryConfig) (local : list (option ipnet))
    (local_ips : gmap string bool) (deny : list (option ipnet)) : PlanOptions := {|
  po_ConfiguredCIDRs := td_CIDRs cfg; po_LocalCIDRs := local; po_LocalIPs := local_ips;
  po_DenyCIDRs := deny; po_MaxHosts := td_MaxHosts cfg; po_AllowPublic := td_AllowPublic cfg |}.

(** A remotely configured active discovery stays within the local policy.
    Unless the remote list of networks is accepted empty, every address it
    probes lies in a network of the local policy (when it lists any), in a
    private network (when public ones are not allowed locally), is not on the
    local deny list, and there are at most the local number of them. *)
Theorem discovery_within_policy (ip_String : Z → string) (ipnet_String : ipnet → string)
    `{!Inj (=) (=) ip_String} r local local_ips deny p :
  let def := rc_topoDef r in
  let cfg := (TopologyDiscovery r).1 in
  (∀ c, Some c ∈ td_CIDRs def ∨ Some c ∈ local → net_wf c) →
  (TopologyDiscovery r).2 = None → td_CIDRs cfg ≠ [] → 0 < td_MaxHosts def →
  BuildPlan ip_String ipnet_String (discovery_options cfg local local_ips deny) = Some (inr p) →
  Z.of_nat (length (p_Targets p)) <= td_MaxHosts def ∧
  ∀ v, v ∈ p_Targets p →
    denied v deny = false ∧
    (td_CIDRs def ≠ [] → ∃ b, Some b ∈ td_CIDRs def ∧ net_Contains b (addr4 v) = true) ∧
    (td_AllowPublic def = false → ∃ n, n ∈ private_nets ∧ net_Contains n (addr4 v) = true).
Proof using ParseCIDR_wf.
  intros def cfg Hwf Herr Hne Hmax Hplan.
  pose proof (TopologyDiscovery_tightens r) as (_ & Hpub & _ & Hhosts & _). fold def cfg in Hpub, Hhosts.
  specialize (Hhosts Hmax).
  pose proof (TopologyDiscovery_cidrs r Herr) as Hc. fold def cfg in Hc.
  set (opts := discovery_options cfg local local_ips deny) in *.
  assert (∀ c, Some c ∈ td_CIDRs cfg → net_wf c) as Hcfg.
  { intros c Hin. destruct Hc as [Heq|(cidrs & Heq & Hall & _)]; rewrite Heq in Hin; [apply Hwf; by left|].
    apply list_elem_of_fmap in Hin as (d & [= ->] & Hd). rewrite Forall_forall in Hall. by apply Hall. }
  destruct (BuildPlan_spec ip_String ipnet_String opts) as (res & Hres & H).
  { intros c [Hin|Hin]; [by apply Hcfg|apply Hwf; by right]. }
  rewrite Hplan in Hres. injection Hres as <-. destruct H as (_ & Hlen & Hsound & _). split.
  { unfold effective_max in Hlen. cbn in Hlen. destruct (td_MaxHosts cfg <=? 0) eqn:E; zbool; lia. }
  intros v Hv. destruct (Hsound v Hv) as (_ & Hden & c & Hscope & H4 & Hhost & Hpriv). split; [exact Hden|].
  assert (Some c ∈ td_CIDRs cfg) as Hin.
  { unfold in_scope, selected_cidrs in Hscope. cbn in Hscope. by destruct (td_CIDRs cfg). }
  pose proof (host_contained c v (conj (Hcfg c Hin) H4) Hhost) as Hcon.
  assert (ip_wf (addr4 v)) as Hv4.
  { pose proof (hosts_range c (conj (Hcfg c Hin) H4)). unfold is_host in Hhost.
    unfold ip_wf. cbn [addr4 ip_val ip_bits]. lia. }
  split.
  - intros Hdef. destruct Hc as [Heq|(cidrs & Heq & Hall & Hw)]; rewrite Heq in Hin; [by exists c|].
    apply (cidrsWithin_sound (Some <$> cidrs) (td_CIDRs def) c); [|by apply Hcfg; rewrite Heq|done|by apply Hw|done|done].
    intros b Hb. apply Hwf. by left.
  - intros Hdef. destruct Hpriv as [Hp|Hp].
    + cbn in Hp. apply Hpub in Hp. congruence.
    + by apply (private_sub c); [apply Hcfg|..].
Qed.

(** The empty list escapes the local policy.  A remote list of networks
    that is one comma is accepted without an error as no networks at all,
    although the local policy lists networks, and a plan without networks falls
    back to all private networks of the host: here an address outside the local policy is
    a target. *)
Theorem empty_list_escapes_policy (ipnet_String : ipnet → string) r :
  sprint (JStr ",") = "," →
  rc_raw r = JObj [("modules", JObj [("topology_active_discovery", JObj [("cidrs", JArr [JStr ","])])])] →
  td_CIDRs (rc_topoDef r) = [Some (v4 10 1 0 0 16)] → td_MaxHosts (rc_topoDef r) = 256 →
  let cfg := (TopologyDiscovery r).1 in
  (TopologyDiscovery r).2 = None ∧ td_CIDRs cfg = [] ∧
  ∃ p v, BuildPlan pretty ipnet_String (discovery_options cfg [Some (v4 192 168 7 4 30)] ∅ []) = Some (inr p) ∧
    v ∈ p_Targets p ∧ net_Contains (v4 10 1 0 0 16) (addr4 v) = false.
Proof.
  intros Hs Hraw Hdef Hmax cfg. unfold cfg.
  assert (TopologyDiscovery r = (with_cidrs [] (merged_topology (rc_topoDef r) (JObj [("cidrs", JArr [JStr ","])])), None)) as ->.
  { unfold TopologyDiscovery. rewrite Hraw. cbn. rewrite Hs. cbn. by destruct (0 <? _). }
  split; [done|]. split; [done|].
  destruct (rc_topoDef r) as [en cidrs pub ev mh rl tmo]. cbn in Hdef, Hmax. subst cidrs mh.
  exists {| p_AllowedCIDRs := [ipnet_String (v4 192 168 7 4 30)];
            p_Targets := [ip_val (net_addr (v4 192 168 7 5 32)); ip_val (net_addr (v4 192 168 7 6 32))];
            p_SkippedDenied := 0; p_SkippedLocal := 0; p_Warnings := [] |},
         (ip_val (net_addr (v4 192 168 7 5 32))).
  destruct pub; (split; [vm_compute; reflexivity|split; [by left|vm_compute; reflexivity]]).
Qed.

(** ** Revisions never go back *)

(** What a configuration counts as: none, one without a revision, or its
    revision.  Revisions are positive. *)
Definition rank (raw : json) : Z :=
  match parseConfigRevision raw with
  | inr (Some n) => n + 1
  | _ => if (0 <? Z.of_nat (object_size raw)) then 1 else 0
  end.

(** A configuration that can be in memory: an object, with a usable revision if any. *)
Definition wellformed (raw : json) : Prop :=
  (∃ kvs, raw = JObj kvs) ∧ ∃ rev, parseConfigRevision raw = inr rev.

Lemma revision_positive raw n : parseConfigRevision raw = inr (Some n) → 1 <= n.
Proof.
  unfold parseConfigRevision. destruct (member raw "revision") as [v|]; [|done].
  destruct (ToInt64 _) as [z|]; [|done]. destruct (z <? 1) eqn:E; [done|]. zbool. intros [= <-]. done.
Qed.

(** An accepted configuration is strictly newer. *)
Lemma admission_newer r next : (∃ kvs, next = JObj kvs) → rc_hash r = configHash (rc_raw r) →
  (∃ kvs, rc_raw r = JObj kvs) →
  admission r next = inr true → rank (rc_raw r) < rank next ∧ ∃ rev, parseConfigRevision next = inr rev.
Proof.
  intros [kvs ->] Hh [kvr Hr]. unfold admission, rank. rewrite Hr in *.
  destruct (parseConfigRevision (JObj kvr)) as [|current] eqn:Hc; [done|].
  destruct (parseConfigRevision (JObj kvs)) as [|nextRev] eqn:Hn; [done|]. rewrite Hh.
  destruct (str_eqb (configHash (JObj kvs)) (configHash (JObj kvr))) eqn:Heq; [done|].
  apply str_eqb_neq in Heq. intros H. split; [|by eexists].
  destruct current as [c|], nextRev as [n|].
  - destruct (_ && _ && _); [done|]. destruct (n <? c) eqn:E1; [done|].
    destruct (n =? c) eqn:E2; cbn [andb negb] in H; [done|]. zbool. lia.
  - destruct (_ && _ && _); done.
  - apply revision_positive in Hn. destruct (0 <? _); lia.
  - cbn [object_size] in *. rewrite !bool_decide_eq_true_2, !andb_true_r in H by done.
    destruct (0 <? Z.of_nat (length kvr)) eqn:E1; [done|]. destruct kvs as [|kv kvs]; [|done].
    destruct kvr as [|kv kvr]; [done|]. zbool. simpl in *. lia.
Qed.

Section persistence.
Context (suffix_fresh : ∀ fs path, fs !! temp_path suffix fs path = None).
(** A decoded value can be encoded, and decodes to itself again; the empty
    object is a decoded value. *)
Context (json_stable : ∀ s j, parse s = Some j → ∃ s', marshal j = Some s' ∧ parse s' = Some j).
Context (json_empty : ∃ s, parse s = Some empty_object).
Context (path : string) (Hplain : plain_path path = true) (Hvisible : no_temp [path] = true).

Definition decoded (raw : json) : Prop := ∃ s, parse s = Some raw.

Lemma DeepCopyMap_decoded raw : decoded (DeepCopyMap raw) ∧ ∃ kvs, DeepCopyMap raw = JObj kvs.
Proof using json_empty.
  unfold DeepCopyMap. destruct (marshal raw) as [s|]; [|split; [done|by eexists]].
  destruct (parse s) as [[]|] eqn:Hp; split; try done; by eexists.
Qed.

Lemma DeepCopyMap_id kvs : decoded (JObj kvs) → DeepCopyMap (JObj kvs) = JObj kvs.
Proof using json_stable.
  intros [s Hs]. unfold DeepCopyMap. destruct (json_stable s _ Hs) as (s' & -> & Hp). by rewrite Hp.
Qed.

(** The file holds the configuration in memory or a newer one (written by an
    [Apply] that failed afterwards). *)
Definition on_disk (fs : files) (raw : json) : Prop :=
  match fs !! path with
  | None => raw = empty_object
  | Some f => ∃ kvs, parse (f_data f) = Some (JObj kvs) ∧ (∃ rev, parseConfigRevision (JObj kvs) = inr rev) ∧
      (JObj kvs = raw ∨ rank raw < rank (JObj kvs))
  end.

Definition rinv (w : rworld) : Prop :=
  rc_path (rw_rc w) = path ∧ rc_hash (rw_rc w) = configHash (rc_raw (rw_rc w)) ∧
  wellformed (rc_raw (rw_rc w)) ∧ on_disk (rw_files w) (rc_raw (rw_rc w)).

Lemma on_disk_agree fs fs' raw : agree [path] fs fs' → on_disk fs' raw → on_disk fs raw.
Proof. intros Ha. unfold on_disk. by rewrite (Ha path) by (by left). Qed.

Lemma triple_onFiles {A} fs0 (m : FM A) (Q : A → files → Prop) R C rc :
  triple (λ fs, fs = fs0) m Q (λ _, R) C →
  triple (λ w, w = RW fs0 rc) (onFiles m)
    (λ a w, ∃ fs, w = RW fs rc ∧ Q a fs) (λ _ w, ∃ fs, w = RW fs rc ∧ R fs) (λ w, ∃ fs, w = RW fs rc ∧ C fs).
Proof.
  intros Hm v w ->. specialize (Hm v fs0 eq_refl). unfold onFiles. cbn.
  destruct (m v fs0) as [[[a|e|] v'] fs]; eauto.
Qed.

(** The memory moves forward or stays. *)
Definition forward (raw raw' : json) : Prop := raw' = raw ∨ rank raw < rank raw'.

Lemma Apply_spec raw w0 : rinv w0 →
  let I w := rinv w ∧ rc_raw (rw_rc w) = rc_raw (rw_rc w0) in
  triple (λ w, w = w0) (Apply raw)
    (λ changed w, rinv w ∧ if changed : bool
       then rank (rc_raw (rw_rc w0)) < rank (rc_raw (rw_rc w)) ∧
            rc_raw (rw_rc w) = DeepCopyMap (default empty_object raw)
       else w = w0) (λ _, I) I.
Proof using suffix_fresh json_stable json_empty Hplain Hvisible.
  intros (Hpath & Hhash & Hwf & Hdisk) I. unfold Apply.
  assert (I w0) as HI0 by done. set (next := DeepCopyMap (default empty_object raw)).
  destruct (DeepCopyMap_decoded (default empty_object raw)) as [Hdec [kvs Hobj]]. fold next in Hdec, Hobj.
  eapply triple_bind with (Q' := λ r w, r = rw_rc w0 ∧ w = w0); [apply triple_gets; by intros w ->|].
  intros r. apply triple_pure. intros ->.
  destruct (admission (rw_rc w0) next) as [e|[|]] eqn:Ha.
  { apply triple_throw. by intros w ->. }
  2: { apply triple_ret. intros w ->. split; [by destruct HI0|done]. }
  destruct (admission_newer (rw_rc w0) next) as [Hnew Hrev]; [by eexists|done|apply Hwf|done|].
  rewrite Hpath. assert (is_empty path = false) as Hne by (by apply andb_true_iff in Hplain as [?%negb_true_iff _]).
  rewrite Hne. destruct Hdec as [s Hs]. destruct (json_stable s next Hs) as (b & Hb & Hpb). rewrite Hb.
  destruct w0 as [fs0 rc]. cbn [rw_rc rw_files] in *.
  assert (on_disk (<[path := File b 384]> fs0) (rc_raw rc)) as Hdisk'.
  { unfold on_disk. rewrite lookup_insert_eq. exists kvs. cbn. rewrite <- Hobj. split_and!; [done|done|by right]. }
  eapply triple_bind with (Q' := λ _ w, ∃ fs, w = RW fs rc ∧ agree [path] fs (<[path := File b 384]> fs0)).
  { eapply triple_conseq; [eapply (triple_onFiles fs0 _ _ (λ fs, on_disk fs (rc_raw rc)) (λ fs, on_disk fs (rc_raw rc)) rc)| | | |].
    - eapply triple_conseq; [apply (AtomicWriteFile_spec suffix suffix_fresh [path] Hvisible path b 384 fs0); [by left|done]|..].
      + done.
      + intros a fs H. exact H.
      + intros e fs [H|H]; by eapply on_disk_agree.
      + intros fs [H|H]; by eapply on_disk_agree.
    - done.
    - done.
    - intros e w (fs & -> & H). by split.
    - intros w (fs & -> & H). by split. }
  intros _. eapply triple_bind with (Q' := λ _ w, rinv w ∧ rank (rc_raw rc) < rank (rc_raw (rw_rc w)) ∧ rc_raw (rw_rc w) = next).
  - apply triple_modify. intros w (fs & -> & H). unfold rinv, set_rc, accept. cbn. split_and!; try done.
    + split; [by eexists|exact Hrev].
    + eapply on_disk_agree; [exact H|]. unfold on_disk. rewrite lookup_insert_eq. exists kvs. cbn.
      rewrite <- Hobj. split_and!; [done|done|by left].
  - intros _. apply triple_ret. by intros w (? & ? & ?).
Qed.

(** Loading finds what is on disk. *)
Lemma NewRuntimeConfig_spec d1 d2 d3 fs0 raw0 : on_disk fs0 raw0 →
  triple (λ fs, fs = fs0) (NewRuntimeConfig path d1 d2 d3)
    (λ rc fs, rc_loadErr rc = None → rinv (RW fs rc) ∧ forward raw0 (rc_raw rc)) (λ _ _, True) (λ _, True).
Proof using suffix_fresh json_stable json_empty Hplain Hvisible.
  intros Hdisk. unfold NewRuntimeConfig, loadFromFile.
  assert (is_empty path = false) as -> by (by apply andb_true_iff in Hplain as [?%negb_true_iff _]).
  assert (wellformed empty_object) as Hwe by (split; [by eexists|by exists None]).
  eapply triple_bind with (Q' := λ x fs, fs = fs0 ∧ (x.2 = None →
    wellformed x.1 ∧ on_disk fs x.1 ∧ forward raw0 x.1)).
  - eapply triple_reads_bind; [apply ReadFile_reads| |done|done]. intros b. apply triple_ret.
    intros fs [-> Hb]. split; [done|]. unfold on_disk in *. destruct b as [d| |].
    + destruct (fs0 !! path) as [f|]; [|done]. injection Hb as <-.
      destruct Hdisk as (kvs & Hp & [rev Hrev] & Hord). rewrite Hp, Hrev. intros _. cbn.
      rewrite DeepCopyMap_id by (by eexists). split_and!.
      * split; [by eexists|by eexists].
      * exists kvs. split_and!; [done|by eexists|by left].
      * destruct Hord as [->|?]; [by left|by right].
    + intros _. rewrite Hb in *. cbn. subst raw0. by split_and!; [..|by left].
    + done.
  - intros [raw e]. apply triple_ret. intros fs [-> H] Herr. cbn in *. destruct (H Herr) as (H1 & H2 & H3).
    by split.
Qed.

(** The life of the configuration: applied while the agent runs, loaded when it
    starts again after any end of the previous run. *)
Inductive rstep (w w' : rworld) : Prop :=
  | step_apply raw v o v' : Apply raw v w = (o, v', w') → rstep w w'
  | step_restart d1 d2 d3 v v' fs rc :
      NewRuntimeConfig path d1 d2 d3 v (rw_files w) = (Ok rc, v', fs) → rc_loadErr rc = None →
      w' = RW fs rc → rstep w w'.

Lemma forward_trans a b c : forward a b → forward b c → forward a c.
Proof. unfold forward. intros [->|?] [->|?]; auto. right. lia. Qed.

Lemma rstep_forward w w' : rinv w → rstep w w' → rinv w' ∧ forward (rc_raw (rw_rc w)) (rc_raw (rw_rc w')).
Proof using suffix_fresh json_stable json_empty Hplain Hvisible.
  intros Hw [raw v o v' Hrun|d1 d2 d3 v v' fs rc Hrun Herr ->].
  - pose proof (Apply_spec raw w Hw v w eq_refl) as H. rewrite Hrun in H.
    destruct o as [[|]|e|]; destruct H as [H1 H2]; (split; [done|]).
    + right. apply H2.
    + left. by rewrite H2.
    + by left.
    + by left.
  - destruct Hw as (_ & _ & _ & Hdisk).
    pose proof (NewRuntimeConfig_spec d1 d2 d3 _ _ Hdisk v _ eq_refl) as H. rewrite Hrun in H.
    by apply H.
Qed.

End persistence.
End config.

(** ** Examples *)

(** Three documents, encoded and decoded. *)
Definition demo_docs : list (string * json) :=
  [("{}", empty_object); ("r1", JObj [("revision", JInt 1)]); ("r2", JObj [("revision", JInt 2)])].
Definition demo_parse (s : string) : option json := snd <$> List.find (λ d, str_eqb d.1 s) demo_docs.
Definition demo_marshal (j : json) : option string :=
  match j with
  | JObj [] => Some "{}"
  | JObj [(_, JInt 1)] => Some "r1"
  | JObj [(_, JInt 2)] => Some "r2"
  | _ => None
  end.
Definition demo_int64 (j : json) : option Z := match j with JInt z => Some z | _ => None end.

Lemma demo_stable s j : demo_parse s = Some j → ∃ s', demo_marshal j = Some s' ∧ demo_parse s' = Some j.
Proof.
  unfold demo_parse. cbn [List.find demo_docs fst].
  repeat (destruct (str_eqb _ s); [intros [= <-]; eexists; split; reflexivity|]). done.
Qed.

Definition demo_sc : SyscollectorConfig := {| sc_Enabled := true; sc_Every := hour; sc_CmdTimeout := minute;
  sc_MaxOutputBytes := 1000; sc_MaxPackages := 10 |}.
Definition demo_vs : VulnScannerConfig := {| vs_Enabled := true; vs_Every := hour; vs_OSVURL := "";
  vs_MinSeverity := ""; vs_AnalysisProfile := ""; vs_ExposureEnabled := false; vs_ScanNowToken := "";
  vs_QueryBatchSize := 1; vs_MaxPackages := 1; vs_CmdTimeout := minute; vs_HTTPTimeout := minute;
  vs_MaxOutputBytes := 1000 |}.
Definition demo_td (max : Z) : TopologyDiscoveryConfig := {| td_Enabled := true;
  td_CIDRs := [Some (v4 10 1 0 0 16)]; td_AllowPublic := false; td_Every := hour; td_MaxHosts := max;
  td_RateLimit := 5; td_Timeout := second |}.
Definition demo_rc (raw : json) (max : Z) : RuntimeConfig := {| rc_raw := raw; rc_hash := ""; rc_path := "";
  rc_defaults := demo_sc; rc_vulnDef := demo_vs; rc_topoDef := demo_td max; rc_changed := false;
  rc_loadErr := None |}.

Definition demo_topology (cidr : string) : json :=
  JObj [("modules", JObj [("topology_active_discovery", JObj [("cidrs", JArr [JStr cidr])])])].
Definition demo_sprint (j : json) : string := match j with JStr s => s | _ => "" end.
Definition demo_ParseCIDR (s : string) : option ipnet :=
  if str_eqb s "10.1.2.0/30" then Some (v4 10 1 2 0 30) else None.

Lemma demo_ParseCIDR_wf s n : demo_ParseCIDR s = Some n → net_wf n.
Proof. unfold demo_ParseCIDR. destruct (str_eqb _ _); [|done]. intros [= <-]. unfold net_wf, v4. cbn. lia. Qed.

Lemma discovery_within_policy_witness :
  ∃ b, Some b ∈ [Some (v4 10 1 0 0 16)] ∧
    net_Contains b (addr4 (ip_val (net_addr (v4 10 1 2 1 32)))) = true.
Proof.
  destruct (discovery_within_policy demo_int64 (λ _, None) demo_ParseCIDR demo_sprint demo_ParseCIDR_wf
    pretty (λ _, "net") (demo_rc (demo_topology "10.1.2.0/30") 256) [] ∅ []
    {| p_AllowedCIDRs := ["net"];
       p_Targets := (ip_val ∘ net_addr) <$> [v4 10 1 2 1 32; v4 10 1 2 2 32];
       p_SkippedDenied := 0; p_SkippedLocal := 0; p_Warnings := [] |}) as [_ H].
  - cbn. intros c [[[= ->]|?%not_elem_of_nil]%elem_of_cons|?%not_elem_of_nil]; [|done..].
    unfold net_wf, v4. cbn. lia.
  - vm_compute. reflexivity.
  - vm_compute. discriminate.
  - reflexivity.
  - vm_compute. reflexivity.
  - destruct (H (ip_val (net_addr (v4 10 1 2 1 32)))) as (_ & Hb & _); [by left|]. by apply Hb.
Defined.

Lemma empty_list_escapes_policy_witness :
  td_CIDRs (TopologyDiscovery demo_int64 (λ _, None) demo_ParseCIDR demo_sprint (demo_rc (demo_topology ",") 256)).1 = [].
Proof.
  apply (empty_list_escapes_policy demo_int64 (λ _, None) demo_ParseCIDR demo_sprint (λ _, "net")
    (demo_rc (demo_topology ",") 256)); reflexivity.
Defined.

Definition demo_env : env := Env [] [].
Definition demo_w0 : rworld := RW ∅ {|
  rc_raw := empty_object; rc_hash := "{}"; rc_path := "/c"; rc_defaults := demo_sc; rc_vulnDef := demo_vs;
  rc_topoDef := demo_td 1; rc_changed := false; rc_loadErr := None |}.
Definition demo_apply (raw : json) (w : rworld) : rworld :=
  (Apply long_suffix demo_marshal demo_parse id demo_int64 (Some raw) demo_env w).2.
Definition demo_w1 : rworld := demo_apply (JObj [("revision", JInt 1)]) demo_w0.
Definition demo_w2 : rworld := demo_apply (JObj [("revision", JInt 2)]) demo_w1.

Lemma demo_step raw w : rstep long_suffix demo_marshal demo_parse id demo_int64 "/c" w (demo_apply raw w).
Proof.
  unfold demo_apply. destruct (Apply _ _ _ _ _ (Some raw) demo_env w) as [[o v'] w'] eqn:H. by econstructor.
Qed.

