(* ===== verification/CertPair.v ===== *)
(** * CertPair: the client certificate and its key (internal/certrenew/certrenew.go)

    The TLS identity of the agent is a pair of files.  [PersistPair] replaces
    both in a transaction that [recoverPair] completes or undoes after an
    interruption.  PEM and X.509 are parameters: the decoder of PEM blocks, the
    parser of certificates and the check that a certificate and a key belong
    together.  Key generation is not modelled. *)

From S2P Require Import Prelude GoStr GoText Effects FileUtil.
From Stdlib Require Import Ascii.

Local Open Scope Z_scope.
Local Open Scope go_scope.

Record certificate := {
  x_CommonName : string;
  x_IsCA : bool;
  x_BasicConstraintsValid : bool;
  x_NotBefore : time;
  x_NotAfter : time;
  x_ExtKeyUsage : list Z;
  (** [SerialNumber.Text(16)] *)
  x_SerialHex : string;
}.

Definition ExtKeyUsageAny : Z := 0.
Definition ExtKeyUsageClientAuth : Z := 2.

Record CertStatus := { cs_SerialHex : string; cs_NotBefore : time; cs_NotAfter : time }.

Definition status_of (c : certificate) : CertStatus :=
  {| cs_SerialHex := x_SerialHex c; cs_NotBefore := x_NotBefore c; cs_NotAfter := x_NotAfter c |}.

Section inspection.
Context (suffix : files → string → string).

(** [pem.Decode]: the type and bytes of the first block and what follows it. *)
Context (pem_decode : string → option (string * string * string)).
(** [x509.ParseCertificate] *)
Context (parse_certificate : string → option certificate).

Definition newline : string := String (ascii_of_nat 10) "".

(** ** Inspection and validation *)

Definition Inspect (certFile : string) : FM CertStatus :=
  data <- ReadFile certFile;;
  match data with
  | Read data =>
    match pem_decode data with
    | Some (typ, bytes, _) =>
      if negb (str_eqb typ "CERTIFICATE") then throw "client certificate file is not certificate PEM" else
      match parse_certificate bytes with
      | None => throw "parse client certificate"
      | Some cert => retM (status_of cert)
      end
    | None => throw "client certificate file is not certificate PEM"
    end
  | _ => throw "read client certificate"
  end.

Definition NeedsRenewal (certFile : string) (renewBefore : duration) (now : time) : FM (bool * CertStatus) :=
  status <- Inspect certFile;;
  let renewBefore := if renewBefore <=? 0 then 30 * 24 * hour else renewBefore in
  retM (negb (now + renewBefore <? cs_NotAfter status), status).

Fixpoint ca_loop (fuel : nat) (certificates : Z) (remaining : string) : string + unit :=
  match fuel with
  | O => inl "out of fuel"
  | S fuel =>
    if is_empty (TrimSpace remaining) then
      if certificates =? 0 then inl "server CA bundle does not contain certificates" else inr tt
    else
    match pem_decode remaining with
    | Some (typ, bytes, rest) =>
      if negb (str_eqb typ "CERTIFICATE") then inl "server CA bundle is not certificate PEM" else
      match parse_certificate bytes with
      | None => inl "parse server CA bundle"
      | Some certificate =>
        if negb (x_BasicConstraintsValid certificate) || negb (x_IsCA certificate)
        then inl "server CA bundle contains a non-CA certificate"
        else ca_loop fuel (certificates + 1) rest
      end
    | None => inl "server CA bundle is not certificate PEM"
    end
  end.

Definition ValidateServerCA (bundlePEM : string) : string + unit :=
  let bundle := TrimSpace bundlePEM in
  if is_empty bundle then inl "server CA bundle is empty" else
  ca_loop (S (String.length bundle)) 0 bundle.

Definition lift_err {A} (r : string + A) : FM A :=
  match r with inl e => throw e | inr a => retM a end.

Definition PersistServerCA (bundlePEM caFile : string) : FM bool :=
  let bundle := TrimSpace bundlePEM in
  let target := TrimSpace caFile in
  if is_empty bundle || is_empty target then retM false else
  lift_err (ValidateServerCA bundle);;;
  existing <- ReadFile target;;
  if match existing with Read d => str_eqb (TrimSpace d) bundle | _ => false end then retM false else
  wrap "persist server CA" (AtomicWriteFile suffix target (bundle +:+ newline) 420);;;
  retM true.

(** *** The bundle check *)

(** A bundle of [n] CA certificates. *)
Inductive ca_chain : string → Z → Prop :=
  | ca_end s : is_empty (TrimSpace s) = true → ca_chain s 0
  | ca_cert s bytes rest c n :
      is_empty (TrimSpace s) = false → pem_decode s = Some ("CERTIFICATE", bytes, rest) →
      parse_certificate bytes = Some c → x_BasicConstraintsValid c = true → x_IsCA c = true →
      ca_chain rest n → ca_chain s (n + 1).

Context (pem_shorter : ∀ s typ bytes rest,
  pem_decode s = Some (typ, bytes, rest) → (String.length rest < String.length s)%nat).

(** A run of the loop with enough fuel: it stops, and it accepts the chains. *)
Lemma ca_loop_spec fuel : ∀ k s, 0 <= k → (String.length s < fuel)%nat →
  (ca_loop fuel k s = inr tt ↔ ∃ n, 0 < k + n ∧ ca_chain s n) ∧ ca_loop fuel k s ≠ inl "out of fuel".
Proof using pem_shorter.
  induction fuel as [|fuel IH]; intros k s Hk Hs; [lia|]. cbn [ca_loop].
  destruct (is_empty (TrimSpace s)) eqn:He.
  { assert (∀ n, ca_chain s n ↔ n = 0) as Hn.
    { intros n. split; [inversion 1; [done|congruence]|intros ->; by constructor]. }
    destruct (k =? 0) eqn:Ek; zbool; split; [|done| |done]; split.
    - done.
    - intros (n & ? & ->%Hn). lia.
    - intros _. exists 0. split; [lia|by apply Hn].
    - done. }
  assert (∀ P : Prop, (∀ bytes rest c n, pem_decode s = Some ("CERTIFICATE", bytes, rest) →
    parse_certificate bytes = Some c → x_BasicConstraintsValid c = true → x_IsCA c = true →
    ca_chain rest n → P) → (∃ n, 0 < k + n ∧ ca_chain s n) → P) as Hinv.
  { intros P HP (n & _ & Hc). inversion Hc; [congruence|]. by eapply HP. }
  destruct (pem_decode s) as [[[typ bytes] rest]|] eqn:Hp.
  2: { split; [|done]. split; [done|]. by apply Hinv. }
  destruct (str_eqb typ "CERTIFICATE") eqn:Ht; cbn [negb].
  2: { split; [|done]. split; [done|]. apply Hinv. intros ????[= -> -> ->]. by rewrite str_eqb_refl in Ht. }
  apply str_eqb_eq in Ht as ->. destruct (parse_certificate bytes) as [c|] eqn:Hc.
  2: { split; [|done]. split; [done|]. apply Hinv. intros ???? [= <- <-]. congruence. }
  destruct (negb (x_BasicConstraintsValid c) || negb (x_IsCA c)) eqn:Hca.
  { split; [|done]. split; [done|]. apply Hinv. intros ???? [= <- <-] Hc' H1 H2 _.
    rewrite Hc in Hc'. injection Hc' as <-. by rewrite H1, H2 in Hca. }
  zbool. apply pem_shorter in Hp as Hlen. destruct (IH (k + 1) rest) as [IH1 IH2]; [lia|lia|].
  split; [|done]. rewrite IH1. split; intros (n & Hn & Hch).
  - exists (n + 1). split; [lia|]. by econstructor.
  - inversion Hch; [congruence|]. simplify_eq. eexists. split; [|done]. lia.
Qed.

(** The check of a server CA bundle always ends, whatever the PEM decoder
    finds, and accepts exactly the texts that are a non-empty sequence of
    CERTIFICATE blocks, each a CA certificate with valid basic constraints and
    nothing but white space after the last. *)
Theorem ValidateServerCA_decides bundlePEM :
  ValidateServerCA bundlePEM ≠ inl "out of fuel" ∧
  (ValidateServerCA bundlePEM = inr tt ↔ ∃ n, 0 < n ∧ ca_chain (TrimSpace bundlePEM) n).
Proof using pem_shorter.
  unfold ValidateServerCA. destruct (is_empty (TrimSpace bundlePEM)) eqn:He.
  - split; [done|]. split; [done|]. intros (n & Hn & Hc).
    inversion Hc; subst; [lia|]. rewrite TrimSpace_idem in *. congruence.
  - destruct (ca_loop_spec (S (String.length (TrimSpace bundlePEM))) 0 (TrimSpace bundlePEM)) as [H1 H2];
      [lia|lia|]. split; [done|]. rewrite H1. done.
Qed.
End inspection.

Section certs.
Context (suffix : files → string → string).
(** [x509.ParseCertificate] *)
Context (parse_certificate : string → option certificate).
(** [tls.X509KeyPair]: the chain of the pair. *)
Context (x509_key_pair : string → string → option (list string)).
(** [Format(time.RFC3339Nano)] *)
Context (format_nano : time → string).

Definition ValidateIssuedPair (certPEM keyPEM agentID : string) (now : time) : string + CertStatus :=
  let expectedAgentID := TrimSpace agentID in
  if is_empty expectedAgentID then inl "expected agent identity is required" else
  match x509_key_pair certPEM keyPEM with
  | None => inl "issued certificate does not match generated key"
  | Some [] => inl "issued certificate chain is empty"
  | Some (leaf :: _) =>
    match parse_certificate leaf with
    | None => inl "parse issued client certificate"
    | Some certificate =>
      if negb (str_eqb (TrimSpace (x_CommonName certificate)) expectedAgentID)
      then inl "issued certificate identity does not match the agent" else
      if x_IsCA certificate then inl "issued client certificate cannot be a CA" else
      if (now <? x_NotBefore certificate) || negb (now <? x_NotAfter certificate)
      then inl "issued client certificate is not currently valid" else
      if negb (existsb (λ u, (u =? ExtKeyUsageClientAuth) || (u =? ExtKeyUsageAny))
                 (x_ExtKeyUsage certificate))
      then inl "issued certificate does not allow client authentication" else
      inr (status_of certificate)
    end
  end.

(** ** The transaction *)

Definition readOptional (path : string) : FM string :=
  r <- ReadFile path;; retM match r with Read d => d | _ => "" end.

(** [tls.LoadX509KeyPair] *)
Definition LoadX509KeyPair (certFile keyFile : string) : FM bool :=
  c <- ReadFile certFile;;
  match c with
  | Read c =>
    k <- ReadFile keyFile;;
    retM match k with Read k => bool_decide (is_Some (x509_key_pair c k)) | _ => false end
  | _ => retM false
  end.

(** A directory that does not exist counts as synchronised. *)
Definition syncDirectory (path : string) : FM unit :=
  sys_or "open certificate directory" id;;;
  synced <- sys id;;
  closed <- sys id;;
  if negb synced then throw "sync certificate directory" else
  if negb closed then throw "close certificate directory" else retM tt.

Fixpoint uniqueDirectories (seen : list string) (paths : list string) : list string :=
  match paths with
  | [] => []
  | p :: paths =>
    let dir := Dir p in
    if str_in dir seen then uniqueDirectories seen paths
    else dir :: uniqueDirectories (dir :: seen) paths
  end.

Definition artifacts (certFile keyFile : string) : list string := [
  certFile +:+ ".next"; keyFile +:+ ".next";
  certFile +:+ ".previous"; keyFile +:+ ".previous";
  certFile +:+ ".pair-transaction"].

(** The loops of [cleanupPairArtifacts]; the result says whether every step
    succeeded. *)
Fixpoint remove_all (paths : list string) : FM bool :=
  match paths with
  | [] => retM true
  | p :: paths =>
    r <- Remove p;;
    ok <- remove_all paths;;
    retM (match r with RemoveFailed => false | _ => ok end)
  end.

Fixpoint sync_all (dirs : list string) : FM bool :=
  match dirs with
  | [] => retM true
  | d :: dirs =>
    r <- try (syncDirectory d);;
    ok <- sync_all dirs;;
    retM (match r with inl _ => false | inr _ => ok end)
  end.

Definition cleanupPairArtifacts (certFile keyFile : string) : FM unit :=
  let paths := artifacts certFile keyFile in
  removed <- remove_all paths;;
  synced <- sync_all (uniqueDirectories [] paths);;
  if removed && synced then retM tt else throw "clean certificate transaction".

Definition replaceBackup (current previous : string) : FM unit :=
  r <- Remove previous;;
  match r with
  | RemoveFailed => throw "remove stale certificate backup"
  | _ =>
    r <- Rename current previous;;
    match r with
    | Missing => retM tt
    | RemoveFailed => throw "backup certificate material"
    | Removed => syncDirectory (Dir current)
    end
  end.

(** The first candidate that is a pair is installed; the result says whether
    there was one. *)
Fixpoint restore (certFile keyFile : string) (candidates : list (string * string)) : FM bool :=
  match candidates with
  | [] => retM false
  | (cert, key) :: candidates =>
    if is_empty cert || is_empty key then restore certFile keyFile candidates else
    match x509_key_pair cert key with
    | None => restore certFile keyFile candidates
    | Some _ =>
      wrap "restore client key" (AtomicWriteFile suffix keyFile key 384);;;
      wrap "restore client certificate" (AtomicWriteFile suffix certFile cert 420);;;
      cleanupPairArtifacts certFile keyFile;;;
      retM true
    end
  end.

Definition recoverPair (certFile keyFile : string) : FM unit :=
  let certFile := TrimSpace certFile in
  let keyFile := TrimSpace keyFile in
  if is_empty certFile || is_empty keyFile then retM tt else
  loaded <- LoadX509KeyPair certFile keyFile;;
  if loaded : bool then cleanupPairArtifacts certFile keyFile else
  certCurrent <- readOptional certFile;;
  keyCurrent <- readOptional keyFile;;
  certNext <- readOptional (certFile +:+ ".next");;
  keyNext <- readOptional (keyFile +:+ ".next");;
  certPrevious <- readOptional (certFile +:+ ".previous");;
  keyPrevious <- readOptional (keyFile +:+ ".previous");;
  restored <- restore certFile keyFile [
    (certCurrent, keyPrevious); (certPrevious, keyPrevious); (certNext, keyCurrent);
    (certNext, keyNext); (certPrevious, keyCurrent)];;
  if restored : bool then retM tt else
  if forallb is_empty [certCurrent; keyCurrent; certNext; keyNext; certPrevious; keyPrevious]
  then retM tt
  else throw "no valid client certificate transaction state could be recovered".

Definition RecoverPair : string → string → FM unit := recoverPair.

Definition rename_or (e from to : string) : FM unit :=
  r <- Rename from to;; match r with Removed => retM tt | _ => throw e end.

Definition commit (certFile keyFile : string) : FM unit :=
  replaceBackup keyFile (keyFile +:+ ".previous");;;
  replaceBackup certFile (certFile +:+ ".previous");;;
  rename_or "commit client key" (keyFile +:+ ".next") keyFile;;;
  syncDirectory (Dir keyFile);;;
  rename_or "commit client certificate" (certFile +:+ ".next") certFile;;;
  syncDirectory (Dir certFile);;;
  loaded <- LoadX509KeyPair certFile keyFile;;
  if loaded : bool then retM tt else throw "validate committed certificate pair".

Definition PersistPair (certPEM keyPEM agentID certFile keyFile : string) : FM unit :=
  t <- now;;
  lift_err (ValidateIssuedPair certPEM keyPEM agentID t);;;
  let certFile := TrimSpace certFile in
  let keyFile := TrimSpace keyFile in
  if is_empty certFile || is_empty keyFile then throw "client certificate and key paths are required" else
  if str_eqb certFile keyFile then throw "client certificate and key paths must be different" else
  wrap "recover previous certificate transaction" (recoverPair certFile keyFile);;;
  let certNext := certFile +:+ ".next" in
  let keyNext := keyFile +:+ ".next" in
  wrap "stage client key" (AtomicWriteFile suffix keyNext keyPEM 384);;;
  staged <- try (AtomicWriteFile suffix certNext certPEM 420);;
  match staged with
  | inl e => _ <- Remove keyNext;; throw ("stage client certificate: " +:+ e)
  | inr _ =>
    t <- now;;
    started <- try (AtomicWriteFile suffix (certFile +:+ ".pair-transaction") (format_nano t) 384);;
    match started with
    | inl e => _ <- Remove keyNext;; _ <- Remove certNext;; throw ("start certificate transaction: " +:+ e)
    | inr _ =>
      committed <- try (commit certFile keyFile);;
      match committed with
      | inl e =>
        recovered <- try (recoverPair certFile keyFile);;
        throw ("commit certificate transaction: " +:+ e +:+
               match recovered with inl r => newline +:+ r | inr _ => "" end)
      | inr _ => cleanupPairArtifacts certFile keyFile
      end
    end
  end.

(** ** What the files hold *)

Definition content (fs : files) (p : string) : string := default "" (f_data <$> fs !! p).

Definition is_pair (c k : string) : bool := bool_decide (is_Some (x509_key_pair c k)).

(** The pairs of files [recoverPair] looks at, the current one first. *)
Definition pairs (certFile keyFile : string) : list (string * string) := [
  (certFile, keyFile);
  (certFile, keyFile +:+ ".previous");
  (certFile +:+ ".previous", keyFile +:+ ".previous");
  (certFile +:+ ".next", keyFile);
  (certFile +:+ ".next", keyFile +:+ ".next");
  (certFile +:+ ".previous", keyFile)].

(** Some pair of files is a certificate with its key. *)
Definition recoverable (certFile keyFile : string) (fs : files) : bool :=
  existsb (λ '(c, k), is_pair (content fs c) (content fs k)) (pairs certFile keyFile).

Definition watched (certFile keyFile : string) : list string :=
  certFile :: keyFile :: artifacts certFile keyFile.

(** Paths the transaction can work with: trimmed, distinct, and none of the
    names it uses is that of a temporary file of another. *)
Definition pair_paths_ok (certFile keyFile : string) : bool :=
  forallb plain_path (watched certFile keyFile) &&
  bool_decide (NoDup (watched certFile keyFile)) && no_temp (watched certFile keyFile).

(** Membership in one of the lists above. *)
Ltac in_list := apply list_elem_of_In; cbn; auto 10.
Ltac pair_eqs :=
  repeat match goal with H : (_, _) = (_, _) |- _ => apply pair_equal_spec in H as [? ?] end; subst.

Section transaction.
Context (suffix_fresh : ∀ fs path, fs !! temp_path suffix fs path = None).
Context (pair_nonempty : ∀ c k, is_pair c k = true → c ≠ "" ∧ k ≠ "").
Context (certFile keyFile : string) (Hpaths : pair_paths_ok certFile keyFile = true).

Abbreviation V := (watched certFile keyFile).
Abbreviation arts := (artifacts certFile keyFile).
Abbreviation J := (λ fs, recoverable certFile keyFile fs = true).

Lemma paths_plain p : p ∈ V → plain_path p = true.
Proof using Hpaths.
  intros Hp. apply andb_true_iff in Hpaths as [[Hf _]%andb_true_iff _].
  rewrite forallb_forall in Hf. by apply Hf, list_elem_of_In.
Qed.

Lemma paths_nodup : NoDup V.
Proof using Hpaths.
  apply andb_true_iff in Hpaths as [[_ Hn]%andb_true_iff _]. by apply bool_decide_eq_true in Hn.
Qed.

Lemma paths_no_temp : no_temp V = true.
Proof using Hpaths. by apply andb_true_iff in Hpaths as [_ ?]. Qed.

Lemma paths_trim p : p ∈ V → TrimSpace p = p ∧ is_empty p = false.
Proof using Hpaths.
  intros Hp. apply paths_plain, andb_true_iff in Hp as [He Ht].
  apply str_eqb_eq in Ht. by apply negb_true_iff in He.
Qed.

Lemma content_agree fs fs' p : agree V fs fs' → p ∈ V → content fs p = content fs' p.
Proof. intros H Hp. unfold content. by rewrite H. Qed.

Lemma pairs_watched c k : (c, k) ∈ pairs certFile keyFile → c ∈ V ∧ k ∈ V.
Proof.
  unfold pairs. rewrite !elem_of_cons, elem_of_nil. intros H.
  destruct_or? H; pair_eqs; by split; in_list.
Qed.

Lemma recoverable_spec fs : recoverable certFile keyFile fs = true ↔
  ∃ c k, (c, k) ∈ pairs certFile keyFile ∧ is_pair (content fs c) (content fs k) = true.
Proof.
  unfold recoverable. rewrite existsb_exists. split.
  - intros ([c k] & Hin & H). exists c, k. split; [by apply list_elem_of_In|done].
  - intros (c & k & Hin & H). exists (c, k). split; [by apply list_elem_of_In|done].
Qed.

Lemma recoverable_agree fs fs' : agree V fs fs' → J fs' → J fs.
Proof.
  intros Ha (c & k & Hin & H)%recoverable_spec. apply recoverable_spec. exists c, k.
  destruct (pairs_watched _ _ Hin). split; [done|]. by rewrite !(content_agree fs fs').
Qed.

(** *** Single steps *)

(** The current files are the pair [c], [k]. *)
Definition live (c k : string) (fs : files) : Prop :=
  content fs certFile = c ∧ content fs keyFile = k.

Definition absent (ps : list string) (fs : files) : Prop := ∀ p, p ∈ ps → fs !! p = None.

Lemma live_J c k fs : is_pair c k = true → live c k fs → J fs.
Proof.
  intros Hp [Hc Hk]. apply recoverable_spec. exists certFile, keyFile.
  split; [by left|]. by rewrite Hc, Hk.
Qed.

Lemma content_insert fs p f : content (<[p := f]> fs) p = f_data f.
Proof. unfold content. by rewrite lookup_insert_eq. Qed.
Lemma content_insert_ne fs p q f : p ≠ q → content (<[p := f]> fs) q = content fs q.
Proof. intros. unfold content. by rewrite lookup_insert_ne. Qed.
Lemma content_delete_ne fs p q : p ≠ q → content (delete p fs) q = content fs q.
Proof. intros. unfold content. by rewrite lookup_delete_ne. Qed.

(** The seven names are distinct. *)
Lemma names_distinct :
  certFile ≠ keyFile ∧ certFile ∉ arts ∧ keyFile ∉ arts ∧ NoDup arts.
Proof using Hpaths.
  pose proof paths_nodup as H. unfold watched in H.
  apply NoDup_cons in H as [H1 [H2 H3]%NoDup_cons].
  apply not_elem_of_cons in H1 as [H0 H1]. by split_and!.
Qed.

Lemma live_delete c k p fs : p ∈ arts → live c k fs → live c k (delete p fs).
Proof using Hpaths.
  intros Hp [Hc Hk]. destruct names_distinct as (_ & H1 & H2 & _).
  split; rewrite content_delete_ne; [done|by intros ->|done|by intros ->].
Qed.

Lemma live_agree c k fs fs' : agree V fs fs' → live c k fs' → live c k fs.
Proof.
  intros Ha [Hc Hk]. split.
  - rewrite (content_agree fs fs'); [done..|by left].
  - rewrite (content_agree fs fs'); [done..|by right; left].
Qed.

Lemma sync_keeps I p : preserves I (syncDirectory p).
Proof.
  unfold syncDirectory. apply preserves_bind; [by apply preserves_sys_or|intros _].
  do 2 (apply preserves_bind; [by apply preserves_sys|intros ?]).
  destruct a; [destruct a0|]; cbn [negb]; auto with effects.
Qed.

Lemma sync_all_keeps I ds :
  triple I (sync_all ds) (λ _, I) (λ _ _, False) I.
Proof.
  induction ds as [|d ds IH]; [by apply triple_ret|]. cbn [sync_all].
  eapply triple_bind with (Q' := λ _, I); [apply triple_try, sync_keeps|]. intros r.
  eapply triple_bind with (Q' := λ _, I); [exact IH|]. intros ok. by apply triple_ret.
Qed.

Lemma remove_all_spec c k ps : ∀ D, ps ⊆ arts →
  triple (λ fs, live c k fs ∧ absent D fs) (remove_all ps)
    (λ ok fs, live c k fs ∧ absent D fs ∧ (ok = true → absent ps fs)) (λ _ _, False) (live c k).
Proof using Hpaths.
  induction ps as [|p ps IH]; intros D Hps.
  - apply triple_ret. intros fs [H1 H2]. split_and!; [done..|]. by intros _ q ?%not_elem_of_nil.
  - cbn [remove_all]. assert (p ∈ arts) as Hp by (apply Hps; by left).
    eapply triple_bind with (Q' := λ r fs, live c k fs ∧
      absent (if r is RemoveFailed then D else p :: D) fs).
    { apply triple_start. intros fs [Hl Ha].
      eapply triple_conseq; [apply (Remove_spec p fs)|done| |done|by intros ? ->].
      intros [] fs' ->; [..|done].
      all: split; [by apply live_delete|].
      all: intros q [->|Hq]%elem_of_cons; [by rewrite lookup_delete_eq|].
      all: destruct (decide (p = q)) as [->|]; [by rewrite lookup_delete_eq|].
      all: rewrite lookup_delete_ne by done; by apply Ha. }
    intros r. eapply triple_bind; [apply IH; intros q Hq; apply Hps; by right|].
    intros ok. apply triple_ret. intros fs (Hl & Ha & Hok). split_and!; [done| |].
    + intros q Hq. apply Ha. destruct r; [by right..|done].
    + destruct r; [intros ->..|done].
      all: intros q [->|Hq]%elem_of_cons; [apply Ha; by left|by apply Hok].
Qed.

Lemma cleanup_spec c k :
  triple (live c k) (cleanupPairArtifacts certFile keyFile)
    (λ _ fs, live c k fs ∧ absent arts fs) (λ _, live c k) (live c k).
Proof using Hpaths.
  unfold cleanupPairArtifacts. eapply triple_bind.
  - eapply triple_conseq; [apply (remove_all_spec c k arts []); done|..].
    + intros fs H. split; [done|]. by intros q ?%not_elem_of_nil.
    + intros ok fs H. exact H.
    + done.
    + done.
  - intros removed. eapply triple_bind.
    { eapply triple_conseq; [apply sync_all_keeps|..]; [intros fs H; exact H|done|done|]. by intros fs (? & _). }
    intros synced. destruct removed, synced; cbn [andb];
      [apply triple_ret|apply triple_throw..]; intros fs (Hl & _ & Hok); [|done..].
    split; [done|by apply Hok].
Qed.

(** *** [recoverPair] *)

(** The pair [c], [k] is on disk, whatever files it is in. *)
Definition stored (c k : string) (fs : files) : Prop :=
  ∃ pc pk, (pc, pk) ∈ pairs certFile keyFile ∧ content fs pc = c ∧ content fs pk = k.

(** Installing the key of a stored pair first leaves a recoverable state. *)
Lemma install_key_J c k m fs :
  is_pair c k = true → stored c k fs → J (<[keyFile := File k m]> fs).
Proof using Hpaths.
  intros Hp (pc & pk & Hin & Hc & Hk). apply recoverable_spec.
  destruct names_distinct as (Hne & Hca & Hka & Hnd). unfold artifacts in Hca, Hka.
  rewrite !not_elem_of_cons in Hca, Hka.
  assert (∀ q, q ≠ keyFile → content (<[keyFile:=File k m]> fs) q = content fs q) as Hfr
    by (intros; by apply content_insert_ne).
  assert (pc ≠ keyFile) as Hpc.
  { unfold pairs in Hin. rewrite !elem_of_cons, elem_of_nil in Hin. destruct_and!. destruct_or?; by pair_eqs. }
  exists pc, (if decide (pk = keyFile) then keyFile else pk). split.
  - by destruct (decide (pk = keyFile)) as [<-|].
  - rewrite (Hfr pc) by done. destruct (decide (pk = keyFile)) as [->|Hpk].
    + rewrite content_insert. by rewrite Hc.
    + rewrite Hfr by done. by rewrite Hc, Hk.
Qed.

(** A file of the transaction is replaced, or nothing visible happens. *)
Lemma write_files (I : files → Prop) fs0 p d m : p ∈ V →
  (∀ fs, agree V fs fs0 → I fs) → (∀ fs, agree V fs (<[p := File d m]> fs0) → I fs) →
  triple (λ fs, fs = fs0) (AtomicWriteFile suffix p d m)
    (λ _ fs, agree V fs (<[p := File d m]> fs0)) (λ _, I) I.
Proof using suffix_fresh Hpaths.
  intros Hp H1 H2. eapply triple_conseq;
    [apply (AtomicWriteFile_spec suffix suffix_fresh V paths_no_temp p d m fs0 Hp (paths_plain p Hp))|done|done|..].
  - intros _ fs [H|H]; auto.
  - intros fs [H|H]; auto.
Qed.

Lemma restore_spec cands fs0 : J fs0 →
  (∀ c k, (c, k) ∈ cands → is_pair c k = true → stored c k fs0) →
  triple (λ fs, fs = fs0) (restore certFile keyFile cands)
    (λ b fs, if b : bool then ∃ c k, is_pair c k = true ∧ live c k fs ∧ absent arts fs
             else fs = fs0 ∧ ∀ c k, (c, k) ∈ cands → is_pair c k = false)
    (λ _, J) J.
Proof using All.
  intros HJ. induction cands as [|[c k] cands IH]; intros Hcands.
  { apply triple_ret. intros fs ->. split; [done|]. by intros c k ?%not_elem_of_nil. }
  cbn [restore]. specialize (IH ltac:(intros; apply Hcands; [by right|done])).
  assert (is_pair c k = false → triple (λ fs, fs = fs0) (restore certFile keyFile cands)
    (λ b fs, if b : bool then ∃ c k, is_pair c k = true ∧ live c k fs ∧ absent arts fs
             else fs = fs0 ∧ ∀ c' k', (c', k') ∈ (c, k) :: cands → is_pair c' k' = false)
    (λ _, J) J) as Hskip.
  { intros Hno. eapply triple_conseq; [apply IH|done| |done..].
    intros [] fs; [done|]. intros [-> H]. split; [done|].
    intros c' k' [[= -> ->]|?]%elem_of_cons; eauto. }
  destruct (is_empty c || is_empty k) eqn:He.
  { apply Hskip. destruct (is_pair c k) eqn:Hp; [|done]. apply pair_nonempty in Hp as [H1 H2].
    apply is_empty_false in H1, H2. by rewrite H1, H2 in He. }
  destruct (x509_key_pair c k) as [chain|] eqn:Hx.
  2: { apply Hskip. unfold is_pair. rewrite Hx. by apply bool_decide_eq_false_2; intros []. }
  assert (is_pair c k = true) as Hp by (unfold is_pair; rewrite Hx; by apply bool_decide_eq_true_2).
  clear Hskip IH. specialize (Hcands c k ltac:(by left) Hp).
  pose proof (install_key_J c k 384 fs0 Hp Hcands) as HJ1.
  eapply triple_bind with (Q' := λ _ fs, agree V fs (<[keyFile := File k 384]> fs0)).
  { apply triple_wrap, write_files; [by right; left|intros; by eapply recoverable_agree..]. }
  intros _. eapply triple_bind with (Q' := λ _, live c k).
  { apply triple_wrap, triple_start. intros fs1 H1.
    assert (∀ fs, agree V fs (<[certFile := File c 420]> fs1) → live c k fs) as Hlive.
    { intros fs Ha. apply (live_agree _ _ _ _ Ha). destruct names_distinct as (Hne & _).
      split; [by rewrite content_insert|]. rewrite content_insert_ne by done.
      rewrite (content_agree _ _ _ H1) by (by right; left). by rewrite content_insert. }
    eapply triple_conseq; [apply (write_files J fs1 certFile c 420)|done|intros a fs; apply Hlive|done|done].
    - by left.
    - intros fs H. eapply recoverable_agree; [exact H|]. by eapply recoverable_agree.
    - intros fs H. by eapply live_J, Hlive. }
  intros _. eapply triple_bind with (Q' := λ _ fs, live c k fs ∧ absent arts fs).
  { eapply triple_conseq; [apply cleanup_spec|done|done|..]; intros; by eapply live_J. }
  intros _. apply triple_ret. intros fs [Hl Ha]. eauto.
Qed.

(** What a read of a file yields, read errors included. *)
Lemma readOptional_reads p :
  reads (readOptional p) (λ d fs, d = "" ∨ d = content fs p).
Proof.
  unfold readOptional. eapply reads_bind; [apply ReadFile_reads|]. intros r.
  apply reads_ret. intros fs. unfold content. destruct r; [|by left..].
  intros ->. by right.
Qed.

Lemma LoadX509KeyPair_reads :
  reads (LoadX509KeyPair certFile keyFile)
    (λ b fs, b = true → is_pair (content fs certFile) (content fs keyFile) = true).
Proof.
  unfold LoadX509KeyPair. eapply reads_bind; [apply ReadFile_reads|]. intros [c| |]; [|by apply reads_ret..].
  eapply reads_bind; [apply ReadFile_reads|]. intros [k| |]; [|by apply reads_ret..].
  apply reads_ret. intros fs Hk Hc Hb. unfold content. by rewrite Hk, Hc.
Qed.

Definition installed (fs : files) : Prop :=
  ∃ c k, is_pair c k = true ∧ live c k fs ∧ absent arts fs.

Lemma installed_J fs : installed fs → J fs.
Proof. intros (c & k & Hp & Hl & _). by eapply live_J. Qed.

(** A recovery, however it ends, leaves a recoverable state.  One that returns
    no error either leaves the current files a pair and no trace of a
    transaction, or has changed nothing (it could not read the files). *)
Lemma recoverPair_spec fs0 : J fs0 →
  triple (λ fs, fs = fs0) (recoverPair certFile keyFile)
    (λ _ fs, installed fs ∨ fs = fs0) (λ _, J) J.
Proof using All.
  intros HJ.
  unfold recoverPair.
  destruct (paths_trim certFile) as [-> Hc]; [by left|].
  destruct (paths_trim keyFile) as [-> Hk]; [by right; left|]. rewrite Hc, Hk. cbn [orb].
  eapply triple_reads_bind; [apply LoadX509KeyPair_reads|..]; [|by intros ? ? ->|by intros ? ->].
  intros [|]; [|].
  { apply (triple_weaken (λ fs, ∃ c k, is_pair c k = true ∧ live c k fs)).
    { intros fs [-> H]. exists (content fs0 certFile), (content fs0 keyFile). split; [by apply H|done]. }
    apply triple_start. intros fs (c & k & Hp & Hl).
    eapply triple_conseq; [apply (cleanup_spec c k)|by intros ? ->| |..].
    - intros a fs' [Hl' Ha]. left. by exists c, k.
    - intros e fs' Hl'. by eapply live_J.
    - intros fs' Hl'. by eapply live_J. }
  apply (triple_weaken (λ fs, fs = fs0)); [by intros fs [-> _]|].
  do 6 (eapply (triple_reads_bind (readOptional _));
    [apply readOptional_reads| |intros ? ? ?; naive_solver|intros ? ?; naive_solver]; intros ?).
  eapply triple_bind with (Q' := λ b fs, if b : bool then installed fs else fs = fs0).
  - apply triple_start. intros fs H. destruct_and!. subst fs.
    eapply triple_conseq; [apply (restore_spec _ fs0 HJ)|done| |done..].
    + intros c k Hin Hp. destruct (pair_nonempty c k Hp) as [Hnc Hnk].
      rewrite !elem_of_cons, elem_of_nil in Hin. unfold stored, pairs.
      destruct_or? Hin; pair_eqs;
        repeat match goal with Hn : ?x ≠ "", H : ?x = "" ∨ _ |- _ => destruct H as [?|H]; [done|] end;
        do 2 eexists;
        (split; [|done]); rewrite !elem_of_cons; naive_solver.
    + intros [] fs H; [done|]. by destruct H.
  - intros []; [apply triple_ret; intros; by left|].
    prog_if E; [apply triple_ret; intros; by right|apply triple_throw; by intros fs ->].
Qed.

(** *** Recovery without failures *)

Lemma is_pair_empty c k : c = "" ∨ k = "" → is_pair c k = false.
Proof using pair_nonempty.
  intros H. destruct (is_pair c k) eqn:E; [|done]. apply pair_nonempty in E as [? ?]. by destruct H.
Qed.

Lemma LoadX509KeyPair_succeeds fs0 :
  succeeds (λ fs, fs = fs0) (LoadX509KeyPair certFile keyFile)
    (λ b fs, fs = fs0 ∧ b = is_pair (content fs0 certFile) (content fs0 keyFile)).
Proof using pair_nonempty.
  unfold LoadX509KeyPair. eapply succeeds_bind; [apply ReadFile_succeeds|]. intros r.
  destruct (fs0 !! certFile) as [f|] eqn:Hc.
  - apply (succeeds_weaken _ (λ fs, fs = fs0 ∧ r = Read (f_data f)) _ _ (λ b fs, fs = fs0 ∧ b = is_pair (content fs0 certFile) (content fs0 keyFile)));
      [intros fs [-> H]; by rewrite Hc in H| |done].
    intros t fs [-> ->]. do 2 eexists. split; [done|]. split; [done|].
    unfold content. rewrite Hc. simpl. unfold id. destruct (fs0 !! keyFile); [done|].
    by rewrite is_pair_empty by (by right).
  - intros t fs [-> Hr]. rewrite Hc in Hr. subst r. do 2 eexists. split; [done|]. split; [done|].
    unfold content. rewrite Hc. by rewrite is_pair_empty by (by left).
Qed.

Lemma readOptional_succeeds fs0 p :
  succeeds (λ fs, fs = fs0) (readOptional p) (λ d fs, fs = fs0 ∧ d = content fs0 p).
Proof.
  intros t fs ->. do 2 eexists. split; [done|]. split; [done|]. unfold content, id. by destruct (fs0 !! p).
Qed.

Lemma cleanup_succeeds : succeeds (λ _, True) (cleanupPairArtifacts certFile keyFile) (λ _ _, True).
Proof.
  unfold cleanupPairArtifacts.
  assert (∀ ps, succeeds (λ _, True) (remove_all ps) (λ ok _, ok = true)) as Hr.
  { induction ps as [|p ps IH]; [by apply succeeds_ret|]. cbn [remove_all].
    eapply succeeds_bind; [by apply Remove_succeeds|]. intros r.
    apply (succeeds_bind _ _ _ (λ ok _, ok = true ∧ r ≠ RemoveFailed)).
    - intros t w [_ Hne]. destruct (IH t w I) as (a & w' & ? & ?). eauto.
    - intros ok. apply succeeds_ret. intros w [-> Hne]. by destruct r. }
  assert (∀ ds, succeeds (λ _, True) (sync_all ds) (λ ok _, ok = true)) as Hs.
  { induction ds as [|d ds IH]; [by apply succeeds_ret|]. cbn [sync_all].
    apply (succeeds_bind _ _ _ (λ r _, ∃ a, r = inr a)).
    - apply succeeds_try. intros t w _. do 2 eexists. split; [done|]. by eexists.
    - intros r. apply (succeeds_bind _ _ _ (λ ok _, ok = true ∧ ∃ a, r = inr a)).
      + intros t w Hra. destruct (IH t w I) as (a & w' & ? & ?). eauto.
      + intros ok. apply succeeds_ret. by intros w [-> [a ->]]. }
  eapply succeeds_bind; [apply Hr|]. intros removed.
  apply (succeeds_bind _ _ _ (λ ok _, ok = true ∧ removed = true)).
  - intros t w ->. destruct (Hs (uniqueDirectories [] arts) t w I) as (a & w' & ? & ?). eauto.
  - intros synced. intros t w [-> ->]. by do 2 eexists.
Qed.

Lemma restore_succeeds cands : succeeds (λ _, True) (restore certFile keyFile cands) (λ _ _, True).
Proof using Hpaths.
  induction cands as [|[c k] cands IH]; [by apply succeeds_ret|]. cbn [restore].
  destruct (is_empty c || is_empty k); [done|]. destruct (x509_key_pair c k); [|done].
  apply (succeeds_bind _ _ _ (λ _ _, True));
    [apply succeeds_wrap, AtomicWriteFile_succeeds, paths_plain; by right; left|intros _].
  apply (succeeds_bind _ _ _ (λ _ _, True));
    [apply succeeds_wrap, AtomicWriteFile_succeeds, paths_plain; by left|intros _].
  apply (succeeds_bind _ _ _ (λ _ _, True)); [apply cleanup_succeeds|intros _]. by apply succeeds_ret.
Qed.

(** When nothing fails, a recoverable state is recovered. *)
Lemma recoverPair_succeeds fs0 : J fs0 →
  succeeds (λ fs, fs = fs0) (recoverPair certFile keyFile) (λ _, installed).
Proof using All.
  intros HJ. unfold recoverPair.
  destruct (paths_trim certFile) as [-> Hc]; [by left|].
  destruct (paths_trim keyFile) as [-> Hk]; [by right; left|]. rewrite Hc, Hk. cbn [orb].
  eapply succeeds_bind; [apply LoadX509KeyPair_succeeds|].
  intros loaded. apply succeeds_pure_r. intros Hloaded. destruct loaded.
  { eapply succeeds_triple; [eapply succeeds_weaken; [|apply cleanup_succeeds|]; done|].
    eapply triple_conseq; [apply (cleanup_spec (content fs0 certFile) (content fs0 keyFile))|by intros fs ->| |done|done].
    intros a fs [Hl Ha]. by do 2 eexists. }
  do 6 (eapply succeeds_bind; [apply (readOptional_succeeds fs0)|];
    intros ?; apply succeeds_pure_r; intros ->).
  eapply succeeds_bind.
  { eapply succeeds_triple; [eapply succeeds_weaken; [|apply restore_succeeds|]; done|].
    apply (restore_spec _ fs0 HJ). intros c k Hin Hp. unfold stored, pairs.
    rewrite !elem_of_cons, elem_of_nil in Hin. destruct_or? Hin; pair_eqs;
      do 2 eexists; (split; [|done]); by in_list. }
  intros [|]; [by apply succeeds_ret|]. intros t fs [-> Hno]. exfalso.
  apply recoverable_spec in HJ as (pc & pk & Hin & Hp).
  unfold pairs in Hin. rewrite !elem_of_cons, elem_of_nil in Hin.
  destruct_or? Hin; pair_eqs; [congruence|..].
  all: rewrite Hno in Hp; [done|by in_list].
Qed.

(** *** [PersistPair] *)

Abbreviation certNext := (certFile +:+ ".next").
Abbreviation keyNext := (keyFile +:+ ".next").
Abbreviation certPrevious := (certFile +:+ ".previous").
Abbreviation keyPrevious := (keyFile +:+ ".previous").

(** The current files are a pair. *)
Definition current (fs : files) : Prop :=
  is_pair (content fs certFile) (content fs keyFile) = true.

Lemma current_J fs : current fs → J fs.
Proof. intros H. by eapply live_J. Qed.

Lemma installed_current fs : installed fs → current fs.
Proof. intros (c & k & Hp & [Hc Hk] & _). unfold current. by rewrite Hc, Hk. Qed.

(** Both new files are staged. *)
Definition staged_pair (c k : string) (fs : files) : Prop :=
  content fs certNext = c ∧ content fs keyNext = k.

Lemma staged_pair_J c k fs : is_pair c k = true → staged_pair c k fs → J fs.
Proof.
  intros Hp [Hc Hk]. apply recoverable_spec. exists certNext, keyNext.
  split; [by in_list|]. by rewrite Hc, Hk.
Qed.

Lemma rename_content from to fs q : is_Some (fs !! from) → q ≠ from →
  content (rename from to fs) q = if decide (q = to) then content fs from else content fs q.
Proof.
  intros [f Hf] Hq. unfold rename. rewrite Hf. destruct (decide (q = to)) as [->|].
  - rewrite content_insert. unfold content. by rewrite Hf.
  - rewrite content_insert_ne, content_delete_ne; done.
Qed.

(** Backing up a current file does not touch the staged ones. *)
Lemma replaceBackup_staged c k cur prev : is_pair c k = true →
  cur ∉ [certNext; keyNext] → prev ∉ [certNext; keyNext] →
  triple (staged_pair c k) (replaceBackup cur prev) (λ _, staged_pair c k) (λ _, J) J.
Proof.
  intros Hp Hcur Hprev. pose proof (λ fs, staged_pair_J c k fs Hp) as HJ.
  rewrite !not_elem_of_cons in Hcur, Hprev. destruct_and!.
  unfold replaceBackup. eapply triple_bind with (Q' := λ _, staged_pair c k).
  { apply triple_start. intros fs [Hc Hk]. eapply triple_conseq; [apply (Remove_spec prev fs)|done| |done|].
    - intros r fs' ->. destruct r; [split; rewrite content_delete_ne by done; done..|done].
    - intros fs' ->. by apply HJ. }
  intros r. assert (triple (staged_pair c k) (r <- Rename cur prev;;
    match r with Missing => retM tt | RemoveFailed => throw "backup certificate material"
    | Removed => syncDirectory (Dir cur) end) (λ _, staged_pair c k) (λ _, J) J) as Hrest.
  { eapply triple_bind with (Q' := λ _, staged_pair c k).
    - apply triple_start. intros fs [Hc Hk]. eapply triple_conseq; [apply (Rename_spec cur prev fs)|done| |done|].
      + intros [] fs'; [intros [Hs ->]|by intros [_ ->]|by intros ->].
        split; rewrite rename_content by done; by rewrite decide_False by done.
      + intros fs' ->. by apply HJ.
    - intros [].
      + eapply triple_conseq; [apply (sync_keeps (staged_pair c k))|done..].
      + by apply triple_ret.
      + by apply triple_throw. }
  destruct r; [exact Hrest..|by apply triple_throw].
Qed.

(** A rename followed by the synchronisation of the directory. *)
Lemma rename_sync (P Q I : files → Prop) e from to d :
  (∀ fs, P fs → I fs) → (∀ fs, Q fs → I fs) →
  (∀ fs, P fs → is_Some (fs !! from) → Q (rename from to fs)) →
  ∀ (m : FM unit) R, triple Q m R (λ _, I) I →
  triple P (rename_or e from to;;; syncDirectory d;;; m) R (λ _, I) I.
Proof.
  intros HP HQ Hr m R Hm. eapply triple_bind with (Q' := λ _, Q).
  - unfold rename_or. eapply triple_bind with (Q' := λ r, if r is Removed then Q else P).
    + apply triple_start. intros fs H. eapply triple_conseq; [apply (Rename_spec from to fs)|done| |done|].
      * intros [] fs'; [intros [Hs ->]; by apply Hr|by intros [_ ->]|by intros ->].
      * intros fs' ->. by apply HP.
    + intros []; [by apply triple_ret|by apply triple_throw..].
  - intros _. eapply triple_bind with (Q' := λ _, Q); [|by intros _].
    eapply triple_conseq; [apply (sync_keeps Q)|done|done|intros ? ?; apply HQ|done].
Qed.

Lemma commit_spec c k : is_pair c k = true →
  triple (staged_pair c k) (commit certFile keyFile) (λ _, live c k) (λ _, J) J.
Proof using Hpaths.
  intros Hp. destruct names_distinct as (Hne & Hca & Hka & Hnd).
  unfold artifacts in Hca, Hka, Hnd. rewrite !not_elem_of_cons in Hca, Hka. rewrite !NoDup_cons, !not_elem_of_cons in Hnd.
  destruct_and!. pose proof (λ fs, staged_pair_J c k fs Hp) as HJ. unfold commit.
  assert (∀ p, p ≠ certNext → p ≠ keyNext → p ∉ [certNext; keyNext]) as Hnotin.
  { intros p Hpc Hpk [?|[?|?%not_elem_of_nil]%elem_of_cons]%elem_of_cons; done. }
  eapply triple_bind with (Q' := λ _, staged_pair c k); [apply (replaceBackup_staged c k); [done|by apply Hnotin..]|]. intros _.
  eapply triple_bind with (Q' := λ _, staged_pair c k); [apply (replaceBackup_staged c k); [done|by apply Hnotin..]|]. intros _.
  set (half := λ fs, content fs certNext = c ∧ content fs keyFile = k).
  assert (∀ fs, half fs → J fs) as Hhalf.
  { intros fs [Hc Hk]. apply recoverable_spec. exists certNext, keyFile.
    split; [by in_list|]. by rewrite Hc, Hk. }
  assert (∀ fs, live c k fs → J fs) as Hlive by (intros; by eapply live_J).
  apply (rename_sync (staged_pair c k) half J); [done..| |].
  { intros fs [Hc Hk] Hs. split; rewrite rename_content by done;
      [by rewrite decide_False by done|by rewrite decide_True]. }
  apply (rename_sync half (live c k) J); [done..| |].
  { intros fs [Hc Hk] Hs. split; rewrite rename_content by done;
      [by rewrite decide_True|by rewrite decide_False by done]. }
  eapply triple_reads_bind; [apply LoadX509KeyPair_reads|..]; [|intros; by apply Hlive..].
  intros loaded. apply (triple_weaken (live c k)); [by intros fs [? _]|].
  destruct loaded; [by apply triple_ret|by apply triple_throw].
Qed.

Lemma current_off fs fs0 : current fs0 →
  content fs certFile = content fs0 certFile → content fs keyFile = content fs0 keyFile → current fs.
Proof. intros H Hc Hk. unfold current. by rewrite Hc, Hk. Qed.

Lemma artifact_ne p : p ∈ arts → certFile ≠ p ∧ keyFile ≠ p.
Proof using Hpaths. intros Hp. destruct names_distinct as (_ & H1 & H2 & _). by split; intros <-. Qed.

(** The effect of writing an artefact, on the names of the transaction. *)
Definition wrote (p d : string) (fs0 fs : files) : Prop :=
  ∀ q, q ∈ V → content fs q = if decide (q = p) then d else content fs0 q.

Lemma wrote_current p d fs0 fs : p ∈ arts → wrote p d fs0 fs → current fs0 → current fs.
Proof using Hpaths.
  intros Hp Hw H0. destruct (artifact_ne p Hp).
  apply (current_off _ fs0 H0); rewrite Hw; [by rewrite decide_False|by left|by rewrite decide_False|by right; left].
Qed.

(** Writing an artefact keeps the current pair. *)
Lemma write_artifact fs0 p d m : p ∈ arts → current fs0 →
  triple (λ fs, fs = fs0) (AtomicWriteFile suffix p d m) (λ _, wrote p d fs0) (λ _, current) current.
Proof using suffix_fresh Hpaths.
  intros Hp H0.
  assert (∀ fs, agree V fs (<[p := File d m]> fs0) → wrote p d fs0 fs) as Hw.
  { intros fs Ha q Hq. rewrite (content_agree _ _ _ Ha Hq).
    destruct (decide (q = p)) as [->|]; [by rewrite content_insert|by rewrite content_insert_ne]. }
  eapply triple_conseq; [apply (write_files current fs0 p d m)|done|intros a fs; apply Hw|done|done].
  - by do 2 right.
  - intros fs Ha. apply (current_off fs fs0 H0); apply content_agree; [done|by left|done|by right; left].
  - intros fs Ha. by eapply wrote_current; [|apply Hw|].
Qed.

(** Removing one keeps it too. *)
Lemma remove_artifact p : p ∈ arts →
  triple current (Remove p) (λ _, current) (λ _ _, False) current.
Proof using Hpaths.
  intros Hp. apply triple_start. intros fs0 H0.
  eapply triple_conseq; [apply (Remove_spec p fs0)|done| |done|by intros ? ->].
  intros r fs ->. destruct (live_delete _ _ p fs0 Hp (conj eq_refl eq_refl)).
  destruct r; [by apply (current_off _ fs0)..|done].
Qed.

(** The names of the staged files. *)
Lemma stage_names :
  keyNext ∈ arts ∧ certNext ∈ arts ∧ certFile +:+ ".pair-transaction" ∈ arts ∧
  keyNext ≠ certNext ∧ keyNext ≠ certFile +:+ ".pair-transaction" ∧
  certNext ≠ certFile +:+ ".pair-transaction".
Proof using Hpaths.
  destruct names_distinct as (_ & _ & _ & Hnd). unfold artifacts in Hnd.
  rewrite !NoDup_cons, !not_elem_of_cons in Hnd. destruct_and!.
  split_and!; [by in_list..|by apply not_eq_sym|done|done].
Qed.

(** Staging an artefact while a predicate on the other files holds. *)
Lemma stage (I : files → Prop) p d m :
  p ∈ arts → (∀ fs0 fs, wrote p d fs0 fs → I fs0 → I fs) →
  triple (λ fs, current fs ∧ I fs) (AtomicWriteFile suffix p d m)
    (λ _ fs, current fs ∧ I fs ∧ content fs p = d) (λ _, current) current.
Proof using suffix_fresh Hpaths.
  intros Hp HI. apply triple_start. intros fs0 [H0 HI0].
  eapply triple_conseq; [apply (write_artifact fs0 p d m Hp H0)|done| |done|done].
  intros a fs Hw. split_and!.
  - by apply (wrote_current p d fs0).
  - by apply (HI fs0).
  - rewrite (Hw p) by (by do 2 right). by rewrite decide_True.
Qed.

(** The staged files are removed again after an error. *)
Lemma unstage ps e : ps ⊆ arts →
  triple current (foldr (λ p k, _ <- Remove p;; k) (throw (A := unit) e) ps)
    (λ _ _, False) (λ _, current) current.
Proof using Hpaths.
  intros Hps. induction ps as [|p ps IH]; [by apply triple_throw|]. cbn [foldr].
  eapply triple_bind with (Q' := λ _, current).
  - eapply triple_conseq; [apply (remove_artifact p), Hps; by left|done..].
  - intros _. apply IH. intros q Hq. apply Hps. by right.
Qed.

(** From the staged files to the new pair. *)
Lemma finish_spec c k : is_pair c k = true →
  triple (staged_pair c k)
    (committed <- try (commit certFile keyFile);;
     match committed with
     | inl e =>
       recovered <- try (recoverPair certFile keyFile);;
       throw ("commit certificate transaction: " +:+ e +:+
              match recovered with inl r => newline +:+ r | inr _ => "" end)
     | inr _ => cleanupPairArtifacts certFile keyFile
     end) (λ _ fs, live c k fs ∧ absent arts fs) (λ _, J) J.
Proof using All.
  intros Hp. eapply triple_bind with (Q' := λ r, if r is inr _ then live c k else J).
  { apply triple_try. eapply triple_conseq; [apply (commit_spec c k Hp)|done..]. }
  intros [e|[]].
  - eapply triple_bind with (Q' := λ _, J); [|intros; by apply triple_throw].
    apply triple_try, triple_start. intros fs0 H0.
    eapply triple_conseq; [apply (recoverPair_spec fs0 H0)|done| |done..].
    intros a fs [H| ->]; [by apply installed_J|done].
  - eapply triple_conseq; [apply (cleanup_spec c k)|done|done|..]; intros; by eapply live_J.
Qed.

(** A replacement of the pair, started with a valid current pair: completed if
    it returns no error, recoverable wherever it stops. *)
Lemma PersistPair_spec certPEM keyPEM agentID :
  triple current (PersistPair certPEM keyPEM agentID certFile keyFile)
    (λ _ fs, is_pair certPEM keyPEM = true ∧ live certPEM keyPEM fs ∧ absent arts fs) (λ _, J) J.
Proof using All.
  unfold PersistPair. pose proof current_J as HcJ.
  eapply triple_bind with (Q' := λ _, current); [by apply triple_now|]. intros t.
  eapply triple_bind with (Q' := λ _ fs, is_pair certPEM keyPEM = true ∧ current fs).
  { destruct (ValidateIssuedPair _ _ _ _) as [e|st] eqn:Hv; [by apply triple_throw|].
    apply triple_ret. intros fs H. split; [|done]. unfold is_pair.
    unfold ValidateIssuedPair in Hv. destruct (is_empty (TrimSpace agentID)); [done|].
    by destruct (x509_key_pair certPEM keyPEM) as [[|leaf ?]|]. }
  intros _. apply triple_pure. intros Hp.
  destruct (paths_trim certFile) as [-> Hc]; [by left|].
  destruct (paths_trim keyFile) as [-> Hk]; [by right; left|]. rewrite Hc, Hk. cbn [orb].
  destruct names_distinct as (Hne & _). apply str_eqb_neq in Hne. rewrite Hne.
  destruct stage_names as (Hkn & Hcn & Htx & Hkc & Hkt & Hct).
  assert (∀ p q d x fs0 fs, p ∈ arts → q ∈ arts → p ≠ q → wrote q d fs0 fs →
    content fs0 p = x → content fs p = x) as Hframe.
  { intros p q d x fs0 fs HpA _ Hpq Hw <-. rewrite (Hw p) by (by do 2 right). by rewrite decide_False. }
  eapply triple_bind with (Q' := λ _, current).
  { apply triple_wrap, triple_start. intros fs0 H0.
    eapply triple_conseq; [apply (recoverPair_spec fs0 (HcJ _ H0))|done| |done|done].
    intros a fs [H| ->]; [by apply installed_current|done]. }
  intros _. eapply triple_bind with (Q' := λ _ fs, current fs ∧ content fs keyNext = keyPEM).
  { apply triple_wrap. eapply triple_conseq; [apply (stage (λ _, True) keyNext keyPEM 384 Hkn)|..]; naive_solver. }
  intros _. eapply triple_bind with (Q' := λ r fs, current fs ∧ if r is inr _ then staged_pair certPEM keyPEM fs else True).
  { apply triple_try. eapply triple_conseq; [apply (stage (λ fs, content fs keyNext = keyPEM) certNext certPEM 420 Hcn)|..].
    - intros fs0 fs. by apply Hframe.
    - done.
    - by intros a fs (? & ? & ?).
    - by intros e fs ?.
    - apply HcJ. }
  intros [e|[]].
  { apply (triple_weaken current); [by intros fs [? _]|].
    eapply triple_conseq; [apply (unstage [keyNext])|done|done|intros ? ?; apply HcJ|apply HcJ].
    by intros q ->%list_elem_of_singleton. }
  eapply triple_bind with (Q' := λ _ fs, current fs ∧ staged_pair certPEM keyPEM fs);
    [apply triple_now; tauto|]. intros t'.
  eapply triple_bind with (Q' := λ r fs, current fs ∧ if r is inr _ then staged_pair certPEM keyPEM fs else True).
  { apply triple_try. eapply triple_conseq; [apply (stage (staged_pair certPEM keyPEM) _ (format_nano t') 384 Htx)|..].
    - intros fs0 fs Hw [H1 H2]. split; by eapply Hframe.
    - done.
    - by intros a fs (? & ? & ?).
    - by intros e fs ?.
    - apply HcJ. }
  intros [e|[]].
  { apply (triple_weaken current); [by intros fs [? _]|].
    eapply triple_conseq; [apply (unstage [keyNext; certNext])|done|done|intros ? ?; apply HcJ|apply HcJ].
    by intros q [->|[->|?%not_elem_of_nil]%elem_of_cons]%elem_of_cons. }
  apply (triple_weaken (staged_pair certPEM keyPEM)); [by intros fs [_ ?]|].
  by eapply triple_conseq; [apply (finish_spec certPEM keyPEM Hp)|..].
Qed.

(** *** Provenance

    Certificates only ever move between the three certificate files, and keys
    between the key files. *)

Definition cert_files : list string := [certFile; certNext; certPrevious].
Definition key_files : list string := [keyFile; keyNext; keyPrevious].

Section provenance.
Context (C K : string → Prop) (HC : C "") (HK : K "").

(** Every certificate file holds a text of [C] (or is absent), every key file one of [K]. *)
Definition owned (fs : files) : Prop :=
  (∀ p, p ∈ cert_files → C (content fs p)) ∧ (∀ p, p ∈ key_files → K (content fs p)).

Lemma cert_files_watched p : p ∈ cert_files → p ∈ V.
Proof. unfold cert_files. rewrite !elem_of_cons, elem_of_nil. intros ?. destruct_or?; subst; by in_list. Qed.
Lemma key_files_watched p : p ∈ key_files → p ∈ V.
Proof. unfold key_files. rewrite !elem_of_cons, elem_of_nil. intros ?. destruct_or?; subst; by in_list. Qed.

Lemma owned_agree fs fs' : agree V fs fs' → owned fs' → owned fs.
Proof using Type.
  intros Ha [H1 H2]. split; intros p Hp; rewrite (content_agree _ _ _ Ha);
    [by apply H1|by apply cert_files_watched|by apply H2|by apply key_files_watched].
Qed.

Lemma owned_insert fs p d m : (p ∈ cert_files → C d) → (p ∈ key_files → K d) →
  owned fs → owned (<[p := File d m]> fs).
Proof using Type.
  intros Hc Hk [H1 H2]. split; intros q Hq.
  - destruct (decide (p = q)) as [->|]; [rewrite content_insert; by apply Hc|].
    rewrite content_insert_ne by done. by apply H1.
  - destruct (decide (p = q)) as [->|]; [rewrite content_insert; by apply Hk|].
    rewrite content_insert_ne by done. by apply H2.
Qed.

Lemma content_delete fs p : content (delete p fs) p = "".
Proof. unfold content. by rewrite lookup_delete_eq. Qed.

Lemma owned_delete fs p : owned fs → owned (delete p fs).
Proof using HC HK.
  intros [H1 H2]. split; intros q Hq.
  - destruct (decide (p = q)) as [->|]; [by rewrite content_delete|].
    rewrite content_delete_ne by done. by apply H1.
  - destruct (decide (p = q)) as [->|]; [by rewrite content_delete|].
    rewrite content_delete_ne by done. by apply H2.
Qed.

(** The source and the target of a rename hold the same kind of material. *)
Definition same_kind (from to : string) : Prop :=
  (to ∈ cert_files → from ∈ cert_files) ∧ (to ∈ key_files → from ∈ key_files).

Lemma owned_rename fs from to : same_kind from to → owned fs → owned (rename from to fs).
Proof using HC HK.
  intros [Hsc Hsk] H. unfold rename. destruct (fs !! from) as [f|] eqn:Hf; [|done].
  destruct f as [d m]. assert (content fs from = d) as Hd by (unfold content; by rewrite Hf).
  apply owned_insert; [intros Hc|intros Hk|by apply owned_delete].
  - rewrite <- Hd. apply H. by apply Hsc.
  - rewrite <- Hd. apply H. by apply Hsk.
Qed.

Lemma owned_Remove p : preserves owned (Remove p).
Proof using HC HK.
  unfold Remove. apply preserves_bind; [apply preserves_gets|intros fs].
  apply preserves_bind; [apply preserves_sys; intros w; apply owned_delete|intros ok]. by apply preserves_ret.
Qed.

Lemma owned_Rename from to : same_kind from to → preserves owned (Rename from to).
Proof using HC HK.
  intros Hs. unfold Rename. apply preserves_bind; [apply preserves_gets|intros fs].
  apply preserves_bind; [apply preserves_sys; intros w; by apply owned_rename|intros ok]. by apply preserves_ret.
Qed.

Lemma owned_write p d m : p ∈ V → (p ∈ cert_files → C d) → (p ∈ key_files → K d) →
  preserves owned (AtomicWriteFile suffix p d m).
Proof using suffix_fresh Hpaths.
  intros Hp Hc Hk. apply triple_start. intros fs0 H0.
  assert (∀ fs, agree V fs (<[p := File d m]> fs0) → owned fs) as Hnew.
  { intros fs Ha. eapply owned_agree; [exact Ha|]. by apply owned_insert. }
  eapply triple_conseq; [apply (write_files owned fs0 p d m Hp)|done|intros a fs; apply Hnew|done|done].
  - intros fs Ha. by eapply owned_agree.
  - exact Hnew.
Qed.

Lemma preserves_wrap {A} (I : files → Prop) what (m : FM A) : preserves I m → preserves I (wrap what m).
Proof. apply triple_wrap. Qed.

Lemma owned_cleanup : preserves owned (cleanupPairArtifacts certFile keyFile).
Proof using HC HK.
  unfold cleanupPairArtifacts. apply preserves_bind.
  { generalize arts. intros l. induction l as [|p l IH]; [by apply preserves_ret|]. cbn [remove_all].
    apply preserves_bind; [apply owned_Remove|intros r].
    apply preserves_bind; [exact IH|intros ok]. by apply preserves_ret. }
  intros removed. apply preserves_bind.
  { eapply triple_conseq; [apply (sync_all_keeps owned)|done..]. }
  intros synced. destruct (removed && synced); [by apply preserves_ret|by apply preserves_throw].
Qed.

Lemma owned_restore cands : (∀ c k, (c, k) ∈ cands → C c ∧ K k) →
  preserves owned (restore certFile keyFile cands).
Proof using All.
  intros Hcands. induction cands as [|[c k] cands IH]; [by apply preserves_ret|]. cbn [restore].
  specialize (IH ltac:(intros; apply Hcands; by right)).
  destruct (is_empty c || is_empty k); [done|]. destruct (x509_key_pair c k); [|done].
  destruct (Hcands c k) as [Hc Hk]; [by left|].
  destruct names_distinct as (Hne & Hca & Hka & _). unfold artifacts in Hca, Hka.
  rewrite !not_elem_of_cons in Hca, Hka. destruct_and!.
  apply preserves_bind; [apply preserves_wrap, owned_write; [by in_list| |done]|intros _].
  { unfold cert_files. rewrite !elem_of_cons, elem_of_nil. intros ?. by destruct_or?. }
  apply preserves_bind; [apply preserves_wrap, owned_write; [by in_list|done|]|intros _].
  { unfold key_files. rewrite !elem_of_cons, elem_of_nil. intros ?. by destruct_or?. }
  apply preserves_bind; [apply owned_cleanup|intros _]. by apply preserves_ret.
Qed.

Lemma owned_recoverPair : preserves owned (recoverPair certFile keyFile).
Proof using All.
  unfold recoverPair.
  destruct (paths_trim certFile) as [-> Hc]; [by left|].
  destruct (paths_trim keyFile) as [-> Hk]; [by right; left|]. rewrite Hc, Hk. cbn [orb].
  eapply triple_reads_bind; [apply LoadX509KeyPair_reads|..]; [|done..].
  intros [|]; [eapply triple_weaken; [|apply owned_cleanup]; by intros fs [? _]|].
  apply (triple_weaken owned); [by intros fs [? _]|].
  do 6 (eapply (triple_reads_bind (readOptional _));
    [apply readOptional_reads| |intros ? ? ?; naive_solver|intros ? ?; naive_solver]; intros ?).
  apply (triple_weaken (λ fs, owned fs ∧ (C a ∧ C a1 ∧ C a3) ∧ K a0 ∧ K a2 ∧ K a4)).
  { intros fs H. destruct_and!.
    assert (owned fs) as Ho by done. destruct Ho as [HoC HoK].
    split_and!; [done|..]; destruct_or!; subst; try done; first [apply HoC|apply HoK]; by in_list. }
  apply triple_pure_r. intros H. destruct_and!.
  apply preserves_bind.
  - apply owned_restore. intros c k Hin. rewrite !elem_of_cons, elem_of_nil in Hin.
    destruct_or? Hin; by pair_eqs.
  - intros [|]; [by apply preserves_ret|]. prog_if E; [by apply preserves_ret|by apply preserves_throw].
Qed.

Lemma owned_rename_or e from to : same_kind from to → preserves owned (rename_or e from to).
Proof using HC HK.
  intros Hs. apply preserves_bind; [by apply owned_Rename|].
  intros []; [by apply preserves_ret|by apply preserves_throw..].
Qed.

Lemma owned_replaceBackup cur prev : same_kind cur prev → preserves owned (replaceBackup cur prev).
Proof using HC HK.
  intros Hs. apply preserves_bind; [apply owned_Remove|].
  assert (preserves owned (r <- Rename cur prev;;
    match r with Missing => retM tt | RemoveFailed => throw "backup certificate material"
    | Removed => syncDirectory (Dir cur) end)) as H.
  { apply preserves_bind; [by apply owned_Rename|].
    intros []; [apply sync_keeps|by apply preserves_ret|by apply preserves_throw]. }
  intros []; [exact H..|by apply preserves_throw].
Qed.

(** The four renames of a transaction stay within one kind of material. *)
Lemma kinds_of_renames :
  same_kind keyFile keyPrevious ∧ same_kind certFile certPrevious ∧
  same_kind keyNext keyFile ∧ same_kind certNext certFile.
Proof using Hpaths.
  destruct names_distinct as (Hne & Hca & Hka & Hnd). unfold artifacts in Hca, Hka, Hnd.
  rewrite !not_elem_of_cons in Hca, Hka. rewrite !NoDup_cons, !not_elem_of_cons in Hnd. destruct_and!.
  unfold same_kind, cert_files, key_files. rewrite !elem_of_cons, !elem_of_nil.
  split_and!; intros ?; destruct_or?; first [by auto|by exfalso; congruence].
Qed.

Lemma owned_commit : preserves owned (commit certFile keyFile).
Proof using All.
  destruct kinds_of_renames as (H1 & H2 & H3 & H4). unfold commit.
  apply preserves_bind; [by apply owned_replaceBackup|intros _].
  apply preserves_bind; [by apply owned_replaceBackup|intros _].
  apply preserves_bind; [by apply owned_rename_or|intros _].
  apply preserves_bind; [apply sync_keeps|intros _].
  apply preserves_bind; [by apply owned_rename_or|intros _].
  apply preserves_bind; [apply sync_keeps|intros _].
  apply preserves_bind; [eapply preserves_reads, LoadX509KeyPair_reads|].
  intros []; [by apply preserves_ret|by apply preserves_throw].
Qed.

Lemma owned_PersistPair certPEM keyPEM agentID : C certPEM → K keyPEM →
  preserves owned (PersistPair certPEM keyPEM agentID certFile keyFile).
Proof using All.
  intros HcP HkP. unfold PersistPair.
  destruct (paths_trim certFile) as [-> Hc]; [by left|].
  destruct (paths_trim keyFile) as [-> Hk]; [by right; left|]. rewrite Hc, Hk. cbn [orb].
  destruct names_distinct as (Hne & Hca & Hka & Hnd). apply str_eqb_neq in Hne as ->.
  unfold artifacts in Hca, Hka, Hnd.
  rewrite !not_elem_of_cons in Hca, Hka. rewrite !NoDup_cons, !not_elem_of_cons in Hnd. destruct_and!.
  apply preserves_bind; [apply preserves_now|intros t].
  apply preserves_bind; [destruct (ValidateIssuedPair _ _ _ _); [by apply preserves_throw|by apply preserves_ret]|intros _].
  apply preserves_bind; [apply preserves_wrap, owned_recoverPair|intros _].
  apply preserves_bind; [apply preserves_wrap, owned_write; [by in_list| |done]|intros _].
  { unfold cert_files. rewrite !elem_of_cons, elem_of_nil. intros ?. destruct_or?; congruence. }
  apply preserves_bind; [apply preserves_try, owned_write; [by in_list|done|]|intros [e|_]].
  { unfold key_files. rewrite !elem_of_cons, elem_of_nil. intros ?. destruct_or?; congruence. }
  { apply preserves_bind; [apply owned_Remove|intros _]. by apply preserves_throw. }
  apply preserves_bind; [apply preserves_now|intros t'].
  apply preserves_bind; [apply preserves_try, owned_write; [by in_list|..]|intros [e|_]].
  1,2: unfold cert_files, key_files; rewrite !elem_of_cons, elem_of_nil; intros ?; destruct_or?; congruence.
  { do 2 (apply preserves_bind; [apply owned_Remove|intros _]). by apply preserves_throw. }
  apply preserves_bind; [apply preserves_try, owned_commit|intros [e|_]]; [|apply owned_cleanup].
  apply preserves_bind; [apply preserves_try, owned_recoverPair|intros r]. by apply preserves_throw.
Qed.
End provenance.

(** ** Histories of the two files *)

(** [m] can take the files from [fs] to [fs'], whatever fails and wherever it is killed. *)
Definition runs {A} (m : FM A) (fs fs' : files) : Prop := ∃ v o v', m v fs = (o, v', fs').

Lemma runs_run {A} (m : FM A) v fs : runs m fs (m v fs).2.
Proof. exists v, (m v fs).1.1, (m v fs).1.2. by destruct (m v fs) as [[? ?] ?]. Qed.

(** The agent recovers the pair whenever it starts, and replaces it by an
    issued one only while it runs on a valid one. *)
Inductive pair_step (issued : string → string → Prop) (fs fs' : files) : Prop :=
  | pair_recover : runs (RecoverPair certFile keyFile) fs fs' → pair_step issued fs fs'
  | pair_persist certPEM keyPEM agentID : current fs → issued certPEM keyPEM →
      runs (PersistPair certPEM keyPEM agentID certFile keyFile) fs fs' → pair_step issued fs fs'.

Lemma triple_runs {A} (m : FM A) (P I : files → Prop) fs fs' :
  triple P m (λ _, I) (λ _, I) I → P fs → runs m fs fs' → I fs'.
Proof.
  intros Hm HP (v & o & v' & Hrun). specialize (Hm v fs HP). rewrite Hrun in Hm. by destruct o.
Qed.

Lemma pair_step_safe issued C K fs fs' :
  C "" → K "" → (∀ c k, issued c k → C c ∧ K k) →
  pair_step issued fs fs' → J fs ∧ owned C K fs → J fs' ∧ owned C K fs'.
Proof using All.
  intros HC HK Hi Hs [HJ Ho]. destruct Hs as [Hr|c k id Hcur His Hr].
  - split.
    + refine (triple_runs _ (λ fs0, fs0 = fs) J _ _ _ eq_refl Hr).
      eapply triple_conseq; [apply (recoverPair_spec fs HJ)|done| |done..].
      intros a w [H| ->]; [by apply installed_J|done].
    + refine (triple_runs _ (owned C K) (owned C K) _ _ _ Ho Hr). by apply owned_recoverPair.
  - destruct (Hi c k His). split.
    + refine (triple_runs _ current J _ _ _ Hcur Hr).
      eapply triple_conseq; [apply (PersistPair_spec c k id)|done| |done..].
      intros a w (Hp & Hl & _). by eapply live_J.
    + refine (triple_runs _ (owned C K) (owned C K) _ _ _ Ho Hr). by apply owned_PersistPair.
Qed.

Lemma owned_start (C K : string → Prop) fs :
  C "" → K "" → absent arts fs → C (content fs certFile) → K (content fs keyFile) → owned C K fs.
Proof.
  intros HC HK Ha Hc Hk.
  assert (∀ p, p ∈ arts → content fs p = "") as He by (intros p Hp; unfold content; by rewrite Ha).
  split; intros p Hp; unfold cert_files, key_files in Hp;
    rewrite !elem_of_cons, elem_of_nil in Hp; destruct_or? Hp; subst; try done; rewrite He; done || by in_list.
Qed.

(** The pair itself and the absence of artefacts, as one outcome of a recovery. *)
Lemma reachable_safe issued C K fs0 fs :
  C "" → K "" → (∀ c k, issued c k → C c ∧ K k) →
  rtc (pair_step issued) fs0 fs → J fs0 ∧ owned C K fs0 → J fs ∧ owned C K fs.
Proof using All.
  intros HC HK Hi Hr. induction Hr as [|x y z Hs _ IH]; [done|].
  intros Hx. apply IH. by eapply pair_step_safe.
Qed.

(** C14: the TLS identity of the agent survives every interruption.  Starting
    from a valid certificate and key, after any number of replacements by
    issued pairs and of recoveries, each of them stopped by any failed system
    call or by the death of the process, one recovery in which nothing fails
    returns no error and leaves a valid pair in the two files, made of the
    initial or an issued certificate and of the initial or an issued key, and
    no trace of the transaction. *)
Theorem pair_survives_interruptions issued fs0 fs t :
  current fs0 → absent arts fs0 → rtc (pair_step issued) fs0 fs →
  ∃ fs', RecoverPair certFile keyFile (quiet t) fs = (Ok tt, quiet t, fs') ∧
    is_pair (content fs' certFile) (content fs' keyFile) = true ∧ absent arts fs' ∧
    (content fs' certFile = content fs0 certFile ∨ ∃ k, issued (content fs' certFile) k) ∧
    (content fs' keyFile = content fs0 keyFile ∨ ∃ c, issued c (content fs' keyFile)).
Proof using All.
  intros H0 Ha Hr.
  set (C := λ c, c = "" ∨ c = content fs0 certFile ∨ ∃ k, issued c k).
  set (K := λ k, k = "" ∨ k = content fs0 keyFile ∨ ∃ c, issued c k).
  assert (C "") as HC by (by left). assert (K "") as HK by (by left).
  destruct (reachable_safe issued C K fs0 fs HC HK) as [HJ Ho]; [|done| |].
  { intros c k Hi. split; right; right; eauto. }
  { split; [by apply current_J|]. apply owned_start; [done..| |]; right; by left. }
  destruct (recoverPair_succeeds fs HJ t fs eq_refl) as ([] & fs' & Hrun & Hinst).
  exists fs'. split; [done|].
  pose proof (owned_recoverPair C K HC HK (quiet t) fs Ho) as Ho'. rewrite Hrun in Ho'.
  pose proof (installed_current _ Hinst) as Hcur. destruct Hinst as (c & k & _ & _ & Habs).
  destruct (pair_nonempty _ _ Hcur) as [Hnc Hnk]. destruct Ho' as [HoC HoK].
  split_and!; [done|done| |].
  - destruct (HoC certFile) as [?|[?|?]]; [by left|done|by left|by right].
  - destruct (HoK keyFile) as [?|[?|?]]; [by left|done|by left|by right].
Qed.

(** The files change only for a pair that passed the validation. *)
Lemma PersistPair_validates certPEM keyPEM agentID fs :
  let valid := ∃ t st, ValidateIssuedPair certPEM keyPEM agentID t = inr st in
  triple (λ w, w = fs) (PersistPair certPEM keyPEM agentID certFile keyFile)
    (λ _ _, valid) (λ _ w, valid ∨ w = fs) (λ w, valid ∨ w = fs).
Proof.
  intros valid. unfold PersistPair.
  eapply triple_bind with (Q' := λ _ w, w = fs); [by apply triple_now|]. intros t.
  destruct (ValidateIssuedPair certPEM keyPEM agentID t) as [e|st] eqn:Hv.
  - eapply triple_bind with (Q' := λ _ _, False); [apply triple_throw; by right|by intros _ ???].
  - assert valid as Hvalid by (by exists t, st).
    intros v w _. destruct (bindM _ _ v w) as [[[?|?|] ?] ?]; auto.
Qed.

(** A replacement of the pair is all or nothing.  Started with a valid
    pair, [PersistPair] returns no error only when the two files are exactly
    the new certificate and key, which passed the validation, and no artefact
    is left; if it fails or is killed, the state can be recovered, and nothing
    has changed at all unless the new pair passed the validation. *)
Theorem PersistPair_all_or_nothing certPEM keyPEM agentID v fs :
  let valid := ∃ t st, ValidateIssuedPair certPEM keyPEM agentID t = inr st in
  current fs →
  match PersistPair certPEM keyPEM agentID certFile keyFile v fs with
  | (Ok _, _, fs') => live certPEM keyPEM fs' ∧ absent arts fs' ∧ valid
  | (_, _, fs') => recoverable certFile keyFile fs' = true ∧ (valid ∨ fs' = fs)
  end.
Proof using All.
  intros valid H. pose proof (PersistPair_spec certPEM keyPEM agentID v fs H) as Hs.
  pose proof (PersistPair_validates certPEM keyPEM agentID fs v fs eq_refl) as Hv.
  destruct (PersistPair _ _ _ _ _ v fs) as [[[a|e|] v'] fs']; [|done..].
  by destruct Hs as (_ & ? & ?).
Qed.

(** ** An interrupted first installation *)

(** Only the staged key of a first installation is on disk. *)
Definition half_staged (fs : files) : Prop :=
  content fs keyNext ≠ "" ∧
  ∀ p, p ∈ [certFile; keyFile; certNext; certPrevious; keyPrevious] → content fs p = "".

Lemma half_staged_stuck fs t : half_staged fs →
  recoverPair certFile keyFile (quiet t) fs =
    (Err "no valid client certificate transaction state could be recovered", quiet t, fs).
Proof using All.
  intros [Hne He]. unfold recoverPair.
  destruct (paths_trim certFile) as [-> Hc]; [by left|].
  destruct (paths_trim keyFile) as [-> Hk]; [by right; left|]. rewrite Hc, Hk. cbn [orb].
  destruct (LoadX509KeyPair_succeeds fs t fs eq_refl) as (b & w & Hrun & -> & ->).
  rewrite (bindM_Ok _ _ _ _ _ _ _ Hrun).
  rewrite (He certFile) by by in_list. rewrite is_pair_empty by (by left).
  do 6 (match goal with |- context [readOptional ?p] =>
    destruct (readOptional_succeeds fs p t fs eq_refl) as (? & ? & Hr & -> & ->);
    rewrite (bindM_Ok _ _ _ _ _ _ _ Hr); clear Hr end).
  rewrite !He by by in_list. cbn. apply is_empty_false in Hne. by rewrite Hne.
Qed.

Lemma half_staged_stuck_persist fs t certPEM keyPEM agentID : half_staged fs →
  ∃ e, PersistPair certPEM keyPEM agentID certFile keyFile (quiet t) fs = (Err e, quiet t, fs).
Proof using All.
  intros H. unfold PersistPair. rewrite (bindM_Ok _ _ _ _ _ _ _ (now_quiet t fs)).
  destruct (ValidateIssuedPair certPEM keyPEM agentID t) as [e|st]; [by eexists|]. cbn [lift_err].
  destruct (paths_trim certFile) as [-> Hc]; [by left|].
  destruct (paths_trim keyFile) as [-> Hk]; [by right; left|].
  destruct names_distinct as (Hne & _). apply str_eqb_neq in Hne.
  rewrite (bindM_Ok _ _ _ _ st _ _ eq_refl), Hc, Hk, Hne. cbn [orb].
  unfold wrap, bindM, try. rewrite (half_staged_stuck _ _ H). by eexists.
Qed.

(** The calls before the new certificate is staged succeed; then the process is killed. *)
Definition killed_after_key (t : time) : env := Env (replicate 17 FOk ++ [FCrash]) [t].

Lemma first_install_killed certPEM keyPEM agentID t st :
  ValidateIssuedPair certPEM keyPEM agentID t = inr st → keyPEM ≠ "" →
  ∃ v fs, PersistPair certPEM keyPEM agentID certFile keyFile (killed_after_key t) ∅ = (Crashed, v, fs) ∧
    half_staged fs.
Proof using All.
  intros Hv Hk. unfold PersistPair, killed_after_key.
  rewrite (bindM_Ok now _ (Env _ [t]) ∅ t _ _ eq_refl), Hv.
  destruct (paths_trim certFile) as [-> Hec]; [by left|].
  destruct (paths_trim keyFile) as [-> Hek]; [by right; left|].
  destruct names_distinct as (Hne & _). apply str_eqb_neq in Hne.
  rewrite (bindM_Ok _ _ _ _ st _ _ eq_refl), Hec, Hek, Hne. cbn [orb].
  assert (recoverPair certFile keyFile (Env (replicate 17 FOk ++ [FCrash]) [t]) ∅ =
    (Ok tt, Env (replicate 10 FOk ++ [FCrash]) [t], ∅)) as Hrec.
  { unfold recoverPair. destruct (paths_trim certFile) as [-> _]; [by left|].
    destruct (paths_trim keyFile) as [-> _]; [by right; left|]. by rewrite Hec, Hek. }
  unfold wrap. erewrite bindM_Ok; [|unfold bindM, try; rewrite Hrec; reflexivity].
  erewrite bindM_Ok; [|unfold bindM, try; rewrite AtomicWriteFile_run; [reflexivity|apply paths_plain; by in_list|apply suffix_fresh]].
  destruct (paths_trim certNext) as [Htcn Hecn]; [by in_list|].
  eexists _, _. split.
  - unfold bindM at 1, try. unfold AtomicWriteFile. rewrite Htcn, Hecn. reflexivity.
  - destruct names_distinct as (_ & Hca & Hka & Hnd). unfold artifacts in Hca, Hka, Hnd.
    rewrite !not_elem_of_cons in Hca, Hka. rewrite !NoDup_cons, !not_elem_of_cons in Hnd. destruct_and!.
    split; [by rewrite content_insert|]. intros p Hp. rewrite content_insert_ne; [done|].
    rewrite !elem_of_cons, elem_of_nil in Hp. destruct_or? Hp; congruence.
Qed.

(** A first installation killed between the staging of the key and that of
    the certificate leaves the agent without a way back: every later recovery
    and every later installation, of whatever pair, fails even when no system
    call fails, and changes nothing. *)
Theorem first_install_can_wedge certPEM keyPEM agentID t st :
  ValidateIssuedPair certPEM keyPEM agentID t = inr st → keyPEM ≠ "" →
  ∃ v v' fs, PersistPair certPEM keyPEM agentID certFile keyFile v ∅ = (Crashed, v', fs) ∧
    ∀ t', (∃ e, RecoverPair certFile keyFile (quiet t') fs = (Err e, quiet t', fs)) ∧
      ∀ certPEM' keyPEM' agentID', ∃ e,
        PersistPair certPEM' keyPEM' agentID' certFile keyFile (quiet t') fs = (Err e, quiet t', fs).
Proof using All.
  intros Hv Hk. destruct (first_install_killed _ _ _ _ _ Hv Hk) as (v' & fs & Hrun & Hfs).
  exists (killed_after_key t), v', fs. split; [done|]. intros t'. split.
  - eexists. by apply half_staged_stuck.
  - intros. by apply half_staged_stuck_persist.
Qed.
End transaction.
End certs.

(** ** Examples *)

Definition demo_key_pair (c k : string) : option (list string) :=
  if negb (is_empty c) && negb (is_empty k) && str_eqb (str_drop 4 c) (str_drop 4 k)
  then Some [c] else None.

Definition demo_parse (c : string) : option certificate := Some {|
  x_CommonName := "agent-1"; x_IsCA := false; x_BasicConstraintsValid := true;
  x_NotBefore := 0; x_NotAfter := 1000; x_ExtKeyUsage := [ExtKeyUsageClientAuth]; x_SerialHex := "1" |}.

Definition demo_cert : string := "/tls/client.crt".
Definition demo_key : string := "/tls/client.key".

Definition demo_start : files := {[ demo_cert := File "CERT1" 420; demo_key := File "KEY_1" 384 ]}.

Lemma demo_pair_nonempty c k : is_pair demo_key_pair c k = true → c ≠ "" ∧ k ≠ "".
Proof.
  unfold is_pair, demo_key_pair. intros H%bool_decide_eq_true.
  destruct (is_empty c) eqn:Hc, (is_empty k) eqn:Hk; simpl in H; try by destruct H.
  by apply is_empty_false in Hc, Hk.
Qed.

Lemma demo_paths_ok : pair_paths_ok demo_cert demo_key = true.
Proof. vm_compute. reflexivity. Qed.

(** A replacement killed after both current files were moved away. *)
Definition demo_persist := PersistPair long_suffix demo_parse demo_key_pair (λ _, "now")
  "CERT2" "KEY_2" "agent-1" demo_cert demo_key (Env (replicate 50 FOk ++ [FCrash]) [50]) demo_start.
Definition demo_killed : files := demo_persist.2.

Lemma demo_absent fs : forallb (λ p, bool_decide (fs !! p = None)) (artifacts demo_cert demo_key) = true →
  absent (artifacts demo_cert demo_key) fs.
Proof.
  rewrite forallb_forall. intros H p Hp%list_elem_of_In. by apply H, bool_decide_eq_true in Hp.
Qed.

Lemma pair_survives_interruptions_witness :
  demo_killed !! demo_cert = None ∧ demo_killed !! demo_key = None ∧
  ∃ fs', RecoverPair long_suffix demo_key_pair demo_cert demo_key (quiet 60) demo_killed = (Ok tt, quiet 60, fs') ∧
    is_pair demo_key_pair (content fs' demo_cert) (content fs' demo_key) = true.
Proof.
  split; [vm_compute; reflexivity|]. split; [vm_compute; reflexivity|].
  destruct (pair_survives_interruptions long_suffix demo_parse demo_key_pair (λ _, "now")
    long_suffix_fresh demo_pair_nonempty demo_cert demo_key demo_paths_ok
    (λ c k, c = "CERT2" ∧ k = "KEY_2") demo_start demo_killed 60) as (fs' & Hrun & Hp & _).
  - vm_compute. reflexivity.
  - apply demo_absent. vm_compute. reflexivity.
  - apply rtc_once, pair_persist with (certPEM := "CERT2") (keyPEM := "KEY_2") (agentID := "agent-1").
    + vm_compute. reflexivity.
    + done.
    + apply runs_run with (v := Env (replicate 50 FOk ++ [FCrash]) [50]).
  - exists fs'. exact (conj Hrun Hp).
Defined.

Definition installed_now := PersistPair long_suffix demo_parse demo_key_pair (λ _, "now")
  "CERT2" "KEY_2" "agent-1" demo_cert demo_key (quiet 50) demo_start.

Lemma PersistPair_all_or_nothing_witness :
  installed_now.1.1 = Ok tt ∧
  live demo_cert demo_key "CERT2" "KEY_2" installed_now.2.
Proof.
  pose proof (PersistPair_all_or_nothing long_suffix demo_parse demo_key_pair (λ _, "now")
    long_suffix_fresh demo_pair_nonempty demo_cert demo_key demo_paths_ok "CERT2" "KEY_2" "agent-1"
    (quiet 50) demo_start ltac:(vm_compute; reflexivity)) as H.
  assert (installed_now.1.1 = Ok tt) as Hok by (vm_compute; reflexivity).
  split; [exact Hok|]. fold installed_now in H. destruct installed_now as [[o v] fs].
  simpl in Hok. subst o. by destruct H as (H & _ & _).
Defined.

Lemma first_install_can_wedge_witness :
  ∃ v v' fs, PersistPair long_suffix demo_parse demo_key_pair (λ _, "now")
    "CERT2" "KEY_2" "agent-1" demo_cert demo_key v ∅ = (Crashed, v', fs) ∧
    ∃ e, RecoverPair long_suffix demo_key_pair demo_cert demo_key (quiet 60) fs = (Err e, quiet 60, fs).
Proof.
  destruct (first_install_can_wedge long_suffix demo_parse demo_key_pair (λ _, "now")
    long_suffix_fresh demo_pair_nonempty demo_cert demo_key demo_paths_ok "CERT2" "KEY_2" "agent-1" 50
    {| cs_SerialHex := "1"; cs_NotBefore := 0; cs_NotAfter := 1000 |}) as (v & v' & fs & H & Hs).
  - vm_compute. reflexivity.
  - done.
  - exists v, v', fs. exact (conj H (proj1 (Hs 60))).
Defined.

(** A PEM decoder on texts of one letter per block. *)
Definition demo_pem (s : string) : option (string * string * string) :=
  match s with String a rest => Some ("CERTIFICATE", String a "", rest) | EmptyString => None end.

Lemma demo_pem_shorter s typ bytes rest :
  demo_pem s = Some (typ, bytes, rest) → (String.length rest < String.length s)%nat.
Proof. destruct s as [|a s]; [done|]. intros [= _ _ ->]. simpl. lia. Qed.

Definition demo_ca (c : string) : option certificate := Some {|
  x_CommonName := "ca"; x_IsCA := negb (str_eqb c "x"); x_BasicConstraintsValid := true;
  x_NotBefore := 0; x_NotAfter := 1000; x_ExtKeyUsage := []; x_SerialHex := "1" |}.

Lemma ValidateServerCA_decides_witness :
  ValidateServerCA demo_pem demo_ca "ab" = inr tt ∧ ValidateServerCA demo_pem demo_ca "ax" ≠ inr tt ∧
  ∃ n, 0 < n ∧ ca_chain demo_pem demo_ca (TrimSpace "ab") n.
Proof.
  split; [vm_compute; reflexivity|]. split; [vm_compute; discriminate|].
  apply (ValidateServerCA_decides demo_pem demo_ca demo_pem_shorter "ab"). vm_compute. reflexivity.
Defined.
