(* ===== verification/ExecPayload.v ===== *)
(** * ExecPayload: the payloads of response actions (internal/responseactions/executor.go)

    Every action type has a parser from the raw JSON payload to a validated
    request.  A parser fails with the message of the Go error (the detail of a
    JSON error is left out).  Parameters: the JSON scanner, [net.ParseIP] with
    the canonical text of the address, and SHA-256 in hexadecimal. *)

From S2P Require Import Prelude GoStr GoText GoJson.
From Stdlib Require Import Ascii NArith.

Local Open Scope Z_scope.
Local Open Scope go_scope.

Definition err_or (A : Type) : Type := string + A.

Definition clamp (v min max : Z) : Z := if v <? min then min else if max <? v then max else v.

(** The test every parser starts with. *)
Definition no_payload (raw : string) : bool :=
  is_empty (TrimSpace raw) || str_eqb (TrimSpace raw) "null".

(** ** Triage bundles and inventory snapshots *)

Record triage_collectors := {
  tc_Runtime : bool; tc_Host : bool; tc_Processes : bool; tc_Network : bool; tc_AuthLog : bool;
  tc_RecentEvents : bool; tc_EffectiveConfig : bool }.
Record triage_limits := {
  tl_MaxAuthLogLines : Z; tl_MaxProcesses : Z; tl_MaxConnections : Z; tl_MaxEventCount : Z }.
Record triageBundleOptions := {
  tb_Collectors : triage_collectors; tb_Limits : triage_limits; tb_MaskSecrets : bool }.
Record inventorySnapshotOptions := { io_MaxProcesses : Z; io_MaxConnections : Z }.

(** The decoded payloads: every member is a pointer. *)
Record raw_collectors := {
  rc_Runtime : option bool; rc_Host : option bool; rc_Processes : option bool;
  rc_Network : option bool; rc_AuthLog : option bool; rc_RecentEvents : option bool;
  rc_EffectiveConfig : option bool }.
Record raw_limits := {
  rl_MaxAuthLogLines : option Z; rl_MaxProcesses : option Z; rl_MaxConnections : option Z;
  rl_MaxEventCount : option Z }.
Record raw_triage := {
  rt_Collectors : raw_collectors; rt_Limits : raw_limits; rt_MaskSecrets : option bool }.

Definition dec_pbool : decoder (option bool) := dec_ptr false dec_bool.
Definition dec_pint : decoder (option Z) := dec_ptr 0 dec_int.
Definition dec_pstring : decoder (option string) := dec_ptr "" dec_string.

Definition fields_collectors : fields raw_collectors := [
  ("runtime", on_field rc_Runtime (λ v '(Build_raw_collectors _ b c d e f g),
     Build_raw_collectors v b c d e f g) dec_pbool);
  ("host", on_field rc_Host (λ v '(Build_raw_collectors a _ c d e f g),
     Build_raw_collectors a v c d e f g) dec_pbool);
  ("processes", on_field rc_Processes (λ v '(Build_raw_collectors a b _ d e f g),
     Build_raw_collectors a b v d e f g) dec_pbool);
  ("network", on_field rc_Network (λ v '(Build_raw_collectors a b c _ e f g),
     Build_raw_collectors a b c v e f g) dec_pbool);
  ("auth_log", on_field rc_AuthLog (λ v '(Build_raw_collectors a b c d _ f g),
     Build_raw_collectors a b c d v f g) dec_pbool);
  ("recent_events", on_field rc_RecentEvents (λ v '(Build_raw_collectors a b c d e _ g),
     Build_raw_collectors a b c d e v g) dec_pbool);
  ("effective_config", on_field rc_EffectiveConfig (λ v '(Build_raw_collectors a b c d e f _),
     Build_raw_collectors a b c d e f v) dec_pbool)].

Definition fields_limits : fields raw_limits := [
  ("max_auth_log_lines", on_field rl_MaxAuthLogLines (λ v '(Build_raw_limits _ b c d),
     Build_raw_limits v b c d) dec_pint);
  ("max_processes", on_field rl_MaxProcesses (λ v '(Build_raw_limits a _ c d),
     Build_raw_limits a v c d) dec_pint);
  ("max_connections", on_field rl_MaxConnections (λ v '(Build_raw_limits a b _ d),
     Build_raw_limits a b v d) dec_pint);
  ("max_event_count", on_field rl_MaxEventCount (λ v '(Build_raw_limits a b c _),
     Build_raw_limits a b c v) dec_pint)].

Definition fields_redaction : fields (option bool) := [("mask_secrets", dec_pbool)].

Definition fields_triage : fields raw_triage := [
  ("collectors", on_field rt_Collectors (λ v '(Build_raw_triage _ b c), Build_raw_triage v b c)
     (dec_struct fields_collectors));
  ("limits", on_field rt_Limits (λ v '(Build_raw_triage a _ c), Build_raw_triage a v c)
     (dec_struct fields_limits));
  ("redaction", on_field rt_MaskSecrets (λ v '(Build_raw_triage a b _), Build_raw_triage a b v)
     (dec_struct fields_redaction))].

Definition zero_collectors := Build_raw_collectors None None None None None None None.
Definition zero_limits := Build_raw_limits None None None None.

(** [if p != nil { out = clamp( *p, lo, hi) }]. *)
Definition limit_or (p : option Z) (d lo hi : Z) : Z :=
  match p with Some v => clamp v lo hi | None => d end.

(** The payload of [trigger_inventory_snapshot] has two of the four limits. *)
Record raw_snapshot := { rs_MaxProcesses : option Z; rs_MaxConnections : option Z }.
Definition fields_snapshot_limits : fields raw_snapshot := [
  ("max_processes", on_field rs_MaxProcesses (λ v '(Build_raw_snapshot _ b), Build_raw_snapshot v b) dec_pint);
  ("max_connections", on_field rs_MaxConnections (λ v '(Build_raw_snapshot a _), Build_raw_snapshot a v) dec_pint)].
Definition fields_snapshot : fields raw_snapshot := [("limits", dec_struct fields_snapshot_limits)].

(** ** kill_process *)

Record killProcessPayload := {
  kp_pid : Z; kp_name : string; kp_byName : bool; kp_signal : Z; kp_signalName : string;
  kp_dryRun : bool }.

Record raw_target := { rg_PID : option Z; rg_Name : option string }.
Record raw_kill := { rk_Target : raw_target; rk_Signal : option string; rk_DryRun : option bool }.

Definition fields_target : fields raw_target := [
  ("pid", on_field rg_PID (λ v '(Build_raw_target _ b), Build_raw_target v b) dec_pint);
  ("name", on_field rg_Name (λ v '(Build_raw_target a _), Build_raw_target a v) dec_pstring)].
Definition fields_kill : fields raw_kill := [
  ("target", on_field rk_Target (λ v '(Build_raw_kill _ b c), Build_raw_kill v b c) (dec_struct fields_target));
  ("signal", on_field rk_Signal (λ v '(Build_raw_kill a _ c), Build_raw_kill a v c) dec_pstring);
  ("dry_run", on_field rk_DryRun (λ v '(Build_raw_kill a b _), Build_raw_kill a b v) dec_pbool)].

Definition known_signals : list (string * Z) := [
  ("SIGTERM", 15); ("SIGKILL", 9); ("SIGINT", 2); ("SIGHUP", 1); ("SIGQUIT", 3);
  ("SIGSTOP", 19); ("SIGCONT", 18); ("SIGUSR1", 10); ("SIGUSR2", 12)].

Definition parseSignal (raw : option string) : err_or (Z * string) :=
  match raw with
  | None => inr (15, "SIGTERM")
  | Some raw =>
    if is_empty (TrimSpace raw) then inr (15, "SIGTERM") else
    let s := ToUpper (TrimSpace raw) in
    let s := if HasPrefix s "SIG" then s else "SIG" +:+ s in
    match List.find (λ kv, str_eqb kv.1 s) known_signals with
    | Some kv => inr (kv.2, s)
    | None => inl ("unsupported signal: " +:+ TrimSpace raw)
    end
  end.

(** ** Firewall rules *)

Record firewallPayload := {
  fw_ip : string; fw_isV6 : bool; fw_port : Z; fw_protocol : string; fw_comment : string;
  fw_legacyComment : string; fw_dryRun : bool }.

Record raw_firewall := {
  rf_IP : option string; rf_Port : option Z; rf_Protocol : option string;
  rf_Comment : option string; rf_DryRun : option bool }.

Definition fields_firewall : fields raw_firewall := [
  ("ip", on_field rf_IP (λ v '(Build_raw_firewall _ b c d e), Build_raw_firewall v b c d e) dec_pstring);
  ("port", on_field rf_Port (λ v '(Build_raw_firewall a _ c d e), Build_raw_firewall a v c d e) dec_pint);
  ("protocol", on_field rf_Protocol (λ v '(Build_raw_firewall a b _ d e), Build_raw_firewall a b v d e) dec_pstring);
  ("comment", on_field rf_Comment (λ v '(Build_raw_firewall a b c _ e), Build_raw_firewall a b c v e) dec_pstring);
  ("dry_run", on_field rf_DryRun (λ v '(Build_raw_firewall a b c d _), Build_raw_firewall a b c d v) dec_pbool)].

(** The runes kept are ASCII, so the loop over runes is one over bytes. *)
Definition comment_char (a : ascii) : bool :=
  is_lower a || is_upper a || is_digit a ||
  existsb (Ascii.eqb a) ["_"%char; "."%char; ":"%char; "-"%char].

Definition sanitizeFirewallComment (raw : option string) : string :=
  match raw with
  | None => "seagull_block"
  | Some raw =>
    let out := of_chars (List.filter comment_char (to_chars (TrimSpace raw))) in
    if is_empty out then "seagull_block"
    else if 64 <? strlen out then str_take 64 out else out
  end.

(** ** Files *)

Record quarantineFilePayload := { qp_path : string; qp_computeHash : bool; qp_dryRun : bool }.
Record raw_quarantine := {
  rq_Path : option string; rq_ComputeHash : option bool; rq_DryRun : option bool }.

Definition fields_quarantine : fields raw_quarantine := [
  ("path", on_field rq_Path (λ v '(Build_raw_quarantine _ b c), Build_raw_quarantine v b c) dec_pstring);
  ("compute_hash", on_field rq_ComputeHash (λ v '(Build_raw_quarantine a _ c), Build_raw_quarantine a v c) dec_pbool);
  ("dry_run", on_field rq_DryRun (λ v '(Build_raw_quarantine a b _), Build_raw_quarantine a b v) dec_pbool)].

Definition quarantineForbiddenPrefixes : list string := [
  "/proc"; "/sys"; "/dev"; "/run"; "/etc"; "/boot"; "/usr"; "/bin"; "/sbin"; "/lib"; "/lib64";
  "/var/lib/seagull"].

Definition validateQuarantinePath (path : string) : option string :=
  if negb (IsAbs path) then Some "payload.path must be absolute"
  else match List.find (λ prefix, str_eqb path prefix || HasPrefix path (prefix +:+ "/"))
               quarantineForbiddenPrefixes with
       | Some prefix => Some ("payload.path is in a protected location: " +:+ prefix)
       | None => None
       end.

(** ** Commands *)

Definition maxShellOutputBytes : Z := 2 ^ 20.
Definition maxShellArguments : Z := 128.
Definition maxShellArgumentBytes : Z := 4096.
Definition maxShellCommandBytes : Z := 65536.

Record shellCommandPayload := {
  sc_command : string; sc_arguments : list string; sc_timeoutSeconds : Z; sc_workingDir : string }.
Record raw_shell := {
  rs_Command : option string; rs_Arguments : option (list string);
  rs_TimeoutSeconds : option Z; rs_WorkingDir : option string }.

Definition fields_shell : fields raw_shell := [
  ("command", on_field rs_Command (λ v '(Build_raw_shell _ b c d), Build_raw_shell v b c d) dec_pstring);
  ("arguments", on_field rs_Arguments (λ v '(Build_raw_shell a _ c d), Build_raw_shell a v c d)
     (dec_ptr [] (dec_slice "" dec_string)));
  ("timeout_seconds", on_field rs_TimeoutSeconds (λ v '(Build_raw_shell a b _ d), Build_raw_shell a b v d) dec_pint);
  ("working_dir", on_field rs_WorkingDir (λ v '(Build_raw_shell a b c _), Build_raw_shell a b c v) dec_pstring)].

(** The checks on one argument, in the order of the loop. *)
Definition check_argument (argument : string) : option string :=
  if is_empty argument then Some "payload command contains an empty argument"
  else if has_byte argument (ascii_of_nat 0) then Some "payload command contains a null byte"
  else if maxShellArgumentBytes <? strlen argument then Some "payload command argument too long"
  else None.

Fixpoint check_arguments (arguments : list string) (total : Z) : string + Z :=
  match arguments with
  | [] => inr total
  | a :: arguments =>
    match check_argument a with
    | Some e => inl e
    | None => check_arguments arguments (total + strlen a)
    end
  end.

Section payloads.
Context (parse : string → option json).
Context (ParseIP : string → option (string * bool)) (sha256_hex : string → string).
Context (marshal_strings : list string → string).

Definition decode_payload {S} (fs : fields S) (zero : S) (raw : string) : err_or S :=
  match unmarshal parse (dec_struct fs) zero raw with
  | Some p => inr p
  | None => inl "invalid payload JSON"
  end.

Definition parseTriageBundleOptions (raw : string) : err_or triageBundleOptions :=
  let payload :=
    if no_payload raw then inr (Build_raw_triage zero_collectors zero_limits None)
    else decode_payload fields_triage (Build_raw_triage zero_collectors zero_limits None) raw in
  match payload with
  | inl e => inl e
  | inr p =>
    let c := rt_Collectors p in
    let l := rt_Limits p in
    inr {|
      tb_Collectors := {|
        tc_Runtime := default true (rc_Runtime c); tc_Host := default true (rc_Host c);
        tc_Processes := default true (rc_Processes c); tc_Network := default true (rc_Network c);
        tc_AuthLog := default true (rc_AuthLog c); tc_RecentEvents := default true (rc_RecentEvents c);
        tc_EffectiveConfig := default true (rc_EffectiveConfig c) |};
      tb_Limits := {|
        tl_MaxAuthLogLines := limit_or (rl_MaxAuthLogLines l) 500 10 5000;
        tl_MaxProcesses := limit_or (rl_MaxProcesses l) 200 10 2000;
        tl_MaxConnections := limit_or (rl_MaxConnections l) 200 10 2000;
        tl_MaxEventCount := limit_or (rl_MaxEventCount l) 300 10 5000 |};
      tb_MaskSecrets := default true (rt_MaskSecrets p) |}
  end.

Definition parseInventorySnapshotOptions (raw : string) : err_or inventorySnapshotOptions :=
  let payload :=
    if no_payload raw then inr (Build_raw_snapshot None None)
    else decode_payload fields_snapshot (Build_raw_snapshot None None) raw in
  match payload with
  | inl e => inl e
  | inr p => inr {| io_MaxProcesses := limit_or (rs_MaxProcesses p) 200 10 2000;
                    io_MaxConnections := limit_or (rs_MaxConnections p) 200 10 2000 |}
  end.

Definition parseKillProcessPayload (raw : string) : err_or killProcessPayload :=
  if no_payload raw then inl "payload.target is required" else
  match decode_payload fields_kill (Build_raw_kill (Build_raw_target None None) None None) raw with
  | inl e => inl e
  | inr p =>
    let target := rk_Target p in
    let hasPID := match rg_PID target with Some _ => true | None => false end in
    let hasName := match rg_Name target with Some n => negb (is_empty (TrimSpace n)) | None => false end in
    if Bool.eqb hasPID hasName then inl "payload.target requires exactly one of pid or name" else
    let pid := default 0 (rg_PID target) in
    if hasPID && (pid <=? 1) then inl "payload.target.pid must be greater than 1" else
    match parseSignal (rk_Signal p) with
    | inl e => inl e
    | inr (sig, sigName) => inr {|
        kp_pid := pid;
        kp_name := if hasPID then "" else TrimSpace (default "" (rg_Name target));
        kp_byName := negb hasPID;
        kp_signal := sig; kp_signalName := sigName;
        kp_dryRun := default false (rk_DryRun p) |}
    end
  end.

(** The 12 hexadecimal digits that tie a comment to one address and port. *)
Definition comment_scope (label ip protocol : string) (port : Z) : string :=
  str_take 12 (sha256_hex (label +:+ "|" +:+ ip +:+ "|" +:+ protocol +:+ "|" +:+ Itoa port)).

Definition scopedFirewallComment (label ip protocol : string) (port : Z) : string :=
  let suffix := comment_scope label ip protocol port in
  let maxLabel := 64 - strlen suffix - 1 in
  let label := if maxLabel <? strlen label then str_take (Z.to_nat maxLabel) label else label in
  label +:+ "_" +:+ suffix.

Definition parseFirewallPayload (raw : string) : err_or firewallPayload :=
  if no_payload raw then inl "payload.ip is required" else
  match decode_payload fields_firewall (Build_raw_firewall None None None None None) raw with
  | inl e => inl e
  | inr p =>
    match rf_IP p with
    | None => inl "payload.ip is required"
    | Some ip =>
      if is_empty (TrimSpace ip) then inl "payload.ip is required" else
      match ParseIP (TrimSpace ip) with
      | None => inl "payload.ip is not a valid IP address"
      | Some (ip, isV6) =>
        let proto := match rf_Protocol p with Some s => ToLower (TrimSpace s) | None => "" end in
        if negb (is_empty proto) && negb (str_eqb proto "tcp") && negb (str_eqb proto "udp")
        then inl "payload.protocol must be tcp or udp" else
        let bad_port := match rf_Port p with Some port => (port <? 1) || (65535 <? port) | None => false end in
        if bad_port then inl "payload.port must be between 1 and 65535" else
        let port := default 0 (rf_Port p) in
        let proto := if is_empty proto && match rf_Port p with Some _ => true | None => false end
                     then "tcp" else proto in
        if negb (is_empty proto) && (port =? 0) then inl "payload.protocol requires payload.port" else
        let legacy := sanitizeFirewallComment (rf_Comment p) in
        inr {| fw_ip := ip; fw_isV6 := isV6; fw_port := port; fw_protocol := proto;
               fw_comment := scopedFirewallComment legacy ip proto port;
               fw_legacyComment := legacy; fw_dryRun := default false (rf_DryRun p) |}
      end
    end
  end.

Definition parseQuarantineFilePayload (raw : string) : err_or quarantineFilePayload :=
  if no_payload raw then inl "payload.path is required" else
  match decode_payload fields_quarantine (Build_raw_quarantine None None None) raw with
  | inl e => inl e
  | inr p =>
    match rq_Path p with
    | None => inl "payload.path is required"
    | Some path =>
      if is_empty (TrimSpace path) then inl "payload.path is required" else
      inr {| qp_path := Clean (TrimSpace path);
             qp_computeHash := default true (rq_ComputeHash p);
             qp_dryRun := default false (rq_DryRun p) |}
    end
  end.

(** The arguments a payload asks for. *)
Definition shell_arguments (p : raw_shell) : err_or (list string) :=
  match rs_Command p, rs_Arguments p with
  | Some _, Some _ => inl "payload.command and payload.arguments are mutually exclusive"
  | _, Some arguments => inr arguments
  | Some command, None => inr (Fields (TrimSpace command))
  | None, None => inl "payload.command or payload.arguments is required"
  end.

Definition parseShellCommandPayload (raw : string) : err_or shellCommandPayload :=
  if no_payload raw then inl "payload.command is required" else
  match decode_payload fields_shell (Build_raw_shell None None None None) raw with
  | inl e => inl e
  | inr p =>
    match shell_arguments p with
    | inl e => inl e
    | inr arguments =>
      if (length arguments =? 0)%nat then inl "payload command is empty" else
      if maxShellArguments <? Z.of_nat (length arguments) then inl "payload command exceeds 128 arguments" else
      match check_arguments arguments 0 with
      | inl e => inl e
      | inr totalBytes =>
        if maxShellCommandBytes <? totalBytes then inl "payload command exceeds 65536 bytes" else
        let timeout := limit_or (rs_TimeoutSeconds p) 30 1 300 in
        let wd := TrimSpace (default "" (rs_WorkingDir p)) in
        if negb (is_empty wd) && negb (IsAbs wd) then inl "payload.working_dir must be absolute" else
        inr {| sc_command := marshal_strings arguments; sc_arguments := arguments;
               sc_timeoutSeconds := timeout;
               sc_workingDir := if is_empty wd then "" else Clean wd |}
      end
    end
  end.

(** ** Validity of what the parsers accept *)

Definition valid_kill (p : killProcessPayload) : Prop :=
  (if kp_byName p then kp_name p ≠ "" ∧ TrimSpace (kp_name p) = kp_name p ∧ kp_pid p = 0
   else 1 < kp_pid p ∧ kp_name p = "") ∧
  (kp_signalName p, kp_signal p) ∈ known_signals.

Definition comment_ok (s : string) : Prop := s ≠ "" ∧ Forall (λ a, comment_char a = true) (to_chars s) ∧
  strlen s <= 64.

Definition valid_firewall (p : firewallPayload) : Prop :=
  (∃ text, ParseIP text = Some (fw_ip p, fw_isV6 p)) ∧
  (fw_protocol p = "" ∧ fw_port p = 0 ∨
   (fw_protocol p = "tcp" ∨ fw_protocol p = "udp") ∧ 1 <= fw_port p <= 65535) ∧
  comment_ok (fw_legacyComment p) ∧
  fw_comment p = scopedFirewallComment (fw_legacyComment p) (fw_ip p) (fw_protocol p) (fw_port p).

Definition valid_shell (p : shellCommandPayload) : Prop :=
  1 <= Z.of_nat (length (sc_arguments p)) <= maxShellArguments ∧
  Forall (λ a, a ≠ "" ∧ has_byte a (ascii_of_nat 0) = false ∧ strlen a <= maxShellArgumentBytes)
    (sc_arguments p) ∧
  sumZ strlen (sc_arguments p) <= maxShellCommandBytes ∧
  1 <= sc_timeoutSeconds p <= 300 ∧
  (sc_workingDir p = "" ∨ IsAbs (sc_workingDir p) = true) ∧
  sc_command p = marshal_strings (sc_arguments p).

#[local] Set Default Proof Using "Type".

Lemma clamp_bounds v lo hi : lo <= hi → lo <= clamp v lo hi <= hi.
Proof. intros. unfold clamp. go_cases; lia. Qed.

Lemma limit_or_bounds p d lo hi : lo <= d <= hi → lo <= limit_or p d lo hi <= hi.
Proof. intros. destruct p; simpl; [apply clamp_bounds; lia|lia]. Qed.

Lemma parseSignal_known raw sig name : parseSignal raw = inr (sig, name) → (name, sig) ∈ known_signals.
Proof.
  unfold parseSignal. destruct raw as [raw|]; [|intros [= <- <-]; by left].
  destruct (is_empty _); [intros [= <- <-]; by left|].
  destruct (List.find _ _) as [[n s]|] eqn:E; [|done]. intros [= <- <-].
  apply find_some in E as [Hin Heq]. apply str_eqb_eq in Heq. simpl in *. subst n.
  by apply list_elem_of_In.
Qed.

Lemma parseKill_valid raw p : parseKillProcessPayload raw = inr p → valid_kill p.
Proof.
  unfold parseKillProcessPayload. destruct (no_payload raw); [done|].
  destruct (decode_payload _ _ raw) as [|[[pid name] sg dry]]; [done|]. simpl.
  destruct (parseSignal sg) as [|[sig sname]] eqn:Hsig.
  { repeat case_match; done. }
  apply parseSignal_known in Hsig.
  destruct pid as [pid|]; simpl.
  - destruct (match name with Some n => negb (is_empty (TrimSpace n)) | None => false end); simpl; [done|].
    destruct (pid <=? 1) eqn:Hp; [done|]. intros [= <-]. zbool. split; simpl; [split; [lia|done]|done].
  - destruct name as [n|]; simpl; [|done]. destruct (is_empty (TrimSpace n)) eqn:Hn; simpl; [done|].
    intros [= <-]. apply is_empty_false in Hn. split; simpl; [|done].
    split_and!; [done|apply TrimSpace_idem|done].
Qed.

Lemma comment_default_ok : comment_ok "seagull_block".
Proof. split; [done|]. split; [|by vm_compute]. simpl. repeat constructor. Qed.

Lemma sanitize_ok raw : comment_ok (sanitizeFirewallComment raw).
Proof.
  unfold sanitizeFirewallComment. destruct raw as [raw|]; [|apply comment_default_ok].
  set (out := of_chars _). destruct (is_empty out) eqn:He; [apply comment_default_ok|].
  assert (Hall : Forall (λ a, comment_char a = true) (to_chars out)).
  { unfold out. rewrite to_of_chars. apply Forall_forall. intros a Ha.
    apply list_elem_of_In, filter_In in Ha. apply Ha. }
  apply is_empty_false in He.
  destruct (64 <? strlen out) eqn:Hl; zbool; [|by split_and!].
  split_and!.
  - intros H0. apply (f_equal strlen) in H0. rewrite strlen_str_take in H0. simpl in H0.
    unfold strlen at 2 in H0. simpl in H0. lia.
  - rewrite to_chars_str_take. by apply Forall_take.
  - rewrite strlen_str_take. lia.
Qed.

Lemma parseFirewall_valid raw p : parseFirewallPayload raw = inr p → valid_firewall p.
Proof.
  unfold parseFirewallPayload. destruct (no_payload raw); [done|].
  destruct (decode_payload _ _ raw) as [|[[ip|] port proto com dry]]; [done| |done]. simpl.
  destruct (is_empty (TrimSpace ip)); [done|].
  destruct (ParseIP (TrimSpace ip)) as [[text v6]|] eqn:Hip; [|done].
  set (pr := match proto with Some s => _ | None => "" end).
  destruct (negb (is_empty pr) && _ && _) eqn:Hproto; [done|].
  assert (Hpr : pr = "" ∨ pr = "tcp" ∨ pr = "udp").
  { destruct (is_empty pr) eqn:H1; [left; by apply is_empty_true|]. simpl in Hproto.
    destruct (str_eqb pr "tcp") eqn:H2; [right; left; by apply str_eqb_eq|]. simpl in Hproto.
    destruct (str_eqb pr "udp") eqn:H3; [right; right; by apply str_eqb_eq|done]. }
  destruct port as [port|]; simpl.
  - destruct ((port <? 1) || (65535 <? port)) eqn:Hport; [done|]. zbool.
    assert (port =? 0 = false) as Hz by (apply Z.eqb_neq; lia).
    rewrite Hz, andb_false_r, andb_true_r. destruct (is_empty pr) eqn:He; simpl.
    + intros [= <-]. split_and!; simpl; [by exists (TrimSpace ip)|right; split; [by left|lia]|apply sanitize_ok|done].
    + intros [= <-]. apply is_empty_false in He.
      split_and!; simpl; [by exists (TrimSpace ip)|right; split; [naive_solver|lia]|apply sanitize_ok|done].
  - rewrite andb_false_r, andb_true_r. destruct (is_empty pr) eqn:He; simpl; [|done]. intros [= <-].
    apply is_empty_true in He.
    split_and!; simpl; [by exists (TrimSpace ip)|by left|apply sanitize_ok|done].
Qed.

Lemma check_arguments_ok l : ∀ total n, check_arguments l total = inr n →
  Forall (λ a, a ≠ "" ∧ has_byte a (ascii_of_nat 0) = false ∧ strlen a <= maxShellArgumentBytes) l ∧
  n = total + sumZ strlen l.
Proof.
  induction l as [|a l IH]; intros total n; simpl; [intros [= <-]; split; [constructor|lia]|].
  unfold check_argument. destruct (is_empty a) eqn:H1; [done|]. destruct (has_byte a _) eqn:H2; [done|].
  destruct (maxShellArgumentBytes <? strlen a) eqn:H3; [done|]. intros H. zbool.
  apply IH in H as [Hl ->]. apply is_empty_false in H1. split; [|lia]. constructor; [by split_and!|done].
Qed.

Lemma parseShell_valid raw p : parseShellCommandPayload raw = inr p → valid_shell p.
Proof.
  unfold parseShellCommandPayload. destruct (no_payload raw); [done|].
  destruct (decode_payload _ _ raw) as [|rp]; [done|].
  destruct (shell_arguments rp) as [|args]; [done|].
  destruct (length args =? 0)%nat eqn:H0; [done|]. apply Nat.eqb_neq in H0.
  destruct (maxShellArguments <? _) eqn:Hmax; [done|].
  destruct (check_arguments args 0) as [|total] eqn:Hc; [done|].
  apply check_arguments_ok in Hc as [Hargs ->].
  destruct (maxShellCommandBytes <? _) eqn:Htot; [done|]. cbv zeta.
  set (wd := TrimSpace (default "" (rs_WorkingDir rp))).
  pose proof (limit_or_bounds (rs_TimeoutSeconds rp) 30 1 300 ltac:(lia)) as Hto.
  destruct (is_empty wd) eqn:Hwd, (IsAbs wd) eqn:Habs; simpl; try done; intros [= <-]; zbool;
    split_and!; simpl; first [done|lia|by left|right; rewrite Clean_abs by done; apply HasPrefix_app].
Qed.

(** The digits that scope a comment are its last twelve characters. *)
Hypothesis sha256_length : ∀ x, strlen (sha256_hex x) = 64.

Lemma strlen_scope l ip pr port : strlen (comment_scope l ip pr port) = 12.
Proof using sha256_length. unfold comment_scope. rewrite strlen_str_take, sha256_length. lia. Qed.

Lemma scoped_length l ip pr port : strlen (scopedFirewallComment l ip pr port) <= 64.
Proof using sha256_length.
  unfold scopedFirewallComment. rewrite strlen_scope.
  destruct (_ <? strlen l) eqn:E; zbool; rewrite !strlen_app, strlen_scope; change (strlen "_") with 1;
    rewrite ?strlen_str_take; lia.
Qed.

(** Payloads are validated.  A payload a parser accepts names exactly one
    process, never pid 0 or 1, and a known signal; an address that parses, a
    port between 1 and 65535 with its protocol or neither, and a comment of at
    most 64 characters of the restricted alphabet; a command of 1 to 128
    non-empty arguments without null bytes within the size limits, an absolute
    working directory and a timeout between 1 and 300 seconds. *)
Theorem parsers_validate raw :
  (∀ p, parseKillProcessPayload raw = inr p → valid_kill p) ∧
  (∀ p, parseFirewallPayload raw = inr p → valid_firewall p ∧ strlen (fw_comment p) <= 64) ∧
  (∀ p, parseShellCommandPayload raw = inr p → valid_shell p).
Proof using sha256_length.
  split_and!; [apply parseKill_valid| |apply parseShell_valid].
  intros p Hp. apply parseFirewall_valid in Hp. split; [done|].
  destruct Hp as (_ & _ & _ & ->). apply scoped_length.
Qed.

(** A rule comment identifies its rule.  Two comments are equal only if the
    truncated digests of label, address, protocol and port are: an unblock
    deletes the rules of its own address and port, unless the digests collide. *)
Lemma comment_identifies_rule l1 ip1 pr1 port1 l2 ip2 pr2 port2 :
  scopedFirewallComment l1 ip1 pr1 port1 = scopedFirewallComment l2 ip2 pr2 port2 →
  comment_scope l1 ip1 pr1 port1 = comment_scope l2 ip2 pr2 port2.
Proof using sha256_length.
  unfold scopedFirewallComment. intros H. apply str_app_inj in H as [_ H].
  - apply str_app_inj in H as [_ H]; [done|]. by rewrite !strlen_scope.
  - by rewrite !strlen_app, !strlen_scope.
Qed.

End payloads.

(** Protected files stay.  For a path the parser cleaned and
    [validateQuarantinePath] accepts, the components of the path are proper
    names (no [.] or [..] to resolve) and do not start with those of any
    protected directory: the file is not that directory and not below it. *)
Theorem quarantine_path_protected path prefix comps :
  validateQuarantinePath (Clean path) = None → IsAbs path = true →
  prefix ∈ quarantineForbiddenPrefixes → prefix = "/" +:+ Join comps "/" → comps ≠ [] →
  Forall proper_name (clean_components true path) ∧
  Clean path = "/" +:+ Join (clean_components true path) "/" ∧
  ¬ comps `prefix_of` clean_components true path.
Proof.
  intros Hv Habs Hp Heq Hne. split_and!; [apply clean_components_proper|by apply Clean_abs|].
  intros [rest Hrest]. unfold validateQuarantinePath in Hv. rewrite (Clean_abs _ Habs) in Hv.
  destruct (List.find _ _) eqn:Hf; [by destruct (negb _)|]. clear Hv.
  apply list_elem_of_In in Hp. pose proof (find_none _ _ Hf prefix Hp) as Hno. cbv beta in Hno.
  apply orb_false_iff in Hno as [H1 H2]. rewrite Hrest, Join_prefix in H1, H2 by done.
  subst prefix. destruct rest as [|r rest]; [by rewrite str_eqb_refl in H1|].
  assert ("/" +:+ Join comps "/" +:+ "/" +:+ Join (r :: rest) "/" =
    (("/" +:+ Join comps "/") +:+ "/") +:+ Join (r :: rest) "/") as Ha by by rewrite !str_app_assoc.
  by rewrite Ha, HasPrefix_app in H2.
Qed.

(** ** Witnesses *)

Definition payload_parse (s : string) : option json :=
  if str_eqb s "kill" then Some (JObj [("target", JObj [("pid", JInt 42)]); ("signal", JStr "kill")])
  else if str_eqb s "fw" then Some (JObj [("ip", JStr "10.0.0.1"); ("port", JInt 443)])
  else if str_eqb s "sh" then Some (JObj [("command", JStr "ls -l /tmp"); ("timeout_seconds", JInt 900)])
  else if str_eqb s "inv" then Some (JObj [])
  else if str_eqb s "q" then Some (JObj [("path", JStr "/home/u/../v/x")])
  else None.
Definition any_ip (s : string) : option (string * bool) := Some (s, false).
Definition zeros64 (s : string) : string := String.concat "" (repeat "0" 64).
Definition first_arg (l : list string) : string := hd "" l.

Lemma parsers_validate_witness :
  (∀ p, parseKillProcessPayload payload_parse "kill" = inr p → valid_kill p) ∧
  parseKillProcessPayload payload_parse "kill" = inr (Build_killProcessPayload 42 "" false 9 "SIGKILL" false) ∧
  fw_comment <$> (match parseFirewallPayload payload_parse any_ip zeros64 "fw" with inr p => Some p | _ => None end)
    = Some "seagull_block_000000000000" ∧
  sc_arguments <$> (match parseShellCommandPayload payload_parse first_arg "sh" with inr p => Some p | _ => None end)
    = Some ["ls"; "-l"; "/tmp"].
Proof.
  split; [|split_and!; vm_compute; reflexivity].
  apply (parsers_validate payload_parse any_ip zeros64 first_arg ltac:(reflexivity) "kill").
Defined.

Lemma quarantine_path_protected_witness :
  Clean "/home/u/../v/x" = "/home/v/x" ∧
  ¬ ["var"; "lib"; "seagull"] `prefix_of` clean_components true "/home/u/../v/x".
Proof.
  split; [reflexivity|].
  apply (quarantine_path_protected "/home/u/../v/x" "/var/lib/seagull"); [reflexivity..| |reflexivity|done].
  do 11 right. by left.
Defined.
