(* ===== verification/Protocol.v ===== *)
(** * Protocol: the wire contract (protocol/)

  Version negotiation and the decoding of incompatibility responses
  (protocol/version.go, protocol/error.go), agent profiles
  (protocol/profile.go) and response actions (protocol/response_action.go).
  A Go pointer is an [option]; a Go error value is an inductive type with one
  constructor per message. *)

From S2P Require Import Prelude GoStr GoJson.
From stdpp Require Import pretty.

Local Open Scope Z_scope.
Local Open Scope go_scope.

(** ** Versions (version.go) *)

Definition Version : Z := 1.
Definition MinSupportedServer : Z := 1.
Definition MaxSupportedServer : Z := 1.
Definition EventSchemaVersion : Z := 1.
Definition MinEventSchema : Z := 1.
Definition MaxEventSchema : Z := 1.

Record Descriptor := {
  d_ProtocolVersion : Z;
  d_MinSupported : Z;
  d_MaxSupported : Z;
  d_EventSchemaVersion : Z;
  d_MinEventSchema : Z;
  d_MaxEventSchema : Z;
  d_ServerTime : string;
}.

Inductive IncompatibilityKind :=
  | IncompatibleNone                 (** the empty string *)
  | IncompatibleProtocolTooOld
  | IncompatibleProtocolTooNew
  | IncompatibleEventSchema
  | IncompatibleServerAdvertise.

#[export] Instance kind_eq_dec : EqDecision IncompatibilityKind.
Proof. solve_decision. Defined.

Record Incompatibility := {
  i_Kind : IncompatibilityKind;
  i_AgentProtocol : Z;
  i_ServerProtocol : Z;
  i_ServerMin : Z;
  i_ServerMax : Z;
  i_AgentEventSchema : Z;
  i_ServerEventSchema : Z;
  i_ServerMinEvent : Z;
  i_ServerMaxEvent : Z;
  i_HTTPStatus : Z;
  i_Detail : string;
  i_ServerResponse : string;
}.

Record Negotiation := {
  n_ProtocolVersion : Z;
  n_EventSchemaVersion : Z;
  n_Degraded : bool;
  n_Notes : list string;
}.

Definition LocalDescriptor : Descriptor := {|
  d_ProtocolVersion := Version;
  d_MinSupported := MinSupportedServer;
  d_MaxSupported := MaxSupportedServer;
  d_EventSchemaVersion := EventSchemaVersion;
  d_MinEventSchema := MinEventSchema;
  d_MaxEventSchema := MaxEventSchema;
  d_ServerTime := "";
|}.

(** The composite literals of [Negotiate]: every one of them fills the agent's
    side from the local descriptor and leaves the HTTP fields zero. *)
Definition incompatibility (kind : IncompatibilityKind) (server : Descriptor)
    (smin smax ses smine smaxe : Z) (detail : string) : Incompatibility := {|
  i_Kind := kind;
  i_AgentProtocol := d_ProtocolVersion LocalDescriptor;
  i_ServerProtocol := d_ProtocolVersion server;
  i_ServerMin := smin;
  i_ServerMax := smax;
  i_AgentEventSchema := d_EventSchemaVersion LocalDescriptor;
  i_ServerEventSchema := ses;
  i_ServerMinEvent := smine;
  i_ServerMaxEvent := smaxe;
  i_HTTPStatus := 0;
  i_Detail := detail;
  i_ServerResponse := "";
|}.

(** The supported range after the fallback to the single advertised version. *)
Definition protocol_range (server : Descriptor) : Z * Z :=
  if (d_MinSupported server <=? 0) && (d_MaxSupported server <=? 0)
     && (0 <? d_ProtocolVersion server)
  then (d_ProtocolVersion server, d_ProtocolVersion server)
  else (d_MinSupported server, d_MaxSupported server).

(** (schema, min, max) after the fallbacks of the event-schema fields. *)
Definition event_range (server : Descriptor) : Z * Z * Z :=
  let ses := d_EventSchemaVersion server in
  if (d_MinEventSchema server <=? 0) && (d_MaxEventSchema server <=? 0)
  then let ses := if ses <=? 0 then EventSchemaVersion else ses in (ses, ses, ses)
  else (ses, d_MinEventSchema server, d_MaxEventSchema server).

Definition Negotiate (server : option Descriptor) : Negotiation + Incompatibility :=
  let local := LocalDescriptor in
  match server with
  | None => inl {|
      n_ProtocolVersion := d_ProtocolVersion local;
      n_EventSchemaVersion := d_EventSchemaVersion local;
      n_Degraded := true;
      n_Notes := ["server did not advertise a protocol descriptor; assuming protocol 1"] |}
  | Some server =>
    let '(serverMin, serverMax) := protocol_range server in
    if (serverMin <=? 0) || (serverMax <=? 0) || (serverMax <? serverMin) then
      inr (incompatibility IncompatibleServerAdvertise server
        (d_MinSupported server) (d_MaxSupported server) 0 0 0
        "server advertised an unusable supported protocol range")
    else if d_ProtocolVersion local <? serverMin then
      inr (incompatibility IncompatibleProtocolTooOld server serverMin serverMax 0 0 0
        ("agent speaks protocol " +:+ pretty (d_ProtocolVersion local) +:+
         " but the server requires at least " +:+ pretty serverMin +:+ "; upgrade the agent"))
    else if serverMax <? d_ProtocolVersion local then
      inr (incompatibility IncompatibleProtocolTooNew server serverMin serverMax 0 0 0
        ("agent speaks protocol " +:+ pretty (d_ProtocolVersion local) +:+
         " but the server supports at most " +:+ pretty serverMax +:+ "; upgrade the server"))
    else
    let '(ses, smine, smaxe) := event_range server in
    if (smine <=? 0) || (smaxe <=? 0) || (smaxe <? smine) then
      inr (incompatibility IncompatibleServerAdvertise server serverMin serverMax ses
        (d_MinEventSchema server) (d_MaxEventSchema server)
        "server advertised an unusable supported event schema range")
    else if (0 <? ses) && ((ses <? smine) || (smaxe <? ses)) then
      inr (incompatibility IncompatibleServerAdvertise server serverMin serverMax ses smine smaxe
        "server event schema version is outside its advertised supported range")
    else if (MaxEventSchema <? smine) || (smaxe <? MinEventSchema) then
      inr (incompatibility IncompatibleEventSchema server serverMin serverMax ses smine smaxe
        ("agent supports event schemas " +:+ pretty MinEventSchema +:+ ".." +:+
         pretty MaxEventSchema +:+ " but the server accepts " +:+ pretty smine +:+ ".." +:+
         pretty smaxe))
    else
    let negotiated :=
      if smaxe <? d_EventSchemaVersion local then smaxe else d_EventSchemaVersion local in
    let degraded := negotiated <? d_EventSchemaVersion local in
    inl {|
      n_ProtocolVersion := d_ProtocolVersion local;
      n_EventSchemaVersion := negotiated;
      n_Degraded := degraded;
      n_Notes := if degraded
        then ["emitting event schema " +:+ pretty negotiated +:+
              " because the server accepts at most " +:+ pretty smaxe]
        else [] |}
  end.

(** The keys of [reported] whose trimmed name is not [known], sorted. *)
Definition UnknownCapabilities (reported : gmap string json) (known : list string) : list string :=
  merge_sort String.le
    (filter (λ name, TrimSpace name ∉ known) (elements (dom reported))).

(** ** Incompatibility responses (error.go) *)

Record ErrorResponse := {
  er_Error : string;
  er_Kind : string;
  er_AgentProtocolVersion : Z;
  er_ServerProtocolVersion : Z;
  er_MinSupported : Z;
  er_MaxSupported : Z;
  er_AgentEventSchemaVersion : Z;
  er_EventSchemaVersion : Z;
  er_MinEventSchema : Z;
  er_MaxEventSchema : Z;
  er_Message : string;
}.

Definition zero_ErrorResponse : ErrorResponse := Build_ErrorResponse "" "" 0 0 0 0 0 0 0 0 "".

Record errorEnvelope := { ee_ErrorResponse : ErrorResponse; ee_Detail : option json }.

Definition fields_ErrorResponse : fields ErrorResponse := [
  ("error", on_field er_Error (λ x '(Build_ErrorResponse _ b c d e f g h i j k),
     Build_ErrorResponse x b c d e f g h i j k) dec_string);
  ("kind", on_field er_Kind (λ x '(Build_ErrorResponse a _ c d e f g h i j k),
     Build_ErrorResponse a x c d e f g h i j k) dec_string);
  ("agent_protocol_version", on_field er_AgentProtocolVersion
     (λ x '(Build_ErrorResponse a b _ d e f g h i j k),
     Build_ErrorResponse a b x d e f g h i j k) dec_int);
  ("server_protocol_version", on_field er_ServerProtocolVersion
     (λ x '(Build_ErrorResponse a b c _ e f g h i j k),
     Build_ErrorResponse a b c x e f g h i j k) dec_int);
  ("min_supported", on_field er_MinSupported (λ x '(Build_ErrorResponse a b c d _ f g h i j k),
     Build_ErrorResponse a b c d x f g h i j k) dec_int);
  ("max_supported", on_field er_MaxSupported (λ x '(Build_ErrorResponse a b c d e _ g h i j k),
     Build_ErrorResponse a b c d e x g h i j k) dec_int);
  ("agent_event_schema_version", on_field er_AgentEventSchemaVersion
     (λ x '(Build_ErrorResponse a b c d e f _ h i j k),
     Build_ErrorResponse a b c d e f x h i j k) dec_int);
  ("event_schema_version", on_field er_EventSchemaVersion
     (λ x '(Build_ErrorResponse a b c d e f g _ i j k),
     Build_ErrorResponse a b c d e f g x i j k) dec_int);
  ("min_event_schema", on_field er_MinEventSchema
     (λ x '(Build_ErrorResponse a b c d e f g h _ j k),
     Build_ErrorResponse a b c d e f g h x j k) dec_int);
  ("max_event_schema", on_field er_MaxEventSchema
     (λ x '(Build_ErrorResponse a b c d e f g h i _ k),
     Build_ErrorResponse a b c d e f g h i x k) dec_int);
  ("message", on_field er_Message (λ x '(Build_ErrorResponse a b c d e f g h i j _),
     Build_ErrorResponse a b c d e f g h i j x) dec_string)].

Definition fields_errorEnvelope : fields errorEnvelope :=
  map (λ f, (f.1, on_field ee_ErrorResponse (λ r s, Build_errorEnvelope r (ee_Detail s)) f.2))
    fields_ErrorResponse ++
  [("detail", on_field ee_Detail (λ d s, Build_errorEnvelope (ee_ErrorResponse s) d) dec_raw)].

Definition parseIncompatibilityKind (value : string) : IncompatibilityKind :=
  let v := TrimSpace value in
  if str_eqb v "protocol_version_too_old" then IncompatibleProtocolTooOld
  else if str_eqb v "protocol_version_too_new" then IncompatibleProtocolTooNew
  else if str_eqb v "event_schema_unsupported" then IncompatibleEventSchema
  else if str_eqb v "server_descriptor_invalid" then IncompatibleServerAdvertise
  else IncompatibleNone.

Definition StatusUpgradeRequired : Z := 426.

Section decode.
  Variable parse : string → option json.

(** The response proper: the nested [detail] object wins over the envelope,
    a [detail] string is the message. *)
Definition select_response (envelope : errorEnvelope) : ErrorResponse :=
  match ee_Detail envelope with
  | None => ee_ErrorResponse envelope
  | Some detail =>
    match dec_struct fields_ErrorResponse detail zero_ErrorResponse with
    | Some nested => nested
    | None =>
      match dec_string detail "" with
      | Some message =>
        let '(Build_ErrorResponse a b c d e f g h i j _) := ee_ErrorResponse envelope in
        Build_ErrorResponse a b c d e f g h i j message
      | None => ee_ErrorResponse envelope
      end
    end
  end.

Definition classify_kind (response : ErrorResponse) (agentProtocol agentEventSchema : Z)
    : IncompatibilityKind :=
  let kind := parseIncompatibilityKind (er_Kind response) in
  let kind :=
    if bool_decide (kind = IncompatibleNone) then
      if (0 <? er_MinSupported response) && (agentProtocol <? er_MinSupported response)
      then IncompatibleProtocolTooOld
      else if (0 <? er_MaxSupported response) && (er_MaxSupported response <? agentProtocol)
      then IncompatibleProtocolTooNew
      else if (0 <? er_MinEventSchema response)
              && (agentEventSchema <? er_MinEventSchema response)
      then IncompatibleEventSchema
      else if (0 <? er_MaxEventSchema response)
              && (er_MaxEventSchema response <? agentEventSchema)
      then IncompatibleEventSchema
      else kind
    else kind in
  if bool_decide (kind = IncompatibleNone) then IncompatibleServerAdvertise else kind.

Definition DecodeIncompatibility (status : Z) (body : string) : option Incompatibility :=
    if negb (status =? StatusUpgradeRequired) then None
    else match unmarshal parse (dec_struct fields_errorEnvelope)
                 (Build_errorEnvelope zero_ErrorResponse None) body with
    | None => Some {|
        i_Kind := IncompatibleServerAdvertise;
        i_AgentProtocol := Version;
        i_ServerProtocol := 0; i_ServerMin := 0; i_ServerMax := 0;
        i_AgentEventSchema := 0; i_ServerEventSchema := 0;
        i_ServerMinEvent := 0; i_ServerMaxEvent := 0;
        i_HTTPStatus := status;
        i_Detail := "server rejected the agent protocol without a valid structured response";
        i_ServerResponse := TrimSpace body |}
    | Some envelope =>
      let response := select_response envelope in
      let agentProtocol :=
        if er_AgentProtocolVersion response <=? 0 then Version
        else er_AgentProtocolVersion response in
      let agentEventSchema :=
        if er_AgentEventSchemaVersion response <=? 0 then er_EventSchemaVersion response
        else er_AgentEventSchemaVersion response in
      let agentEventSchema :=
        if agentEventSchema <=? 0 then EventSchemaVersion else agentEventSchema in
      let detail := TrimSpace (er_Message response) in
      let detail :=
        if is_empty detail
        then "server rejected protocol " +:+ pretty agentProtocol +:+
             "; supported protocol range is " +:+ pretty (er_MinSupported response) +:+ ".." +:+
             pretty (er_MaxSupported response)
        else detail in
      Some {|
        i_Kind := classify_kind response agentProtocol agentEventSchema;
        i_AgentProtocol := agentProtocol;
        i_ServerProtocol := er_ServerProtocolVersion response;
        i_ServerMin := er_MinSupported response;
        i_ServerMax := er_MaxSupported response;
        i_AgentEventSchema := agentEventSchema;
        i_ServerEventSchema := er_EventSchemaVersion response;
        i_ServerMinEvent := er_MinEventSchema response;
        i_ServerMaxEvent := er_MaxEventSchema response;
        i_HTTPStatus := status;
        i_Detail := detail;
        i_ServerResponse := TrimSpace body |}
    end.
End decode.

(** ** Profiles (profile.go) *)

Definition ProfileSensor : string := "sensor".
Definition ProfileManaged : string := "managed".

Definition NormalizeProfile (value : string) : string :=
  if str_eqb (norm value) ProfileManaged then ProfileManaged else ProfileSensor.

Definition ProfileAllowsResponseActions (profile : string) : bool :=
  str_eqb (NormalizeProfile profile) ProfileManaged.

(** ** Response actions (response_action.go) *)

Record ResponseAction := {
  ra_ID : Z;
  ra_ActionType : string;
  ra_AgentID : string;
  ra_Status : string;
  ra_Payload : string;
  ra_RequestedAt : time;
  ra_ExpiresAt : option time;
}.

#[export] Instance response_action_eq_dec : EqDecision ResponseAction.
Proof. solve_decision. Defined.

Inductive action_error :=
  | InvalidID | EmptyActionType | EmptyAgentID | EmptyStatus
  | UnsupportedStatus (status : string) | EmptyRequestedAt.

#[export] Instance action_error_eq_dec : EqDecision action_error.
Proof. solve_decision. Defined.

(** [Normalize] rewrites its receiver: the result is the rewritten action or
    the error. *)
Definition Normalize (a : ResponseAction) : action_error + ResponseAction :=
  let actionType := norm (ra_ActionType a) in
  let agentID := TrimSpace (ra_AgentID a) in
  let status := norm (ra_Status a) in
  if ra_ID a <=? 0 then inl InvalidID
  else if is_empty actionType then inl EmptyActionType
  else if is_empty agentID then inl EmptyAgentID
  else if is_empty status then inl EmptyStatus
  else if negb (str_eqb status "pending") && negb (str_eqb status "delivered")
  then inl (UnsupportedStatus status)
  else if is_zero_time (ra_RequestedAt a) then inl EmptyRequestedAt
  else inr {|
    ra_ID := ra_ID a;
    ra_ActionType := actionType;
    ra_AgentID := agentID;
    ra_Status := status;
    ra_Payload := if strlen (TrimSpace (ra_Payload a)) =? 0 then "{}" else ra_Payload a;
    ra_RequestedAt := ra_RequestedAt a;
    ra_ExpiresAt := ra_ExpiresAt a;
  |}.

Definition OrchestrationActions : list string :=
  ["collect_triage_bundle"; "refresh_runtime_config"; "trigger_inventory_snapshot";
   "trigger_topology_discovery"].

Definition PrivilegedActions : list string :=
  ["kill_process"; "block_outbound_ip"; "unblock_outbound_ip"; "quarantine_file";
   "run_shell_command"].

Definition AllActions : list string :=
  merge_sort String.le (OrchestrationActions ++ PrivilegedActions).

Definition SupportedActions (profile : string) : list string :=
  if negb (ProfileAllowsResponseActions profile) then [] else AllActions.

Definition IsPrivilegedAction (actionType : string) : bool :=
  str_in (norm actionType) PrivilegedActions.

Definition IsKnownAction (actionType : string) : bool :=
  str_in (norm actionType) AllActions.

(** ** What negotiation promises *)

Definition valid_range (lo hi : Z) : Prop := 1 <= lo <= hi.

(** The server's windows, after the fallbacks, are usable and contain what this
    agent speaks. *)
Definition compatible (server : Descriptor) : Prop :=
  let '(lo, hi) := protocol_range server in
  let '(schema, elo, ehi) := event_range server in
  valid_range lo hi ∧ lo <= Version <= hi ∧
  valid_range elo ehi ∧ (0 < schema → elo <= schema <= ehi) ∧
  elo <= MaxEventSchema ∧ MinEventSchema <= ehi.

(** What [Negotiate] returns for a compatible server. *)
Definition agreed : Negotiation := {|
  n_ProtocolVersion := Version;
  n_EventSchemaVersion := EventSchemaVersion;
  n_Degraded := false;
  n_Notes := [] |}.

(** The reason an [Incompatibility] gives, as a condition on the server. *)
Definition incompatibility_reason (server : Descriptor) (kind : IncompatibilityKind) : Prop :=
  let '(lo, hi) := protocol_range server in
  let '(schema, elo, ehi) := event_range server in
  match kind with
  | IncompatibleNone => False
  | IncompatibleProtocolTooOld => valid_range lo hi ∧ Version < lo
  | IncompatibleProtocolTooNew => valid_range lo hi ∧ hi < Version
  | IncompatibleEventSchema =>
      lo <= Version <= hi ∧ valid_range elo ehi ∧ (MaxEventSchema < elo ∨ ehi < MinEventSchema)
  | IncompatibleServerAdvertise =>
      ¬ valid_range lo hi ∨
      lo <= Version <= hi ∧ (¬ valid_range elo ehi ∨ 0 < schema ∧ ¬ elo <= schema <= ehi)
  end.

Ltac orb_cases :=
  repeat match goal with
  | H : _ || _ = true |- _ => apply orb_true_iff in H as [H|H]
  | H : _ && _ = false |- _ => apply andb_false_iff in H as [H|H]
  end; zbool.

Lemma Negotiate_cases (s : Descriptor) :
  match Negotiate (Some s) with
  | inl n => compatible s ∧ n = agreed
  | inr i => ¬ compatible s ∧ incompatibility_reason s (i_Kind i) ∧ i_HTTPStatus i = 0
  end.
Proof.
  unfold Negotiate, compatible, incompatibility_reason, valid_range, agreed, Version,
    MaxEventSchema, MinEventSchema, EventSchemaVersion.
  destruct (protocol_range s) as [lo hi], (event_range s) as [[e elo] ehi]. simpl.
  repeat (case_match; simpl); simplify_eq/=; orb_cases;
    unfold Version, MaxEventSchema, MinEventSchema, EventSchemaVersion in *;
    try lia; intuition (done || lia).
Qed.

(** C13: a server descriptor is accepted exactly when its protocol window
    contains the agent's version and its event-schema window is usable and
    meets the agent's; the agreed versions are then the agent's own, and
    nothing is degraded. *)
Theorem Negotiate_accepts_iff_compatible (s : Descriptor) (n : Negotiation) :
  Negotiate (Some s) = inl n ↔ compatible s ∧ n = agreed.
Proof.
  pose proof (Negotiate_cases s) as H.
  destruct (Negotiate (Some s)) as [m|i]; split; intros Hn; simplify_eq; try done.
  - destruct H as [_ ->], Hn as [_ ->]. done.
  - by destruct H, Hn.
Qed.

(** A rejection names the window that does not fit, and never carries an
    HTTP status (which is what keeps a pending enrollment on disk). *)
Theorem Negotiate_rejection_reason (s : Descriptor) (i : Incompatibility) :
  Negotiate (Some s) = inr i →
  ¬ compatible s ∧ incompatibility_reason s (i_Kind i) ∧ i_HTTPStatus i = 0.
Proof.
  pose proof (Negotiate_cases s) as H. intros Hs. by rewrite Hs in H.
Qed.

Definition old_server : Descriptor := Build_Descriptor 3 2 3 1 0 0 "".

Lemma Negotiate_rejection_reason_witness :
  ∃ i, Negotiate (Some old_server) = inr i ∧ i_Kind i = IncompatibleProtocolTooOld ∧
  ¬ compatible old_server ∧ incompatibility_reason old_server (i_Kind i) ∧ i_HTTPStatus i = 0.
Proof.
  eexists. split; [reflexivity|]. split; [reflexivity|].
  apply (Negotiate_rejection_reason old_server). reflexivity.
Defined.

Lemma classify_kind_not_none r a b : classify_kind r a b ≠ IncompatibleNone.
Proof. unfold classify_kind. repeat case_bool_decide; go_cases; done. Qed.

Lemma append_nonempty s t : s ≠ "" → s +:+ t ≠ "".
Proof. by destruct s. Qed.

(** HTTP 426 and nothing else decodes to an incompatibility, whatever the
    body holds; the result names one of the four kinds, carries the status, a
    usable agent version and a non-empty detail. *)
Theorem DecodeIncompatibility_spec (parse : string → option json) (status : Z) (body : string) :
  match DecodeIncompatibility parse status body with
  | None => status ≠ 426
  | Some i => status = 426 ∧ i_HTTPStatus i = 426 ∧ i_Kind i ≠ IncompatibleNone ∧
      0 < i_AgentProtocol i ∧ i_Detail i ≠ "" ∧ i_ServerResponse i = TrimSpace body
  end.
Proof.
  unfold DecodeIncompatibility, StatusUpgradeRequired.
  destruct (status =? 426) eqn:Hs; simpl; zbool; [subst|done].
  destruct (unmarshal _ _ _ _) as [env|]; simpl; [|done].
  repeat split; [apply classify_kind_not_none| |].
  - case_match; zbool; unfold Version; lia.
  - destruct (is_empty _) eqn:He; [by apply append_nonempty|by apply is_empty_false].
Qed.

(** A normalised action: every text field is in canonical form and the action
    is one the agent may stage. *)
Definition canonical (a : ResponseAction) : Prop :=
  0 < ra_ID a ∧
  norm (ra_ActionType a) = ra_ActionType a ∧ ra_ActionType a ≠ "" ∧
  TrimSpace (ra_AgentID a) = ra_AgentID a ∧ ra_AgentID a ≠ "" ∧
  norm (ra_Status a) = ra_Status a ∧ (ra_Status a = "pending" ∨ ra_Status a = "delivered") ∧
  ra_RequestedAt a ≠ 0 ∧ TrimSpace (ra_Payload a) ≠ "".

Lemma strlen_zero s : (strlen s =? 0) = true ↔ s = "".
Proof. unfold strlen. rewrite Z.eqb_eq. destruct s; simpl; split; try done; lia. Qed.

Lemma Normalize_inv a b : Normalize a = inr b → canonical b ∧ ra_ID b = ra_ID a ∧
  ra_ExpiresAt b = ra_ExpiresAt a ∧ ra_RequestedAt b = ra_RequestedAt a.
Proof.
  unfold Normalize, canonical, is_zero_time. intros Hn. go_cases.
  all: repeat match goal with
  | H : is_empty _ = false |- _ => apply is_empty_false in H
  | H : _ && _ = false |- _ => apply andb_false_iff in H
  end.
  all: rewrite !norm_idem, TrimSpace_idem; split_and!; try done.
  1,2: match goal with H : _ ∨ _ |- _ => destruct H as [Hs|Hs] end;
      apply negb_false_iff, str_eqb_eq in Hs; auto.
  intros Hp. apply strlen_zero, Z.eqb_eq in Hp. congruence.
Qed.

Lemma Normalize_canonical a : canonical a → Normalize a = inr a.
Proof.
  intros (Hid & Ht & Ht' & Hag & Hag' & Hs & Hs' & Hr & Hp). unfold Normalize, is_zero_time.
  rewrite Ht, Hag, Hs.
  destruct (ra_ID a <=? 0) eqn:E1; [zbool; lia|].
  apply is_empty_false in Ht', Hag'. rewrite Ht', Hag'.
  assert (is_empty (ra_Status a) = false) as -> by (by destruct Hs' as [-> | ->]).
  assert (negb (str_eqb (ra_Status a) "pending") && negb (str_eqb (ra_Status a) "delivered")
          = false) as -> by (by destruct Hs' as [-> | ->]).
  destruct (ra_RequestedAt a =? 0) eqn:E2; [zbool; lia|].
  destruct (strlen (TrimSpace (ra_Payload a)) =? 0) eqn:E3.
  - by apply strlen_zero in E3.
  - by destruct a.
Qed.

(** A normalised action is canonical, keeps its id and deadline, and is a
    fixed point of [Normalize] (so a journal record written by [Begin] passes
    the validation of every later read). *)
Theorem Normalize_canonical_fixpoint (a b : ResponseAction) :
  Normalize a = inr b →
  canonical b ∧ ra_ID b = ra_ID a ∧ ra_ExpiresAt b = ra_ExpiresAt a ∧ Normalize b = inr b.
Proof.
  intros H. destruct (Normalize_inv _ _ H) as (Hc & Hid & Hexp & _).
  split_and!; [done..|]. by apply Normalize_canonical.
Qed.

Definition sample_action : ResponseAction :=
  Build_ResponseAction 7 " Kill_Process " " agent-1 " "PENDING" "" 5 (Some 9).

Lemma Normalize_canonical_fixpoint_witness :
  ∃ b, Normalize sample_action = inr b ∧ ra_ActionType b = "kill_process" ∧
  canonical b ∧ ra_ID b = ra_ID sample_action ∧
  ra_ExpiresAt b = ra_ExpiresAt sample_action ∧ Normalize b = inr b.
Proof.
  eexists. split; [vm_compute; reflexivity|]. split; [reflexivity|].
  apply (Normalize_canonical_fixpoint sample_action). vm_compute. reflexivity.
Defined.
