(* ===== verification/ExecCollect.v ===== *)
(** * ExecCollect: what an action reports (internal/responseactions/executor.go)

    The values of an action's result, the collectors of the triage bundle and
    of the inventory snapshot on the text of the files they read, the listing
    of nft rules, and redaction.  [fmt_time] is [time.Time.Format(RFC3339)]. *)

From S2P Require Import Prelude GoStr GoText GoJson Protocol ExecPayload.
From Stdlib Require Import Ascii NArith.

Local Open Scope Z_scope.
Local Open Scope go_scope.

(** ** Values of type [interface{}] *)

(** [VStrs], [VMaps] and [VList] are [[]string], [[]map[string]interface{}] and
    [[]interface{}]; a map is a list of its members, each key once. *)
#[warnings="-register-all"]
Inductive gval :=
  | VNil
  | VBool (b : bool)
  | VInt (z : Z)
  | VStr (s : string)
  | VStrs (l : list string)
  | VMap (kvs : list (string * gval))
  | VMaps (l : list (list (string * gval)))
  | VList (l : list gval).

Definition gmapv : Type := list (string * gval).

Fixpoint vset (k : string) (v : gval) (m : gmapv) : gmapv :=
  match m with
  | [] => [(k, v)]
  | (k', v') :: m => if str_eqb k k' then (k, v) :: m else (k', v') :: vset k v m
  end.

(** [out[k] = v] under a condition. *)
Definition vset_if (b : bool) (k : string) (v : gval) (m : gmapv) : gmapv :=
  if b then vset k v m else m.

Fixpoint vget (k : string) (m : gmapv) : option gval :=
  match m with
  | [] => None
  | (k', v) :: m => if str_eqb k k' then Some v else vget k m
  end.

(** ** Redaction *)

Definition sensitive_key (k : string) : bool :=
  let lk := ToLower (TrimSpace k) in
  Contains lk "secret" || Contains lk "token" || Contains lk "password" || Contains lk "credential" ||
  (Contains lk "key" && negb (str_eqb lk "keys")).

Fixpoint redactAny (v : gval) : gval :=
  match v with
  | VMap kvs => VMap (map (λ kv, (kv.1, if sensitive_key kv.1 then VStr "***" else redactAny kv.2)) kvs)
  | VList l => VList (map redactAny l)
  | _ => v
  end.

(** ** Lines of a file *)

Definition newline : ascii := ascii_of_nat 10.
Definition carriage : ascii := ascii_of_nat 13.

Definition drop_cr (l : list ascii) : list ascii :=
  match reverse l with a :: r => if Ascii.eqb a carriage then reverse r else l | [] => l end.

(** [bufio.Scanner]: the lines without their end; an empty last line is none, a
    line of 64 KiB or more ends the scan. *)
Fixpoint scan_list (ls : list (list ascii)) : list string :=
  match ls with
  | [] => []
  | [[]] => []
  | l :: ls => if 65536 <=? Z.of_nat (length l) then [] else of_chars (drop_cr l) :: scan_list ls
  end.
Definition scan_lines (s : string) : list string := scan_list (split_chars newline (to_chars s)).

(** ** Collectors *)

Record iface := { if_Name : string; if_MTU : Z; if_Flags : string; if_Addrs : list string }.

Fixpoint collect_ips (n : nat) (addrs : list string) : list string :=
  match n, addrs with
  | S n, a :: addrs => TrimSpace a :: collect_ips n addrs
  | _, _ => []
  end.

Fixpoint collect_ifaces (n : nat) (interfaces : list iface) : list gmapv :=
  match n, interfaces with
  | S n', i :: rest =>
    if is_empty (TrimSpace (if_Name i)) then collect_ifaces n rest else
    [("name", VStr (if_Name i)); ("mtu", VInt (if_MTU i)); ("flags", VStr (if_Flags i));
     ("ips", VStrs (collect_ips 8 (if_Addrs i)))] :: collect_ifaces n' rest
  | _, _ => []
  end.

Definition collectHostSnapshot (goos goarch hostname : string) (interfaces : list iface) : gmapv := [
  ("hostname", VStr hostname); ("goos", VStr goos); ("goarch", VStr goarch);
  ("interfaces", VMaps (collect_ifaces 32 interfaces))].

(** An entry of /proc: its name, whether it is a directory, and the contents of
    [comm], [status] and [cmdline], if they can be read. *)
Record proc := {
  pr_name : string; pr_isdir : bool; pr_comm : option string; pr_status : option string;
  pr_cmdline : option string }.

(** The value of the last line with a prefix. *)
Fixpoint last_field (prefix : string) (lines : list string) (acc : string) : string :=
  match lines with
  | [] => acc
  | l :: lines =>
    last_field prefix lines (if HasPrefix l prefix then TrimSpace (TrimPrefix l prefix) else acc)
  end.

Record proc_row := { pw_pid : Z; pw_name : string; pw_state : string; pw_uid : string }.

Definition proc_row_of (e : proc) : option proc_row :=
  if negb (pr_isdir e) then None else
  match Atoi (pr_name e) with
  | Some pid =>
    if pid <=? 0 then None else
    let lines := Split (default "" (pr_status e)) newline in
    Some {| pw_pid := pid; pw_name := TrimSpace (default "" (pr_comm e));
            pw_state := last_field "State:" lines ""; pw_uid := last_field "Uid:" lines "" |}
  | None => None
  end.

Definition row_map (r : proc_row) : gmapv := [
  ("pid", VInt (pw_pid r)); ("name", VStr (pw_name r)); ("state", VStr (pw_state r));
  ("uid", VStr (pw_uid r))].

(** By falling pid. *)
Definition row_le (a b : proc_row) : Prop := pw_pid b <= pw_pid a.
#[export] Instance row_le_dec : RelDecision row_le.
Proof. intros a b. unfold row_le. apply _. Defined.

(** [entries] is [None] when /proc cannot be read. *)
Definition collectProcessSnapshot (entries : option (list proc)) (limit : Z) : list gmapv :=
  match entries with
  | None => []
  | Some entries =>
    let out := merge_sort row_le (omap proc_row_of entries) in
    map row_map (if limit <? Z.of_nat (length out) then take (Z.to_nat limit) out else out)
  end.

Definition dotted (b : list Z) : string :=
  match b with
  | [b0; b1; b2; b3] => Itoa b3 +:+ "." +:+ Itoa b2 +:+ "." +:+ Itoa b1 +:+ "." +:+ Itoa b0
  | _ => ""
  end.

Definition decodeProcAddress (raw : string) : string * Z :=
  match Split raw ":"%char with
  | [addr; port] =>
    let addrHex := TrimSpace addr in
    let portN := uint16_hex 0 (to_chars (TrimSpace port)) in
    match (if strlen addrHex =? 8 then hex_bytes (to_chars addrHex) else None) with
    | Some b => (dotted b, portN)
    | None => (addrHex, portN)
    end
  | _ => (raw, 0)
  end.

Definition table_row (proto : string) (fs : list string) : gmapv :=
  let '(localIP, localPort) := decodeProcAddress (nth 1 fs "") in
  let '(remoteIP, remotePort) := decodeProcAddress (nth 2 fs "") in
  [("proto", VStr proto); ("local_ip", VStr localIP); ("local_port", VInt localPort);
   ("remote_ip", VStr remoteIP); ("remote_port", VInt remotePort);
   ("state", VStr (nth 3 fs "")); ("inode", VStr (nth 9 fs ""))].

(** [lineNo] is the number of lines read before; [room] rows may be added. *)
Fixpoint table_rows (proto : string) (lines : list string) (lineNo room : Z) : list gmapv :=
  match lines with
  | [] => []
  | l :: lines =>
    let line := TrimSpace l in
    let fs := Fields line in
    if is_empty line || (lineNo =? 0) && Contains (ToLower line) "local_address" ||
       (Z.of_nat (length fs) <? 10)
    then table_rows proto lines (lineNo + 1) room
    else table_row proto fs :: (if room <=? 1 then [] else table_rows proto lines (lineNo + 1) (room - 1))
  end.

Definition parseProcNetTable (content : option string) (proto : string) (limit : Z) : list gmapv :=
  match content with
  | None => []
  | Some content => table_rows proto (scan_lines content) 0 limit
  end.

Definition auth_line (l : string) : bool :=
  let lc := ToLower l in
  negb (is_empty l) && (Contains lc "ssh" || Contains lc "sudo" || Contains lc "auth").

(** The queue of the last [limit] matching lines. *)
Fixpoint auth_queue (limit : Z) (lines : list string) (q : list string) : list string :=
  match lines with
  | [] => q
  | l :: lines =>
    let line := TrimSpace l in
    if negb (auth_line line) then auth_queue limit lines q else
    let q := q ++ [line] in
    auth_queue limit lines (if limit <? Z.of_nat (length q) then drop 1 q else q)
  end.

Definition readAuthLog (content : string) (limit : Z) : list string :=
  auth_queue limit (scan_lines content) [].

(** [read] is the content of a file that can be opened. *)
Definition collectAuthLogLines (read : string → option string) (limit : Z) : list string * string :=
  match read "/var/log/auth.log" with
  | Some c => (readAuthLog c limit, "/var/log/auth.log")
  | None =>
    match read "/var/log/secure" with
    | Some c => (readAuthLog c limit, "/var/log/secure")
    | None => ([], "")
    end
  end.

Definition collectNetworkSnapshot (read : string → option string) (limit : Z) (interfaces : list iface)
    : gmapv :=
  let maxRows := clamp limit 1 2000 in
  let table p := VMaps (parseProcNetTable (read ("/proc/net/" +:+ p)) p maxRows) in
  [("interface_count", VInt (Z.of_nat (length interfaces))); ("tcp", table "tcp");
   ("tcp6", table "tcp6"); ("udp", table "udp"); ("udp6", table "udp6")].

(** ** nft listings *)

Definition nftTableName : string := "seagull".
Definition nftChainName : string := "output".
Definition nftFamilyExpr (isV6 : bool) : string := if isV6 then "ip6" else "ip".

Definition parseNftHandle (line : string) : option Z :=
  match after_last line "handle " with
  | None => None
  | Some rest =>
    match Fields (TrimSpace rest) with
    | f :: _ => Atoi f
    | [] => None
    end
  end.

Definition parseNftHandles (listOutput comment : string) : list Z :=
  let needle := "comment " +:+ quoted comment in
  omap parseNftHandle (List.filter (λ l, Contains l needle) (Split listOutput newline)).

(** Whether a line is a rule of the payload's address and port under its label. *)
Definition legacy_match (p : firewallPayload) (line : string) : bool :=
  Contains line ("comment " +:+ quoted (fw_legacyComment p)) &&
  Contains line (nftFamilyExpr (fw_isV6 p) +:+ " daddr " +:+ fw_ip p) &&
  (if 0 <? fw_port p then Contains line (fw_protocol p +:+ " dport " +:+ Itoa (fw_port p)) else true).

Definition parseLegacyNftHandles (listOutput : string) (p : firewallPayload) : list Z :=
  if is_empty (fw_legacyComment p) || str_eqb (fw_legacyComment p) (fw_comment p) then [] else
  omap parseNftHandle (List.filter (legacy_match p) (Split listOutput newline)).

Fixpoint unique_ints (seen : list Z) (values : list Z) : list Z :=
  match values with
  | [] => []
  | v :: values => if existsb (Z.eqb v) seen then unique_ints seen values
                   else v :: unique_ints (v :: seen) values
  end.
Definition uniqueInts (values : list Z) : list Z := unique_ints [] values.

Definition isNoMatchingRule (output : string) : bool :=
  let lc := ToLower output in
  Contains lc "matching rule" || Contains lc "bad rule" || Contains lc "no chain".

Definition firewallErr (output err : string) : string :=
  let out := TrimSpace output in
  if is_empty out then err
  else err +:+ ": " +:+ (if 512 <? strlen out then str_take 512 out else out).

(** ** Rules *)

Definition iptablesBinary (isV6 : bool) : string := if isV6 then "ip6tables" else "iptables".

(** A command line: the program and its arguments. *)
Definition buildIptablesRule (p : firewallPayload) (comment op : string) : string * list string :=
  (iptablesBinary (fw_isV6 p),
   [op; "OUTPUT"; "-d"; fw_ip p] ++
   (if is_empty (fw_protocol p) then [] else
      ["-p"; fw_protocol p] ++ (if 0 <? fw_port p then ["--dport"; Itoa (fw_port p)] else [])) ++
   ["-j"; "DROP"; "-m"; "comment"; "--comment"; comment]).

Definition buildNftAddRule (p : firewallPayload) : string * list string :=
  ("nft",
   ["add"; "rule"; "inet"; nftTableName; nftChainName; nftFamilyExpr (fw_isV6 p); "daddr"; fw_ip p] ++
   (if negb (is_empty (fw_protocol p)) && (0 <? fw_port p)
    then [fw_protocol p; "dport"; Itoa (fw_port p)] else []) ++
   ["drop"; "comment"; quoted (fw_comment p)]).

Definition rule_text (cmd : string * list string) : string := cmd.1 +:+ " " +:+ Join cmd.2 " ".

(** ** Output of commands *)

Record boundedOutput := { bo_buffer : string; bo_truncated : bool }.

Definition bounded_write (b : boundedOutput) (data : string) : boundedOutput :=
  let available := maxShellOutputBytes - strlen (bo_buffer b) in
  let '(buffer, available) :=
    if 0 <? available then
      let available := if strlen data <? available then strlen data else available in
      (bo_buffer b +:+ str_take (Z.to_nat available) data, available)
    else (bo_buffer b, available) in
  {| bo_buffer := buffer; bo_truncated := bo_truncated b || (available <? strlen data) |}.

Definition bounded_string (b : boundedOutput) : string :=
  if negb (bo_truncated b) then bo_buffer b
  else bo_buffer b +:+ String newline "[truncated]".

Definition bounded_all (chunks : list string) : boundedOutput :=
  fold_left bounded_write chunks {| bo_buffer := ""; bo_truncated := false |}.

(** ** Redaction is complete *)

(** [x] is the value of a member [k] of a map of [v] that redaction visits. *)
Inductive member : gval → string → gval → Prop :=
  | member_here kvs k x : (k, x) ∈ kvs → member (VMap kvs) k x
  | member_map kvs k' v k x : (k', v) ∈ kvs → member v k x → member (VMap kvs) k x
  | member_list l v k x : v ∈ l → member v k x → member (VList l) k x.

(** Induction over the nested lists. *)
Lemma gval_ind' (P : gval → Prop) :
  (∀ v, match v with VMap _ | VList _ => False | _ => True end → P v) →
  (∀ kvs, Forall (λ kv, P kv.2) kvs → P (VMap kvs)) →
  (∀ l, Forall P l → P (VList l)) → ∀ v, P v.
Proof.
  intros Hleaf Hmap Hlist. fix IH 1. intros [| | | | |kvs| |l]; try by apply Hleaf.
  - apply Hmap. induction kvs as [|[k v] kvs IHl]; constructor; [apply IH|exact IHl].
  - apply Hlist. induction l as [|v l IHl]; constructor; [apply IH|exact IHl].
Qed.

(** Redaction is complete and touches nothing else.  In a redacted value
    every member with a sensitive key, at any depth of maps and lists, is
    masked; redacting again changes nothing; the keys stay; and a value without
    sensitive keys is returned as it is. *)
Theorem redaction_complete v :
  (∀ k x, member (redactAny v) k x → sensitive_key k = true → x = VStr "***") ∧
  redactAny (redactAny v) = redactAny v ∧
  (∀ kvs, v = VMap kvs → ∃ kvs', redactAny v = VMap kvs' ∧ map fst kvs' = map fst kvs) ∧
  ((∀ k x, member v k x → sensitive_key k = false) → redactAny v = v).
Proof.
  split_and!.
  - intros k x Hm. remember (redactAny v) as r eqn:Hr. revert v Hr.
    induction Hm as [kvs k x Hin|kvs k' u k x Hin Hm IH|l u k x Hin Hm IH];
      intros [] [= ->] Hk; apply list_elem_of_fmap in Hin as (y & Hy & _); simplify_eq/=.
    + by rewrite Hk.
    + destruct (sensitive_key y.1); [inversion Hm|by eapply IH].
    + by eapply IH.
  - induction v as [v Hleaf|kvs IH|l IH] using gval_ind'; [by destruct v|..]; simpl; f_equal;
      rewrite map_map; apply map_ext_Forall; eapply Forall_impl; try exact IH; simpl; [|done].
    intros kv Hkv. destruct (sensitive_key kv.1) eqn:E; simpl; rewrite ?E; [done|by f_equal].
  - intros kvs ->. eexists. split; [reflexivity|]. rewrite map_map. by apply map_ext.
  - induction v as [v Hleaf|kvs IH|l IH] using gval_ind'; [by destruct v|..]; simpl; intros Hno; f_equal.
    + rewrite <-(map_id kvs) at 2. apply map_ext_Forall. rewrite Forall_forall in IH |- *.
      intros [k x] Hin. simpl. rewrite (Hno k x) by by apply member_here. f_equal.
      apply (IH (k, x) Hin). intros k' x' Hm. eapply Hno, member_map; [exact Hin|exact Hm].
    + rewrite <-(map_id l) at 2. apply map_ext_Forall. rewrite Forall_forall in IH |- *.
      intros x Hin. apply (IH x Hin). intros k' x' Hm. eapply Hno, member_list; [exact Hin|exact Hm].
Qed.

(** ** Bounded output *)

Lemma maxShellOutputBytes_pos : 0 < maxShellOutputBytes.
Proof. done. Qed.

(** The output kept so far, against everything written. *)
Definition keeps (written : string) (b : boundedOutput) : Prop :=
  bo_buffer b = str_take (Z.to_nat maxShellOutputBytes) written ∧
  bo_truncated b = (maxShellOutputBytes <? strlen written).

Lemma str_take_ge n s : strlen s <= Z.of_nat n → str_take n s = s.
Proof.
  intros Hn. rewrite strlen_chars in Hn. unfold str_take. rewrite take_ge by lia. apply of_to_chars.
Qed.

Lemma str_take_app n s t : strlen s <= Z.of_nat n →
  str_take n (s +:+ t) = s +:+ str_take (n - Z.to_nat (strlen s)) t.
Proof.
  intros Hn. rewrite <-(of_to_chars (s +:+ str_take _ t)). unfold str_take at 1. f_equal.
  rewrite !to_chars_app, to_chars_str_take. rewrite strlen_chars in *.
  rewrite take_app_ge by lia. f_equal. f_equal. lia.
Qed.

Lemma str_take_app_lt n s t : Z.of_nat n <= strlen s → str_take n (s +:+ t) = str_take n s.
Proof.
  intros Hn. rewrite strlen_chars in Hn. unfold str_take. f_equal. rewrite to_chars_app.
  apply take_app_le. lia.
Qed.

Lemma bounded_write_keeps written b data : keeps written b →
  keeps (written +:+ data) (bounded_write b data).
Proof.
  intros [Hb Ht]. set (N := maxShellOutputBytes) in *. pose proof maxShellOutputBytes_pos as HN. fold N in HN.
  assert (Hlen : strlen (bo_buffer b) = Z.min N (strlen written)) by (rewrite Hb, strlen_str_take; lia).
  pose proof (strlen_nonneg written). pose proof (strlen_nonneg data).
  unfold bounded_write, keeps. fold N. rewrite strlen_app.
  destruct (0 <? N - strlen (bo_buffer b)) eqn:Ha; zbool; simpl.
  - assert (strlen written < N) as Hw by lia.
    rewrite str_take_app by lia. rewrite Ht. replace (bo_buffer b) with written.
    2:{ rewrite Hb. symmetry. apply str_take_ge. lia. }
    destruct (strlen data <? N - strlen written) eqn:Hd; zbool.
    + rewrite !str_take_ge by lia. split; [done|]. lia.
    + split; [do 2 f_equal; lia|]. lia.
  - rewrite str_take_app_lt by lia. split; [done|]. rewrite Ht. lia.
Qed.

(** The captured output is the first MiB.  However a command's output is
    split into writes, the buffer holds exactly the first 2^20 bytes of it, the
    rest is dropped, and the result is marked as truncated exactly when
    something was dropped. *)
Theorem bounded_output_exact chunks :
  let written := String.concat "" chunks in
  bounded_string (bounded_all chunks) =
    if maxShellOutputBytes <? strlen written
    then str_take (Z.to_nat maxShellOutputBytes) written +:+ String newline "[truncated]"
    else written.
Proof.
  assert (Hconcat : ∀ c cs, String.concat "" (c :: cs) = c +:+ String.concat "" cs).
  { intros c [|d cs]; simpl; [by rewrite str_app_nil_r|done]. }
  assert (Hall : ∀ chunks written b, keeps written b →
    keeps (written +:+ String.concat "" chunks) (fold_left bounded_write chunks b)).
  { induction chunks0 as [|c cs IH]; intros written b Hk; [by rewrite str_app_nil_r|].
    rewrite Hconcat, str_app_assoc. apply IH, bounded_write_keeps, Hk. }
  intros written.
  destruct (Hall chunks "" {| bo_buffer := ""; bo_truncated := false |}) as [Hb Ht]; [by split|].
  change ("" +:+ String.concat "" chunks) with written in *. unfold bounded_string, bounded_all.
  rewrite Ht, Hb. destruct (_ <? strlen written) eqn:E; zbool; simpl; [done|].
  apply str_take_ge. lia.
Qed.

(** ** Collectors *)

Lemma auth_queue_spec limit lines : 0 <= limit → ∀ q, Z.of_nat (length q) <= limit →
  let all := q ++ List.filter auth_line (map TrimSpace lines) in
  auth_queue limit lines q = drop (length all - Z.to_nat limit) all.
Proof.
  intros Hl. induction lines as [|l lines IH]; intros q Hq; simpl.
  - rewrite app_nil_r. replace (length q - Z.to_nat limit)%nat with 0%nat by lia. done.
  - destruct (auth_line (TrimSpace l)) eqn:E; simpl; [|by apply IH].
    destruct (limit <? Z.of_nat (length (q ++ [TrimSpace l]))) eqn:E2; zbool.
    + rewrite length_app in E2. simpl in E2.
      destruct (q ++ [TrimSpace l]) as [|x q'] eqn:Hq'; [by destruct q|]. simpl.
      assert (Hl' : (length q + 1 = S (length q'))%nat).
      { apply (f_equal length) in Hq'. rewrite length_app in Hq'. simpl in Hq'. lia. }
      change (drop 0 q') with q'. rewrite (IH q') by lia.
      replace (q ++ TrimSpace l :: List.filter auth_line (map TrimSpace lines))
        with (x :: q' ++ List.filter auth_line (map TrimSpace lines)).
      2:{ change (x :: q' ++ ?r) with ((x :: q') ++ r). rewrite <-Hq', <-app_assoc. done. }
      simpl length. rewrite length_app.
      replace (S (length q' + length (List.filter auth_line (map TrimSpace lines))) - Z.to_nat limit)%nat
        with (S (length q' + length (List.filter auth_line (map TrimSpace lines)) - Z.to_nat limit)) by lia.
      done.
    + rewrite IH by done. by rewrite <-app_assoc.
Qed.
