(* ===== verification/Executor.v ===== *)
(** * Executor: running response actions (internal/responseactions/executor.go)

    One Section models the handlers on a world that holds the processes, the
    files and what the agent did to the system: the signals it sent, the
    commands it ran, the files it removed.  System calls may fail or kill the
    agent (module Effects).  Parameters: what the parsers of ExecPayload need,
    RFC 3339 formatting, SHA-256 of a file, symbolic links and the search path,
    and the replies of the outside: the errno of a signal, the output of a
    firewall command, the run of a shell command, all functions of what was done
    before, and the changes other processes make to files while one is
    quarantined.  An [error] is its text; the texts of wrapped errors and the
    details of system errors are left out. *)

From S2P Require Import Prelude GoStr GoText Effects GoJson Protocol ExecPayload ExecCollect.
From Stdlib Require Import Ascii NArith.

Local Open Scope Z_scope.
Local Open Scope go_scope.

Inductive file_kind := Regular | Directory | Symlink | Special.

#[export] Instance file_kind_eq_dec : EqDecision file_kind.
Proof. solve_decision. Defined.

(** A file: its identity ([os.SameFile]), kind, content and permissions. *)
Record xfile := { xf_id : Z; xf_kind : file_kind; xf_data : string; xf_mode : Z }.

(** One run of a shell command: the writes to its outputs, the exit code
    ([None] when it could not be run), whether the deadline passed, and the
    milliseconds it took. *)
Record shell_run := {
  sr_stdout : list string; sr_stderr : list string; sr_exit : option Z; sr_timedOut : bool;
  sr_durationMs : Z }.

Record audit_entry := {
  au_action_id : Z; au_command : string; au_exit_code : Z; au_timed_out : bool; au_reason : string }.

Record shell_call := { sh_executable : string; sh_arguments : list string; sh_dir : string; sh_timeout : Z }.

Record xworld := XW {
  x_procs : option (list proc);
  x_files : gmap string xfile;
  x_signals : list (Z * Z);
  x_commands : list (string * list string);
  x_shell : list shell_call;
  x_removed : list (string * Z);
  x_audit : list audit_entry;
}.

Definition XM : Type → Type := M xworld string.

Definition set_files (f : gmap string xfile → gmap string xfile) (w : xworld) : xworld :=
  XW (x_procs w) (f (x_files w)) (x_signals w) (x_commands w) (x_shell w) (x_removed w) (x_audit w).
Definition add_signal (s : Z * Z) (w : xworld) : xworld :=
  XW (x_procs w) (x_files w) (x_signals w ++ [s]) (x_commands w) (x_shell w) (x_removed w) (x_audit w).
Definition add_command (c : string * list string) (w : xworld) : xworld :=
  XW (x_procs w) (x_files w) (x_signals w) (x_commands w ++ [c]) (x_shell w) (x_removed w) (x_audit w).
Definition add_shell (c : shell_call) (w : xworld) : xworld :=
  XW (x_procs w) (x_files w) (x_signals w) (x_commands w) (x_shell w ++ [c]) (x_removed w) (x_audit w).
Definition add_removed (p : string * Z) (w : xworld) : xworld :=
  XW (x_procs w) (x_files w) (x_signals w) (x_commands w) (x_shell w) (x_removed w ++ [p]) (x_audit w).
Definition add_audit (a : audit_entry) (w : xworld) : xworld :=
  XW (x_procs w) (x_files w) (x_signals w) (x_commands w) (x_shell w) (x_removed w) (x_audit w ++ [a]).

Record ExecuteOptions := {
  eo_ExpectedAgentID : string; eo_AgentID : string; eo_Profile : string; eo_BuildVersion : string;
  eo_EffectiveConfig : gmapv; eo_ModuleStates : gmapv;
  eo_RefreshRuntimeConfig : option (XM (bool * Z * string));
  eo_RunTopologyDiscovery : option (XM (option gmapv));
  eo_AgentStartedAt : time; eo_Now : time; eo_FirewallTool : string; eo_QuarantineDir : string;
  eo_AllowShellExec : bool; eo_ShellExecAllowlist : list string }.

Record ExecuteResult := {
  xr_Status : string; xr_Result : option gmapv; xr_Error : string; xr_StartedAt : time }.

(** [killProcessPayload] resolved to processes. *)
Record killTarget := { kt_pid : Z; kt_name : string }.

Definition kt_le (a b : killTarget) : Prop := kt_pid a <= kt_pid b.
#[export] Instance kt_le_dec : RelDecision kt_le.
Proof. intros a b. unfold kt_le. apply _. Defined.

(** [processNameByPID] and [processMatchesName] on the entries of /proc. *)
Definition find_proc (procs : option (list proc)) (pid : Z) : option proc :=
  procs ≫= List.find (λ e, str_eqb (pr_name e) (Itoa pid)).

Definition processNameByPID (procs : option (list proc)) (pid : Z) : string :=
  TrimSpace (default "" (find_proc procs pid ≫= pr_comm)).

Definition processMatchesName (procs : option (list proc)) (pid : Z) (comm want : string) : bool :=
  if negb (is_empty comm) && str_eqb comm want then true else
  match find_proc procs pid ≫= pr_cmdline with
  | None => false
  | Some cmdline =>
    if is_empty cmdline then false else
    let first := TrimSpace (default cmdline (before_byte cmdline (ascii_of_nat 0))) in
    if is_empty first then false else str_eqb (Base first) want
  end.

(** The loop over /proc of [resolveKillTargets]. *)
Fixpoint match_targets (procs : option (list proc)) (self ppid : Z) (want : string)
    (entries : list proc) : err_or (list killTarget) :=
  match entries with
  | [] => inr []
  | e :: entries =>
    let next := match_targets procs self ppid want entries in
    if negb (pr_isdir e) then next else
    match Atoi (pr_name e) with
    | None => next
    | Some pid =>
      if (pid <=? 1) || (pid =? self) then next else
      let name := processNameByPID procs pid in
      if processMatchesName procs pid name want then
        if pid =? ppid then inl "refusing to target a protected system process" else
        match next with
        | inl e => inl e
        | inr targets => inr ({| kt_pid := pid; kt_name := name |} :: targets)
        end
      else next
    end
  end.

Definition resolveKillTargets (procs : option (list proc)) (self ppid : Z) (p : killProcessPayload)
    : err_or (list killTarget) :=
  if negb (kp_byName p) then
    if kp_pid p =? self then inl "refusing to target the agent process"
    else if kp_pid p =? ppid then inl "refusing to target a protected system process"
    else inr [{| kt_pid := kp_pid p; kt_name := processNameByPID procs (kp_pid p) |}]
  else
    match procs with
    | None => inl "read /proc failed"
    | Some entries =>
      match match_targets procs self ppid (kp_name p) entries with
      | inl e => inl e
      | inr targets => inr (merge_sort kt_le targets)
      end
    end.

Definition opt_throw {A} (r : err_or A) : XM A :=
  match r with inl e => throw e | inr a => retM a end.

Definition resolveFirewallTool (detected tool : string) : string :=
  let t := norm tool in
  if str_eqb t "iptables" || str_eqb t "nft" then t else detected.

(** [effectiveCapabilities] (internal/runtime/controlplane.go): the action types
    the agent advertises to the control plane. *)
Definition responseActionTypes (profile : string) (allowShell : bool) (allowlist : list string)
    (firewallTool : string) : list string :=
  List.filter (λ t,
    if str_eqb t "run_shell_command" then allowShell && negb (length allowlist =? 0)%nat
    else if str_in t ["block_outbound_ip"; "unblock_outbound_ip"] then negb (is_empty (TrimSpace firewallTool))
    else true) (SupportedActions (NormalizeProfile profile)).

Section executor.
Context (parse : string → option json).
Context (ParseIP : string → option (string * bool)) (sha256_hex : string → string).
Context (marshal_strings : list string → string) (fmt_time : time → string).
(** The identity of the agent's process and its surroundings. *)
Context (self ppid : Z) (goos goarch hostname : string) (runtimeMeta : gmapv).
Context (interfaces : list iface) (read : string → option string).
(** The outside. *)
Context (kill_errno : list (Z * Z) → Z * Z → option string).
Context (run_output : list (string * list string) → string * list string → string * option string).
Context (in_path : string → bool) (look_path : string → option string).
Context (eval_symlinks : string → option string) (executable_file : string → bool).
Context (run_shell : list shell_call → shell_call → shell_run).
Context (interfere1 interfere2 : gmap string xfile → gmap string xfile).

Definition rfc3339 (t : time) : gval := VStr (fmt_time t).

Definition actionMeta (a : ResponseAction) : gmapv := [
  ("id", VInt (ra_ID a)); ("action_type", VStr (ra_ActionType a)); ("agent_id", VStr (ra_AgentID a));
  ("status", VStr (ra_Status a)); ("requested_at", rfc3339 (ra_RequestedAt a));
  ("expires_at", match ra_ExpiresAt a with Some t => rfc3339 t | None => VNil end)].

Definition with_version (opts : ExecuteOptions) (m : gmapv) : gmapv :=
  let v := TrimSpace (eo_BuildVersion opts) in
  vset_if (negb (is_empty v)) "agent_version" (VStr v) m.

Definition with_uptime (opts : ExecuteOptions) (now : time) (m : gmapv) : gmapv :=
  vset_if (negb (is_zero_time (eo_AgentStartedAt opts))) "agent_uptime_seconds"
    (VInt (Z.quot (time_sub now (eo_AgentStartedAt opts)) second)) m.

(** ** Callbacks *)

Definition runTopologyDiscovery (a : ResponseAction) (opts : ExecuteOptions) (now : time) : XM gmapv :=
  match eo_RunTopologyDiscovery opts with
  | None => throw "trigger_topology_discovery is not available"
  | Some run =>
    result <- run;;
    retM (vset "requested_at" (rfc3339 now) (vset "action" (VMap (actionMeta a)) (default [] result)))
  end.

Definition runRefreshRuntimeConfig (a : ResponseAction) (opts : ExecuteOptions) (now : time) : XM gmapv :=
  match eo_RefreshRuntimeConfig opts with
  | None => throw "refresh_runtime_config is not available"
  | Some run =>
    r <- try run;;
    match r with
    | inl e => throw ("refresh runtime config failed: " +:+ e)
    | inr (changed, configKeys, configHash) =>
      retM (with_version opts [
        ("schema_version", VStr "v1"); ("refreshed_at", rfc3339 now); ("changed", VBool changed);
        ("config_keys", VInt configKeys); ("config_hash", VStr (TrimSpace configHash));
        ("action", VMap (actionMeta a))])
    end
  end.

(** ** Snapshots *)

Definition buildInventorySnapshot (a : ResponseAction) (opts : ExecuteOptions) (now : time) : XM gmapv :=
  snapshotOpts <- opt_throw (parseInventorySnapshotOptions parse (ra_Payload a));;
  procs <- gets x_procs;;
  let limits := VMap [("max_processes", VInt (io_MaxProcesses snapshotOpts));
                      ("max_connections", VInt (io_MaxConnections snapshotOpts))] in
  retM (vset "modules" (VMap (eo_ModuleStates opts)) (with_uptime opts now (with_version opts [
    ("schema_version", VStr "v1"); ("collected_at", rfc3339 now);
    ("agent_id", VStr (TrimSpace (eo_AgentID opts))); ("hostname", VStr hostname);
    ("action", VMap (actionMeta a)); ("requested", VMap [("limits", limits)]);
    ("runtime", VMap runtimeMeta);
    ("host", VMap (collectHostSnapshot goos goarch hostname interfaces));
    ("processes", VMaps (collectProcessSnapshot procs (io_MaxProcesses snapshotOpts)));
    ("network", VMap (collectNetworkSnapshot read (io_MaxConnections snapshotOpts) interfaces))]))).

Definition requested_of (o : triageBundleOptions) : gval :=
  let c := tb_Collectors o in
  let l := tb_Limits o in
  VMap [
    ("collectors", VMap [
       ("runtime", VBool (tc_Runtime c)); ("host", VBool (tc_Host c));
       ("processes", VBool (tc_Processes c)); ("network", VBool (tc_Network c));
       ("auth_log", VBool (tc_AuthLog c)); ("recent_events", VBool (tc_RecentEvents c));
       ("effective_config", VBool (tc_EffectiveConfig c))]);
    ("limits", VMap [
       ("max_auth_log_lines", VInt (tl_MaxAuthLogLines l)); ("max_processes", VInt (tl_MaxProcesses l));
       ("max_connections", VInt (tl_MaxConnections l)); ("max_event_count", VInt (tl_MaxEventCount l))]);
    ("redaction", VMap [("mask_secrets", VBool (tb_MaskSecrets o))])].

Definition triage_sections (o : triageBundleOptions) (opts : ExecuteOptions) (procs : option (list proc))
    (m : gmapv) : gmapv :=
  let c := tb_Collectors o in
  let l := tb_Limits o in
  let '(authLog, source) := collectAuthLogLines read (tl_MaxAuthLogLines l) in
  vset_if (tc_EffectiveConfig c) "effective_config" (VMap (eo_EffectiveConfig opts))
  (vset_if (tc_RecentEvents c) "recent_events"
     (VMap [("available", VBool false); ("reason", VStr "local_event_buffer_not_exposed");
            ("requested_limit", VInt (tl_MaxEventCount l))])
  (vset_if (tc_AuthLog c) "auth_log" (VMap [("source", VStr source); ("lines", VStrs authLog)])
  (vset_if (tc_Network c) "network" (VMap (collectNetworkSnapshot read (tl_MaxConnections l) interfaces))
  (vset_if (tc_Processes c) "processes" (VMaps (collectProcessSnapshot procs (tl_MaxProcesses l)))
  (vset_if (tc_Host c) "host" (VMap (collectHostSnapshot goos goarch hostname interfaces))
  (vset_if (tc_Runtime c) "runtime" (VMap runtimeMeta) m)))))).

Definition buildTriageBundle (a : ResponseAction) (opts : ExecuteOptions) (now : time) : XM gmapv :=
  bundleOpts <- opt_throw (parseTriageBundleOptions parse (ra_Payload a));;
  procs <- gets x_procs;;
  let out := vset "hostname" (VStr hostname) (with_uptime opts now (with_version opts [
    ("schema_version", VStr "v2"); ("collected_at", rfc3339 now);
    ("agent_id", VStr (TrimSpace (eo_AgentID opts))); ("action", VMap (actionMeta a));
    ("requested", requested_of bundleOpts)])) in
  let out := vset "modules" (VMap (eo_ModuleStates opts)) (triage_sections bundleOpts opts procs out) in
  retM (if tb_MaskSecrets bundleOpts
        then match redactAny (VMap out) with VMap out => out | _ => [] end else out).

(** ** kill_process *)

(** The loop over the targets. *)
Fixpoint kill_targets (p : killProcessPayload) (targets : list killTarget)
    : XM (list gmapv * list string) :=
  match targets with
  | [] => retM ([], [])
  | t :: targets =>
    let entry := [("pid", VInt (kt_pid t)); ("name", VStr (kt_name t)); ("signal", VStr (kp_signalName p))] in
    ' (entry, failure) <-
      (if kp_dryRun p then retM (vset "ok" (VBool true) entry, []) else
       sent <- gets x_signals;;
       let s := (kt_pid t, kp_signal p) in
       match kill_errno sent s with
       | Some e => retM (vset "error" (VStr e) (vset "ok" (VBool false) entry),
                         ["pid " +:+ Itoa (kt_pid t) +:+ ": " +:+ e])
       | None => modify (add_signal s);;; _ <- sys id;; retM (vset "ok" (VBool true) entry, [])
       end);;
    ' (killed, failures) <- kill_targets p targets;;
    retM (entry :: killed, failure ++ failures)
  end.

Definition runKillProcess (a : ResponseAction) (now : time) : XM gmapv :=
  p <- opt_throw (parseKillProcessPayload parse (ra_Payload a));;
  procs <- gets x_procs;;
  targets <- opt_throw (resolveKillTargets procs self ppid p);;
  ' (killed, failures) <- kill_targets p targets;;
  retM [("schema_version", VStr "v1"); ("executed_at", rfc3339 now); ("action", VMap (actionMeta a));
        ("signal", VStr (kp_signalName p)); ("matched", VInt (Z.of_nat (length targets)));
        ("killed", VMaps killed); ("errors", VStrs failures); ("dry_run", VBool (kp_dryRun p))].

(** ** Firewall *)

Definition DetectFirewallTool : string :=
  if in_path "iptables" then "iptables" else if in_path "nft" then "nft" else "".

(** [runCommand]: the output and the error, if any. *)
Definition runCommand (c : string * list string) : XM (string * option string) :=
  ran <- gets x_commands;;
  modify (add_command c);;;
  _ <- sys id;;
  retM (run_output ran c).

Definition nft_list : string * list string := ("nft", ["list"; "chain"; "inet"; nftTableName; nftChainName]).
Definition nft_add_table : string * list string := ("nft", ["add"; "table"; "inet"; nftTableName]).
Definition nft_add_chain : string * list string :=
  ("nft", ["add"; "chain"; "inet"; nftTableName; nftChainName; "{"; "type"; "filter"; "hook"; "output";
           "priority"; "0"; ";"; "policy"; "accept"; ";"; "}"]).
Definition nft_list_handles : string * list string :=
  ("nft", ["-a"; "list"; "chain"; "inet"; nftTableName; nftChainName]).
Definition nft_delete (h : Z) : string * list string :=
  ("nft", ["delete"; "rule"; "inet"; nftTableName; nftChainName; "handle"; Itoa h]).

Definition ensureNftChain : XM unit :=
  ' (_, err) <- runCommand nft_list;;
  match err with
  | None => retM tt
  | Some _ =>
    ' (out, err) <- runCommand nft_add_table;;
    match err with
    | Some e => throw ("nft add table failed: " +:+ firewallErr out e)
    | None =>
      ' (out, err) <- runCommand nft_add_chain;;
      match err with
      | Some e => throw ("nft add chain failed: " +:+ firewallErr out e)
      | None => retM tt
      end
    end
  end.

Definition firewall_tool (opts : ExecuteOptions) : string :=
  resolveFirewallTool DetectFirewallTool (eo_FirewallTool opts).

Definition preview_tool (tool : string) : string := if is_empty tool then "iptables" else tool.

Definition add_rule (tool : string) (p : firewallPayload) : string * list string :=
  if str_eqb tool "nft" then buildNftAddRule p else buildIptablesRule p (fw_comment p) "-A".

Definition runBlockOutboundIP (a : ResponseAction) (opts : ExecuteOptions) (now : time) : XM gmapv :=
  p <- opt_throw (parseFirewallPayload parse ParseIP sha256_hex (ra_Payload a));;
  let tool := firewall_tool opts in
  if is_empty tool && negb (fw_dryRun p) then throw "no firewall tool available (tried iptables, nft)" else
  let previewTool := preview_tool tool in
  let cmd := add_rule previewTool p in
  let result := [
    ("schema_version", VStr "v1"); ("executed_at", rfc3339 now); ("action", VMap (actionMeta a));
    ("firewall_tool", VStr previewTool); ("rule_text", VStr (rule_text cmd));
    ("rule_id", VStr (fw_comment p)); ("comment", VStr (fw_legacyComment p));
    ("rule_added", VBool false); ("dry_run", VBool (fw_dryRun p))] in
  if fw_dryRun p then retM result else
  (if str_eqb previewTool "nft" then ensureNftChain else retM tt);;;
  ' (cout, rerr) <- runCommand cmd;;
  match rerr with
  | Some e => throw (cmd.1 +:+ " failed: " +:+ firewallErr cout e)
  | None => retM (vset "rule_added" (VBool true) result)
  end.

(** At most [fuel] deletions (128 in the code). *)
Fixpoint delete_loop (cmd : string * list string) (fuel : nat) (removed : Z) : XM Z :=
  match fuel with
  | O => retM removed
  | S fuel =>
    ' (out, err) <- runCommand cmd;;
    match err with
    | None => delete_loop cmd fuel (removed + 1)
    | Some e =>
      if isNoMatchingRule out then retM removed
      else throw (cmd.1 +:+ " failed: " +:+ firewallErr out e)
    end
  end.

Definition iptablesDeleteComment (p : firewallPayload) (comment : string) : XM Z :=
  delete_loop (buildIptablesRule p comment "-D") 128 0.

Definition iptablesDeleteLoop (p : firewallPayload) : XM Z :=
  removed <- iptablesDeleteComment p (fw_comment p);;
  if is_empty (fw_legacyComment p) || str_eqb (fw_legacyComment p) (fw_comment p) then retM removed else
  legacyRemoved <- iptablesDeleteComment p (fw_legacyComment p);;
  retM (removed + legacyRemoved).

Fixpoint delete_handles (handles : list Z) (removed : Z) : XM Z :=
  match handles with
  | [] => retM removed
  | h :: handles =>
    ' (_, derr) <- runCommand (nft_delete h);;
    delete_handles handles (match derr with None => removed + 1 | Some _ => removed end)
  end.

Definition nftDeleteByComment (p : firewallPayload) : XM Z :=
  ' (out, err) <- runCommand nft_list_handles;;
  match err with
  | Some e =>
    let lc := ToLower out in
    if isNoMatchingRule out || Contains lc "does not exist" || Contains lc "no such file" then retM 0
    else throw ("nft list failed: " +:+ firewallErr out e)
  | None =>
    delete_handles (uniqueInts (parseNftHandles out (fw_comment p) ++ parseLegacyNftHandles out p)) 0
  end.

Definition delete_text (tool : string) (p : firewallPayload) : string :=
  if str_eqb tool "nft"
  then "nft delete rule inet " +:+ nftTableName +:+ " " +:+ nftChainName +:+ " handle <match comment " +:+
       quoted (fw_comment p) +:+ ">"
  else rule_text (buildIptablesRule p (fw_comment p) "-D").

Definition runUnblockOutboundIP (a : ResponseAction) (opts : ExecuteOptions) (now : time) : XM gmapv :=
  p <- opt_throw (parseFirewallPayload parse ParseIP sha256_hex (ra_Payload a));;
  let tool := firewall_tool opts in
  if is_empty tool && negb (fw_dryRun p) then throw "no firewall tool available (tried iptables, nft)" else
  let previewTool := preview_tool tool in
  let result := [
    ("schema_version", VStr "v1"); ("executed_at", rfc3339 now); ("action", VMap (actionMeta a));
    ("firewall_tool", VStr previewTool); ("rule_id", VStr (fw_comment p));
    ("comment", VStr (fw_legacyComment p)); ("rules_removed", VInt 0); ("dry_run", VBool (fw_dryRun p))] in
  if fw_dryRun p then retM (vset "rule_text" (VStr (delete_text previewTool p)) result) else
  removed <- (if str_eqb previewTool "nft" then nftDeleteByComment p else iptablesDeleteLoop p);;
  retM (vset "rules_removed" (VInt removed) result).

(** ** quarantine_file *)

Context (fresh_id : gmap string xfile → Z).

Definition sys_call (e : string) : XM unit := sys_or e id.

(** [os.Open] follows symbolic links (at most 40). *)
Fixpoint open_follow (fuel : nat) (files : gmap string xfile) (path : string) : option xfile :=
  match fuel, files !! path with
  | S fuel, Some f => if decide (xf_kind f = Symlink) then open_follow fuel files (xf_data f) else Some f
  | _, _ => None
  end.

(** Other processes may act between the look at the path and its opening. *)
Definition openQuarantineTarget (path : string) : XM xfile :=
  sys_call "stat target failed";;;
  files <- gets x_files;;
  match files !! path with
  | None => throw "stat target failed"
  | Some initial =>
    if negb (bool_decide (xf_kind initial = Regular))
    then throw "stat target failed: payload.path is not a regular file" else
    modify (set_files interfere1);;;
    sys_call "stat target failed";;;
    files <- gets x_files;;
    match open_follow 40 files path with
    | None => throw "stat target failed"
    | Some opened =>
      sys_call "stat target failed";;;
      if negb (bool_decide (xf_kind opened = Regular)) || negb (xf_id initial =? xf_id opened)
      then throw "stat target failed: quarantine target changed during validation"
      else retM opened
    end
  end.

Definition sha256OpenFile (f : xfile) : XM string :=
  sys_call "hash target failed";;; sys_call "hash target failed";;; retM (sha256_hex (xf_data f)).

Definition syncResponseDirectory (e : string) : XM unit := sys_call e;;; sys_call e.

Definition mkdir (path : string) (files : gmap string xfile) : gmap string xfile :=
  match files !! path with
  | None => <[path := Build_xfile (fresh_id files) Directory "" 448]> files
  | Some _ => files
  end.

Definition is_dir (f : xfile) : bool := bool_decide (xf_kind f = Directory).
Definition chmod (mode : Z) (f : xfile) : xfile := Build_xfile (xf_id f) (xf_kind f) (xf_data f) mode.

Definition prepareQuarantineDirectory (path : string) : XM unit :=
  let e := "create quarantine dir failed" in
  files <- gets x_files;;
  match open_follow 40 files path, files !! path with
  | Some f, _ => if is_dir f then sys_call e else throw e
  | None, Some _ => throw e
  | None, None => sys_or e (set_files (mkdir path))
  end;;;
  sys_call e;;;
  files <- gets x_files;;
  match files !! path with
  | None => throw e
  | Some f =>
    if negb (is_dir f) then throw (e +:+ ": quarantine path is not a directory")
    else sys_or e (set_files (alter (chmod 448) path))
  end.

Definition set_content (data : string) (f : xfile) : xfile :=
  Build_xfile (xf_id f) (xf_kind f) data (xf_mode f).

(** The new file is removed again on every error after its creation. *)
Definition copyQuarantineTarget (source : xfile) (destination : string) : XM unit :=
  let e := "quarantine move failed" in
  sys_call e;;;
  files <- gets x_files;;
  match files !! destination with
  | Some _ => throw e
  | None =>
    sys_or e (set_files (λ fs, <[destination := Build_xfile (fresh_id fs) Regular "" 384]> fs));;;
    r <- try (E := string) (
      sys_or e (set_files (alter (set_content (xf_data source)) destination));;;
      sys_call e;;;
      sys_or e (set_files (alter (chmod 0) destination));;;
      sys_call e;;;
      syncResponseDirectory e);;
    match r with
    | inl e => _ <- sys (set_files (delete destination));; throw e
    | inr _ => retM tt
    end
  end.

(** [fmt.Sprintf("%04o", perm)]. *)
Definition octal4 (z : Z) : string :=
  of_chars [digit ((z / 512) mod 8); digit ((z / 64) mod 8); digit ((z / 8) mod 8); digit (z mod 8)].

Definition quarantine_dest (dir : string) (id : Z) : string :=
  JoinPath dir ("action-" +:+ fmt020 id +:+ ".quar").

Definition quarantine_dir (opts : ExecuteOptions) : string :=
  let quarantineDir := TrimSpace (eo_QuarantineDir opts) in
  if is_empty quarantineDir then "/var/lib/seagull/quarantine" else quarantineDir.

(** The second look at the path, its removal and the final sync. *)
Definition remove_target (path dest : string) (opened : xfile) : XM unit :=
  let undo e := _ <- sys (set_files (delete dest));; throw (A := unit) e in
  ok <- sys id;;
  files <- gets x_files;;
  match (if ok : bool then files !! path else None) with
  | None => undo "revalidate quarantine target"
  | Some current =>
    if negb (xf_id opened =? xf_id current) then undo "quarantine target changed during execution" else
    removed <- sys (λ w, add_removed (path, xf_id current) (set_files (delete path) w));;
    if negb removed then undo "remove quarantine target" else
    syncResponseDirectory "persist quarantine target removal"
  end.

Definition runQuarantineFile (a : ResponseAction) (opts : ExecuteOptions) (now : time) : XM gmapv :=
  p <- opt_throw (parseQuarantineFilePayload parse (ra_Payload a));;
  match validateQuarantinePath (qp_path p) with
  | Some verr => throw verr
  | None =>
    opened <- openQuarantineTarget (qp_path p);;
    let quarantineDir := quarantine_dir opts in
    if negb (IsAbs quarantineDir) then throw "local quarantine directory must be absolute" else
    let quarantineDir := Clean quarantineDir in
    let dest := quarantine_dest quarantineDir (ra_ID a) in
    let result := [
      ("schema_version", VStr "v1"); ("executed_at", rfc3339 now); ("action", VMap (actionMeta a));
      ("original_path", VStr (qp_path p)); ("quarantine_path", VStr dest);
      ("size_bytes", VInt (strlen (xf_data opened))); ("permissions_before", VStr (octal4 (xf_mode opened)));
      ("quarantined", VBool false); ("dry_run", VBool (qp_dryRun p))] in
    result <- (if qp_computeHash p
               then sum <- sha256OpenFile opened;; retM (vset "sha256" (VStr sum) result)
               else retM result);;
    if qp_dryRun p then retM result else
    prepareQuarantineDirectory quarantineDir;;;
    copyQuarantineTarget opened dest;;;
    modify (set_files interfere2);;;
    remove_target (qp_path p) dest opened;;;
    retM (vset "permissions_after" (VStr "0000") (vset "quarantined" (VBool true) result))
  end.

(** ** run_shell_command *)

Definition shellCommandAllowed (executable : string) (allowlist : list string) : bool :=
  existsb (λ entry,
    let candidate := TrimSpace entry in
    if negb (IsAbs candidate) then false else
    match eval_symlinks (Clean candidate) with
    | Some resolved => str_eqb resolved executable
    | None => false
    end) allowlist.

(** [look_path] is [exec.LookPath] made absolute; [executable_file] says that
    the file is regular and has an execute bit. *)
Definition resolveShellExecutable (value : string) : err_or string :=
  match look_path value with
  | None => inl "resolve command executable"
  | Some resolved =>
    match eval_symlinks resolved with
    | None => inl "resolve command executable symlink"
    | Some resolved =>
      if executable_file resolved then inr resolved
      else inl "command executable is not an executable regular file"
    end
  end.

Definition auditShellExec (a : ResponseAction) (command : string) (exitCode : Z) (timedOut : bool)
    (reason : string) : XM unit :=
  modify (add_audit (Build_audit_entry (ra_ID a) command exitCode timedOut (TrimSpace reason))).

(** The result and the error that go out together. *)
Definition runShellCommand (a : ResponseAction) (opts : ExecuteOptions) (now : time)
    : XM (option gmapv * option string) :=
  match parseShellCommandPayload parse marshal_strings (ra_Payload a) with
  | inl e => retM (None, Some e)
  | inr p =>
    let refuse reason err := auditShellExec a (sc_command p) (-1) false reason;;; retM (None, Some err) in
    if negb (eo_AllowShellExec opts)
    then refuse "shell exec disabled by agent config" "shell exec is disabled on this agent" else
    match resolveShellExecutable (hd "" (sc_arguments p)) with
    | inl e => refuse e e
    | inr executable =>
      if negb (shellCommandAllowed executable (eo_ShellExecAllowlist opts))
      then refuse "command not permitted by allowlist"
             ("executable " +:+ quoted executable +:+ " is not permitted by the shell exec allowlist")
      else
      ran <- gets x_shell;;
      let call := {| sh_executable := executable; sh_arguments := tl (sc_arguments p);
                     sh_dir := sc_workingDir p; sh_timeout := sc_timeoutSeconds p |} in
      modify (add_shell call);;;
      _ <- sys id;;
      let r := run_shell ran call in
      let exitCode := default (-1) (sr_exit r) in
      auditShellExec a (sc_command p) exitCode (sr_timedOut r) "";;;
      let result := vset_if (negb (is_empty (sc_workingDir p))) "working_dir" (VStr (sc_workingDir p)) [
        ("schema_version", VStr "v1"); ("executed_at", rfc3339 now); ("action", VMap (actionMeta a));
        ("command", VStr (sc_command p)); ("executable", VStr executable); ("exit_code", VInt exitCode);
        ("stdout", VStr (bounded_string (bounded_all (sr_stdout r))));
        ("stderr", VStr (bounded_string (bounded_all (sr_stderr r))));
        ("timed_out", VBool (sr_timedOut r)); ("duration_ms", VInt (sr_durationMs r));
        ("command_allowed", VBool true)] in
      if sr_timedOut r then retM (Some result, Some "command timed out")
      else if negb (exitCode =? 0) then retM (Some result, Some ("command exited with status " +:+ Itoa exitCode))
      else retM (Some result, None)
    end
  end.

(** ** Execute *)

Definition failed_result (now : time) (result : option gmapv) (e : string) : ExecuteResult :=
  Build_ExecuteResult "failed" result e now.
Definition success_result (now : time) (result : option gmapv) : ExecuteResult :=
  Build_ExecuteResult "success" result "" now.

(** A handler whose error leaves no result. *)
Definition finish (now : time) (m : XM gmapv) : XM ExecuteResult :=
  r <- try m;;
  retM match r with
       | inl e => failed_result now None e
       | inr result => success_result now (Some result)
       end.

Definition dispatch (a : ResponseAction) (opts : ExecuteOptions) (now : time) : XM ExecuteResult :=
  let t := norm (ra_ActionType a) in
  if str_eqb t "collect_triage_bundle" then finish now (buildTriageBundle a opts now)
  else if str_eqb t "refresh_runtime_config" then finish now (runRefreshRuntimeConfig a opts now)
  else if str_eqb t "trigger_inventory_snapshot" then finish now (buildInventorySnapshot a opts now)
  else if str_eqb t "trigger_topology_discovery" then finish now (runTopologyDiscovery a opts now)
  else if str_eqb t "kill_process" then finish now (runKillProcess a now)
  else if str_eqb t "block_outbound_ip" then finish now (runBlockOutboundIP a opts now)
  else if str_eqb t "unblock_outbound_ip" then finish now (runUnblockOutboundIP a opts now)
  else if str_eqb t "quarantine_file" then finish now (runQuarantineFile a opts now)
  else if str_eqb t "run_shell_command" then
    ' (result, err) <- runShellCommand a opts now;;
    retM match err with
         | Some e => failed_result now result e
         | None => success_result now result
         end
  else retM (failed_result now None ("unsupported action_type: " +:+ TrimSpace (ra_ActionType a))).

(** The checks before any handler runs. *)
Definition refusal (a : ResponseAction) (opts : ExecuteOptions) : option string :=
  if ra_ID a <=? 0 then Some "invalid action id"
  else if negb (ProfileAllowsResponseActions (eo_Profile opts))
  then Some "agent profile does not allow response actions"
  else if negb (is_empty (eo_ExpectedAgentID opts)) &&
          negb (str_eqb (TrimSpace (ra_AgentID a)) (TrimSpace (eo_ExpectedAgentID opts)))
  then Some "action agent does not match this agent"
  else match ra_ExpiresAt a with
       | Some t => if negb (eo_Now opts <? t) then Some "action expired" else None
       | None => None
       end.

Definition Execute (a : ResponseAction) (opts : ExecuteOptions) : XM ExecuteResult :=
  let now := eo_Now opts in
  match refusal a opts with
  | Some e => retM (failed_result now None e)
  | None => dispatch a opts now
  end.

#[local] Set Default Proof Using "Type".

(** ** Every action keeps to its own effects *)

Implicit Types I : xworld → Prop.

Lemma preserves_opt_throw {A} I (r : err_or A) : preserves I (opt_throw r).
Proof. destruct r; [apply preserves_throw|apply preserves_ret]. Qed.

Lemma preserves_sys_call I e : preserves I (sys_call e).
Proof. apply preserves_sys_or. auto. Qed.
#[local] Hint Resolve preserves_opt_throw preserves_sys_call : effects.

Lemma inventory_frame I a opts now : preserves I (buildInventorySnapshot a opts now).
Proof.
  unfold buildInventorySnapshot. apply preserves_bind; [apply preserves_opt_throw|intros o].
  apply preserves_bind; [apply preserves_gets|intros p]. apply preserves_ret.
Qed.

Lemma triage_frame I a opts now : preserves I (buildTriageBundle a opts now).
Proof.
  unfold buildTriageBundle. apply preserves_bind; [apply preserves_opt_throw|intros o].
  apply preserves_bind; [apply preserves_gets|intros p]. apply preserves_ret.
Qed.

Lemma kill_targets_frame I p targets :
  (kp_dryRun p = false → ∀ t w, t ∈ targets → I w → I (add_signal (kt_pid t, kp_signal p) w)) →
  preserves I (kill_targets p targets).
Proof.
  induction targets as [|t targets IH]; intros Hs; cbn [kill_targets]; [apply preserves_ret|].
  apply preserves_bind.
  - destruct (kp_dryRun p); [apply preserves_ret|].
    apply preserves_bind; [apply preserves_gets|intros sent]. cbv zeta.
    destruct (kill_errno _ _); [apply preserves_ret|].
    apply preserves_bind; [apply preserves_modify; intros w; apply Hs; [done|by left]|intros _].
    apply preserves_bind; [by apply preserves_sys|intros _; apply preserves_ret].
  - intros []. apply preserves_bind; [|intros []; apply preserves_ret].
    apply IH. intros Hd t' w Ht'. apply Hs; [done|by right].
Qed.

Lemma kill_frame I a now : (∀ s w, I w → I (add_signal s w)) → preserves I (runKillProcess a now).
Proof.
  intros Hs. unfold runKillProcess. apply preserves_bind; [apply preserves_opt_throw|intros p].
  apply preserves_bind; [apply preserves_gets|intros procs].
  apply preserves_bind; [apply preserves_opt_throw|intros targets].
  apply preserves_bind; [|intros []; apply preserves_ret].
  apply kill_targets_frame. auto.
Qed.

(** The commands a firewall action may run with a tool. *)
Definition firewall_command (block : bool) (tool : string) (p : firewallPayload) (c : string * list string)
    : Prop :=
  if block then c = add_rule tool p ∨ tool = "nft" ∧ c ∈ [nft_list; nft_add_table; nft_add_chain]
  else if str_eqb tool "nft" then c = nft_list_handles ∨ ∃ h, c = nft_delete h
  else c = buildIptablesRule p (fw_comment p) "-D" ∨ c = buildIptablesRule p (fw_legacyComment p) "-D".

(** [c] is a command of the action's own rule. *)
Definition own_command (block : bool) (a : ResponseAction) (opts : ExecuteOptions)
    (c : string * list string) : Prop :=
  ∃ p, parseFirewallPayload parse ParseIP sha256_hex (ra_Payload a) = inr p ∧ fw_dryRun p = false ∧
    firewall_tool opts ≠ "" ∧ firewall_command block (firewall_tool opts) p c.

Section firewall_frame.
Context (I : xworld → Prop) (allowed : string * list string → Prop).
Context (Hc : ∀ c w, allowed c → I w → I (add_command c w)).

Lemma command_then c {A} (k : string * option string → XM A) :
  allowed c → (∀ r, preserves I (k r)) → preserves I (r <- runCommand c;; k r).
Proof using Hc.
  intros Ha Hk. apply preserves_bind; [|exact Hk].
  unfold runCommand. apply preserves_bind; [apply preserves_gets|intros ran].
  apply preserves_bind; [apply preserves_modify; intros w; by apply Hc|intros _].
  apply preserves_bind; [by apply preserves_sys|intros _; apply preserves_ret].
Qed.

Lemma ensure_frame : Forall allowed [nft_list; nft_add_table; nft_add_chain] → preserves I ensureNftChain.
Proof using Hc.
  intros Ha. inversion Ha as [|? ? H1 Ha1]; subst. inversion Ha1 as [|? ? H2 Ha2]; subst.
  inversion Ha2 as [|? ? H3 _]; subst.
  unfold ensureNftChain. apply command_then; [done|]. intros [? [?|]]; [|apply preserves_ret].
  apply command_then; [done|]. intros [? [?|]]; [apply preserves_throw|].
  apply command_then; [done|]. intros [? [?|]]; [apply preserves_throw|apply preserves_ret].
Qed.

Lemma block_frame a opts now :
  (∀ c, own_command true a opts c → allowed c) → preserves I (runBlockOutboundIP a opts now).
Proof using Hc.
  intros Ha. unfold runBlockOutboundIP.
  destruct (parseFirewallPayload _ _ _ _) as [e|p] eqn:Hp; [by intros v w|].
  eapply triple_bind with (Q' := λ p' w, p' = p ∧ I w); [by apply triple_ret|].
  intros p'. apply triple_pure. intros ->. cbv zeta.
  prog_if E; [apply preserves_throw|]. prog_if E2; [apply preserves_ret|].
  cbn [negb] in E. rewrite andb_true_r in E. apply is_empty_false in E as Htool.
  unfold preview_tool. rewrite E.
  apply preserves_bind; [prog_if E3; [apply ensure_frame|apply preserves_ret]|intros _].
  - apply str_eqb_eq in E3. apply Forall_forall. intros c Hin. apply Ha. exists p.
    split_and!; [done|done|done|]. by right.
  - apply command_then; [apply Ha; exists p; split_and!; [done|done|done|by left]|].
    intros [? [?|]]; [apply preserves_throw|apply preserves_ret].
Qed.

Lemma delete_loop_frame cmd fuel : allowed cmd → ∀ removed, preserves I (delete_loop cmd fuel removed).
Proof using Hc.
  intros Ha. induction fuel as [|fuel IH]; intros removed; cbn [delete_loop]; [apply preserves_ret|].
  apply command_then; [done|]. intros [out [e|]]; [|apply IH].
  prog_if E; [apply preserves_ret|apply preserves_throw].
Qed.

Lemma nft_delete_frame p : allowed nft_list_handles → (∀ h, allowed (nft_delete h)) →
  preserves I (nftDeleteByComment p).
Proof using Hc.
  intros H1 H2. unfold nftDeleteByComment. apply command_then; [done|]. intros [out [e|]]; cbv zeta.
  - prog_if E4; [apply preserves_ret|apply preserves_throw].
  - generalize 0. induction (uniqueInts _) as [|h hs IH]; intros n; cbn [delete_handles];
      [apply preserves_ret|]. apply command_then; [done|]. intros [? derr]. apply IH.
Qed.

Lemma unblock_frame a opts now :
  (∀ c, own_command false a opts c → allowed c) → preserves I (runUnblockOutboundIP a opts now).
Proof using Hc.
  intros Ha. unfold runUnblockOutboundIP.
  destruct (parseFirewallPayload _ _ _ _) as [e|p] eqn:Hp; [by intros v w|].
  eapply triple_bind with (Q' := λ p' w, p' = p ∧ I w); [by apply triple_ret|].
  intros p'. apply triple_pure. intros ->. cbv zeta.
  prog_if E; [apply preserves_throw|]. prog_if E2; [apply preserves_ret|].
  cbn [negb] in E. rewrite andb_true_r in E. apply is_empty_false in E as Htool.
  unfold preview_tool. rewrite E.
  assert (Hown : ∀ c, firewall_command false (firewall_tool opts) p c → allowed c).
  { intros c Hcmd. apply Ha. by exists p. }
  apply preserves_bind; [|intros removed; apply preserves_ret]. unfold firewall_command in Hown.
  prog_if E3; simpl in Hown.
  - apply nft_delete_frame; [apply Hown; by left|intros h; apply Hown; right; by exists h].
  - unfold iptablesDeleteLoop. apply preserves_bind; [apply delete_loop_frame, Hown; by left|intros n].
    prog_if E4; [apply preserves_ret|].
    apply preserves_bind; [apply delete_loop_frame, Hown; by right|intros m; apply preserves_ret].
Qed.
End firewall_frame.

Lemma prepare_frame I dir :
  (∀ w, I w → I (set_files (mkdir dir) w)) → (∀ w, I w → I (set_files (alter (chmod 448) dir) w)) →
  preserves I (prepareQuarantineDirectory dir).
Proof.
  intros Hm Hc. unfold prepareQuarantineDirectory. cbv zeta. apply preserves_bind; [apply preserves_gets|intros fs].
  apply preserves_bind.
  { destruct (open_follow _ _ _) as [f|]; [prog_if E; auto with effects|].
    destruct (fs !! dir); auto with effects. }
  intros _. apply preserves_bind; [apply preserves_sys_call|intros _].
  apply preserves_bind; [apply preserves_gets|intros fs2].
  destruct (fs2 !! dir) as [f|]; [|apply preserves_throw].
  prog_if E; auto with effects.
Qed.

Section quarantine_frame.
Context (I : xworld → Prop).
Context (Hf : ∀ f w, I w → I (set_files f w)) (Hr : ∀ p w, I w → I (add_removed p w)).

Lemma files_frame (e : string) f : preserves I (sys_or e (set_files f)).
Proof using Hf. apply preserves_sys_or, Hf. Qed.
#[local] Hint Resolve files_frame : effects.

Lemma open_frame path : preserves I (openQuarantineTarget path).
Proof using Hf.
  unfold openQuarantineTarget. apply preserves_bind; [apply preserves_sys_call|intros _].
  apply preserves_bind; [apply preserves_gets|intros fs].
  destruct (fs !! path); [|apply preserves_throw]. prog_if E; [apply preserves_throw|].
  apply preserves_bind; [apply preserves_modify, Hf|intros _].
  apply preserves_bind; [apply preserves_sys_call|intros _].
  apply preserves_bind; [apply preserves_gets|intros fs2].
  destruct (open_follow _ _ _); [|apply preserves_throw].
  apply preserves_bind; [apply preserves_sys_call|intros _].
  prog_if E2; [apply preserves_throw|apply preserves_ret].
Qed.

Lemma copy_frame f dest : preserves I (copyQuarantineTarget f dest).
Proof using Hf.
  unfold copyQuarantineTarget, syncResponseDirectory. cbv zeta.
  apply preserves_bind; [apply preserves_sys_call|intros _].
  apply preserves_bind; [apply preserves_gets|intros fs].
  destruct (fs !! dest); [apply preserves_throw|].
  apply preserves_bind; [apply files_frame|intros _].
  apply preserves_bind.
  - apply preserves_try. apply preserves_bind; [apply files_frame|intros _].
    apply preserves_bind; [apply preserves_sys_call|intros _].
    apply preserves_bind; [apply files_frame|intros _].
    do 2 (apply preserves_bind; [apply preserves_sys_call|intros _]). apply preserves_sys_call.
  - intros [e|_]; [|apply preserves_ret].
    apply preserves_bind; [apply preserves_sys, Hf|intros _; apply preserves_throw].
Qed.

Lemma undo_frame dest (e : string) : preserves I (_ <- sys (set_files (delete dest));; throw (A := unit) e).
Proof using Hf. apply preserves_bind; [apply preserves_sys, Hf|intros _; apply preserves_throw]. Qed.

Lemma remove_frame path dest f : preserves I (remove_target path dest f).
Proof using Hf Hr.
  unfold remove_target, syncResponseDirectory. cbv zeta.
  apply preserves_bind; [by apply preserves_sys|intros ok].
  apply preserves_bind; [apply preserves_gets|intros fs].
  destruct (if ok : bool then fs !! path else None) as [cur|]; [|apply undo_frame].
  prog_if E; [apply undo_frame|].
  apply preserves_bind; [apply preserves_sys; intros w Hw; by apply Hr, Hf|intros removed].
  prog_if E2; [apply undo_frame|]. apply preserves_bind; [apply preserves_sys_call|intros _].
  apply preserves_sys_call.
Qed.

Lemma quarantine_frame a opts now : preserves I (runQuarantineFile a opts now).
Proof using Hf Hr.
  unfold runQuarantineFile. apply preserves_bind; [apply preserves_opt_throw|intros p].
  destruct (validateQuarantinePath _); [apply preserves_throw|].
  apply preserves_bind; [apply open_frame|intros opened]. cbv zeta.
  prog_if E; [apply preserves_throw|].
  apply preserves_bind.
  { prog_if E2; [|apply preserves_ret]. unfold sha256OpenFile.
    apply preserves_bind; [|intros sum; apply preserves_ret].
    do 2 (apply preserves_bind; [apply preserves_sys_call|intros _]). apply preserves_ret. }
  intros result. prog_if E3; [apply preserves_ret|].
  apply preserves_bind; [apply prepare_frame; intros w; apply Hf|intros _].
  apply preserves_bind; [apply copy_frame|intros _].
  apply preserves_bind; [apply preserves_modify, Hf|intros _].
  apply preserves_bind; [apply remove_frame|intros _]. apply preserves_ret.
Qed.
End quarantine_frame.

Lemma shell_frame I a opts now :
  (∀ c w, I w → I (add_shell c w)) → (∀ e w, I w → I (add_audit e w)) →
  preserves I (runShellCommand a opts now).
Proof.
  intros Hsh Ha. assert (Haud : ∀ c x t r, preserves I (auditShellExec a c x t r)).
  { intros. apply preserves_modify, Ha. }
  assert (Href : ∀ c r (e : string), preserves I (auditShellExec a c (-1) false r;;; retM (@None gmapv, Some e))).
  { intros. apply preserves_bind; [apply Haud|intros _; apply preserves_ret]. }
  unfold runShellCommand. destruct (parseShellCommandPayload _ _ _) as [e|p]; [apply preserves_ret|].
  cbv zeta. prog_if E; [apply Href|]. destruct (resolveShellExecutable _) as [e|exe]; [apply Href|].
  prog_if E2; [apply Href|]. apply preserves_bind; [apply preserves_gets|intros ran].
  apply preserves_bind; [apply preserves_modify, Hsh|intros _].
  apply preserves_bind; [by apply preserves_sys|intros _].
  apply preserves_bind; [apply Haud|intros _].
  prog_if E3; [apply preserves_ret|]. prog_if E4; apply preserves_ret.
Qed.

(** The effects an action of type [t] may have on the system, as the closure
    conditions on a property [I]. *)
Definition closed_under (t : string) I : Prop :=
  (t = "kill_process" → ∀ s w, I w → I (add_signal s w)) ∧
  (t = "block_outbound_ip" ∨ t = "unblock_outbound_ip" → ∀ c w, I w → I (add_command c w)) ∧
  (t = "quarantine_file" →
     (∀ f w, I w → I (set_files f w)) ∧ ∀ p w, I w → I (add_removed p w)) ∧
  (t = "run_shell_command" →
     (∀ c w, I w → I (add_shell c w)) ∧ ∀ e w, I w → I (add_audit e w)).

(** The callbacks of the options keep [I] when they run. *)
Definition callbacks_keep (opts : ExecuteOptions) (t : string) I : Prop :=
  (t = "refresh_runtime_config" → ∀ m, eo_RefreshRuntimeConfig opts = Some m → preserves I m) ∧
  (t = "trigger_topology_discovery" → ∀ m, eo_RunTopologyDiscovery opts = Some m → preserves I m).

Lemma finish_frame I now m : preserves I m → preserves I (finish now m).
Proof.
  intros Hm. unfold finish. apply preserves_bind; [by apply preserves_try|intros r]. apply preserves_ret.
Qed.

Lemma refresh_frame I a opts now :
  (∀ m, eo_RefreshRuntimeConfig opts = Some m → preserves I m) → preserves I (runRefreshRuntimeConfig a opts now).
Proof.
  intros H. unfold runRefreshRuntimeConfig. destruct (eo_RefreshRuntimeConfig opts) as [m|]; [|apply preserves_throw].
  apply preserves_bind; [by apply preserves_try, H|]. intros [e|[[]]]; auto with effects.
Qed.

Lemma topology_frame I a opts now :
  (∀ m, eo_RunTopologyDiscovery opts = Some m → preserves I m) → preserves I (runTopologyDiscovery a opts now).
Proof.
  intros H. unfold runTopologyDiscovery. destruct (eo_RunTopologyDiscovery opts) as [m|]; [|apply preserves_throw].
  apply preserves_bind; [by apply H|]. intros r. apply preserves_ret.
Qed.

Lemma dispatch_frame I a opts now :
  closed_under (norm (ra_ActionType a)) I → callbacks_keep opts (norm (ra_ActionType a)) I →
  preserves I (dispatch a opts now).
Proof.
  intros (Hk & Hb & Hq & Hs) [Hcr Hct]. unfold dispatch. set (t := norm (ra_ActionType a)) in *. cbv zeta.
  prog_if E1; [apply finish_frame, triage_frame|].
  prog_if E2; [apply str_eqb_eq in E2; by apply finish_frame, refresh_frame, Hcr|].
  prog_if E3; [apply finish_frame, inventory_frame|].
  prog_if E4; [apply str_eqb_eq in E4; by apply finish_frame, topology_frame, Hct|].
  prog_if E5; [apply str_eqb_eq in E5; by apply finish_frame, kill_frame, Hk|].
  prog_if E6; [apply str_eqb_eq in E6; apply finish_frame, (block_frame _ (λ _, True)); [intros c w _; apply Hb; by left|done]|].
  prog_if E7; [apply str_eqb_eq in E7; apply finish_frame, (unblock_frame _ (λ _, True)); [intros c w _; apply Hb; by right|done]|].
  prog_if E8; [apply str_eqb_eq in E8; by apply finish_frame, quarantine_frame; apply Hq|].
  prog_if E9; [|apply preserves_ret].
  apply str_eqb_eq in E9. apply preserves_bind; [by apply shell_frame; apply Hs|].
  intros [result [e|]]; apply preserves_ret.
Qed.

(** ** kill_process signals nothing else *)

(** The process is one the payload names, and not one of those the agent
    protects. *)
Definition safe_target (p : killProcessPayload) (procs : option (list proc)) (pid : Z) : Prop :=
  1 < pid ∧ pid ≠ self ∧ pid ≠ ppid ∧
  if kp_byName p then
    processMatchesName procs pid (processNameByPID procs pid) (kp_name p) = true ∧
    ∃ entries e, procs = Some entries ∧ e ∈ entries ∧ pr_isdir e = true ∧ Atoi (pr_name e) = Some pid
  else pid = kp_pid p.

Lemma match_targets_spec procs want entries : ∀ targets,
  match_targets procs self ppid want entries = inr targets →
  Forall (λ t, 1 < kt_pid t ∧ kt_pid t ≠ self ∧ kt_pid t ≠ ppid ∧
    processMatchesName procs (kt_pid t) (processNameByPID procs (kt_pid t)) want = true ∧
    ∃ e, e ∈ entries ∧ pr_isdir e = true ∧ Atoi (pr_name e) = Some (kt_pid t)) targets.
Proof.
  induction entries as [|e entries IH]; intros targets; simpl; [intros [= <-]; constructor|].
  assert (Hnext : ∀ ts, match_targets procs self ppid want entries = inr ts →
    Forall (λ t, 1 < kt_pid t ∧ kt_pid t ≠ self ∧ kt_pid t ≠ ppid ∧
      processMatchesName procs (kt_pid t) (processNameByPID procs (kt_pid t)) want = true ∧
      ∃ e', e' ∈ e :: entries ∧ pr_isdir e' = true ∧ Atoi (pr_name e') = Some (kt_pid t)) ts).
  { intros ts Hts. eapply Forall_impl; [by apply IH|]. simpl.
    intros t (?&?&?&?& e' & ?&?&?). split_and!; [done..|]. exists e'. split; [by right|done]. }
  destruct (pr_isdir e) eqn:Hd; simpl; [|apply Hnext].
  destruct (Atoi (pr_name e)) as [pid|] eqn:Hpid; [|apply Hnext].
  destruct ((pid <=? 1) || (pid =? self)) eqn:Hp; [apply Hnext|].
  destruct (processMatchesName procs pid (processNameByPID procs pid) want) eqn:Hm; [|apply Hnext].
  destruct (pid =? ppid) eqn:Hpp; [done|].
  destruct (match_targets _ _ _ _ _) as [|ts]; [done|]. intros [= <-]. zbool.
  constructor; [|by apply Hnext]. simpl. split_and!; [lia|done|done|done|]. exists e. split; [by left|done].
Qed.

Lemma resolve_spec procs p targets : valid_kill p →
  resolveKillTargets procs self ppid p = inr targets →
  Forall (λ t, safe_target p procs (kt_pid t)) targets.
Proof.
  intros [Hv _]. unfold resolveKillTargets, safe_target. destruct (kp_byName p); simpl.
  - destruct procs as [entries|]; [|done].
    destruct (match_targets _ _ _ _ _) as [|ts] eqn:Hm; [done|]. intros [= <-].
    apply match_targets_spec in Hm. rewrite merge_sort_Permutation. eapply Forall_impl; [exact Hm|]. simpl.
    intros t (?&?&?&?& e & ?&?&?). split_and!; [done..|]. by exists entries, e.
  - destruct (kp_pid p =? self) eqn:H1; [done|]. destruct (kp_pid p =? ppid) eqn:H2; [done|].
    intros [= <-]. zbool. constructor; [|done]. simpl. by destruct Hv.
Qed.

Definition app_signals (l : list (Z * Z)) (w : xworld) : xworld :=
  XW (x_procs w) (x_files w) (x_signals w ++ l) (x_commands w) (x_shell w) (x_removed w) (x_audit w).

(** Kill_process signals only what it may.  Whatever signals fail and
    wherever the agent is killed, the only change to the system is a list of
    signals; each is the payload's signal, sent by an action that is not a dry
    run, to a process with pid greater than 1 that is neither the agent nor its
    parent, and that is the pid the payload gives or a process of /proc
    matching the name it gives. *)
Theorem kill_signals_only_targets a now v w :
  let '(_, _, w') := runKillProcess a now v w in
  ∃ l, w' = app_signals l w ∧
    ∀ pid sig, (pid, sig) ∈ l → ∃ p, parseKillProcessPayload parse (ra_Payload a) = inr p ∧
      kp_dryRun p = false ∧ sig = kp_signal p ∧ (kp_signalName p, sig) ∈ known_signals ∧
      safe_target p (x_procs w) pid.
Proof.
  set (I w' := ∃ l, w' = app_signals l w ∧
    ∀ pid sig, (pid, sig) ∈ l → ∃ p, parseKillProcessPayload parse (ra_Payload a) = inr p ∧
      kp_dryRun p = false ∧ sig = kp_signal p ∧ (kp_signalName p, sig) ∈ known_signals ∧
      safe_target p (x_procs w) pid).
  assert (H0 : I w).
  { exists []. split; [unfold app_signals; rewrite app_nil_r; by destruct w|]. by intros ?? ?%elem_of_nil. }
  assert (Hmain : triple (λ w', w' = w) (runKillProcess a now) (λ _, I) (λ _, I) I).
  { unfold runKillProcess.
    destruct (parseKillProcessPayload parse (ra_Payload a)) as [e|p] eqn:Hp; [by intros ? ? ->|].
    apply parseKill_valid in Hp as Hv.
    eapply triple_bind with (Q' := λ p' w', p' = p ∧ w' = w); [by apply triple_ret|].
    intros p'. apply triple_pure. intros ->.
    eapply triple_bind with (Q' := λ procs w', procs = x_procs w ∧ w' = w).
    { apply triple_gets. by intros ? ->. }
    intros procs. apply triple_pure. intros ->.
    destruct (resolveKillTargets (x_procs w) self ppid p) as [e|targets] eqn:Hr; [by intros ? ? ->|].
    apply resolve_spec in Hr; [|done]. rewrite Forall_forall in Hr.
    eapply triple_bind with (Q' := λ ts w', ts = targets ∧ w' = w); [by apply triple_ret|].
    intros ts. apply triple_pure. intros ->. apply (triple_known I); [done|].
    apply preserves_bind; [|intros []; apply preserves_ret].
    apply kill_targets_frame. intros Hd t w' Ht (l & -> & Hl).
    exists (l ++ [(kt_pid t, kp_signal p)]). split; [unfold app_signals, add_signal; simpl; by rewrite app_assoc|].
    intros pid sig [Hin|Hin]%elem_of_app; [by apply Hl|].
    apply list_elem_of_singleton in Hin. injection Hin as -> ->. exists p. split_and!; [done|done|done|apply Hv|by apply Hr]. }
  specialize (Hmain v w eq_refl). by destruct (runKillProcess a now v w) as [[[]?]?].
Qed.

(** ** Execute *)

Lemma nothrow_finish now m : nothrow (finish now m).
Proof. unfold finish. nothrow_tac. Qed.

Lemma nothrow_dispatch a opts now : nothrow (dispatch a opts now).
Proof.
  unfold dispatch. cbv zeta. repeat (match goal with |- nothrow (if ?b then _ else _) => destruct b end;
    [first [apply nothrow_finish|apply nothrow_bind]|]); [..|apply nothrow_ret].
  - unfold runShellCommand, auditShellExec. nothrow_tac.
  - intros [? [?|]]; apply nothrow_ret.
Qed.

(** The result of a handler: success without an error, or failure. *)
Definition well_formed_result (r : ExecuteResult) : Prop :=
  xr_Status r = "success" ∧ xr_Error r = "" ∧ is_Some (xr_Result r) ∨ xr_Status r = "failed".

Lemma shell_result a opts now :
  triple (λ _, True) (runShellCommand a opts now) (λ x _, x.2 = None → is_Some x.1)
    (λ _ _, True) (λ _, True).
Proof.
  assert (Href : ∀ c r (e : string), triple (λ _, True)
    (auditShellExec a c (-1) false r;;; retM (@None gmapv, Some e))
    (λ x _, x.2 = None → is_Some x.1) (λ _ _, True) (λ _, True)).
  { intros. eapply triple_bind with (Q' := λ _ _, True); [by apply triple_modify|].
    intros _. by apply triple_ret. }
  unfold runShellCommand. destruct (parseShellCommandPayload _ _ _) as [e|p]; [by apply triple_ret|].
  cbv zeta. prog_if E; [apply Href|]. destruct (resolveShellExecutable _) as [e|exe]; [apply Href|].
  prog_if E2; [apply Href|]. eapply triple_bind with (Q' := λ _ _, True); [by apply triple_gets|].
  intros ran. eapply triple_bind with (Q' := λ _ _, True); [by apply triple_modify|].
  intros _. eapply triple_bind with (Q' := λ _ _, True); [by apply triple_sys|].
  intros _. eapply triple_bind with (Q' := λ _ _, True); [by apply triple_modify|].
  intros _. prog_if E3; [by apply triple_ret|]. prog_if E4; by apply triple_ret.
Qed.

Lemma dispatch_result a opts now v w :
  match dispatch a opts now v w with (Ok r, _, _) => well_formed_result r | _ => True end.
Proof.
  assert (Hfin : ∀ m, match finish now m v w with (Ok r, _, _) => well_formed_result r | _ => True end).
  { intros m. unfold finish, try, bindM, retM. destruct (m v w) as [[[x|e|] v'] w']; [left|right|]; done. }
  unfold dispatch. cbv zeta.
  repeat (match goal with |- context [if ?b then _ else _] => destruct b end; [first [apply Hfin|idtac]|]);
    [|by right].
  pose proof (shell_result a opts now v w Logic.I) as H. unfold bindM.
  destruct (runShellCommand a opts now v w) as [[[[r [e|]]|e|] v'] w']; simpl; try done; [by right|].
  left. simpl in *. auto.
Qed.

(** C4: an action does what its type says, and only when it may.  A refused
    action (invalid identifier, a profile without response actions, another
    agent's action, an expired one) has no effect at all.  Otherwise [Execute]
    keeps every property of the system that the effects of the action's own
    type keep: only kill_process sends signals, only the two firewall actions
    run firewall commands, only quarantine_file changes files, only
    run_shell_command runs and audits a command, and no other action changes
    anything.  It always returns a result: success without an error, or a
    failure. *)
Theorem Execute_confined I a opts v w :
  I w →
  (refusal a opts = None →
     closed_under (norm (ra_ActionType a)) I ∧ callbacks_keep opts (norm (ra_ActionType a)) I) →
  match Execute a opts v w with
  | (Ok r, v', w') => I w' ∧ well_formed_result r ∧
      (∀ e, refusal a opts = Some e → v' = v ∧ w' = w ∧ xr_Status r = "failed" ∧ xr_Error r = e)
  | (Err _, _, _) => False
  | (Crashed, _, w') => I w' ∧ refusal a opts = None
  end.
Proof.
  intros Hw HI. unfold Execute. cbv zeta. destruct (refusal a opts) as [e|] eqn:Hr.
  - simpl. split; [done|]. split; [by right|]. intros e' [= ->]. done.
  - destruct (HI eq_refl) as [Hc Hcb].
    pose proof (dispatch_frame I a opts (eo_Now opts) Hc Hcb v w Hw) as H1.
    pose proof (nothrow_dispatch a opts (eo_Now opts) v w) as H2.
    pose proof (dispatch_result a opts (eo_Now opts) v w) as H3.
    destruct (dispatch a opts (eo_Now opts) v w) as [[[r|e|] v'] w']; [|done|done]. by split_and!.
Qed.

(** ** quarantine_file loses nothing *)

(** The file [dest] is a complete copy of [f], without permissions. *)
Definition complete (f : xfile) (dest : string) (w : xworld) : Prop :=
  ∃ c, x_files w !! dest = Some c ∧ xf_kind c = Regular ∧ xf_data c = xf_data f ∧ xf_mode c = 0.

(** The state after the removal of the target. *)
Definition moved (r0 : list (string * Z)) (path dest : string) (f : xfile) (w : xworld) : Prop :=
  x_removed w = r0 ++ [(path, xf_id f)] ∧ complete f dest w.

Lemma copy_spec r0 path dest f :
  triple (λ w, x_removed w = r0 ∧ is_Some (x_files w !! path)) (copyQuarantineTarget f dest)
    (λ _ w, x_removed w = r0 ∧ complete f dest w ∧ path ≠ dest) (λ _ w, x_removed w = r0) (λ w, x_removed w = r0).
Proof.
  unfold copyQuarantineTarget, syncResponseDirectory. cbv zeta. set (P w := x_removed w = r0).
  eapply triple_bind with (Q' := λ _ w, P w ∧ is_Some (x_files w !! path)); [by apply triple_sys_or; intros w []|].
  intros _. eapply triple_bind with (Q' := λ fs w, (P w ∧ is_Some (x_files w !! path)) ∧ fs = x_files w);
    [by apply triple_gets|]. intros fs.
  destruct (fs !! dest) as [g|] eqn:Hdest; [apply triple_throw; by intros w [[]]|].
  set (N d m w := P w ∧ path ≠ dest ∧
    ∃ c, x_files w !! dest = Some c ∧ xf_kind c = Regular ∧ xf_data c = d ∧ xf_mode c = m).
  eapply triple_bind with (Q' := λ _, N "" 384).
  { apply triple_sys_or; [|by intros w [[]]..]. intros w [[Hw Hp] ->]. split; [done|]. split.
    - intros ->. rewrite Hdest in Hp. by destruct Hp.
    - eexists. simpl. rewrite lookup_insert_eq. by split_and!. }
  intros _. eapply triple_bind with (Q' := λ r w, match r with inl _ => P w | inr _ => N (xf_data f) 0 w end).
  { apply triple_try. assert (HNP : ∀ d m w, N d m w → P w) by by intros ??? [].
    eapply triple_bind with (Q' := λ _, N (xf_data f) 384).
    { apply triple_sys_or; [|by intros w ?; eapply HNP..].
      intros w (Hw & Hne & c & Hc & Hk & Hd & Hm). split_and!; [done|done|]. exists (set_content (xf_data f) c).
      simpl. by rewrite lookup_alter_eq, Hc. }
    intros _. eapply triple_bind with (Q' := λ _, N (xf_data f) 384);
      [apply triple_sys_or; [done|by intros w ?; eapply HNP..]|].
    intros _. eapply triple_bind with (Q' := λ _, N (xf_data f) 0).
    { apply triple_sys_or; [|by intros w ?; eapply HNP..].
      intros w (Hw & Hne & c & Hc & Hk & Hd & Hm). split_and!; [done|done|]. exists (chmod 0 c).
      simpl. by rewrite lookup_alter_eq, Hc. }
    intros _. do 2 (eapply triple_bind with (Q' := λ _, N (xf_data f) 0);
      [apply triple_sys_or; [done|by intros w ?; eapply HNP..]|intros _]).
    apply triple_sys_or; [done|by intros w ?; eapply HNP..]. }
  intros [e|_].
  - eapply triple_bind with (Q' := λ _, P); [by apply triple_sys|intros _; by apply triple_throw].
  - apply triple_ret. intros w (Hw & Hne & c & Hc). split_and!; [done| |done]. by exists c.
Qed.

Lemma remove_spec r0 path dest f :
  path ≠ dest →
  triple (λ w, x_removed w = r0 ∧ complete f dest w) (remove_target path dest f)
    (λ _, moved r0 path dest f) (λ _ w, x_removed w = r0 ∨ moved r0 path dest f w)
    (λ w, x_removed w = r0 ∨ moved r0 path dest f w).
Proof.
  intros Hne. unfold remove_target, syncResponseDirectory. cbv zeta.
  set (P w := x_removed w = r0 ∧ complete f dest w).
  assert (Hundo : ∀ e, triple P (_ <- sys (set_files (delete dest));; throw (A := unit) e)
    (λ _, moved r0 path dest f) (λ (_ : string) w, x_removed w = r0 ∨ moved r0 path dest f w)
    (λ w, x_removed w = r0 ∨ moved r0 path dest f w)).
  { intros e. eapply triple_bind with (Q' := λ _ w, x_removed w = r0).
    - apply triple_sys; intros w []; auto.
    - intros _. apply triple_throw. auto. }
  eapply triple_bind with (Q' := λ _, P); [apply triple_sys; [done..|intros w []; auto]|]. intros ok.
  eapply triple_bind with (Q' := λ fs w, P w ∧ fs = x_files w); [by apply triple_gets|]. intros fs.
  destruct (if ok : bool then fs !! path else None) as [cur|] eqn:Hcur;
    [|eapply triple_weaken; [|apply Hundo]; by intros w []].
  prog_if E; [eapply triple_weaken; [|apply Hundo]; by intros w []|]. zbool.
  eapply triple_bind with (Q' := λ (b : bool) w, if b then moved r0 path dest f w else P w).
  { apply triple_sys; [|by intros w []|intros w [[] _]; auto].
    intros w [[Hr (c & Hc & ?)] ->]. split; [simpl; by rewrite Hr, E|]. exists c. simpl.
    by rewrite lookup_delete_ne by done. }
  intros []; cbn [negb]; [|apply Hundo].
  eapply triple_bind with (Q' := λ _, moved r0 path dest f); [apply triple_sys_or; auto|].
  intros _. apply triple_sys_or; auto.
Qed.

Lemma open_spec r0 path :
  triple (λ w, x_removed w = r0) (openQuarantineTarget path)
    (λ f w, (x_removed w = r0 ∧ is_Some (x_files w !! path)) ∧ xf_kind f = Regular)
    (λ _ w, x_removed w = r0) (λ w, x_removed w = r0).
Proof.
  unfold openQuarantineTarget. set (P w := x_removed w = r0).
  eapply triple_bind with (Q' := λ _, P); [by apply triple_sys_or|]. intros _.
  eapply triple_bind with (Q' := λ _, P); [by apply triple_gets|]. intros fs.
  destruct (fs !! path) as [g|]; [|by apply triple_throw]. prog_if E; [by apply triple_throw|].
  eapply triple_bind with (Q' := λ _, P); [by apply triple_modify|]. intros _.
  eapply triple_bind with (Q' := λ _, P); [by apply triple_sys_or|]. intros _.
  eapply triple_bind with (Q' := λ fs w, P w ∧ fs = x_files w); [by apply triple_gets|]. intros fs2.
  destruct (open_follow 40 fs2 path) as [opened|] eqn:Ho; [|apply triple_throw; by intros w []].
  eapply triple_bind with (Q' := λ _ w, P w ∧ fs2 = x_files w); [apply triple_sys_or; [done|by intros w []..]|].
  intros _. prog_if E2; [apply triple_throw; by intros w []|]. zbool.
  apply triple_ret. intros w [Hw ->]. split_and!; [done| |done].
  simpl in Ho. by destruct (x_files w !! path).
Qed.

(** The state [runQuarantineFile] may leave, by whether its removal ran. *)
Definition quarantine_post (a : ResponseAction) (opts : ExecuteOptions) (r0 : list (string * Z))
    (w : xworld) : Prop :=
  x_removed w = r0 ∨ ∃ p f, parseQuarantineFilePayload parse (ra_Payload a) = inr p ∧
    validateQuarantinePath (qp_path p) = None ∧ qp_dryRun p = false ∧ xf_kind f = Regular ∧
    moved r0 (qp_path p) (quarantine_dest (Clean (quarantine_dir opts)) (ra_ID a)) f w.

(** From the opened target on. *)
Lemma quarantine_move r0 dir path dest f (result : gmapv) :
  (∀ fs, interfere2 fs !! dest = fs !! dest) →
  triple (λ w, x_removed w = r0 ∧ is_Some (x_files w !! path))
    (prepareQuarantineDirectory dir;;;
     copyQuarantineTarget f dest;;;
     modify (set_files interfere2);;;
     remove_target path dest f;;;
     retM result)
    (λ _, moved r0 path dest f) (λ _ w, x_removed w = r0 ∨ moved r0 path dest f w)
    (λ w, x_removed w = r0 ∨ moved r0 path dest f w).
Proof.
  intros Hint. set (S w := x_removed w = r0 ∧ is_Some (x_files w !! path)).
  eapply triple_bind with (Q' := λ _, S).
  { eapply triple_conseq; [apply (prepare_frame S)|done|done|by intros ? w []; left|by intros w []; left].
    - intros w [Hr [g Hg]]. split; [done|]. simpl. unfold mkdir. destruct (x_files w !! dir) eqn:E; [by exists g|].
      rewrite lookup_insert_ne; [by exists g|congruence].
    - intros w [Hr Hg]. split; [done|]. simpl. rewrite lookup_alter. case_decide; [subst|done].
      destruct Hg as [g ->]. by exists (chmod 448 g). }
  intros _. eapply triple_bind; [eapply triple_conseq;
    [apply (copy_spec r0 path dest f)|done|intros u w H; exact H|by left|by left]|].
  intros u. apply triple_start. intros w0 (Hr & Hc & Hne).
  eapply triple_bind with (Q' := λ _ w, x_removed w = r0 ∧ complete f dest w).
  { apply triple_modify. intros w ->. split; [done|]. destruct Hc as (c & Hd & ?). exists c. simpl.
    by rewrite Hint. }
  intros _. eapply triple_bind; [by apply remove_spec|]. intros u2. by apply triple_ret.
Qed.


(** ** Firewall actions run the commands of their own rule *)

Definition app_commands (l : list (string * list string)) (w : xworld) : xworld :=
  XW (x_procs w) (x_files w) (x_signals w) (x_commands w ++ l) (x_shell w) (x_removed w) (x_audit w).

(** Firewall actions touch one rule.  The only effect of blocking and
    unblocking is to run firewall commands, none in a dry run or without a
    tool: blocking runs the insertion of the payload's rule, after setting up
    the nft chain if that is the tool; unblocking with iptables runs the
    deletion of the same rule under its scoped or its plain comment, at most
    256 times; with nft it lists the chain and deletes rules by handle. *)
Theorem firewall_runs_own_commands a opts now v w :
  (let '(_, _, w') := runBlockOutboundIP a opts now v w in
   ∃ l, w' = app_commands l w ∧ Forall (own_command true a opts) l) ∧
  (let '(_, _, w') := runUnblockOutboundIP a opts now v w in
   ∃ l, w' = app_commands l w ∧ Forall (own_command false a opts) l).
Proof.
  assert (H0 : ∀ P : string * list string → Prop, ∃ l, w = app_commands l w ∧ Forall P l).
  { intros P. exists []. split; [unfold app_commands; rewrite app_nil_r; by destruct w|done]. }
  assert (Hc : ∀ P c w1, P c → (∃ l, w1 = app_commands l w ∧ Forall P l) →
    ∃ l, add_command c w1 = app_commands l w ∧ Forall P l).
  { intros P c w1 HP (l & -> & Hl). exists (l ++ [c]). split.
    - unfold app_commands, add_command. simpl. by rewrite app_assoc.
    - apply Forall_app. split; [done|]. by constructor. }
  split.
  - pose proof (block_frame _ (own_command true a opts) (Hc _) a opts now (λ c H, H) v w (H0 _)) as H.
    by destruct (runBlockOutboundIP a opts now v w) as [[[]?]?].
  - pose proof (unblock_frame _ (own_command false a opts) (Hc _) a opts now (λ c H, H) v w (H0 _)) as H.
    by destruct (runUnblockOutboundIP a opts now v w) as [[[]?]?].
Qed.

(** ** run_shell_command runs what the operator allowed *)

(** The run the payload asks for, allowed by an entry of the allowlist. *)
Definition allowed_call (a : ResponseAction) (opts : ExecuteOptions) (c : shell_call) : Prop :=
  ∃ p entry, parseShellCommandPayload parse marshal_strings (ra_Payload a) = inr p ∧
    eo_AllowShellExec opts = true ∧
    resolveShellExecutable (hd "" (sc_arguments p)) = inr (sh_executable c) ∧
    executable_file (sh_executable c) = true ∧
    entry ∈ eo_ShellExecAllowlist opts ∧ IsAbs (TrimSpace entry) = true ∧
    eval_symlinks (Clean (TrimSpace entry)) = Some (sh_executable c) ∧
    c = Build_shell_call (sh_executable c) (tl (sc_arguments p)) (sc_workingDir p) (sc_timeoutSeconds p) ∧
    1 <= sh_timeout c <= 300.

Lemma shell_allowed_entry exe l : shellCommandAllowed exe l = true →
  ∃ entry, entry ∈ l ∧ IsAbs (TrimSpace entry) = true ∧ eval_symlinks (Clean (TrimSpace entry)) = Some exe.
Proof.
  unfold shellCommandAllowed. intros H. apply existsb_exists in H as (entry & Hin & H). cbv zeta in H.
  apply list_elem_of_In in Hin. destruct (IsAbs (TrimSpace entry)) eqn:Habs; [|done]. simpl in H.
  destruct (eval_symlinks _) as [r|] eqn:Hr; [|done]. apply str_eqb_eq in H. subst. by exists entry.
Qed.

Lemma resolve_executable value exe : resolveShellExecutable value = inr exe → executable_file exe = true.
Proof.
  unfold resolveShellExecutable. destruct (look_path value); [|done]. destruct (eval_symlinks _) as [r|]; [|done].
  destruct (executable_file r) eqn:E; [|done]. by intros [= <-].
Qed.

(** The state [runShellCommand] leaves when it returns: one audit record of the
    attempt if its payload was valid, and at most one run. *)
Definition shell_post (a : ResponseAction) (opts : ExecuteOptions) (w w' : xworld) : Prop :=
  match parseShellCommandPayload parse marshal_strings (ra_Payload a) with
  | inl _ => w' = w
  | inr p => ∃ calls e,
      w' = XW (x_procs w) (x_files w) (x_signals w) (x_commands w) (x_shell w ++ calls) (x_removed w)
              (x_audit w ++ [e]) ∧
      au_action_id e = ra_ID a ∧ au_command e = sc_command p ∧
      (calls = [] ∨ ∃ c, calls = [c] ∧ allowed_call a opts c)
  end.

(** C6: only allowed commands run.  A shell command runs only if the agent's
    configuration permits shell execution and the executable its first argument
    resolves to, symbolic links included, is the one an absolute entry of the
    allowlist resolves to; it runs once, with the payload's other arguments and
    a timeout of at most 300 seconds; every attempt with a valid payload,
    refused or not, leaves exactly one audit record; nothing else changes. *)
Theorem shell_runs_only_allowed a opts now v w :
  match runShellCommand a opts now v w with
  | (Ok _, _, w') => shell_post a opts w w'
  | (Err _, _, _) => False
  | (Crashed, _, w') => ∃ c, w' = add_shell c w ∧ allowed_call a opts c
  end.
Proof.
  assert (Hrefuse : ∀ p r (e : string), parseShellCommandPayload parse marshal_strings (ra_Payload a) = inr p →
    match (auditShellExec a (sc_command p) (-1) false r;;; retM (@None gmapv, Some e)) v w with
    | (Ok _, _, w') => shell_post a opts w w'
    | (Err _, _, _) => False
    | (Crashed, _, w') => ∃ c, w' = add_shell c w ∧ allowed_call a opts c
    end).
  { intros p r e Hp. unfold shell_post. rewrite Hp. eexists [], _. split; [simpl; by rewrite app_nil_r|].
    split_and!; [done|done|by left]. }
  unfold runShellCommand. destruct (parseShellCommandPayload _ _ (ra_Payload a)) as [e|p] eqn:Hp.
  { simpl. unfold shell_post. by rewrite Hp. }
  cbv zeta. destruct (eo_AllowShellExec opts) eqn:Hallow; [|by apply Hrefuse]. cbn [negb].
  destruct (resolveShellExecutable (hd "" (sc_arguments p))) as [e|exe] eqn:Hexe; [by apply Hrefuse|].
  destruct (shellCommandAllowed exe (eo_ShellExecAllowlist opts)) eqn:Hal; [|by apply Hrefuse]. cbn [negb].
  set (c := Build_shell_call exe (tl (sc_arguments p)) (sc_workingDir p) (sc_timeoutSeconds p)).
  assert (Hcall : allowed_call a opts c).
  { apply shell_allowed_entry in Hal as (entry & ?&?&?). exists p, entry.
    pose proof (parseShell_valid _ _ _ _ Hp) as (_ & _ & _ & Hto & _).
    split_and!; try done; [by apply resolve_executable in Hexe|apply Hto|apply Hto]. }
  enough (triple (λ w', w' = w) _ (λ _, shell_post a opts w) (λ _ _, False)
    (λ w', ∃ c, w' = add_shell c w ∧ allowed_call a opts c)) as H by exact (H v w eq_refl).
  eapply triple_bind with (Q' := λ _ w', w' = w); [by apply triple_gets|]. intros ran.
  eapply triple_bind with (Q' := λ _ w', w' = add_shell c w); [by apply triple_modify; intros ? ->|]. intros _.
  eapply triple_bind with (Q' := λ _ w', w' = add_shell c w).
  { apply triple_sys; [done|done|]. intros ? ->. by exists c. }
  intros _. eapply triple_bind with (Q' := λ _, shell_post a opts w).
  { apply triple_modify. intros ? ->. unfold shell_post. rewrite Hp. eexists [c], _.
    split; [done|]. split_and!; [done|done|]. right. by exists c. }
  intros _. prog_if E3; [by apply triple_ret|]. prog_if E4; by apply triple_ret.
Qed.

End executor.

(** ** Concrete runs *)

Definition same_files (fs : gmap string xfile) : gmap string xfile := fs.
Definition id_zero (fs : gmap string xfile) : Z := 1000.

Definition demo_opts : ExecuteOptions := Build_ExecuteOptions "host-1" "host-1" "managed" "1.0" [] []
  None None 0 hour "iptables" "" true ["/usr/bin/ls"].

Definition demo_world : xworld := XW (Some []) {["/home/v/x" := Build_xfile 7 Regular "virus" 420]} [] [] [] [] [].

Definition demo_action (t payload : string) : ResponseAction :=
  Build_ResponseAction 5 t "host-1" "pending" payload hour None.

Definition demo_execute : ResponseAction → ExecuteOptions → XM ExecuteResult :=
  Execute payload_parse any_ip zeros64 first_arg (λ _, "t") 50 1 "linux" "amd64" "h" [] [] (λ _, None)
    (λ _ _, None) (λ _ _, ("", None)) (λ _, true) Some Some (λ _, true)
    (λ _ _, Build_shell_run ["out"] [] (Some 0) false 3) same_files same_files id_zero.

Lemma Execute_confined_witness :
  ∃ r v' w', demo_execute (demo_action " KILL_process" "kill") demo_opts (quiet hour) demo_world = (Ok r, v', w') ∧
    x_signals w' = [(42, 9)] ∧ xr_Status r = "success" ∧
    x_files w' = x_files demo_world ∧ well_formed_result r.
Proof.
  pose proof (Execute_confined payload_parse any_ip zeros64 first_arg (λ _, "t") 50 1 "linux" "amd64" "h" [] []
    (λ _, None) (λ _ _, None) (λ _ _, ("", None)) (λ _, true) Some Some (λ _, true)
    (λ _ _, Build_shell_run ["out"] [] (Some 0) false 3) same_files same_files id_zero
    (λ w, x_files w = x_files demo_world) (demo_action " KILL_process" "kill") demo_opts (quiet hour) demo_world
    ltac:(reflexivity)) as H.
  assert (∃ r v' w', demo_execute (demo_action " KILL_process" "kill") demo_opts (quiet hour) demo_world =
    (Ok r, v', w') ∧ x_signals w' = [(42, 9)] ∧ xr_Status r = "success") as (r & v' & w' & Hrun & Hsig & Hst).
  { eexists _, _, _. split; [vm_compute; reflexivity|done]. }
  unfold demo_execute in Hrun. rewrite Hrun in H.
  destruct H as (Hf & Hwf & _).
  { intros _. split; split; done. }
  exists r, v', w'. split; [exact Hrun|]. by split_and!.
Defined.

