(* ===== verification/Stage.v ===== *)
(** * Stage: the in-memory queue of response actions
      (internal/responseactions/stage.go)

    Actions fetched from the server wait here until the executor journals them.
    The queue is a map of staged actions with their arrival order, and a bounded
    memory of the ids already handled.  Methods are modelled on a non-nil
    receiver (a nil [*Stage] returns the zero value); the mutex makes each of
    them one atomic step. *)

From S2P Require Import Prelude GoStr Protocol.

Local Open Scope Z_scope.
Local Open Scope go_scope.

Record StagedAction := { sa_Action : ResponseAction; sa_StagedAt : time }.

Record StageResult := { sr_Added : Z; sr_Ignored : Z; sr_Dropped : Z; sr_Pending : Z }.

Record Stage := MkStage {
  s_max : Z;
  s_handledMax : Z;
  s_order : list Z;
  s_items : gmap Z StagedAction;
  s_handledOrder : list Z;
  s_handledSet : gset Z;
}.

Definition len {A} (l : list A) : Z := Z.of_nat (length l).
Definition msize {V} (m : gmap Z V) : Z := Z.of_nat (size m).

Definition NewStage (max : Z) : Stage :=
  let max := if max <=? 0 then 256 else max in
  let handledMax := max * 8 in
  let handledMax := if handledMax <? 512 then 512 else handledMax in
  MkStage max handledMax [] ∅ [] ∅.

(** [a.ExpiresAt != nil && !a.ExpiresAt.After(now)] *)
Definition expired (now : time) (a : ResponseAction) : bool :=
  match ra_ExpiresAt a with Some e => negb (now <? e) | None => false end.

(** [expectedAgentID != "" && a.AgentID != expectedAgentID] *)
Definition foreign (expectedAgentID : string) (a : ResponseAction) : bool :=
  negb (is_empty expectedAgentID) && negb (str_eqb (ra_AgentID a) expectedAgentID).

(** The eviction loop of [Stage.Stage]: drop the oldest staged actions while the
    queue is full; the result is (order, items, dropped). *)
Fixpoint evict (max : Z) (order : list Z) (items : gmap Z StagedAction) (dropped : Z)
    : list Z * gmap Z StagedAction * Z :=
  if max <=? msize items then
    match order with
    | [] => (order, items, dropped)
    | oldest :: order =>
      if decide (is_Some (items !! oldest))
      then evict max order (delete oldest items) (dropped + 1)
      else evict max order items dropped
    end
  else (order, items, dropped).

(** One iteration of the loop over the fetched actions. *)
Definition stage_one (now : time) (expectedAgentID : string) (st : Stage * StageResult)
    (a : ResponseAction) : Stage * StageResult :=
  let '(s, out) := st in
  let ignored := (s, {| sr_Added := sr_Added out; sr_Ignored := sr_Ignored out + 1;
                        sr_Dropped := sr_Dropped out; sr_Pending := sr_Pending out |}) in
  if (ra_ID a <=? 0) || is_empty (ra_ActionType a) then ignored
  else if foreign expectedAgentID a then ignored
  else if expired now a then ignored
  else if decide (is_Some (s_items s !! ra_ID a)) then ignored
  else if decide (ra_ID a ∈ s_handledSet s) then ignored
  else
    let '(order, items, dropped) := evict (s_max s) (s_order s) (s_items s) (sr_Dropped out) in
    (MkStage (s_max s) (s_handledMax s) (order ++ [ra_ID a])
       (<[ra_ID a := {| sa_Action := a; sa_StagedAt := now |}]> items)
       (s_handledOrder s) (s_handledSet s),
     {| sr_Added := sr_Added out + 1; sr_Ignored := sr_Ignored out;
        sr_Dropped := dropped; sr_Pending := sr_Pending out |}).

(** [Stage.Stage] *)
Definition stage_actions (s : Stage) (now : time) (actions : list ResponseAction)
    (expectedAgentID : string) : Stage * StageResult :=
  match actions with
  | [] => (s, Build_StageResult 0 0 0 0)
  | _ =>
    let '(s, out) := fold_left (stage_one now expectedAgentID) actions
                       (s, Build_StageResult 0 0 0 0) in
    (s, {| sr_Added := sr_Added out; sr_Ignored := sr_Ignored out;
           sr_Dropped := sr_Dropped out; sr_Pending := msize (s_items s) |})
  end.

Definition PendingCount (s : Stage) : Z := msize (s_items s).

(** The loop that forgets the oldest handled ids. *)
Fixpoint forget (handledMax : Z) (order : list Z) (handled : gset Z) : list Z * gset Z :=
  match order with
  | oldest :: rest =>
    if handledMax <? len order then forget handledMax rest (handled ∖ {[oldest]})
    else (order, handled)
  | [] => (order, handled)
  end.

Definition markHandledLocked (s : Stage) (actionID : Z) : Stage :=
  if actionID <=? 0 then s
  else if decide (actionID ∈ s_handledSet s) then s
  else
    let '(order, handled) :=
      forget (s_handledMax s) (s_handledOrder s ++ [actionID])
        ({[actionID]} ∪ s_handledSet s) in
    MkStage (s_max s) (s_handledMax s) (s_order s) (s_items s) order handled.

Definition MarkHandled (s : Stage) (actionID : Z) : Stage :=
  if actionID <=? 0 then s
  else markHandledLocked
    (MkStage (s_max s) (s_handledMax s) (s_order s) (delete actionID (s_items s))
       (s_handledOrder s) (s_handledSet s)) actionID.

(** The loop of [Stage.Next], by recursion on the arrival order. *)
Fixpoint next_loop (now : time) (expectedAgentID : string) (order : list Z) (s : Stage)
    : Stage * option StagedAction :=
  match order with
  | [] => (MkStage (s_max s) (s_handledMax s) [] (s_items s) (s_handledOrder s)
             (s_handledSet s), None)
  | id :: order =>
    match s_items s !! id with
    | None => next_loop now expectedAgentID order s
    | Some item =>
      let s' := MkStage (s_max s) (s_handledMax s) order (delete id (s_items s))
                  (s_handledOrder s) (s_handledSet s) in
      if foreign expectedAgentID (sa_Action item) || expired now (sa_Action item)
      then next_loop now expectedAgentID order (markHandledLocked s' id)
      else (s', Some item)
    end
  end.

Definition Next (s : Stage) (now : time) (expectedAgentID : string)
    : Stage * option StagedAction :=
  next_loop now expectedAgentID (s_order s) s.

(** ** Invariant *)

Record stage_wf (s : Stage) : Prop := {
  wf_max : 0 < s_max s;
  wf_handledMax : 0 < s_handledMax s;
  wf_bound : msize (s_items s) <= s_max s;
  wf_order : ∀ id, is_Some (s_items s !! id) → id ∈ s_order s;
  wf_ids : ∀ id it, s_items s !! id = Some it → ra_ID (sa_Action it) = id ∧ 0 < id;
  wf_handled : s_handledSet s = list_to_set (s_handledOrder s);
  wf_nodup : NoDup (s_handledOrder s);
  wf_handledLen : len (s_handledOrder s) <= s_handledMax s;
  wf_disjoint : ∀ id, id ∈ s_handledSet s → s_items s !! id = None;
}.

Lemma NewStage_wf max : stage_wf (NewStage max).
Proof.
  unfold NewStage. split; simpl.
  - case_match; zbool; lia.
  - repeat case_match; zbool; lia.
  - unfold msize. rewrite map_size_empty. case_match; zbool; lia.
  - intros id [? H]. by rewrite lookup_empty in H.
  - intros id it H. by rewrite lookup_empty in H.
  - done.
  - constructor.
  - unfold len. simpl. repeat case_match; zbool; lia.
  - intros id _. apply lookup_empty.
Qed.

Lemma msize_insert_None (m : gmap Z StagedAction) k v :
  m !! k = None → msize (<[k:=v]> m) = msize m + 1.
Proof. intros. unfold msize. rewrite map_size_insert_None by done. lia. Qed.

Lemma msize_delete_Some (m : gmap Z StagedAction) k :
  is_Some (m !! k) → msize (delete k m) = msize m - 1.
Proof.
  intros [v Hv]. unfold msize. rewrite <-(insert_delete_id m k v Hv) at 2.
  rewrite map_size_insert_None by apply lookup_delete_eq. lia.
Qed.

Lemma msize_delete_le (m : gmap Z StagedAction) k : msize (delete k m) <= msize m.
Proof.
  destruct (m !! k) as [v|] eqn:Hk.
  - rewrite msize_delete_Some by eauto. lia.
  - rewrite delete_id by done. lia.
Qed.

Lemma evict_spec max order items d o' i' d' :
  evict max order items d = (o', i', d') → 0 < max →
  (∀ id, is_Some (items !! id) → id ∈ order) →
  msize i' < max ∧ d <= d' ∧ d' = d + (msize items - msize i') ∧ i' ⊆ items ∧
  (∀ id, is_Some (i' !! id) → id ∈ o').
Proof.
  intros He Hmax. revert items d He.
  induction order as [|oldest order IH]; intros items d He Hord; simpl in He.
  - assert (items = ∅) as ->.
    { apply map_eq. intros id. rewrite lookup_empty.
      destruct (items !! id) eqn:E; [|done].
      destruct (not_elem_of_nil id). apply Hord. eauto. }
    unfold msize in *. rewrite map_size_empty in *. destruct (_ <=? _) eqn:E in He; zbool; [lia|].
    simplify_eq. rewrite map_size_empty. split_and!; [lia|lia|lia|done|].
    intros id [? H]. by rewrite lookup_empty in H.
  - destruct (max <=? msize items) eqn:E; zbool.
    + case_decide as Hold.
      * apply IH in He as (H1 & H0 & H2 & H3 & H4).
        { rewrite msize_delete_Some in H2 by done.
          split_and!; [done|lia|lia| |done]. etrans; [done|]. apply delete_subseteq. }
        intros id [v Hv]. apply lookup_delete_Some in Hv as [Hne Hv].
        assert (id ∈ oldest :: order) as Hin by eauto. set_solver.
      * apply IH in He as (H1 & H0 & H2 & H3 & H4); [done|].
        intros id Hid. assert (id ∈ oldest :: order) as Hin by eauto.
        apply elem_of_cons in Hin as [->|]; done.
    + simplify_eq. split_and!; [lia|lia|lia|done|done].
Qed.

Lemma forget_spec m order h o' h' :
  forget m order h = (o', h') → 0 <= m → NoDup order → h = list_to_set order →
  h' = list_to_set o' ∧ NoDup o' ∧ len o' <= m ∧
  (∃ p, order = p ++ o' ∧ len p = Z.max 0 (len order - m)).
Proof.
  intros Hf Hm. revert h Hf.
  induction order as [|x order IH]; intros h Hf Hnd ->; simpl in Hf.
  - simplify_eq. unfold len; simpl. split_and!; [done..|lia|]. exists []. split; [done|]. simpl. lia.
  - destruct (m <? len (x :: order)) eqn:E; zbool.
    + apply NoDup_cons in Hnd as [Hx Hnd].
      apply IH in Hf as (H1 & H2 & H3 & p & -> & Hp); [|done|].
      * split_and!; [done..|]. exists (x :: p). split; [done|].
        unfold len in *. simpl in *. rewrite length_app in *. lia.
      * simpl. apply set_eq. intros y. rewrite !elem_of_difference. set_solver.
    + simplify_eq. split_and!; [done..|]. exists []. split; [done|]. unfold len in *. simpl in *. lia.
Qed.

Lemma markHandledLocked_wf s id : stage_wf s → s_items s !! id = None →
  stage_wf (markHandledLocked s id).
Proof.
  intros Hwf Hid. unfold markHandledLocked.
  destruct (id <=? 0) eqn:E; [done|]. case_decide as Hin; [done|].
  destruct (forget _ _ _) as [o h] eqn:Hf. destruct Hwf.
  apply forget_spec in Hf as (Hh & Hnd & Hlen & p & Hp & _); [|lia| |].
  - split; simpl; try done. intros i Hi. rewrite Hh, elem_of_list_to_set in Hi.
    assert (i ∈ s_handledOrder s ++ [id]) as Hi' by (rewrite Hp; set_solver).
    apply elem_of_app in Hi' as [Hi'|Hi'%list_elem_of_singleton]; [|by subst].
    apply wf_disjoint0. rewrite wf_handled0. set_solver.
  - apply NoDup_app. split_and!; [done| |apply NoDup_singleton]. set_solver.
  - rewrite list_to_set_app_L, wf_handled0. set_solver.
Qed.

Lemma delete_item_wf s id order :
  stage_wf s → (∀ i, is_Some (s_items s !! i) → i ≠ id → i ∈ order) →
  stage_wf (MkStage (s_max s) (s_handledMax s) order (delete id (s_items s))
    (s_handledOrder s) (s_handledSet s)).
Proof.
  intros [] Hord. split; simpl; try done.
  - pose proof (msize_delete_le (s_items s) id). lia.
  - intros i [v Hv]. apply lookup_delete_Some in Hv as [? Hv]. apply Hord; eauto.
  - intros i it Hv. apply lookup_delete_Some in Hv as [? Hv]. eauto.
  - intros i Hi. apply lookup_delete_None. eauto.
Qed.

Lemma MarkHandled_wf s id : stage_wf s → stage_wf (MarkHandled s id).
Proof.
  intros Hwf. unfold MarkHandled. case_match; [done|].
  apply markHandledLocked_wf; simpl; [|apply lookup_delete_eq].
  apply delete_item_wf; [done|]. intros i Hi _. by apply Hwf.
Qed.

Lemma markHandledLocked_frame s id :
  s_items (markHandledLocked s id) = s_items s ∧ s_order (markHandledLocked s id) = s_order s ∧
  s_max (markHandledLocked s id) = s_max s.
Proof.
  unfold markHandledLocked. case_match; [done|]. case_decide; [done|].
  by destruct (forget _ _ _).
Qed.

(** The order recorded in the state plays no role in [next_loop]. *)
Lemma next_loop_spec now ag order s :
  stage_wf s → (∀ i, is_Some (s_items s !! i) → i ∈ order) →
  let '(s', r) := next_loop now ag order s in
  stage_wf s' ∧ s_items s' ⊆ s_items s ∧
  (∀ id it, s_items s !! id = Some it → s_items s' !! id = Some it ∨
     foreign ag (sa_Action it) || expired now (sa_Action it) = true ∨ r = Some it) ∧
  match r with
  | Some it => s_items s !! ra_ID (sa_Action it) = Some it ∧
      s_items s' !! ra_ID (sa_Action it) = None ∧
      foreign ag (sa_Action it) = false ∧ expired now (sa_Action it) = false
  | None => s_items s' = ∅
  end.
Proof.
  revert s. induction order as [|id order IH]; intros s Hwf Hord; simpl.
  - assert (s_items s = ∅) as He.
    { apply map_eq. intros i. rewrite lookup_empty. destruct (_ !! i) eqn:E; [|done].
      destruct (not_elem_of_nil i). apply Hord. eauto. }
    split_and!; [|done|by left|done]. by destruct Hwf.
  - destruct (s_items s !! id) as [it|] eqn:Hid.
    + set (s0 := MkStage _ _ _ _ _ _).
      assert (stage_wf s0) as Hwf0.
      { apply delete_item_wf; [done|]. intros i Hi Hne. apply Hord in Hi. set_solver. }
      destruct (foreign ag (sa_Action it) || expired now (sa_Action it)) eqn:Hd.
      * pose proof (markHandledLocked_frame s0 id) as (Hit & _ & _).
        specialize (IH (markHandledLocked s0 id)).
        destruct (next_loop now ag order (markHandledLocked s0 id)) as [s' r].
        destruct IH as (H1 & H2 & HL & H3).
        { apply markHandledLocked_wf; [done|]. apply lookup_delete_eq. }
        { rewrite Hit. simpl. intros i [v Hv]. apply lookup_delete_Some in Hv as [Hne Hv].
          assert (i ∈ id :: order) by eauto. set_solver. }
        rewrite Hit in H2, HL, H3. simpl in H2, HL, H3. split_and!; [done| | |].
        { etrans; [done|]. apply delete_subseteq. }
        { intros i jt Hi. destruct (decide (i = id)) as [->|Hne].
          - rewrite Hid in Hi. simplify_eq. by right; left.
          - apply HL, lookup_delete_Some. by split; [|done]. }
        destruct r as [jt|]; [|done]. destruct H3 as (H3 & ? & ? & ?).
        apply lookup_delete_Some in H3 as [_ H3]. done.
      * apply orb_false_iff in Hd as [??].
        destruct (wf_ids _ Hwf _ _ Hid) as [Heq _]. rewrite Heq.
        split_and!; try done; [apply delete_subseteq| |apply lookup_delete_eq].
        intros i jt Hi. destruct (decide (i = id)) as [->|Hne]; [right; right; congruence|].
        left. apply lookup_delete_Some. by split; [|done].
    + apply IH; [done|]. intros i Hi. specialize (Hord i Hi).
      apply elem_of_cons in Hord as [->|]; [|done]. rewrite Hid in Hi. by destruct Hi.
Qed.

Lemma stage_one_spec now ag s out a s' out' :
  stage_wf s → stage_one now ag (s, out) a = (s', out') →
  stage_wf s' ∧
  sr_Added out' + sr_Ignored out' = sr_Added out + sr_Ignored out + 1 ∧
  msize (s_items s') = msize (s_items s) + (sr_Added out' - sr_Added out)
    - (sr_Dropped out' - sr_Dropped out) ∧
  sr_Dropped out <= sr_Dropped out' ∧
  s_handledSet s' = s_handledSet s ∧
  (∀ id it, s_items s' !! id = Some it → s_items s !! id = Some it ∨
     sa_Action it = a ∧ sa_StagedAt it = now ∧
     foreign ag a = false ∧ expired now a = false ∧ id ∉ s_handledSet s).
Proof.
  intros Hwf. unfold stage_one.
  destruct (_ || _) eqn:E1; [intros; simplify_eq/=; split_and!; auto; lia|].
  destruct (foreign ag a) eqn:E2; [intros; simplify_eq/=; split_and!; auto; lia|].
  destruct (expired now a) eqn:E3; [intros; simplify_eq/=; split_and!; auto; lia|].
  case_decide as E4; [intros; simplify_eq/=; split_and!; auto; lia|].
  case_decide as E5; [intros; simplify_eq/=; split_and!; auto; lia|].
  destruct (evict _ _ _ _) as [[o i] d] eqn:Hev. intros; simplify_eq/=.
  apply evict_spec in Hev as (H1 & H0 & H2 & H3 & H4); [|apply Hwf..].
  assert (Hnone : i !! ra_ID a = None).
  { destruct (i !! ra_ID a) eqn:Hi; [|done]. destruct E4.
    eapply lookup_weaken in Hi; eauto. }
  apply orb_false_iff in E1 as [E1 _]; zbool.
  split_and!; try done; try lia.
  - destruct Hwf. split; simpl; try done.
    + rewrite msize_insert_None by done. lia.
    + intros id [v Hv]. destruct (decide (id = ra_ID a)) as [->|Hne]; [set_solver|].
      rewrite lookup_insert_ne in Hv by done. apply elem_of_app. left. eauto.
    + intros id it Hv. destruct (decide (id = ra_ID a)) as [->|Hne].
      * rewrite lookup_insert_eq in Hv. by simplify_eq.
      * rewrite lookup_insert_ne in Hv by done. eapply wf_ids0, lookup_weaken; eauto.
    + intros id Hid. rewrite lookup_insert_ne by set_solver.
      destruct (i !! id) eqn:Hi; [|done]. eapply lookup_weaken in Hi; [|done].
      by rewrite wf_disjoint0 in Hi.
  - rewrite msize_insert_None by done. lia.
  - intros id it Hv. destruct (decide (id = ra_ID a)) as [->|Hne].
    + rewrite lookup_insert_eq in Hv. simplify_eq. by right.
    + rewrite lookup_insert_ne in Hv by done. left. by eapply lookup_weaken.
Qed.

Lemma stage_fold_spec now ag actions s out s' out' :
  stage_wf s → fold_left (stage_one now ag) actions (s, out) = (s', out') →
  stage_wf s' ∧
  sr_Added out' + sr_Ignored out' = sr_Added out + sr_Ignored out + len actions ∧
  msize (s_items s') = msize (s_items s) + (sr_Added out' - sr_Added out)
    - (sr_Dropped out' - sr_Dropped out) ∧
  sr_Dropped out <= sr_Dropped out' ∧
  s_handledSet s' = s_handledSet s ∧
  (∀ id it, s_items s' !! id = Some it → s_items s !! id = Some it ∨
     sa_Action it ∈ actions ∧ sa_StagedAt it = now ∧
     foreign ag (sa_Action it) = false ∧ expired now (sa_Action it) = false ∧
     id ∉ s_handledSet s).
Proof.
  revert s out. induction actions as [|a actions IH]; intros s out Hwf Hf; cbn [fold_left] in Hf.
  - simplify_eq. unfold len; simpl. split_and!; auto; lia.
  - destruct (stage_one now ag (s, out) a) as [s1 out1] eqn:H1.
    apply stage_one_spec in H1 as (W & A & B & C & D & F); [|done].
    apply IH in Hf as (W' & A' & B' & C' & D' & F'); [|done].
    split_and!; [done| |lia|lia|congruence|].
    + unfold len in *. simpl length. lia.
    + intros id it Hit. destruct (F' _ _ Hit) as [Hit'|(?&?&?&?&?)].
      * destruct (F _ _ Hit') as [?|(<-&?&?&?&?)]; [by left|]. right. set_solver.
      * right. rewrite D in *. set_solver.
Qed.

Lemma stage_actions_wf s now actions ag :
  stage_wf s → stage_wf (stage_actions s now actions ag).1.
Proof.
  intros Hwf. unfold stage_actions. destruct actions as [|a l]; [done|].
  destruct (fold_left _ _ _) as [s' out'] eqn:Hf.
  by apply stage_fold_spec in Hf as (?&?); [|done].
Qed.

(** Staging a batch is accounted for exactly: every action is either
    added or ignored, the queue grows by the added minus the dropped actions,
    it never exceeds its capacity, and what it holds afterwards was already
    there or is an own, unexpired, not yet handled action of the batch. *)
Theorem stage_actions_accounting s now actions ag :
  stage_wf s → actions ≠ [] →
  let '(s', r) := stage_actions s now actions ag in
  sr_Added r + sr_Ignored r = len actions ∧
  PendingCount s' = PendingCount s + sr_Added r - sr_Dropped r ∧
  0 <= sr_Dropped r ∧ sr_Pending r = PendingCount s' ∧ PendingCount s' <= s_max s' ∧
  (∀ id it, s_items s' !! id = Some it → s_items s !! id = Some it ∨
     sa_Action it ∈ actions ∧ foreign ag (sa_Action it) = false ∧
     expired now (sa_Action it) = false ∧ id ∉ s_handledSet s).
Proof.
  intros Hwf Hne. unfold stage_actions. destruct actions as [|a l]; [done|].
  destruct (fold_left _ _ _) as [s' out'] eqn:Hf.
  apply stage_fold_spec in Hf as (W & A & B & C & D & F); [|done]. simpl in *.
  unfold PendingCount. split_and!; [lia..|apply W|].
  intros id it Hit. destruct (F _ _ Hit) as [?|(?&?&?&?&?)]; [by left|by right].
Qed.

(** The handled memory is a window on the ids marked so far. *)
Lemma markHandledLocked_window s id p x q :
  stage_wf s → s_handledOrder s = p ++ x :: q → len q + 1 < s_handledMax s →
  ∃ p' q', s_handledOrder (markHandledLocked s id) = p' ++ x :: q' ∧
    len q <= len q' <= len q + 1 ∧ s_handledMax (markHandledLocked s id) = s_handledMax s.
Proof.
  intros Hwf Ho Hq. unfold markHandledLocked.
  case_match; [exists p, q; split_and!; done || lia|].
  case_decide; [exists p, q; split_and!; done || lia|].
  destruct (forget _ _ _) as [o h] eqn:Hf. destruct Hwf.
  apply forget_spec in Hf as (_ & _ & Hlen & d & Hd & Hdl); [|lia| |].
  - simpl. rewrite Ho in Hd, Hdl. unfold len in *.
    assert (length d ≤ length p)%nat as Hdp.
    { rewrite Ho in wf_handledLen0. rewrite !length_app in *. simpl in *. lia. }
    exists (drop (length d) p), (q ++ [id]). split_and!; [|rewrite length_app; simpl; lia..|done].
    apply (f_equal (drop (length d))) in Hd. rewrite drop_app_length in Hd. rewrite <-Hd.
    rewrite <-!app_assoc, drop_app_le by done. done.
  - apply NoDup_app. split_and!; [done| |apply NoDup_singleton]. set_solver.
  - rewrite list_to_set_app_L, wf_handled0. set_solver.
Qed.

Lemma MarkHandled_fold_window ids s p x q :
  stage_wf s → s_handledOrder s = p ++ x :: q → len q + len ids < s_handledMax s →
  let s' := fold_left MarkHandled ids s in stage_wf s' ∧ x ∈ s_handledSet s'.
Proof.
  revert s p q. induction ids as [|id ids IH]; intros s p q Hwf Ho Hl; simpl.
  - split; [done|]. rewrite (wf_handled _ Hwf), Ho. set_solver.
  - unfold len in *. simpl length in *.
    assert (∃ p' q', s_handledOrder (MarkHandled s id) = p' ++ x :: q' ∧
      len q' <= len q + 1 ∧ s_handledMax (MarkHandled s id) = s_handledMax s)
      as (p' & q' & Ho' & Hq' & Hm).
    { unfold MarkHandled. case_match; [exists p, q; unfold len; split_and!; done || lia|].
      edestruct (markHandledLocked_window (MkStage (s_max s) (s_handledMax s) (s_order s)
        (delete id (s_items s)) (s_handledOrder s) (s_handledSet s)) id)
        as (p' & q' & ? & ? & ?); [|done|unfold len; simpl; lia|].
      - apply delete_item_wf; [done|]. intros; by apply Hwf.
      - exists p', q'. split_and!; [done|lia|done]. }
    apply (IH _ p' q'); [by apply MarkHandled_wf|done|]. unfold len in *. lia.
Qed.

Lemma MarkHandled_last s id : stage_wf s → 0 < id → id ∉ s_handledSet s →
  1 <= s_handledMax s →
  ∃ p, s_handledOrder (MarkHandled s id) = p ++ [id] ∧
    s_handledMax (MarkHandled s id) = s_handledMax s.
Proof.
  intros Hwf Hid Hnew Hmax. unfold MarkHandled, markHandledLocked.
  case_match; zbool; [lia|]. simpl. case_decide; [done|].
  destruct (forget _ _ _) as [o h] eqn:Hf. simpl. destruct Hwf.
  apply forget_spec in Hf as (_ & _ & Hlen & d & Hd & Hdl); [|lia| |].
  - assert (length d ≤ length (s_handledOrder s))%nat as Hdp.
    { unfold len in *. rewrite !length_app in *. simpl in *. lia. }
    exists (drop (length d) (s_handledOrder s)). split; [|done].
    apply (f_equal (drop (length d))) in Hd. rewrite drop_app_length in Hd. rewrite <-Hd.
    by rewrite drop_app_le.
  - apply NoDup_app. split_and!; [done| |apply NoDup_singleton]. set_solver.
  - rewrite list_to_set_app_L, wf_handled0. set_solver.
Qed.

(** An action that was marked handled is not dispensed again: whatever
    ids are marked after it, as long as they are fewer than the handled
    window, and whatever batch is staged next, [Next] does not return it. *)
Theorem handled_not_redelivered s id ids now actions ag now' ag' it :
  stage_wf s → 0 < id → id ∉ s_handledSet s → len ids < s_handledMax s →
  let s1 := fold_left MarkHandled ids (MarkHandled s id) in
  (Next (stage_actions s1 now actions ag).1 now' ag').2 = Some it →
  ra_ID (sa_Action it) ≠ id.
Proof.
  intros Hwf Hid Hnew Hl s1 Hn Heq.
  destruct (MarkHandled_last s id Hwf Hid Hnew) as (p & Ho & Hm).
  { unfold len in Hl. lia. }
  destruct (MarkHandled_fold_window ids _ p _ [] (MarkHandled_wf _ _ Hwf) Ho) as [W Hin].
  { rewrite Hm. unfold len in *. simpl. lia. }
  fold s1 in W, Hin.
  pose proof (stage_actions_wf s1 now actions ag W) as W2.
  assert (s_handledSet (stage_actions s1 now actions ag).1 = s_handledSet s1) as Hs.
  { unfold stage_actions. destruct actions; [done|].
    destruct (fold_left (stage_one now ag) _ _) eqn:Hf. by apply stage_fold_spec in Hf as (?&?&?&?&?&?). }
  set (s2 := (stage_actions s1 now actions ag).1) in *.
  pose proof (next_loop_spec now' ag' (s_order s2) s2 W2 (wf_order _ W2)) as Hspec.
  unfold Next in Hn. destruct (next_loop _ _ _ s2) as [s3 r]. simpl in Hn. subst r.
  destruct Hspec as (_ & _ & _ & Hit & _).
  rewrite Heq in Hit. rewrite (wf_disjoint _ W2) in Hit; [done|]. rewrite Hs. exact Hin.
Qed.

(** [Next] keeps the queue well formed and dispenses only an action that
    was staged, belongs to the expected agent and has not expired, and removes
    it; the other actions it removes are foreign or expired, and when it
    returns nothing no action is left. *)
Theorem Next_spec s now ag :
  stage_wf s →
  let '(s', r) := Next s now ag in
  stage_wf s' ∧ s_items s' ⊆ s_items s ∧
  (∀ id it, s_items s !! id = Some it → s_items s' !! id = Some it ∨
     foreign ag (sa_Action it) || expired now (sa_Action it) = true ∨ r = Some it) ∧
  match r with
  | Some it => s_items s !! ra_ID (sa_Action it) = Some it ∧
      s_items s' !! ra_ID (sa_Action it) = None ∧
      foreign ag (sa_Action it) = false ∧ expired now (sa_Action it) = false
  | None => s_items s' = ∅
  end.
Proof. intros Hwf. apply next_loop_spec; [done|]. apply Hwf. Qed.

(** ** Witnesses *)

Definition act (id : Z) (agent : string) (expires : option time) : ResponseAction :=
  Build_ResponseAction id "kill_process" agent "pending" "" 0 expires.

Definition stage2 : Stage := (stage_actions (NewStage 2) 10 [act 1 "a" None; act 2 "a" (Some 20)] "a").1.

Lemma stage2_wf : stage_wf stage2.
Proof. apply stage_actions_wf, NewStage_wf. Qed.

Lemma stage_actions_accounting_witness :
  let batch := [act 3 "a" None; act 3 "a" None; act 4 "b" None; act 5 "a" (Some 9)] in
  let '(s', r) := stage_actions stage2 10 batch "a" in
  (sr_Added r, sr_Ignored r, sr_Dropped r, sr_Pending r) = (1, 3, 1, 2) ∧
  PendingCount s' = PendingCount stage2 + sr_Added r - sr_Dropped r ∧ PendingCount s' <= s_max s'.
Proof.
  pose proof (stage_actions_accounting stage2 10
    [act 3 "a" None; act 3 "a" None; act 4 "b" None; act 5 "a" (Some 9)] "a" stage2_wf
    ltac:(discriminate)) as H.
  vm_compute in H |- *. destruct H as (_ & H & _ & _ & H' & _). auto.
Defined.

Lemma handled_not_redelivered_witness :
  let s1 := fold_left MarkHandled [8; 9] (MarkHandled stage2 7) in
  let s2 := (stage_actions s1 10 [act 7 "a" None; act 3 "a" None] "a").1 in
  (∃ it, (Next s2 11 "a").2 = Some it ∧ ra_ID (sa_Action it) = 2) ∧
  ∀ it, (Next s2 11 "a").2 = Some it → ra_ID (sa_Action it) ≠ 7.
Proof.
  split; [eexists; split; vm_compute; reflexivity|]. intros it.
  apply (handled_not_redelivered stage2 7 [8; 9] 10 [act 7 "a" None; act 3 "a" None] "a" 11 "a");
    [apply stage2_wf|lia|by vm_compute|vm_compute; reflexivity].
Defined.

Lemma Next_spec_witness :
  let '(s', r) := Next stage2 25 "a" in
  stage_wf s' ∧ option_map (λ it, ra_ID (sa_Action it)) r = Some 1 ∧ PendingCount s' = 1.
Proof.
  pose proof (Next_spec stage2 25 "a" stage2_wf) as H.
  destruct (Next stage2 25 "a") as [s' r] eqn:E. destruct H as [H _]. split; [exact H|].
  vm_compute in E. injection E as <- <-. split; reflexivity.
Defined.
