(* ===== verification/Journal.v ===== *)
(** * Journal: the durable journal of response actions
      (internal/responseactions/journal.go)

    One JSON file per action, named after the action id, replaced atomically by
    a rename.  The directory is a finite map from names to entries; the content
    of a file is what [json.Decoder] yields on it (a record and whether data
    follows it, or nothing).  Every operating-system call may fail or be the
    point where the process is killed (module Effects).

    The world also carries a ghost log, newest event first, of the renames and
    removals that took effect and of the executions and reports of the response
    loop, over which the safety theorems are stated.  The sizes of the encoded
    records and result payloads are those of [encoding/json] and are parameters
    ([marshal_record], [marshal_payload]). *)

From S2P Require Import Prelude GoStr Effects GoJson Protocol.
From Stdlib Require Import Ascii NArith.

Local Open Scope Z_scope.
Local Open Scope go_scope.

Definition journalVersion : Z := 1.
Definition maxJournalRecordSize : Z := 8 * 2 ^ 20.
Definition maxResultPayloadSize : Z := 2 * 2 ^ 20.
Definition terminalGrowthReserve : Z := 3 * 2 ^ 20.

Definition JournalAccepted : string := "accepted".
Definition JournalExecuting : string := "executing".
Definition JournalTerminal : string := "terminal".

(** [protocol.ResponseActionExecutionResult] *)
Record ExecutionResult := {
  er_ResponseActionID : Z;
  er_AgentID : string;
  er_Status : string;
  er_ResultPayload : option json;
  er_Error : string;
  er_StartedAt : option time;
  er_FinishedAt : option time;
}.

Record JournalRecord := {
  jr_Version : Z;
  jr_Action : ResponseAction;
  jr_Phase : string;
  jr_Result : option ExecutionResult;
  jr_StartedAt : time;
  jr_UpdatedAt : time;
}.

Inductive jerror :=
  | ErrJournalEntryExists
  | ErrJournalCapacity
  | ErrIO (what : string)
  | ErrNotFound
  | ErrUnexpectedEntry (name : string)
  | ErrInvalidEntry (name : string)
  | ErrDecode (name : string)
  | ErrTrailingData (name : string)
  | ErrNameMismatch (id : Z)
  | ErrPhase (id : Z) (phase : string)
  | ErrTerminalStatus (id : Z) (status : string)
  | ErrVersion (v : Z)
  | ErrAction (e : action_error)
  | ErrTimestamps
  | ErrUnexpectedResult
  | ErrMissingResult
  | ErrResultID
  | ErrResultStatus (status : string)
  | ErrInvalidPhase (phase : string)
  | ErrMarshal
  | ErrTooLarge
  | ErrConfig (what : string).

(** ** The directory *)

Inductive file_kind := KRegular | KDir | KSymlink | KOther.

Record jentry := {
  je_kind : file_kind;
  je_size : Z;
  (** the record the decoder yields and whether data follows it *)
  je_content : option (JournalRecord * bool);
}.

#[export] Instance file_kind_eq_dec : EqDecision file_kind.
Proof. solve_decision. Defined.

Inductive event :=
  | EvWrite (r : JournalRecord)
  | EvRemove (id : Z)
  | EvExec (id : Z)
  | EvReport (id : Z) (status : string).

Record jworld := JW { jw_dir : gmap string jentry; jw_log : list event }.

Definition JM : Type → Type := M jworld jerror.

(** [Journal.path], without the directory. *)
Definition path (id : Z) : string := fmt020 id +:+ ".json".

#[global] Arguments path : simpl never.

(** [m] followed by the deferred call [c]. *)
Definition deferring {W E A} (m : M W E A) (c : M W E unit) : M W E A :=
  r <- try m;; c;;; match r with inl e => throw e | inr a => retM a end.

(** Bookkeeping of the ghost log. *)
Definition log_event (e : event) (w : jworld) : jworld := JW (jw_dir w) (e :: jw_log w).

Definition put_entry (name : string) (e : jentry) (w : jworld) : jworld :=
  JW (<[name := e]> (jw_dir w)) (jw_log w).
Definition del_entry (name : string) (w : jworld) : jworld :=
  JW (delete name (jw_dir w)) (jw_log w).

(** [os.CreateTemp] tries names until one is free, at most 10000 times. *)
Definition tempAttempts : nat := Z.to_nat 10000.
#[global] Arguments tempAttempts : simpl never.

Fixpoint temp_name (fuel : nat) (n : Z) (d : gmap string jentry) : option string :=
  match fuel with
  | O => None
  | S fuel =>
    let name := ".tmp-" +:+ digits 10 n in
    if decide (is_Some (d !! name)) then temp_name fuel (n + 1) d else Some name
  end.

Section journal.
(** [encoding/json]: the length of an encoded record or payload, or failure. *)
Context (marshal_record : JournalRecord → option Z) (marshal_payload : json → option Z).

Record Journal := { j_maxRecords : Z; j_maxBytes : Z }.

(** ** Validation *)

Definition terminal_status (s : string) : bool := str_eqb s "success" || str_eqb s "failed".

Definition validateJournalRecord (record : JournalRecord) : jerror + unit :=
  if negb (jr_Version record =? journalVersion) then inl (ErrVersion (jr_Version record)) else
  match Normalize (jr_Action record) with
  | inl e => inl (ErrAction e)
  | inr _ =>
    if is_zero_time (jr_StartedAt record) || is_zero_time (jr_UpdatedAt record)
    then inl ErrTimestamps
    else if str_eqb (jr_Phase record) JournalAccepted || str_eqb (jr_Phase record) JournalExecuting
    then match jr_Result record with Some _ => inl ErrUnexpectedResult | None => inr tt end
    else if str_eqb (jr_Phase record) JournalTerminal
    then
      match jr_Result record with
      | None => inl ErrMissingResult
      | Some result =>
        if negb (er_ResponseActionID result =? ra_ID (jr_Action record)) then inl ErrResultID
        else if negb (terminal_status (norm (er_Status result)))
        then inl (ErrResultStatus (er_Status result))
        else inr tt
      end
    else inl (ErrInvalidPhase (jr_Phase record))
  end.

Definition boundedResult (result : ExecutionResult) : ExecutionResult :=
  match er_ResultPayload result with
  | None => result
  | Some payload =>
    let drop_payload message := {|
      er_ResponseActionID := er_ResponseActionID result;
      er_AgentID := er_AgentID result;
      er_Status := er_Status result;
      er_ResultPayload := None;
      er_Error := if is_empty (TrimSpace (er_Error result)) then message
                  else TrimSpace (er_Error result) +:+ "; " +:+ message;
      er_StartedAt := er_StartedAt result;
      er_FinishedAt := er_FinishedAt result |} in
    match marshal_payload payload with
    | Some n =>
      if n <=? maxResultPayloadSize then result
      else drop_payload "result payload omitted because it exceeded the durable result limit"
    | None => drop_payload "result payload omitted because it could not be encoded"
    end
  end.

(** ** Reading *)

Definition lift {A} (r : jerror + A) : JM A :=
  match r with inl e => throw e | inr a => retM a end.

Definition syncDirectory : JM unit :=
  sys_or (ErrIO "open directory") id;;; sys_or (ErrIO "sync directory") id.

Definition readPathLocked (name : string) : JM JournalRecord :=
  sys_or (ErrIO "open entry") id;;;
  d <- gets jw_dir;;
  match d !! name with
  | None => throw ErrNotFound
  | Some e =>
    match je_content e with
    | None => throw (ErrDecode name)
    | Some (record, trailing) =>
      lift (validateJournalRecord record);;;
      if trailing : bool then throw (ErrTrailingData name) else retM record
    end
  end.

Definition readLocked (id : Z) : JM JournalRecord := readPathLocked (path id).

(** The entries of the directory in the order of [os.ReadDir]. *)
Definition ReadDir (d : gmap string jentry) : list (string * jentry) :=
  merge_sort (λ a b : string * jentry, String.le a.1 b.1) (map_to_list d).

(** The loop of [loadLocked]. *)
Fixpoint load_entries (entries : list (string * jentry)) (records : list JournalRecord)
    (totalBytes : Z) : JM (list JournalRecord * Z) :=
  match entries with
  | [] => retM (records, totalBytes)
  | (name, e) :: entries =>
    if HasPrefix name ".tmp-" then load_entries entries records totalBytes
    else if bool_decide (je_kind e = KDir) || bool_decide (je_kind e = KSymlink) ||
            negb (HasSuffix name ".json") then throw (ErrUnexpectedEntry name)
    else
      sys_or (ErrIO "inspect entry") id;;;
      if negb (bool_decide (je_kind e = KRegular)) || (je_size e <=? 0) ||
         (maxJournalRecordSize <? je_size e) then throw (ErrInvalidEntry name)
      else
        record <- readPathLocked name;;
        if negb (str_eqb name (path (ra_ID (jr_Action record))))
        then throw (ErrNameMismatch (ra_ID (jr_Action record)))
        else load_entries entries (records ++ [record]) (totalBytes + je_size e)
  end.

(** The order of [sort.Slice]: start time, then id. *)
Definition record_le (a b : JournalRecord) : Prop :=
  jr_StartedAt a < jr_StartedAt b ∨
  jr_StartedAt a = jr_StartedAt b ∧ ra_ID (jr_Action a) <= ra_ID (jr_Action b).

#[export] Instance record_le_dec : RelDecision record_le.
Proof. intros a b. unfold record_le. apply _. Defined.

Definition loadLocked : JM (list JournalRecord * Z) :=
  sys_or (ErrIO "read directory") id;;;
  d <- gets jw_dir;;
  '(records, totalBytes) <- load_entries (ReadDir d) [] 0;;
  retM (merge_sort record_le records, totalBytes).

(** ** Writing *)

Definition entry_of (record : JournalRecord) (len : Z) : jentry := {|
  je_kind := KRegular; je_size := len + 1; je_content := Some (record, false) |}.

(** The rename makes the record the content of its file in one step. *)
Definition activate (temp : string) (record : JournalRecord) (len : Z) (w : jworld) : jworld :=
  log_event (EvWrite record)
    (put_entry (path (ra_ID (jr_Action record))) (entry_of record len) (del_entry temp w)).

Definition writeLocked (record : JournalRecord) : JM unit :=
  lift (validateJournalRecord record);;;
  match marshal_record record with
  | None => throw ErrMarshal
  | Some len =>
    if maxJournalRecordSize <? len then throw ErrTooLarge else
    d <- gets jw_dir;;
    match temp_name tempAttempts 0 d with
    | None => throw (ErrIO "create entry")
    | Some temp =>
      let part n := put_entry temp {| je_kind := KRegular; je_size := n; je_content := None |} in
      sys_or (ErrIO "create entry") (part 0);;;
      deferring
        (sys_or (ErrIO "secure entry") id;;;
         sys_or (ErrIO "write entry") (part len);;;
         sys_or (ErrIO "write entry") (part (len + 1));;;
         sys_or (ErrIO "sync entry") id;;;
         sys_or (ErrIO "close entry") id;;;
         sys_or (ErrIO "activate entry") (activate temp record len);;;
         syncDirectory)
        (_ <- sys (del_entry temp);; retM tt)
    end
  end.

(** ** Operations *)

Definition with_phase (record : JournalRecord) (phase : string)
    (result : option ExecutionResult) (now : time) : JournalRecord := {|
  jr_Version := jr_Version record; jr_Action := jr_Action record; jr_Phase := phase;
  jr_Result := result; jr_StartedAt := jr_StartedAt record; jr_UpdatedAt := now |}.

(** [if now.IsZero() { now = time.Now().UTC() }] *)
Definition default_now (t : time) : JM time := if is_zero_time t then now else retM t.

Definition reserve (records : list JournalRecord) : Z :=
  sumZ (λ r, if str_eqb (jr_Phase r) JournalTerminal then 0 else terminalGrowthReserve) records.

Definition ensureCapacityLocked (j : Journal) (record : JournalRecord) : JM unit :=
  '(records, totalBytes) <- loadLocked;;
  if j_maxRecords j <=? Z.of_nat (length records) then throw ErrJournalCapacity else
  let totalBytes := totalBytes + reserve records in
  match marshal_record record with
  | None => throw ErrMarshal
  | Some len =>
    if (maxJournalRecordSize <? len) ||
       (j_maxBytes j <? totalBytes + len + terminalGrowthReserve)
    then throw ErrJournalCapacity else retM tt
  end.

Definition Begin (j : Journal) (action : ResponseAction) (startedAt : time) : JM JournalRecord :=
  action <- lift (match Normalize action with inl e => inl (ErrAction e) | inr a => inr a end);;
  startedAt <- default_now startedAt;;
  let record := {|
    jr_Version := journalVersion; jr_Action := action; jr_Phase := JournalAccepted;
    jr_Result := None; jr_StartedAt := startedAt; jr_UpdatedAt := startedAt |} in
  sys_or (ErrIO "inspect entry") id;;;
  d <- gets jw_dir;;
  if decide (is_Some (d !! path (ra_ID action))) then throw ErrJournalEntryExists else
  ensureCapacityLocked j record;;;
  writeLocked record;;;
  retM record.

Definition MarkExecuting (actionID : Z) (t : time) : JM JournalRecord :=
  t <- default_now t;;
  record <- readLocked actionID;;
  if negb (str_eqb (jr_Phase record) JournalAccepted)
  then throw (ErrPhase actionID (jr_Phase record)) else
  let record := with_phase record JournalExecuting (jr_Result record) t in
  writeLocked record;;;
  retM record.

(** The result as [Complete] stores it. *)
Definition terminal_result (actionID : Z) (record : JournalRecord) (result : ExecutionResult)
    : ExecutionResult := {|
  er_ResponseActionID := actionID;
  er_AgentID := ra_AgentID (jr_Action record);
  er_Status := norm (er_Status result);
  er_ResultPayload := er_ResultPayload result;
  er_Error := er_Error result;
  er_StartedAt := er_StartedAt result;
  er_FinishedAt := er_FinishedAt result |}.

Definition Complete (actionID : Z) (result : ExecutionResult) (t : time) : JM JournalRecord :=
  t <- default_now t;;
  record <- readLocked actionID;;
  if negb (str_eqb (jr_Phase record) JournalExecuting)
  then throw (ErrPhase actionID (jr_Phase record)) else
  let result := terminal_result actionID record result in
  if negb (terminal_status (er_Status result))
  then throw (ErrTerminalStatus actionID (er_Status result)) else
  let record := with_phase record JournalTerminal (Some (boundedResult result)) t in
  writeLocked record;;;
  retM record.

(** The filter of [records], which stops at [limit] when it is positive. *)
Definition with_phase_only (phase : string) (limit : Z) (records : list JournalRecord)
    : list JournalRecord :=
  let l := List.filter (λ r, str_eqb (jr_Phase r) phase) records in
  if 0 <? limit then take (Z.to_nat limit) l else l.

Definition records (phase : string) (limit : Z) : JM (list JournalRecord) :=
  '(rs, _) <- loadLocked;; retM (with_phase_only phase limit rs).

Definition Accepted : Z → JM (list JournalRecord) := records JournalAccepted.
Definition Terminal : Z → JM (list JournalRecord) := records JournalTerminal.

Definition IDs : JM (list Z) :=
  '(rs, _) <- loadLocked;; retM (map (λ r, ra_ID (jr_Action r)) rs).

Definition Pending : JM Z :=
  '(rs, _) <- loadLocked;; retM (Z.of_nat (length rs)).

(** Removing an absent file is not an error. *)
Definition Delete (actionID : Z) : JM unit :=
  sys_or (ErrIO "remove entry") (λ w, log_event (EvRemove actionID) (del_entry (path actionID) w));;;
  syncDirectory.

(** ** Start *)

(** The first loop of [recover]: incomplete writes are removed. *)
Fixpoint remove_temps (entries : list (string * jentry)) : JM unit :=
  match entries with
  | [] => retM tt
  | (name, e) :: entries =>
    (if HasPrefix name ".tmp-" && bool_decide (je_kind e = KRegular)
     then sys_or (ErrIO "remove incomplete entry") (del_entry name) else retM tt);;;
    remove_temps entries
  end.

Definition indeterminate (record : JournalRecord) (t : time) : ExecutionResult := {|
  er_ResponseActionID := ra_ID (jr_Action record);
  er_AgentID := ra_AgentID (jr_Action record);
  er_Status := "failed";
  er_ResultPayload := None;
  er_Error := "agent restarted while action execution outcome was indeterminate";
  er_StartedAt := Some (jr_StartedAt record);
  er_FinishedAt := Some t |}.

(** The second loop: executions that were cut short become failures. *)
Fixpoint fail_executing (t : time) (records : list JournalRecord) : JM unit :=
  match records with
  | [] => retM tt
  | record :: records =>
    (if str_eqb (jr_Phase record) JournalExecuting
     then writeLocked (with_phase record JournalTerminal (Some (indeterminate record t)) t)
     else retM tt);;;
    fail_executing t records
  end.

Definition recover : JM unit :=
  sys_or (ErrIO "read directory") id;;;
  d <- gets jw_dir;;
  remove_temps (ReadDir d);;;
  '(rs, _) <- loadLocked;;
  t <- now;;
  fail_executing t rs;;;
  syncDirectory.

Definition NewJournal (dir : string) (maxRecords maxBytes : Z) : JM Journal :=
  if is_empty (TrimSpace dir) then throw (ErrConfig "directory") else
  let maxRecords := if maxRecords <=? 0 then 2048 else maxRecords in
  let maxBytes := if maxBytes <=? 0 then 64 * 2 ^ 20 else maxBytes in
  sys_or (ErrIO "create directory") id;;;
  sys_or (ErrIO "secure directory") id;;;
  recover;;;
  retM {| j_maxRecords := maxRecords; j_maxBytes := maxBytes |}.

(** ** Names *)

Lemma digits_head n z : 0 <= z → ∃ a s, digits (S n) z = String a s ∧ a ≠ "."%char.
Proof.
  revert z. induction n as [|n IH]; intros z Hz.
  - exists (digit (z mod 10)), EmptyString. split; [done|].
    intros Hd. apply (f_equal N_of_ascii) in Hd. revert Hd. unfold digit.
    pose proof (Z.mod_pos_bound z 10 ltac:(lia)).
    rewrite N_ascii_embedding by lia. cbv -[Z.add Z.modulo Z.to_N]. lia.
  - destruct (IH (z / 10)) as (a & s & He & Ha); [by apply Z.div_pos|].
    change (digits (S (S n)) z) with (digits (S n) (z / 10) +:+ String (digit (z mod 10)) "").
    rewrite He. by eexists _, _.
Qed.

Definition is_temp (name : string) : bool := HasPrefix name ".tmp-".

Lemma path_not_temp id : 0 <= id → is_temp (path id) = false.
Proof.
  intros Hid. unfold is_temp, path, fmt020. destruct (id <? 0) eqn:E; zbool; [lia|].
  destruct (digits_head 19 id Hid) as (a & s & -> & Ha).
  unfold HasPrefix. simpl. repeat case_match; congruence.
Qed.

(** An action id as the code can hold it, once validated. *)
Definition valid_id (id : Z) : Prop := 0 < id <= max_int64.

Lemma path_inj i1 i2 : valid_id i1 → valid_id i2 → path i1 = path i2 → i1 = i2.
Proof.
  intros [] [] Hp. apply string_app_inj_r in Hp. apply fmt020_inj in Hp; [done|lia|lia].
Qed.

Lemma temp_name_empty : temp_name tempAttempts 0 ∅ = Some (".tmp-" +:+ digits 10 0).
Proof.
  unfold tempAttempts. change 10000 with (Z.succ 9999). rewrite Z2Nat.inj_succ by lia. cbn [temp_name].
  by rewrite decide_False by (rewrite lookup_empty; apply is_Some_None).
Qed.

Lemma temp_name_temp fuel n d s : temp_name fuel n d = Some s → is_temp s = true ∧ d !! s = None.
Proof.
  revert n. induction fuel as [|fuel IH]; intros n H; [done|]. cbn [temp_name] in H.
  case_decide as Hd; [by eapply IH|]. simplify_eq. split; [done|].
  by apply eq_None_not_Some.
Qed.

(** ** Directories up to incomplete writes *)

Definition live_eq (d d' : gmap string jentry) : Prop :=
  ∀ name, is_temp name = false → d !! name = d' !! name.

#[local] Instance live_eq_equiv : Equivalence live_eq.
Proof.
  split; [by intros ???|intros ?? H ??; symmetry; auto|].
  intros ??? H1 H2 ? Hn. by rewrite (H1 _ Hn), (H2 _ Hn).
Qed.

#[local] Instance insert_live_proper name e : Proper (live_eq ==> live_eq) (insert name e).
Proof.
  intros d d' H n Hn. destruct (decide (n = name)) as [->|Hne].
  - by rewrite !lookup_insert_eq.
  - rewrite !lookup_insert_ne by done. auto.
Qed.

Lemma live_eq_temp_insert d name e : is_temp name = true → live_eq (<[name:=e]> d) d.
Proof. intros Ht n Hn. rewrite lookup_insert_ne; [done|congruence]. Qed.

Lemma live_eq_temp_delete d name : is_temp name = true → live_eq (delete name d) d.
Proof. intros Ht n Hn. rewrite lookup_delete_ne; [done|congruence]. Qed.

(** The effects of a write as seen by the readers of the journal. *)
Definition unchanged (w w' : jworld) : Prop :=
  live_eq (jw_dir w') (jw_dir w) ∧ jw_log w' = jw_log w.

Definition written (record : JournalRecord) (w w' : jworld) : Prop :=
  validateJournalRecord record = inr tt ∧
  (∃ len, marshal_record record = Some len ∧ len <= maxJournalRecordSize ∧
    live_eq (jw_dir w') (<[path (ra_ID (jr_Action record)) := entry_of record len]> (jw_dir w))) ∧
  jw_log w' = EvWrite record :: jw_log w.

Lemma validate_id r : validateJournalRecord r = inr tt → 0 < ra_ID (jr_Action r).
Proof.
  unfold validateJournalRecord. intros H. repeat case_match; simplify_eq;
    by match goal with H : Normalize _ = inr ?b |- _ =>
      apply Normalize_inv in H as ((?&_) & <- & _) end.
Qed.

Lemma triple_lift {A B} (r : jerror + A) (k : A → JM B) P Q R C :
  (∀ a, r = inr a → triple P (k a) Q R C) → (∀ e w, P w → R e w) →
  triple P (bindM (lift r) k) Q R C.
Proof. destruct r as [e|a]; intros Hk HR v w Hw; [by apply HR|by apply (Hk a)]. Qed.

(** A system call without effect, inside a larger call. *)
Lemma triple_call {B} e (k : unit → JM B) P Q R C :
  triple P (k tt) Q R C → (∀ w, P w → R e w) → (∀ w, P w → C w) →
  triple P (bindM (sys_or e id) k) Q R C.
Proof.
  intros Hk HR HC. eapply triple_bind with (Q' := λ _, P); [by apply triple_sys_or|].
  by intros [].
Qed.

Lemma triple_get {A B} (f : jworld → A) (k : A → JM B) P Q R C :
  (∀ a, triple (λ w, P w ∧ f w = a) (k a) Q R C) → triple P (bindM (gets f) k) Q R C.
Proof. intros Hk v w Hw. by apply (Hk (f w)). Qed.

Lemma preserves_syncDirectory I : preserves I syncDirectory.
Proof. unfold syncDirectory. presv. Qed.
#[local] Hint Resolve preserves_syncDirectory : effects.

Lemma triple_deferring {A} (P Q R : jworld → Prop) (m : JM A) c :
  triple P m (λ _, Q) (λ _, R) R → preserves Q c → preserves R c →
  (∀ w, Q w → R w) → triple P (deferring m c) (λ _, Q) (λ _, R) R.
Proof.
  intros Hm HQ HR HQR. unfold deferring.
  eapply triple_bind; [by apply (triple_try _ _ (λ r, if r then R else Q))|].
  intros [e|a].
  - eapply triple_bind; [exact HR|]. intros ?. by apply triple_throw.
  - eapply triple_bind with (Q' := λ _, Q); [|intros ?; by apply triple_ret].
    eapply triple_conseq; [exact HQ|done|done|simpl; auto..].
Qed.

Lemma unchanged_put w0 w name e : is_temp name = true →
  unchanged w0 w → unchanged w0 (put_entry name e w).
Proof.
  intros Ht [Hd Hl]. split; [|done]. simpl. by rewrite live_eq_temp_insert.
Qed.

Lemma unchanged_del w0 w name : is_temp name = true →
  unchanged w0 w → unchanged w0 (del_entry name w).
Proof.
  intros Ht [Hd Hl]. split; [|done]. simpl. by rewrite live_eq_temp_delete.
Qed.

Lemma written_del r w0 w name : is_temp name = true →
  written r w0 w → written r w0 (del_entry name w).
Proof.
  intros Ht (Hv & (len & Hm & Hl & Hd) & Hlog). split_and!; [done| |done].
  exists len. split_and!; [done..|]. simpl. by rewrite live_eq_temp_delete.
Qed.

(** A write is atomic: it happens completely or, as far as readers can tell,
    not at all; success means it happened. *)
Lemma writeLocked_spec record w0 :
  triple (unchanged w0) (writeLocked record) (λ _, written record w0)
    (λ _ w, unchanged w0 w ∨ written record w0 w)
    (λ w, unchanged w0 w ∨ written record w0 w).
Proof.
  unfold writeLocked. apply triple_lift; [|tauto]. intros [] Hv.
  destruct (marshal_record record) as [len|] eqn:Hlen; [|apply triple_throw; tauto].
  destruct (maxJournalRecordSize <? len) eqn:Hmax; [apply triple_throw; tauto|]. zbool.
  apply triple_get. intros d. destruct (temp_name _ _ _) as [temp|] eqn:Ht;
    [|apply triple_throw; tauto].
  apply temp_name_temp in Ht as [Ht Hfree].
  eapply triple_bind with (Q' := λ _, unchanged w0); [|intros _].
  { apply triple_sys_or; [|tauto..]. intros w [Hw _]. by apply unchanged_put. }
  apply triple_deferring.
  - do 5 (eapply triple_bind with (Q' := λ _, unchanged w0); [|intros _];
      [apply triple_sys_or; auto using unchanged_put|]).
    eapply triple_bind with (Q' := λ _, written record w0); [|intros _].
    + apply triple_sys_or; [|tauto..]. intros w [Hd Hl].
      split_and!; [done| |simpl; by rewrite Hl]. exists len. split_and!; [done..|].
      simpl. by rewrite live_eq_temp_delete, Hd.
    + eapply triple_conseq; [apply preserves_syncDirectory|simpl; eauto..].
  - apply preserves_bind; [|intros ?; apply preserves_ret].
    apply preserves_sys. intros. by apply written_del.
  - apply preserves_bind; [|intros ?; apply preserves_ret].
    apply preserves_sys. intros w [?|?]; [left; by apply unchanged_del|right; by apply written_del].
  - tauto.
Qed.

(** ** What the readers return *)

Definition good_entry (ne : string * jentry) (r : JournalRecord) : Prop :=
  je_kind ne.2 = KRegular ∧ 0 < je_size ne.2 <= maxJournalRecordSize ∧
  je_content ne.2 = Some (r, false) ∧ validateJournalRecord r = inr tt ∧
  ne.1 = path (ra_ID (jr_Action r)).

Definition live_entries (l : list (string * jentry)) : list (string * jentry) :=
  filter (λ ne, is_temp ne.1 = false) l.

(** The directory holds exactly the records [rs], in the order of the readers. *)
Definition loaded (d : gmap string jentry) (rs : list JournalRecord) (total : Z) : Prop :=
  ∃ l rs0, l ≡ₚ live_entries (map_to_list d) ∧ Forall2 good_entry l rs0 ∧
    rs ≡ₚ rs0 ∧ StronglySorted record_le rs ∧ total = sumZ (λ ne, je_size ne.2) l.

Lemma reads_lift {A} (r : jerror + A) : reads (lift r) (λ a _, r = inr a).
Proof. destruct r; [apply reads_throw|by apply reads_ret]. Qed.

Lemma reads_readPathLocked name :
  reads (readPathLocked name) (λ r w, ∃ e, jw_dir w !! name = Some e ∧
    je_content e = Some (r, false) ∧ validateJournalRecord r = inr tt).
Proof.
  unfold readPathLocked. apply reads_seq; [apply reads_call|intros _].
  eapply reads_bind; [apply reads_gets|]. intros d.
  destruct (d !! name) as [e|] eqn:Hd; [|apply reads_throw].
  destruct (je_content e) as [[r tr]|] eqn:He; [|apply reads_throw].
  eapply reads_bind; [apply reads_lift|]. intros [].
  destruct tr; [apply reads_throw|]. apply reads_ret. intros w Hv ->. eauto.
Qed.

Lemma reads_load_entries entries : ∀ recs total,
  reads (load_entries entries recs total) (λ rt w,
    (∀ ne, ne ∈ entries → jw_dir w !! ne.1 = Some ne.2) →
    ∃ rs0, rt.1 = recs ++ rs0 ∧ Forall2 good_entry (live_entries entries) rs0 ∧
      rt.2 = total + sumZ (λ ne, je_size ne.2) (live_entries entries)).
Proof.
  induction entries as [|[name e] entries IH]; intros recs total; cbn [load_entries].
  - apply reads_ret. intros w _. exists []. rewrite app_nil_r. simpl. split_and!; [done|constructor|lia].
  - unfold live_entries. rewrite filter_cons. simpl. fold (is_temp name).
    destruct (is_temp name) eqn:Ht.
    + rewrite decide_False by done. eapply reads_conseq; [apply IH|].
      intros rt w H Hin. apply H. intros ne Hne. apply Hin. by right.
    + rewrite decide_True by done.
      prog_if E1; [apply reads_throw|].
      apply reads_seq; [apply reads_call|intros _].
      prog_if E2; [apply reads_throw|]. zbool.
      eapply reads_bind; [apply reads_readPathLocked|]. intros r.
      prog_if E3; [apply reads_throw|]. zbool. apply str_eqb_eq in E3.
      eapply reads_conseq; [apply IH|]. intros [rs t] w HL (e' & Hd & Hc & Hv) Hin.
      destruct HL as (rs0 & Hr1 & Hr2 & Hr3); [intros ne Hne; apply Hin; by right|].
      assert (e' = e) as -> by (specialize (Hin (name, e) ltac:(left)); simpl in Hin; congruence).
      simpl in *. exists (r :: rs0). split_and!.
      * by rewrite Hr1, <-app_assoc.
      * constructor; [|done]. split_and!; done.
      * unfold live_entries in Hr3. lia.
Qed.

#[local] Instance record_le_total : Total record_le.
Proof. intros a b. unfold record_le. lia. Qed.
#[local] Instance record_le_trans : Transitive record_le.
Proof. intros a b c. unfold record_le. lia. Qed.

Lemma ReadDir_perm d : ReadDir d ≡ₚ map_to_list d.
Proof. apply merge_sort_Permutation. Qed.

Lemma reads_loadLocked : reads loadLocked (λ rt w, loaded (jw_dir w) rt.1 rt.2).
Proof.
  unfold loadLocked. apply reads_seq; [apply reads_call|intros _].
  eapply reads_bind; [apply reads_gets|]. intros d.
  eapply reads_bind; [apply reads_load_entries|]. intros [recs total].
  apply reads_ret. intros w Hload ->. simpl in *.
  destruct Hload as (rs0 & -> & HF & ->).
  { intros [n e] Hin. rewrite ReadDir_perm in Hin. by apply elem_of_map_to_list in Hin. }
  exists (live_entries (ReadDir (jw_dir w))), rs0. simpl.
  split_and!; [by unfold live_entries; rewrite ReadDir_perm|done|apply merge_sort_Permutation| |done].
  apply (StronglySorted_merge_sort _).
Qed.

(** Reading off a loaded directory. *)
Lemma loaded_elem d rs total r : loaded d rs total → r ∈ rs →
  ∃ e, d !! path (ra_ID (jr_Action r)) = Some e ∧ je_content e = Some (r, false) ∧
    validateJournalRecord r = inr tt ∧ je_kind e = KRegular.
Proof.
  intros (l & rs0 & Hl & HF & Hp & _ & _) Hr. rewrite Hp in Hr.
  apply list_elem_of_lookup in Hr as [i Hi].
  destruct (Forall2_lookup_r _ _ _ _ _ HF Hi) as ([n e] & Hi' & Hk & Hs & Hc & Hv & Hn).
  simpl in *. subst n. exists e. split_and!; [|done..].
  apply list_elem_of_lookup_2 in Hi'. rewrite Hl in Hi'.
  apply list_elem_of_filter in Hi' as [_ Hi']. by apply elem_of_map_to_list in Hi'.
Qed.

Lemma loaded_lookup d rs total name e : loaded d rs total → is_temp name = false →
  d !! name = Some e → ∃ r, r ∈ rs ∧ good_entry (name, e) r.
Proof.
  intros (l & rs0 & Hl & HF & Hp & _ & _) Ht Hd.
  assert ((name, e) ∈ l) as Hin.
  { rewrite Hl. apply list_elem_of_filter. split; [done|]. by apply elem_of_map_to_list. }
  apply list_elem_of_lookup in Hin as [i Hi].
  destruct (Forall2_lookup_l _ _ _ _ _ HF Hi) as (r & Hr & Hg).
  exists r. split; [|done]. rewrite Hp. by eapply list_elem_of_lookup_2.
Qed.

(** ** The ghost log *)

(** Executions of an action since its file was last removed. *)
Fixpoint execs (id : Z) (log : list event) : Z :=
  match log with
  | [] => 0
  | EvRemove i :: log => if i =? id then 0 else execs id log
  | EvExec i :: log => (if i =? id then 1 else 0) + execs id log
  | _ :: log => execs id log
  end.

(** What the log of a correct agent looks like, newest event first: an action
    is executed only once between removals, right after its record was made
    durable in phase [executing], which itself follows the acknowledged
    "running" report; its file is removed right after the server acknowledged a
    terminal report. *)
Fixpoint log_ok (log : list event) : Prop :=
  match log with
  | [] => True
  | EvExec id :: log =>
    execs id log = 0 ∧
    (∃ r log', log = EvWrite r :: EvReport id "running" :: log' ∧
      ra_ID (jr_Action r) = id ∧ jr_Phase r = JournalExecuting) ∧ log_ok log
  | EvRemove id :: log =>
    (∃ st log', log = EvReport id st :: log' ∧ terminal_status (norm st) = true) ∧ log_ok log
  | _ :: log => log_ok log
  end.

Definition holds (d : gmap string jentry) (id : Z) (r : JournalRecord) : Prop :=
  ∃ e, d !! path id = Some e ∧ je_content e = Some (r, false).

(** The executions an entry is compatible with. *)
Definition entry_ok (log : list event) (id : Z) (oe : option jentry) : Prop :=
  match oe with
  | None => execs id log = 0
  | Some e =>
    execs id log <= 1 ∧
    match je_content e with
    | None => True
    | Some (r, _) => jr_Phase r = JournalAccepted → execs id log = 0
    end
  end.

(** Ids decoded from JSON are 64-bit integers. *)
Definition dir_int64 (d : gmap string jentry) : Prop :=
  ∀ name e r b, is_temp name = false → d !! name = Some e → je_content e = Some (r, b) →
    ra_ID (jr_Action r) <= max_int64.

(** Names agree with the ids of the records. *)
Definition dir_named (d : gmap string jentry) : Prop :=
  ∀ id e r b, valid_id id → d !! path id = Some e → je_content e = Some (r, b) →
    ra_ID (jr_Action r) = id.

(** The invariant on the disk and the past, which survives a crash; [jinv]
    adds what [loadLocked] checked at the start of the process. *)
Record disk_inv (w : jworld) : Prop := {
  di_int64 : dir_int64 (jw_dir w);
  di_entries : ∀ id, valid_id id → entry_ok (jw_log w) id (jw_dir w !! path id);
  di_log : log_ok (jw_log w);
}.

Definition jinv (w : jworld) : Prop := disk_inv w ∧ dir_named (jw_dir w).

Lemma path_live id : valid_id id → is_temp (path id) = false.
Proof. intros []. apply path_not_temp. lia. Qed.

Lemma disk_inv_unchanged w0 w : unchanged w0 w → disk_inv w0 → disk_inv w.
Proof.
  intros [Hd Hl] []. split.
  - intros n e r b Hn He. rewrite (Hd _ Hn) in He. by eapply di_int65.
  - intros id Hid. rewrite Hl, (Hd _ (path_live _ Hid)). auto.
  - by rewrite Hl.
Qed.

Lemma jinv_unchanged w0 w : unchanged w0 w → jinv w0 → jinv w.
Proof.
  intros Hu [Hd Hn]. split; [by eapply disk_inv_unchanged|].
  intros id e r b Hid He. destruct Hu as [Hu _]. rewrite (Hu _ (path_live _ Hid)) in He. eauto.
Qed.

Lemma written_holds r w0 w : written r w0 w → ra_ID (jr_Action r) <= max_int64 →
  holds (jw_dir w) (ra_ID (jr_Action r)) r.
Proof.
  intros (Hv & (len & _ & _ & Hd) & _) Hmax. apply validate_id in Hv.
  exists (entry_of r len). split; [|done].
  rewrite (Hd _ (path_live _ (conj Hv Hmax))). apply lookup_insert_eq.
Qed.

(** A write keeps the invariant when the executions allow the new record. *)
Lemma jinv_written r w0 w : written r w0 w → jinv w0 → ra_ID (jr_Action r) <= max_int64 →
  execs (ra_ID (jr_Action r)) (jw_log w0) <= 1 →
  (jr_Phase r = JournalAccepted → execs (ra_ID (jr_Action r)) (jw_log w0) = 0) →
  jinv w.
Proof.
  intros (Hv & (len & _ & _ & Hd) & Hl) [[Hi He Hlog] Hn] Hmax Hx Ha.
  apply validate_id in Hv. set (k := ra_ID (jr_Action r)) in *.
  assert (valid_id k) as Hk by done.
  split; [split|].
  - intros n e r' b Hn' Hlk. rewrite (Hd _ Hn') in Hlk.
    destruct (decide (n = path k)) as [->|Hne].
    + rewrite lookup_insert_eq in Hlk. intros Hc. simplify_eq/=. done.
    + rewrite lookup_insert_ne in Hlk by done. eauto.
  - intros id Hid. rewrite Hl, (Hd _ (path_live _ Hid)).
    destruct (decide (id = k)) as [->|Hne].
    + rewrite lookup_insert_eq. by split.
    + rewrite lookup_insert_ne by (intros Hp; apply path_inj in Hp; done).
      specialize (He _ Hid). by destruct (_ !! path id).
  - by rewrite Hl.
  - intros id e r' b Hid Hlk Hc. rewrite (Hd _ (path_live _ Hid)) in Hlk.
    destruct (decide (id = k)) as [->|Hne].
    + rewrite lookup_insert_eq in Hlk. by simplify_eq/=.
    + rewrite lookup_insert_ne in Hlk by (intros Hp; apply path_inj in Hp; done). eauto.
Qed.

Lemma triple_default_now {B} t (k : time → JM B) P Q R C :
  (∀ t, triple P (k t) Q R C) → triple P (bindM (default_now t) k) Q R C.
Proof.
  intros Hk. unfold default_now. eapply triple_bind with (Q' := λ _, P); [|exact Hk].
  destruct (is_zero_time t); [by apply triple_now|by apply triple_ret].
Qed.

(** A write at the end of an operation, from an exactly known world. *)
Lemma triple_write_ret record w0 (I : jworld → Prop) :
  (∀ w, unchanged w0 w → I w) → (∀ w, written record w0 w → I w) →
  triple (λ w, w = w0) (writeLocked record;;; retM record)
    (λ r w, r = record ∧ written record w0 w) (λ _, I) I.
Proof.
  intros Hu Hw. eapply triple_bind with (Q' := λ _, written record w0).
  - eapply triple_conseq; [apply writeLocked_spec|..]; simpl; [|auto|intros _|]; [|naive_solver..].
    by intros w ->.
  - intros _. apply triple_ret. auto.
Qed.

Lemma reads_ensureCapacity j record :
  reads (ensureCapacityLocked j record) (λ _ w, ∃ rs total len,
    loaded (jw_dir w) rs total ∧ Z.of_nat (length rs) < j_maxRecords j ∧
    marshal_record record = Some len ∧ len <= maxJournalRecordSize ∧
    total + reserve rs + len + terminalGrowthReserve <= j_maxBytes j).
Proof.
  unfold ensureCapacityLocked. eapply reads_bind; [apply reads_loadLocked|].
  intros [rs total]. prog_if E; [apply reads_throw|].
  destruct (marshal_record record) as [len|] eqn:Hl; [|apply reads_throw].
  prog_if E'; [apply reads_throw|]. zbool.
  apply reads_ret. intros w Hload. simpl in Hload. exists rs, total, len. auto with lia.
Qed.

Definition begun (j : Journal) (action : ResponseAction) (w0 : jworld)
    (r : JournalRecord) (w : jworld) : Prop :=
  Normalize action = inr (jr_Action r) ∧ jr_Phase r = JournalAccepted ∧
  jw_dir w0 !! path (ra_ID (jr_Action r)) = None ∧
  (∃ rs total len, loaded (jw_dir w0) rs total ∧ Z.of_nat (length rs) < j_maxRecords j ∧
     marshal_record r = Some len ∧
     total + reserve rs + len + terminalGrowthReserve <= j_maxBytes j) ∧
  written r w0 w.

Lemma Begin_triple j action t w0 (I : jworld → Prop) :
  (∀ w, unchanged w0 w → I w) →
  (∀ r w, begun j action w0 r w → I w) →
  triple (λ w, w = w0) (Begin j action t) (begun j action w0) (λ _, I) I.
Proof.
  intros Hu Hw. unfold Begin.
  assert (I w0) as HI by (apply Hu; by split).
  apply triple_lift; [|by intros _ w ->]. intros a Ha.
  destruct (Normalize action) as [e|a'] eqn:Hn; [done|]. simplify_eq.
  apply triple_default_now. intros t'.
  apply triple_call; [|by intros w ->..].
  apply triple_get. intros d.
  apply triple_start. intros w [-> <-].
  case_decide as Hex; [apply triple_throw; by intros w ->|].
  apply eq_None_not_Some in Hex.
  eapply triple_reads_bind; [apply reads_ensureCapacity| |by intros ? ? ->|by intros ? ->].
  intros []. apply triple_start. intros w [-> (rs & total & len & Hl1 & Hl2 & Hl3 & _ & Hl4)].
  set (record := Build_JournalRecord _ _ _ _ _ _) in *.
  assert (Hb : ∀ w, written record w0 w → begun j action w0 record w).
  { intros w Hwr. split_and!; [done..| |done]. by exists rs, total, len. }
  eapply triple_conseq; [apply (triple_write_ret record w0 I); eauto|done| |done..].
  intros r w [-> Hwr]. auto.
Qed.

(** The common shape of [MarkExecuting] and [Complete]. *)
Lemma transition_triple id t from (next : JournalRecord → time → JournalRecord)
    (check : JournalRecord → jerror + unit) w0 (I : jworld → Prop) :
  (∀ w, unchanged w0 w → I w) →
  (∀ r0 t w, holds (jw_dir w0) id r0 → jr_Phase r0 = from → written (next r0 t) w0 w → I w) →
  triple (λ w, w = w0)
    (t <- default_now t;;
     record <- readLocked id;;
     if negb (str_eqb (jr_Phase record) from) then throw (ErrPhase id (jr_Phase record)) else
     lift (check record);;;
     writeLocked (next record t);;; retM (next record t))
    (λ r w, ∃ r0 t, holds (jw_dir w0) id r0 ∧ validateJournalRecord r0 = inr tt ∧
       jr_Phase r0 = from ∧ check r0 = inr tt ∧ r = next r0 t ∧ written r w0 w)
    (λ _, I) I.
Proof.
  intros Hu Hw. assert (I w0) as HI by (apply Hu; by split).
  apply triple_default_now. intros t'.
  eapply triple_reads_bind; [apply reads_readPathLocked| |by intros ? ? ->|by intros ? ->].
  intros r0. apply triple_start. intros w [-> (e & Hd & Hc & Hv)].
  prog_if E; [apply triple_throw; by intros w ->|]. zbool. apply str_eqb_eq in E.
  assert (holds (jw_dir w0) id r0) by (by exists e).
  apply triple_lift; [|by intros _ w ->]. intros [] Hck.
  eapply triple_conseq; [apply (triple_write_ret (next r0 t') w0 I); eauto|done| |done..].
  intros r w [-> Hwr]. by exists r0, t'.
Qed.

Lemma MarkExecuting_triple id t w0 (I : jworld → Prop) :
  (∀ w, unchanged w0 w → I w) →
  (∀ r0 t w, holds (jw_dir w0) id r0 → jr_Phase r0 = JournalAccepted →
     written (with_phase r0 JournalExecuting (jr_Result r0) t) w0 w → I w) →
  triple (λ w, w = w0) (MarkExecuting id t)
    (λ r w, ∃ r0 t, holds (jw_dir w0) id r0 ∧ jr_Phase r0 = JournalAccepted ∧
       r = with_phase r0 JournalExecuting (jr_Result r0) t ∧ written r w0 w)
    (λ _, I) I.
Proof.
  intros Hu Hw. eapply triple_conseq;
    [apply (transition_triple id t JournalAccepted
       (λ r t, with_phase r JournalExecuting (jr_Result r) t) (λ _, inr tt) w0 I Hu Hw)|done| |done..].
  simpl. naive_solver.
Qed.

Definition completed (id : Z) (result : ExecutionResult) (r0 : JournalRecord) (t : time)
    : JournalRecord :=
  with_phase r0 JournalTerminal (Some (boundedResult (terminal_result id r0 result))) t.

Lemma Complete_triple id result t w0 (I : jworld → Prop) :
  (∀ w, unchanged w0 w → I w) →
  (∀ r0 t w, holds (jw_dir w0) id r0 → jr_Phase r0 = JournalExecuting →
     written (completed id result r0 t) w0 w → I w) →
  triple (λ w, w = w0) (Complete id result t)
    (λ r w, ∃ r0 t, holds (jw_dir w0) id r0 ∧ jr_Phase r0 = JournalExecuting ∧
       terminal_status (norm (er_Status result)) = true ∧
       r = completed id result r0 t ∧ written r w0 w)
    (λ _, I) I.
Proof.
  intros Hu Hw.
  pose proof (transition_triple id t JournalExecuting (completed id result)
    (λ _, if negb (terminal_status (norm (er_Status result)))
          then inl (ErrTerminalStatus id (norm (er_Status result))) else inr tt) w0 I Hu Hw) as H.
  unfold Complete. simpl in *. destruct (terminal_status (norm (er_Status result))); simpl in *.
  - eapply triple_conseq; [exact H|naive_solver..].
  - eapply triple_conseq; [exact H|done|naive_solver..].
Qed.

Lemma Delete_triple id w0 (I : jworld → Prop) :
  I w0 → I (log_event (EvRemove id) (del_entry (path id) w0)) →
  triple (λ w, w = w0) (Delete id)
    (λ _ w, w = log_event (EvRemove id) (del_entry (path id) w0)) (λ _, I) I.
Proof.
  intros H0 H1. unfold Delete.
  eapply triple_bind with (Q' := λ _ w, w = log_event (EvRemove id) (del_entry (path id) w0)).
  - apply triple_sys_or; by intros w ->.
  - intros _. eapply triple_conseq; [eapply (preserves_syncDirectory (λ w, w = log_event (EvRemove id) _))|
      intros ? H; exact H|done|by intros ? ? ->|by intros ? ->].
Qed.

(** ** Recovery *)

Definition is_executing (r : JournalRecord) : bool := str_eqb (jr_Phase r) JournalExecuting.

(** The terminal record an interrupted execution becomes. *)
Definition failed_record (t : time) (r : JournalRecord) : JournalRecord :=
  with_phase r JournalTerminal (Some (indeterminate r t)) t.

Lemma remove_temps_triple w0 entries :
  triple (unchanged w0) (remove_temps entries) (λ _, unchanged w0) (λ _, unchanged w0)
    (unchanged w0).
Proof.
  induction entries as [|[n e] entries IH]; cbn [remove_temps]; [by apply triple_ret|].
  eapply triple_bind with (Q' := λ _, unchanged w0); [|intros _; exact IH].
  prog_if E; [|by apply triple_ret]. zbool.
  apply triple_sys_or; auto using unchanged_del.
Qed.

(** A record of a loaded directory, with its place. *)
Definition stored (d : gmap string jentry) (r : JournalRecord) : Prop :=
  ∃ e, good_entry (path (ra_ID (jr_Action r)), e) r ∧ d !! path (ra_ID (jr_Action r)) = Some e.

Lemma loaded_stored d rs total r : loaded d rs total → r ∈ rs → stored d r.
Proof.
  intros (l & rs0 & Hl & HF & Hp & _ & _) Hr. rewrite Hp in Hr.
  apply list_elem_of_lookup in Hr as [i Hi].
  destruct (Forall2_lookup_r _ _ _ _ _ HF Hi) as ([n e] & Hi' & Hg).
  pose proof Hg as (_ & _ & _ & _ & Hn). simpl in Hn. subst n. exists e. split; [done|].
  apply list_elem_of_lookup_2 in Hi'. rewrite Hl in Hi'.
  apply list_elem_of_filter in Hi' as [_ Hi']. by apply elem_of_map_to_list in Hi'.
Qed.

(** The state of one file during the second loop of [recover]. *)
Definition recovering (t : time) (d0 : gmap string jentry) (name : string)
    (oe : option jentry) : Prop :=
  oe = d0 !! name ∨ ∃ r len, name = path (ra_ID (jr_Action r)) ∧ stored d0 r ∧
    is_executing r = true ∧ oe = Some (entry_of (failed_record t r) len).

Lemma fail_executing_triple t w0 rs todo :
  let I w := (∀ name, is_temp name = false → recovering t (jw_dir w0) name (jw_dir w !! name)) in
  let D done w := ∀ r, r ∈ done → is_executing r = true →
      ∃ len, jw_dir w !! path (ra_ID (jr_Action r)) = Some (entry_of (failed_record t r) len) in
  (∀ r, r ∈ rs → stored (jw_dir w0) r) →
  ∀ done, rs = done ++ todo →
  triple (λ w, I w ∧ D done w) (fail_executing t todo) (λ _ w, I w ∧ D rs w) (λ _, I) I.
Proof.
  intros I D Hst. induction todo as [|r todo IH]; intros done ->; cbn [fail_executing].
  - rewrite app_nil_r. by apply triple_ret.
  - eapply triple_bind with (Q' := λ _ w, I w ∧ D (done ++ [r]) w);
      [|intros ?; apply IH; by rewrite <-app_assoc].
    fold (is_executing r). prog_if E.
    + apply triple_start. intros w [HI HD].
      assert (Hr : stored (jw_dir w0) r) by (apply Hst; set_solver).
      assert (Hpath : is_temp (path (ra_ID (jr_Action r))) = false).
      { destruct Hr as (e & (_ & _ & _ & Hv & _) & _). apply validate_id in Hv.
        apply path_not_temp. lia. }
      assert (Hw : ∀ w', written (failed_record t r) w w' → I w' ∧ D (done ++ [r]) w').
      { intros w' (_ & (len & _ & _ & Hd) & _). simpl in Hd. split.
        - intros n Hn. rewrite (Hd _ Hn).
          destruct (decide (n = path (ra_ID (jr_Action r)))) as [->|Hne].
          + rewrite lookup_insert_eq. right. by exists r, len.
          + rewrite lookup_insert_ne by done. auto.
        - intros r' Hr' He'.
          destruct (decide (path (ra_ID (jr_Action r')) = path (ra_ID (jr_Action r)))) as [Heq|Hne].
          + assert (r' = r) as ->; [|rewrite (Hd _ Hpath), lookup_insert_eq; eauto].
            assert (stored (jw_dir w0) r') as (e' & (_ & _ & Hc' & _) & He1)
              by (apply Hst; set_solver).
            destruct Hr as (e & (_ & _ & Hc & _) & He2). simpl in *. congruence.
          + assert (r' ∈ done) as Hin by set_solver.
            assert (stored (jw_dir w0) r') as (e' & (_ & _ & _ & Hv' & _) & _)
              by (apply Hst; set_solver).
            apply validate_id in Hv'.
            rewrite (Hd _ (path_not_temp _ (Z.lt_le_incl _ _ Hv'))), lookup_insert_ne by done. auto. }
      assert (Hu : ∀ w', unchanged w w' → I w').
      { intros w' [Hd _] n Hn. rewrite (Hd _ Hn). auto. }
      eapply triple_conseq; [apply (writeLocked_spec (failed_record t r) w)|..]; simpl.
      * by intros ? ->.
      * auto.
      * intros _ w' [?|?]; [auto|by apply Hw].
      * intros w' [?|?]; [auto|by apply Hw].
    + apply triple_ret. intros w [HI HD]. split; [done|].
      intros r' [Hr'| ->%list_elem_of_singleton]%elem_of_app He; [auto|congruence].
Qed.

(** What [recover] makes of one file. *)
Definition recovered_entry (d0 d : gmap string jentry) (name : string) : Prop :=
  match d0 !! name with
  | None => d !! name = None
  | Some e => ∃ r, good_entry (name, e) r ∧
    if is_executing r then ∃ t len, d !! name = Some (entry_of (failed_record t r) len)
    else d !! name = Some e
  end.

Lemma recover_triple w0 :
  triple (λ w, w = w0) recover
    (λ _ w, ∀ name, is_temp name = false → recovered_entry (jw_dir w0) (jw_dir w) name)
    (λ _ w, ∃ t, ∀ name, is_temp name = false → recovering t (jw_dir w0) name (jw_dir w !! name))
    (λ w, ∃ t, ∀ name, is_temp name = false → recovering t (jw_dir w0) name (jw_dir w !! name)).
Proof.
  assert (Hu : ∀ w, unchanged w0 w → ∃ t, ∀ name, is_temp name = false →
      recovering t (jw_dir w0) name (jw_dir w !! name)).
  { intros w [Hd _]. exists 0. intros n Hn. left. by apply Hd. }
  unfold recover. apply triple_call; [|by intros w ->; apply Hu; split..].
  apply triple_get. intros d.
  eapply triple_bind with (Q' := λ _, unchanged w0).
  { eapply triple_conseq; [apply (remove_temps_triple w0)|simpl; auto..]. by intros w [-> _]. }
  intros _. eapply triple_reads_bind; [apply reads_loadLocked| |auto..].
  intros [rs total]. simpl.
  eapply triple_bind with (Q' := λ _ w, unchanged w0 w ∧ loaded (jw_dir w) rs total);
    [apply triple_now; auto|]. intros t.
  apply triple_start. intros w1 [Hw1 Hload].
  assert (Hst : ∀ r, r ∈ rs → stored (jw_dir w1) r) by (intros; by eapply loaded_stored).
  assert (Hrec : ∀ n oe, is_temp n = false → recovering t (jw_dir w1) n oe →
      recovering t (jw_dir w0) n oe).
  { intros n oe Hn [->|(r & len & -> & (e & Hg & He) & Hx & ->)].
    - left. by apply Hw1.
    - right. exists r, len. split_and!; try done. exists e. split; [done|].
      destruct Hw1 as [Hw1 _]. by rewrite <-(Hw1 _ Hn). }
  eapply triple_bind.
  - eapply triple_conseq; [apply (fail_executing_triple t w1 rs rs Hst []); done|..]; simpl.
    + intros w ->. split; [by left|]. intros r Hr. set_solver.
    + intros ? w H. exact H.
    + intros _ w H. exists t. auto.
    + intros w H. exists t. auto.
  - intros u. eapply triple_conseq; [eapply preserves_syncDirectory|intros w H; exact H|..];
      simpl; [|intros _ w [H _]; eauto|intros w [H _]; eauto].
    intros _ w [HI HD] n Hn. unfold recovered_entry.
    destruct Hw1 as [Hw1 _]. rewrite <-(Hw1 _ Hn).
    destruct (jw_dir w1 !! n) as [e|] eqn:He.
    + destruct (loaded_lookup _ _ _ _ _ Hload Hn He) as (r & Hr & Hg).
      exists r. split; [done|]. pose proof Hg as (_ & _ & Hc & _ & Hname). simpl in Hname, Hc.
      destruct (is_executing r) eqn:Hx.
      * destruct (HD r Hr Hx) as [len Hlen]. exists t, len. by rewrite Hname.
      * destruct (HI n Hn) as [H|(r' & len & Hn' & (e' & (_ & _ & Hc' & _) & He') & Hx' & _)].
        -- by rewrite H.
        -- simpl in *. rewrite <-Hn' in He'. congruence.
    + destruct (HI n Hn) as [H|(r' & len & Hn' & (e' & _ & He') & _)]; [by rewrite H|].
      simpl in *. rewrite <-Hn' in He'. congruence.
Qed.

Definition log_kept (w0 w : jworld) : Prop :=
  (∀ id, execs id (jw_log w) = execs id (jw_log w0)) ∧ (log_ok (jw_log w0) → log_ok (jw_log w)).

Lemma preserves_writeLocked (I : jworld → Prop) record :
  (∀ w0 w, I w0 → unchanged w0 w ∨ written record w0 w → I w) → preserves I (writeLocked record).
Proof.
  intros H. apply triple_start. intros w0 Hw0.
  eapply triple_conseq; [apply (writeLocked_spec record w0)|..]; simpl; [|eauto..].
  by intros w ->.
Qed.

Lemma log_kept_write w0 record : preserves (log_kept w0) (writeLocked record).
Proof.
  apply preserves_writeLocked. intros w1 w [H1 H2] [[_ Hl]|(_ & _ & Hl)]; split; rewrite Hl; done.
Qed.

Lemma log_kept_recover w0 : preserves (log_kept w0) recover.
Proof.
  assert (Hid : ∀ e : jerror, preserves (log_kept w0) (sys_or e id)) by (intros; by apply preserves_sys_or).
  unfold recover. apply preserves_bind; [apply Hid|intros _].
  apply preserves_bind; [apply preserves_gets|intros d].
  apply preserves_bind; [|intros _].
  { induction (ReadDir d) as [|[n e] l IH]; cbn [remove_temps]; [apply preserves_ret|].
    apply preserves_bind; [|intros _; exact IH]. prog_if E; [|apply preserves_ret].
    by apply preserves_sys_or. }
  apply preserves_bind; [eapply preserves_reads, reads_loadLocked|intros [rs total]].
  apply preserves_bind; [apply preserves_now|intros t].
  apply preserves_bind; [|intros _; apply preserves_syncDirectory].
  induction rs as [|r rs IH]; cbn [fail_executing]; [apply preserves_ret|].
  apply preserves_bind; [|intros _; exact IH]. prog_if E; [apply log_kept_write|apply preserves_ret].
Qed.

Lemma disk_inv_recovering w0 w :
  disk_inv w0 → log_kept w0 w →
  (∀ name, is_temp name = false → ∃ t, recovering t (jw_dir w0) name (jw_dir w !! name)) →
  disk_inv w.
Proof.
  intros [Hi He Hl] [Hx Hlog] Hrec. split; [| |by apply Hlog].
  - intros n e r b Hn Hlk Hc. destruct (Hrec n Hn) as [t [Heq|(r0 & len & -> & (e0 & Hg & He0) & _ & Heq)]].
    + rewrite Heq in Hlk. by eapply Hi.
    + rewrite Heq in Hlk. simplify_eq/=. destruct Hg as (_ & _ & Hc & _). by eapply Hi.
  - intros id Hid. specialize (He id Hid). pose proof (path_live _ Hid) as Hn.
    destruct (Hrec _ Hn) as [t [->|(r0 & len & Hp & (e0 & _ & He0) & _ & ->)]].
    + destruct (jw_dir w0 !! path id) as [e|]; simpl in *; rewrite Hx; [|done].
      by destruct (je_content e) as [[? ?]|].
    + rewrite Hp, He0 in He. simpl in *. rewrite Hx. destruct He as [He _]. by split.
Qed.

Lemma recovered_recovering d0 d name :
  recovered_entry d0 d name → ∃ t, recovering t d0 name (d !! name).
Proof.
  unfold recovered_entry, recovering. destruct (d0 !! name) as [e|] eqn:He.
  - intros (r & Hg & Hx). destruct (is_executing r) eqn:Hex; [|exists 0; by left].
    destruct Hx as (t & len & Hx). exists t. right. exists r, len.
    pose proof Hg as (_ & _ & _ & _ & Hn). simpl in Hn. subst name. split_and!; try done.
    by exists e.
  - intros ->. exists 0. by left.
Qed.

(** Names of a recovered directory agree with the records. *)
Lemma recovered_named d0 d : dir_int64 d0 →
  (∀ name, is_temp name = false → recovered_entry d0 d name) → dir_named d.
Proof.
  intros Hi Hrec id e r b Hid Hd Hc. pose proof (path_live _ Hid) as Hn.
  specialize (Hrec _ Hn). unfold recovered_entry in Hrec.
  destruct (d0 !! path id) as [e0|] eqn:He0; [|congruence].
  destruct Hrec as (r0 & (_ & _ & Hc0 & Hv & Hname) & Hx). simpl in Hc0, Hname.
  assert (id = ra_ID (jr_Action r0)) as ->.
  { apply path_inj; [done| |done]. split; [by apply validate_id|]. by eapply Hi. }
  destruct (is_executing r0); [destruct Hx as (t & len & Hx)|]; simplify_eq/=; done.
Qed.

Lemma recovered_phase d0 d id r : valid_id id →
  (∀ name, is_temp name = false → recovered_entry d0 d name) →
  holds d id r → jr_Phase r ≠ JournalExecuting.
Proof.
  intros Hid Hrec (e & He & Hc). specialize (Hrec _ (path_live _ Hid)). unfold recovered_entry in Hrec.
  destruct (d0 !! path id) as [e0|] eqn:He0; [|congruence].
  destruct Hrec as (r0 & (_ & _ & Hc0 & _) & Hx). simpl in Hc0.
  destruct (is_executing r0) eqn:Hex.
  - destruct Hx as (t & len & Hx). by simplify_eq/=.
  - simplify_eq/=. unfold is_executing in Hex. by apply str_eqb_neq in Hex.
Qed.

Lemma NewJournal_triple dir maxRecords maxBytes :
  triple disk_inv (NewJournal dir maxRecords maxBytes)
    (λ j w, jinv w ∧ 0 < j_maxRecords j ∧ 0 < j_maxBytes j ∧
       ∀ id r, valid_id id → holds (jw_dir w) id r → jr_Phase r ≠ JournalExecuting)
    (λ _, disk_inv) disk_inv.
Proof.
  unfold NewJournal. prog_if E; [by apply triple_throw|].
  apply triple_call; [|done..]. apply triple_call; [|done..].
  apply triple_start. intros w0 Hinv.
  assert (Hboth : triple (λ w, w = w0) recover
    (λ _ w, (∀ name, is_temp name = false → recovered_entry (jw_dir w0) (jw_dir w) name) ∧
       log_kept w0 w) (λ _, disk_inv) disk_inv).
  { assert (Hlog : triple (λ w, w = w0) recover (λ _, log_kept w0) (λ _, log_kept w0) (log_kept w0)).
    { eapply triple_conseq; [apply (log_kept_recover w0)|intros w ->; by split|done..]. }
    eapply triple_conseq; [exact (triple_and _ _ _ _ _ _ _ _ (recover_triple w0) Hlog)|done|done|..].
    - intros _ w [[t H] Hk]. eapply disk_inv_recovering; eauto.
    - intros w [[t H] Hk]. eapply disk_inv_recovering; eauto. }
  eapply triple_bind; [exact Hboth|].
  - intros u. apply triple_ret. intros w [Hrec Hk]. split_and!.
    + split; [|eapply recovered_named; [apply Hinv|done]].
      eapply disk_inv_recovering; [done..|]. intros n Hn.
      eapply recovered_recovering; eauto.
    + simpl. case_match; zbool; lia.
    + simpl. case_match; zbool; lia.
    + intros id r Hid. by eapply recovered_phase.
Qed.

(** ** Contents after a new record *)

Lemma elem_of_live_entries d n e :
  (n, e) ∈ live_entries (map_to_list d) ↔ d !! n = Some e ∧ is_temp n = false.
Proof.
  unfold live_entries. rewrite list_elem_of_filter, elem_of_map_to_list. simpl. tauto.
Qed.

Lemma NoDup_live_entries d : NoDup (live_entries (map_to_list d)).
Proof. apply NoDup_filter, NoDup_map_to_list. Qed.

Lemma live_entries_insert d d' n e : live_eq d' (<[n := e]> d) → d !! n = None → is_temp n = false →
  live_entries (map_to_list d') ≡ₚ (n, e) :: live_entries (map_to_list d).
Proof.
  intros Hd Hn Ht. apply NoDup_Permutation; [apply NoDup_live_entries| |].
  - constructor; [|apply NoDup_live_entries]. rewrite elem_of_live_entries, Hn. by intros [].
  - intros [n' e']. rewrite elem_of_cons, !elem_of_live_entries.
    destruct (decide (n' = n)) as [->|Hne].
    + rewrite (Hd _ Ht), lookup_insert_eq, Hn. naive_solver.
    + split.
      * intros [H Ht']. rewrite (Hd _ Ht'), lookup_insert_ne in H by done. by right.
      * intros [?|[H Ht']]; [naive_solver|]. by rewrite (Hd _ Ht'), lookup_insert_ne.
Qed.

(** The records and sizes of a loaded directory are determined by it. *)
Definition content_of (e : jentry) : option JournalRecord := fst <$> je_content e.
Definition entry_reserve (ne : string * jentry) : Z :=
  match content_of ne.2 with
  | Some r => if str_eqb (jr_Phase r) JournalTerminal then 0 else terminalGrowthReserve
  | None => 0
  end.

Lemma loaded_totals d rs total : loaded d rs total →
  let l := live_entries (map_to_list d) in
  length rs = length l ∧ total = sumZ (λ ne, je_size ne.2) l ∧ reserve rs = sumZ entry_reserve l.
Proof.
  intros (l & rs0 & Hl & HF & Hp & _ & ->). simpl. unfold reserve. rewrite <-Hl, Hp.
  split_and!; [symmetry; by eapply Forall2_length|done|].
  clear Hl Hp.
  induction HF as [|[n e] r l rs0 (_ & _ & Hc & _) HF IH]; [done|]. simpl in *.
  rewrite IH. unfold entry_reserve at 2, content_of. simpl. by rewrite Hc.
Qed.

Lemma begun_totals j action w0 r w rs total :
  begun j action w0 r w → loaded (jw_dir w) rs total →
  Z.of_nat (length rs) <= j_maxRecords j ∧ total + reserve rs <= j_maxBytes j + 1.
Proof.
  intros (_ & Hph & Hnone & (rs0 & total0 & len & Hl0 & Hmax & Hlen & Hcap) & Hwr) Hl.
  destruct Hwr as (Hv & (len' & Hlen' & _ & Hd) & _). simplify_eq.
  pose proof (validate_id _ Hv) as Hid.
  pose proof (live_entries_insert _ _ _ _ Hd Hnone (path_not_temp (ra_ID (jr_Action r)) ltac:(lia))) as Hperm.
  destruct (loaded_totals _ _ _ Hl) as (H1 & H2 & H3).
  destruct (loaded_totals _ _ _ Hl0) as (G1 & G2 & G3).
  rewrite Hperm in H1, H2, H3. simpl in *.
  unfold entry_reserve at 1, content_of in H3. simpl in H3. rewrite Hph in H3. simpl in H3.
  lia.
Qed.

(** Without faults a validated record is written. *)
Lemma writeLocked_quiet record t w len temp :
  validateJournalRecord record = inr tt → marshal_record record = Some len →
  len <= maxJournalRecordSize → temp_name tempAttempts 0 (jw_dir w) = Some temp →
  writeLocked record (quiet t) w = (Ok tt, quiet t,
    JW (<[path (ra_ID (jr_Action record)) := entry_of record len]> (jw_dir w))
       (EvWrite record :: jw_log w)).
Proof.
  intros Hv Hlen Hmax Htemp. set (n := path (ra_ID (jr_Action record))).
  pose proof (temp_name_temp _ _ _ _ Htemp) as [Ht Hfree].
  assert (Hn : is_temp n = false) by (apply validate_id in Hv; apply path_not_temp; lia).
  assert (Hne : temp ≠ n) by congruence.
  set (e := entry_of record len).
  unfold writeLocked. rewrite Hv, Hlen.
  unfold lift, bindM at 1, retM at 1. rewrite (proj2 (Z.ltb_ge _ _) Hmax).
  unfold bindM at 1, gets. rewrite Htemp.
  unfold deferring, try, sys_or, sys, syncDirectory, bindM, retM, quiet.
  cbn [e_faults jw_dir jw_log]. f_equal.
  unfold id, del_entry, activate, log_event, put_entry, del_entry. cbn [jw_dir jw_log]. f_equal.
  fold n e. apply map_eq. intros i.
  destruct (decide (i = temp)) as [->|Hi].
  { by rewrite lookup_delete_eq, lookup_insert_ne. }
  rewrite lookup_delete_ne by done. destruct (decide (i = n)) as [->|Hi'].
  - by rewrite !lookup_insert_eq.
  - rewrite !(lookup_insert_ne _ n) by done. by rewrite lookup_delete_ne, !lookup_insert_ne by done.
Qed.

(** Without faults a validated record is read. *)
Lemma readLocked_quiet id r t w : holds (jw_dir w) id r → validateJournalRecord r = inr tt →
  readLocked id (quiet t) w = (Ok r, quiet t, w).
Proof.
  intros (e & Hd & Hc) Hv. unfold readLocked, readPathLocked, bindM, sys_or, sys, bindM, gets.
  simpl. by rewrite Hd, Hc, Hv.
Qed.

(** ** Properties *)

(** Writing a record is atomic whatever system calls fail and wherever the
    process is killed: readers find either the directory as it was or the
    complete, validated record at its name and nothing else changed; when the
    call succeeds it is the latter. *)
Theorem journal_write_atomic record v w :
  match writeLocked record v w with
  | (Ok _, _, w') => written record w w'
  | (_, _, w') => unchanged w w' ∨ written record w w'
  end.
Proof.
  pose proof (writeLocked_spec record w v w (conj (λ _ _, eq_refl) eq_refl)) as H.
  destruct (writeLocked record v w) as [[[?|?|] v'] w']; exact H.
Qed.

(** A record that was written is what reading its action id returns. *)
Theorem journal_write_read record v w v' w' v2 :
  writeLocked record v w = (Ok tt, v', w') → e_faults v2 = [] →
  readLocked (ra_ID (jr_Action record)) v2 w' = (Ok record, v2, w').
Proof.
  intros Hw Hv2.
  pose proof (writeLocked_spec record w v w (conj (λ _ _, eq_refl) eq_refl)) as H.
  rewrite Hw in H. destruct H as (Hv & (len & _ & _ & Hd) & _).
  pose proof (validate_id _ Hv) as Hid.
  unfold readLocked, readPathLocked, bindM, sys_or, sys, bindM, gets. rewrite Hv2.
  simpl. rewrite (Hd _ (path_not_temp (ra_ID (jr_Action record)) ltac:(lia))), lookup_insert_eq.
  simpl. by rewrite Hv.
Qed.

(** [Begin] makes the normalised action durable in phase [accepted]
    under a name that was free, and only when afterwards the journal holds at
    most [maxRecords] records and its files plus the reserve of 3 MiB for each
    unfinished action fit in [maxBytes] (up to the one newline byte the
    capacity test does not count); otherwise it leaves the journal as it was,
    except that a failure to sync the directory is reported after the record is
    in place. *)
Theorem Begin_capacity j action t v w :
  match Begin j action t v w with
  | (Ok r, _, w') => begun j action w r w' ∧
      ∀ rs total, loaded (jw_dir w') rs total →
        Z.of_nat (length rs) <= j_maxRecords j ∧ total + reserve rs <= j_maxBytes j + 1
  | (_, _, w') => unchanged w w' ∨ ∃ r, begun j action w r w'
  end.
Proof.
  pose proof (Begin_triple j action t w (λ w', unchanged w w' ∨ ∃ r, begun j action w r w')
    ltac:(by left) ltac:(intros; right; by eexists) v w eq_refl) as H.
  destruct (Begin j action t v w) as [[[r|?|] v'] w']; [|exact H..].
  split; [exact H|]. intros rs total. by eapply begun_totals.
Qed.

(** [Complete] accepts only an action that is executing; it stores a
    terminal record with a success or failed status, the identity of the
    journalled action and a payload within the durable limit, and it never
    leaves anything else than the old record or this one. *)
Theorem Complete_spec id result t v w :
  match Complete id result t v w with
  | (Ok r, _, w') =>
    ∃ r0 res, holds (jw_dir w) id r0 ∧ jr_Phase r0 = JournalExecuting ∧
      jr_Phase r = JournalTerminal ∧ jr_Result r = Some res ∧
      jr_Action r = jr_Action r0 ∧ jr_StartedAt r = jr_StartedAt r0 ∧
      er_ResponseActionID res = id ∧ er_AgentID res = ra_AgentID (jr_Action r0) ∧
      er_Status res = norm (er_Status result) ∧
      (er_Status res = "success" ∨ er_Status res = "failed") ∧
      (∀ p, er_ResultPayload res = Some p → er_ResultPayload result = Some p ∧
         ∃ n, marshal_payload p = Some n ∧ n <= maxResultPayloadSize) ∧
      written r w w'
  | (_, _, w') => unchanged w w' ∨ ∃ r0 t, holds (jw_dir w) id r0 ∧
      jr_Phase r0 = JournalExecuting ∧ written (completed id result r0 t) w w'
  end.
Proof.
  pose proof (Complete_triple id result t w (λ w', unchanged w w' ∨ ∃ r0 t,
    holds (jw_dir w) id r0 ∧ jr_Phase r0 = JournalExecuting ∧
    written (completed id result r0 t) w w') ltac:(by left) ltac:(naive_solver) v w eq_refl) as H.
  destruct (Complete id result t v w) as [[[r|?|] v'] w']; [|exact H..].
  destruct H as (r0 & t' & Hr0 & Hph & Hst & -> & Hwr).
  exists r0, (boundedResult (terminal_result id r0 result)).
  assert (Hb : ∀ x, er_ResponseActionID (boundedResult x) = er_ResponseActionID x ∧
     er_AgentID (boundedResult x) = er_AgentID x ∧ er_Status (boundedResult x) = er_Status x ∧
     ∀ p, er_ResultPayload (boundedResult x) = Some p → er_ResultPayload x = Some p ∧
       ∃ n, marshal_payload p = Some n ∧ n <= maxResultPayloadSize).
  { intros x. unfold boundedResult. destruct (er_ResultPayload x) as [q|] eqn:Eq;
      [|rewrite Eq; naive_solver].
    destruct (marshal_payload q) as [n|] eqn:En; [|naive_solver].
    destruct (n <=? maxResultPayloadSize) eqn:Ele; zbool; simpl; [|naive_solver].
    rewrite Eq. split_and!; [done..|]. intros p [= ->]. eauto. }
  destruct (Hb (terminal_result id r0 result)) as (H1 & H2 & H3 & H4).
  rewrite H1, H2, H3. simpl in *. split_and!; try done.
  apply orb_true_iff in Hst as [Hst|Hst]; apply str_eqb_eq in Hst; auto.
Qed.

(** The readers return exactly the records of the directory in the
    requested phase, ordered by start time and id, cut at the limit, and change
    nothing. *)
Theorem records_spec phase limit v w rs v' w' :
  records phase limit v w = (Ok rs, v', w') →
  w' = w ∧ ∃ all total, loaded (jw_dir w) all total ∧
    rs = with_phase_only phase limit all ∧ StronglySorted record_le rs ∧
    (0 < limit → Z.of_nat (length rs) <= limit) ∧
    ∀ r, r ∈ rs → jr_Phase r = phase ∧ stored (jw_dir w) r.
Proof.
  assert (Hr : reads (records phase limit) (λ rs w, ∃ all total,
    loaded (jw_dir w) all total ∧ rs = with_phase_only phase limit all)).
  { unfold records. eapply reads_bind; [apply reads_loadLocked|]. intros [all total].
    apply reads_ret. intros w1 Hl. by exists all, total. }
  intros Hrun. specialize (Hr w v w eq_refl). rewrite Hrun in Hr.
  destruct Hr as (-> & all & total & Hl & ->). split; [done|]. exists all, total.
  assert (Hfilter : ∀ l, StronglySorted record_le l →
    StronglySorted record_le (List.filter (λ r, str_eqb (jr_Phase r) phase) l)).
  { induction 1 as [|r l Hs IH Hall]; simpl; [constructor|]. case_match; [|done].
    constructor; [done|]. rewrite Forall_forall in *. intros x Hx. apply Hall.
    apply list_elem_of_In, filter_In in Hx as [Hx _]. by apply list_elem_of_In. }
  split_and!; try done.
  - destruct Hl as (? & ? & _ & _ & _ & Hs & _). unfold with_phase_only. apply Hfilter in Hs.
    case_match; [|done]. eapply StronglySorted_app_1_l. by rewrite take_drop.
  - intros Hlim. unfold with_phase_only. case_match; zbool; [|lia]. rewrite length_take. lia.
  - intros r Hin.
    assert (r ∈ List.filter (λ r, str_eqb (jr_Phase r) phase) all) as Hin'.
    { unfold with_phase_only in Hin. case_match; [|done]. by eapply subseteq_take. }
    apply list_elem_of_In, filter_In in Hin' as [Hin' Hph].
    split; [by apply str_eqb_eq|]. eapply loaded_stored; [done|]. by apply list_elem_of_In.
Qed.

(** Opening the journal keeps every record except the executions that
    were cut short: when [recover] succeeds each file holds its old, validated
    record or, if that was executing, its failed terminal record; when it fails
    or is killed each file is still in one of these two states. *)
Theorem recover_spec v w :
  match recover v w with
  | (Ok _, _, w') => ∀ name, is_temp name = false → recovered_entry (jw_dir w) (jw_dir w') name
  | (_, _, w') => ∃ t, ∀ name, is_temp name = false →
      recovering t (jw_dir w) name (jw_dir w' !! name)
  end.
Proof.
  pose proof (recover_triple w v w eq_refl) as H.
  destruct (recover v w) as [[[?|?|] v'] w']; exact H.
Qed.

(** The size limits of the writer and the reader disagree by the newline:
    a record whose encoding has exactly [maxJournalRecordSize] bytes is
    accepted by [writeLocked], and from then on no reader can load the
    journal. *)
Theorem full_size_record_blocks_readers record t :
  validateJournalRecord record = inr tt →
  marshal_record record = Some maxJournalRecordSize →
  ∃ w', writeLocked record (quiet t) (JW ∅ []) = (Ok tt, quiet t, w') ∧
    loadLocked (quiet t) w' =
      (Err (ErrInvalidEntry (path (ra_ID (jr_Action record)))), quiet t, w').
Proof.
  intros Hv Hlen. eexists. split.
  { apply (writeLocked_quiet _ _ _ _ (".tmp-" +:+ digits 10 0) Hv Hlen); [done|].
    apply temp_name_empty. }
  cbn [jw_dir jw_log].
  set (n := path (ra_ID (jr_Action record))).
  set (e := entry_of record maxJournalRecordSize).
  assert (Hn : HasPrefix n ".tmp-" = false).
  { apply validate_id in Hv. apply (path_not_temp (ra_ID (jr_Action record))). lia. }
  assert (Hs : HasSuffix n ".json" = true) by apply HasSuffix_app.
  unfold loadLocked, bindM, sys_or, sys, gets, bindM, retM, quiet, ReadDir. unfold id.
  cbn [e_faults jw_dir]. rewrite insert_empty, map_to_list_singleton. unfold merge_sort.
  cbn [merge_sort_aux merge_list_to_stack].
  change (merge_stack _ [Some [(n, e)]]) with [(n, e)].
  cbn [load_entries]. rewrite Hn, Hs. done.
Qed.

End journal.

(** ** Witnesses *)

Definition small_record (r : JournalRecord) : option Z := Some 300.
Definition small_payload (j : json) : option Z := Some 20.
Definition journal10 : Journal := {| j_maxRecords := 10; j_maxBytes := 64 * 2 ^ 20 |}.

Definition pending_action (id : Z) : ResponseAction :=
  Build_ResponseAction id "kill_process" "agent-1" "pending" "{}" 5 (Some 900).

Definition accepted_record (id : Z) (t : time) : JournalRecord :=
  Build_JournalRecord 1 (pending_action id) JournalAccepted None t t.

Definition world_after {A} (m : JM A) (w : jworld) : jworld := (m (quiet 50) w).2.

(** Two accepted actions; the second one then goes through its life. *)
Definition two_actions : jworld :=
  world_after (Begin small_record journal10 (pending_action 8) 40;;;
               Begin small_record journal10 (pending_action 7) 30) (JW ∅ []).

Lemma journal_write_read_witness :
  ∃ v' w', writeLocked small_record (accepted_record 7 30) (quiet 50) (JW ∅ []) = (Ok tt, v', w') ∧
  readLocked 7 (quiet 60) w' = (Ok (accepted_record 7 30), quiet 60, w').
Proof.
  eexists _, _. split; [vm_compute; reflexivity|].
  apply (journal_write_read small_record (accepted_record 7 30) (quiet 50) (JW ∅ [])
           (quiet 50)); vm_compute; reflexivity.
Defined.

Lemma records_spec_witness :
  ∃ rs, records JournalAccepted 1 (quiet 50) two_actions = (Ok rs, quiet 50, two_actions) ∧
  map (λ r, ra_ID (jr_Action r)) rs = [7] ∧ Z.of_nat (length rs) <= 1.
Proof.
  assert (∃ rs, records JournalAccepted 1 (quiet 50) two_actions = (Ok rs, quiet 50, two_actions)
            ∧ map (λ r, ra_ID (jr_Action r)) rs = [7]) as (rs & H & Hids).
  { eexists. split; vm_compute; reflexivity. }
  exists rs. split; [exact H|]. split; [exact Hids|].
  destruct (records_spec _ _ _ _ _ _ _ H) as (_ & all & total & _ & _ & _ & Hlen & _).
  apply Hlen. lia.
Defined.

Lemma full_size_record_blocks_readers_witness :
  let big _ := Some maxJournalRecordSize in
  ∃ w', writeLocked big (accepted_record 7 30) (quiet 50) (JW ∅ []) = (Ok tt, quiet 50, w') ∧
    loadLocked (quiet 50) w' = (Err (ErrInvalidEntry "00000000000000000007.json"), quiet 50, w').
Proof.
  apply (full_size_record_blocks_readers (λ _, Some maxJournalRecordSize) (accepted_record 7 30) 50);
    vm_compute; reflexivity.
Defined.

(** A run through all the phases. *)
Example journal_life :
  let done := Build_ExecutionResult 0 "" " Success " (Some (JObj [])) "" None None in
  (MarkExecuting small_record 7 41;;; Complete small_record small_payload 7 done 42;;;
   Delete 7;;; Pending) (quiet 50) two_actions
  = (Ok 1, quiet 50, (Delete 7 (quiet 50)
      (world_after (MarkExecuting small_record 7 41;;;
                    Complete small_record small_payload 7 done 42) two_actions)).2).
Proof. vm_compute. reflexivity. Qed.
