(* ===== verification/ResponseLoop.v ===== *)
(** * ResponseLoop: the response-action executor loop
      (internal/runtime/controlplane.go, internal/runtime/service.go,
      internal/responseactions/poller.go)

    [processResponseActions] over the journal (module Journal) and the staging
    queue (module Stage).  The poller runs in its own goroutine: the batches it
    fetches are the [inbox] of the world, and the loop meets one of them (or
    none) at each point where it touches the queue, so every interleaving of
    the two goroutines is an inbox.  [Execute] is a parameter here (module
    Executor models it): it sees the journal record and is given the identity,
    and may be interrupted by the end of the process.

    The main results are about the ghost log of the journal: whatever calls
    fail and wherever the process is killed, restarts included, an action is
    executed at most once between two removals of its file, only after its
    record is durable as executing, and its file is removed only after the
    server acknowledged the result. *)

From S2P Require Import Prelude GoStr Effects GoJson Protocol Stage Journal.

Local Open Scope Z_scope.
Local Open Scope go_scope.

(** What [responseactions.Execute] returns. *)
Record ExecuteResult := {
  xr_Status : string;
  xr_Result : option json;
  xr_Error : string;
  xr_StartedAt : time;
  xr_FinishedAt : time;
}.

Record lworld := LW {
  lw_j : jworld;
  lw_stage : Stage;
  lw_inbox : list (list ResponseAction);
  lw_StagedTotal : Z;
  lw_ExecutedTotal : Z;
  lw_DeliveredTotal : Z;
  lw_ReportErrorsTotal : Z;
}.

Definition set_j (j : jworld) (w : lworld) : lworld :=
  LW j (lw_stage w) (lw_inbox w) (lw_StagedTotal w) (lw_ExecutedTotal w) (lw_DeliveredTotal w)
    (lw_ReportErrorsTotal w).
Definition set_stage (s : Stage) (w : lworld) : lworld :=
  LW (lw_j w) s (lw_inbox w) (lw_StagedTotal w) (lw_ExecutedTotal w) (lw_DeliveredTotal w)
    (lw_ReportErrorsTotal w).
Definition bump_executed (w : lworld) : lworld :=
  LW (lw_j w) (lw_stage w) (lw_inbox w) (lw_StagedTotal w) (lw_ExecutedTotal w + 1)
    (lw_DeliveredTotal w) (lw_ReportErrorsTotal w).
Definition bump_delivered (w : lworld) : lworld :=
  LW (lw_j w) (lw_stage w) (lw_inbox w) (lw_StagedTotal w) (lw_ExecutedTotal w)
    (lw_DeliveredTotal w + 1) (lw_ReportErrorsTotal w).
Definition bump_errors (w : lworld) : lworld :=
  LW (lw_j w) (lw_stage w) (lw_inbox w) (lw_StagedTotal w) (lw_ExecutedTotal w)
    (lw_DeliveredTotal w) (lw_ReportErrorsTotal w + 1).

Definition LM : Type → Type := M lworld jerror.

(** A journal operation inside the service. *)
Definition onJ {A} (m : JM A) : LM A := λ v w,
  match m v (lw_j w) with (o, v', j) => (o, v', set_j j w) end.

Section loop.
Context (marshal_record : JournalRecord → option Z) (marshal_payload : json → option Z).
Context (Execute : JournalRecord → ExecuteResult).
Context (AgentID : string) (journal : Journal).

(** [Service.stageResponseActions] *)
Definition stageResponseActions (actions : list ResponseAction) : LM StageResult :=
  t <- now;;
  w <- gets id;;
  let '(s, out) := stage_actions (lw_stage w) t actions AgentID in
  modify (λ w, LW (lw_j w) s (lw_inbox w) (lw_StagedTotal w + sr_Added out)
    (lw_ExecutedTotal w) (lw_DeliveredTotal w) (lw_ReportErrorsTotal w));;;
  retM out.

(** One turn of the poller's goroutine: a fetched batch is staged unless it is
    empty. *)
Definition poll : LM unit :=
  w <- gets id;;
  match lw_inbox w with
  | [] => retM tt
  | actions :: inbox =>
    modify (λ w, LW (lw_j w) (lw_stage w) inbox (lw_StagedTotal w)
      (lw_ExecutedTotal w) (lw_DeliveredTotal w) (lw_ReportErrorsTotal w));;;
    match actions with [] => retM tt | _ => stageResponseActions actions;;; retM tt end
  end.

(** [Service.pendingResponseActions] *)
Definition pendingResponseActions : LM Z :=
  w <- gets id;;
  count <- try (onJ Pending);;
  retM (PendingCount (lw_stage w) + match count with inr n => n | inl _ => 0 end).

(** [s.cp.ReportResponseActionResult]: the server acknowledges the report, or
    the call fails. *)
Definition ReportResponseActionResult (result : ExecutionResult) : LM bool :=
  onJ (sys (log_event (EvReport (er_ResponseActionID result) (er_Status result)))).

(** [Service.recordResponseActionReportError], without the identity recovery
    it triggers in the enrollment manager. *)
Definition recordResponseActionReportError : LM unit := modify bump_errors.

(** [Service.reportTerminalResponseAction] *)
Definition reportTerminalResponseAction (record : JournalRecord) : LM bool :=
  match jr_Result record with
  | None => throw ErrMissingResult
  | Some result =>
    ok <- ReportResponseActionResult result;;
    if negb ok then recordResponseActionReportError;;; retM false else
    onJ (Delete (ra_ID (jr_Action record)));;;
    modify bump_delivered;;;
    retM true
  end.

Definition running_result (record : JournalRecord) : ExecutionResult := {|
  er_ResponseActionID := ra_ID (jr_Action record); er_AgentID := AgentID;
  er_Status := "running"; er_ResultPayload := None; er_Error := "";
  er_StartedAt := Some (jr_StartedAt record); er_FinishedAt := None |}.

Definition result_of (record : JournalRecord) (x : ExecuteResult) : ExecutionResult := {|
  er_ResponseActionID := ra_ID (jr_Action record); er_AgentID := AgentID;
  er_Status := xr_Status x; er_ResultPayload := xr_Result x; er_Error := xr_Error x;
  er_StartedAt := Some (xr_StartedAt x); er_FinishedAt := Some (xr_FinishedAt x) |}.

(** The call of [responseactions.Execute]: the execution begins, and the
    process may die during it. *)
Definition run_execute (record : JournalRecord) : LM ExecuteResult :=
  onJ (modify (log_event (EvExec (ra_ID (jr_Action record))));;; _ <- sys id;; retM tt);;;
  retM (Execute record).

(** [Service.executeAcceptedResponseAction] *)
Definition executeAcceptedResponseAction (record : JournalRecord) : LM unit :=
  ok <- ReportResponseActionResult (running_result record);;
  if negb ok then recordResponseActionReportError else
  t <- now;;
  onJ (MarkExecuting marshal_record (ra_ID (jr_Action record)) t);;;
  execRes <- run_execute record;;
  t <- now;;
  terminal <- onJ (Complete marshal_record marshal_payload (ra_ID (jr_Action record))
                     (result_of record execRes) t);;
  modify bump_executed;;;
  reportTerminalResponseAction terminal;;;
  retM tt.

(** The loops of [Service.processResponseActions]. *)
Fixpoint report_all (records : list JournalRecord) : LM bool :=
  match records with
  | [] => retM true
  | record :: records =>
    delivered <- reportTerminalResponseAction record;;
    if delivered : bool then report_all records else retM false
  end.

Fixpoint execute_all (records : list JournalRecord) : LM unit :=
  match records with
  | [] => retM tt
  | record :: records => executeAcceptedResponseAction record;;; execute_all records
  end.

Definition mark_handled (id : Z) : LM unit :=
  modify (λ w, set_stage (MarkHandled (lw_stage w) id) w).

Fixpoint stage_loop (n : nat) : LM unit :=
  match n with
  | O => retM tt
  | S n =>
    poll;;;
    t <- now;;
    w <- gets id;;
    let '(s, staged) := Next (lw_stage w) t AgentID in
    modify (set_stage s);;;
    match staged with
    | None => retM tt
    | Some staged =>
      t <- now;;
      begin <- try (onJ (Begin marshal_record journal (sa_Action staged) t));;
      poll;;;
      match begin with
      | inl ErrJournalEntryExists => mark_handled (ra_ID (sa_Action staged));;; stage_loop n
      | inl ErrJournalCapacity => retM tt
      | inl err => throw err
      | inr record =>
        mark_handled (ra_ID (sa_Action staged));;;
        executeAcceptedResponseAction record;;;
        stage_loop n
      end
    end
  end.

Definition processResponseActions : LM unit :=
  terminal <- onJ (Terminal 8);;
  ok <- report_all terminal;;
  if negb ok then retM tt else
  accepted <- onJ (Accepted 8);;
  execute_all accepted;;;
  stage_loop 8.

End loop.

(** The part of [New] that opens the journal and the queue. *)
Definition start (marshal_record : JournalRecord → option Z) (dir : string)
    (stageMax maxRecords maxBytes : Z) : LM Journal :=
  modify (set_stage (NewStage stageMax));;;
  journal <- onJ (NewJournal marshal_record dir maxRecords maxBytes);;
  ids <- onJ IDs;;
  modify (λ w, set_stage (fold_left MarkHandled ids (lw_stage w)) w);;;
  retM journal.

(** ** Journal operations and the invariant *)

Lemma holds_named w id r : jinv w → valid_id id → holds (jw_dir w) id r → ra_ID (jr_Action r) = id.
Proof. intros [_ Hn] Hid (e & He & Hc). by eapply Hn. Qed.

Lemma holds_entry w id r : jinv w → valid_id id → holds (jw_dir w) id r →
  execs id (jw_log w) <= 1 ∧ (jr_Phase r = JournalAccepted → execs id (jw_log w) = 0).
Proof.
  intros [[_ He _] _] Hid (e & Hd & Hc). specialize (He _ Hid). rewrite Hd in He.
  unfold entry_ok in He. by rewrite Hc in He.
Qed.

Lemma jinv_event e w :
  (∀ id, execs id (e :: jw_log w) = execs id (jw_log w)) → log_ok (e :: jw_log w) →
  jinv w → jinv (log_event e w).
Proof.
  intros Hx Hl [[Hi He _] Hn]. split; [split|]; simpl; [done| |done|done].
  intros id Hid. specialize (He _ Hid). unfold entry_ok in *. by rewrite Hx.
Qed.

Lemma jinv_report id st w : jinv w → jinv (log_event (EvReport id st) w).
Proof. intros Hw. apply jinv_event; [done| |done]. apply Hw. Qed.

(** The journal is ready for the execution of [id]. *)
Definition ready (id : Z) (w : jworld) : Prop :=
  ∃ r L, jw_log w = EvWrite r :: EvReport id "running" :: L ∧ execs id L = 0 ∧
    ra_ID (jr_Action r) = id ∧ jr_Phase r = JournalExecuting ∧ holds (jw_dir w) id r.

Lemma jinv_exec id w : valid_id id → jinv w → ready id w → jinv (log_event (EvExec id) w).
Proof.
  intros Hid [[Hi He Hl] Hn] (r & L & HL & Hx & Hr & Hph & Hh).
  assert (Hx' : execs id (jw_log w) = 0) by (by rewrite HL).
  split; [split|]; simpl; [done| |split_and!; [done| |done]; rewrite HL; by exists r, L|done].
  intros i Hi'. specialize (He _ Hi'). unfold entry_ok in *. simpl.
  destruct (id =? i) eqn:E; zbool; [|by rewrite Z.add_0_l].
  subst i. destruct Hh as (e & Hd & Hc). rewrite Hd, Hc in He |- *. rewrite Hx'.
  split; [lia|]. rewrite Hph. done.
Qed.

Section jlemmas.
Context (marshal_record : JournalRecord → option Z) (marshal_payload : json → option Z).

Lemma Begin_jinv j a t : ra_ID a <= max_int64 →
  triple jinv (Begin marshal_record j a t)
    (λ r w, jinv w ∧ valid_id (ra_ID (jr_Action r))) (λ _, jinv) jinv.
Proof.
  intros Hmax. apply triple_start. intros w0 Hw0.
  assert (Hb : ∀ r w, begun marshal_record j a w0 r w → jinv w ∧ valid_id (ra_ID (jr_Action r))).
  { intros r w (Hn & Hph & Hnone & _ & Hwr).
    apply Normalize_inv in Hn as ([Hpos _] & Hid & _). rewrite <-Hid in Hmax.
    assert (Hv : valid_id (ra_ID (jr_Action r))) by done. split; [|done].
    assert (execs (ra_ID (jr_Action r)) (jw_log w0) = 0) as Hx.
    { destruct Hw0 as [[_ He _] _]. specialize (He _ Hv). by rewrite Hnone in He. }
    eapply jinv_written; [done..|lia|done]. }
  eapply triple_conseq;
    [apply (Begin_triple marshal_record j a t w0 jinv)|done|apply Hb|done|done].
  - intros w Hu. by eapply jinv_unchanged.
  - intros r w H. by eapply Hb.
Qed.

Lemma MarkExecuting_jinv id t : valid_id id →
  triple (λ w, jinv w ∧ ∃ L, jw_log w = EvReport id "running" :: L)
    (MarkExecuting marshal_record id t)
    (λ _ w, jinv w ∧ ready id w) (λ _, jinv) jinv.
Proof.
  intros Hid. apply triple_start. intros w0 [Hw0 [L HL]].
  assert (Hwr : ∀ r0 t w, holds (jw_dir w0) id r0 → jr_Phase r0 = JournalAccepted →
      written marshal_record (with_phase r0 JournalExecuting (jr_Result r0) t) w0 w →
      jinv w ∧ ready id w).
  { intros r0 t' w Hh Hph Hwr. pose proof (holds_named _ _ _ Hw0 Hid Hh) as Hr.
    destruct (holds_entry _ _ _ Hw0 Hid Hh) as [_ Hx]. specialize (Hx Hph).
    assert (Hmax : ra_ID (jr_Action r0) <= max_int64) by (rewrite Hr; apply Hid).
    split.
    - eapply jinv_written; [done..| |done]. simpl. rewrite Hr, Hx. lia.
    - pose proof (written_holds _ _ _ _ Hwr Hmax) as Hh'. simpl in Hh'. rewrite Hr in Hh'.
      destruct Hwr as (_ & _ & Hlog). rewrite HL in Hlog, Hx. eexists _, L. by split_and!. }
  eapply triple_conseq; [apply (MarkExecuting_triple marshal_record id t w0 jinv)|done| |done|done].
  - intros w Hu. by eapply jinv_unchanged.
  - intros r0 t' w ? ? ?. by eapply Hwr.
  - intros r w (r0 & t' & Hh & Hph & -> & H). by eapply Hwr.
Qed.

Lemma boundedResult_id_status x :
  er_ResponseActionID (boundedResult marshal_payload x) = er_ResponseActionID x ∧
  er_Status (boundedResult marshal_payload x) = er_Status x.
Proof. unfold boundedResult. repeat case_match; done. Qed.

(** What the loop reports and deletes. *)
Definition reportable (r : JournalRecord) : Prop :=
  valid_id (ra_ID (jr_Action r)) ∧ ∃ res, jr_Result r = Some res ∧
    er_ResponseActionID res = ra_ID (jr_Action r) ∧ terminal_status (norm (er_Status res)) = true.

Lemma Complete_jinv id result t : valid_id id →
  triple jinv (Complete marshal_record marshal_payload id result t)
    (λ r w, jinv w ∧ reportable r ∧ ra_ID (jr_Action r) = id) (λ _, jinv) jinv.
Proof.
  intros Hid. apply triple_start. intros w0 Hw0.
  assert (Hwr : ∀ r0 t w, holds (jw_dir w0) id r0 →
      written marshal_record (completed marshal_payload id result r0 t) w0 w → jinv w).
  { intros r0 t' w Hh Hwr. pose proof (holds_named _ _ _ Hw0 Hid Hh) as Hr.
    destruct (holds_entry _ _ _ Hw0 Hid Hh) as [Hx _].
    eapply jinv_written; [done..| | |]; simpl; rewrite ?Hr; [apply Hid|done|done]. }
  eapply triple_conseq; [apply (Complete_triple marshal_record marshal_payload id result t w0 jinv)
                        |done| |done|done].
  - intros w Hu. by eapply jinv_unchanged.
  - intros r0 t' w ? ? ?. by eapply Hwr.
  - intros r w (r0 & t' & Hh & Hph & Hst & -> & H). split; [by eapply Hwr|].
    pose proof (holds_named _ _ _ Hw0 Hid Hh) as Hr. simpl.
    split; [|done]. split; simpl; [by rewrite Hr|]. eexists. split; [done|].
    destruct (boundedResult_id_status (terminal_result id r0 result)) as [-> ->].
    simpl. by rewrite norm_idem.
Qed.

Lemma jinv_removed id w : valid_id id → jinv w →
  (∃ st L, jw_log w = EvReport id st :: L ∧ terminal_status (norm st) = true) →
  jinv (log_event (EvRemove id) (del_entry (path id) w)).
Proof.
  intros Hid [[Hi He Hl] Hn] (st & L & HL & Hst). split; [split|]; simpl.
  - intros n e r b Hlive Hd. apply lookup_delete_Some in Hd as [_ Hd]. by eapply Hi.
  - intros i Hi'. destruct (decide (i = id)) as [->|Hne].
    + rewrite lookup_delete_eq. simpl. by rewrite Z.eqb_refl.
    + rewrite lookup_delete_ne by (intros Hp; apply path_inj in Hp; done).
      specialize (He _ Hi'). unfold entry_ok in *. simpl.
      rewrite (proj2 (Z.eqb_neq id i)) by done. done.
  - split; [|done]. rewrite HL. by exists st, L.
  - intros i e r b Hi' Hd. apply lookup_delete_Some in Hd as [_ Hd]. by eapply Hn.
Qed.

Lemma Delete_jinv id : valid_id id →
  triple (λ w, jinv w ∧ ∃ st L, jw_log w = EvReport id st :: L ∧ terminal_status (norm st) = true)
    (Delete id) (λ _, jinv) (λ _, jinv) jinv.
Proof.
  intros Hid. apply triple_start. intros w0 [Hw0 Hst].
  pose proof (jinv_removed id w0 Hid Hw0 Hst) as Hrem.
  eapply triple_conseq; [apply (Delete_triple id w0 jinv)|..]; try done.
  by intros _ w ->.
Qed.

Lemma stored_valid w r : jinv w → stored (jw_dir w) r →
  valid_id (ra_ID (jr_Action r)) ∧ (jr_Phase r = JournalTerminal → reportable r).
Proof.
  intros [[Hi _ _] _] (e & (_ & _ & Hc & Hv & _) & Hd). simpl in *.
  pose proof (validate_id _ Hv) as Hpos.
  assert (Hid : valid_id (ra_ID (jr_Action r))).
  { split; [done|]. eapply Hi; [|done..]. apply path_not_temp. lia. }
  split; [done|]. intros Hph. split; [done|]. unfold validateJournalRecord in Hv.
  rewrite Hph in Hv. simpl in Hv. repeat case_match; simplify_eq; zbool.
  eexists. split_and!; done.
Qed.

Lemma reads_records phase limit : phase = JournalAccepted ∨ phase = JournalTerminal →
  reads (records phase limit) (λ rs w, jinv w → Forall (λ r,
    valid_id (ra_ID (jr_Action r)) ∧ (phase = JournalTerminal → reportable r)) rs).
Proof.
  intros Hphase. unfold records. eapply reads_bind; [apply reads_loadLocked|]. intros [all total].
  apply reads_ret. intros w Hl Hw. simpl in Hl. apply Forall_forall. intros r Hin.
  assert (r ∈ List.filter (λ r, str_eqb (jr_Phase r) phase) all) as Hin'.
  { unfold with_phase_only in Hin. case_match; [|done]. by eapply subseteq_take. }
  apply list_elem_of_In, filter_In in Hin' as [Hin' Hph]. apply str_eqb_eq in Hph.
  apply list_elem_of_In in Hin'. pose proof (loaded_stored _ _ _ _ Hl Hin') as Hst.
  destruct (stored_valid _ _ Hw Hst) as [H1 H2]. split; [done|]. intros ->. auto.
Qed.

End jlemmas.

(** ** The loop keeps the invariant *)

Definition stage_int64 (s : Stage) : Prop :=
  ∀ id it, s_items s !! id = Some it → ra_ID (sa_Action it) <= max_int64.
Definition inbox_int64 (inbox : list (list ResponseAction)) : Prop :=
  ∀ batch a, batch ∈ inbox → a ∈ batch → ra_ID a <= max_int64.

(** The queue's half of the invariant. *)
Definition qinv (w : lworld) : Prop :=
  stage_wf (lw_stage w) ∧ stage_int64 (lw_stage w) ∧ inbox_int64 (lw_inbox w).
Definition linv (w : lworld) : Prop := jinv (lw_j w) ∧ qinv w.

(** Journal triples, framed by the rest of the world. *)
Lemma triple_onJ {A} (m : JM A) P Q R C :
  triple P m Q R C →
  triple (λ w, P (lw_j w) ∧ qinv w) (onJ m) (λ a w, Q a (lw_j w) ∧ qinv w)
    (λ e w, R e (lw_j w) ∧ qinv w) (λ w, C (lw_j w) ∧ qinv w).
Proof.
  intros Hm v w [Hw Hq]. specialize (Hm v (lw_j w) Hw). unfold onJ.
  by destruct (m v (lw_j w)) as [[[a|e|] v'] j].
Qed.

Lemma linv_intro w : jinv (lw_j w) → stage_wf (lw_stage w) → stage_int64 (lw_stage w) →
  inbox_int64 (lw_inbox w) → linv w.
Proof. by unfold linv, qinv. Qed.

Section linv.
Context (marshal_record : JournalRecord → option Z) (marshal_payload : json → option Z).
Context (Execute : JournalRecord → ExecuteResult).
Context (AgentID : string) (journal : Journal).

Lemma linv_report res :
  triple linv (ReportResponseActionResult res)
    (λ ok w, linv w ∧ (ok = true → ∃ L, jw_log (lw_j w) =
       EvReport (er_ResponseActionID res) (er_Status res) :: L)) (λ _, linv) linv.
Proof.
  unfold ReportResponseActionResult.
  eapply triple_conseq; [apply (triple_onJ _ jinv (λ ok j, jinv j ∧ (ok = true → ∃ L,
      jw_log j = EvReport (er_ResponseActionID res) (er_Status res) :: L)) (λ _, jinv) jinv)|..].
  - apply triple_sys; [|done|done]. intros w Hw. split; [by apply jinv_report|]. by eexists.
  - by intros w [].
  - intros ok w [[]]. done.
  - done.
  - done.
Qed.

Lemma linv_reportTerminal r : reportable r →
  triple linv (reportTerminalResponseAction r) (λ _, linv) (λ _, linv) linv.
Proof.
  intros (Hid & res & Hres & Hrid & Hst). unfold reportTerminalResponseAction. rewrite Hres.
  eapply triple_bind; [apply linv_report|]. intros ok. simpl. prog_if E; zbool; subst.
  - eapply triple_bind with (Q' := λ _, linv); [|intros _; by apply triple_ret].
    apply triple_modify. by intros w [[] _].
  - eapply triple_bind with (Q' := λ _, linv).
    + eapply triple_conseq; [apply triple_onJ, (Delete_jinv _ Hid)|..]; try done.
      intros w [[Hw Hq] HL]. split; [|done]. split; [done|].
      destruct (HL eq_refl) as [L HL']. rewrite HL', Hrid. by eexists _, L.
    + intros _. eapply triple_bind with (Q' := λ _, linv); [|intros _; by apply triple_ret].
      apply triple_modify. by intros w [].
Qed.

Lemma linv_run_execute r : valid_id (ra_ID (jr_Action r)) →
  triple (λ w, (jinv (lw_j w) ∧ ready (ra_ID (jr_Action r)) (lw_j w)) ∧ qinv w)
    (run_execute Execute r) (λ _, linv) (λ _, linv) linv.
Proof.
  intros Hid. unfold run_execute.
  eapply triple_bind with (Q' := λ _, linv); [|intros _; by apply triple_ret].
  apply (triple_onJ _ (λ w, jinv w ∧ ready (ra_ID (jr_Action r)) w) (λ _, jinv) (λ _, jinv) jinv).
  eapply triple_bind with (Q' := λ _, jinv).
  - apply triple_modify. intros w []. by apply jinv_exec.
  - intros _. apply preserves_bind; [by apply preserves_sys|]. intros _. apply preserves_ret.
Qed.

Lemma linv_executeAccepted r : valid_id (ra_ID (jr_Action r)) →
  preserves linv (executeAcceptedResponseAction marshal_record marshal_payload Execute AgentID r).
Proof.
  intros Hid. unfold executeAcceptedResponseAction.
  eapply triple_bind; [apply linv_report|]. intros ok. simpl. prog_if E; zbool; subst.
  { apply triple_modify. by intros w [[] _]. }
  eapply triple_bind with (Q' := λ _ w, linv w ∧
    ∃ L, jw_log (lw_j w) = EvReport (ra_ID (jr_Action r)) "running" :: L).
  { apply triple_now. intros _ w [Hw HL]. split; [done|]. destruct (HL eq_refl) as [L HL']. by exists L. }
  intros t.
  eapply triple_bind with (Q' := λ _ w,
    (jinv (lw_j w) ∧ ready (ra_ID (jr_Action r)) (lw_j w)) ∧ qinv w).
  { eapply triple_conseq; [apply triple_onJ, (MarkExecuting_jinv marshal_record _ t Hid)|..]; try done.
    by intros w [[] ?]. }
  intros r'. eapply triple_bind; [by apply linv_run_execute|]. intros x.
  apply preserves_bind; [apply preserves_now|intros t'].
  eapply triple_bind with (Q' := λ r' w,
    (jinv (lw_j w) ∧ reportable r' ∧ ra_ID (jr_Action r') = ra_ID (jr_Action r)) ∧ qinv w).
  { eapply triple_conseq; [apply triple_onJ, (Complete_jinv marshal_record marshal_payload _ _ t' Hid)|..];
      done. }
  intros terminal. apply triple_start. intros w0 [(Hw0 & Hrep & _) Hq].
  apply (triple_known linv); [done|].
  apply preserves_bind; [apply preserves_modify; by intros w []|intros _].
  eapply triple_bind with (Q' := λ _, linv); [by apply linv_reportTerminal|].
  intros _. by apply triple_ret.
Qed.

Lemma stage_int64_sub s s' : s_items s' ⊆ s_items s → stage_int64 s → stage_int64 s'.
Proof. intros Hs H id it Hit. eapply H, lookup_weaken; eauto. Qed.

Lemma stage_int64_stage s t actions ag : stage_wf s → stage_int64 s →
  (∀ a, a ∈ actions → ra_ID a <= max_int64) → stage_int64 (stage_actions s t actions ag).1.
Proof.
  intros Hwf Hs Ha. unfold stage_actions. destruct actions as [|a l]; [done|].
  destruct (fold_left _ _ _) as [s' out] eqn:Hf.
  apply stage_fold_spec in Hf as (_ & _ & _ & _ & _ & F); [|done].
  intros id it Hit. destruct (F _ _ Hit) as [?|[Hin _]]; eauto.
Qed.

Lemma linv_stage actions : (∀ a, a ∈ actions → ra_ID a <= max_int64) →
  preserves linv (stageResponseActions AgentID actions).
Proof.
  intros Ha. apply preserves_bind; [apply preserves_now|intros t].
  intros v w (Hj & Hs & Hi & Hb).
  pose proof (stage_actions_wf (lw_stage w) t actions AgentID Hs) as Hwf.
  pose proof (stage_int64_stage (lw_stage w) t actions AgentID Hs Hi Ha) as H64.
  unfold bindM at 1, gets. cbn [id].
  destruct (stage_actions (lw_stage w) t actions AgentID) as [s out].
  exact (linv_intro (LW _ _ _ _ _ _ _) Hj Hwf H64 Hb).
Qed.

Lemma linv_poll : preserves linv (poll AgentID).
Proof.
  unfold poll. apply triple_start. intros w (Hj & Hs & Hi & Hb).
  intros v ? ->. unfold bindM at 1, gets. cbn [id].
  destruct (lw_inbox w) as [|batch inbox] eqn:Hin.
  { change (linv w). apply linv_intro; by rewrite ?Hin. }
  assert (inbox_int64 inbox) as Hb'.
  { intros b' a Hb1 Ha. eapply Hb; [|done]. by right. }
  unfold bindM at 1, modify.
  pose proof (linv_intro (LW (lw_j w) (lw_stage w) inbox (lw_StagedTotal w) (lw_ExecutedTotal w)
    (lw_DeliveredTotal w) (lw_ReportErrorsTotal w)) Hj Hs Hi Hb') as Hw.
  destruct batch as [|a batch]; [exact Hw|].
  refine (preserves_bind linv _ _ (linv_stage _ _) (λ _, preserves_ret linv tt) v _ Hw).
  intros b' Hb1. eapply Hb; [by left|done].
Qed.

Lemma linv_mark_handled id : preserves linv (mark_handled id).
Proof.
  apply preserves_modify. intros w (Hj & Hs & Hi & Hb). apply linv_intro; [done| | |done]; simpl.
  - by apply MarkHandled_wf.
  - eapply stage_int64_sub; [|exact Hi]. unfold MarkHandled. case_match; [done|].
    destruct (markHandledLocked_frame (MkStage (s_max (lw_stage w)) (s_handledMax (lw_stage w))
      (s_order (lw_stage w)) (delete id (s_items (lw_stage w))) (s_handledOrder (lw_stage w))
      (s_handledSet (lw_stage w))) id) as [-> _]. apply delete_subseteq.
Qed.

Lemma linv_next t w : linv w →
  let '(s, r) := Next (lw_stage w) t AgentID in
  linv (set_stage s w) ∧ ∀ it, r = Some it → ra_ID (sa_Action it) <= max_int64.
Proof.
  intros (Hj & Hs & Hi & Hb).
  pose proof (next_loop_spec t AgentID (s_order (lw_stage w)) (lw_stage w) Hs (wf_order _ Hs)) as H.
  unfold Next. destruct (next_loop _ _ _ _) as [s r]. destruct H as (Hs' & Hsub & _ & Hr).
  split.
  - apply linv_intro; [done|done| |done]. simpl. by eapply stage_int64_sub.
  - intros it ->. destruct Hr as [Hr _]. by eapply Hi.
Qed.

Lemma linv_stage_loop n :
  preserves linv (stage_loop marshal_record marshal_payload Execute AgentID journal n).
Proof.
  induction n as [|n IH]; cbn [stage_loop]; [apply preserves_ret|].
  apply preserves_bind; [apply linv_poll|intros _].
  apply preserves_bind; [apply preserves_now|intros t].
  intros v w Hw. pose proof (linv_next t w Hw) as Hnext.
  unfold bindM at 1, gets. cbn [id]. destruct (Next (lw_stage w) t AgentID) as [s r].
  destruct Hnext as [Hs Hr]. unfold bindM at 1, modify.
  revert v Hs. generalize (set_stage s w). clear w Hw. intros w v Hw. revert v w Hw.
  change (preserves linv
    (match r with
     | None => retM tt
     | Some staged =>
       t <- now;;
       begin <- try (onJ (Begin marshal_record journal (sa_Action staged) t));;
       poll AgentID;;;
       match begin with
       | inl ErrJournalEntryExists => mark_handled (ra_ID (sa_Action staged));;;
           stage_loop marshal_record marshal_payload Execute AgentID journal n
       | inl ErrJournalCapacity => retM tt
       | inl err => throw err
       | inr record =>
         mark_handled (ra_ID (sa_Action staged));;;
         executeAcceptedResponseAction marshal_record marshal_payload Execute AgentID record;;;
         stage_loop marshal_record marshal_payload Execute AgentID journal n
       end
     end)).
  destruct r as [it|]; [|apply preserves_ret]. specialize (Hr it eq_refl).
  apply preserves_bind; [apply preserves_now|intros t'].
  eapply triple_bind with (Q' := λ r w, linv w ∧
    match r with inr record => valid_id (ra_ID (jr_Action record)) | inl _ => True end).
  { eapply triple_try, triple_conseq; [apply triple_onJ, (Begin_jinv marshal_record _ _ _ Hr)|done|..];
      [|by intros e w []|done]. by intros record w [[] ?]. }
  intros b. apply triple_start. intros w0 [Hw0 Hb].
  apply (triple_known linv); [done|].
  apply preserves_bind; [apply linv_poll|intros _].
  destruct b as [e|record].
  - destruct e; try apply preserves_throw; [|apply preserves_ret].
    apply preserves_bind; [apply linv_mark_handled|intros _; exact IH].
  - apply preserves_bind; [apply linv_mark_handled|intros _].
    apply preserves_bind; [by apply linv_executeAccepted|intros _; exact IH].
Qed.

Lemma linv_process :
  preserves linv (processResponseActions marshal_record marshal_payload Execute AgentID journal).
Proof.
  assert (Hrec : ∀ phase (φ : JournalRecord → Prop),
      reads (records phase 8) (λ rs w, jinv w → Forall φ rs) →
      triple linv (onJ (records phase 8)) (λ rs w, linv w ∧ Forall φ rs) (λ _, linv) linv).
  { intros phase φ Hr. eapply triple_conseq; [apply triple_onJ, (triple_reads _ _ jinv Hr)|..];
      try done. intros rs w [[Hj HF] Hq]. by split; [|apply HF]. }
  unfold processResponseActions.
  eapply triple_bind; [apply (Hrec _ reportable)|].
  { eapply reads_conseq; [apply (reads_records JournalTerminal); by right|].
    simpl. intros rs w H Hw. eapply Forall_impl; [by apply H|]. intros r [_ Hr]. by apply Hr. }
  intros terminal. apply triple_start. intros w0 [Hw0 Hterm].
  apply (triple_known linv); [done|].
  apply preserves_bind.
  { clear w0 Hw0. induction Hterm as [|r rs Hr Hrs IH]; cbn [report_all]; [apply preserves_ret|].
    apply preserves_bind; [by apply linv_reportTerminal|].
    intros ok. prog_if E; [exact IH|apply preserves_ret]. }
  intros ok. prog_if E; [apply preserves_ret|].
  eapply triple_bind; [apply (Hrec _ (λ r, valid_id (ra_ID (jr_Action r))))|].
  { eapply reads_conseq; [apply (reads_records JournalAccepted); by left|].
    simpl. intros rs w H Hw. eapply Forall_impl; [by apply H|]. by intros r []. }
  intros accepted. apply triple_start. intros w1 [Hw1 Hacc].
  apply (triple_known linv); [done|].
  apply preserves_bind; [|intros _; apply linv_stage_loop].
  clear w1 Hw1. induction Hacc as [|r rs Hr Hrs IH]; cbn [execute_all]; [apply preserves_ret|].
  apply preserves_bind; [by apply linv_executeAccepted|intros _; exact IH].
Qed.

End linv.

(** ** The service, its failures and restarts *)

Inductive service :=
  | Down (j : jworld)
  | Up (journal : Journal) (w : lworld).

Definition disk (s : service) : jworld := match s with Down j => j | Up _ w => lw_j w end.

Section system.
Context (marshal_record : JournalRecord → option Z) (marshal_payload : json → option Z).
Context (AgentID dir : string).

Definition fresh_world (j : jworld) (inbox : list (list ResponseAction)) : lworld :=
  LW j (NewStage 0) inbox 0 0 0 0.

(** One step: the service starts (or fails to), runs one round of the executor
    with some outcome of the executions, fetches a batch, or stops.  A round
    that returns an error or is killed takes the service down. *)
Inductive step : service → service → Prop :=
  | step_start j inbox stageMax maxRecords maxBytes v v' journal w' :
      inbox_int64 inbox →
      start marshal_record dir stageMax maxRecords maxBytes v (fresh_world j inbox)
        = (Ok journal, v', w') →
      step (Down j) (Up journal w')
  | step_start_fails j inbox stageMax maxRecords maxBytes v o v' w' :
      inbox_int64 inbox →
      start marshal_record dir stageMax maxRecords maxBytes v (fresh_world j inbox) = (o, v', w') →
      step (Down j) (Down (lw_j w'))
  | step_process journal w Execute v v' w' :
      processResponseActions marshal_record marshal_payload Execute AgentID journal v w
        = (Ok tt, v', w') →
      step (Up journal w) (Up journal w')
  | step_process_fails journal w Execute v o v' w' :
      processResponseActions marshal_record marshal_payload Execute AgentID journal v w
        = (o, v', w') →
      step (Up journal w) (Down (lw_j w'))
  | step_fetch journal w batch :
      (∀ a, a ∈ batch → ra_ID a <= max_int64) →
      step (Up journal w)
        (Up journal (LW (lw_j w) (lw_stage w) (lw_inbox w ++ [batch]) (lw_StagedTotal w)
           (lw_ExecutedTotal w) (lw_DeliveredTotal w) (lw_ReportErrorsTotal w)))
  | step_stop journal w : step (Up journal w) (Down (lw_j w)).

Definition service_inv (s : service) : Prop :=
  match s with Down j => disk_inv j | Up _ w => linv w end.

Lemma start_inv stageMax maxRecords maxBytes j inbox v : disk_inv j → inbox_int64 inbox →
  match start marshal_record dir stageMax maxRecords maxBytes v (fresh_world j inbox) with
  | (Ok _, _, w) => linv w
  | (_, _, w) => disk_inv (lw_j w)
  end.
Proof.
  intros Hj Hin. unfold start, bindM at 1, modify.
  assert (Hst : stage_int64 (NewStage stageMax)) by (intros i it H; exact (False_ind _ (lookup_empty_Some _ _ H))).
  set (w0 := set_stage (NewStage stageMax) (fresh_world j inbox)).
  assert (Hq : qinv w0) by (split; [apply NewStage_wf|done]).
  refine (triple_bind (λ w, disk_inv (lw_j w) ∧ qinv w) _ _ (λ _, linv) (λ _, linv)
    (λ _ w, disk_inv (lw_j w)) (λ w, disk_inv (lw_j w)) _ _ v w0 (conj Hj Hq)).
  - eapply triple_conseq; [apply triple_onJ, NewJournal_triple|..]; [done|..].
    + intros a w [[H _] ?]. by split.
    + by intros e w [].
    + by intros w [].
  - intros journal. eapply triple_bind with (Q' := λ _, linv).
    { eapply triple_conseq; [apply (triple_onJ _ jinv (λ _, jinv) (λ _, jinv) jinv)|..];
        [|done|done|by intros _ w [[] _]|by intros w [[] _]].
      eapply preserves_reads. unfold IDs. eapply (reads_bind _ _ _ (λ _ _, True));
        [apply reads_loadLocked|]. intros [rs total]. by apply reads_ret. }
    intros ids. eapply triple_bind with (Q' := λ _, linv); [|intros _; by apply triple_ret].
    apply triple_modify. intros w (Hjw & Hs & Hi & Hb). apply linv_intro; [done| | |done]; simpl.
    + clear -Hs. revert Hs. generalize (lw_stage w). induction ids as [|i ids IH]; [done|].
      intros s Hs. simpl. by apply IH, MarkHandled_wf.
    + clear -Hi. revert Hi. generalize (lw_stage w). induction ids as [|i ids IH]; [done|].
      intros s Hi. simpl. apply IH. eapply stage_int64_sub; [|exact Hi].
      unfold MarkHandled. case_match; [done|].
      destruct (markHandledLocked_frame (MkStage (s_max s) (s_handledMax s) (s_order s)
        (delete i (s_items s)) (s_handledOrder s) (s_handledSet s)) i) as [-> _].
      apply delete_subseteq.
Qed.

Lemma step_inv s s' : service_inv s → step s s' → service_inv s'.
Proof.
  intros Hs Hstep.
  destruct Hstep as [j inbox sm mr mb v v' journal w' Hin Hrun|j inbox sm mr mb v o v' w' Hin Hrun
    |journal w Execute v v' w' Hrun|journal w Execute v o v' w' Hrun|journal w batch Hb|journal w].
  - pose proof (start_inv sm mr mb j inbox v Hs Hin) as H. by rewrite Hrun in H.
  - pose proof (start_inv sm mr mb j inbox v Hs Hin) as H. rewrite Hrun in H.
    destruct o; [apply H|done..].
  - pose proof (linv_process marshal_record marshal_payload Execute AgentID journal v w Hs) as H.
    by rewrite Hrun in H.
  - pose proof (linv_process marshal_record marshal_payload Execute AgentID journal v w Hs) as H.
    rewrite Hrun in H. destruct o; apply H.
  - destruct Hs as (Hj & Hs & Hi & Hbx). apply linv_intro; try done. simpl.
    intros b a [Hb'| ->%list_elem_of_singleton]%elem_of_app Ha; [by eapply Hbx|auto].
  - apply Hs.
Qed.

(** The first start: any directory, and nothing has happened. *)
Definition first_boot (d : gmap string jentry) : service := Down (JW d []).

Lemma reachable_inv d s : dir_int64 d → rtc step (first_boot d) s → service_inv s.
Proof.
  intros Hd Hr. assert (Hinv : service_inv (first_boot d)).
  { split; simpl; [done| |done]. intros id Hid. unfold entry_ok. simpl.
    by destruct (d !! path id) as [e|]; [destruct (je_content e) as [[]|]|]. }
  clear Hd. revert Hinv. induction Hr as [|s1 s2 s3 Hstep Hr IH]; [done|].
  intros Hinv. apply IH. by eapply step_inv.
Qed.

Lemma reachable_log d s : dir_int64 d → rtc step (first_boot d) s → log_ok (jw_log (disk s)).
Proof.
  intros Hd Hr. apply reachable_inv in Hr; [|done].
  destruct s; [apply Hr|apply Hr].
Qed.

Lemma log_ok_app l1 l2 : log_ok (l1 ++ l2) → log_ok l2.
Proof.
  induction l1 as [|e l1 IH]; [done|]. intros H. apply IH.
  destruct e; simpl in H; naive_solver.
Qed.

(** C1: response actions are executed at most once.  In every execution of
    the agent — any directory at the first boot, any failures of system calls
    and reports, kills at any point, any number of restarts, any batches from
    the server — an execution of an action happens only when it was not
    executed since its journal file was last removed, and immediately after its
    record was made durable as executing, which followed the server's
    acknowledgement that it is running. *)
Theorem executed_at_most_once d s l1 id l2 :
  dir_int64 d → rtc step (first_boot d) s →
  jw_log (disk s) = l1 ++ EvExec id :: l2 →
  execs id l2 = 0 ∧
  ∃ r l3, l2 = EvWrite r :: EvReport id "running" :: l3 ∧
    ra_ID (jr_Action r) = id ∧ jr_Phase r = JournalExecuting.
Proof.
  intros Hd Hr Hlog. pose proof (reachable_log d s Hd Hr) as H. rewrite Hlog in H.
  apply log_ok_app in H. destruct H as (Hx & Hw & _). by split.
Qed.

(** C7: no result is lost: in every execution of the agent the journal file of
    an action is removed only right after the server acknowledged a report of
    its terminal status. *)
Theorem removed_only_after_report d s l1 id l2 :
  dir_int64 d → rtc step (first_boot d) s →
  jw_log (disk s) = l1 ++ EvRemove id :: l2 →
  ∃ status l3, l2 = EvReport id status :: l3 ∧
    (norm status = "success" ∨ norm status = "failed").
Proof.
  intros Hd Hr Hlog. pose proof (reachable_log d s Hd Hr) as H. rewrite Hlog in H.
  apply log_ok_app in H. destruct H as ((st & l & -> & Hst) & _). exists st, l. split; [done|].
  apply orb_true_iff in Hst as [Hst|Hst]; apply str_eqb_eq in Hst; auto.
Qed.

End system.

(** ** Progress *)

Lemma temp_name_insert fuel n p e d : is_temp p = false →
  temp_name fuel n (<[p := e]> d) = temp_name fuel n d.
Proof.
  intros Hp. revert n. induction fuel as [|fuel IH]; intros n; [done|]. cbn [temp_name].
  rewrite IH, lookup_insert_ne by (intros ->; done). done.
Qed.

Lemma validate_with_phase r phase res t :
  validateJournalRecord r = inr tt → t ≠ 0 →
  (phase = JournalExecuting ∧ res = None) ∨
  (phase = JournalTerminal ∧ ∃ x, res = Some x ∧
     er_ResponseActionID x = ra_ID (jr_Action r) ∧ terminal_status (norm (er_Status x)) = true) →
  validateJournalRecord (with_phase r phase res t) = inr tt.
Proof.
  intros Hv Ht Hph. unfold validateJournalRecord in *. simpl.
  destruct (negb (jr_Version r =? journalVersion)); [done|].
  destruct (Normalize (jr_Action r)); [done|]. unfold is_zero_time in *.
  destruct (jr_StartedAt r =? 0); [done|]. rewrite (proj2 (Z.eqb_neq t 0) Ht). simpl.
  destruct Hph as [[-> ->]|[-> (x & -> & Hx & Hst)]]; [done|]. simpl.
  by rewrite Hx, Z.eqb_refl, Hst.
Qed.

Section progress.
Context (marshal_record : JournalRecord → option Z) (marshal_payload : json → option Z).
Context (Execute : JournalRecord → ExecuteResult) (AgentID : string).

Lemma default_now_nonzero t v w : t ≠ 0 → default_now t v w = (Ok t, v, w).
Proof. intros Ht. unfold default_now, is_zero_time. by rewrite (proj2 (Z.eqb_neq t 0) Ht). Qed.

Lemma MarkExecuting_quiet id r t len temp w : t ≠ 0 → holds (jw_dir w) id r →
  validateJournalRecord r = inr tt → jr_Phase r = JournalAccepted →
  let r' := with_phase r JournalExecuting None t in
  marshal_record r' = Some len → len <= maxJournalRecordSize →
  temp_name tempAttempts 0 (jw_dir w) = Some temp →
  MarkExecuting marshal_record id t (quiet t) w = (Ok r', quiet t,
    JW (<[path (ra_ID (jr_Action r)) := entry_of r' len]> (jw_dir w)) (EvWrite r' :: jw_log w)).
Proof.
  intros Ht Hh Hv Hph r' Hlen Hmax Htemp.
  assert (Hres : jr_Result r = None).
  { unfold validateJournalRecord in Hv. rewrite Hph in Hv. simpl in Hv. by repeat case_match. }
  unfold MarkExecuting, bindM at 1. rewrite default_now_nonzero by done.
  unfold bindM at 1. rewrite (readLocked_quiet id r t w Hh Hv), Hph. simpl. rewrite Hres.
  fold r'. unfold bindM.
  rewrite (writeLocked_quiet marshal_record r' t w len temp); try done.
  apply validate_with_phase; auto.
Qed.

Lemma Complete_quiet id r result t len temp w : t ≠ 0 → holds (jw_dir w) id r →
  validateJournalRecord r = inr tt → jr_Phase r = JournalExecuting → ra_ID (jr_Action r) = id →
  terminal_status (norm (er_Status result)) = true →
  let r' := completed marshal_payload id result r t in
  marshal_record r' = Some len → len <= maxJournalRecordSize →
  temp_name tempAttempts 0 (jw_dir w) = Some temp →
  Complete marshal_record marshal_payload id result t (quiet t) w = (Ok r', quiet t,
    JW (<[path (ra_ID (jr_Action r)) := entry_of r' len]> (jw_dir w)) (EvWrite r' :: jw_log w)).
Proof.
  intros Ht Hh Hv Hph Hid Hst r' Hlen Hmax Htemp.
  unfold Complete, bindM at 1. rewrite default_now_nonzero by done.
  unfold bindM at 1. rewrite (readLocked_quiet id r t w Hh Hv), Hph. simpl. rewrite Hst. simpl.
  change (with_phase r JournalTerminal _ t) with r'. unfold bindM.
  rewrite (writeLocked_quiet marshal_record r' t w len temp); try done.
  apply validate_with_phase; [done..|]. right. split; [done|]. eexists. split; [done|].
  destruct (boundedResult_id_status marshal_payload (terminal_result id r result)) as [-> ->].
  simpl. by rewrite Hid, norm_idem.
Qed.

Lemma onJ_run {A} (m : JM A) v w o v' j :
  m v (lw_j w) = (o, v', j) → onJ m v w = (o, v', set_j j w).
Proof. intros H. unfold onJ. by rewrite H. Qed.

Lemma report_quiet res t w : ReportResponseActionResult res (quiet t) w =
  (Ok true, quiet t,
   set_j (log_event (EvReport (er_ResponseActionID res) (er_Status res)) (lw_j w)) w).
Proof. done. Qed.

Lemma run_execute_quiet r t w : run_execute Execute r (quiet t) w =
  (Ok (Execute r), quiet t, set_j (log_event (EvExec (ra_ID (jr_Action r))) (lw_j w)) w).
Proof. done. Qed.

Lemma reportTerminal_quiet r res t w : jr_Result r = Some res →
  reportTerminalResponseAction r (quiet t) w =
  (Ok true, quiet t, bump_delivered (set_j
     (log_event (EvRemove (ra_ID (jr_Action r))) (del_entry (path (ra_ID (jr_Action r)))
        (log_event (EvReport (er_ResponseActionID res) (er_Status res)) (lw_j w)))) w)).
Proof. intros Hr. unfold reportTerminalResponseAction. by rewrite Hr. Qed.


End progress.

(** ** Witnesses *)

Definition run_ok (r : JournalRecord) : ExecuteResult :=
  Build_ExecuteResult "success" (Some (JObj [])) "" 40 41.

(** The agent starts on an empty directory with one fetched batch, runs the
    action, is killed while executing the second one, and restarts. *)
Definition boot := start small_record "/j" 10 10 0 (quiet 50)
  (fresh_world (JW ∅ []) [[pending_action 7; pending_action 8]]).
Definition booted : Journal * lworld :=
  match boot with
  | (Ok j, _, w) => (j, w)
  | (_, _, w) => (journal10, w)
  end.
Definition crash_env : env := Env (repeat FOk 66 ++ [FCrash]) [50].
Definition round := processResponseActions small_record small_payload run_ok "agent-1"
  booted.1 crash_env booted.2.
Definition killed : service := Down (lw_j round.2).
Definition restarted := start small_record "/j" 10 10 0 (quiet 60) (fresh_world (lw_j round.2) []).

Lemma killed_reachable :
  rtc (step small_record small_payload "agent-1" "/j") (first_boot ∅) killed.
Proof.
  eapply rtc_l; [|apply rtc_once].
  - apply (step_start _ _ _ _ (JW ∅ []) [[pending_action 7; pending_action 8]] 10 10 0
      (quiet 50) (quiet 50) booted.1 booted.2).
    + intros batch a Hb Ha. apply list_elem_of_singleton in Hb as ->.
      repeat (apply elem_of_cons in Ha as [->|Ha]; [by vm_compute|]). by apply not_elem_of_nil in Ha.
    + vm_compute. reflexivity.
  - apply (step_process_fails _ _ _ _ booted.1 booted.2 run_ok crash_env round.1.1 round.1.2).
    change (round = (round.1.1, round.1.2, round.2)). by destruct round as [[? ?] ?].
Qed.

Lemma empty_int64 : dir_int64 ∅.
Proof. intros n e r b _ H. by rewrite lookup_empty in H. Qed.

Definition killed_log : list event := jw_log (disk killed).

Lemma executed_at_most_once_witness :
  killed_log = [] ++ EvExec 8 :: drop 1 killed_log ∧ execs 8 (drop 1 killed_log) = 0.
Proof.
  assert (H : killed_log = [] ++ EvExec 8 :: drop 1 killed_log) by (vm_compute; reflexivity).
  split; [exact H|].
  apply (executed_at_most_once small_record small_payload "agent-1" "/j" ∅ killed []
    8 (drop 1 killed_log) empty_int64 killed_reachable H).
Defined.

Lemma removed_only_after_report_witness :
  ∃ l1 l2, killed_log = l1 ++ EvRemove 7 :: l2 ∧
  ∃ status l3, l2 = EvReport 7 status :: l3 ∧ (norm status = "success" ∨ norm status = "failed").
Proof.
  exists (take 4 killed_log), (drop 5 killed_log).
  assert (H : killed_log = take 4 killed_log ++ EvRemove 7 :: drop 5 killed_log)
    by (vm_compute; reflexivity).
  split; [exact H|].
  apply (removed_only_after_report small_record small_payload "agent-1" "/j" ∅ killed
    (take 4 killed_log) 7 (drop 5 killed_log) empty_int64 killed_reachable H).
Defined.

Definition accepted7 : jworld := world_after (Begin small_record journal10 (pending_action 7) 30) (JW ∅ []).


(** The interrupted execution is a failure after the restart, and its id is
    remembered as handled. *)
Example restart_fails_interrupted :
  ∃ j v w, restarted = (Ok j, v, w) ∧
    (∃ r, holds (jw_dir (lw_j w)) 8 r ∧ jr_Phase r = JournalTerminal ∧
       er_Status <$> jr_Result r = Some "failed") ∧
    8 ∈ s_handledSet (lw_stage w).
Proof.
  eexists _, _, _. split; [vm_compute; reflexivity|]. split.
  - eexists. split; [eexists; split; vm_compute; reflexivity|]. split; reflexivity.
  - vm_compute. by apply (bool_decide_unpack _).
Qed.
