(* ===== verification/Spool.v ===== *)
(** * Spool: the durable store-and-forward queue (internal/spool/spool.go)

    One file per queued envelope, plus a statistics file, in one directory.  The
    directory maps names to files; a file has its size, its modification time
    and the envelope [json.Unmarshal] yields on it, if any.  System calls may
    fail or kill the process (module Effects).  Parameters: [filenameID] (hex of
    SHA-256), [marshal_env] (length of the JSON encoding of an envelope, or
    failure), the random identifiers [NewID] returns (in the world) and the
    token of a temporary file.  Methods are modelled on an enabled spool ([New]
    returns none when the directory is not configured).  An envelope read back
    equals the envelope written: the payload is taken up to the compaction
    [json.Marshal] performs. *)

From S2P Require Import Prelude GoStr Effects.

Local Open Scope Z_scope.
Local Open Scope go_scope.

Definition fileSuffix : string := ".spool.json".
Definition tempSuffix : string := ".tmp".
Definition statsVersion : Z := 1.

Record Envelope := {
  ev_ID : string;
  ev_Kind : string;
  ev_Priority : Z;
  ev_CreatedAt : time;
  ev_Attempts : Z;
  ev_Payload : string;
}.

Record Options := { o_Dir : string; o_MaxBytes : Z; o_MaxAge : duration; o_MaxItems : Z }.

Record Stats := {
  st_Pending : Z; st_Bytes : Z; st_EnqueuedTotal : Z; st_DeliveredTotal : Z;
  st_DroppedTotal : Z; st_ExpiredTotal : Z; st_CapacityTotal : Z; st_CorruptTotal : Z;
  st_PermanentTotal : Z; st_RetryTotal : Z; st_EnqueueErrorsTotal : Z;
}.

Record sfile := {
  sf_dir : bool;
  sf_size : Z;
  sf_mtime : time;
  sf_content : option Envelope;
}.

Inductive serror :=
  | ErrSpoolDisabled
  | ErrEmptyPayload
  | ErrSpoolMarshal
  | ErrSpoolIO (what : string)
  | ErrWriteEntry
  | ErrRetentionBudget
  | ErrInvalidReceipt
  | ErrSpoolNotFound
  | ErrSpoolDecode
  | ErrReceiptMismatch
  | ErrDelivery
  | ErrMarshalRetry
  | ErrPersistRetry.

(** A request the owner of the queue makes. *)
Record request := { rq_url : string; rq_batch : string; rq_payload : string }.

(** The spool with its directory; [sw_stats] is the decoded statistics file
    (version and contents), [sw_ids] the identifiers [NewID] will return,
    [sw_net] the requests made so far, which only the delivery functions add to. *)
Record sworld := SW {
  sw_dir : gmap string sfile;
  sw_stats : option (Z * Stats);
  sw_ids : list string;
  sw_inflight : gset string;
  sw_count : Stats;
  sw_net : list request;
}.

Definition SM : Type → Type := M sworld serror.

Definition set_dir (f : gmap string sfile → gmap string sfile) (w : sworld) : sworld :=
  SW (f (sw_dir w)) (sw_stats w) (sw_ids w) (sw_inflight w) (sw_count w) (sw_net w).
Definition set_count (f : Stats → Stats) (w : sworld) : sworld :=
  SW (sw_dir w) (sw_stats w) (sw_ids w) (sw_inflight w) (f (sw_count w)) (sw_net w).
Definition set_inflight (f : gset string → gset string) (w : sworld) : sworld :=
  SW (sw_dir w) (sw_stats w) (sw_ids w) (f (sw_inflight w)) (sw_count w) (sw_net w).

(** Files of the queue. *)
Definition is_entry (ne : string * sfile) : bool :=
  negb (sf_dir ne.2) && HasSuffix ne.1 fileSuffix.

(** The entries of the directory in the order of [os.ReadDir]. *)
Definition dir_list (d : gmap string sfile) : list (string * sfile) :=
  merge_sort (λ a b : string * sfile, String.le a.1 b.1) (map_to_list d).

(** [time.Time.UnixNano]. *)
Definition UnixNano (t : time) : Z :=
  let z := t - 62135596800 * second in (z + 2 ^ 63) mod 2 ^ 64 - 2 ^ 63.

Definition read_count (f : Stats → Z) (w : sworld) : Z := f (sw_count w).

(** [recordRemovalLocked], with the reasons of its callers. *)
Inductive reason := RDelivered | RExpired | RCapacity | RCorrupt | RPermanent.

#[export] Instance reason_eq_dec : EqDecision reason.
Proof. solve_decision. Defined.

Definition bump (b : bool) (n : Z) : Z := if b then n + 1 else n.

Definition recordRemovalLocked (size : Z) (r : reason) (s : Stats) : Stats := {|
  st_Pending := Z.max 0 (st_Pending s - 1);
  st_Bytes := Z.max 0 (st_Bytes s - size);
  st_EnqueuedTotal := st_EnqueuedTotal s;
  st_DeliveredTotal := bump (bool_decide (r = RDelivered)) (st_DeliveredTotal s);
  st_DroppedTotal := bump (negb (bool_decide (r = RDelivered))) (st_DroppedTotal s);
  st_ExpiredTotal := bump (bool_decide (r = RExpired)) (st_ExpiredTotal s);
  st_CapacityTotal := bump (bool_decide (r = RCapacity)) (st_CapacityTotal s);
  st_CorruptTotal := bump (bool_decide (r = RCorrupt)) (st_CorruptTotal s);
  st_PermanentTotal := bump (bool_decide (r = RPermanent)) (st_PermanentTotal s);
  st_RetryTotal := st_RetryTotal s;
  st_EnqueueErrorsTotal := st_EnqueueErrorsTotal s;
|}.

Definition on_enqueued (len : Z) (s : Stats) : Stats :=
  Build_Stats (st_Pending s + 1) (st_Bytes s + len) (st_EnqueuedTotal s + 1) (st_DeliveredTotal s)
    (st_DroppedTotal s) (st_ExpiredTotal s) (st_CapacityTotal s) (st_CorruptTotal s)
    (st_PermanentTotal s) (st_RetryTotal s) (st_EnqueueErrorsTotal s).
Definition on_enqueue_error (s : Stats) : Stats :=
  Build_Stats (st_Pending s) (st_Bytes s) (st_EnqueuedTotal s) (st_DeliveredTotal s)
    (st_DroppedTotal s) (st_ExpiredTotal s) (st_CapacityTotal s) (st_CorruptTotal s)
    (st_PermanentTotal s) (st_RetryTotal s) (st_EnqueueErrorsTotal s + 1).
Definition on_retry (delta : Z) (s : Stats) : Stats :=
  Build_Stats (st_Pending s) (st_Bytes s + delta) (st_EnqueuedTotal s) (st_DeliveredTotal s)
    (st_DroppedTotal s) (st_ExpiredTotal s) (st_CapacityTotal s) (st_CorruptTotal s)
    (st_PermanentTotal s) (st_RetryTotal s + 1) (st_EnqueueErrorsTotal s).
Definition clamp_counts (s : Stats) : Stats :=
  Build_Stats (Z.max 0 (st_Pending s)) (Z.max 0 (st_Bytes s)) (st_EnqueuedTotal s)
    (st_DeliveredTotal s) (st_DroppedTotal s) (st_ExpiredTotal s) (st_CapacityTotal s)
    (st_CorruptTotal s) (st_PermanentTotal s) (st_RetryTotal s) (st_EnqueueErrorsTotal s).

Definition zero_stats : Stats := Build_Stats 0 0 0 0 0 0 0 0 0 0 0.

(** A call whose error the code ignores. *)
Definition ignore {A} (m : SM A) : SM unit := _ <- try (E:=serror) (E':=serror) m;; retM tt.

Section spool.
Context (filenameID : string → string) (tmp_token : string → string).
Context (marshal_env : Envelope → option Z).
Context (opts : Options).

Definition syncDir : SM unit :=
  sys_or (ErrSpoolIO "open directory") id;;; sys_or (ErrSpoolIO "sync directory") id.

Definition tmp_name (path : string) : string :=
  path +:+ "." +:+ tmp_token path +:+ tempSuffix.

(** [writeAtomic]: the outcome of the write, the sync and the close is examined
    after all three were made; [activate] is the effect of the rename. *)
Definition writeAtomic (path : string) (mtime : time) (activate : sworld → sworld) : SM unit :=
  let tmp := tmp_name path in
  let part := {| sf_dir := false; sf_size := 0; sf_mtime := mtime; sf_content := None |} in
  let cleanup := _ <- sys (set_dir (delete tmp));; retM tt in
  sys_or (ErrSpoolIO "open temporary file") (set_dir (insert tmp part));;;
  w <- sys id;;
  s <- sys id;;
  c <- sys id;;
  if negb w then cleanup;;; throw (ErrSpoolIO "write")
  else if negb s then cleanup;;; throw (ErrSpoolIO "sync")
  else if negb c then cleanup;;; throw (ErrSpoolIO "close")
  else
    r <- sys (λ w, activate (set_dir (delete tmp) w));;
    if negb r then cleanup;;; throw (ErrSpoolIO "rename")
    else syncDir.

Definition entry_file (env : Envelope) (len : Z) (t : time) : sfile :=
  {| sf_dir := false; sf_size := len; sf_mtime := t; sf_content := Some env |}.

Definition persistStatsLocked : SM unit :=
  t <- now;;
  s <- gets sw_count;;
  writeAtomic ".spool-stats.json" t
    (λ w, SW (sw_dir w) (Some (statsVersion, s)) (sw_ids w) (sw_inflight w) (sw_count w) (sw_net w)).

(** ** Retention *)

Record rrecord := {
  rr_name : string; rr_size : Z; rr_created : time; rr_priority : Z }.

(** The first loop of [enforceRetentionLocked]; a file whose [Info] fails is
    skipped, one that cannot be read has priority 0 and its modification time. *)
Fixpoint collect (entries : list (string * sfile)) : SM (list rrecord) :=
  match entries with
  | [] => retM []
  | (name, f) :: entries =>
    if negb (is_entry (name, f)) then collect entries else
    info <- sys id;;
    if negb info then collect entries else
    read <- sys id;;
    let '(priority, created) :=
      match (if read : bool then sf_content f else None) with
      | Some env => (ev_Priority env,
          if is_zero_time (ev_CreatedAt env) then sf_mtime f else ev_CreatedAt env)
      | None => (0, sf_mtime f)
      end in
    rest <- collect entries;;
    retM ({| rr_name := name; rr_size := sf_size f; rr_created := created;
             rr_priority := priority |} :: rest)
  end.

(** [os.Remove] of an entry and its bookkeeping, when it succeeds. *)
Definition remove_entry (name : string) (size : Z) (r : reason) : SM bool :=
  b <- sys (set_dir (delete name));;
  (if b : bool then modify (set_count (recordRemovalLocked size r)) else retM tt);;;
  retM b.

Fixpoint expire (cutoff : time) (records : list rrecord) : SM (list rrecord) :=
  match records with
  | [] => retM []
  | rec :: records =>
    inflight <- gets sw_inflight;;
    if decide (rr_name rec ∈ inflight)
    then kept <- expire cutoff records;; retM (rec :: kept)
    else if (0 <? o_MaxAge opts) && (rr_created rec <? cutoff)
    then remove_entry (rr_name rec) (rr_size rec) RExpired;;; expire cutoff records
    else kept <- expire cutoff records;; retM (rec :: kept)
  end.

(** The eviction order: lowest priority first, then name. *)
Definition evict_le (a b : rrecord) : Prop :=
  rr_priority a < rr_priority b ∨
  rr_priority a = rr_priority b ∧ String.le (rr_name a) (rr_name b).

#[export] Instance evict_le_dec : RelDecision evict_le.
Proof. intros a b. unfold evict_le. apply _. Defined.

Fixpoint evict_loop (remaining : Z) (kept : list rrecord) : SM unit :=
  match kept with
  | [] => retM tt
  | rec :: kept =>
    bytes <- gets (read_count st_Bytes);;
    if (bytes <=? o_MaxBytes opts) && (remaining <=? o_MaxItems opts) then retM tt else
    inflight <- gets sw_inflight;;
    if decide (rr_name rec ∈ inflight) then evict_loop remaining kept
    else
      b <- remove_entry (rr_name rec) (rr_size rec) RCapacity;;
      evict_loop (if b : bool then remaining - 1 else remaining) kept
  end.

Definition enforceRetentionLocked : SM unit :=
  ok <- sys id;;
  if negb ok then retM tt else
  d <- gets sw_dir;;
  records <- collect (dir_list d);;
  let records := merge_sort (λ a b, String.le (rr_name a) (rr_name b)) records in
  t <- now;;
  kept <- expire (t - o_MaxAge opts) records;;
  let kept := merge_sort evict_le kept in
  evict_loop (Z.of_nat (length kept)) kept;;;
  modify (set_count clamp_counts);;;
  ignore syncDir.

(** ** Enqueue, acknowledge, reject *)

(** [NewID]: the next random identifier. *)
Definition NewID : SM string :=
  ids <- gets sw_ids;;
  match ids with
  | [] => retM ""
  | x :: ids => modify (λ w, SW (sw_dir w) (sw_stats w) ids (sw_inflight w) (sw_count w) (sw_net w));;; retM x
  end.

Definition entry_name (t : time) (id token : string) : string :=
  fmt020 (UnixNano t) +:+ "-" +:+ filenameID id +:+ "-" +:+ filenameID token +:+ fileSuffix.

(** The result is the envelope and its receipt. *)
Definition EnqueuePriority (ident kind : string) (priority : Z) (payload : string)
    : SM (Envelope * string) :=
  if is_empty payload then throw ErrEmptyPayload else
  ident <- (if is_empty (TrimSpace ident) then NewID else retM (TrimSpace ident));;
  t <- now;;
  let env := {|
    ev_ID := ident; ev_Kind := TrimSpace kind; ev_Priority := priority; ev_CreatedAt := t;
    ev_Attempts := 0; ev_Payload := payload |} in
  match marshal_env env with
  | None => throw ErrSpoolMarshal
  | Some len =>
    token <- NewID;;
    let name := entry_name t ident token in
    mtime <- now;;
    r <- try (writeAtomic name mtime (set_dir (insert name (entry_file env len mtime))));;
    match r with
    | inl _ =>
      modify (set_count on_enqueue_error);;;
      ignore persistStatsLocked;;;
      throw ErrWriteEntry
    | inr _ =>
      modify (set_count (on_enqueued len));;;
      enforceRetentionLocked;;;
      ignore persistStatsLocked;;;
      ok <- sys id;;
      if negb ok then throw (ErrSpoolIO "inspect entry") else
      d <- gets sw_dir;;
      if decide (is_Some (d !! name)) then retM (env, name) else throw ErrRetentionBudget
    end
  end.

Definition Enqueue (ident kind payload : string) : SM (Envelope * string) :=
  EnqueuePriority ident kind 0 payload.

(** [filepath.Base(name) != name] for a non-empty name: it holds a slash or is
    one of the special results. *)
Definition is_base (name : string) : bool := negb (Contains name "/").

Definition removeEnvelope (ident receipt : string) (r : reason) : SM unit :=
  let name := TrimSpace receipt in
  if is_empty name || negb (is_base name) || negb (HasSuffix name fileSuffix)
  then throw ErrInvalidReceipt else
  sys_or (ErrSpoolIO "read entry") id;;;
  d <- gets sw_dir;;
  match d !! name with
  | None => throw ErrSpoolNotFound
  | Some f =>
    if sf_dir f then throw (ErrSpoolIO "read entry") else
    match sf_content f with
    | None => throw ErrSpoolDecode
    | Some stored =>
      if negb (str_eqb (TrimSpace (ev_ID stored)) (TrimSpace ident)) then throw ErrReceiptMismatch else
      sys_or (ErrSpoolIO "remove entry") (set_dir (delete name));;;
      modify (set_count (recordRemovalLocked (sf_size f) r));;;
      syncDir;;;
      ignore persistStatsLocked
    end
  end.

Definition Acknowledge (ident receipt : string) : SM unit := removeEnvelope ident receipt RDelivered.
Definition Reject (ident receipt : string) : SM unit := removeEnvelope ident receipt RPermanent.

(** ** Drain *)

Record srecord := { sr_name : string; sr_priority : Z; sr_created : time; sr_valid : bool }.

Fixpoint snapshot_entries (entries : list (string * sfile)) : SM (list srecord) :=
  match entries with
  | [] => retM []
  | (name, f) :: entries =>
    if negb (is_entry (name, f)) then snapshot_entries entries else
    read <- sys id;;
    let item :=
      match (if read : bool then sf_content f else None) with
      | Some env => {| sr_name := name; sr_priority := ev_Priority env;
                       sr_created := ev_CreatedAt env; sr_valid := true |}
      | None => {| sr_name := name; sr_priority := 0; sr_created := 0; sr_valid := false |}
      end in
    rest <- snapshot_entries entries;;
    retM (item :: rest)
  end.

(** The delivery order: unreadable entries, then by falling priority, age and
    name. *)
Definition drain_le (a b : srecord) : Prop :=
  if negb (Bool.eqb (sr_valid a) (sr_valid b)) then sr_valid a = false
  else if negb (sr_priority a =? sr_priority b) then sr_priority b < sr_priority a
  else if negb (sr_created a =? sr_created b) then sr_created a < sr_created b
  else String.le (sr_name a) (sr_name b).

#[export] Instance drain_le_dec : RelDecision drain_le.
Proof. intros a b. unfold drain_le. repeat case_match; apply _. Defined.

Definition snapshot : SM (list string) :=
  sys_or (ErrSpoolIO "read directory") id;;;
  d <- gets sw_dir;;
  records <- snapshot_entries (dir_list d);;
  retM (map sr_name (merge_sort drain_le records)).

Definition discard (name : string) (size : Z) (r : reason) : SM unit :=
  b <- remove_entry name size r;;
  (if b : bool then ignore syncDir;;; ignore persistStatsLocked else retM tt);;;
  modify (set_inflight (λ i, i ∖ {[name]})).

Definition release (name : string) : SM unit := modify (set_inflight (λ i, i ∖ {[name]})).

(** What [deliver] reports. *)
Inductive delivery := Delivered | PermanentFailure | RetryableFailure.

(** [deliver] runs without the lock: other goroutines may enqueue meanwhile, so
    it is an arbitrary computation on the spool. *)
Context (deliver : Envelope → SM delivery).

(** The iteration of [Drain] on one name: it goes on (with the number of
    deliveries it made) or the call returns with an error. *)
Definition drain_one (name : string) : SM Z :=
  modify (set_inflight (λ i, {[name]} ∪ i));;;
  read <- sys id;;
  d <- gets sw_dir;;
  if negb read then release name;;; throw (ErrSpoolIO "read entry") else
  match d !! name with
  | None => release name;;; retM 0
  | Some f =>
    let size := sf_size f in
    if sf_dir f then release name;;; throw (ErrSpoolIO "read entry") else
    match sf_content f with
    | None => discard name size RCorrupt;;; retM 0
    | Some env =>
      t <- now;;
      if (0 <? o_MaxAge opts) && (o_MaxAge opts <? time_sub t (ev_CreatedAt env))
      then discard name size RExpired;;; retM 0 else
      result <- deliver env;;
      match result with
      | PermanentFailure => discard name size RPermanent;;; retM 0
      | RetryableFailure =>
        let env := {| ev_ID := ev_ID env; ev_Kind := ev_Kind env; ev_Priority := ev_Priority env;
                      ev_CreatedAt := ev_CreatedAt env; ev_Attempts := ev_Attempts env + 1;
                      ev_Payload := ev_Payload env |} in
        match marshal_env env with
        | None => release name;;; throw ErrMarshalRetry
        | Some len =>
          mtime <- now;;
          r <- try (writeAtomic name mtime (set_dir (insert name (entry_file env len mtime))));;
          match r with
          | inl _ => release name;;; throw ErrPersistRetry
          | inr _ =>
            modify (set_count (on_retry (len - size)));;;
            ignore persistStatsLocked;;;
            release name;;;
            throw ErrDelivery
          end
        end
      | Delivered =>
        b <- remove_entry name size RDelivered;;
        (if b : bool then ignore syncDir;;; ignore persistStatsLocked else retM tt);;;
        release name;;;
        if negb b then throw (ErrSpoolIO "remove entry") else retM 1
      end
    end
  end.

(** The loop; [ctx] says whether the context is cancelled at each turn.  The
    number of deliveries is returned with the error. *)
Fixpoint drain_loop (limit : nat) (ctx : list bool) (entries : list string) (delivered : Z)
    : SM (Z * option serror) :=
  match limit, entries with
  | O, _ => retM (delivered, None)
  | _, [] => retM (delivered, None)
  | S limit, name :: entries =>
    if hd false ctx then retM (delivered, Some (ErrSpoolIO "context cancelled")) else
    r <- try (drain_one name);;
    match r with
    | inl e => retM (delivered, Some e)
    | inr n => drain_loop limit (tl ctx) entries (delivered + n)
    end
  end.

Definition Drain (limit : Z) (ctx : list bool) : SM (Z * option serror) :=
  let limit := if limit <=? 0 then 64 else limit in
  names <- try snapshot;;
  match names with
  | inl e => retM (0, Some e)
  | inr names => drain_loop (Z.to_nat limit) ctx names 0
  end.

(** ** Start *)

Definition loadStatsLocked : SM unit :=
  ok <- sys id;;
  st <- gets sw_stats;;
  match (if ok : bool then st else None) with
  | Some (version, s) =>
    if negb (version =? statsVersion) then retM tt else
    modify (set_count (λ c,
      Build_Stats (st_Pending c) (st_Bytes c) (Z.max (st_EnqueuedTotal s) 0)
        (Z.max (st_DeliveredTotal s) 0) (Z.max (st_DroppedTotal s) 0)
        (Z.max (st_ExpiredTotal s) 0) (Z.max (st_CapacityTotal s) 0)
        (Z.max (st_CorruptTotal s) 0) (Z.max (st_PermanentTotal s) 0)
        (Z.max (st_RetryTotal s) 0) (Z.max (st_EnqueueErrorsTotal s) 0)))
  | None => retM tt
  end.

Fixpoint rescan_entries (entries : list (string * sfile)) (pending total : Z) : SM (Z * Z) :=
  match entries with
  | [] => retM (pending, total)
  | (name, f) :: entries =>
    if sf_dir f then rescan_entries entries pending total
    else if HasSuffix name tempSuffix
    then _ <- sys (set_dir (delete name));; rescan_entries entries pending total
    else if negb (HasSuffix name fileSuffix) then rescan_entries entries pending total
    else
      info <- sys id;;
      if negb info then rescan_entries entries pending total
      else rescan_entries entries (pending + 1) (total + sf_size f)
  end.

Definition rescanLocked : SM unit :=
  ok <- sys id;;
  if negb ok then retM tt else
  d <- gets sw_dir;;
  '(pending, total) <- rescan_entries (dir_list d) 0 0;;
  modify (set_count (λ s,
    Build_Stats pending total (Z.max (st_EnqueuedTotal s) pending) (st_DeliveredTotal s)
      (st_DroppedTotal s) (st_ExpiredTotal s) (st_CapacityTotal s) (st_CorruptTotal s)
      (st_PermanentTotal s) (st_RetryTotal s) (st_EnqueueErrorsTotal s)));;;
  enforceRetentionLocked;;;
  ignore persistStatsLocked.

End spool.

(** [New] with a configured directory; the in-memory state starts empty. *)
Definition New (tmp_token : string → string) (opts : Options) : SM Options :=
  let opts := {|
    o_Dir := TrimSpace (o_Dir opts);
    o_MaxBytes := if o_MaxBytes opts <=? 0 then 256 * 2 ^ 20 else o_MaxBytes opts;
    o_MaxAge := if o_MaxAge opts <=? 0 then 24 * hour else o_MaxAge opts;
    o_MaxItems := if o_MaxItems opts <=? 0 then 10000 else o_MaxItems opts |} in
  sys_or (ErrSpoolIO "create directory") id;;;
  sys_or (ErrSpoolIO "secure directory") id;;;
  modify (λ w, SW (sw_dir w) (sw_stats w) (sw_ids w) ∅ zero_stats (sw_net w));;;
  loadStatsLocked;;;
  rescanLocked tmp_token opts;;;
  retM opts.

(** ** Invariants *)

#[local] Set Default Proof Using "Type".

Section accounting.
Context (drift : Z * Z).

Definition entries_count (d : gmap string sfile) : Z :=
  map_sum (λ n f, if is_entry (n, f) then 1 else 0) d.
Definition entries_bytes (d : gmap string sfile) : Z :=
  map_sum (λ n f, if is_entry (n, f) then sf_size f else 0) d.

Definition sizes_ok (d : gmap string sfile) : Prop := ∀ n f, d !! n = Some f → 0 <= sf_size f.

(** The counters agree with the directory, every enqueued envelope is delivered,
    dropped or pending, and every dropped one has one of the four reasons.  The
    totals survive restarts in a file that may be behind when the process is
    killed: [drift] is what they missed then, and no operation changes it. *)
Record sinv (w : sworld) : Prop := {
  si_sizes : sizes_ok (sw_dir w);
  si_pending : st_Pending (sw_count w) = entries_count (sw_dir w);
  si_bytes : st_Bytes (sw_count w) = entries_bytes (sw_dir w);
  si_conserved : st_EnqueuedTotal (sw_count w) =
    st_DeliveredTotal (sw_count w) + st_DroppedTotal (sw_count w) + st_Pending (sw_count w)
    + drift.1;
  si_dropped : st_DroppedTotal (sw_count w) =
    st_ExpiredTotal (sw_count w) + st_CapacityTotal (sw_count w) + st_CorruptTotal (sw_count w)
    + st_PermanentTotal (sw_count w) + drift.2;
}.

Lemma temp_not_entry s : HasSuffix (s +:+ tempSuffix) fileSuffix = false.
Proof.
  unfold HasSuffix. rewrite to_chars_app, reverse_app.
  apply bool_decide_eq_false. intros H. apply (f_equal head) in H. discriminate H.
Qed.

Lemma tmp_name_not_entry tok p : HasSuffix (tmp_name tok p) fileSuffix = false.
Proof.
  unfold tmp_name.
  rewrite !str_app_assoc. apply temp_not_entry.
Qed.

(** Changes of the directory outside the queue. *)
Definition other_stable (P : sworld → Prop) : Prop := ∀ name w,
  HasSuffix name fileSuffix = false → P w →
  (∀ f, 0 <= sf_size f → P (set_dir (insert name f) w)) ∧ P (set_dir (delete name) w).

Lemma at_key_not_entry d n (g : sfile → Z) :
  HasSuffix n fileSuffix = false →
  at_key (λ n f, if is_entry (n, f) then g f else 0) d n = 0.
Proof.
  intros Hn. unfold at_key. destruct (d !! n); [|done]. unfold is_entry. simpl.
  by rewrite Hn, andb_false_r.
Qed.

Lemma sinv_other : other_stable sinv.
Proof.
  intros n w Hn [Hs Hp Hb Hc Hd].
  assert (Hg : ∀ g : sfile → Z,
    let h n f := if is_entry (n, f) then g f else 0 in
    (∀ f, map_sum h (<[n := f]> (sw_dir w)) = map_sum h (sw_dir w)) ∧
    map_sum h (delete n (sw_dir w)) = map_sum h (sw_dir w)).
  { intros g h. split.
    - intros f. rewrite map_sum_insert. unfold h. rewrite at_key_not_entry by done.
      unfold is_entry at 2. simpl. rewrite Hn, andb_false_r. lia.
    - rewrite map_sum_delete. unfold h. rewrite at_key_not_entry by done. lia. }
  destruct (Hg (λ _, 1)) as [Hc1 Hc2]. destruct (Hg sf_size) as [Hb1 Hb2].
  split.
  - intros f Hf. split; simpl; [| | |done..].
    + intros m g. destruct (decide (m = n)) as [->|].
      * rewrite lookup_insert_eq. naive_solver.
      * rewrite lookup_insert_ne by done. eauto.
    + unfold entries_count. by rewrite Hc1.
    + unfold entries_bytes. by rewrite Hb1.
  - split; simpl; [| | |done..].
    + intros m g Hm. apply lookup_delete_Some in Hm as [_ Hm]. eauto.
    + unfold entries_count. by rewrite Hc2.
    + unfold entries_bytes. by rewrite Hb2.
Qed.

(** Removing an entry together with its bookkeeping. *)
Definition at_entry (name : string) (size : Z) (d : gmap string sfile) : Prop :=
  ∃ f, d !! name = Some f ∧ is_entry (name, f) = true ∧ sf_size f = size.

Lemma sinv_remove name size r w : sinv w → at_entry name size (sw_dir w) →
  sinv (set_count (recordRemovalLocked size r) (set_dir (delete name) w)).
Proof.
  intros [Hs Hp Hb Hc Hd] (f & Hf & He & Hsz).
  assert (Hnonneg : ∀ k v, sw_dir w !! k = Some v →
    0 <= (if is_entry (k, v) then 1 else 0) ∧ 0 <= (if is_entry (k, v) then sf_size v else 0)).
  { intros k v Hk. specialize (Hs _ _ Hk). case_match; lia. }
  assert (H1 : at_key (λ n f, if is_entry (n, f) then 1 else 0) (sw_dir w) name = 1).
  { unfold at_key. by rewrite Hf, He. }
  assert (H2 : at_key (λ n f, if is_entry (n, f) then sf_size f else 0) (sw_dir w) name = size).
  { unfold at_key. by rewrite Hf, He. }
  assert (1 <= entries_count (sw_dir w)) as Hc1.
  { rewrite <-H1. apply map_sum_at_key. intros k v Hk. by apply Hnonneg. }
  assert (size <= entries_bytes (sw_dir w)) as Hb1.
  { rewrite <-H2. apply map_sum_at_key. intros k v Hk. by apply Hnonneg. }
  split; simpl.
  - intros m g Hm. apply lookup_delete_Some in Hm as [_ Hm]. eauto.
  - unfold entries_count in *. rewrite map_sum_delete, H1. lia.
  - unfold entries_bytes in *. rewrite map_sum_delete, H2. lia.
  - destruct r; simpl; lia.
  - destruct r; simpl; lia.
Qed.

Lemma sinv_insert name env len t w : sinv w → sw_dir w !! name = None →
  HasSuffix name fileSuffix = true → 0 <= len →
  sinv (set_count (on_enqueued len) (set_dir (insert name (entry_file env len t)) w)).
Proof.
  intros [Hs Hp Hb Hc Hd] Hn Hsuf Hlen.
  assert (He : is_entry (name, entry_file env len t) = true) by (unfold is_entry; simpl; by rewrite Hsuf).
  split; simpl.
  - intros m g. destruct (decide (m = name)) as [->|].
    + rewrite lookup_insert_eq. intros [= <-]. done.
    + rewrite lookup_insert_ne by done. eauto.
  - unfold entries_count in *. rewrite map_sum_insert, He. unfold at_key. rewrite Hn. simpl. lia.
  - unfold entries_bytes in *. rewrite map_sum_insert, He. unfold at_key. rewrite Hn. simpl. lia.
  - lia.
  - done.
Qed.

(** The predicates on a spool that the bookkeeping of statistics respects. *)
Definition stats_stable (P : sworld → Prop) : Prop :=
  ∀ w st, P w → P (SW (sw_dir w) st (sw_ids w) (sw_inflight w) (sw_count w) (sw_net w)).

Lemma sinv_stats : stats_stable sinv.
Proof. by intros w st []. Qed.

Section effects.
Context (filenameID : string → string) (tmp_token : string → string).
Context (marshal_env : Envelope → option Z).
Context (opts : Options).

Lemma nothrow_remove_entry name size r : nothrow (remove_entry name size r).
Proof. unfold remove_entry. nothrow_tac. Qed.
#[local] Hint Resolve nothrow_remove_entry : effects.

Lemma nothrow_enforce : nothrow (enforceRetentionLocked opts).
Proof.
  assert (H1 : ∀ l, nothrow (collect l)).
  { induction l as [|[n f] l IH]; cbn [collect]; nothrow_tac. }
  assert (H2 : ∀ c l, nothrow (expire opts c l)).
  { intros c l. induction l as [|r l IH]; cbn [expire]; nothrow_tac. }
  assert (H3 : ∀ l n, nothrow (evict_loop opts n l)).
  { induction l as [|r l IH]; intros n; cbn [evict_loop]; nothrow_tac. }
  unfold enforceRetentionLocked, ignore. nothrow_tac.
Qed.

Lemma preserves_syncDir I : preserves I syncDir.
Proof. unfold syncDir. presv. Qed.

Lemma triple_ignore {A} (P Q : sworld → Prop) (m : SM A) R C :
  triple P m (λ _, Q) (λ _, Q) C → triple P (ignore m) (λ _, Q) R C.
Proof.
  intros Hm. unfold ignore. eapply triple_bind with (Q' := λ _, Q); [by apply triple_try|].
  intros _. by apply triple_ret.
Qed.

(** An atomic write: the rename takes effect or nothing visible does. *)
Lemma writeAtomic_triple path mtime act (P Q : sworld → Prop) :
  other_stable P → (∀ w, P w → Q (act (set_dir (delete (tmp_name tmp_token path)) w))) →
  triple P (writeAtomic tmp_token path mtime act) (λ _, Q)
    (λ _ w, P w ∨ Q w) (λ w, P w ∨ Q w).
Proof.
  intros HP HQ. unfold writeAtomic. set (tmp := tmp_name tmp_token path) in *.
  assert (Htmp : HasSuffix tmp fileSuffix = false) by apply tmp_name_not_entry.
  eapply triple_bind with (Q' := λ _, P).
  { apply triple_sys_or; [|auto..]. intros w Hw. by apply HP. }
  intros _. eapply triple_bind with (Q' := λ _, P); [apply triple_sys; auto|]. intros b1.
  eapply triple_bind with (Q' := λ _, P); [apply triple_sys; auto|]. intros b2.
  eapply triple_bind with (Q' := λ _, P); [apply triple_sys; auto|]. intros b3.
  assert (Hfail : ∀ e, triple (A:=unit) P ((_ <- sys (set_dir (delete tmp));; retM tt);;; throw e)
      (λ _, Q) (λ (_ : serror) w, P w ∨ Q w) (λ w, P w ∨ Q w)).
  { intros e. eapply triple_bind with (Q' := λ _, P); [|intros _; apply triple_throw; auto].
    eapply triple_bind with (Q' := λ _, P); [|intros _; by apply triple_ret].
    apply triple_sys; [|auto..]. intros w Hw. by apply HP. }
  prog_if E1; [apply Hfail|]. prog_if E2; [apply Hfail|]. prog_if E3; [apply Hfail|].
  eapply triple_bind with (Q' := λ b w, if b : bool then Q w else P w).
  { apply triple_sys; auto. }
  intros b. destruct b; simpl; [|apply Hfail].
  eapply triple_conseq; [apply (preserves_syncDir Q)|simpl; auto..].
Qed.

Lemma preserves_persist I : other_stable I → stats_stable I → preserves I (persistStatsLocked tmp_token).
Proof.
  intros Ho Hs. unfold persistStatsLocked.
  apply preserves_bind; [apply preserves_now|intros t].
  apply preserves_bind; [apply preserves_gets|intros s].
  eapply triple_conseq; [apply (writeAtomic_triple _ t _ I I Ho)|simpl; naive_solver..].
  intros w Hw. apply (Hs (set_dir _ w)). by apply Ho; [apply tmp_name_not_entry|].
Qed.

(** The totals a retention pass does not change. *)
Definition totals (s : Stats) : list Z :=
  [st_EnqueuedTotal s; st_DeliveredTotal s; st_CorruptTotal s; st_PermanentTotal s;
   st_RetryTotal s; st_EnqueueErrorsTotal s].

Definition retention_reason (r : reason) : Prop := r = RExpired ∨ r = RCapacity.

Lemma totals_removal size r s : retention_reason r → totals (recordRemovalLocked size r s) = totals s.
Proof. by intros [-> | ->]. Qed.

(** The invariant with the entries in delivery pinned: nobody else touches
    them. *)
Definition rinv (N : list Z) (F : gset string) (D : string → option sfile) (w : sworld) : Prop :=
  sinv w ∧ totals (sw_count w) = N ∧ sw_inflight w = F ∧
  ∀ n, n ∈ F → HasSuffix n fileSuffix = true → sw_dir w !! n = D n.

Lemma rinv_other N F D : other_stable (rinv N F D).
Proof.
  intros n w Hn (Hs & HN & HF & HD). destruct (sinv_other n w Hn Hs) as [H1 H2].
  split; [intros f Hf|]; (split_and!; [auto|done|done|]); simpl; intros m Hm Hsuf;
    rewrite ?lookup_insert_ne, ?lookup_delete_ne by congruence; auto.
Qed.

Lemma rinv_stats N F D : stats_stable (rinv N F D).
Proof. intros w st (Hs & HN & HF & HD). split_and!; [by apply sinv_stats|done|done|done]. Qed.

Lemma rinv_remove N F D name size r w : retention_reason r → rinv N F D w → name ∉ F → at_entry name size (sw_dir w) →
  rinv N F D (set_count (recordRemovalLocked size r) (set_dir (delete name) w)).
Proof.
  intros Hr (Hs & HN & HF & HD) Hn Ha.
  split_and!; [by apply sinv_remove|simpl; by rewrite totals_removal|done|].
  simpl. intros m Hm Hsuf. rewrite lookup_delete_ne by congruence. auto.
Qed.

(** The records of a retention pass describe files of the queue. *)
Definition present (rs : list rrecord) (w : sworld) : Prop :=
  NoDup (map rr_name rs) ∧ ∀ r, r ∈ rs → at_entry (rr_name r) (rr_size r) (sw_dir w).

Lemma present_perm rs rs' w : rs ≡ₚ rs' → present rs w → present rs' w.
Proof. intros Hp [H1 H2]. split; [by rewrite <-Hp|]. intros r Hr. apply H2. by rewrite Hp. Qed.

Lemma present_tail r rs w : present (r :: rs) w → present rs w.
Proof. intros [H1 H2]. inversion H1; subst. split; [done|]. intros r' Hr'. apply H2. by right. Qed.

Lemma present_after_remove r rs w c : present (r :: rs) w →
  present rs (set_count c (set_dir (delete (rr_name r)) w)).
Proof.
  intros [H1 H2]. inversion H1 as [|? ? Hn Hnd]; subst. split; [done|]. intros r' Hr'.
  destruct (H2 r' ltac:(by right)) as (f & Hf & He). exists f. split; [|done]. simpl.
  rewrite lookup_delete_ne; [done|]. intros Heq. apply Hn. rewrite Heq.
  by apply list_elem_of_fmap_2.
Qed.

Lemma triple_remove N F D r rs reason :
  retention_reason reason → rr_name r ∉ F →
  triple (λ w, rinv N F D w ∧ present (r :: rs) w) (remove_entry (rr_name r) (rr_size r) reason)
    (λ _ w, rinv N F D w ∧ present rs w) (λ _, rinv N F D) (rinv N F D).
Proof.
  intros Hre Hn. unfold remove_entry.
  eapply triple_bind with (Q' := λ b w, if b : bool
    then ∃ w0, w = set_dir (delete (rr_name r)) w0 ∧ rinv N F D w0 ∧ present (r :: rs) w0
    else rinv N F D w ∧ present (r :: rs) w).
  { apply triple_sys; [eauto|done|]. by intros w []. }
  intros b. eapply triple_bind with (Q' := λ _ w, rinv N F D w ∧ present rs w);
    [|intros _; apply triple_ret; done].
  destruct b.
  - apply triple_modify. intros w (w0 & -> & Hr & Hp). split.
    + apply rinv_remove; [done..|]. apply Hp. by left.
    + by apply present_after_remove.
  - apply triple_ret. intros w [Hr Hp]. split; [done|]. by eapply present_tail.
Qed.

Lemma expire_triple N F D cutoff rs : ∀ ex,
  triple (λ w, rinv N F D w ∧ present (rs ++ ex) w) (expire opts cutoff rs)
    (λ kept w, rinv N F D w ∧ present (kept ++ ex) w) (λ _, rinv N F D) (rinv N F D).
Proof.
  induction rs as [|r rs IH]; intros ex; cbn [expire].
  - by apply triple_ret.
  - apply triple_start. intros w0 [Hr Hp].
    assert (Hkeep : triple (λ w, w = w0) (kept <- expire opts cutoff rs;; retM (r :: kept))
      (λ kept w, rinv N F D w ∧ present (kept ++ ex) w) (λ _, rinv N F D) (rinv N F D)).
    { eapply triple_bind with (Q' := λ kept w, rinv N F D w ∧ present (kept ++ r :: ex) w).
      - apply (triple_known (λ w, rinv N F D w ∧ present (rs ++ r :: ex) w)); [|apply IH].
        split; [done|]. eapply present_perm; [|exact Hp]. simpl. by rewrite Permutation_middle.
      - intros kept. apply triple_ret. intros w [Hr' Hp']. split; [done|].
        eapply present_perm; [|exact Hp']. simpl. by rewrite Permutation_middle. }
    eapply triple_bind with (Q' := λ i w, i = F ∧ w = w0).
    { apply triple_gets. intros w ->. split; [apply Hr|done]. }
    intros i. apply triple_pure. intros ->. case_decide as Hin; [exact Hkeep|].
    prog_if E; [|exact Hkeep].
    eapply triple_bind with (Q' := λ _ w, rinv N F D w ∧ present (rs ++ ex) w); [|intros _; apply IH].
    apply (triple_known (λ w, rinv N F D w ∧ present (r :: rs ++ ex) w)); [done|].
    apply triple_remove; [by (left + right)|done].
Qed.

Lemma evict_triple N F D rs : ∀ remaining,
  triple (λ w, rinv N F D w ∧ present rs w) (evict_loop opts remaining rs)
    (λ _, rinv N F D) (λ _, rinv N F D) (rinv N F D).
Proof.
  induction rs as [|r rs IH]; intros remaining; cbn [evict_loop].
  - apply triple_ret. by intros w [].
  - apply triple_start. intros w0 [Hr Hp].
    eapply triple_bind with (Q' := λ _ w, w = w0); [by apply triple_gets|]. intros bytes.
    prog_if E; [apply triple_ret; by intros w ->|].
    eapply triple_bind with (Q' := λ i w, i = F ∧ w = w0).
    { apply triple_gets. intros w ->. split; [apply Hr|done]. }
    intros i. apply triple_pure. intros ->. case_decide as Hin.
    + apply (triple_known (λ w, rinv N F D w ∧ present rs w)); [|apply IH].
      split; [done|]. by eapply present_tail.
    + eapply triple_bind with (Q' := λ _ w, rinv N F D w ∧ present rs w); [|intros b; apply IH].
      apply (triple_known (λ w, rinv N F D w ∧ present (r :: rs) w)); [done|].
      apply triple_remove; [by (left + right)|done].
Qed.

Lemma reads_collect entries :
  reads (collect entries) (λ rs w,
    NoDup (map fst entries) → (∀ ne, ne ∈ entries → sw_dir w !! ne.1 = Some ne.2) →
    present rs w ∧ ∀ r, r ∈ rs → rr_name r ∈ map fst entries).
Proof.
  induction entries as [|[n f] entries IH]; cbn [collect].
  - apply reads_ret. intros w _ _. split; [split; [constructor|]|]; intros r Hr;
      by apply not_elem_of_nil in Hr.
  - assert (Hskip : reads (collect entries) (λ rs w, NoDup (map fst ((n, f) :: entries)) →
      (∀ ne, ne ∈ (n, f) :: entries → sw_dir w !! ne.1 = Some ne.2) →
      present rs w ∧ ∀ r, r ∈ rs → rr_name r ∈ map fst ((n, f) :: entries))).
    { eapply reads_conseq; [exact IH|]. intros rs w H Hnd Hin. inversion Hnd; subst.
      destruct H as [Hr1 Hr2]; [done|intros ne Hne; apply Hin; by right|].
      split; [done|]. intros r Hr. right. auto. }
    prog_if E1; [exact Hskip|].
    apply reads_seq; [eapply reads_conseq; [apply reads_sys_id|done]|intros info].
    prog_if E2; [exact Hskip|].
    apply reads_seq; [eapply reads_conseq; [apply reads_sys_id|done]|intros rd].
    destruct (match (if rd : bool then sf_content f else None) with Some _ => _ | None => _ end)
      as [priority created].
    eapply reads_bind; [exact IH|]. intros rest. apply reads_ret.
    intros w H Hnd Hin. inversion Hnd as [|? ? Hn Hnd']; subst.
    destruct H as [[Hp1 Hp2] Hnm]; [done|intros ne Hne; apply Hin; by right|]. zbool.
    split; [split|].
    + simpl. constructor; [|done]. intros Hx.
      apply list_elem_of_fmap in Hx as (r & -> & Hr). by apply Hn, Hnm.
    + intros r [->|Hr]%elem_of_cons; [|by apply Hp2].
      exists f. split_and!; [|done|done]. by apply (Hin (n, f)); left.
    + intros r [->|Hr]%elem_of_cons; simpl; [by left|right; auto].
Qed.

Lemma dir_list_spec d : NoDup (map fst (dir_list d)) ∧
  ∀ ne, ne ∈ dir_list d → d !! ne.1 = Some ne.2.
Proof.
  unfold dir_list. split.
  - rewrite (merge_sort_Permutation _ (map_to_list d)). apply NoDup_fst_map_to_list.
  - intros [n f] Hin. rewrite merge_sort_Permutation in Hin. by apply elem_of_map_to_list in Hin.
Qed.

Lemma sinv_clamp N F D w : rinv N F D w → rinv N F D (set_count clamp_counts w).
Proof.
  intros ([Hs Hp Hb Hc Hd] & HN & HF & HD).
  assert (0 <= entries_count (sw_dir w) ∧ 0 <= entries_bytes (sw_dir w)) as [H1 H2].
  { split; apply map_sum_nonneg; intros k v Hk; specialize (Hs _ _ Hk); case_match; lia. }
  split_and!; [|done|done|done]. split; simpl; lia || done.
Qed.

(** Retention keeps the invariant and leaves the entries in delivery alone. *)
Lemma preserves_enforce N F D : preserves (rinv N F D) (enforceRetentionLocked opts).
Proof.
  unfold enforceRetentionLocked.
  apply preserves_bind; [by apply preserves_sys|intros ok].
  prog_if E; [apply preserves_ret|].
  eapply triple_bind with (Q' := λ d w, rinv N F D w ∧ d = sw_dir w); [by apply triple_gets|].
  intros d. destruct (dir_list_spec d) as [Hnd Hin].
  eapply triple_reads_bind; [apply reads_collect| |by intros ? ? []|by intros ? []].
  intros rs. eapply triple_bind with (Q' := λ _ w, rinv N F D w ∧
    present (merge_sort (λ a b, String.le (rr_name a) (rr_name b)) rs) w).
  { apply triple_now. intros _ w [[Hr ->] H]. split; [done|].
    eapply present_perm; [symmetry; apply merge_sort_Permutation|]. by apply H. }
  intros t. eapply triple_bind.
  { eapply triple_conseq; [apply (expire_triple N F D _ _ [])|..]; simpl; [|intros k w H; exact H|auto..].
    intros w [Hr Hp]. by rewrite app_nil_r. }
  intros kept. eapply triple_bind with (Q' := λ _, rinv N F D).
  { eapply triple_conseq; [apply (evict_triple N F D)|..]; simpl; [|done..].
    intros w [Hr Hp]. rewrite app_nil_r in Hp. split; [done|].
    eapply present_perm; [symmetry; apply merge_sort_Permutation|done]. }
  intros _. apply preserves_bind; [apply preserves_modify, sinv_clamp|intros _].
  apply triple_ignore, preserves_syncDir.
Qed.

(** ** Enqueueing *)

(** The identifiers still to be drawn give names that are not in use. *)
Definition fresh_ids (w : sworld) : Prop :=
  (2 <= length (sw_ids w))%nat ∧
  ∀ tok t ident, tok ∈ sw_ids w →
    let name := entry_name filenameID t ident tok in
    sw_dir w !! name = None ∧ name ∉ sw_inflight w.

Hypothesis marshal_nonneg : ∀ env len, marshal_env env = Some len → 0 <= len.

Lemma entry_name_suffix t ident tok :
  HasSuffix (entry_name filenameID t ident tok) fileSuffix = true.
Proof. unfold entry_name. rewrite !str_app_assoc. apply HasSuffix_app. Qed.

(** An entry is in the directory although the spool did not count it. *)
Definition untracked (N : list Z) (F : gset string) (D : string → option sfile)
    (name : string) (w : sworld) : Prop :=
  rinv N F D (set_dir (delete name) w) ∧ is_Some (sw_dir w !! name).

Lemma untracked_other N F D name : HasSuffix name fileSuffix = true →
  other_stable (untracked N F D name).
Proof.
  intros Hsuf n w Hn [Hr He].
  assert (n ≠ name) as Hne by congruence.
  destruct (rinv_other N F D n (set_dir (delete name) w) Hn Hr) as [H1 H2]. split.
  - intros f Hf. split.
    + specialize (H1 f Hf). unfold set_dir in *. simpl in *. by rewrite delete_insert_ne by done.
    + simpl. by rewrite lookup_insert_ne.
  - split.
    + unfold set_dir in *. simpl in *. by rewrite delete_delete.
    + simpl. by rewrite lookup_delete_ne.
Qed.

Lemma untracked_stats N F D name : stats_stable (untracked N F D name).
Proof. intros w st [Hr He]. split; [|done]. by apply (rinv_stats N F D _ st) in Hr. Qed.

(** The totals after a successful or failed enqueue. *)
Definition plus_enqueued (N : list Z) : list Z :=
  match N with a :: l => a + 1 :: l | [] => [] end.
Definition plus_error (N : list Z) : list Z :=
  match N with [a; b; c; d; e; f] => [a; b; c; d; e; f + 1] | l => l end.

Lemma rinv_enqueue_error N F D w : rinv N F D w →
  rinv (plus_error N) F D (set_count on_enqueue_error w).
Proof. intros ([] & HN & HF & HD). split_and!; [by split|by subst N|done|done]. Qed.

Lemma rinv_enqueued N F D name env len t w :
  rinv N F D w → sw_dir w !! name = None → name ∉ F → HasSuffix name fileSuffix = true → 0 <= len →
  rinv (plus_enqueued N) F D
    (set_count (on_enqueued len) (set_dir (insert name (entry_file env len t)) w)).
Proof.
  intros (Hs & HN & HF & HD) Hn HnF Hsuf Hlen. split_and!; [by apply sinv_insert|by subst N|done|].
  simpl. intros m Hm Hms. rewrite lookup_insert_ne; [auto|congruence].
Qed.

(** What [EnqueuePriority] leaves behind, by its result. *)
Definition enqueue_post (N : list Z) (F : gset string) (D : string → option sfile)
    (kind : string) (priority : Z) (payload : string) (r : Envelope * string) (w : sworld) : Prop :=
  rinv (plus_enqueued N) F D w ∧ is_Some (sw_dir w !! r.2) ∧
  ev_Kind r.1 = TrimSpace kind ∧ ev_Priority r.1 = priority ∧ ev_Attempts r.1 = 0 ∧
  ev_Payload r.1 = payload.

Definition enqueue_error (N : list Z) (F : gset string) (D : string → option sfile)
    (e : serror) (w : sworld) : Prop :=
  match e with
  | ErrEmptyPayload | ErrSpoolMarshal => rinv N F D w
  | ErrWriteEntry => rinv (plus_error N) F D w ∨
      ∃ name, HasSuffix name fileSuffix = true ∧ untracked (plus_error N) F D name w
  | _ => rinv (plus_enqueued N) F D w
  end.

Lemma NewID_triple (P : sworld → Prop) (Q : string → sworld → Prop) (R : serror → sworld → Prop) C :
  (∀ w x ids, sw_ids w = x :: ids → P w →
     Q x (SW (sw_dir w) (sw_stats w) ids (sw_inflight w) (sw_count w) (sw_net w))) →
  (∀ w, P w → sw_ids w ≠ []) → triple P NewID Q R C.
Proof.
  intros HQ Hne v w Hw. unfold NewID, bindM, gets, modify, retM.
  specialize (Hne w Hw). destruct (sw_ids w) as [|x ids] eqn:Hids; [done|]. by apply HQ.
Qed.

Lemma EnqueuePriority_triple N F D ident kind priority payload :
  triple (λ w, rinv N F D w ∧ fresh_ids w)
    (EnqueuePriority filenameID tmp_token marshal_env opts ident kind priority payload)
    (enqueue_post N F D kind priority payload) (enqueue_error N F D) (λ _, True).
Proof using All.
  unfold EnqueuePriority. prog_if E; [apply triple_throw; by intros w []|].
  set (pre w := rinv N F D w ∧ ∃ tok, tok ∈ sw_ids w ∧ hd "" (sw_ids w) = tok ∧
    ∀ t i, let name := entry_name filenameID t i tok in
      sw_dir w !! name = None ∧ name ∉ F).
  eapply triple_bind with (Q' := λ _, pre).
  { prog_if E2.
    - apply NewID_triple.
      + intros w x ids Hids ((Hs & HN & HF & HD) & Hl & Hfr).
        split; [by split_and!; destruct Hs|]. destruct ids as [|y ids]; rewrite Hids in *; [simpl in *; lia|].
        exists y. simpl. split_and!; [by left|done|]. rewrite <-HF.
        intros t i. apply Hfr. right. by left.
      + intros w [_ [Hl _]] Hids. rewrite Hids in Hl. simpl in Hl. lia.
    - apply triple_ret. intros w (Hr & Hl & Hfr). split; [done|].
      destruct (sw_ids w) as [|y ids]; [simpl in *; lia|]. exists y. split_and!; [by left|done|].
      destruct Hr as (_ & _ & <- & _). intros t i. apply Hfr. by left. }
  intros i. eapply triple_bind with (Q' := λ _, pre); [apply triple_now; done|]. intros t.
  set (env := Build_Envelope _ _ _ _ _ _).
  destruct (marshal_env env) as [len|] eqn:Hlen; [|apply triple_throw; by intros w []].
  eapply triple_bind with (Q' := λ tok w, rinv N F D w ∧
    let name := entry_name filenameID t i tok in sw_dir w !! name = None ∧ name ∉ F).
  { apply NewID_triple.
    - intros w x ids Hids [Hr (tok & Htok & Hhd & Hfr)]. rewrite Hids in Hhd. simpl in Hhd. subst x.
      split; [|apply Hfr]. destruct Hr as ([] & HN & HF & HD). split_and!; done.
    - intros w [_ (tok & Htok & _)] Hids. rewrite Hids in Htok. by apply not_elem_of_nil in Htok. }
  intros tok. set (name := entry_name filenameID t i tok).
  pose proof (entry_name_suffix t i tok) as Hsuf. fold name in Hsuf.
  eapply triple_bind with (Q' := λ _ w, rinv N F D w ∧ sw_dir w !! name = None ∧ name ∉ F);
    [apply triple_now; done|]. intros mtime.
  set (Q w := name ∉ F ∧ ∃ w0, w = set_dir (insert name (entry_file env len mtime)) w0 ∧
    rinv N F D w0 ∧ sw_dir w0 !! name = None).
  eapply triple_bind with (Q' := λ r w,
    match r with inr _ => Q w | inl _ => rinv N F D w ∨ Q w end).
  { eapply triple_try, triple_conseq;
      [apply (writeAtomic_triple _ mtime _ (λ w, rinv N F D w ∧ sw_dir w !! name = None ∧ name ∉ F) Q)
      |done|done| |done].
    - intros n w Hn (Hr & Hno & HF). destruct (rinv_other N F D n w Hn Hr) as [H1 H2].
      split; [intros f Hf|]; (split_and!; [auto| |done]); simpl;
        rewrite ?lookup_insert_ne, ?lookup_delete_ne by congruence; done.
    - intros w (Hr & Hno & HF). split; [done|]. eexists. split; [done|].
      destruct (rinv_other N F D (tmp_name tmp_token name) w (tmp_name_not_entry _ _) Hr) as [_ H2].
      split; [done|]. simpl. by apply lookup_delete_None; right.
    - simpl. intros _ w [(?&?)|?]; auto. }
  intros [e|u].
  - set (R w := rinv (plus_error N) F D w ∨ untracked (plus_error N) F D name w).
    eapply triple_bind with (Q' := λ _, R).
    { apply triple_modify. intros w [Hr|(HF & w0 & -> & Hr & Hno)].
      - left. by apply rinv_enqueue_error.
      - right. split; [|simpl; rewrite lookup_insert_eq; eauto].
        apply (rinv_enqueue_error N F D) in Hr. unfold set_count, set_dir in *. simpl in *.
        by rewrite delete_insert_eq, delete_id. }
    intros _. eapply triple_bind with (Q' := λ _, R).
    { eapply triple_conseq; [apply (triple_ignore R R _ (λ _ _, False) R)|done|done|done|done].
      apply preserves_persist.
      + intros n w Hn [Hr|Hu].
        * destruct (rinv_other _ F D n w Hn Hr). split; [|by left]. intros f Hf. left. auto.
        * destruct (untracked_other _ F D name Hsuf n w Hn Hu). split; [|by right].
          intros f Hf. right. auto.
      + intros w st [Hr|Hu]; [left; by apply rinv_stats|right; by apply untracked_stats]. }
    intros _. apply triple_throw. intros w [Hr|Hu]; [by left|right; by exists name].
  - eapply triple_bind with (Q' := λ _, rinv (plus_enqueued N) F D).
    { apply triple_modify. intros w (HF & w0 & -> & Hr & Hno).
      apply rinv_enqueued; eauto. }
    intros _. eapply triple_bind with (Q' := λ _, rinv (plus_enqueued N) F D).
    { eapply triple_nothrow; [apply nothrow_enforce|].
      eapply triple_conseq; [apply (preserves_enforce (plus_enqueued N) F D)|done|done| |done].
      intros e w H. exact H. }
    intros _. eapply triple_bind with (Q' := λ _, rinv (plus_enqueued N) F D).
    { eapply triple_conseq; [apply (triple_ignore (rinv (plus_enqueued N) F D)
        (rinv (plus_enqueued N) F D) _ (λ _ _, False) (λ _, True))|done|done|done|done].
      eapply triple_conseq; [apply (preserves_persist (rinv (plus_enqueued N) F D));
        [apply rinv_other|apply rinv_stats]|done..]. }
    intros _. eapply triple_bind with (Q' := λ _, rinv (plus_enqueued N) F D); [by apply triple_sys|].
    intros ok. prog_if E3; [by apply triple_throw|].
    eapply triple_bind with (Q' := λ d w, rinv (plus_enqueued N) F D w ∧ d = sw_dir w);
      [by apply triple_gets|].
    intros d. case_decide as Hd; [|apply triple_throw; by intros w []].
    apply triple_ret. intros w [Hr ->]. by split_and!.
Qed.

(** ** Draining *)

(** The invariant of a drain: deliveries are counted, the entries of [F] are
    pinned to [D]. *)
Definition pinv (k : Z) (F : gset string) (D : string → option sfile) (w : sworld) : Prop :=
  sinv w ∧ st_DeliveredTotal (sw_count w) = k ∧ sw_inflight w = F ∧
  ∀ n, n ∈ F → HasSuffix n fileSuffix = true → sw_dir w !! n = D n.

Lemma pinv_other k F D : other_stable (pinv k F D).
Proof.
  intros n w Hn (Hs & HN & HF & HD). destruct (sinv_other n w Hn Hs) as [H1 H2].
  split; [intros f Hf|]; (split_and!; [auto|done|done|]); simpl; intros m Hm Hsuf;
    rewrite ?lookup_insert_ne, ?lookup_delete_ne by congruence; auto.
Qed.

Lemma pinv_stats k F D : stats_stable (pinv k F D).
Proof. intros w st (Hs & HN & HF & HD). split_and!; [by apply sinv_stats|done|done|done]. Qed.

Lemma triple_persist_ignore k F D R C : (∀ w, pinv k F D w → C w) →
  triple (pinv k F D) (ignore (persistStatsLocked tmp_token)) (λ _, pinv k F D) R C.
Proof.
  intros HC. apply triple_ignore. eapply triple_conseq;
    [apply (preserves_persist (pinv k F D)); [apply pinv_other|apply pinv_stats]|done..|done].
Qed.

Lemma triple_sync_ignore k F D R C : (∀ w, pinv k F D w → C w) →
  triple (pinv k F D) (ignore syncDir) (λ _, pinv k F D) R C.
Proof.
  intros HC. apply triple_ignore.
  eapply triple_conseq; [apply (preserves_syncDir (pinv k F D))|done..|done].
Qed.

(** The state while [name] is in delivery and its file is [fo]. *)
Definition pin (name : string) (fo : option sfile) (D : string → option sfile) (n : string)
    : option sfile := if decide (n = name) then fo else D n.

Definition delivering (k : Z) (F : gset string) (D : string → option sfile) (name : string)
    (fo : option sfile) : sworld → Prop := pinv k ({[name]} ∪ F) (pin name fo D).

Lemma delivering_at k F D name fo w : delivering k F D name fo w →
  HasSuffix name fileSuffix = true → sw_dir w !! name = fo.
Proof using All.
  intros (_ & _ & _ & HD) Hsuf. rewrite HD by set_solver. unfold pin. by rewrite decide_True.
Qed.

Lemma pinv_release k F D name fo w : name ∉ F → delivering k F D name fo w →
  pinv k F D (set_inflight (λ i, i ∖ {[name]}) w).
Proof using All.
  intros Hn (Hs & HN & HF & HD). split_and!; [by destruct Hs|done|simpl; set_solver|].
  simpl. intros n Hin Hsuf. rewrite HD by set_solver. unfold pin. rewrite decide_False; [done|set_solver].
Qed.

Lemma triple_release k F D name fo R C : name ∉ F →
  triple (delivering k F D name fo) (release name) (λ _, pinv k F D) R C.
Proof using All. intros Hn. apply triple_modify. intros w. by apply pinv_release. Qed.

Lemma delivering_removed k F D name f r w : HasSuffix name fileSuffix = true →
  sf_dir f = false → delivering k F D name (Some f) w →
  delivering (bump (bool_decide (r = RDelivered)) k) F D name None
    (set_count (recordRemovalLocked (sf_size f) r) (set_dir (delete name) w)).
Proof using All.
  intros Hsuf Hdir Hdel. pose proof (delivering_at _ _ _ _ _ _ Hdel Hsuf) as Hat.
  destruct Hdel as (Hs & HN & HF & HD).
  split_and!; [|simpl; by rewrite HN|done|].
  - apply sinv_remove; [done|]. exists f. split_and!; [done| |done]. unfold is_entry. simpl.
    by rewrite Hdir, Hsuf.
  - simpl. intros m Hm Hms. unfold pin. case_decide as Hd; [subst; apply lookup_delete_eq|].
    rewrite lookup_delete_ne, HD by done. unfold pin. by rewrite decide_False.
Qed.

Lemma sinv_replace name f env len t w : sinv w → sw_dir w !! name = Some f →
  is_entry (name, f) = true → HasSuffix name fileSuffix = true → 0 <= len →
  sinv (set_count (on_retry (len - sf_size f)) (set_dir (insert name (entry_file env len t)) w)).
Proof.
  intros [Hs Hp Hb Hc Hd] Hf He Hsuf Hlen.
  assert (He' : is_entry (name, entry_file env len t) = true) by (unfold is_entry; simpl; by rewrite Hsuf).
  split; simpl; [| | |done|done].
  - intros m g. destruct (decide (m = name)) as [->|].
    + rewrite lookup_insert_eq. intros [= <-]. done.
    + rewrite lookup_insert_ne by done. eauto.
  - unfold entries_count in *. rewrite map_sum_insert, He'. unfold at_key. rewrite Hf, He. lia.
  - unfold entries_bytes in *. rewrite map_sum_insert, He'. unfold at_key. rewrite Hf, He.
    unfold entry_file. simpl. lia.
Qed.

Lemma remove_delivering k F D name f r R : HasSuffix name fileSuffix = true → sf_dir f = false →
  triple (delivering k F D name (Some f)) (remove_entry name (sf_size f) r)
    (λ b, delivering (if b : bool then bump (bool_decide (r = RDelivered)) k else k) F D name
       (if b then None else Some f)) R (λ _, True).
Proof using All.
  intros Hsuf Hdir. unfold remove_entry.
  eapply triple_bind with (Q' := λ b w, if b : bool
    then ∃ w0, w = set_dir (delete name) w0 ∧ delivering k F D name (Some f) w0
    else delivering k F D name (Some f) w); [apply triple_sys; eauto|].
  intros b. destruct b.
  - eapply triple_bind with (Q' := λ _, delivering (bump (bool_decide (r = RDelivered)) k) F D name None);
      [|intros _; by apply triple_ret].
    apply triple_modify. intros w (w0 & -> & Hdel). by apply delivering_removed.
  - eapply triple_bind with (Q' := λ _, delivering k F D name (Some f)); [by apply triple_ret|].
    intros _. by apply triple_ret.
Qed.

(** The tail of a removal: sync, statistics. *)
Lemma removal_tail (b : bool) k F D R :
  triple (pinv k F D)
    (if b then ignore syncDir;;; ignore (persistStatsLocked tmp_token) else retM tt)
    (λ _, pinv k F D) R (λ _, True).
Proof.
  destruct b; [|by apply triple_ret].
  eapply triple_bind with (Q' := λ _, pinv k F D); [by apply triple_sync_ignore|].
  intros _. by apply triple_persist_ignore.
Qed.

(** Discarding the entry in delivery. *)
Lemma discard_triple k F D name f r R : name ∉ F → HasSuffix name fileSuffix = true →
  sf_dir f = false → r ≠ RDelivered →
  triple (delivering k F D name (Some f)) (discard tmp_token name (sf_size f) r)
    (λ _, pinv k F D) R (λ _, True).
Proof using All.
  intros Hn Hsuf Hdir Hr. unfold discard.
  eapply triple_bind; [by apply remove_delivering|]. intros b. simpl.
  rewrite bool_decide_eq_false_2 by done. simpl.
  replace (if b then k else k) with k by (by destruct b).
  eapply triple_bind; [apply removal_tail|]. intros u. by apply triple_release.
Qed.

Context (deliver : Envelope → SM delivery).

(** What [Drain] relies on: the delivery function may do anything to the spool
    that other goroutines may, but the entries in delivery stay as they are. *)
Class SpoolClient (deliver : Envelope → SM delivery) : Prop := client_ok : ∀ k F D env,
  triple (pinv k F D) (deliver env) (λ _, pinv k F D) (λ _, pinv k F D) (λ _, True).

(** A delivery that only looks at its envelope, and one during which another
    goroutine runs a retention pass. *)
#[export] Instance pure_client (f : Envelope → delivery) : SpoolClient (λ env, retM (f env)).
Proof. intros k F D env. by apply triple_ret. Qed.

#[export] Instance retention_client (f : Envelope → delivery) :
  SpoolClient (λ env, enforceRetentionLocked opts;;; retM (f env)).
Proof.
  intros k F D env. apply triple_start. intros w0 (Hs & Hk & HF & HD).
  eapply triple_bind with (Q' := λ _, pinv k F D); [|intros _; by apply triple_ret].
  apply (triple_known (rinv (totals (sw_count w0)) F D)); [by split_and!|].
  assert (Himp : ∀ w, rinv (totals (sw_count w0)) F D w → pinv k F D w).
  { intros w (Hs' & HN & HF' & HD'). split_and!; [done| |done|done].
    unfold totals in HN. by simplify_eq. }
  eapply triple_conseq; [apply (preserves_enforce (totals (sw_count w0)) F D)|done|by auto..|done].
Qed.

Context `{!SpoolClient deliver}.

(** After an error the counters are exact, unless the retry state could not be
    made durable. *)
Definition drain_error (k : Z) (F : gset string) (D : string → option sfile) (e : serror)
    (w : sworld) : Prop := e = ErrPersistRetry ∨ ∃ F', F ⊆ F' ∧ ∃ D', pinv k F' D' w.

Lemma drain_one_triple k F D name : name ∉ F → HasSuffix name fileSuffix = true →
  triple (pinv k F D) (drain_one tmp_token marshal_env opts deliver name)
    (λ n w, pinv (k + n) F D w ∧ 0 <= n <= 1) (drain_error k F D) (λ _, True).
Proof using All.
  intros Hn Hsuf. apply triple_start. intros w0 Hw0. unfold drain_one.
  set (fo := sw_dir w0 !! name).
  eapply triple_bind with (Q' := λ _, delivering k F D name fo).
  { apply triple_modify. intros w ->. destruct Hw0 as (Hs & HN & HF & HD).
    split_and!; [by destruct Hs|done|simpl; by rewrite HF|].
    simpl. intros m Hm Hms. unfold pin. case_decide; [by subst|]. apply HD; [set_solver|done]. }
  intros _. eapply triple_bind with (Q' := λ _, delivering k F D name fo); [by apply triple_sys|].
  intros rd. eapply triple_bind with (Q' := λ d w, delivering k F D name fo w ∧ d !! name = fo).
  { apply triple_gets. intros w Hw. split; [done|]. by eapply delivering_at. }
  intros d.
  assert (Hrel : ∀ A fo' (e : serror) Q, triple (A:=A) (delivering k F D name fo')
      (release name;;; throw e) Q (drain_error k F D) (λ _, True)).
  { intros A fo' e Q. eapply triple_bind; [by apply triple_release|]. intros u.
    apply triple_throw. intros w Hw. right. exists F. split; [done|]. by exists D. }
  assert (Hok : ∀ w, pinv k F D w → pinv (k + 0) F D w ∧ 0 <= 0 <= 1).
  { intros w Hw. rewrite Z.add_0_r. split; [done|lia]. }
  prog_if E; [eapply triple_weaken; [|apply Hrel]; by intros ? []|].
  destruct (d !! name) as [f|] eqn:Hd.
  2: { eapply triple_bind with (Q' := λ _, pinv k F D); [|intros _; by apply triple_ret].
       apply (triple_weaken (delivering k F D name fo)); [by intros ? []|]. by apply triple_release. }
  apply (triple_weaken (delivering k F D name (Some f)));
    [intros w [H Heq]; by rewrite <-Heq in H|].
  prog_if Edir; [apply Hrel|].
  assert (Hdisc : ∀ r, r ≠ RDelivered → triple (delivering k F D name (Some f))
      (discard tmp_token name (sf_size f) r;;; retM 0)
      (λ n w, pinv (k + n) F D w ∧ 0 <= n <= 1) (drain_error k F D) (λ _, True)).
  { intros r Hr. eapply triple_bind; [by apply discard_triple|]. intros u. by apply triple_ret. }
  destruct (sf_content f) as [env|]; [|by apply Hdisc].
  eapply triple_bind with (Q' := λ _, delivering k F D name (Some f)); [by apply triple_now|].
  intros t. prog_if Eexp; [by apply Hdisc|].
  eapply triple_bind with (Q' := λ _, delivering k F D name (Some f)).
  { eapply triple_conseq; [apply client_ok|done|done| |done].
    intros e w Hw. right. exists ({[name]} ∪ F).
    split; [set_solver|]. exists (pin name (Some f) D). exact Hw. }
  intros res. destruct res.
  - eapply triple_bind; [by apply remove_delivering|]. intros b. simpl.
    eapply triple_bind; [apply removal_tail|]. intros u.
    eapply triple_bind; [by apply triple_release|]. intros u'.
    destruct b; simpl.
    + apply triple_ret. intros w Hw. split; [done|lia].
    + apply triple_throw. intros w Hw. right. exists F. split; [done|]. by exists D.
  - by apply Hdisc.
  - set (env' := Build_Envelope _ _ _ _ _ _).
    destruct (marshal_env env') as [len|] eqn:Hlen; [|apply Hrel].
    eapply triple_bind with (Q' := λ _, delivering k F D name (Some f)); [by apply triple_now|].
    intros mt. set (f' := entry_file env' len mt).
    set (Q w := ∃ w1, w = set_dir (insert name f') w1 ∧ delivering k F D name (Some f) w1).
    eapply triple_bind with (Q' := λ r w, match r with inr _ => Q w | inl _ => True end).
    { eapply triple_try, triple_conseq;
        [apply (writeAtomic_triple _ mt _ (delivering k F D name (Some f)) Q); [apply pinv_other|]
        |done|done|done|done].
      intros w Hw. eexists. split; [done|]. by apply pinv_other; [apply tmp_name_not_entry|]. }
    intros [e|u].
    + eapply triple_bind with (Q' := λ _ _, True); [by apply triple_modify|].
      intros _. apply triple_throw. by left.
    + eapply triple_bind with (Q' := λ _, delivering k F D name (Some f')).
      { apply triple_modify. intros w (w1 & -> & Hdel).
        pose proof (delivering_at _ _ _ _ _ _ Hdel Hsuf) as Hat.
        destruct Hdel as (Hs & HN & HF & HD).
        split_and!; [|done|done|].
        - apply sinv_replace; [done|done| |done|by eapply marshal_nonneg].
          unfold is_entry. simpl. by rewrite Edir, Hsuf.
        - simpl. intros m Hm Hms. unfold pin. case_decide as Hmd; [subst; apply lookup_insert_eq|].
          rewrite lookup_insert_ne, HD by done. unfold pin. by rewrite decide_False. }
      intros _. eapply triple_bind with (Q' := λ _, delivering k F D name (Some f'));
        [by apply triple_persist_ignore|].
      intros _. apply Hrel.
Qed.

(** ** The delivery order *)

Lemma drain_le_lex a b : drain_le a b ↔
  (sr_valid a = false ∧ sr_valid b = true) ∨
  (sr_valid a = sr_valid b ∧ (sr_priority b < sr_priority a ∨
    (sr_priority a = sr_priority b ∧ (sr_created a < sr_created b ∨
      (sr_created a = sr_created b ∧ String.le (sr_name a) (sr_name b)))))).
Proof.
  unfold drain_le. destruct (sr_valid a), (sr_valid b); simpl; [| naive_solver..|];
    (destruct (sr_priority a =? sr_priority b) eqn:E1; zbool; simpl;
     [destruct (sr_created a =? sr_created b) eqn:E2; zbool; simpl|]);
    intuition (try lia; try done).
Qed.

#[local] Instance drain_le_total : Total drain_le.
Proof.
  intros a b. rewrite !drain_le_lex.
  destruct (total String.le (sr_name a) (sr_name b)); destruct (sr_valid a), (sr_valid b);
    destruct (Z.lt_trichotomy (sr_priority a) (sr_priority b)) as [?|[?|?]];
    destruct (Z.lt_trichotomy (sr_created a) (sr_created b)) as [?|[?|?]]; intuition lia.
Qed.

#[local] Instance drain_le_trans : Transitive drain_le.
Proof.
  intros a b c. rewrite !drain_le_lex. intros Hab Hbc.
  destruct Hab as [[? ?]|[? [?|[? [?|[? Hn1]]]]]], Hbc as [[? ?]|[? [?|[? [?|[? Hn2]]]]]];
    try (left; split; congruence); right; (split; [congruence|]);
    first [left; lia | right; split; [lia|]; first [left; lia | right; split; [lia|by etrans]]].
Qed.

(** A record of the snapshot is what was read from its file. *)
Definition snapshot_of (w : sworld) (r : srecord) : Prop :=
  ∃ f, sw_dir w !! sr_name r = Some f ∧ is_entry (sr_name r, f) = true ∧
    (sr_valid r = true → ∃ env, sf_content f = Some env ∧
       sr_priority r = ev_Priority env ∧ sr_created r = ev_CreatedAt env).

Lemma reads_snapshot_entries entries :
  reads (snapshot_entries entries) (λ rs w,
    map sr_name rs = map fst (filter (λ ne, is_entry ne = true) entries) ∧
    ((∀ ne, ne ∈ entries → sw_dir w !! ne.1 = Some ne.2) → ∀ r, r ∈ rs → snapshot_of w r)).
Proof.
  induction entries as [|[n f] entries IH]; cbn [snapshot_entries].
  - apply reads_ret. intros w. split; [done|]. intros _ r Hr. by apply not_elem_of_nil in Hr.
  - rewrite filter_cons. prog_if E; zbool.
    + rewrite decide_False by congruence. eapply reads_conseq; [exact IH|].
      intros rs w [H1 H2]. split; [done|]. intros Hin. apply H2. intros ne Hne. apply Hin. by right.
    + rewrite decide_True by done.
      apply reads_seq; [eapply reads_conseq; [apply reads_sys_id|done]|intros rd].
      set (item := match (if rd : bool then sf_content f else None) with Some _ => _ | None => _ end).
      eapply reads_bind; [exact IH|]. intros rest. apply reads_ret.
      assert (sr_name item = n) as Hitem by (unfold item; by repeat case_match).
      intros w [H1 H2]. simpl. split; [by rewrite Hitem, H1|].
      intros Hin r [->|Hr]%elem_of_cons.
      * exists f. rewrite Hitem. split_and!; [by apply (Hin (n, f)); left|done|].
        unfold item. destruct rd; [|done]. destruct (sf_content f) as [env|]; [|done]. by exists env.
      * apply H2; [|done]. intros ne Hne. apply Hin. by right.
Qed.

Definition entry_names (d : gmap string sfile) : list string :=
  map fst (filter (λ ne, is_entry ne = true) (map_to_list d)).

Lemma elem_of_entry_names d n : n ∈ entry_names d ↔ ∃ f, d !! n = Some f ∧ is_entry (n, f) = true.
Proof.
  unfold entry_names. rewrite list_elem_of_fmap. split.
  - intros ([m f] & -> & Hin). apply list_elem_of_filter in Hin as [He Hin].
    apply elem_of_map_to_list in Hin. by exists f.
  - intros (f & Hd & He). exists (n, f). split; [done|]. apply list_elem_of_filter.
    split; [done|]. by apply elem_of_map_to_list.
Qed.

Lemma NoDup_entry_names d : NoDup (entry_names d).
Proof.
  unfold entry_names. eapply sublist_NoDup; [apply (NoDup_fst_map_to_list d)|].
  apply (fmap_sublist fst), sublist_filter.
Qed.

Lemma reads_snapshot :
  reads snapshot (λ names w, names ≡ₚ entry_names (sw_dir w) ∧
    ∃ rs, names = map sr_name rs ∧ StronglySorted drain_le rs ∧ ∀ r, r ∈ rs → snapshot_of w r).
Proof.
  unfold snapshot. apply reads_seq; [apply reads_call|intros _].
  eapply reads_bind; [apply reads_gets|]. intros d.
  eapply reads_bind; [apply reads_snapshot_entries|]. intros rs. apply reads_ret.
  intros w [H1 H2] ->. split.
  - rewrite merge_sort_Permutation, H1. unfold entry_names, dir_list.
    by rewrite merge_sort_Permutation.
  - eexists. split; [done|]. split; [apply (StronglySorted_merge_sort _)|].
    intros r Hr. rewrite merge_sort_Permutation in Hr. apply H2; [|done]. apply dir_list_spec.
Qed.

(** ** The drain loop *)

Definition drain_post (k : Z) (F : gset string) (D : string → option sfile)
    (r : Z * option serror) (w : sworld) : Prop :=
  match r with
  | (n, None) => pinv (k + n) F D w
  | (n, Some e) => drain_error (k + n) F D e w
  end.

Lemma drain_loop_triple k F D limit : ∀ ctx names n,
  (∀ name, name ∈ names → name ∉ F ∧ HasSuffix name fileSuffix = true) →
  triple (pinv (k + n) F D) (drain_loop tmp_token marshal_env opts deliver limit ctx names n)
    (λ r w, drain_post k F D r w ∧ n <= r.1 <= n + Z.of_nat limit) (λ _ _, False) (λ _, True).
Proof using All.
  induction limit as [|limit IH]; intros ctx names n Hnames; cbn [drain_loop].
  { apply triple_ret. intros w Hw. simpl. split; [done|lia]. }
  destruct names as [|name names].
  { apply triple_ret. intros w Hw. simpl. split; [done|lia]. }
  prog_if E.
  { apply triple_ret. intros w Hw. simpl. split; [|lia]. right. exists F. split; [done|]. by exists D. }
  destruct (Hnames name ltac:(by left)) as [HnF Hsuf].
  eapply triple_bind; [eapply triple_try|].
  { eapply triple_conseq; [by apply (drain_one_triple (k + n) F D name)|done|..|done].
    - intros m w H. exact (H : (λ r w, match r with
        | inr m => pinv (k + n + m) F D w ∧ 0 <= m <= 1
        | inl e => drain_error (k + n) F D e w end) (inr m) w).
    - intros e w H. exact H. }
  intros [e|m]; simpl.
  - apply triple_ret. intros w Hw. simpl. split; [done|lia].
  - apply triple_pure_r. intros Hm.
    eapply triple_conseq; [apply (IH (tl ctx) names (n + m))|..]; [set_solver|..].
    + intros w H. by rewrite Z.add_assoc.
    + simpl. intros r w [H ?]. split; [done|lia].
    + done.
    + done.
Qed.

Lemma Drain_triple k D limit ctx :
  triple (pinv k ∅ D) (Drain tmp_token marshal_env opts deliver limit ctx)
    (λ r w, drain_post k ∅ D r w ∧ 0 <= r.1 <= (if limit <=? 0 then 64 else limit))
    (λ _ _, False) (λ _, True).
Proof using All.
  unfold Drain. eapply triple_bind with (Q' := λ r w, pinv k ∅ D w ∧
    match r with inr names => names ≡ₚ entry_names (sw_dir w) | inl _ => True end).
  { eapply triple_try, triple_conseq;
      [apply (triple_reads _ _ (pinv k ∅ D) reads_snapshot)|done| |done|done].
    by intros names w [Hp [? _]]. }
  intros [e|names].
  - apply triple_ret. intros w [Hw _]. simpl. rewrite Z.add_0_r.
    split; [right; exists ∅; split; [done|]; by exists D|]. case_match; zbool; lia.
  - apply triple_start. intros w0 [Hw0 Hnames].
    eapply triple_conseq; [apply (drain_loop_triple k ∅ D _ ctx names 0)|..].
    + intros name Hin. split; [set_solver|]. rewrite Hnames in Hin.
      apply elem_of_entry_names in Hin as (f & _ & He). by apply andb_true_iff in He as [_ He].
    + intros w ->. by rewrite Z.add_0_r.
    + intros r w [H ?]. split; [done|]. case_match; zbool; lia.
    + done.
    + done.
Qed.

(** ** Retention without faults *)

(** The record a retention pass makes of a readable file. *)
Definition record_of (ne : string * sfile) : rrecord := {|
  rr_name := ne.1;
  rr_size := sf_size ne.2;
  rr_created := match sf_content ne.2 with
    | Some env => if is_zero_time (ev_CreatedAt env) then sf_mtime ne.2 else ev_CreatedAt env
    | None => sf_mtime ne.2 end;
  rr_priority := match sf_content ne.2 with Some env => ev_Priority env | None => 0 end;
|}.

Lemma collect_quiet l t w : collect l (quiet t) w =
  (Ok (map record_of (filter (λ ne, is_entry ne = true) l)), quiet t, w).
Proof.
  induction l as [|[n f] l IH]; [done|]. cbn [collect]. rewrite filter_cons.
  destruct (is_entry (n, f)) eqn:E; simpl.
  - unfold bindM, sys. simpl. unfold record_of at 1. simpl. destruct (sf_content f) as [env|]; simpl; by rewrite IH.
  - exact IH.
Qed.

(** [rs] are the records of all the entries of the directory. *)
Definition tracks (rs : list rrecord) (d : gmap string sfile) : Prop :=
  NoDup (map rr_name rs) ∧
  ∀ r, r ∈ rs ↔ ∃ n f, d !! n = Some f ∧ is_entry (n, f) = true ∧ r = record_of (n, f).

Lemma tracks_perm rs rs' d : rs ≡ₚ rs' → tracks rs d → tracks rs' d.
Proof. intros Hp [H1 H2]. split; [by rewrite <-Hp|]. intros r. by rewrite <-Hp. Qed.

Lemma tracks_collect d : tracks (map record_of (filter (λ ne, is_entry ne = true) (dir_list d))) d.
Proof.
  assert (Hp : filter (λ ne, is_entry ne = true) (dir_list d) ≡ₚ
    filter (λ ne, is_entry ne = true) (map_to_list d)).
  { unfold dir_list. by rewrite merge_sort_Permutation. }
  split.
  - rewrite Hp, map_map. apply NoDup_entry_names.
  - intros r. rewrite Hp, list_elem_of_fmap. split.
    + intros ([n f] & -> & Hin). apply list_elem_of_filter in Hin as [He Hin].
      apply elem_of_map_to_list in Hin. by exists n, f.
    + intros (n & f & Hd & He & ->). exists (n, f). split; [done|].
      apply list_elem_of_filter. split; [done|]. by apply elem_of_map_to_list.
Qed.

Lemma tracks_count rs d : tracks rs d → entries_count d = Z.of_nat (length rs).
Proof.
  intros [Hnd Hin].
  assert (rs ≡ₚ map record_of (filter (λ ne, is_entry ne = true) (map_to_list d))) as Hp.
  { apply NoDup_Permutation.
    - by apply NoDup_fmap_1 in Hnd.
    - apply (NoDup_fmap_1 rr_name). rewrite map_map. apply NoDup_entry_names.
    - intros r. rewrite Hin, list_elem_of_fmap. split.
      + intros (n & f & Hd & He & ->). exists (n, f). split; [done|].
        apply list_elem_of_filter. split; [done|]. by apply elem_of_map_to_list.
      + intros ([n f] & -> & H). apply list_elem_of_filter in H as [He H].
        apply elem_of_map_to_list in H. by exists n, f. }
  rewrite Hp, length_map. unfold entries_count, map_sum.
  clear. induction (map_to_list d) as [|[n f] l IH]; [done|]. rewrite filter_cons.
  destruct (is_entry (n, f)) eqn:E.
  - rewrite decide_True by done. simpl in *. rewrite E, IH. lia.
  - rewrite decide_False by done. simpl in *. rewrite E, IH. lia.
Qed.

Lemma tracks_remove r rs d : tracks (r :: rs) d → tracks rs (delete (rr_name r) d).
Proof.
  intros [Hnd Hin]. inversion Hnd as [|? ? Hn Hnd']; subst. split; [done|]. intros x. split.
  - intros Hx. destruct (proj1 (Hin x) ltac:(by right)) as (n & f & Hd & He & ->).
    exists n, f. split_and!; [|done|done]. rewrite lookup_delete_ne; [done|].
    intros Heq. apply Hn. rewrite Heq. by apply (list_elem_of_fmap_2 rr_name) in Hx.
  - intros (n & f & Hd & He & ->). apply lookup_delete_Some in Hd as [Hne Hd].
    assert (record_of (n, f) ∈ r :: rs) as Hx by (apply Hin; by exists n, f).
    apply elem_of_cons in Hx as [Hx|Hx]; [|done]. by rewrite <-Hx in Hne.
Qed.

Lemma tracks_present rs w : tracks rs (sw_dir w) → present rs w.
Proof.
  intros [Hnd Hin]. split; [done|]. intros r Hr. apply Hin in Hr as (n & f & Hd & He & ->).
  by exists f.
Qed.

(** One removal. *)
Definition removed (r : rrecord) (re : reason) (w : sworld) : sworld :=
  set_count (recordRemovalLocked (rr_size r) re) (set_dir (delete (rr_name r)) w).

Lemma remove_entry_quiet r re t w :
  remove_entry (rr_name r) (rr_size r) re (quiet t) w = (Ok true, quiet t, removed r re w).
Proof. done. Qed.

Definition expired_rec (cutoff : time) (F : gset string) (r : rrecord) : bool :=
  bool_decide (rr_name r ∉ F) && (0 <? o_MaxAge opts) && (rr_created r <? cutoff).

(** Removals only shrink the directory, one file each. *)
Definition after_removals (rs : list rrecord) (d : gmap string sfile) : gmap string sfile :=
  foldr (λ r d, delete (rr_name r) d) d rs.

Lemma expire_quiet N F D cutoff t rs : ∀ ex w,
  rinv N F D w → tracks (rs ++ ex) (sw_dir w) →
  let kept := List.filter (λ r, negb (expired_rec cutoff F r)) rs in
  ∃ w', expire opts cutoff rs (quiet t) w = (Ok kept, quiet t, w') ∧
    rinv N F D w' ∧ tracks (kept ++ ex) (sw_dir w').
Proof.
  induction rs as [|r rs IH]; intros ex w Hr Ht; cbn [expire List.filter].
  { exists w. by split_and!. }
  unfold bindM at 1, gets. pose proof Hr as (_ & _ & HF & _). rewrite HF.
  assert (Hkeep : expired_rec cutoff F r = false → ∃ w',
    (kept <- expire opts cutoff rs;; retM (r :: kept)) (quiet t) w =
      (Ok (r :: List.filter (λ r, negb (expired_rec cutoff F r)) rs), quiet t, w') ∧
    rinv N F D w' ∧
    tracks ((r :: List.filter (λ r, negb (expired_rec cutoff F r)) rs) ++ ex) (sw_dir w')).
  { intros Hne. destruct (IH (r :: ex) w Hr) as (w' & Hrun & Hr' & Ht').
    { eapply tracks_perm; [|exact Ht]. simpl. by rewrite Permutation_middle. }
    exists w'. split_and!; [|done|].
    - by rewrite (bindM_Ok _ _ _ _ _ _ _ Hrun).
    - eapply tracks_perm; [|exact Ht']. simpl. by rewrite Permutation_middle. }
  destruct (expired_rec cutoff F r) eqn:Hexp; simpl.
  - unfold expired_rec in Hexp. zbool. case_decide; [done|].
    replace ((0 <? o_MaxAge opts) && (rr_created r <? cutoff)) with true
      by (symmetry; apply andb_true_iff; split; by apply Z.ltb_lt).
    rewrite (bindM_Ok _ _ _ _ _ _ _ (remove_entry_quiet r RExpired t w)).
    apply IH.
    + apply rinv_remove; [by left|done|done|].
      apply (tracks_present _ _ Ht). by left.
    + by apply tracks_remove.
  - unfold expired_rec in Hexp. case_decide as Hin; [by apply Hkeep|].
    rewrite bool_decide_eq_true_2 in Hexp by done. simpl in Hexp. rewrite Hexp. by apply Hkeep.
Qed.

Lemma evict_quiet N F D t rs : ∀ ex w remaining,
  rinv N F D w → tracks (rs ++ ex) (sw_dir w) → remaining = entries_count (sw_dir w) →
  (∀ r, r ∈ ex → rr_name r ∈ F) → StronglySorted evict_le rs →
  ∃ w', evict_loop opts remaining rs (quiet t) w = (Ok tt, quiet t, w') ∧ rinv N F D w' ∧
    ∃ gone stay, rs ≡ₚ gone ++ stay ∧ tracks (stay ++ ex) (sw_dir w') ∧
      (∀ r, r ∈ gone → rr_name r ∉ F) ∧
      (∀ r s, r ∈ gone → s ∈ stay → rr_name s ∉ F → evict_le r s) ∧
      ((entries_bytes (sw_dir w') <= o_MaxBytes opts ∧ entries_count (sw_dir w') <= o_MaxItems opts)
       ∨ ∀ r, r ∈ stay → rr_name r ∈ F).
Proof.
  clear SpoolClient0 deliver marshal_nonneg marshal_env.
  induction rs as [|r rs IH]; intros ex w remaining Hr Ht -> Hex Hs; cbn [evict_loop].
  { exists w. split_and!; [done..|]. exists [], []. split_and!; try done; [set_solver..|].
    right. set_solver. }
  pose proof Hr as (Hsinv & _ & HF & _).
  unfold bindM at 1, gets, read_count. rewrite (si_bytes _ Hsinv).
  destruct (_ && _) eqn:Hok.
  { exists w. zbool. split_and!; [done..|]. exists [], (r :: rs). split_and!; try done; [set_solver..|].
    by left. }
  unfold bindM at 1, gets. rewrite HF. clear HF. inversion Hs as [|? ? Hs' Hall]; subst.
  rewrite Forall_forall in Hall. case_decide as Hin.
  - destruct (IH (r :: ex) w (entries_count (sw_dir w)) Hr) as (w' & Hrun & Hr' & gone & stay & Hp & Ht' & Hg & Hord & Hb);
      [|done| |done|].
    { eapply tracks_perm; [|exact Ht]. simpl. by rewrite Permutation_middle. }
    { intros x [->|Hx]%elem_of_cons; auto. }
    exists w'. split_and!; [done..|]. exists gone, (r :: stay). split_and!; [| |done| |].
    + by rewrite Hp, Permutation_middle.
    + eapply tracks_perm; [|exact Ht']. simpl. by rewrite Permutation_middle.
    + intros x y Hx [->|Hy]%elem_of_cons HyF; [done|auto].
    + destruct Hb as [Hb|Hb]; [by left|right]. intros x [->|Hx]%elem_of_cons; auto.
  - rewrite (bindM_Ok _ _ _ _ _ _ _ (remove_entry_quiet r RCapacity t w)).
    assert (Hr1 : rinv N F D (removed r RCapacity w)).
    { apply rinv_remove; [by right|done|done|]. apply (tracks_present _ _ Ht). by left. }
    assert (Ht1 : tracks (rs ++ ex) (sw_dir (removed r RCapacity w))) by by apply tracks_remove.
    destruct (IH ex _ (entries_count (sw_dir w) - 1) Hr1 Ht1)
      as (w' & Hrun & Hr' & gone & stay & Hp & Ht' & Hg & Hord & Hb); [|done|done|].
    { rewrite (tracks_count _ _ Ht1), (tracks_count _ _ Ht). simpl. lia. }
    exists w'. split_and!; [done..|]. exists (r :: gone), stay. split_and!; [by rewrite Hp|done| | |done].
    + intros x [->|Hx]%elem_of_cons; auto.
    + intros x y [->|Hx]%elem_of_cons Hy HyF; [|auto]. apply Hall. rewrite Hp.
      apply elem_of_app. by right.
Qed.

#[local] Instance evict_le_total : Total evict_le.
Proof.
  intros a b. unfold evict_le. destruct (total String.le (rr_name a) (rr_name b));
    destruct (Z.lt_trichotomy (rr_priority a) (rr_priority b)) as [?|[?|?]]; tauto || intuition lia.
Qed.
#[local] Instance evict_le_trans : Transitive evict_le.
Proof.
  intros a b c. unfold evict_le. intros [H1|[H1 H2]] [H3|[H3 H4]]; [left; lia..|].
  right. split; [lia|by etrans].
Qed.

(** The whole pass without faults. *)
Lemma enforceRetention_quiet N F D t w :
  rinv N F D w →
  ∃ w', enforceRetentionLocked opts (quiet t) w = (Ok tt, quiet t, w') ∧ rinv N F D w' ∧
    ∃ rs kept gone stay,
      tracks rs (sw_dir w) ∧
      kept ≡ₚ List.filter (λ r, negb (expired_rec (t - o_MaxAge opts) F r)) rs ∧
      kept ≡ₚ gone ++ stay ∧ tracks stay (sw_dir w') ∧
      (∀ r, r ∈ gone → rr_name r ∉ F) ∧
      (∀ r s, r ∈ gone → s ∈ stay → rr_name s ∉ F → evict_le r s) ∧
      ((entries_bytes (sw_dir w') <= o_MaxBytes opts ∧ entries_count (sw_dir w') <= o_MaxItems opts)
       ∨ ∀ r, r ∈ stay → rr_name r ∈ F).
Proof.
  intros Hr. set (rs0 := map record_of (filter (λ ne, is_entry ne = true) (dir_list (sw_dir w)))).
  set (rs := merge_sort (λ a b, String.le (rr_name a) (rr_name b)) rs0).
  assert (Ht : tracks rs (sw_dir w)).
  { eapply tracks_perm; [symmetry; apply merge_sort_Permutation|apply tracks_collect]. }
  destruct (expire_quiet N F D (t - o_MaxAge opts) t rs [] w Hr) as (w1 & Hrun1 & Hr1 & Ht1).
  { by rewrite app_nil_r. }
  set (kept := List.filter (λ r, negb (expired_rec (t - o_MaxAge opts) F r)) rs) in *.
  rewrite app_nil_r in Ht1.
  assert (Ht1' : tracks (merge_sort evict_le kept ++ []) (sw_dir w1)).
  { rewrite app_nil_r. eapply tracks_perm; [symmetry; apply merge_sort_Permutation|done]. }
  destruct (evict_quiet N F D t (merge_sort evict_le kept) [] w1 (entries_count (sw_dir w1)) Hr1 Ht1'
    eq_refl) as (w2 & Hrun2 & Hr2 & gone & stay & Hp & Ht2 & Hg & Hord & Hb);
    [by intros x Hx%not_elem_of_nil|apply (StronglySorted_merge_sort _)|].
  exists (set_count clamp_counts w2). split; [|split; [by apply sinv_clamp|]].
  - unfold enforceRetentionLocked. rewrite (bindM_Ok _ _ _ _ _ _ _ (sys_quiet id t w)). cbn [negb].
    rewrite (bindM_Ok _ _ _ _ _ _ _ (gets_run sw_dir (quiet t) w)),
      (bindM_Ok _ _ _ _ _ _ _ (collect_quiet _ t w)),
      (bindM_Ok _ _ _ _ _ _ _ (now_quiet t w)), (bindM_Ok _ _ _ _ _ _ _ Hrun1).
    assert (Hlen : Z.of_nat (length (merge_sort evict_le kept)) = entries_count (sw_dir w1)).
    { rewrite (tracks_count _ _ Ht1), merge_sort_Permutation. done. }
    rewrite Hlen, (bindM_Ok _ _ _ _ _ _ _ Hrun2). done.
  - exists rs, (merge_sort evict_le kept), gone, stay. rewrite app_nil_r in Ht2.
    split_and!; try done. apply merge_sort_Permutation.
Qed.

Lemma enforce_quiet N F D t w : rinv N F D w →
  ∃ w', enforceRetentionLocked opts (quiet t) w = (Ok tt, quiet t, w') ∧ rinv N F D w'.
Proof. intros Hr. destruct (enforceRetention_quiet N F D t w Hr) as (w' & ? & ? & _). eauto. Qed.

(** ** Properties *)

(** C9: the retention pass enforces the budget.  Without faults, on a spool
    whose counters are exact, it removes only files of the queue that are not in
    delivery; afterwards no such file is older than the maximal age, and the
    queue fits in [MaxBytes] and [MaxItems] unless everything left is in
    delivery; what it evicts for capacity is never preferred over what it keeps
    (lowest priority first, then oldest name), and the counters are exact
    again. *)
Theorem enforceRetention_bounds N F D t w :
  rinv N F D w →
  ∃ w', enforceRetentionLocked opts (quiet t) w = (Ok tt, quiet t, w') ∧ rinv N F D w' ∧
    ∃ rs kept gone stay,
      tracks rs (sw_dir w) ∧
      kept ≡ₚ List.filter (λ r, negb (expired_rec (t - o_MaxAge opts) F r)) rs ∧
      kept ≡ₚ gone ++ stay ∧ tracks stay (sw_dir w') ∧
      (∀ r, r ∈ gone → rr_name r ∉ F) ∧
      (∀ r s, r ∈ gone → s ∈ stay → rr_name s ∉ F → evict_le r s) ∧
      ((entries_bytes (sw_dir w') <= o_MaxBytes opts ∧ entries_count (sw_dir w') <= o_MaxItems opts)
       ∨ ∀ r, r ∈ stay → rr_name r ∈ F).
Proof. apply enforceRetention_quiet. Qed.

(** C10: enqueueing is exact.  On a spool whose counters agree with its
    directory, under any faults: a successful enqueue leaves the envelope, with
    the trimmed kind and the given priority and payload, in the queue and
    counts it; an envelope refused by the retention budget or an early error
    leaves the counters exact; only a failed write may leave an entry the
    counters do not know; and the entries in delivery are untouched in every
    case. *)
Theorem EnqueuePriority_exact N F D ident kind priority payload v w :
  rinv N F D w → fresh_ids w →
  match EnqueuePriority filenameID tmp_token marshal_env opts ident kind priority payload v w with
  | (Ok r, _, w') => enqueue_post N F D kind priority payload r w'
  | (Err e, _, w') => enqueue_error N F D e w'
  | (Crashed, _, _) => True
  end.
Proof using drift marshal_nonneg.
  intros Hr Hf.
  pose proof (EnqueuePriority_triple N F D ident kind priority payload v w (conj Hr Hf)) as H.
  destruct (EnqueuePriority _ _ _ _ _ _ _ _ v w) as [[[r|e|] v'] w']; exact H.
Qed.


(** The queue is drained in order: whatever reads fail, a snapshot names
    every entry of the queue exactly once, those that cannot be decoded first
    (they are discarded), then by falling priority, age and name as stored. *)
Theorem snapshot_order v w names v' w' :
  snapshot v w = (Ok names, v', w') →
  w' = w ∧ names ≡ₚ entry_names (sw_dir w) ∧ NoDup names ∧
  ∃ rs, names = map sr_name rs ∧ StronglySorted drain_le rs ∧ ∀ r, r ∈ rs → snapshot_of w r.
Proof.
  intros Hrun. pose proof (reads_snapshot w v w eq_refl) as H. rewrite Hrun in H.
  destruct H as (-> & Hp & Hrs). split_and!; [done|done| |done].
  rewrite Hp. apply NoDup_entry_names.
Qed.

(** ** Runs without faults *)

Lemma writeAtomic_quiet path mtime act t w :
  writeAtomic tmp_token path mtime act (quiet t) w =
  (Ok tt, quiet t, act (set_dir (delete (tmp_name tmp_token path))
     (set_dir (insert (tmp_name tmp_token path) (Build_sfile false 0 mtime None)) w))).
Proof. done. Qed.

(** A failed delivery loses nothing and stops the drain.  Without faults,
    when the first entry of the queue cannot be delivered for now, [Drain]
    returns that error without touching the entries behind it; the entry stays
    in the queue under its name with one more attempt and is no longer marked
    as in delivery. *)
Theorem Drain_retry_keeps_entry limit t w name rest f env len :
  snapshot (quiet t) w = (Ok (name :: rest), quiet t, w) →
  sw_dir w !! name = Some f → sf_dir f = false → sf_content f = Some env →
  (0 <? o_MaxAge opts) && (o_MaxAge opts <? time_sub t (ev_CreatedAt env)) = false →
  (∀ w, deliver env (quiet t) w = (Ok RetryableFailure, quiet t, w)) →
  let env' := Build_Envelope (ev_ID env) (ev_Kind env) (ev_Priority env) (ev_CreatedAt env)
                (ev_Attempts env + 1) (ev_Payload env) in
  marshal_env env' = Some len →
  ∃ w', Drain tmp_token marshal_env opts deliver limit [] (quiet t) w =
      (Ok (0, Some ErrDelivery), quiet t, w') ∧
    (∀ n, HasSuffix n fileSuffix = true →
       sw_dir w' !! n = <[name := entry_file env' len t]> (sw_dir w) !! n) ∧
    st_RetryTotal (sw_count w') = st_RetryTotal (sw_count w) + 1 ∧ name ∉ sw_inflight w'.
Proof.
  clear SpoolClient0 marshal_nonneg filenameID drift.
  intros Hsnap Hf Hdir Henv Hage Hdel env' Hlen.
  set (w1 := set_inflight (λ i, {[name]} ∪ i) w).
  set (w2 := set_dir (insert name (entry_file env' len t)) (set_dir (delete (tmp_name tmp_token name))
    (set_dir (insert (tmp_name tmp_token name) (Build_sfile false 0 t None)) w1))).
  set (w3 := set_count (on_retry (len - sf_size f)) w2).
  assert (Hone : ∃ w4, drain_one tmp_token marshal_env opts deliver name (quiet t) w =
    (Err ErrDelivery, quiet t, set_inflight (λ i, i ∖ {[name]}) w4) ∧
    sw_count w4 = sw_count w3 ∧ (∀ n, HasSuffix n fileSuffix = true → sw_dir w4 !! n = sw_dir w3 !! n)).
  { unfold drain_one. rewrite (bindM_Ok _ _ _ _ _ _ _ (modify_run _ (quiet t) w)). fold w1.
    rewrite (bindM_Ok _ _ _ _ _ _ _ (sys_quiet id t w1)). unfold id.
    rewrite (bindM_Ok _ _ _ _ _ _ _ (gets_run sw_dir (quiet t) w1)). cbn [negb].
    replace (sw_dir w1 !! name) with (Some f) by (symmetry; exact Hf). rewrite Hdir, Henv.
    rewrite (bindM_Ok _ _ _ _ _ _ _ (now_quiet t w1)), Hage.
    rewrite (bindM_Ok _ _ _ _ _ _ _ (Hdel w1)). fold env'. rewrite Hlen.
    rewrite (bindM_Ok _ _ _ _ _ _ _ (now_quiet t w1)).
    eexists (SW _ _ _ _ _ _). split; [reflexivity|]. split; [done|].
    intros n Hn. change (delete (tmp_name tmp_token ".spool-stats.json")
      (insert (tmp_name tmp_token ".spool-stats.json") (Build_sfile false 0 t None) (sw_dir w3)) !! n
      = sw_dir w3 !! n).
    assert (tmp_name tmp_token ".spool-stats.json" ≠ n).
    { intros Heq. pose proof (tmp_name_not_entry tmp_token ".spool-stats.json") as H.
      rewrite Heq in H. congruence. }
    by rewrite lookup_delete_ne, lookup_insert_ne. }
  destruct Hone as (w4 & Hone & Hc & Hd).
  exists (set_inflight (λ i, i ∖ {[name]}) w4). split_and!.
  - unfold Drain. unfold bindM at 1, try at 1. rewrite Hsnap.
    destruct (Z.to_nat (if limit <=? 0 then 64 else limit)) as [|k] eqn:Hk.
    { case_match; zbool; lia. }
    cbn [drain_loop hd]. unfold bindM at 1, try at 1. by rewrite Hone.
  - intros n Hn. simpl. rewrite (Hd n Hn). simpl.
    destruct (decide (n = name)) as [->|Hne]; [by rewrite !lookup_insert_eq|].
    rewrite !(lookup_insert_ne _ name) by done.
    assert (tmp_name tmp_token name ≠ n).
    { intros Heq. pose proof (tmp_name_not_entry tmp_token name) as H. rewrite Heq in H. congruence. }
    by rewrite lookup_delete_ne, lookup_insert_ne.
  - simpl. by rewrite Hc.
  - simpl. set_solver.
Qed.

End effects.

End accounting.

(** ** Opening the spool *)

Lemma temp_file_not_entry n : HasSuffix n tempSuffix = true → HasSuffix n fileSuffix = false.
Proof.
  unfold HasSuffix. intros H. apply bool_decide_eq_true in H.
  apply bool_decide_eq_false. intros H'.
  apply (f_equal head) in H. apply (f_equal head) in H'.
  destruct (reverse (to_chars n)) as [|a l]; [discriminate|].
  cbn in H, H'. rewrite <-H in H'. discriminate.
Qed.

Lemma entries_delete_other d n : HasSuffix n fileSuffix = false →
  entries_count (delete n d) = entries_count d ∧ entries_bytes (delete n d) = entries_bytes d.
Proof.
  intros Hn. unfold entries_count, entries_bytes. rewrite !map_sum_delete.
  rewrite (at_key_not_entry d n (λ _, 1) Hn), (at_key_not_entry d n sf_size Hn). lia.
Qed.

Lemma rescan_quiet t l : ∀ p tot w, ∃ d',
  rescan_entries l p tot (quiet t) w =
    (Ok (p + sumZ (λ ne, if is_entry ne then 1 else 0) l,
         tot + sumZ (λ ne, if is_entry ne then sf_size ne.2 else 0) l), quiet t, set_dir (λ _, d') w) ∧
  d' ⊆ sw_dir w ∧ entries_count d' = entries_count (sw_dir w) ∧
  entries_bytes d' = entries_bytes (sw_dir w).
Proof.
  induction l as [|[n f] l IH]; intros p tot w; cbn [rescan_entries sumZ foldr].
  { exists (sw_dir w). split_and!; try done. rewrite !Z.add_0_r. by destruct w. }
  change (foldr (λ x acc, (if is_entry x then 1 else 0) + acc) 0 l)
    with (sumZ (λ ne, if is_entry ne then 1 else 0) l).
  change (foldr (λ x acc, (if is_entry x then sf_size x.2 else 0) + acc) 0 l)
    with (sumZ (λ ne, if is_entry ne then sf_size ne.2 else 0) l).
  unfold is_entry at 1 3. cbn [fst snd].
  destruct (sf_dir f) eqn:Hdir; cbn [negb andb].
  { destruct (IH p tot w) as (d' & -> & H). exists d'. by rewrite !Z.add_0_l. }
  destruct (HasSuffix n tempSuffix) eqn:Htmp.
  { rewrite (temp_file_not_entry _ Htmp), (bindM_Ok _ _ _ _ _ _ _ (sys_quiet _ t w)).
    destruct (IH p tot (set_dir (delete n) w)) as (d' & -> & Hsub & Hc & Hb).
    destruct (entries_delete_other (sw_dir w) n (temp_file_not_entry _ Htmp)) as [H1 H2].
    exists d'. rewrite !Z.add_0_l. split_and!; [done| |by rewrite Hc|by rewrite Hb].
    etrans; [exact Hsub|]. apply delete_subseteq. }
  destruct (HasSuffix n fileSuffix) eqn:Hsuf; cbn [negb].
  - rewrite (bindM_Ok _ _ _ _ _ _ _ (sys_quiet id t w)). cbn [negb]. unfold id.
    destruct (IH (p + 1) (tot + sf_size f) w) as (d' & -> & H). exists d'.
    by rewrite !Z.add_assoc.
  - destruct (IH p tot w) as (d' & -> & H). exists d'. by rewrite !Z.add_0_l.
Qed.

(** Opening the spool without faults makes the counters exact, whatever was on
    disk: temporary files are swept and the retention budget is enforced. *)
Lemma New_quiet tok o t w : sizes_ok (sw_dir w) →
  ∃ opts w' drift N, New tok o (quiet t) w = (Ok opts, quiet t, w') ∧
    rinv drift N ∅ (λ _, None) w' ∧
    0 < o_MaxBytes opts ∧ 0 < o_MaxAge opts ∧ 0 < o_MaxItems opts.
Proof.
  intros Hs. unfold New. set (opts := Build_Options _ _ _ _).
  do 2 rewrite (bindM_Ok _ _ _ _ _ _ _ (eq_refl : sys_or _ id (quiet t) w = (Ok tt, quiet t, w))).
  rewrite (bindM_Ok _ _ _ _ _ _ _ (modify_run _ (quiet t) w)).
  set (w1 := SW _ _ _ _ _ _).
  assert (Hload : ∃ c, loadStatsLocked (quiet t) w1 = (Ok tt, quiet t,
    SW (sw_dir w) (sw_stats w) (sw_ids w) ∅ c (sw_net w))).
  { unfold loadStatsLocked. rewrite (bindM_Ok _ _ _ _ _ _ _ (sys_quiet id t w1)).
    rewrite (bindM_Ok _ _ _ _ _ _ _ (gets_run sw_stats (quiet t) w1)).
    cbn [sw_stats w1]. destruct (sw_stats w) as [[ver st]|]; [|by eexists].
    destruct (negb _); by eexists. }
  destruct Hload as [c Hload]. rewrite (bindM_Ok _ _ _ _ _ _ _ Hload).
  set (w2 := SW _ _ _ _ _ _).
  destruct (rescan_quiet t (dir_list (sw_dir w2)) 0 0 w2) as (d' & Hrs & Hsub & Hc & Hb).
  rewrite !Z.add_0_l in Hrs.
  assert (H1 : sumZ (λ ne : string * sfile, if is_entry ne then 1 else 0) (dir_list (sw_dir w2))
    = entries_count d').
  { rewrite Hc. unfold dir_list. rewrite merge_sort_Permutation. unfold entries_count, map_sum.
    apply sumZ_ext. by intros [n f] _. }
  assert (H2 : sumZ (λ ne : string * sfile, if is_entry ne then sf_size ne.2 else 0)
    (dir_list (sw_dir w2)) = entries_bytes d').
  { rewrite Hb. unfold dir_list. rewrite merge_sort_Permutation. unfold entries_bytes, map_sum.
    apply sumZ_ext. by intros [n f] _. }
  rewrite H1, H2 in Hrs.
  set (c3 := Build_Stats (entries_count d') (entries_bytes d')
    (Z.max (st_EnqueuedTotal c) (entries_count d')) (st_DeliveredTotal c) (st_DroppedTotal c)
    (st_ExpiredTotal c) (st_CapacityTotal c) (st_CorruptTotal c) (st_PermanentTotal c)
    (st_RetryTotal c) (st_EnqueueErrorsTotal c)).
  set (w3 := SW d' (sw_stats w) (sw_ids w) ∅ c3 (sw_net w)).
  set (drift := (st_EnqueuedTotal c3 - (st_DeliveredTotal c3 + st_DroppedTotal c3 + st_Pending c3),
    st_DroppedTotal c3 - (st_ExpiredTotal c3 + st_CapacityTotal c3 + st_CorruptTotal c3 + st_PermanentTotal c3))).
  assert (Hr3 : rinv drift (totals c3) ∅ (λ _, None) w3).
  { split_and!; [|done|done|set_solver]. split; simpl; [|done|done|lia|lia].
    intros n f Hf. eapply Hs, lookup_weaken; eauto. }
  destruct (enforce_quiet drift opts (totals c3) ∅ (λ _, None) t w3 Hr3) as (w4 & Hen & Hr4).
  assert (Hper : ∃ w5, ignore (persistStatsLocked tok) (quiet t) w4 = (Ok tt, quiet t, w5) ∧
    rinv drift (totals c3) ∅ (λ _, None) w5).
  { eexists. split; [reflexivity|]. destruct Hr4 as (Hs4 & HN4 & HF4 & HD4).
    split_and!; [|done|done|set_solver].
    apply (sinv_stats drift _ (Some (statsVersion, sw_count w4))
      (proj2 (sinv_other drift _ _ (tmp_name_not_entry tok _) (proj1 (sinv_other drift _ _
      (tmp_name_not_entry tok _) Hs4) (Build_sfile false 0 t None) (Z.le_refl 0))))). }
  destruct Hper as (w5 & Hper & Hr5).
  exists opts, w5, drift, (totals c3). split_and!; [|apply Hr5..| | |].
  - assert (Hre : rescanLocked tok opts (quiet t) w2 = (Ok tt, quiet t, w5)).
    { unfold rescanLocked. rewrite (bindM_Ok _ _ _ _ _ _ _ (sys_quiet id t w2)). cbn [negb]. unfold id.
      rewrite (bindM_Ok _ _ _ _ _ _ _ (gets_run sw_dir (quiet t) w2)).
      rewrite (bindM_Ok _ _ _ _ _ _ _ Hrs).
      rewrite (bindM_Ok _ _ _ _ _ _ _ (modify_run _ (quiet t) (set_dir (λ _, d') w2))).
      change (set_count _ (set_dir (λ _, d') w2)) with w3.
      by rewrite (bindM_Ok _ _ _ _ _ _ _ Hen). }
    by rewrite (bindM_Ok _ _ _ _ _ _ _ Hre).
  - simpl. case_match; zbool; lia.
  - simpl. unfold hour, minute, second. case_match; zbool; lia.
  - simpl. case_match; zbool; lia.
Qed.

(** ** A write that fails late

    [writeAtomic] reports a failure to sync the directory although the rename
    took effect: the envelope is in the queue, and will be delivered, while
    [EnqueuePriority] returns an error and does not count it. *)

Definition plain_name (s : string) : string := s.
Definition plain_token (s : string) : string := "t".
Definition env_len (e : Envelope) : option Z := Some (100 + strlen (ev_Payload e)).
Definition small_spool : Options := Build_Options "/spool" 250 hour 2.

Definition empty_spool (ids : list string) : sworld := SW ∅ None ids ∅ zero_stats [].

(** The calls before the directory is synced succeed, that one fails. *)
Definition sync_fails : env :=
  Env [FOk; FOk; FOk; FOk; FOk; FErr] [62135596800 * second + 7].

Lemma enqueue_error_keeps_entry :
  ∃ v' w', EnqueuePriority plain_name plain_token env_len small_spool "a" "event" 1 "data"
             sync_fails (empty_spool ["x"; "y"]) = (Err ErrWriteEntry, v', w') ∧
    st_EnqueuedTotal (sw_count w') = 0 ∧ st_Pending (sw_count w') = 0 ∧
    (∃ f env, sw_dir w' !! "00000000000000000007-a-x.spool.json" = Some f ∧
       sf_content f = Some env ∧ ev_ID env = "a") ∧
    (snapshot (quiet 0) w').1.1 = Ok ["00000000000000000007-a-x.spool.json"].
Proof.
  eexists _, _. split; [vm_compute; reflexivity|]. split; [reflexivity|]. split; [reflexivity|].
  split; [eexists _, _; split; [vm_compute; reflexivity|split; reflexivity]|].
  vm_compute. reflexivity.
Qed.

(** ** Witnesses *)

Lemma empty_spool_inv ids : rinv (0, 0) [0; 0; 0; 0; 0; 0] ∅ (λ _, None) (empty_spool ids).
Proof.
  split_and!; [|done|done|set_solver]. by split.
Qed.

(** Two entries, the second of higher priority. *)
Definition two_entries : sworld :=
  let w := (EnqueuePriority plain_name plain_token env_len small_spool "a" "event" 1 "data"
              (quiet (62135596800 * second + 7)) (empty_spool ["x"; "y"; "z"])).2 in
  (EnqueuePriority plain_name plain_token env_len small_spool "b" "event" 5 "data"
     (quiet (62135596800 * second + 9)) w).2.

Lemma env_len_nonneg e n : env_len e = Some n → 0 <= n.
Proof. unfold env_len, strlen. intros [= <-]. lia. Qed.

Lemma empty_fresh ids : (2 <= length ids)%nat → fresh_ids plain_name (empty_spool ids).
Proof. intros Hl. split; [done|]. intros tok t i _. split; [apply lookup_empty|]. simpl. set_solver. Qed.

Definition one_entry : sworld :=
  (EnqueuePriority plain_name plain_token env_len small_spool "a" "event" 1 "data"
     (quiet (62135596800 * second + 7)) (empty_spool ["x"; "y"; "z"])).2.

Lemma one_entry_inv : rinv (0, 0) [1; 0; 0; 0; 0; 0] ∅ (λ _, None) one_entry.
Proof.
  pose proof (EnqueuePriority_triple (0, 0) plain_name plain_token env_len small_spool env_len_nonneg
    [0; 0; 0; 0; 0; 0] ∅ (λ _, None) "a" "event" 1 "data" (quiet (62135596800 * second + 7))
    (empty_spool ["x"; "y"; "z"])
    (conj (empty_spool_inv _) (empty_fresh ["x"; "y"; "z"] ltac:(simpl; lia)))) as H.
  unfold one_entry.
  destruct (EnqueuePriority _ _ _ _ _ _ _ _ _ _) as [[[r|e|] v'] w'] eqn:E.
  - apply H.
  - vm_compute in E. discriminate.
  - vm_compute in E. discriminate.
Qed.

Lemma enforceRetention_bounds_witness :
  ∃ w', enforceRetentionLocked small_spool (quiet (62135596800 * second + 7 + 2 * hour)) one_entry =
      (Ok tt, quiet (62135596800 * second + 7 + 2 * hour), w') ∧
    rinv (0, 0) [1; 0; 0; 0; 0; 0] ∅ (λ _, None) w' ∧ st_ExpiredTotal (sw_count w') = 1.
Proof.
  destruct (enforceRetention_bounds (0, 0) small_spool [1; 0; 0; 0; 0; 0] ∅ (λ _, None)
    (62135596800 * second + 7 + 2 * hour) one_entry one_entry_inv) as (w' & Hrun & Hr & _).
  exists w'. split; [exact Hrun|]. split; [exact Hr|].
  apply (f_equal snd) in Hrun. simpl in Hrun. rewrite <-Hrun. vm_compute. reflexivity.
Defined.

Lemma EnqueuePriority_exact_witness :
  ∃ r v' w', EnqueuePriority plain_name plain_token env_len small_spool "a" " event " 1 "data"
      (quiet (62135596800 * second + 7)) (empty_spool ["x"; "y"]) = (Ok r, v', w') ∧
    ev_Kind r.1 = "event" ∧ st_Pending (sw_count w') = 1 ∧
    rinv (0, 0) [1; 0; 0; 0; 0; 0] ∅ (λ _, None) w'.
Proof.
  assert (∃ r v' w', EnqueuePriority plain_name plain_token env_len small_spool "a" " event " 1 "data"
      (quiet (62135596800 * second + 7)) (empty_spool ["x"; "y"]) = (Ok r, v', w') ∧
    ev_Kind r.1 = "event" ∧ st_Pending (sw_count w') = 1) as (r & v' & w' & Hrun & Hk & Hp).
  { eexists _, _, _. split; [vm_compute; reflexivity|]. split; reflexivity. }
  exists r, v', w'. split; [exact Hrun|]. split; [exact Hk|]. split; [exact Hp|].
  pose proof (EnqueuePriority_exact (0, 0) plain_name plain_token env_len small_spool env_len_nonneg
    [0; 0; 0; 0; 0; 0] ∅ (λ _, None) "a" " event " 1 "data" (quiet (62135596800 * second + 7))
    (empty_spool ["x"; "y"]) (empty_spool_inv _) (empty_fresh ["x"; "y"] (le_n 2))) as H.
  rewrite Hrun in H. exact (proj1 H).
Defined.

Lemma rinv_pinv drift a b c d e f F D w :
  rinv drift [a; b; c; d; e; f] F D w → pinv drift b F D w.
Proof. intros (Hs & HN & HF & HD). split_and!; [done| |done|done]. by injection HN. Qed.

Lemma one_entry_pinv : pinv (0, 0) 0 ∅ (λ _, None) one_entry.
Proof. exact (rinv_pinv _ _ _ _ _ _ _ _ _ _ one_entry_inv). Qed.


Lemma snapshot_order_witness :
  ∃ names, snapshot (quiet 0) two_entries = (Ok names, quiet 0, two_entries) ∧
    names = ["00000000000000000009-b-y.spool.json"; "00000000000000000007-a-x.spool.json"] ∧
    names ≡ₚ entry_names (sw_dir two_entries).
Proof.
  eexists. split; [vm_compute; reflexivity|]. split; [reflexivity|].
  apply (snapshot_order (quiet 0) two_entries _ (quiet 0) two_entries).
  vm_compute. reflexivity.
Defined.

Lemma Drain_retry_keeps_entry_witness :
  let t := 62135596800 * second + 11 in
  ∃ w', Drain plain_token env_len small_spool (λ env, retM RetryableFailure) 5 [] (quiet t) two_entries =
      (Ok (0, Some ErrDelivery), quiet t, w') ∧
    st_RetryTotal (sw_count w') = 1 ∧
    ("00000000000000000009-b-y.spool.json" : string) ∉ sw_inflight w'.
Proof.
  assert (Hf : ∃ f, sw_dir two_entries !! "00000000000000000009-b-y.spool.json" = Some f ∧
    sf_dir f = false ∧ ∃ env, sf_content f = Some env ∧ ev_CreatedAt env = 62135596800 * second + 9).
  { eexists. split; [vm_compute; reflexivity|]. split; [reflexivity|].
    eexists. split; reflexivity. }
  destruct Hf as (f & Hf & Hdir & env & Henv & Hcr).
  edestruct (Drain_retry_keeps_entry plain_token env_len small_spool (λ env, retM RetryableFailure)
    5 (62135596800 * second + 11) two_entries "00000000000000000009-b-y.spool.json"
    ["00000000000000000007-a-x.spool.json"] f env)
    as (w' & Hrun & _ & Hretry & Hin); [vm_compute; reflexivity|exact Hf|exact Hdir|exact Henv| |
      reflexivity|reflexivity|].
  { rewrite Hcr. vm_compute. reflexivity. }
  exists w'. split; [exact Hrun|]. split; [|exact Hin]. rewrite Hretry. vm_compute. reflexivity.
Defined.
