(* ===== verification/Queue.v ===== *)
(** * Queue: what the durable spool promises to the sender

    The operations the sender (internal/sender) calls on its spool, the laws it
    relies on as a class, and the proof that the spool of module Spool obeys
    them whatever system calls fail and wherever the process is killed. *)

From S2P Require Import Prelude GoStr Effects Spool.

Local Open Scope Z_scope.
Local Open Scope go_scope.

Record queue_ops := {
  q_enqueue : string → string → Z → string → SM (Envelope * string);
  q_acknowledge : string → string → SM unit;
  q_reject : string → string → SM unit;
  q_pending : sworld → Z;
  q_drain : (Envelope → SM delivery) → Z → list bool → SM (Z * option serror);
}.

Definition set_net (f : list request → list request) (w : sworld) : sworld :=
  SW (sw_dir w) (sw_stats w) (sw_ids w) (sw_inflight w) (sw_count w) (f (sw_net w)).

(** The entry [name] of the queue holds the envelope [env]. *)
Definition held (name : string) (env : Envelope) (w : sworld) : Prop :=
  ∃ f, sw_dir w !! name = Some f ∧ sf_dir f = false ∧ sf_content f = Some env.

(** Two states of one message: they differ in the number of attempts only. *)
Definition same_message (e e' : Envelope) : Prop :=
  ev_ID e = ev_ID e' ∧ ev_Kind e = ev_Kind e' ∧ ev_Priority e = ev_Priority e' ∧
  ev_CreatedAt e = ev_CreatedAt e' ∧ ev_Payload e = ev_Payload e'.

Definition stored_as (name : string) (env : Envelope) (w : sworld) : Prop :=
  ∃ e, held name e w ∧ same_message e env.

(** The message exceeds the maximal age at some instant. *)
Definition expires (opts : Options) (env : Envelope) : Prop :=
  0 < o_MaxAge opts ∧ ∃ t : time, o_MaxAge opts < time_sub t (ev_CreatedAt env).

(** Every message of [w0] is still stored in [w], too old, or settled in the
    sense of [J], which speaks of the requests made so far. *)
Definition kept_or_settled (opts : Options) (J : Envelope → list request → Prop)
    (w0 w : sworld) : Prop :=
  sw_net w0 `prefix_of` sw_net w ∧
  ∀ name env, held name env w0 → HasSuffix name fileSuffix = true →
    stored_as name env w ∨ expires opts env ∨ J env (sw_net w).

(** A verdict on a message that later requests do not change and that does not
    depend on the number of attempts. *)
Record verdict (J : Envelope → list request → Prop) : Prop := {
  verdict_mono e l l' : l `prefix_of` l' → J e l → J e l';
  verdict_same e e' l : same_message e e' → J e l → J e' l;
}.

(** A delivery function that only makes requests and reports a message as
    delivered or refused when [J] holds of it. *)
Definition settles (J : Envelope → list request → Prop) (deliver : Envelope → SM delivery) : Prop :=
  ∀ env w0, triple (λ w, w = w0) (deliver env)
    (λ r w, ∃ l, w = set_net (λ n, n ++ l) w0 ∧ (r ≠ RetryableFailure → J env (sw_net w)))
    (λ _ w, ∃ l, w = set_net (λ n, n ++ l) w0) (λ w, ∃ l, w = set_net (λ n, n ++ l) w0).

(** The interface. *)
Class QueueLaws (opts : Options) (q : queue_ops) : Prop := {
  enqueue_law ident kind priority payload l :
    triple (λ w, sw_net w = l) (q_enqueue q ident kind priority payload)
      (λ r w, sw_net w = l ∧ held r.2 r.1 w ∧ ev_Kind r.1 = TrimSpace kind ∧
        ev_Priority r.1 = priority ∧ ev_Payload r.1 = payload ∧
        (TrimSpace ident ≠ "" → ev_ID r.1 = TrimSpace ident))
      (λ _ w, sw_net w = l) (λ w, sw_net w = l);
  acknowledge_law ident receipt l :
    triple (λ w, sw_net w = l) (q_acknowledge q ident receipt)
      (λ _ w, sw_net w = l ∧ sw_dir w !! TrimSpace receipt = None)
      (λ _ w, sw_net w = l) (λ w, sw_net w = l);
  reject_law ident receipt l :
    triple (λ w, sw_net w = l) (q_reject q ident receipt)
      (λ _ w, sw_net w = l ∧ sw_dir w !! TrimSpace receipt = None)
      (λ _ w, sw_net w = l) (λ w, sw_net w = l);
  drain_law J deliver limit ctx w0 : verdict J → settles J deliver →
    triple (λ w, w = w0) (q_drain q deliver limit ctx)
      (λ _, kept_or_settled opts J w0) (λ _, kept_or_settled opts J w0)
      (kept_or_settled opts J w0);
}.

(** ** The spool obeys the laws *)

(** Predicates that removals and bookkeeping do not falsify. *)
Record removal_stable (I : sworld → Prop) : Prop := {
  rs_other : other_stable I;
  rs_stats : stats_stable I;
  rs_delete n w : I w → I (set_dir (delete n) w);
  rs_count f w : I w → I (set_count f w);
}.

(** Nothing but the named entry, or its absence. *)
Definition only (name : string) (f : sfile) (w : sworld) : Prop :=
  sw_dir w !! name = Some f ∨ sw_dir w !! name = None.

Lemma removal_stable_net l : removal_stable (λ w, sw_net w = l).
Proof. split; [|by intros ???..]. intros n w _ Hw. by split. Qed.

Lemma removal_stable_only name f : HasSuffix name fileSuffix = true → removal_stable (only name f).
Proof.
  intros Hsuf. unfold only. split; [|by intros ???| |by intros ???].
  - intros n w Hn H. assert (n ≠ name) by congruence.
    split; [intros g _|]; simpl; by rewrite ?lookup_insert_ne, ?lookup_delete_ne by done.
  - intros n w H. simpl. destruct (decide (n = name)) as [->|];
      [right; apply lookup_delete_eq|by rewrite lookup_delete_ne].
Qed.

Lemma removal_stable_and I I' : removal_stable I → removal_stable I' →
  removal_stable (λ w, I w ∧ I' w).
Proof.
  intros [H1 H2 H3 H4] [G1 G2 G3 G4]. split.
  - intros n w Hn [Hw Gw]. destruct (H1 n w Hn Hw), (G1 n w Hn Gw). split; [intros f Hf|]; auto.
  - intros w st []. auto.
  - intros n w []. auto.
  - intros f w []. auto.
Qed.

Section spool_laws.
Context (filenameID tmp_token : string → string) (marshal_env : Envelope → option Z).
Context (opts : Options).
Implicit Types I : sworld → Prop.

Lemma preserves_remove_entry I name size r : removal_stable I →
  preserves I (remove_entry name size r).
Proof.
  intros HI. unfold remove_entry. apply preserves_bind; [apply preserves_sys, (rs_delete _ HI)|].
  intros []; apply preserves_bind; try intros _; auto with effects.
  apply preserves_modify, (rs_count _ HI).
Qed.

Lemma preserves_ignore {A} I (m : SM A) : preserves I m → preserves I (ignore m).
Proof. intros Hm. unfold ignore. presv. Qed.

Lemma preserves_persist_rs I : removal_stable I → preserves I (persistStatsLocked tmp_token).
Proof. intros HI. apply preserves_persist; apply HI. Qed.
#[local] Hint Resolve preserves_remove_entry preserves_ignore preserves_persist_rs
  preserves_syncDir : effects.

(** Along the control flow, with the stability of the invariant. *)
Ltac presv_rs HI := presv;
  first [apply preserves_sys, (rs_delete _ HI) | apply preserves_modify, (rs_count _ HI)
        | apply (rs_count _ HI) | idtac].

Lemma preserves_retention I : removal_stable I → preserves I (enforceRetentionLocked opts).
Proof.
  intros HI.
  assert (H1 : ∀ l, preserves I (collect l)).
  { intros l. eapply preserves_reads, reads_collect. }
  assert (H2 : ∀ c l, preserves I (expire opts c l)).
  { intros c l. induction l as [|r l IH]; cbn [expire]; presv_rs HI. }
  assert (H3 : ∀ l n, preserves I (evict_loop opts n l)).
  { induction l as [|r l IH]; intros n; cbn [evict_loop]; presv_rs HI. }
  unfold enforceRetentionLocked. presv_rs HI.
Qed.

Lemma preserves_NewID I : (∀ w ids, I w →
    I (SW (sw_dir w) (sw_stats w) ids (sw_inflight w) (sw_count w) (sw_net w))) →
  preserves I NewID.
Proof. intros H. unfold NewID. presv. Qed.

Lemma removeEnvelope_law ident receipt r l :
  triple (λ w, sw_net w = l) (removeEnvelope tmp_token ident receipt r)
    (λ _ w, sw_net w = l ∧ sw_dir w !! TrimSpace receipt = None)
    (λ _ w, sw_net w = l) (λ w, sw_net w = l).
Proof.
  unfold removeEnvelope. prog_if E; [by apply triple_throw|]. set (name := TrimSpace receipt) in *.
  zbool. rename H into Hsuf.
  set (N w := sw_net w = l). set (gone w := N w ∧ sw_dir w !! name = None).
  eapply triple_bind with (Q' := λ _, N); [by apply triple_sys_or|]. intros _.
  eapply triple_bind with (Q' := λ _, N); [by apply triple_gets|]. intros d.
  destruct (d !! name) as [f|]; [|by apply triple_throw].
  prog_if E1; [by apply triple_throw|].
  destruct (sf_content f) as [stored|]; [|by apply triple_throw].
  prog_if E2; [by apply triple_throw|].
  assert (Hgone : other_stable gone).
  { intros n w Hn [Hw Hg]. assert (n ≠ name) by congruence.
    split; [intros g _|]; (split; [done|]); simpl;
      by rewrite ?lookup_insert_ne, ?lookup_delete_ne by done. }
  eapply triple_bind with (Q' := λ _, gone).
  { apply triple_sys_or; [|done..]. intros w Hw. split; [done|]. simpl. apply lookup_delete_eq. }
  intros _. eapply triple_bind with (Q' := λ _, gone); [by apply triple_modify|].
  intros _. eapply triple_bind with (Q' := λ _, gone).
  { eapply triple_conseq; [apply (preserves_syncDir gone)|done|done|by intros ? ? []|by intros ? []]. }
  intros _. eapply triple_conseq;
    [apply (preserves_ignore gone), preserves_persist; [exact Hgone|by intros ???]|done|done|
     by intros ? ? []|by intros ? []].
Qed.

(** From the write of the entry on. *)
Lemma enqueue_write_law env len name mtime l : HasSuffix name fileSuffix = true →
  triple (λ w, sw_net w = l)
    (r <- try (writeAtomic tmp_token name mtime (set_dir (insert name (entry_file env len mtime))));;
     match r with
     | inl _ =>
       modify (set_count on_enqueue_error);;;
       ignore (persistStatsLocked tmp_token);;;
       throw ErrWriteEntry
     | inr _ =>
       modify (set_count (on_enqueued len));;;
       enforceRetentionLocked opts;;;
       ignore (persistStatsLocked tmp_token);;;
       ok <- sys id;;
       if negb ok then throw (ErrSpoolIO "inspect entry") else
       d <- gets sw_dir;;
       if decide (is_Some (d !! name)) then retM (env, name) else throw ErrRetentionBudget
     end)
    (λ r w, sw_net w = l ∧ r.1 = env ∧ held r.2 r.1 w) (λ _ w, sw_net w = l) (λ w, sw_net w = l).
Proof.
  intros Hsuf. set (N w := sw_net w = l). pose proof (removal_stable_net l) as HN. fold N in HN.
  set (f := entry_file env len mtime). set (K w := N w ∧ only name f w).
  assert (HK : removal_stable K) by (by apply removal_stable_and, removal_stable_only).
  eapply triple_bind with (Q' := λ r w, match r with inl _ => N w | inr _ => K w end).
  { eapply triple_try, triple_conseq;
      [apply (writeAtomic_triple _ _ mtime _ N K)|done|done|by intros ? w [?|[? _]]|by intros w [?|[? _]]].
    - apply HN.
    - intros w Hw. split; [done|]. left. simpl. apply lookup_insert_eq. }
  intros [e|_].
  - eapply triple_bind with (Q' := λ _, N); [by apply triple_modify|]. intros _.
    eapply triple_bind with (Q' := λ _, N); [|intros _; by apply triple_throw].
    by apply preserves_ignore, preserves_persist_rs.
  - assert (HKN : ∀ w, K w → N w) by (by intros w []).
    assert (Hstep : ∀ (m : SM unit), preserves K m →
      triple K m (λ _, K) (λ _, N) N) by (intros m Hm; eapply triple_conseq; eauto).
    eapply triple_bind with (Q' := λ _, K); [apply Hstep, preserves_modify, HK|]. intros _.
    eapply triple_bind with (Q' := λ _, K); [by apply Hstep, preserves_retention|]. intros _.
    eapply triple_bind with (Q' := λ _, K);
      [by apply Hstep, preserves_ignore, preserves_persist_rs|]. intros _.
    eapply triple_bind with (Q' := λ _, K); [by apply triple_sys; [..|apply HKN]|]. intros ok.
    prog_if E3; [by apply triple_throw|].
    eapply triple_bind with (Q' := λ d w, K w ∧ d = sw_dir w); [by apply triple_gets|].
    intros d. case_decide as Hd; [|apply triple_throw; by intros w [[]]].
    apply triple_ret. intros w [[Hw Ho] ->]. split_and!; try done.
    destruct Ho as [Hf|Hf]; [by exists f|]. rewrite Hf in Hd. by destruct Hd.
Qed.

Lemma enqueue_spool_law ident kind priority payload l :
  triple (λ w, sw_net w = l)
    (EnqueuePriority filenameID tmp_token marshal_env opts ident kind priority payload)
    (λ r w, sw_net w = l ∧ held r.2 r.1 w ∧ ev_Kind r.1 = TrimSpace kind ∧
      ev_Priority r.1 = priority ∧ ev_Payload r.1 = payload ∧
      (TrimSpace ident ≠ "" → ev_ID r.1 = TrimSpace ident))
    (λ _ w, sw_net w = l) (λ w, sw_net w = l).
Proof.
  set (N w := sw_net w = l). pose proof (removal_stable_net l) as HN. fold N in HN.
  unfold EnqueuePriority. prog_if E; [by apply triple_throw|].
  eapply triple_bind with (Q' := λ i w, N w ∧ (TrimSpace ident ≠ "" → i = TrimSpace ident)).
  { prog_if E2.
    - apply is_empty_true in E2. eapply triple_conseq;
        [apply (preserves_NewID N); by intros|by auto..].
    - by apply triple_ret. }
  intros i. eapply triple_bind with (Q' := λ _ w, N w ∧ (TrimSpace ident ≠ "" → i = TrimSpace ident));
    [by apply triple_now|]. intros t.
  apply triple_pure_r. intros Hid. set (env := Build_Envelope _ _ _ _ _ _).
  destruct (marshal_env env) as [len|]; [|by apply triple_throw].
  eapply triple_bind with (Q' := λ _, N); [apply preserves_NewID; by intros|]. intros tok.
  set (name := entry_name filenameID t i tok).
  pose proof (entry_name_suffix filenameID t i tok) as Hsuf. fold name in Hsuf.
  eapply triple_bind with (Q' := λ _, N); [by apply triple_now|]. intros mtime.
  eapply triple_conseq; [by apply enqueue_write_law|done| |done|done].
  intros r w (Hw & -> & Hh). by split_and!.
Qed.

(** *** Draining *)

Lemma same_message_refl e : same_message e e.
Proof. by split_and!. Qed.

Context (J : Envelope → list request → Prop) `(HJ : verdict J) (w0 : sworld).

(** The condition of [kept_or_settled] at one world. *)
Definition settled (env : Envelope) (w : sworld) : Prop :=
  expires opts env ∨ J env (sw_net w).

Lemma settled_same e e' w : same_message e e' → settled e w → settled e' w.
Proof using HJ.
  intros Hs [(H & t & Ht)|H]; [left|right; by eapply verdict_same].
  split; [done|]. exists t. destruct Hs as (_ & _ & _ & <- & _). done.
Qed.

Lemma kept_start : kept_or_settled opts J w0 w0.
Proof using. split; [done|]. intros n e H _. left. exists e. split; [done|apply same_message_refl]. Qed.

Lemma kept_removal name w : kept_or_settled opts J w0 w →
  (HasSuffix name fileSuffix = true → ∀ e, held name e w → settled e w) →
  kept_or_settled opts J w0 (set_dir (delete name) w).
Proof using HJ.
  intros [Hn Hk] Hset. split; [done|]. intros n e Hh Hsuf.
  destruct (Hk n e Hh Hsuf) as [(e' & Hh' & Hs)|H]; [|by right].
  destruct (decide (n = name)) as [->|Hne].
  - right. apply (settled_same e'); [done|]. by apply Hset.
  - left. exists e'. split; [|done]. destruct Hh' as (f & Hf & ?). exists f.
    split; [|done]. simpl. by rewrite lookup_delete_ne.
Qed.

Lemma kept_insert name f w : kept_or_settled opts J w0 w →
  (HasSuffix name fileSuffix = true → ∀ e, held name e w →
     sf_dir f = false ∧ ∃ e', sf_content f = Some e' ∧ same_message e' e) →
  kept_or_settled opts J w0 (set_dir (insert name f) w).
Proof using.
  intros [Hn Hk] Hset. split; [done|]. intros n e Hh Hsuf.
  destruct (Hk n e Hh Hsuf) as [(e1 & Hh' & Hs)|H]; [|by right]. left.
  destruct (decide (n = name)) as [->|Hne].
  - destruct (Hset Hsuf e1 Hh') as (Hd & e' & Hc & Hs'). exists e'. split.
    + exists f. simpl. by rewrite lookup_insert_eq.
    + destruct Hs as (?&?&?&?&?), Hs' as (?&?&?&?&?). split_and!; congruence.
  - exists e1. split; [|done]. destruct Hh' as (g & Hg & ?). exists g.
    split; [|done]. simpl. by rewrite lookup_insert_ne.
Qed.

(** Worlds that store the same files keep the same messages. *)
Lemma kept_dir w w' : kept_or_settled opts J w0 w → sw_dir w' = sw_dir w →
  sw_net w `prefix_of` sw_net w' → kept_or_settled opts J w0 w'.
Proof using HJ.
  intros [Hn Hk] Hd Hp. split; [by etrans|]. intros n e Hh Hsuf.
  destruct (Hk n e Hh Hsuf) as [(e' & (f & Hf & ?) & Hs)|[H|H]].
  - left. exists e'. split; [|done]. exists f. by rewrite Hd.
  - auto.
  - right. right. by eapply verdict_mono.
Qed.

Let K := kept_or_settled opts J w0.

Lemma kept_other : other_stable K.
Proof using HJ.
  intros n w Hn Hw. split; [intros f _; apply kept_insert|apply kept_removal]; try done; congruence.
Qed.

Lemma kept_stats : stats_stable K.
Proof using HJ. intros w st Hw. by apply (kept_dir w). Qed.

Lemma kept_release name : preserves K (release name).
Proof using HJ. apply preserves_modify. intros w Hw. by apply (kept_dir w). Qed.

Lemma kept_persist : preserves K (ignore (persistStatsLocked tmp_token)).
Proof using HJ. apply preserves_ignore, preserves_persist; [apply kept_other|apply kept_stats]. Qed.

Lemma kept_sync : preserves K (ignore syncDir).
Proof using. apply preserves_ignore, preserves_syncDir. Qed.
#[local] Hint Resolve kept_release kept_persist kept_sync : effects.

(** The entry may go: whatever it holds is settled. *)
Definition may_go (name : string) (w : sworld) : Prop :=
  K w ∧ ∀ e, held name e w → settled e w.

Lemma remove_may_go name size r :
  triple (may_go name) (remove_entry name size r) (λ _, K) (λ _, K) K.
Proof using HJ.
  unfold remove_entry. eapply triple_bind with (Q' := λ _, K).
  - apply triple_sys; [|by intros w []..]. intros w [Hw Hs]. by apply kept_removal.
  - intros b. apply preserves_bind; [|intros _; apply preserves_ret].
    destruct b; [|apply preserves_ret]. apply preserves_modify. intros w Hw. by apply (kept_dir w).
Qed.

Lemma remove_then name size r {A} (k : bool → SM A) :
  (∀ b, preserves K (k b)) →
  triple (may_go name)
    (b <- remove_entry name size r;;
     (if b : bool then ignore syncDir;;; ignore (persistStatsLocked tmp_token) else retM tt);;; k b)
    (λ _, K) (λ _, K) K.
Proof using HJ.
  intros Hk. eapply triple_bind; [apply remove_may_go|]. intros b.
  apply preserves_bind; [|intros _; apply Hk].
  destruct b; [|apply preserves_ret]. apply preserves_bind; [apply kept_sync|intros _; apply kept_persist].
Qed.

Lemma discard_may_go name size r :
  triple (may_go name) (discard tmp_token name size r) (λ _, K) (λ _, K) K.
Proof using HJ. unfold discard. apply (remove_then _ _ _ (λ _, release name)). intros _. apply kept_release. Qed.

(** The entry was read as [f]; nobody else touches the queue. *)
Definition reading (name : string) (f : sfile) (w : sworld) : Prop :=
  K w ∧ sw_dir w !! name = Some f.

Lemma reading_held name f e w : reading name f w → held name e w → sf_content f = Some e.
Proof using. intros [_ Hf] (g & Hg & _ & Hc). by simplify_eq. Qed.

Lemma reading_may_go name f w : reading name f w →
  (∀ e, sf_content f = Some e → settled e w) → may_go name w.
Proof using. intros Hr Hs. split; [apply Hr|]. intros e He. apply Hs. by eapply reading_held. Qed.

(** The retry rewrites the entry as the same message. *)
Lemma rewrite_kept name f env env' len mtime :
  sf_content f = Some env → same_message env' env →
  HasSuffix name fileSuffix = true →
  triple (reading name f)
    (writeAtomic tmp_token name mtime (set_dir (insert name (entry_file env' len mtime))))
    (λ _, K) (λ _, K) K.
Proof using HJ.
  intros Hc Hs Hsuf. eapply triple_conseq;
    [apply (writeAtomic_triple _ _ _ _ (reading name f) K)|done|done| |]; simpl.
  - intros n w Hn [Hw Hf]. destruct (kept_other n w Hn Hw) as [H1 H2].
    assert (n ≠ name) by congruence.
    split; [intros g Hg|]; (split; [auto|]); simpl; by rewrite ?lookup_insert_ne, ?lookup_delete_ne.
  - intros w [Hw Hf]. apply kept_insert.
    + apply kept_other; [apply tmp_name_not_entry|done].
    + intros _ e (g & Hg & _ & Hce). split; [done|]. exists env'. split; [done|].
      simpl in Hg. apply lookup_delete_Some in Hg as [_ Hg]. by simplify_eq.
  - by intros _ w [[]|].
  - by intros w [[]|].
Qed.

Context (deliver : Envelope → SM delivery) `(Hdel : settles J deliver).

(** The delivery keeps the reading and settles what it does not retry. *)
Lemma deliver_reading name f env : sf_content f = Some env →
  triple (reading name f) (deliver env)
    (λ r w, reading name f w ∧ (r ≠ RetryableFailure → may_go name w)) (λ _, K) K.
Proof using HJ Hdel.
  intros Hc v w Hr. pose proof (Hdel env w v w eq_refl) as H.
  assert (Hstep : ∀ l, reading name f (set_net (λ n, n ++ l) w)).
  { intros l. destruct Hr as [Hw Hf]. split; [|done].
    apply (kept_dir w); [done..|]. by exists l. }
  destruct (deliver env v w) as [[[r|e|] v'] w'].
  - destruct H as (l & -> & HJr). split; [apply Hstep|]. intros Hne.
    eapply reading_may_go; [apply Hstep|]. intros e He. simplify_eq. right. by apply HJr.
  - destruct H as [l ->]. apply Hstep.
  - destruct H as [l ->]. apply Hstep.
Qed.

(** The tail of an iteration that gives up with [e] after releasing the entry. *)
Lemma release_throw {A} name e : preserves K (release name;;; throw (A:=A) e).
Proof using HJ. apply preserves_bind; [apply kept_release|intros _; apply preserves_throw]. Qed.

Lemma retry_kept name f env : sf_content f = Some env → HasSuffix name fileSuffix = true →
  triple (reading name f)
    (let env := {| ev_ID := ev_ID env; ev_Kind := ev_Kind env; ev_Priority := ev_Priority env;
                   ev_CreatedAt := ev_CreatedAt env; ev_Attempts := ev_Attempts env + 1;
                   ev_Payload := ev_Payload env |} in
     match marshal_env env with
     | None => release name;;; throw ErrMarshalRetry
     | Some len =>
       mtime <- now;;
       r <- try (writeAtomic tmp_token name mtime (set_dir (insert name (entry_file env len mtime))));;
       match r with
       | inl _ => release name;;; throw ErrPersistRetry
       | inr _ =>
         modify (set_count (on_retry (len - sf_size f)));;;
         ignore (persistStatsLocked tmp_token);;;
         release name;;;
         throw (A:=Z) ErrDelivery
       end
     end) (λ _, K) (λ _, K) K.
Proof using HJ.
  intros Hc Hsuf. cbv zeta. set (env' := Build_Envelope _ _ _ _ _ _).
  destruct (marshal_env env') as [len|].
  - eapply triple_bind with (Q' := λ _, reading name f); [by apply triple_now|]. intros mt.
    eapply triple_bind with (Q' := λ _, K).
    { apply triple_try. by apply (rewrite_kept name f env). }
    intros [e|_]; [apply release_throw|].
    apply preserves_bind; [apply preserves_modify; intros w Hw; by apply (kept_dir w)|]. intros _.
    apply preserves_bind; [apply kept_persist|]. intros _. apply release_throw.
  - eapply triple_weaken; [|apply release_throw]. by intros w [].
Qed.

Lemma drain_one_kept name : HasSuffix name fileSuffix = true →
  preserves K (drain_one tmp_token marshal_env opts deliver name).
Proof using HJ Hdel.
  intros Hsuf. unfold drain_one.
  apply preserves_bind; [apply preserves_modify; intros w Hw; by apply (kept_dir w)|]. intros _.
  apply preserves_bind; [by apply preserves_sys|]. intros rd.
  eapply triple_bind with (Q' := λ d w, K w ∧ d = sw_dir w); [by apply triple_gets|]. intros d.
  prog_if E; [eapply triple_weaken; [|apply release_throw]; by intros w []|].
  destruct (d !! name) as [f|] eqn:Hf.
  2:{ eapply triple_weaken with (P' := K); [by intros w []|].
      apply preserves_bind; [apply kept_release|intros _; apply preserves_ret]. }
  apply (triple_weaken (reading name f)); [by intros w [Hw ->]|].
  prog_if E2; [eapply triple_weaken; [|apply release_throw]; by intros w []|].
  assert (Hdisc : ∀ P r, (∀ w, P w → may_go name w) →
    triple P (discard tmp_token name (sf_size f) r;;; retM 0) (λ _, K) (λ _, K) K).
  { intros P r HP. eapply triple_bind with (Q' := λ _, K); [|intros _; apply preserves_ret].
    eapply triple_weaken; [apply HP|apply discard_may_go]. }
  destruct (sf_content f) as [env|] eqn:Hc.
  2:{ apply Hdisc. intros w Hr. eapply reading_may_go; [exact Hr|]. intros e He. congruence. }
  eapply triple_bind with (Q' := λ _, reading name f); [by apply triple_now|]. intros t.
  prog_if Hage.
  { apply Hdisc. intros w Hr. eapply reading_may_go; [exact Hr|]. intros e He. simplify_eq.
    zbool. left. split; [done|]. by exists t. }
  eapply triple_bind; [by apply (deliver_reading name f env)|]. intros [].
  - eapply triple_weaken with (P' := may_go name); [intros w [_ Hw]; by apply Hw|].
    apply (remove_then _ _ _ (λ b, release name;;; if negb b then throw _ else retM 1)).
    intros b. apply preserves_bind; [apply kept_release|intros _].
    destruct b; [apply preserves_ret|apply preserves_throw].
  - apply Hdisc. intros w [_ Hw]. by apply Hw.
  - eapply triple_weaken; [|by apply (retry_kept name f env)]. by intros w [].
Qed.

Lemma drain_loop_kept limit : ∀ ctx names delivered,
  Forall (λ n, HasSuffix n fileSuffix = true) names →
  preserves K (drain_loop tmp_token marshal_env opts deliver limit ctx names delivered).
Proof using HJ Hdel.
  induction limit as [|limit IH]; intros ctx names delivered Hn; cbn [drain_loop];
    [destruct names; apply preserves_ret|].
  destruct Hn as [|name names Hsuf Hn]; [apply preserves_ret|].
  prog_if E; [apply preserves_ret|].
  apply preserves_bind; [by apply preserves_try, drain_one_kept|].
  intros [e|n]; [apply preserves_ret|by apply IH].
Qed.

Lemma drain_spool_law limit ctx :
  triple (λ w, w = w0) (Drain tmp_token marshal_env opts deliver limit ctx)
    (λ _, K) (λ _, K) K.
Proof using HJ Hdel.
  apply (triple_known K); [apply kept_start|]. unfold Drain.
  eapply triple_bind with (Q' := λ r w, K w ∧
    match r with inr names => names ≡ₚ entry_names (sw_dir w) | inl _ => True end).
  { eapply triple_try, triple_conseq;
      [apply (triple_reads _ _ K reads_snapshot)|done| |done|done].
    by intros names w [Hw [? _]]. }
  intros [e|names]; [by apply triple_ret; intros w []|].
  apply triple_start. intros w1 [Hw1 Hnames]. apply (triple_known K); [done|].
  apply drain_loop_kept, Forall_forall. intros n Hn. rewrite Hnames in Hn.
  apply elem_of_entry_names in Hn as (f & _ & He). by apply andb_true_iff in He as [_ He].
Qed.

End spool_laws.

(** The operations of an enabled spool. *)
Definition spool_queue (filenameID tmp_token : string → string)
    (marshal_env : Envelope → option Z) (opts : Options) : queue_ops := {|
  q_enqueue := EnqueuePriority filenameID tmp_token marshal_env opts;
  q_acknowledge := Acknowledge tmp_token;
  q_reject := Reject tmp_token;
  q_pending := read_count st_Pending;
  q_drain := Drain tmp_token marshal_env opts;
|}.

#[export] Instance spool_queue_laws filenameID tmp_token marshal_env opts :
  QueueLaws opts (spool_queue filenameID tmp_token marshal_env opts).
Proof.
  split.
  - apply enqueue_spool_law.
  - intros. apply removeEnvelope_law.
  - intros. apply removeEnvelope_law.
  - intros J deliver limit ctx w0 HJ Hdel. by apply drain_spool_law.
Qed.
