(* ===== verification/Sender.v ===== *)
(** * Sender: at-least-once delivery (internal/sender/sender.go)

    Batches are written to the durable queue, posted with retries, and leave
    the queue only on the server's explicit acknowledgement or on a definitive
    refusal.  The methods run under [deliveryMu]: one execution at a time.
    Parameters: the JSON scanner, the encoder of a batch of events, the UUID
    parser, the URLs [http.NewRequest] accepts, and the server, which answers a
    request by the requests it has seen (a reply, or a network error).  The
    credential headers (internal/agentauth) are not part of a request here. *)

From S2P Require Import Prelude GoStr Effects GoJson Event Protocol Spool Queue.
From Stdlib Require Import Ascii.

Local Open Scope Z_scope.
Local Open Scope go_scope.

Definition KindEvents : string := "events".
Definition KindInventory : string := "inventory".
Definition KindVuln : string := "vuln".

(** The values of type [error] of the package; [%w] and [errors.Join] keep the
    wrapped errors. *)
Inductive send_error :=
  | ErrUnconfirmedDelivery (what : string)
  | ErrInvalidDeliveryPayload (what : string)
  | ErrIncompatible (i : Incompatibility)
  | ErrStatus (status : Z)
  | ErrNet (retryable : bool)
  | ErrNewRequest
  | ErrContext
  | ErrUnknownKind (kind : string)
  | ErrBaseURL
  | ErrMarshalEvents
  | DurableQueueError (err : send_error)
  | ErrPersistBacklog (enqueueErr : serror) (err : send_error)
  | ErrCommit (acknowledgeErr : serror)
  | ErrDiscard (err : send_error) (rejectErr : serror).

(** [errors.Is]/[errors.As] along the chain. *)
Fixpoint err_any (p : send_error → bool) (e : send_error) : bool :=
  p e || match e with
  | DurableQueueError e | ErrPersistBacklog _ e | ErrDiscard e _ => err_any p e
  | _ => false
  end.

Definition IsDurablyQueued : send_error → bool :=
  err_any (λ e, match e with DurableQueueError _ => true | _ => false end).
Definition is_unconfirmed : send_error → bool :=
  err_any (λ e, match e with ErrUnconfirmedDelivery _ => true | _ => false end).
Definition is_invalid_payload : send_error → bool :=
  err_any (λ e, match e with ErrInvalidDeliveryPayload _ => true | _ => false end).
Definition is_incompatible : send_error → bool :=
  err_any (λ e, match e with ErrIncompatible _ => true | _ => false end).

(** The errnos ECONNRESET, EPIPE, ETIMEDOUT, ECONNREFUSED. *)
Definition isRetryableNetErr : send_error → bool :=
  err_any (λ e, match e with ErrNet b => b | _ => false end).

Definition isRetryable (err : send_error) (status : Z) : bool :=
  if is_unconfirmed err then true
  else if status =? 0 then isRetryableNetErr err
  else 500 <=? status.

Definition isSpoolable (err : option send_error) (status : Z) : bool :=
  match err with
  | None => false
  | Some err =>
    if is_invalid_payload err then false
    else if is_incompatible err then false
    else if is_unconfirmed err then true
    else if status =? 0 then true
    else if existsb (Z.eqb status) [401; 403; 408; 409; 423; 425; 426; 429] then true
    else 500 <=? status
  end.

Arguments isSpoolable : simpl never.
Arguments isRetryable : simpl never.

Definition isPermanentDeliveryStatus (status : Z) : bool :=
  existsb (Z.eqb status) [400; 404; 405; 410; 413; 414; 415; 422; 426; 431].

Definition explicitAcknowledgement (accepted durable : option bool) : bool :=
  match accepted, durable with Some a, Some d => a && d | _, _ => false end.

(** ** Acknowledgements (protocol/delivery.go) *)

Record EventIngestAcknowledgement := {
  ea_Accepted : option bool; ea_Durable : option bool; ea_Received : option Z;
  ea_Enqueued : option Z; ea_Stored : option Z; ea_Duplicate : bool; ea_Mode : string;
  ea_RollupsWritten : option bool }.
Record InventoryAcknowledgement := {
  ia_Accepted : option bool; ia_Durable : option bool; ia_Duplicate : bool; ia_ID : Z;
  ia_Stored : option bool }.
Record VulnerabilityAcknowledgement := {
  va_Accepted : option bool; va_Durable : option bool; va_Duplicate : bool;
  va_ScanID : option Z; va_ScanUUID : string; va_LifecycleState : string;
  va_CurrentPhase : string; va_ReceivedFindings : option Z; va_StoredFindings : option Z }.

Definition zero_event_ack := Build_EventIngestAcknowledgement None None None None None false "" None.
Definition zero_inventory_ack := Build_InventoryAcknowledgement None None false 0 None.
Definition zero_vuln_ack := Build_VulnerabilityAcknowledgement None None false None "" "" "" None None.

Definition fields_event_ack : fields EventIngestAcknowledgement := [
  ("accepted", on_field ea_Accepted (λ v '(Build_EventIngestAcknowledgement _ b c d e f g h),
     Build_EventIngestAcknowledgement v b c d e f g h) (dec_ptr false dec_bool));
  ("durable", on_field ea_Durable (λ v '(Build_EventIngestAcknowledgement a _ c d e f g h),
     Build_EventIngestAcknowledgement a v c d e f g h) (dec_ptr false dec_bool));
  ("received", on_field ea_Received (λ v '(Build_EventIngestAcknowledgement a b _ d e f g h),
     Build_EventIngestAcknowledgement a b v d e f g h) (dec_ptr 0 dec_int));
  ("enqueued", on_field ea_Enqueued (λ v '(Build_EventIngestAcknowledgement a b c _ e f g h),
     Build_EventIngestAcknowledgement a b c v e f g h) (dec_ptr 0 dec_int));
  ("stored", on_field ea_Stored (λ v '(Build_EventIngestAcknowledgement a b c d _ f g h),
     Build_EventIngestAcknowledgement a b c d v f g h) (dec_ptr 0 dec_int));
  ("duplicate", on_field ea_Duplicate (λ v '(Build_EventIngestAcknowledgement a b c d e _ g h),
     Build_EventIngestAcknowledgement a b c d e v g h) dec_bool);
  ("mode", on_field ea_Mode (λ v '(Build_EventIngestAcknowledgement a b c d e f _ h),
     Build_EventIngestAcknowledgement a b c d e f v h) dec_string);
  ("rollups_written", on_field ea_RollupsWritten
     (λ v '(Build_EventIngestAcknowledgement a b c d e f g _),
     Build_EventIngestAcknowledgement a b c d e f g v) (dec_ptr false dec_bool))].

Definition fields_inventory_ack : fields InventoryAcknowledgement := [
  ("accepted", on_field ia_Accepted (λ v '(Build_InventoryAcknowledgement _ b c d e),
     Build_InventoryAcknowledgement v b c d e) (dec_ptr false dec_bool));
  ("durable", on_field ia_Durable (λ v '(Build_InventoryAcknowledgement a _ c d e),
     Build_InventoryAcknowledgement a v c d e) (dec_ptr false dec_bool));
  ("duplicate", on_field ia_Duplicate (λ v '(Build_InventoryAcknowledgement a b _ d e),
     Build_InventoryAcknowledgement a b v d e) dec_bool);
  ("id", on_field ia_ID (λ v '(Build_InventoryAcknowledgement a b c _ e),
     Build_InventoryAcknowledgement a b c v e) dec_int);
  ("stored", on_field ia_Stored (λ v '(Build_InventoryAcknowledgement a b c d _),
     Build_InventoryAcknowledgement a b c d v) (dec_ptr false dec_bool))].

Definition fields_vuln_ack : fields VulnerabilityAcknowledgement := [
  ("accepted", on_field va_Accepted (λ v '(Build_VulnerabilityAcknowledgement _ b c d e f g h i),
     Build_VulnerabilityAcknowledgement v b c d e f g h i) (dec_ptr false dec_bool));
  ("durable", on_field va_Durable (λ v '(Build_VulnerabilityAcknowledgement a _ c d e f g h i),
     Build_VulnerabilityAcknowledgement a v c d e f g h i) (dec_ptr false dec_bool));
  ("duplicate", on_field va_Duplicate (λ v '(Build_VulnerabilityAcknowledgement a b _ d e f g h i),
     Build_VulnerabilityAcknowledgement a b v d e f g h i) dec_bool);
  ("scan_id", on_field va_ScanID (λ v '(Build_VulnerabilityAcknowledgement a b c _ e f g h i),
     Build_VulnerabilityAcknowledgement a b c v e f g h i) (dec_ptr 0 dec_int));
  ("scan_uuid", on_field va_ScanUUID (λ v '(Build_VulnerabilityAcknowledgement a b c d _ f g h i),
     Build_VulnerabilityAcknowledgement a b c d v f g h i) dec_string);
  ("lifecycle_state", on_field va_LifecycleState
     (λ v '(Build_VulnerabilityAcknowledgement a b c d e _ g h i),
     Build_VulnerabilityAcknowledgement a b c d e v g h i) dec_string);
  ("current_phase", on_field va_CurrentPhase
     (λ v '(Build_VulnerabilityAcknowledgement a b c d e f _ h i),
     Build_VulnerabilityAcknowledgement a b c d e f v h i) dec_string);
  ("received_findings", on_field va_ReceivedFindings
     (λ v '(Build_VulnerabilityAcknowledgement a b c d e f g _ i),
     Build_VulnerabilityAcknowledgement a b c d e f g v i) (dec_ptr 0 dec_int));
  ("stored_findings", on_field va_StoredFindings
     (λ v '(Build_VulnerabilityAcknowledgement a b c d e f g h _),
     Build_VulnerabilityAcknowledgement a b c d e f g h v) (dec_ptr 0 dec_int))].

(** The body of a 409: [{"error": .., "detail": {"error": .., "message": ..}}]. *)
Record conflict_detail := { cd_Error : string; cd_Message : string }.
Record conflict_envelope := { ce_Error : string; ce_Detail : conflict_detail }.

Definition fields_conflict_detail : fields conflict_detail := [
  ("error", on_field cd_Error (λ v d, Build_conflict_detail v (cd_Message d)) dec_string);
  ("message", on_field cd_Message (λ v d, Build_conflict_detail (cd_Error d) v) dec_string)].
Definition fields_conflict : fields conflict_envelope := [
  ("error", on_field ce_Error (λ v d, Build_conflict_envelope v (ce_Detail d)) dec_string);
  ("detail", on_field ce_Detail (λ v d, Build_conflict_envelope (ce_Error d) v)
     (dec_struct fields_conflict_detail))].

(** [[]json.RawMessage], [map[string]interface{}] and the findings of a
    vulnerability batch: only their sizes and validity matter. *)
Definition dec_raw_slice : decoder (list (option json)) := dec_slice None dec_raw.
Definition dec_map : decoder (list (string * json)) := λ j m,
  match j with JNull => Some m | JObj kvs => Some (m ++ kvs) | _ => None end.
Definition fields_vuln_batch : fields (list (option json)) := [("findings", dec_raw_slice)].

(** ** Inventories and results of a delivery *)

(** protocol/inventory.go; a nil map or slice is [None]. *)
Record PackageEntry := { pe_Name : string; pe_Version : string; pe_Arch : string }.
Record InventorySnapshot := {
  is_SchemaVersion : Z; is_CollectedAt : option time; is_OS : option (gmap string json);
  is_Packages : option (list PackageEntry); is_PackagesHash : string; is_PackagesCount : Z;
  is_Manager : string; is_Extra : option (gmap string json) }.

Record EventDeliveryResult := {
  er_Status : Z; er_Attempted : Z; er_Delivered : Z; er_Durable : Z }.

(** The fields of the struct that do not change after [New]; [s_spool] says
    whether a spool was set. *)
Record Sender := { s_baseURL : string; s_maxBatch : Z; s_retries : Z; s_agentID : string;
  s_spool : bool }.

Fixpoint trim_slashes (l : list ascii) : list ascii :=
  match l with "/"%char :: l => trim_slashes l | l => l end.
Definition TrimRightSlash (s : string) : string :=
  of_chars (reverse (trim_slashes (reverse (to_chars s)))).

Definition New (baseURL : string) (maxBatch : Z) (agentID : string) : Sender := {|
  s_baseURL := TrimRightSlash (TrimSpace baseURL);
  s_maxBatch := if maxBatch <=? 0 then 300 else maxBatch;
  s_retries := 3;
  s_agentID := TrimSpace agentID;
  s_spool := false |}.

(** [SetSpool]: a nil or disabled spool is ignored. *)
Definition SetSpool (enabled : bool) (s : Sender) : Sender :=
  if enabled then {| s_baseURL := s_baseURL s; s_maxBatch := s_maxBatch s;
    s_retries := s_retries s; s_agentID := s_agentID s; s_spool := true |} else s.

Definition endpointFor (s : Sender) (kind : string) : string :=
  let kind := TrimSpace kind in
  if str_eqb kind KindEvents then s_baseURL s +:+ "/ingest/events"
  else if str_eqb kind KindInventory then s_baseURL s +:+ "/inventory"
  else if str_eqb kind KindVuln then s_baseURL s +:+ "/vuln/ingest"
  else "".

Definition deliveryPriority (kind : string) : Z :=
  let kind := TrimSpace kind in
  if str_eqb kind KindInventory || str_eqb kind KindVuln then 100
  else if str_eqb kind KindEvents then 10 else 0.

Definition spoolDrainLimit (s : Sender) : Z :=
  let limit := Z.quot (s_maxBatch s) 10 in
  let limit := if limit <? 8 then 8 else limit in
  if 64 <? limit then 64 else limit.

(** [io.LimitReader(resp.Body, 1<<20)]. *)
Fixpoint limit_reader (n : Z) (s : string) : string :=
  match s with
  | EmptyString => EmptyString
  | String a s => if n <=? 0 then EmptyString else String a (limit_reader (n - 1) s)
  end.

Inductive net_reply :=
  | NetError (retryable : bool)
  | Response (status : Z) (body : string).

Section sender.
Context (parse : string → option json) (marshal_events : list NetEvent → option string).
Context (marshal_snapshot : InventorySnapshot → option string).
Context (uuid_parse : string → option string) (valid_url : string → bool).
Context (server : list request → request → net_reply).
Context (q : queue_ops).

(** ** One post *)

Definition decodePermanentDeliveryError (status : Z) (body : string) : option send_error :=
  match DecodeIncompatibility parse status body with
  | Some i => Some (ErrIncompatible i)
  | None =>
    if negb (status =? 409) then None else
    match unmarshal parse (dec_struct fields_conflict)
            (Build_conflict_envelope "" (Build_conflict_detail "" "")) body with
    | None => None
    | Some envelope =>
      let errorCode := TrimSpace (ce_Error envelope) in
      let '(errorCode, message) :=
        if is_empty errorCode
        then (TrimSpace (cd_Error (ce_Detail envelope)), TrimSpace (cd_Message (ce_Detail envelope)))
        else (errorCode, "") in
      if negb (str_eqb errorCode "batch_payload_conflict") then None else
      let message :=
        if is_empty message then "batch id was reused with different content" else message in
      Some (ErrInvalidDeliveryPayload message)
    end
  end.

Definition validateAcknowledgement (kind payload body : string) : option send_error :=
  let kind := TrimSpace kind in
  if str_eqb kind KindEvents then
    match unmarshal parse dec_raw_slice [] payload with
    | None => Some (ErrInvalidDeliveryPayload "events")
    | Some events =>
      match unmarshal parse (dec_struct fields_event_ack) zero_event_ack body with
      | None => Some (ErrUnconfirmedDelivery "decode event acknowledgement")
      | Some ack =>
        if explicitAcknowledgement (ea_Accepted ack) (ea_Durable ack) &&
           match ea_Received ack with Some n => n =? Z.of_nat (length events) | None => false end
        then None else Some (ErrUnconfirmedDelivery "event batch was not fully accepted")
      end
    end
  else if str_eqb kind KindInventory then
    match unmarshal parse dec_map [] payload with
    | None => Some (ErrInvalidDeliveryPayload "inventory")
    | Some _ =>
      match unmarshal parse (dec_struct fields_inventory_ack) zero_inventory_ack body with
      | None => Some (ErrUnconfirmedDelivery "decode inventory acknowledgement")
      | Some ack =>
        if explicitAcknowledgement (ia_Accepted ack) (ia_Durable ack)
        then None else Some (ErrUnconfirmedDelivery "inventory snapshot was not durably stored")
      end
    end
  else if str_eqb kind KindVuln then
    match unmarshal parse (dec_struct fields_vuln_batch) [] payload with
    | None => Some (ErrInvalidDeliveryPayload "vulnerability batch")
    | Some findings =>
      match unmarshal parse (dec_struct fields_vuln_ack) zero_vuln_ack body with
      | None => Some (ErrUnconfirmedDelivery "decode vulnerability acknowledgement")
      | Some ack =>
        if explicitAcknowledgement (va_Accepted ack) (va_Durable ack) &&
           match va_ReceivedFindings ack with Some n => n =? Z.of_nat (length findings) | None => false end
        then None else Some (ErrUnconfirmedDelivery "vulnerability batch was not fully accepted")
      end
    end
  else Some (ErrInvalidDeliveryPayload "unknown kind").

(** Status, body and error of a post. *)
Definition post_result : Type := Z * string * option send_error.

(** The verdict on a reply. *)
Definition check_reply (kind payload : string) (status : Z) (body : string) : option send_error :=
  if (status <? 200) || (300 <=? status) then
    match decodePermanentDeliveryError status body with
    | Some deliveryErr => Some deliveryErr
    | None => Some (ErrStatus status)
    end
  else validateAcknowledgement kind payload body.

(** The process may be killed while it waits for the reply. *)
Definition postOnce (kind url batchID payload : string) : SM post_result :=
  if negb (valid_url url) then retM (0, "", Some ErrNewRequest) else
  let req := {| rq_url := url; rq_batch := if is_empty (TrimSpace batchID) then "" else batchID;
                rq_payload := payload |} in
  seen <- gets sw_net;;
  modify (set_net (λ n, n ++ [req]));;;
  _ <- sys id;;
  match server seen req with
  | NetError b => retM (0, "", Some (ErrNet b))
  | Response status body =>
    let body := limit_reader 1048576 body in
    retM (status, body, check_reply kind payload status body)
  end.

(** [sleepBackoff]: whether the timer fired before the context was done. *)
Definition sleepBackoff : SM bool := sys id.

(** The loop of [postWithRetry] from [attempt] on, [fuel] attempts left. *)
Fixpoint post_loop (kind url batchID payload : string) (fuel : nat) (attempt : Z)
    (last : post_result) : SM post_result :=
  match fuel with
  | O => retM last
  | S fuel =>
    waited <- (if 0 <? attempt then sleepBackoff else retM true);;
    if negb waited then retM (last.1.1, last.1.2, Some ErrContext) else
    ' (status, body, err) <- postOnce kind url batchID payload;;
    match err with
    | None => retM (status, body, None)
    | Some e =>
      if negb (isRetryable e status) then retM (status, body, Some e)
      else post_loop kind url batchID payload fuel (attempt + 1) (status, body, Some e)
    end
  end.

Definition postWithRetry (s : Sender) (kind url batchID payload : string) : SM post_result :=
  post_loop kind url batchID payload (Z.to_nat (s_retries s + 1)) 0 (0, "", None).

(** ** Delivery *)

Definition deliver (s : Sender) (kind batchID payload : string) : SM post_result :=
  batchID <- (if is_empty (TrimSpace batchID) then NewID else retM batchID);;
  let endpoint := endpointFor s kind in
  if is_empty endpoint then retM (0, "", Some (ErrUnknownKind kind)) else
  if negb (s_spool s) then postWithRetry s kind endpoint batchID payload else
  queued <- try (q_enqueue q batchID kind (deliveryPriority kind) payload);;
  match queued with
  | inl enqueueErr =>
    ' (status, body, err) <- postWithRetry s kind endpoint batchID payload;;
    retM (status, body, ErrPersistBacklog enqueueErr <$> err)
  | inr (envelope, receipt) =>
    ' (status, body, err) <- postWithRetry s kind endpoint batchID payload;;
    match err with
    | None =>
      acked <- try (q_acknowledge q (ev_ID envelope) receipt);;
      match acked with
      | inl acknowledgeErr => retM (status, body, Some (ErrCommit acknowledgeErr))
      | inr _ => retM (status, body, None)
      end
    | Some e =>
      if negb (isSpoolable (Some e) status) then
        rejected <- try (q_reject q (ev_ID envelope) receipt);;
        match rejected with
        | inl rejectErr => retM (status, body, Some (ErrDiscard e rejectErr))
        | inr _ => retM (status, body, Some e)
        end
      else retM (status, body, Some (DurableQueueError e))
    end
  end.

(** The function [Flush] hands to [Drain]. *)
Definition flush_deliver (s : Sender) (env : Envelope) : SM delivery :=
  let endpoint := endpointFor s (ev_Kind env) in
  if is_empty endpoint then retM PermanentFailure else
  ' (status, _, err) <- postWithRetry s (ev_Kind env) endpoint (ev_ID env) (ev_Payload env);;
  retM match err with
       | None => Delivered
       | Some e => if isPermanentDeliveryStatus status || is_invalid_payload e
                   then PermanentFailure else RetryableFailure
       end.

Definition Flush (s : Sender) (ctx : list bool) : SM (Z * option serror) :=
  if negb (s_spool s) then retM (0, None) else
  pending <- gets (q_pending q);;
  if pending =? 0 then retM (0, None) else
  q_drain q (flush_deliver s) (spoolDrainLimit s) ctx.

(** ** Sending *)

Definition set_identity (id : string) (extra : gmap string json) (e : NetEvent) : NetEvent :=
  let '(Build_NetEvent _ a t v ts si di sp dp pr by' _) := e in
  Build_NetEvent id a t v ts si di sp dp pr by' (Some (<["event_id" := JStr id]> extra)).

Definition ensureEventIdentity (event : NetEvent) : SM NetEvent :=
  let extra := default ∅ (ne_Extra event) in
  let eventID := TrimSpace (ne_EventID event) in
  let eventID :=
    if is_empty eventID then
      match extra !! "event_id" with Some (JStr existing) => TrimSpace existing | _ => eventID end
    else eventID in
  parsed <- (match uuid_parse eventID with Some u => retM u | None => NewID end);;
  retM (set_identity parsed extra event).

Fixpoint ensure_all (events : list NetEvent) : SM (list NetEvent) :=
  match events with
  | [] => retM []
  | e :: events => e <- ensureEventIdentity e;; rest <- ensure_all events;; retM (e :: rest)
  end.

(** The loop of [SendEvents] at index [i]; the caller's slice is updated in
    place, so its new contents are part of the result.  Every turn advances by
    at least one event, [fuel] turns are left. *)
Fixpoint send_loop (s : Sender) (fuel : nat) (i : Z) (events : list NetEvent)
    (result : EventDeliveryResult) : SM (EventDeliveryResult * option send_error * list NetEvent) :=
  let n := Z.of_nat (length events) in
  match fuel with
  | O => retM (result, None, events)
  | S fuel =>
    if n <=? i then retM (result, None, events) else
    let j := if n <? i + s_maxBatch s then n else i + s_maxBatch s in
    batch <- ensure_all (slice events (Z.to_nat i) (Z.to_nat j));;
    let events := take (Z.to_nat i) events ++ batch ++ drop (Z.to_nat j) events in
    match marshal_events batch with
    | None => retM (result, Some ErrMarshalEvents, events)
    | Some payload =>
      ' (status, _, err) <- deliver s KindEvents "" payload;;
      match err with
      | Some e =>
        let durable := if IsDurablyQueued e then er_Durable result + (j - i) else er_Durable result in
        retM (Build_EventDeliveryResult status (er_Attempted result) (er_Delivered result) durable,
              Some e, events)
      | None =>
        send_loop s fuel (i + s_maxBatch s) events
          (Build_EventDeliveryResult status (er_Attempted result)
             (er_Delivered result + (j - i)) (er_Durable result + (j - i)))
      end
    end
  end.

Definition SendEvents (s : Sender) (events : list NetEvent)
    : SM (EventDeliveryResult * option send_error * list NetEvent) :=
  let result := Build_EventDeliveryResult 0 (Z.of_nat (length events)) 0 0 in
  if is_empty (s_baseURL s) then retM (result, Some ErrBaseURL, events) else
  if (length events =? 0)%nat then retM (result, None, events) else
  send_loop s (length events) 0 events result.

Definition SendInventorySnapshot (s : Sender) (snap : InventorySnapshot) : SM (Z * option send_error) :=
  if is_empty (s_baseURL s) then retM (0, Some ErrBaseURL) else
  let snap := {|
    is_SchemaVersion := if is_SchemaVersion snap <=? 0 then 1 else is_SchemaVersion snap;
    is_CollectedAt := is_CollectedAt snap;
    is_OS := Some (default ∅ (is_OS snap));
    is_Packages := Some (default [] (is_Packages snap));
    is_PackagesHash := is_PackagesHash snap;
    is_PackagesCount := is_PackagesCount snap;
    is_Manager := is_Manager snap;
    is_Extra := Some (default ∅ (is_Extra snap)) |} in
  match marshal_snapshot snap with
  | None => retM (0, Some ErrMarshalEvents)
  | Some payload =>
    ' (status, _, err) <- deliver s KindInventory "" payload;;
    retM (status, err)
  end.

Definition SendVulnIngest (s : Sender) (payload : string) : SM post_result :=
  if is_empty (s_baseURL s) then retM (0, "", Some ErrBaseURL) else
  if is_empty payload then retM (0, "", None) else
  deliver s KindVuln "" payload.

End sender.

Section delivery.
Context (parse : string → option json) (valid_url : string → bool).
Context (server : list request → request → net_reply).
Context (opts : Options) (q : queue_ops) `{!QueueLaws opts q}.
#[local] Set Default Proof Using "Type".

(** ** The verdict on a reply *)

Lemma validate_class kind payload body e :
  validateAcknowledgement parse kind payload body = Some e →
  (∃ m, e = ErrUnconfirmedDelivery m) ∨ ∃ m, e = ErrInvalidDeliveryPayload m.
Proof.
  unfold validateAcknowledgement.
  destruct (str_eqb _ KindEvents); [|destruct (str_eqb _ KindInventory);
    [|destruct (str_eqb _ KindVuln); [|intros [= <-]; eauto]]].
  all: destruct (unmarshal parse _ [] payload) as [x|]; [|intros [= <-]; eauto].
  all: destruct (unmarshal parse _ _ body) as [ack|]; [|intros [= <-]; eauto].
  all: match goal with |- context [if ?b then _ else _] => destruct b end; [done|].
  all: intros [= <-]; eauto.
Qed.

Lemma permanent_class status body :
  match decodePermanentDeliveryError parse status body with
  | Some (ErrIncompatible _) => status = 426
  | Some (ErrInvalidDeliveryPayload _) => status = 409
  | None => status ≠ 426
  | Some _ => False
  end.
Proof.
  unfold decodePermanentDeliveryError.
  destruct (DecodeIncompatibility parse status body) as [i|] eqn:Hi;
    unfold DecodeIncompatibility, StatusUpgradeRequired in Hi;
    destruct (status =? 426) eqn:H426; simpl in Hi; zbool; try done; [by destruct (unmarshal _ _ _ _)|].
  destruct (status =? 409) eqn:H409; zbool; simpl; [|done].
  destruct (unmarshal _ _ _ _) as [envl|]; [|done].
  destruct (is_empty (TrimSpace (ce_Error envl)));
    destruct (str_eqb _ "batch_payload_conflict"); simpl; done.
Qed.

(** The errors of a reply, by its status. *)
Lemma check_reply_class kind payload status body e :
  check_reply parse kind payload status body = Some e →
  (∃ i, e = ErrIncompatible i ∧ status = 426) ∨
  (∃ m, e = ErrInvalidDeliveryPayload m) ∨
  (e = ErrStatus status ∧ status ≠ 426 ∧ ¬ 200 <= status < 300) ∨
  (∃ m, e = ErrUnconfirmedDelivery m ∧ 200 <= status < 300).
Proof.
  unfold check_reply. destruct ((status <? 200) || (300 <=? status)) eqn:E.
  - assert (¬ 200 <= status < 300) as Hst.
    { intros [??]. apply orb_true_iff in E as [?|?]; zbool; lia. }
    pose proof (permanent_class status body) as H.
    destruct (decodePermanentDeliveryError _ _ _) as [d|]; intros [= <-]; [|by eauto 10].
    destruct d; try done; eauto 10.
  - zbool. intros Hv. apply validate_class in Hv as [[m ->]|[m ->]]; eauto 10 with lia.
Qed.

(** ** Evidence of a reply *)

Definition post_request (url batch payload : string) : request :=
  {| rq_url := url; rq_batch := if is_empty (TrimSpace batch) then "" else batch;
     rq_payload := payload |}.

(** Among the requests [net], one of this batch was answered with status [st],
    which the agent judged as [err]. *)
Definition replied (kind url batch payload : string) (net : list request) (st : Z)
    (err : option send_error) : Prop :=
  ∃ seen rest body,
    net = seen ++ post_request url batch payload :: rest ∧
    server seen (post_request url batch payload) = Response st body ∧
    check_reply parse kind payload st (limit_reader 1048576 body) = err.

(** The reply to [req] after [seen] calls for another attempt. *)
Definition retried (kind payload : string) (seen : list request) (req : request) : Prop :=
  match server seen req with
  | NetError b => b = true
  | Response st body => ∃ e,
      check_reply parse kind payload st (limit_reader 1048576 body) = Some e ∧
      isRetryable e st = true
  end.

(** What the result of a post says about the requests made. *)
Definition post_outcome (kind url batch payload : string) (net : list request)
    (r : post_result) : Prop :=
  let '(st, _, err) := r in
  replied kind url batch payload net st err ∨
  (st = 0 ∧ ((∃ b, err = Some (ErrNet b)) ∨ err = Some ErrNewRequest)) ∨
  (err = Some ErrContext ∧ (st = 0 ∨
     ∃ e, replied kind url batch payload net st (Some e) ∧ isRetryable e st = true)).

(** The requests [l] made after [seen]: the batch, again and again. *)
Definition attempts (kind url batch payload : string) (seen l : list request) : Prop :=
  Forall (eq (post_request url batch payload)) l ∧
  ∀ a r b, l = a ++ r :: b → b ≠ [] → retried kind payload (seen ++ a) r.

Lemma replied_mono kind url batch payload net l st err :
  replied kind url batch payload net st err → replied kind url batch payload (net ++ l) st err.
Proof.
  intros (seen & rest & body & -> & H). exists seen, (rest ++ l), body.
  by rewrite <-app_assoc.
Qed.

Lemma postOnce_spec kind url batch payload w0 :
  triple (λ w, w = w0) (postOnce parse valid_url server kind url batch payload)
    (λ r w, ∃ l, w = set_net (λ n, n ++ l) w0 ∧
      (l = [] ∨ l = [post_request url batch payload]) ∧
      post_outcome kind url batch payload (sw_net w) r ∧ r.2 ≠ Some ErrContext ∧
      (∀ e, r.2 = Some e → isRetryable e r.1.1 = true →
         l = [post_request url batch payload] ∧
         retried kind payload (sw_net w0) (post_request url batch payload)))
    (λ _ _, False) (λ w, ∃ l, w = set_net (λ n, n ++ l) w0).
Proof.
  unfold postOnce. prog_if E.
  { apply triple_ret. intros w ->. exists []. split_and!; [|by left| |done|].
    - unfold set_net. simpl. rewrite app_nil_r. by destruct w0.
    - right. left. split; [done|]. by right.
    - intros e [= <-]. done. }
  fold (post_request url batch payload). set (req := post_request url batch payload).
  eapply triple_bind with (Q' := λ seen w, seen = sw_net w0 ∧ w = w0).
  { apply triple_gets. by intros w ->. }
  intros seen. apply triple_pure. intros ->.
  eapply triple_bind with (Q' := λ _ w, w = set_net (λ n, n ++ [req]) w0).
  { apply triple_modify. by intros w ->. }
  intros _. eapply triple_bind with (Q' := λ _ w, w = set_net (λ n, n ++ [req]) w0).
  { apply triple_sys; [done..|]. intros w ->. by exists [req]. }
  intros _. destruct (server (sw_net w0) req) as [b|st body] eqn:Hs;
    apply triple_ret; intros w ->; exists [req]; split_and!; try done; try by right.
  - right. left. split; [done|]. left. by exists b.
  - simpl. intros e [= <-] He. split; [done|]. unfold retried. rewrite Hs. by destruct b.
  - left. by exists (sw_net w0), [], body.
  - simpl. intros He. apply check_reply_class in He. naive_solver.
  - simpl. intros e He Hr. split; [done|]. unfold retried. rewrite Hs. by exists e.
Qed.

(** ** The retry loop *)

Lemma set_net_nil w : w = set_net (λ n, n ++ []) w.
Proof. unfold set_net. rewrite app_nil_r. by destruct w. Qed.
Lemma set_net_app w l1 l2 :
  set_net (λ n, n ++ l2) (set_net (λ n, n ++ l1) w) = set_net (λ n, n ++ (l1 ++ l2)) w.
Proof. unfold set_net. simpl. by rewrite app_assoc. Qed.

Lemma attempts_nil kind url batch payload seen : attempts kind url batch payload seen [].
Proof. split; [constructor|]. by intros [|] ? ?. Qed.

Lemma attempts_one kind url batch payload seen l :
  l = [] ∨ l = [post_request url batch payload] → attempts kind url batch payload seen l.
Proof.
  intros [-> | ->]; [apply attempts_nil|]. split; [by constructor|].
  intros [|x [|y a]] r [|z b] Heq Hne; simplify_eq/=; done.
Qed.

Lemma attempts_app kind url batch payload seen l1 l2 :
  attempts kind url batch payload seen l1 → attempts kind url batch payload (seen ++ l1) l2 →
  (∀ a r, l1 = a ++ [r] → l2 ≠ [] → retried kind payload (seen ++ a) r) →
  attempts kind url batch payload seen (l1 ++ l2).
Proof.
  intros [H1 H1'] [H2 H2'] Hlast. split; [by apply Forall_app|].
  intros a r b Heq Hb. apply app_eq_inv in Heq as [(k & -> & Hk)|(k & -> & Hk)].
  - destruct k as [|x k]; simplify_list_eq.
    + pose proof (H2' [] r b eq_refl Hb) as H. by rewrite ?app_nil_r in H.
    + destruct k as [|y k]; [by apply Hlast|]. by apply (H1' a x (y :: k)).
  - rewrite app_assoc. by apply (H2' k r b).
Qed.

Lemma post_loop_spec kind url batch payload fuel : ∀ attempt last w0,
  0 <= attempt →
  (fuel ≠ 0%nat ∧ attempt = 0 ∧ last = (0, "", None) ∨
   0 < attempt ∧ post_outcome kind url batch payload (sw_net w0) last ∧
     ∃ e, last.2 = Some e ∧ isRetryable e last.1.1 = true) →
  triple (λ w, w = w0) (post_loop parse valid_url server kind url batch payload fuel attempt last)
    (λ r w, ∃ l, w = set_net (λ n, n ++ l) w0 ∧ (length l <= fuel)%nat ∧
      attempts kind url batch payload (sw_net w0) l ∧
      post_outcome kind url batch payload (sw_net w) r)
    (λ _ _, False) (λ w, ∃ l, w = set_net (λ n, n ++ l) w0).
Proof.
  induction fuel as [|fuel IH]; intros attempt last w0 Hatt Hlast; cbn [post_loop].
  { destruct Hlast as [[? _]|(_ & Ho & _)]; [done|]. apply triple_ret. intros w ->. exists [].
    split_and!; [|simpl; lia|apply attempts_nil|done]. apply set_net_nil. }
  eapply triple_bind with (Q' := λ waited w, w = w0 ∧ (waited = false → 0 < attempt)).
  { prog_if E; zbool; [apply triple_sys|apply triple_ret]; intros w ->; try done.
    exists []. apply set_net_nil. }
  intros waited. apply triple_pure_r. intros Hwait. prog_if E.
  { apply triple_ret. intros w ->. exists [].
    destruct waited; [done|]. specialize (Hwait eq_refl).
    destruct Hlast as [(_ & ? & _)|(_ & Ho & e & He & Hr)]; [lia|].
    split_and!; [apply set_net_nil|simpl; lia|apply attempts_nil|].
    destruct last as [[st bd] err]. simpl in *. subst err. right. right. split; [done|].
    destruct Ho as [Ho|[[-> _]|[_ Ho]]]; [right; by exists e|by left|done]. }
  eapply triple_bind; [apply postOnce_spec|].
  intros [[st body] [e|]]; simpl.
  2:{ apply triple_ret. intros w (l & -> & Hl & Ho & _). exists l.
      split_and!; [done|destruct Hl as [->| ->]; simpl; lia|by apply attempts_one|done]. }
  prog_if E2; zbool.
  { apply triple_ret. intros w (l & -> & Hl & Ho & _). exists l.
    split_and!; [done|destruct Hl as [->| ->]; simpl; lia|by apply attempts_one|done]. }
  apply triple_start. intros w1 (l & -> & Hl & Ho & Hne & Hr).
  destruct (Hr e eq_refl E2) as [-> Hretr].
  eapply triple_conseq; [apply IH; [lia|right; split_and!; [lia|exact Ho|by exists e]]|done|..]; simpl.
  - intros r w (l & -> & Hlen & Hatt' & Ho'). exists (post_request url batch payload :: l).
    split_and!; [by rewrite set_net_app|simpl; lia| |done].
    apply (attempts_app _ _ _ _ _ [_] l); [by apply attempts_one; right|done|].
    intros [|x a] r' Heq _; [|by destruct a]. injection Heq as <-. rewrite app_nil_r. exact Hretr.
  - done.
  - intros w (l & ->). eexists. by rewrite set_net_app.
Qed.

(** [w] is [w0] after the requests of one [postWithRetry]. *)
Definition posted (s : Sender) (kind url batch payload : string) (w0 : sworld)
    (r : post_result) (w : sworld) : Prop :=
  ∃ l, w = set_net (λ n, n ++ l) w0 ∧ (length l <= Z.to_nat (s_retries s + 1))%nat ∧
    attempts kind url batch payload (sw_net w0) l ∧
    post_outcome kind url batch payload (sw_net w) r.

Definition reached (w0 w : sworld) : Prop := ∃ l, w = set_net (λ n, n ++ l) w0.

Lemma postWithRetry_spec s kind url batch payload w0 : 0 <= s_retries s →
  triple (λ w, w = w0) (postWithRetry parse valid_url server s kind url batch payload)
    (posted s kind url batch payload w0) (λ _ _, False) (reached w0).
Proof. intros Hs. apply post_loop_spec; [done|]. left. split_and!; [lia|done..]. Qed.

(** ** Delivery *)

(** The queue holds the batch. *)
Definition queued (kind batch payload : string) (w : sworld) : Prop :=
  ∃ name env, held name env w ∧ ev_Kind env = TrimSpace kind ∧ ev_Payload env = payload ∧
    ev_Priority env = deliveryPriority kind ∧ (TrimSpace batch ≠ "" → ev_ID env = TrimSpace batch).

(** What [deliver] reports, against the requests made since [net0] and the
    queue it leaves. *)
Definition deliver_post (s : Sender) (kind payload : string) (net0 : list request)
    (r : post_result) (w : sworld) : Prop :=
  ∃ batch l, let url := endpointFor s kind in
    sw_net w = net0 ++ l ∧ (length l <= Z.to_nat (s_retries s + 1))%nat ∧
    attempts kind url batch payload net0 l ∧
    match r.2 with
    | None => replied kind url batch payload (sw_net w) r.1.1 None
    | Some (DurableQueueError e) =>
      s_spool s = true ∧ isSpoolable (Some e) r.1.1 = true ∧ queued kind batch payload w
    | Some (ErrCommit _) => replied kind url batch payload (sw_net w) r.1.1 None
    | Some (ErrUnknownKind _) => url = ""
    | Some (ErrPersistBacklog _ e) => post_outcome kind url batch payload (sw_net w) (r.1, Some e)
    | Some (ErrDiscard e _) | Some e =>
      post_outcome kind url batch payload (sw_net w) (r.1, Some e) ∧
      (s_spool s = true → isSpoolable (Some e) r.1.1 = false)
    end.

Lemma post_outcome_error kind url batch payload net r e :
  post_outcome kind url batch payload net r → r.2 = Some e →
  match e with
  | ErrUnconfirmedDelivery _ | ErrInvalidDeliveryPayload _ | ErrIncompatible _ | ErrStatus _
  | ErrNet _ | ErrNewRequest | ErrContext => True
  | _ => False
  end.
Proof.
  destruct r as [[st body] err]. simpl. intros [H|[[_ [[b ->]| ->]]|[-> _]]] He; simplify_eq; try done.
  destruct H as (seen & rest & bd & _ & _ & H). apply check_reply_class in H.
  destruct H as [(?&->&_)|[[? ->]|[[-> _]|(?&->&_)]]]; done.
Qed.

Lemma post_outcome_ok kind url batch payload net r :
  post_outcome kind url batch payload net r → r.2 = None → replied kind url batch payload net r.1.1 None.
Proof. destruct r as [[st body] err]. simpl. intros [H|[[_ [[b Hb]|Hb]]|[Hb _]]] ->; done. Qed.

(** A batch that is not in the queue. *)
Lemma posted_post s kind batch payload w0 st body err (enq : option serror) w :
  posted s kind (endpointFor s kind) batch payload w0 (st, body, err) w →
  (enq = None → s_spool s = false) →
  deliver_post s kind payload (sw_net w0)
    (st, body, match enq with Some e => ErrPersistBacklog e <$> err | None => err end) w.
Proof.
  intros (l & -> & Hlen & Hatt & Ho) Henq.
  exists batch, l. cbv zeta. split_and!; [done|done|done|].
  destruct err as [e|].
  2:{ apply post_outcome_ok in Ho; [|done]. by destruct enq. }
  destruct enq as [e'|]; [exact Ho|]. cbn [fst snd].
  pose proof (post_outcome_error _ _ _ _ _ _ e Ho eq_refl) as Hc.
  specialize (Henq eq_refl). destruct e; try done; (split; [exact Ho|]); by rewrite Henq.
Qed.

Lemma reached_prefix w0 w : reached w0 w → sw_net w0 `prefix_of` sw_net w.
Proof. intros [l ->]. by exists l. Qed.

(** The two removals, made under [try]: only the queue changes. *)
Lemma try_removal (m : SM unit) w1 w2 (X : unit → sworld → Prop) :
  triple (λ w, sw_net w = sw_net w2) m X (λ _ w, sw_net w = sw_net w2) (λ w, sw_net w = sw_net w2) →
  (∀ a w, X a w → sw_net w = sw_net w2) → reached w1 w2 →
  triple (E:=serror) (λ w, w = w2) (try m) (λ _ w, sw_net w = sw_net w2) (λ _ _, False)
    (λ w, sw_net w1 `prefix_of` sw_net w).
Proof.
  intros Hm HX [l ->]. apply triple_try. eapply triple_conseq; [exact Hm| | | |].
  - by intros ? ->.
  - apply HX.
  - done.
  - intros w ->. by exists l.
Qed.

(** How [deliver] turns the outcome of the posts and of the removal into its
    result. *)
Lemma deliver_post_intro s kind batch payload w1 w2 l st body err w :
  s_spool s = true → w2 = set_net (λ n, n ++ l) w1 →
  (length l <= Z.to_nat (s_retries s + 1))%nat →
  attempts kind (endpointFor s kind) batch payload (sw_net w1) l → sw_net w = sw_net w2 →
  match err with
  | None | Some (ErrCommit _) =>
    replied kind (endpointFor s kind) batch payload (sw_net w2) st None
  | Some (DurableQueueError e) => isSpoolable (Some e) st = true ∧ queued kind batch payload w
  | Some (ErrUnknownKind _) | Some (ErrPersistBacklog _ _) => False
  | Some (ErrDiscard e _) | Some e =>
    post_outcome kind (endpointFor s kind) batch payload (sw_net w2) (st, body, Some e) ∧
    isSpoolable (Some e) st = false
  end → deliver_post s kind payload (sw_net w1) (st, body, err) w.
Proof.
  intros Hsp -> Hlen Hatt Hw He. exists batch, l. cbv zeta. rewrite Hw.
  split_and!; [done|done|done|]. cbn [fst snd].
  destruct err as [[]|]; first [exact He|done|destruct He; by split_and!].
Qed.

(** The rest of [deliver] once the envelope is in the queue. *)
Lemma deliver_queued s kind batch payload env receipt w1 :
  0 <= s_retries s → s_spool s = true →
  (∀ f, queued kind batch payload (set_net f w1)) →
  triple (λ w, w = w1)
    (' (status, body, err) <- postWithRetry parse valid_url server s kind (endpointFor s kind) batch payload;;
     match err with
     | None =>
       acked <- try (q_acknowledge q (ev_ID env) receipt);;
       match acked with
       | inl acknowledgeErr => retM (status, body, Some (ErrCommit acknowledgeErr))
       | inr _ => retM (status, body, None)
       end
     | Some e =>
       if negb (isSpoolable (Some e) status) then
         rejected <- try (q_reject q (ev_ID env) receipt);;
         match rejected with
         | inl rejectErr => retM (status, body, Some (ErrDiscard e rejectErr))
         | inr _ => retM (status, body, Some e)
         end
       else retM (status, body, Some (DurableQueueError e))
     end)
    (deliver_post s kind payload (sw_net w1)) (λ _ _, False) (λ w, sw_net w1 `prefix_of` sw_net w).
Proof using QueueLaws0.
  intros Hs Hsp Hq.
  eapply triple_bind; [eapply triple_conseq; [by apply (postWithRetry_spec _ _ _ _ _ w1)|done|..]|].
  { intros r w H. exact H. }
  { done. }
  { intros w [l ->]. by exists l. }
  intros [[st body] err]. apply triple_start. intros w (l & Hw2 & Hlen & Hatt & Ho).
  assert (Hr : reached w1 w) by by exists l.
  destruct err as [e|].
  - pose proof (post_outcome_error _ _ _ _ _ _ e Ho eq_refl) as Hc.
    prog_if E; zbool.
    + eapply triple_bind; [eapply (try_removal _ w1 w); [apply reject_law|by intros ?? []|done]|].
      intros [re|_]; apply triple_ret; intros w' Hw'; eapply deliver_post_intro; try done.
      destruct e; done.
    + apply triple_ret. intros w' ->. eapply deliver_post_intro; try done. by rewrite Hw2.
  - apply post_outcome_ok in Ho; [|done].
    eapply triple_bind; [eapply (try_removal _ w1 w); [apply acknowledge_law|by intros ?? []|done]|].
    intros [ae|_]; apply triple_ret; intros w' Hw'; by eapply deliver_post_intro.
Qed.

Lemma endpoint_nonempty s kind : endpointFor s kind ≠ "" → is_empty (endpointFor s kind) = false.
Proof. intros. by apply is_empty_false. Qed.

Lemma deliver_spec s kind batchID payload net0 : 0 <= s_retries s →
  triple (λ w, sw_net w = net0) (deliver parse valid_url server q s kind batchID payload)
    (deliver_post s kind payload net0) (λ _ _, False) (λ w, net0 `prefix_of` sw_net w).
Proof using QueueLaws0.
  intros Hs. unfold deliver. set (N w := sw_net w = net0).
  eapply triple_bind with (Q' := λ _, N).
  { prog_if E; [|by apply triple_ret]. eapply triple_nothrow; [unfold NewID; nothrow_tac|].
    eapply triple_conseq; [apply (preserves_NewID N); by intros|done|done|intros ? ? H; exact H|].
    by intros w ->. }
  intros batch. prog_if E.
  { apply triple_ret. intros w Hw. exists batch, []. cbv zeta. rewrite app_nil_r.
    split_and!; [done|simpl; lia|apply attempts_nil|]. by apply is_empty_true. }
  prog_if Hsp; zbool.
  { apply triple_start. intros w0 Hw0. unfold N in Hw0. subst net0. eapply triple_conseq;
      [by apply (postWithRetry_spec _ _ _ _ _ w0)|done| |done|apply reached_prefix].
    intros [[st body] err] w Hw. by apply (posted_post _ _ _ _ _ _ _ _ None) in Hw. }
  eapply triple_bind with (Q' := λ r w, N w ∧ match r with inl _ => True | inr (env, receipt) =>
    ∀ f, queued kind batch payload (set_net f w) end).
  { apply triple_try. eapply triple_conseq; [apply enqueue_law|done| |done|by intros w ->].
    intros [env name] w (Hw & Hh & Hk & Hpr & Hpl & Hid). split; [done|].
    intros f. by exists name, env. }
  intros [e|[env receipt]]; apply triple_start; intros w0 [Hw0 Hq]; unfold N in Hw0; subst net0.
  - eapply triple_bind; [eapply triple_conseq;
      [by apply (postWithRetry_spec _ _ _ _ _ w0)|done|intros r w H; exact H|done|apply reached_prefix]|].
    intros [[st body] err]. apply triple_ret. intros w Hw.
    by apply (posted_post _ _ _ _ _ _ _ _ (Some e)) in Hw.
  - by apply deliver_queued.
Qed.

(** ** Flushing the queue *)

(** The server has settled a message: it acknowledged a post of it, refused one
    with a status or an answer that no retry can change, or the agent has no
    endpoint for it. *)
Definition server_settled (s : Sender) (env : Envelope) (net : list request) : Prop :=
  let url := endpointFor s (ev_Kind env) in
  url = "" ∨ ∃ st err, replied (ev_Kind env) url (ev_ID env) (ev_Payload env) net st err ∧
    match err with
    | None => True
    | Some e => isPermanentDeliveryStatus st = true ∨ is_invalid_payload e = true
    end.

Lemma server_settled_verdict s : verdict (server_settled s).
Proof.
  split.
  - intros e l l' [k ->] [H|(st & err & H & He)]; [by left|right].
    exists st, err. split; [by apply replied_mono|done].
  - intros e e' l (H1 & H2 & _ & _ & H5). unfold server_settled. by rewrite H1, H2, H5.
Qed.

Lemma post_outcome_settled kind url batch payload net st body e :
  post_outcome kind url batch payload net (st, body, Some e) →
  isPermanentDeliveryStatus st || is_invalid_payload e = true →
  ∃ e', replied kind url batch payload net st (Some e') ∧
    (isPermanentDeliveryStatus st = true ∨ is_invalid_payload e' = true).
Proof.
  intros [H|[[-> H]|[[= ->] [->|(e' & H & _)]]]] Hp; [|destruct H as [[b [= ->]]|[= ->]]; done|done|].
  - exists e. split; [done|]. by apply orb_true_iff.
  - exists e'. split; [done|]. left. by apply orb_true_iff in Hp as [?|?].
Qed.

Lemma flush_settles s : 0 <= s_retries s →
  settles (server_settled s) (flush_deliver parse valid_url server s).
Proof.
  intros Hs env w0. unfold flush_deliver. prog_if E.
  { apply triple_ret. intros w ->. exists []. split; [apply set_net_nil|].
    intros _. left. by apply is_empty_true. }
  eapply triple_bind; [eapply triple_conseq; [by apply (postWithRetry_spec _ _ _ _ _ w0)|done|..]|].
  { intros r w H. exact H. }
  { done. }
  { done. }
  intros [[st body] err]. apply triple_ret. intros w (l & -> & _ & _ & Ho).
  exists l. split; [done|]. intros Hr. right. destruct err as [e|].
  - destruct (isPermanentDeliveryStatus st || is_invalid_payload e) eqn:Hp; [|done].
    destruct (post_outcome_settled _ _ _ _ _ _ _ _ Ho Hp) as (e' & H & He). by exists st, (Some e').
  - exists st, None. split; [|done]. by apply post_outcome_ok in Ho.
Qed.

Lemma Flush_spec s ctx w0 : 0 <= s_retries s →
  triple (λ w, w = w0) (Flush parse valid_url server q s ctx)
    (λ _, kept_or_settled opts (server_settled s) w0)
    (λ _, kept_or_settled opts (server_settled s) w0)
    (kept_or_settled opts (server_settled s) w0).
Proof using QueueLaws0.
  intros Hs. unfold Flush.
  assert (H0 : ∀ w, w = w0 → kept_or_settled opts (server_settled s) w0 w).
  { intros w ->. apply kept_start. }
  prog_if E; [by apply triple_ret|].
  eapply triple_bind with (Q' := λ _ w, w = w0); [by apply triple_gets|]. intros p.
  prog_if E2; [by apply triple_ret|].
  apply drain_law; [apply server_settled_verdict|by apply flush_settles].
Qed.
End delivery.

(** ** Sending events *)

(** Two events that differ in their identity only. *)
Definition same_event (e e' : NetEvent) : Prop := set_identity "" ∅ e = set_identity "" ∅ e'.

Lemma set_identity_same id extra e : same_event e (set_identity id extra e).
Proof. by destruct e. Qed.

(** The [k]-th batch of at most [mb] events. *)
Definition batch_of (mb : Z) (k : Z) (events : list NetEvent) : list NetEvent :=
  slice events (Z.to_nat (k * mb)) (Z.to_nat (Z.min ((k + 1) * mb) (Z.of_nat (length events)))).

Lemma slice_lt {A} (l1 l2 : list A) i j : (j <= length l1)%nat → slice (l1 ++ l2) i j = slice l1 i j.
Proof.
  intros Hj. unfold slice. destruct (decide (i <= length l1)%nat) as [Hi|Hi].
  - rewrite drop_app_le by done. rewrite take_app_le; [done|]. rewrite length_drop. lia.
  - replace (j - i)%nat with 0%nat by lia. by rewrite !take_0.
Qed.

Lemma slice_mid {A} (l1 l2 l3 : list A) i j : length l1 = i → (length l2 = j - i)%nat → (i <= j)%nat →
  slice (l1 ++ l2 ++ l3) i j = l2.
Proof.
  intros H1 H2 Hij. unfold slice. rewrite drop_app_length' by done.
  by rewrite take_app_length' by done.
Qed.

Lemma take_slice_drop {A} (l : list A) i j : (i <= j)%nat → take i l ++ slice l i j ++ drop j l = l.
Proof.
  intros Hij. unfold slice. rewrite <-(take_drop i l) at 4. f_equal.
  rewrite <-(take_drop (j - i) (drop i l)) at 2. f_equal. rewrite drop_drop. f_equal. lia.
Qed.

Section sending.
Context (parse : string → option json) (marshal_events : list NetEvent → option string).
Context (uuid_parse : string → option string) (valid_url : string → bool).
Context (server : list request → request → net_reply).
Context (opts : Options) (q : queue_ops) `{!QueueLaws opts q}.
#[local] Set Default Proof Using "Type".

Lemma ensure_spec event l :
  triple (λ w, sw_net w = l) (ensureEventIdentity uuid_parse event)
    (λ e w, sw_net w = l ∧ same_event event e) (λ _ _, False) (λ w, sw_net w = l).
Proof.
  unfold ensureEventIdentity. cbv zeta.
  eapply triple_bind with (Q' := λ _ w, sw_net w = l).
  - destruct (uuid_parse _); [by apply triple_ret|].
    eapply triple_nothrow; [unfold NewID; nothrow_tac|].
    eapply triple_conseq; [apply (preserves_NewID (λ w, sw_net w = l)); by intros|done|done| |done].
    intros ? ? H. exact H.
  - intros id. apply triple_ret. intros w Hw. split; [done|]. apply set_identity_same.
Qed.

Lemma ensure_all_spec events l :
  triple (λ w, sw_net w = l) (ensure_all uuid_parse events)
    (λ es w, sw_net w = l ∧ Forall2 same_event events es) (λ _ _, False) (λ w, sw_net w = l).
Proof.
  induction events as [|e events IH]; cbn [ensure_all]; [by apply triple_ret|].
  eapply triple_bind; [apply ensure_spec|]. intros e'. apply triple_pure_r. intros He.
  eapply triple_bind; [apply IH|]. intros es. apply triple_ret.
  intros w [Hw Hes]. split; [done|]. by constructor.
Qed.

(** The [k]-th batch was acknowledged. *)
Definition batch_confirmed (s : Sender) (events : list NetEvent) (net : list request) (k : Z) : Prop :=
  ∃ payload batch st, marshal_events (batch_of (s_maxBatch s) k events) = Some payload ∧
    replied parse server KindEvents (endpointFor s KindEvents) batch payload net st None.

Definition batch_queued (s : Sender) (events : list NetEvent) (w : sworld) (k : Z) : Prop :=
  ∃ payload batch, marshal_events (batch_of (s_maxBatch s) k events) = Some payload ∧
    queued KindEvents batch payload w.

(** What [SendEvents] reports on a batch list: [k] batches were acknowledged in
    order; it stopped there with an error, or the list is exhausted. *)
Definition send_post (s : Sender) (events0 : list NetEvent) (net0 : list request)
    (r : EventDeliveryResult * option send_error * list NetEvent) (w : sworld) : Prop :=
  let '(res, err, events) := r in
  let n := Z.of_nat (length events0) in
  net0 `prefix_of` sw_net w ∧ Forall2 same_event events0 events ∧
  ∃ k, 0 <= k ∧ er_Attempted res = n ∧ er_Delivered res = Z.min (k * s_maxBatch s) n ∧
    (∀ i, 0 <= i < k → batch_confirmed s events (sw_net w) i) ∧
    match err with
    | None => er_Delivered res = n ∧ er_Durable res = n
    | Some e => er_Delivered res < n ∧
        if IsDurablyQueued e
        then er_Durable res = Z.min ((k + 1) * s_maxBatch s) n ∧ batch_queued s events w k
        else er_Durable res = er_Delivered res
    end.

Lemma batch_confirmed_mono s events net l k :
  batch_confirmed s events net k → batch_confirmed s events (net ++ l) k.
Proof.
  intros (p & b & st & H & Hr). exists p, b, st. split; [done|]. by apply replied_mono.
Qed.

(** Replacing the events of one batch. *)
Lemma replace_batch mb k events batch :
  0 < mb → 0 <= k → k * mb < Z.of_nat (length events) →
  let i := Z.to_nat (k * mb) in
  let j := Z.to_nat (Z.min ((k + 1) * mb) (Z.of_nat (length events))) in
  Forall2 same_event (batch_of mb k events) batch →
  let events' := take i events ++ batch ++ drop j events in
  length events' = length events ∧ batch_of mb k events' = batch ∧
  (∀ a, 0 <= a < k → batch_of mb a events' = batch_of mb a events) ∧
  Forall2 same_event events events'.
Proof.
  intros Hmb Hk Hlt i j Hb events'. set (n := length events) in *.
  assert (Hij : (i <= j <= n)%nat) by (unfold i, j; lia).
  assert (Hlb : length batch = (j - i)%nat).
  { rewrite <-(Forall2_length _ _ _ Hb). unfold batch_of. fold n. fold i. fold j.
    apply length_slice; lia. }
  assert (Hti : length (take i events) = i) by (rewrite length_take; fold n; lia).
  assert (Hlen : length events' = n).
  { unfold events'. rewrite !length_app, length_drop, Hti, Hlb. fold n. lia. }
  split_and!; [done| | |].
  - unfold batch_of. rewrite Hlen. fold i j. apply slice_mid; [done|done|lia].
  - intros a Ha. unfold batch_of. rewrite Hlen. fold n. set (j' := Z.to_nat (Z.min ((a + 1) * mb) _)).
    assert (j' <= i)%nat by (unfold j', i; nia).
    unfold events'. rewrite (slice_lt (take i events)) by (rewrite Hti; lia).
    rewrite <-(take_drop i events) at 2. by rewrite (slice_lt (take i events)) by (rewrite Hti; lia).
  - rewrite <-(take_slice_drop events i j) at 1 by lia. unfold events'.
    assert (Hr : ∀ l, Forall2 same_event l l) by (induction l; by constructor).
    apply Forall2_app; [apply Hr|]. apply Forall2_app; [|apply Hr].
    unfold batch_of in Hb. by fold n i j in Hb.
Qed.

#[local] Instance same_event_trans : Transitive same_event.
Proof. intros a b c. unfold same_event. congruence. Qed.

(** The state of the loop after [k] batches. *)
Record send_inv (s : Sender) (events0 : list NetEvent) (net0 : list request) (k : Z)
    (events : list NetEvent) (res : EventDeliveryResult) (net : list request) : Prop := {
  si_k : 0 <= k;
  si_net : net0 `prefix_of` net;
  si_same : Forall2 same_event events0 events;
  si_attempted : er_Attempted res = Z.of_nat (length events0);
  si_delivered : er_Delivered res = Z.min (k * s_maxBatch s) (Z.of_nat (length events0));
  si_durable : er_Durable res = er_Delivered res;
  si_confirmed i : 0 <= i < k → batch_confirmed s events net i;
}.

Lemma send_inv_done s events0 net0 k events res w :
  send_inv s events0 net0 k events res (sw_net w) → Z.of_nat (length events0) <= k * s_maxBatch s →
  send_post s events0 net0 (res, None, events) w.
Proof. intros [] Hge. split_and!; [done..|]. exists k. split_and!; try done; lia. Qed.

(** The invariant after the events of the batch were given their identity. *)
Lemma send_inv_batch s events0 net0 k events res net batch :
  send_inv s events0 net0 k events res net → 0 < s_maxBatch s →
  k * s_maxBatch s < Z.of_nat (length events0) →
  Forall2 same_event (batch_of (s_maxBatch s) k events) batch →
  let i := Z.to_nat (k * s_maxBatch s) in
  let j := Z.to_nat (Z.min ((k + 1) * s_maxBatch s) (Z.of_nat (length events))) in
  let events' := take i events ++ batch ++ drop j events in
  send_inv s events0 net0 k events' res net ∧ batch_of (s_maxBatch s) k events' = batch.
Proof.
  intros [Hk Hn Hs Ha Hd Hdu Hc] Hmb Hlt Hb i j events'.
  pose proof (Forall2_length _ _ _ Hs) as Hlen.
  destruct (replace_batch (s_maxBatch s) k events batch) as (Hl & Hbk & Hold & Hsame); [lia..|done|].
  split; [|done]. split; try done.
  - by etrans.
  - intros a Ha'. destruct (Hc a Ha') as (p & b & st & Hm & Hr). exists p, b, st.
    unfold events', i, j. by rewrite Hold.
Qed.

Lemma send_inv_next s events0 net0 k events res net payload batch st status l :
  send_inv s events0 net0 k events res net → 0 < s_maxBatch s →
  k * s_maxBatch s < Z.of_nat (length events0) →
  marshal_events (batch_of (s_maxBatch s) k events) = Some payload →
  replied parse server KindEvents (endpointFor s KindEvents) batch payload (net ++ l) st None →
  let d := Z.min ((k + 1) * s_maxBatch s) (Z.of_nat (length events0)) - k * s_maxBatch s in
  send_inv s events0 net0 (k + 1) events
    (Build_EventDeliveryResult status (er_Attempted res) (er_Delivered res + d) (er_Durable res + d))
    (net ++ l).
Proof.
  intros [Hk Hn Hs Ha Hd Hdu Hc] Hmb Hlt Hm Hr d. split; simpl; try done; try lia.
  - etrans; [done|]. by exists l.
  - intros i Hi. destruct (decide (i = k)) as [->|]; [by exists payload, batch, st|].
    apply batch_confirmed_mono, Hc. lia.
Qed.

Lemma deliver_post_cases s kind payload net0 st body err w :
  deliver_post parse server s kind payload net0 (st, body, err) w → endpointFor s kind ≠ "" →
  ∃ batch l, sw_net w = net0 ++ l ∧
    match err with
    | None => replied parse server kind (endpointFor s kind) batch payload (sw_net w) st None
    | Some e => IsDurablyQueued e = true → queued kind batch payload w
    end.
Proof.
  intros (batch & l & Hn & _ & _ & H) Hne. exists batch, l. split; [done|]. cbn [fst snd] in H.
  destruct err as [[]|]; try done.
  - intros _. apply H.
  - intros Hd. pose proof (post_outcome_error _ _ _ _ _ _ _ _ _ H eq_refl) as Hc. by destruct err.
  - intros Hd. destruct H as [H _].
    pose proof (post_outcome_error _ _ _ _ _ _ _ _ _ H eq_refl) as Hc. by destruct err.
Qed.

Lemma endpoint_events s : endpointFor s KindEvents ≠ "".
Proof.
  change (endpointFor s KindEvents) with (s_baseURL s +:+ "/ingest/events").
  by destruct (s_baseURL s).
Qed.

(** The two ways the loop gives up. *)
Lemma send_inv_marshal s events0 net0 k events res w :
  send_inv s events0 net0 k events res (sw_net w) → 0 < s_maxBatch s →
  k * s_maxBatch s < Z.of_nat (length events0) →
  send_post s events0 net0 (res, Some ErrMarshalEvents, events) w.
Proof.
  intros [] Hmb Hlt. split_and!; [done..|]. exists k. split_and!; try done; simpl; lia.
Qed.

Lemma send_inv_error s events0 net0 k events res net payload bid l status e w :
  send_inv s events0 net0 k events res net → 0 < s_maxBatch s →
  k * s_maxBatch s < Z.of_nat (length events0) →
  marshal_events (batch_of (s_maxBatch s) k events) = Some payload → sw_net w = net ++ l →
  (IsDurablyQueued e = true → queued KindEvents bid payload w) →
  let d := Z.min ((k + 1) * s_maxBatch s) (Z.of_nat (length events0)) - k * s_maxBatch s in
  send_post s events0 net0
    (Build_EventDeliveryResult status (er_Attempted res) (er_Delivered res)
       (if IsDurablyQueued e then er_Durable res + d else er_Durable res), Some e, events) w.
Proof.
  intros [] Hmb Hlt Hm Hnet Hq d. split_and!; [|done|].
  { rewrite Hnet. etrans; [done|]. by exists l. }
  exists k. simpl. split_and!; try done; try lia.
  - intros i Hi. rewrite Hnet. by apply batch_confirmed_mono, si_confirmed0.
  - destruct (IsDurablyQueued e); [|done]. split; [lia|].
    exists payload, bid. split; [done|]. by apply Hq.
Qed.

Lemma send_loop_spec s events0 net0 fuel : 0 < s_maxBatch s → 0 <= s_retries s → ∀ k events res w0,
  Z.of_nat (length events0) - k * s_maxBatch s <= Z.of_nat fuel →
  send_inv s events0 net0 k events res (sw_net w0) →
  triple (λ w, w = w0)
    (send_loop parse marshal_events uuid_parse valid_url server q s fuel (k * s_maxBatch s) events res)
    (send_post s events0 net0) (λ _ _, False) (λ w, net0 `prefix_of` sw_net w).
Proof using QueueLaws0.
  intros Hmb Hret. induction fuel as [|fuel IH]; intros k events res w0 Hfuel Hinv; cbn [send_loop].
  { apply triple_ret. intros w ->. eapply send_inv_done; [done|]. lia. }
  pose proof (Forall2_length _ _ _ (si_same _ _ _ _ _ _ _ Hinv)) as Hlen.
  prog_if E; zbool.
  { apply triple_ret. intros w ->. eapply send_inv_done; [done|]. lia. }
  set (mb := s_maxBatch s) in *.
  replace (if Z.of_nat (length events) <? k * mb + mb then Z.of_nat (length events) else k * mb + mb)
    with (Z.min ((k + 1) * mb) (Z.of_nat (length events))) by (case_match; zbool; lia).
  eapply triple_bind; [eapply triple_conseq;
    [apply (ensure_all_spec _ (sw_net w0))|by intros w ->|intros es w H; exact H|done|]|].
  { intros w ->. apply (si_net _ _ _ _ _ _ _ Hinv). }
  intros batch. apply triple_pure_r. intros Hb.
  destruct (send_inv_batch _ _ _ _ _ _ _ batch Hinv Hmb) as [Hinv' Hbk]; [fold mb; lia|exact Hb|].
  fold mb in Hinv', Hbk.
  match type of Hinv' with send_inv _ _ _ _ ?e _ _ => set (events' := e) in * end.
  destruct (marshal_events batch) as [payload|] eqn:Hm.
  2:{ apply triple_ret. intros w Hw. apply (send_inv_marshal _ _ _ k); [by rewrite Hw|done|].
      fold mb. lia. }
  eapply triple_bind; [eapply triple_conseq;
    [apply (deliver_spec parse valid_url server opts q s KindEvents "" payload (sw_net w0) Hret)
    |done|intros r w H; exact H|done|]|].
  { intros w Hw. etrans; [apply (si_net _ _ _ _ _ _ _ Hinv)|done]. }
  intros [[status body] err]. apply triple_start. intros w1 Hw1.
  apply deliver_post_cases in Hw1 as (bid & l & Hnet & Hcase); [|apply endpoint_events].
  rewrite <-Hbk in Hm. rewrite <-Hlen. destruct err as [e|].
  - apply triple_ret. intros w ->. eapply send_inv_error; try done. fold mb. lia.
  - replace (k * mb + mb) with ((k + 1) * mb) by lia. apply IH; [fold mb; lia|].
    rewrite Hnet in *. eapply send_inv_next; try done. fold mb. lia.
Qed.

Lemma SendEvents_spec s events w0 : 0 < s_maxBatch s → 0 <= s_retries s → s_baseURL s ≠ "" →
  triple (λ w, w = w0) (SendEvents parse marshal_events uuid_parse valid_url server q s events)
    (send_post s events (sw_net w0)) (λ _ _, False) (λ w, sw_net w0 `prefix_of` sw_net w).
Proof using QueueLaws0.
  intros Hmb Hret Hurl. unfold SendEvents. apply is_empty_false in Hurl. rewrite Hurl.
  set (res := Build_EventDeliveryResult 0 _ 0 0).
  assert (Hinv : send_inv s events (sw_net w0) 0 events res (sw_net w0)).
  { split; try done; [by induction events; constructor|simpl; lia|lia]. }
  destruct (length events =? 0)%nat eqn:Hn.
  - apply triple_ret. intros w ->. eapply send_inv_done; [exact Hinv|]. apply Nat.eqb_eq in Hn. lia.
  - apply (send_loop_spec s events (sw_net w0) (length events) Hmb Hret 0 events res w0); [lia|done].
Qed.

(** ** The theorems *)

(** C2: delivery is at least once.  Whatever the server answers, whatever
    system calls fail and wherever the process is killed: [deliver] makes at
    most [retries]+1 requests, all for the same batch identifier and payload,
    each after the first because the previous answer called for a retry; it
    reports success only when the server acknowledged the batch; when it
    reports the batch as durably queued, the queue holds it; and it discards a
    queued batch only on an outcome [isSpoolable] refuses. *)
Theorem deliver_outcome s kind batchID payload v w :
  0 <= s_retries s →
  match deliver parse valid_url server q s kind batchID payload v w with
  | (Ok r, _, w') => deliver_post parse server s kind payload (sw_net w) r w'
  | (Err _, _, _) => False
  | (Crashed, _, w') => sw_net w `prefix_of` sw_net w'
  end.
Proof using QueueLaws0. 
  intros Hs.
  exact (deliver_spec parse valid_url server opts q s kind batchID payload (sw_net w) Hs v w eq_refl).
Qed.


(** The delivery result is exact.  [SendEvents] sends the events in order
    in batches of at most [maxBatch], changing their identity only; the
    delivered count is the number of events in the batches the server
    acknowledged, all of them when there is no error; the durable count adds
    the failing batch exactly when it is in the queue. *)
Theorem SendEvents_accounts s events v w :
  0 < s_maxBatch s → 0 <= s_retries s → s_baseURL s ≠ "" →
  match SendEvents parse marshal_events uuid_parse valid_url server q s events v w with
  | (Ok r, _, w') => send_post s events (sw_net w) r w'
  | (Err _, _, _) => False
  | (Crashed, _, w') => sw_net w `prefix_of` sw_net w'
  end.
Proof using QueueLaws0.
  intros Hmb Hret Hurl. pose proof (SendEvents_spec s events w Hmb Hret Hurl v w eq_refl) as H.
  by destruct (SendEvents _ _ _ _ _ _ _ _ v w) as [[[]?]?].
Qed.

End sending.

Section verdicts.
Context (parse : string → option json).

(** A retained batch is never discarded by its own answer.  Of the answers
    that are not an acknowledgement, those on which [deliver] keeps the batch
    are not permanent failures for [Flush]; the converse fails exactly for the
    statuses below 500 that neither list names, which [deliver] discards and
    [Flush] tries again. *)
Theorem flush_retries_what_deliver_keeps kind payload status body e :
  check_reply parse kind payload status body = Some e →
  let permanent := isPermanentDeliveryStatus status || is_invalid_payload e in
  (isSpoolable (Some e) status = true → permanent = false) ∧
  (isSpoolable (Some e) status = false ∧ permanent = false ↔
    e = ErrStatus status ∧ status ≠ 0 ∧ status < 500 ∧
    status ∉ [401; 403; 408; 409; 423; 425; 426; 429] ∧
    status ∉ [400; 404; 405; 410; 413; 414; 415; 422; 426; 431]).
Proof.
  intros He permanent. subst permanent.
  assert (Hin : ∀ l, existsb (Z.eqb status) l = true ↔ status ∈ l).
  { intros l. rewrite existsb_exists, list_elem_of_In. split.
    - intros (x & Hx & ->%Z.eqb_eq). done.
    - intros Hx. exists status. split; [done|apply Z.eqb_refl]. }
  apply check_reply_class in He as
    [(i & -> & ->)|[(m & ->)|[(-> & H426 & Hst)|(m & -> & Hst)]]].
  - split; [done|]. split; [by intros [_ ?]|]. intros (? & _). done.
  - unfold isSpoolable. simpl. rewrite orb_true_r. split; [done|]. naive_solver.
  - unfold isSpoolable, isPermanentDeliveryStatus. simpl is_invalid_payload. simpl is_incompatible.
    simpl is_unconfirmed. cbn iota. rewrite orb_false_r.
    set (ls := [401; _; _; _; _; _; _; _]). set (lp := [400; _; _; _; _; _; _; _; _; _]).
    assert (Hls : status ∈ ls → 400 < status < 500 ∧ status ∉ lp).
    { unfold ls, lp. rewrite !elem_of_cons, !elem_of_nil. lia. }
    assert (Hlp : status ∈ lp → 399 < status < 500).
    { unfold lp. rewrite !elem_of_cons, !elem_of_nil. lia. }
    pose proof (Hin ls) as Hins. pose proof (Hin lp) as Hinp.
    destruct (existsb (Z.eqb status) lp), (status =? 0) eqn:H0,
      (existsb (Z.eqb status) ls), (500 <=? status) eqn:H5; zbool; naive_solver lia.
  - unfold isSpoolable, isPermanentDeliveryStatus. simpl is_unconfirmed. cbn iota. split.
    + intros _. rewrite orb_false_r. apply not_true_is_false. rewrite Hin.
      rewrite !elem_of_cons, !elem_of_nil. lia.
    + split; [by intros [? _]|by intros (? & _)].
Qed.

Lemma explicit_true a d : explicitAcknowledgement a d = true ↔ a = Some true ∧ d = Some true.
Proof. destruct a as [[]|], d as [[]|]; naive_solver. Qed.

Lemma count_true (o : option Z) n :
  match o with Some m => m =? n | None => false end = true ↔ o = Some n.
Proof. destruct o; [|done]. rewrite Z.eqb_eq. naive_solver. Qed.

(** The three kinds have the same shape: two documents and a test. *)
Lemma ack_shape {P A} (p : option P) (a : option A) (test : P → A → bool) e1 e2 e3 :
  match p with
  | None => Some (ErrInvalidDeliveryPayload e1)
  | Some x => match a with
    | None => Some (ErrUnconfirmedDelivery e2)
    | Some y => if test x y then None else Some (ErrUnconfirmedDelivery e3)
    end
  end = None ↔ ∃ x y, p = Some x ∧ a = Some y ∧ test x y = true.
Proof.
  split.
  - destruct p as [x|]; [|done]. destruct a as [y|]; [|done].
    destruct (test x y) eqn:E; [|done]. by exists x, y.
  - intros (x & y & -> & -> & E). by rewrite E.
Qed.

(** Confirmation is explicit.  A reply counts as delivery exactly when its
    status is 2xx, the payload is what its kind promises and the answer decodes
    to an acknowledgement with [accepted] and [durable] both present and true
    and, for events and findings, the number of items sent. *)
Theorem confirmation_is_explicit kind payload status body :
  check_reply parse kind payload status body = None ↔
  200 <= status < 300 ∧
  ((TrimSpace kind = KindEvents ∧ ∃ events ack,
     unmarshal parse dec_raw_slice [] payload = Some events ∧
     unmarshal parse (dec_struct fields_event_ack) zero_event_ack body = Some ack ∧
     ea_Accepted ack = Some true ∧ ea_Durable ack = Some true ∧
     ea_Received ack = Some (Z.of_nat (length events))) ∨
   (TrimSpace kind = KindInventory ∧ ∃ snapshot ack,
     unmarshal parse dec_map [] payload = Some snapshot ∧
     unmarshal parse (dec_struct fields_inventory_ack) zero_inventory_ack body = Some ack ∧
     ia_Accepted ack = Some true ∧ ia_Durable ack = Some true) ∨
   (TrimSpace kind = KindVuln ∧ ∃ findings ack,
     unmarshal parse (dec_struct fields_vuln_batch) [] payload = Some findings ∧
     unmarshal parse (dec_struct fields_vuln_ack) zero_vuln_ack body = Some ack ∧
     va_Accepted ack = Some true ∧ va_Durable ack = Some true ∧
     va_ReceivedFindings ack = Some (Z.of_nat (length findings)))).
Proof.
  unfold check_reply. destruct ((status <? 200) || (300 <=? status)) eqn:E.
  { split; [by case_match|]. intros [? _]. apply orb_true_iff in E as [?|?]; zbool; lia. }
  zbool. unfold validateAcknowledgement. set (k := TrimSpace kind).
  assert (KindEvents ≠ KindInventory ∧ KindEvents ≠ KindVuln ∧ KindInventory ≠ KindVuln)
    as (Hn1 & Hn2 & Hn3) by done.
  destruct (str_eqb k KindEvents) eqn:H1; [|destruct (str_eqb k KindInventory) eqn:H2;
    [|destruct (str_eqb k KindVuln) eqn:H3]].
  4:{ apply str_eqb_neq in H1, H2, H3. naive_solver. }
  all: repeat match goal with
    | H : str_eqb _ _ = true |- _ => apply str_eqb_eq in H
    | H : str_eqb _ _ = false |- _ => apply str_eqb_neq in H end.
  - rewrite (ack_shape _ _ (λ evs ack, explicitAcknowledgement (ea_Accepted ack) (ea_Durable ack) &&
      match ea_Received ack with Some n => n =? Z.of_nat (length evs) | None => false end)).
    setoid_rewrite andb_true_iff. setoid_rewrite explicit_true. setoid_rewrite count_true. split.
    + intros (x & y & ? & ? & [??] & ?). split; [lia|]. left. split; [done|]. by exists x, y.
    + intros [_ [(?&Hex)|[(?&Hex)|(?&Hex)]]]; 
        first [congruence|destruct Hex as (x & y & ? & ? & ? & ? & ?); by exists x, y].
  - rewrite (ack_shape _ _ (λ _ ack, explicitAcknowledgement (ia_Accepted ack) (ia_Durable ack))).
    setoid_rewrite explicit_true. split.
    + intros (x & y & ? & ? & [??]). split; [lia|]. right. left. split; [done|]. by exists x, y.
    + intros [_ [(?&Hex)|[(?&Hex)|(?&Hex)]]]; 
        first [congruence|destruct Hex as (x & y & ? & ? & ? & ?); by exists x, y].
  - rewrite (ack_shape _ _ (λ fs ack, explicitAcknowledgement (va_Accepted ack) (va_Durable ack) &&
      match va_ReceivedFindings ack with Some n => n =? Z.of_nat (length fs) | None => false end)).
    setoid_rewrite andb_true_iff. setoid_rewrite explicit_true. setoid_rewrite count_true. split.
    + intros (x & y & ? & ? & [??] & ?). split; [lia|]. right; right. split; [done|]. by exists x, y.
    + intros [_ [(?&Hex)|[(?&Hex)|(?&Hex)]]]; 
        first [congruence|destruct Hex as (x & y & ? & ? & ? & ? & ?); by exists x, y].
Qed.
End verdicts.

(** ** Concrete runs *)

(** A server that acknowledges, one that is overloaded once and then
    acknowledges, and one whose 200 carries no acknowledgement. *)
Definition ack_doc : json := JObj [("accepted", JBool true); ("durable", JBool true); ("received", JInt 1)].
Definition demo_parse (s : string) : option json :=
  if str_eqb s "ack" then Some ack_doc else if str_eqb s "[e]" then Some (JArr [JNull])
  else if str_eqb s "{}" then Some (JObj []) else None.
Definition demo_events (l : list NetEvent) : option string := Some "[e]".
Definition demo_uuid (s : string) : option string := if str_in s ["a"; "b"] then Some s else None.
Definition any_url (s : string) : bool := true.
Definition acking (seen : list request) (r : request) : net_reply := Response 200 "ack".
Definition busy_once (seen : list request) (r : request) : net_reply :=
  match seen with [] => Response 503 "" | _ => Response 200 "ack" end.
Definition unconfirming (seen : list request) (r : request) : net_reply := Response 200 "{}".

Definition demo_sender : Sender := SetSpool true (New "https://s/ " 1 "agent").
Definition demo_queue : queue_ops :=
  spool_queue plain_name plain_token env_len (Build_Options "/spool" 1000 hour 10).
Definition demo_event : NetEvent := Build_NetEvent "" "a" "conn" 1 0 "" "" 0 0 "" 0 None.

Lemma deliver_outcome_witness :
  ∃ r v' w', deliver demo_parse any_url busy_once demo_queue demo_sender KindEvents "" "[e]"
      (quiet hour) (empty_spool ["a"; "b"]) = (Ok r, v', w') ∧
    r = (200, "ack", None) ∧ length (sw_net w') = 2%nat ∧ sw_dir w' = ∅ ∧
    deliver_post demo_parse busy_once demo_sender KindEvents "[e]" [] r w'.
Proof.
  pose proof (deliver_outcome demo_parse any_url busy_once (Build_Options "/spool" 1000 hour 10)
    demo_queue demo_sender KindEvents "" "[e]" (quiet hour) (empty_spool ["a"; "b"]) ltac:(done)) as H.
  eexists _, _, _. split; [vm_compute; reflexivity|]. split; [done|]. split; [done|]. split; [done|].
  exact H.
Defined.

(** An event keeps its identity.  Once it has one, its identifier and its
    copy in [extra] are canonical and giving it an identity again changes
    nothing and draws no random number, so a batch that is sent again is the
    same batch. *)
Theorem identity_is_stable (uuid_parse : string → option string) event v w e v' w' :
  (∀ x u, uuid_parse x = Some u → TrimSpace u = u ∧ u ≠ "" ∧ uuid_parse u = Some u) →
  sw_ids w ≠ [] → (∀ x, x ∈ sw_ids w → uuid_parse x = Some x) →
  ensureEventIdentity uuid_parse event v w = (Ok e, v', w') →
  uuid_parse (ne_EventID e) = Some (ne_EventID e) ∧
  (∃ extra, ne_Extra e = Some extra ∧ extra !! "event_id" = Some (JStr (ne_EventID e))) ∧
  ∀ v2 w2, ensureEventIdentity uuid_parse e v2 w2 = (Ok e, v2, w2).
Proof.
  intros Hcanon Hne Hids Hrun.
  assert (∃ id extra, e = set_identity id extra event ∧ uuid_parse id = Some id) as (id & extra & -> & Hid).
  { revert Hrun. unfold ensureEventIdentity. cbv zeta. unfold bindM, retM, NewID, gets, modify.
    destruct (uuid_parse _) as [u|] eqn:Hu.
    - intros H. injection H as <- _ _. apply Hcanon in Hu as (_ & _ & Hu). eauto.
    - destruct (sw_ids w) as [|x ids] eqn:Hx; [done|]. intros H.
      cbn in H. rewrite Hx in H. cbn in H. injection H as <- _ _.
      eexists _, _. split; [done|]. apply Hids. by left. }
  destruct (Hcanon _ _ Hid) as (Htrim & Hnonempty & _). apply is_empty_false in Hnonempty.
  destruct event as [i0 a t sv ts si di sp dp pr by0 ex]. simpl. split_and!; [done| |].
  - eexists. split; [done|]. apply lookup_insert_eq.
  - intros v2 w2. unfold ensureEventIdentity. simpl. rewrite Htrim, Hnonempty, Hid.
    unfold bindM, retM. simpl. by rewrite insert_insert_eq.
Qed.

Lemma identity_is_stable_witness :
  let e := set_identity "a" ∅ demo_event in
  demo_uuid (ne_EventID e) = Some (ne_EventID e) ∧
  (∃ extra, ne_Extra e = Some extra ∧ extra !! "event_id" = Some (JStr (ne_EventID e))) ∧
  ∀ v2 w2, ensureEventIdentity demo_uuid e v2 w2 = (Ok e, v2, w2).
Proof.
  apply (identity_is_stable demo_uuid demo_event (quiet 0) (empty_spool ["a"]) _ (quiet 0) (empty_spool [])).
  - intros x u. unfold demo_uuid. destruct (str_in x _) eqn:E; [|done]. intros [= <-].
    apply str_in_elem in E. rewrite !elem_of_cons, elem_of_nil in E.
    destruct E as [->|[->|[]]]; (split; [done|split; [done|reflexivity]]).
  - done.
  - intros x [->|[]%elem_of_nil]%elem_of_cons. reflexivity.
  - reflexivity.
Defined.

(** A cancelled backoff discards the batch.  When the server answered 2xx
    without an acknowledgement and the context is cancelled before the retry,
    [deliver] reports the context's error; unlike the unconfirmed delivery it
    stands for, [isSpoolable] refuses that error, and the batch, which no
    answer confirmed, is removed from the queue. *)
Theorem cancelled_backoff_discards :
  (∀ st m, 200 <= st < 300 → isSpoolable (Some (ErrUnconfirmedDelivery m)) st = true ∧
     isSpoolable (Some ErrContext) st = false) ∧
  check_reply demo_parse KindEvents "[e]" 200 "{}" ≠ None ∧
  ∃ v' w', deliver demo_parse any_url unconfirming demo_queue demo_sender KindEvents "b" "[e]"
      (Env (repeat FOk 21 ++ [FErr]) [hour]) (empty_spool ["t"]) =
      (Ok (200, "{}", Some ErrContext), v', w') ∧
    sw_dir w' = ∅ ∧ length (sw_net w') = 1%nat ∧ st_EnqueuedTotal (sw_count w') = 1 ∧
    st_PermanentTotal (sw_count w') = 1.
Proof.
  split_and!.
  - intros st m Hst. unfold isSpoolable. simpl. split; [done|].
    repeat (destruct (st =? _) eqn:?; zbool; [lia|]). simpl. apply Z.leb_gt. lia.
  - done.
  - eexists _, _. split; [vm_compute; reflexivity|]. by split_and!.
Qed.

(** ** Witnesses *)

Definition queued_env : Envelope := Build_Envelope "b" "events" 10 hour 0 "[e]".
Definition queued_world : sworld :=
  SW {["1.spool.json" := entry_file queued_env 103 hour]} None ["t"] ∅
     (Build_Stats 1 103 1 0 0 0 0 0 0 0 0) [].


Lemma SendEvents_accounts_witness :
  ∃ r v' w', SendEvents demo_parse demo_events demo_uuid any_url acking demo_queue demo_sender
      [demo_event; demo_event] (quiet hour) (empty_spool ["a"; "b"; "c"; "d"; "e"; "f"]) = (Ok r, v', w') ∧
    r.1 = (Build_EventDeliveryResult 200 2 2 2, None) ∧
    send_post demo_parse demo_events acking demo_sender [demo_event; demo_event] [] r w'.
Proof.
  pose proof (SendEvents_accounts demo_parse demo_events demo_uuid any_url acking
    (Build_Options "/spool" 1000 hour 10) demo_queue demo_sender [demo_event; demo_event] (quiet hour)
    (empty_spool ["a"; "b"; "c"; "d"; "e"; "f"]) ltac:(done) ltac:(done) ltac:(done)) as H.
  assert (∃ r v' w', SendEvents demo_parse demo_events demo_uuid any_url acking demo_queue demo_sender
      [demo_event; demo_event] (quiet hour) (empty_spool ["a"; "b"; "c"; "d"; "e"; "f"]) = (Ok r, v', w') ∧
    r.1 = (Build_EventDeliveryResult 200 2 2 2, None)) as (r & v' & w' & Hrun & Hr).
  { eexists _, _, _. split; [vm_compute; reflexivity|done]. }
  rewrite Hrun in H. exists r, v', w'. split; [exact Hrun|]. split; [exact Hr|]. exact H.
Defined.

Lemma flush_retries_what_deliver_keeps_witness :
  check_reply demo_parse KindEvents "[e]" 402 "" = Some (ErrStatus 402) ∧
  (isSpoolable (Some (ErrStatus 402)) 402 = false ∧
   isPermanentDeliveryStatus 402 || is_invalid_payload (ErrStatus 402) = false).
Proof.
  split; [reflexivity|].
  apply (flush_retries_what_deliver_keeps demo_parse KindEvents "[e]" 402 ""); [reflexivity|].
  split_and!; [done|lia|lia| |]; rewrite !elem_of_cons, !elem_of_nil; lia.
Defined.
