(* ===== verification/Client.v ===== *)
(** * Client: the control plane client (internal/controlplane/client.go)

    Every call of the client is a sequence of requests, each with its answer.
    The world keeps the requests sent, in order, and the answers still to come:
    the failure of the transport, the failure to read the body, or a status and
    a body.  A request that has left can be the last act of the process.
    [encoding/json]'s encoder and scanner, the decoding of response actions and
    the URLs [http.NewRequest] accepts are parameters. *)

From stdpp Require Import pretty.
From S2P Require Journal.
From S2P Require Import Prelude GoStr GoText Effects GoJson Protocol.
From Stdlib Require Import Ascii NArith.

Local Open Scope Z_scope.
Local Open Scope go_scope.

(** ** Valid UTF-8 *)

(** [strings.ToValidUTF8(s, "\uFFFD")]: one replacement per run of invalid bytes. *)
Definition replacement : list ascii := map ascii_of_nat [239; 191; 189]%nat.

Fixpoint valid_utf8 (skip : nat) (bad : bool) (l : list ascii) : list ascii :=
  match l with
  | [] => []
  | a :: l' =>
    match skip with
    | S skip => a :: valid_utf8 skip false l'
    | O =>
      match rune_width l with
      | O => (if bad then [] else replacement) ++ valid_utf8 0 true l'
      | S w => a :: valid_utf8 w false l'
      end
    end
  end.

Definition ToValidUTF8 (s : string) : string := of_chars (valid_utf8 0 false (to_chars s)).

(** ** Errors *)

Definition maxResponseBytes : Z := 4 * 2 ^ 20.
Definition maxErrorBodyBytes : Z := 4 * 2 ^ 10.

Definition blank_control (a : ascii) : ascii :=
  if N.ltb (code a) 32 || N.eqb (code a) 127 then " "%char else a.

Definition responseExcerpt (body : string) : string :=
  let trimmed := TrimSpace body in
  let truncated := maxErrorBodyBytes <? strlen trimmed in
  let trimmed := if truncated then str_take (Z.to_nat maxErrorBodyBytes) trimmed else trimmed in
  let value := of_chars (map blank_control (to_chars (ToValidUTF8 trimmed))) in
  let value := Join (Fields value) " " in
  let value := if is_empty value then "<empty>" else value in
  if truncated then value +:+ " [truncated]" else value.

Record HTTPError := { he_Operation : string; he_StatusCode : Z; he_Body : string }.

Definition newHTTPError (operation : string) (statusCode : Z) (body : string) : HTTPError :=
  {| he_Operation := operation; he_StatusCode := statusCode; he_Body := responseExcerpt body |}.

Definition HTTPError_Error (e : HTTPError) : string :=
  he_Operation e +:+ " failed status=" +:+ pretty (he_StatusCode e) +:+ " body=" +:+ he_Body e.

(** What [errors.As] distinguishes in an error of the client. *)
Inductive cerror :=
  | CText (text : string)
  | CHTTP (e : HTTPError)
  | CIncompatible (i : Incompatibility).

(** ** Requests and answers *)

Record request := { q_Method : string; q_URL : string; q_Headers : list (string * string); q_Body : option string }.

Inductive answer :=
  | NetError (text : string)
  | ReadError (text : string)
  | Answer (status : Z) (body : string).

Record cworld := CW { cw_log : list request; cw_answers : list answer }.
Definition CM : Type → Type := M cworld cerror.

Definition put_request (r : request) (w : cworld) : cworld := CW (cw_log w ++ [r]) (cw_answers w).
Definition pop_answer (w : cworld) : cworld := CW (cw_log w) (tail (cw_answers w)).
Definition next_answer (w : cworld) : answer := default (NetError "no answer") (head (cw_answers w)).

(** [http.Client.Do] and the body of the response, read up to the limit.  [name]
    is the operation the errors name. *)
Definition receive (name : string) (a : answer) : CM (Z * string) :=
  match a with
  | NetError text => throw (CText (name +:+ " request: " +:+ text))
  | ReadError text => throw (CText (name +:+ " response: " +:+ text))
  | Answer status body =>
    if maxResponseBytes <? strlen body
    then throw (CText (name +:+ " response: body exceeds " +:+ pretty maxResponseBytes +:+ " bytes"))
    else retM (status, body)
  end.

Definition exchange (name : string) (r : request) : CM (Z * string) :=
  modify (put_request r);;;
  ok <- sys id;;
  a <- gets next_answer;;
  modify pop_answer;;;
  if negb ok then throw (CText (name +:+ " request: failed")) else receive name a.

(** ** Wire types of enrollment (protocol/enrollment.go) *)

Record Credential := {
  cr_Credential : string;
  cr_ExpiresAt : string;
  cr_MaxUses : Z;
  cr_UsedUses : Z;
  cr_RenewalToken : string;
  cr_RenewalTokenExpiresAt : string;
}.

Record CertificateRenewal := {
  cn_AgentID : string;
  cn_CertificatePEM : string;
  cn_CAPEM : string;
  cn_ServerCAPEM : string;
  cn_SerialHex : string;
  cn_NotBefore : string;
  cn_NotAfter : string;
}.

Record EnrollRequest := {
  eq_EnrollmentID : string;
  eq_AgentID : string;
  eq_Hostname : string;
  eq_OS : string;
  eq_Arch : string;
  eq_Version : string;
  eq_ProtocolVersion : Z;
  eq_Profile : string;
  eq_CSRPEM : string;
  (** not encoded *)
  eq_BootstrapToken : string;
}.

Record EnrollResponse := {
  es_AgentID : string;
  es_Config : option json;
  es_Credential : Credential;
  es_Certificate : option CertificateRenewal;
  es_Protocol : option Descriptor;
}.

Definition zero_Credential : Credential := Build_Credential "" "" 0 0 "" "".
Definition zero_CertificateRenewal : CertificateRenewal := Build_CertificateRenewal "" "" "" "" "" "" "".
Definition zero_Descriptor : Descriptor := Build_Descriptor 0 0 0 0 0 0 "".
Definition zero_EnrollResponse : EnrollResponse := Build_EnrollResponse "" None zero_Credential None None.

Definition fields_Credential : fields Credential := [
  ("credential", on_field cr_Credential (λ x '(Build_Credential _ b c d e f), Build_Credential x b c d e f) dec_string);
  ("expires_at", on_field cr_ExpiresAt (λ x '(Build_Credential a _ c d e f), Build_Credential a x c d e f) dec_string);
  ("max_uses", on_field cr_MaxUses (λ x '(Build_Credential a b _ d e f), Build_Credential a b x d e f) dec_int);
  ("used_uses", on_field cr_UsedUses (λ x '(Build_Credential a b c _ e f), Build_Credential a b c x e f) dec_int);
  ("renewal_token", on_field cr_RenewalToken (λ x '(Build_Credential a b c d _ f), Build_Credential a b c d x f) dec_string);
  ("renewal_token_expires_at", on_field cr_RenewalTokenExpiresAt
     (λ x '(Build_Credential a b c d e _), Build_Credential a b c d e x) dec_string)].

Definition fields_CertificateRenewal : fields CertificateRenewal := [
  ("agent_id", on_field cn_AgentID
     (λ x '(Build_CertificateRenewal _ b c d e f g), Build_CertificateRenewal x b c d e f g) dec_string);
  ("certificate_pem", on_field cn_CertificatePEM
     (λ x '(Build_CertificateRenewal a _ c d e f g), Build_CertificateRenewal a x c d e f g) dec_string);
  ("ca_pem", on_field cn_CAPEM
     (λ x '(Build_CertificateRenewal a b _ d e f g), Build_CertificateRenewal a b x d e f g) dec_string);
  ("server_ca_pem", on_field cn_ServerCAPEM
     (λ x '(Build_CertificateRenewal a b c _ e f g), Build_CertificateRenewal a b c x e f g) dec_string);
  ("serial_hex", on_field cn_SerialHex
     (λ x '(Build_CertificateRenewal a b c d _ f g), Build_CertificateRenewal a b c d x f g) dec_string);
  ("not_before", on_field cn_NotBefore
     (λ x '(Build_CertificateRenewal a b c d e _ g), Build_CertificateRenewal a b c d e x g) dec_string);
  ("not_after", on_field cn_NotAfter
     (λ x '(Build_CertificateRenewal a b c d e f _), Build_CertificateRenewal a b c d e f x) dec_string)].

Definition fields_Descriptor : fields Descriptor := [
  ("protocol_version", on_field d_ProtocolVersion
     (λ x '(Build_Descriptor _ b c d e f g), Build_Descriptor x b c d e f g) dec_int);
  ("min_supported", on_field d_MinSupported
     (λ x '(Build_Descriptor a _ c d e f g), Build_Descriptor a x c d e f g) dec_int);
  ("max_supported", on_field d_MaxSupported
     (λ x '(Build_Descriptor a b _ d e f g), Build_Descriptor a b x d e f g) dec_int);
  ("event_schema_version", on_field d_EventSchemaVersion
     (λ x '(Build_Descriptor a b c _ e f g), Build_Descriptor a b c x e f g) dec_int);
  ("min_event_schema", on_field d_MinEventSchema
     (λ x '(Build_Descriptor a b c d _ f g), Build_Descriptor a b c d x f g) dec_int);
  ("max_event_schema", on_field d_MaxEventSchema
     (λ x '(Build_Descriptor a b c d e _ g), Build_Descriptor a b c d e x g) dec_int);
  ("server_time", on_field d_ServerTime
     (λ x '(Build_Descriptor a b c d e f _), Build_Descriptor a b c d e f x) dec_string)].

(** [map[string]interface{}]: the members are added to those there already. *)
Definition dec_map : decoder (option json) := λ j m,
  match j, m with
  | JNull, _ => Some None
  | JObj kvs, Some (JObj old) => Some (Some (JObj (old ++ kvs)))
  | JObj kvs, _ => Some (Some (JObj kvs))
  | _, _ => None
  end.

Definition fields_EnrollResponse : fields EnrollResponse := [
  ("agent_id", on_field es_AgentID (λ x '(Build_EnrollResponse _ b c d e), Build_EnrollResponse x b c d e) dec_string);
  ("config", on_field es_Config (λ x '(Build_EnrollResponse a _ c d e), Build_EnrollResponse a x c d e) dec_map);
  ("credential", on_field es_Credential
     (λ x '(Build_EnrollResponse a b _ d e), Build_EnrollResponse a b x d e) (dec_struct fields_Credential));
  ("certificate", on_field es_Certificate
     (λ x '(Build_EnrollResponse a b c _ e), Build_EnrollResponse a b c x e)
     (dec_ptr zero_CertificateRenewal (dec_struct fields_CertificateRenewal)));
  ("protocol", on_field es_Protocol
     (λ x '(Build_EnrollResponse a b c d _), Build_EnrollResponse a b c d x)
     (dec_ptr zero_Descriptor (dec_struct fields_Descriptor)))].

(** ** The client *)

(** [strings.TrimRight(s, "/")] *)
Fixpoint drop_trailing (l : list ascii) : list ascii :=
  match l with
  | [] => []
  | a :: l =>
    match drop_trailing l with
    | [] => if Ascii.eqb a slash then [] else [a]
    | l => a :: l
    end
  end.
Definition TrimRightSlash (s : string) : string := of_chars (drop_trailing (to_chars s)).

Record Client := { c_baseURL : string; c_enrollBaseURL : string; c_agentID : string }.

Definition New (baseURL agentID : string) : Client :=
  {| c_baseURL := TrimRightSlash (TrimSpace baseURL); c_enrollBaseURL := ""; c_agentID := TrimSpace agentID |}.

Definition SetEnrollBaseURL (url : string) (c : Client) : Client :=
  {| c_baseURL := c_baseURL c; c_enrollBaseURL := TrimRightSlash (TrimSpace url); c_agentID := c_agentID c |}.

Definition HeaderAgentID : string := "X-Agent-ID".
Definition HeaderCredential : string := "X-Agent-Credential".
Definition HeaderBootstrapToken : string := "X-Agent-Bootstrap-Token".

(** [agentauth.ApplyCredentialHeaders], with what [credentialFunc] returns. *)
Definition ApplyCredentialHeaders (agentID credential : string) : list (string * string) :=
  let agentID := TrimSpace agentID in
  let cred := TrimSpace credential in
  (if is_empty agentID then [] else [(HeaderAgentID, agentID)]) ++
  (if is_empty cred then [] else [(HeaderCredential, cred)]).

Definition content_type : string * string := ("Content-Type", "application/json").

Definition ok_status (status : Z) : bool := negb ((status <? 200) || (300 <=? status)).

Section client.
(** The scanner of [encoding/json]. *)
Context (parse : string → option json).
(** [json.Marshal] of the requests; [None] is an error. *)
Context (marshal_enroll : EnrollRequest → option string).
Context (marshal_csr : string → option string) (marshal_result : Journal.ExecutionResult → option string).
(** [json.Unmarshal] of response actions: an array, and the two lists of an
    envelope. *)
Context (decode_actions : string → option (list ResponseAction)).
Context (decode_envelope : string → option (option (list ResponseAction) * option (list ResponseAction))).
Context (valid_url : string → bool).
(** The client and what its credential function returns. *)
Context (c : Client) (credential : string).

Definition do_request (method path name : string) (body : option string) : CM (Z * string) :=
  if is_empty (c_baseURL c) then throw (CText "controlplane baseURL is empty") else
  let url := c_baseURL c +:+ path in
  if negb (valid_url url) then throw (CText ("new " +:+ name +:+ " request")) else
  exchange name {|
    q_Method := method; q_URL := url;
    q_Headers := (match body with Some _ => [content_type] | None => [] end) ++
                 ApplyCredentialHeaders (c_agentID c) credential;
    q_Body := body |}.

Definition enrollEndpoint : string :=
  if negb (is_empty (c_enrollBaseURL c)) then c_enrollBaseURL c +:+ "/enroll" else
  if negb (is_empty (c_baseURL c)) then c_baseURL c +:+ "/agents/enroll" else "".

(** [DecodeIncompatibility] on a refusal, else an [HTTPError]. *)
Definition refusal (name : string) (status : Z) (body : string) : cerror :=
  match DecodeIncompatibility parse status body with
  | Some i => CIncompatible i
  | None => CHTTP (newHTTPError name status body)
  end.

Definition Enroll (req : EnrollRequest) : CM EnrollResponse :=
  let u := enrollEndpoint in
  if is_empty u then throw (CText "controlplane baseURL is empty") else
  match marshal_enroll req with
  | None => throw (CText "marshal enroll request")
  | Some payload =>
    if negb (valid_url u) then throw (CText "new enroll request") else
    let bootstrapToken := TrimSpace (eq_BootstrapToken req) in
    ' (status, body) <- exchange "enroll" {|
      q_Method := "POST"; q_URL := u;
      q_Headers := [content_type; (HeaderAgentID, TrimSpace (eq_AgentID req))] ++
        (if is_empty bootstrapToken then [] else [(HeaderBootstrapToken, bootstrapToken)]);
      q_Body := Some payload |};;
    if negb (ok_status status) then throw (refusal "enroll" status body) else
    match unmarshal parse (dec_struct fields_EnrollResponse) zero_EnrollResponse body with
    | None => throw (CText "unmarshal enroll response")
    | Some out => retM out
    end
  end.

Definition negotiate_or (server : option Descriptor) : CM Negotiation :=
  match Negotiate server with inl n => retM n | inr i => throw (CIncompatible i) end.

(** [Heartbeat], for the encoded request. *)
Definition Heartbeat (payload : option string) : CM Negotiation :=
  match payload with
  | None => throw (CText "marshal heartbeat")
  | Some payload =>
    ' (status, body) <- do_request "POST" "/agents/heartbeat" "heartbeat" (Some payload);;
    if negb (ok_status status) then throw (refusal "heartbeat" status body) else
    if is_empty (TrimSpace body) then negotiate_or None else
    match unmarshal parse (dec_struct fields_Descriptor) zero_Descriptor body with
    | None => negotiate_or None
    | Some descriptor =>
      if d_ProtocolVersion descriptor <=? 0 then negotiate_or None else negotiate_or (Some descriptor)
    end
  end.

Definition GetConfig : CM json :=
  ' (status, body) <- do_request "GET" "/agents/config" "config" None;;
  if negb (ok_status status) then throw (CHTTP (newHTTPError "config" status body)) else
  if is_empty body then retM (JObj []) else
  match unmarshal parse dec_map None body with
  | None => throw (CText "unmarshal config")
  | Some out => retM (default (JObj []) out)
  end.

Definition RotateCredential : CM Credential :=
  ' (status, body) <- do_request "POST" "/agents/credential/rotate" "rotate credential" None;;
  if negb (ok_status status) then throw (CHTTP (newHTTPError "rotate credential" status body)) else
  match unmarshal parse (dec_struct fields_Credential) zero_Credential body with
  | None => throw (CText "unmarshal rotate response")
  | Some out => retM out
  end.

Definition RenewCertificate (csrPEM : string) : CM CertificateRenewal :=
  match marshal_csr csrPEM with
  | None => throw (CText "marshal certificate renew request")
  | Some payload =>
    ' (status, body) <- do_request "POST" "/agents/certificate/renew" "certificate renew" (Some payload);;
    if negb (ok_status status) then throw (CHTTP (newHTTPError "certificate renew" status body)) else
    match unmarshal parse (dec_struct fields_CertificateRenewal) zero_CertificateRenewal body with
    | None => throw (CText "unmarshal certificate renew response")
    | Some out =>
      if is_empty (TrimSpace (cn_CertificatePEM out))
      then throw (CText "certificate renew response missing certificate") else retM out
    end
  end.

(** ** Response actions *)

Definition responseActionListPaths : list string :=
  ["/agents/response-actions/pending"; "/agents/response/actions/pending"].
Definition responseActionResultPaths : list string :=
  ["/agents/response-actions/results"; "/agents/response/actions/results"].

(** The texts of the errors of [Normalize]. *)
Context (describe : action_error → string).

Definition cerror_text (e : cerror) : string :=
  match e with
  | CText t => t
  | CHTTP e => HTTPError_Error e
  | CIncompatible i => i_Detail i
  end.

Definition decodeResponseActions (body : string) : string + list ResponseAction :=
  let trimmed := TrimSpace body in
  if is_empty trimmed then inr [] else
  if HasPrefix trimmed "[" then
    match decode_actions trimmed with
    | None => inl "unmarshal response actions array"
    | Some out => inr out
    end
  else
    match decode_envelope trimmed with
    | None => inl "unmarshal response actions envelope"
    | Some (Some items, _) => inr items
    | Some (None, Some actions) => inr actions
    | Some (None, None) => inr []
    end.

(** The loop that normalises the actions; the first error ends it. *)
Fixpoint normalize_all (actions : list ResponseAction) : action_error + list ResponseAction :=
  match actions with
  | [] => inr []
  | a :: actions =>
    match Normalize a with
    | inl e => inl e
    | inr a => match normalize_all actions with inl e => inl e | inr l => inr (a :: l) end
    end
  end.

Definition listPendingResponseActionsPath (path : string) : CM (list ResponseAction) :=
  ' (status, body) <- do_request "GET" path "response actions" None;;
  if status =? 204 then retM [] else
  if negb (ok_status status) then throw (CHTTP (newHTTPError "response actions" status body)) else
  if is_empty (TrimSpace body) then retM [] else
  match decodeResponseActions body with
  | inl e => throw (CText e)
  | inr actions =>
    match normalize_all actions with
    | inl e => throw (CText ("decode response action: " +:+ describe e))
    | inr actions => retM actions
    end
  end.

Fixpoint list_paths (paths : list string) (lastErr : option cerror) : CM (list ResponseAction) :=
  match paths with
  | [] => match lastErr with Some e => throw e | None => retM [] end
  | path :: paths =>
    out <- try (listPendingResponseActionsPath path);;
    match out with
    | inr out => retM out
    | inl e => if Contains (cerror_text e) "status=404" then list_paths paths (Some e) else throw e
    end
  end.

Definition ListPendingResponseActions : CM (list ResponseAction) :=
  if is_empty (c_baseURL c) then throw (CText "controlplane baseURL is empty") else
  list_paths responseActionListPaths None.

Fixpoint report_paths (paths : list string) (payload : string) (lastErr : option cerror) : CM unit :=
  match paths with
  | [] => throw (default (CText "response action result failed") lastErr)
  | path :: paths =>
    ' (status, body) <- do_request "POST" path "response action result" (Some payload);;
    if ok_status status then retM tt else
    let err := CHTTP (newHTTPError "response action result" status body) in
    if status =? 404 then report_paths paths payload (Some err) else throw err
  end.

(** The result as it is sent. *)
Definition normalized_result (r : Journal.ExecutionResult) : Journal.ExecutionResult :=
  Journal.Build_ExecutionResult (Journal.er_ResponseActionID r) (Journal.er_AgentID r)
    (norm (Journal.er_Status r)) (Journal.er_ResultPayload r) (Journal.er_Error r)
    (Journal.er_StartedAt r) (Journal.er_FinishedAt r).

Definition ReportResponseActionResult (r : Journal.ExecutionResult) : CM unit :=
  if is_empty (c_baseURL c) then throw (CText "controlplane baseURL is empty") else
  if Journal.er_ResponseActionID r <=? 0 then throw (CText "invalid response_action_id") else
  let r := normalized_result r in
  if is_empty (Journal.er_Status r) then throw (CText "status is required") else
  match marshal_result r with
  | None => throw (CText "marshal response action result")
  | Some payload => report_paths responseActionResultPaths payload None
  end.

(** ** What a call sends and what its outcome rests on *)

(** [rs] are requests the server answered, in order, between [w] and [w']. *)
Definition exchanged (w w' : cworld) (rs : list (request * answer)) : Prop :=
  cw_log w' = cw_log w ++ rs.*1 ∧
  (∀ k r a, rs !! k = Some (r, a) → a = default (NetError "no answer") (cw_answers w !! k)) ∧
  cw_answers w' = drop (length rs) (cw_answers w).

Lemma exchanged_nil w : exchanged w w [].
Proof. split; [by rewrite app_nil_r|]. done. Qed.

Lemma exchanged_snoc w w1 rs r : exchanged w w1 rs →
  exchanged w (pop_answer (put_request r w1)) (rs ++ [(r, next_answer w1)]).
Proof.
  intros (Hlog & Hans & Hrest). split; [cbn; by rewrite Hlog, fmap_app, <- (assoc_L (++))|]. split.
  - intros k r' a Hk. apply lookup_app_Some in Hk as [Hk|[Hlen Hk]]; [by eapply Hans|].
    assert (k = length rs) as -> by (apply lookup_lt_Some in Hk; cbn in Hk; lia).
    rewrite Nat.sub_diag in Hk. injection Hk as <- <-. unfold next_answer. rewrite Hrest.
    by rewrite head_lookup, lookup_drop, Nat.add_0_r.
  - cbn. rewrite Hrest, length_app. cbn. rewrite <- (drop_drop (cw_answers w) 1 (length rs)).
    by destruct (drop _ _).
Qed.

(** One exchange from a world reached after [rs]. *)
Lemma exchange_spec name r w0 rs :
  triple (λ w, exchanged w0 w rs) (exchange name r)
    (λ p w, exchanged w0 w (rs ++ [(r, Answer p.1 p.2)]))
    (λ _ w, ∃ a, exchanged w0 w (rs ++ [(r, a)]))
    (λ w, cw_log w = cw_log w0 ++ rs.*1 ++ [r]).
Proof.
  set (sent w := ∃ w1, exchanged w0 w1 rs ∧ w = put_request r w1).
  unfold exchange. eapply triple_bind with (Q' := λ _ w, sent w); [apply triple_modify; by eexists|].
  intros _. eapply triple_bind with (Q' := λ _ w, sent w).
  { apply triple_sys; [done..|]. intros w (w1 & (Hlog & _) & ->). cbn. by rewrite Hlog, (assoc_L (++)). }
  intros ok. eapply triple_bind with (Q' := λ a w, exchanged w0 (pop_answer w) (rs ++ [(r, a)])).
  { apply triple_gets. intros w (w1 & H & ->). exact (exchanged_snoc _ _ _ r H). }
  intros a. eapply triple_bind with (Q' := λ _ w, exchanged w0 w (rs ++ [(r, a)])); [by apply triple_modify|].
  intros _. destruct ok; [|apply triple_throw; by eexists]. unfold receive.
  destruct a as [t|t|status body]; [apply triple_throw; by eexists..|].
  destruct (_ <? _); [apply triple_throw; by eexists|by apply triple_ret].
Qed.

(** The request of a call to [path]. *)
Definition call (method path : string) (body : option string) : request := {|
  q_Method := method; q_URL := c_baseURL c +:+ path;
  q_Headers := (match body with Some _ => [content_type] | None => [] end) ++
               ApplyCredentialHeaders (c_agentID c) credential;
  q_Body := body |}.

Lemma do_request_spec method path name body w0 rs :
  triple (λ w, exchanged w0 w rs) (do_request method path name body)
    (λ p w, exchanged w0 w (rs ++ [(call method path body, Answer p.1 p.2)]))
    (λ _ w, exchanged w0 w rs ∨ ∃ a, exchanged w0 w (rs ++ [(call method path body, a)]))
    (λ w, cw_log w = cw_log w0 ++ rs.*1 ++ [call method path body]).
Proof.
  unfold do_request. destruct (is_empty _); [apply triple_throw; by left|].
  destruct (negb _); [apply triple_throw; by left|].
  eapply triple_conseq; [apply (exchange_spec name (call method path body) w0 rs)|done..| |done].
  intros e w. by right.
Qed.

(** The requests of a report: the result is posted to the paths in order, each
    but the last answered 404. *)
Definition reported (payload : string) (paths : list string) (rs : list (request * answer)) : Prop :=
  rs.*1 `prefix_of` (λ p, call "POST" p (Some payload)) <$> paths ∧
  ∀ k r a, rs !! k = Some (r, a) → (S k < length rs)%nat → ∃ body, a = Answer 404 body.

Definition all_404 (rs : list (request * answer)) : Prop := ∀ r a, (r, a) ∈ rs → ∃ body, a = Answer 404 body.

Lemma all_404_snoc rs r body : all_404 rs → all_404 (rs ++ [(r, Answer 404 body)]).
Proof.
  intros H r' a [Hin|[= -> ->]%list_elem_of_singleton]%elem_of_app; [by eapply H|by eexists].
Qed.

Lemma reported_snoc payload done_ path rest rs a :
  rs.*1 = (λ p, call "POST" p (Some payload)) <$> done_ → all_404 rs →
  reported payload (done_ ++ path :: rest) (rs ++ [(call "POST" path (Some payload), a)]).
Proof.
  intros Hrs Hall. split.
  - exists ((λ p, call "POST" p (Some payload)) <$> rest). rewrite !fmap_app, Hrs. cbn. by rewrite <- (assoc_L (++)).
  - intros k r a' Hk Hlt. rewrite length_app in Hlt. cbn in Hlt. rewrite lookup_app_l in Hk by lia.
    by eapply Hall, list_elem_of_lookup_2.
Qed.

Lemma report_paths_spec payload w0 rest : ∀ done_ rs lastErr,
  rs.*1 = (λ p, call "POST" p (Some payload)) <$> done_ → all_404 rs →
  triple (λ w, exchanged w0 w rs) (report_paths rest payload lastErr)
    (λ _ w, ∃ rs' r status body, exchanged w0 w (rs' ++ [(r, Answer status body)]) ∧
       reported payload (done_ ++ rest) (rs' ++ [(r, Answer status body)]) ∧ ok_status status = true)
    (λ _ w, ∃ rs', exchanged w0 w rs' ∧ rs'.*1 `prefix_of` (λ p, call "POST" p (Some payload)) <$> (done_ ++ rest))
    (λ w, ∃ sent, cw_log w = cw_log w0 ++ sent ∧
       sent `prefix_of` (λ p, call "POST" p (Some payload)) <$> (done_ ++ rest)).
Proof.
  induction rest as [|path rest IH]; intros done_ rs lastErr Hrs Hall; cbn [report_paths].
  { apply triple_throw. intros w Hw. exists rs. split; [done|]. by rewrite Hrs, app_nil_r. }
  assert (∀ a, (rs ++ [(call "POST" path (Some payload), a)]).*1 `prefix_of`
    (λ p, call "POST" p (Some payload)) <$> (done_ ++ path :: rest)) as Hpre.
  { intros a. apply (reported_snoc payload done_ path rest rs a Hrs Hall). }
  eapply triple_bind.
  { eapply triple_conseq; [apply (do_request_spec "POST" path "response action result" (Some payload) w0 rs)|done| | |].
    - intros a w H. exact H.
    - intros e w [H|[a H]]; [exists rs|by eexists]. split; [done|]. rewrite Hrs, fmap_app. by apply prefix_app_r.
    - intros w H. eexists. split; [exact H|]. specialize (Hpre (NetError "")). by rewrite fmap_app in Hpre. }
  intros [status body]. cbn [fst snd]. destruct (ok_status status) eqn:Hok.
  { apply triple_ret. intros w Hw. do 4 eexists. split; [exact Hw|]. split; [|done]. by apply reported_snoc. }
  destruct (status =? 404) eqn:E4; [|apply triple_throw; intros w Hw; by eexists].
  zbool. subst status. set (err := CHTTP _).
  specialize (IH (done_ ++ [path]) (rs ++ [(call "POST" path (Some payload), Answer 404 body)]) (Some err)).
  rewrite <- (assoc_L (++)) in IH. apply IH; [by rewrite !fmap_app, Hrs|by apply all_404_snoc].
Qed.

(** A result counts as reported only when the server has confirmed it.
    However requests fail, a report that succeeds has posted exactly this result,
    its status normalised, to the first endpoint, or after a 404 there to the second,
    and the last of them was answered with a 2xx status.  Every other ending has
    sent at most these requests. *)
Theorem report_confirmed (r : Journal.ExecutionResult) w0 :
  triple (λ w, w = w0) (ReportResponseActionResult r)
    (λ _ w, ∃ payload rs q status body, marshal_result (normalized_result r) = Some payload ∧
       exchanged w0 w (rs ++ [(q, Answer status body)]) ∧
       reported payload responseActionResultPaths (rs ++ [(q, Answer status body)]) ∧ ok_status status = true)
    (λ _ w, ∃ payload sent, cw_log w = cw_log w0 ++ sent ∧
       sent `prefix_of` (λ p, call "POST" p (Some payload)) <$> responseActionResultPaths)
    (λ w, ∃ payload sent, marshal_result (normalized_result r) = Some payload ∧ cw_log w = cw_log w0 ++ sent ∧
       sent `prefix_of` (λ p, call "POST" p (Some payload)) <$> responseActionResultPaths).
Proof.
  assert (∀ w, w = w0 → ∃ payload sent, cw_log w = cw_log w0 ++ sent ∧
       sent `prefix_of` (λ p, call "POST" p (Some payload)) <$> responseActionResultPaths) as Hno.
  { intros w ->. exists "", []. split; [by rewrite app_nil_r|apply prefix_nil]. }
  unfold ReportResponseActionResult. destruct (is_empty _); [apply triple_throw, Hno|].
  destruct (_ <=? 0); [apply triple_throw, Hno|]. destruct (is_empty _); [apply triple_throw, Hno|].
  destruct (marshal_result (normalized_result r)) as [payload|]; [|apply triple_throw, Hno].
  eapply triple_conseq; [apply (report_paths_spec payload w0 responseActionResultPaths [] [] None)|..].
  - done.
  - by intros ?? ?%not_elem_of_nil.
  - intros w ->. apply exchanged_nil.
  - intros _ w (rs & q & status & body & H). exists payload, rs, q, status, body. split; [done|exact H].
  - intros _ w (rs & (H & _) & Hp). by exists payload, rs.*1.
  - intros w (sent & H). exists payload, sent. by split.
Qed.

(** The actions a poll delivers are in normal form. *)
Lemma normalize_all_canonical actions out : normalize_all actions = inr out → Forall canonical out.
Proof.
  revert out. induction actions as [|a actions IH]; cbn [normalize_all]; intros out; [by intros [= <-]|].
  destruct (Normalize a) as [|b] eqn:Ha; [done|]. destruct (normalize_all actions); [done|].
  intros [= <-]. constructor; [by apply Normalize_inv in Ha as [? _]|by apply IH].
Qed.
End client.
