(* ===== verification/Enroll.v ===== *)
(** * Enroll: how the agent gets and keeps its identity
      (internal/enrollment/manager.go, pending.go, internal/config/identity.go)

    A manager holds the credential and the recovery tokens in memory, persists
    them in the identity state file, and obtains new ones by an enrollment,
    whose request is kept in a file until its response is finalised.  The world
    has the files, the manager, the runtime configuration, the client with the
    server's answers, and the supplies of transaction ids and generated keys.
    [ew_audit] is a ghost: every request sent, with the files as they were when
    the call to the client started.  Logging is not modelled. *)

From stdpp Require Import pretty.
From S2P Require Import Prelude GoStr GoText Effects GoJson FileUtil Protocol Client CertPair.
From S2P Require RuntimeConfig.
From Stdlib Require Import Ascii.

Local Open Scope Z_scope.
Local Open Scope go_scope.

Record recoveryMethod := RecoveryMethod { rm_name : string; rm_token : string }.

(** The settings of [agentcfg.Config] the manager uses. *)
Record Config := {
  cf_AgentID : string;
  cf_Profile : string;
  cf_AgentIdentityStateFile : string;
  cf_CredentialFile : string;
  cf_BootstrapToken : string;
  cf_BootstrapTokenFile : string;
  cf_ForceEnrollOnStart : bool;
  cf_TLSCAFile : string;
  cf_TLSCertFile : string;
  cf_TLSKeyFile : string;
  cf_AgentCredential : string;
  cf_AgentCredentialExpiresAt : string;
  cf_RenewalToken : string;
  cf_RenewalTokenExpiresAt : string;
  cf_PreviousRenewalToken : string;
  cf_PreviousRenewalTokenExpiresAt : string;
  cf_BootstrapTokenConsumed : bool;
}.

Record Manager := {
  m_cred : string;
  m_credExp : time;
  m_renewalToken : string;
  m_renewalExp : time;
  m_previousRenewalToken : string;
  m_previousRenewalExp : time;
  m_lastRecoveryMethod : string;
  m_bootstrapConsumed : bool;
  m_recoveryInFlight : bool;
  m_recoveryFailures : Z;
  m_nextEnrollRetryAt : time;
}.

Record PersistedIdentityState := {
  is_AgentID : string;
  is_Credential : string;
  is_CredentialExpiresAt : string;
  is_RenewalToken : string;
  is_RenewalTokenExpiresAt : string;
  is_PreviousRenewalToken : string;
  is_PreviousRenewalTokenExpiresAt : string;
  is_LastRecoveryMethod : string;
  is_BootstrapTokenConsumed : bool;
  is_UpdatedAt : string;
}.

Definition zero_state : PersistedIdentityState := Build_PersistedIdentityState "" "" "" "" "" "" "" "" false "".

Definition pendingEnrollmentVersion : Z := 2.

Record pendingEnrollment := {
  pe_Version : Z;
  pe_AgentID : string;
  pe_Method : string;
  pe_Request : EnrollRequest;
  pe_Response : option EnrollResponse;
  pe_KeyPEM : string;
  pe_CreatedAt : string;
  pe_UpdatedAt : string;
}.

Record eworld := EW {
  ew_files : files;
  ew_m : Manager;
  ew_rc : option RuntimeConfig.RuntimeConfig;
  ew_client : cworld;
  ew_ids : list string;
  ew_keys : list (option (string * string));
  ew_audit : list (files * request);
}.
Definition EM : Type → Type := M eworld cerror.

Definition set_manager (f : Manager → Manager) (w : eworld) : eworld :=
  EW (ew_files w) (f (ew_m w)) (ew_rc w) (ew_client w) (ew_ids w) (ew_keys w) (ew_audit w).

(** ** Calls of the other components *)

Definition onFiles {A} (m : FM A) : EM A := λ v w,
  let put fs := EW fs (ew_m w) (ew_rc w) (ew_client w) (ew_ids w) (ew_keys w) (ew_audit w) in
  match m v (ew_files w) with
  | (Ok a, v', fs) => (Ok a, v', put fs)
  | (Err e, v', fs) => (Err (CText e), v', put fs)
  | (Crashed, v', fs) => (Crashed, v', put fs)
  end.

(** A call of the runtime configuration, if there is one; its error is ignored. *)
Definition onRuntime {A} (m : RuntimeConfig.RM A) : EM unit := λ v w,
  match ew_rc w with
  | None => (Ok tt, v, w)
  | Some rc =>
    let put w' := EW (RuntimeConfig.rw_files w') (ew_m w) (Some (RuntimeConfig.rw_rc w')) (ew_client w)
                     (ew_ids w) (ew_keys w) (ew_audit w) in
    match m v (RuntimeConfig.RW (ew_files w) rc) with
    | (Crashed, v', w') => (Crashed, v', put w')
    | (_, v', w') => (Ok tt, v', put w')
    end
  end.

Definition onClient {A} (m : CM A) : EM A := λ v w,
  let put c := EW (ew_files w) (ew_m w) (ew_rc w) c (ew_ids w) (ew_keys w)
    (ew_audit w ++ map (pair (ew_files w)) (drop (length (cw_log (ew_client w))) (cw_log c))) in
  match m v (ew_client w) with
  | (o, v', c) => (o, v', put c)
  end.

(** [uuid.NewString] and [certrenew.NewKeyAndCSR]. *)
Definition NewString : EM string := λ v w,
  (Ok (default "" (head (ew_ids w))), v,
   EW (ew_files w) (ew_m w) (ew_rc w) (ew_client w) (tail (ew_ids w)) (ew_keys w) (ew_audit w)).
Definition NewKeyAndCSR : EM (string * string) := λ v w,
  let w' := EW (ew_files w) (ew_m w) (ew_rc w) (ew_client w) (ew_ids w) (tail (ew_keys w)) (ew_audit w) in
  match head (ew_keys w) with
  | Some (Some kp) => (Ok kp, v, w')
  | _ => (Err (CText "create enrollment CSR"), v, w')
  end.

(** [fmt.Errorf("what: %w", err)]: [errors.As] still finds what it looks for. *)
Definition wrap_text (what : string) (e : cerror) : cerror :=
  match e with CText t => CText (what +:+ ": " +:+ t) | e => e end.
Definition wrapping {A} (what : string) (m : EM A) : EM A :=
  r <- try m;; match r with inl e => throw (wrap_text what e) | inr a => retM a end.

(** A deferred update of the world. *)
Definition deferring {A} (f : eworld → eworld) (m : EM A) : EM A := λ v w,
  let '(o, v', w') := m v w in (o, v', f w').

(** ** Backoff *)

Definition fnv_prime : Z := 1099511628211.
Definition fnv_start : Z := 1469598103934665603.

Definition fnv_step (n : Z) (b : ascii) : Z := u64 (Z.lxor n (Z.of_N (code b)) * fnv_prime).

Definition stableJitter (agentID scope : string) (max : duration) : duration :=
  if max <=? 0 then 0 else
  fold_left fnv_step (to_chars (agentID +:+ "|" +:+ scope)) fnv_start mod max.

(** The loop of [nextRecoveryBackoff]: [n] doublings left. *)
Fixpoint backoff_loop (n : nat) (wait : duration) : duration :=
  match n with
  | O => wait
  | S n => let wait := wait * 2 in if 5 * minute <=? wait then 5 * minute else backoff_loop n wait
  end.

Definition nextRecoveryBackoff (agentID : string) (failures : Z) : duration :=
  let failures := if failures <? 1 then 1 else failures in
  let wait := backoff_loop (Z.to_nat (failures - 1)) (5 * second) in
  let jitterMax := wait `quot` 3 in
  let jitterMax := if 30 * second <? jitterMax then 30 * second else jitterMax in
  wait + stableJitter agentID ("auth.recovery." +:+ pretty failures) jitterMax.

Section enrollment.
Context (cfg : Config) (client : option Client).
Context (suffix : files → string → string).
(** [encoding/json]: the scanner, and the encodings of the two files. *)
Context (parse : string → option json).
Context (marshal_enroll : EnrollRequest → option string).
Context (marshal_pending : pendingEnrollment → option string) (decode_pending : string → option pendingEnrollment).
Context (marshal_state : PersistedIdentityState → option string)
        (decode_state : string → option PersistedIdentityState).
Context (valid_url : string → bool) (uuid_Parse : string → bool).
(** [time.Parse(time.RFC3339Nano)] and the two formats. *)
Context (parse_time : string → option time) (format_time format_nano : time → string).
(** PEM and X.509. *)
Context (pem_decode : string → option (string * string * string)).
Context (parse_certificate : string → option certificate).
Context (x509_key_pair : string → string → option (list string)).
(** [RuntimeConfig.Apply] with its parameters. *)
Context (Apply : option json → RuntimeConfig.RM bool).
(** The host name and what the build says of the program. *)
Context (Hostname GOOS GOARCH Release : string).

(** ** The identity state (internal/config/identity.go) *)

Definition ParseOptionalRFC3339 (raw : string) : time :=
  let text := TrimSpace raw in
  if is_empty text then 0 else
  match parse_time text with
  | Some t => t
  | None => match parse_time (text +:+ "Z") with Some t => t | None => 0 end
  end.

Definition FormatOptionalTime (ts : time) : string := if is_zero_time ts then "" else format_time ts.

(** What a decoded state becomes when it is loaded for an agent. *)
Definition trimmed_state (agentID : string) (s : PersistedIdentityState) : PersistedIdentityState := {|
  is_AgentID := if is_empty (TrimSpace (is_AgentID s)) then TrimSpace agentID else TrimSpace (is_AgentID s);
  is_Credential := TrimSpace (is_Credential s);
  is_CredentialExpiresAt := TrimSpace (is_CredentialExpiresAt s);
  is_RenewalToken := TrimSpace (is_RenewalToken s);
  is_RenewalTokenExpiresAt := TrimSpace (is_RenewalTokenExpiresAt s);
  is_PreviousRenewalToken := TrimSpace (is_PreviousRenewalToken s);
  is_PreviousRenewalTokenExpiresAt := TrimSpace (is_PreviousRenewalTokenExpiresAt s);
  is_LastRecoveryMethod := TrimSpace (is_LastRecoveryMethod s);
  is_BootstrapTokenConsumed := is_BootstrapTokenConsumed s;
  is_UpdatedAt := TrimSpace (is_UpdatedAt s) |}.

Definition LoadIdentityState (path agentID : string) : FM PersistedIdentityState :=
  let path := TrimSpace path in
  if is_empty path then retM zero_state else
  data <- ReadFile path;;
  match data with
  | NotExist => retM zero_state
  | ReadFailed => throw "read identity state"
  | Read data =>
    match decode_state data with
    | None => throw "parse identity state"
    | Some state =>
      let id := TrimSpace (is_AgentID state) in
      if negb (is_empty id) && negb (is_empty (TrimSpace agentID)) && negb (str_eqb id (TrimSpace agentID))
      then throw "identity state agent_id mismatch"
      else retM (trimmed_state agentID state)
    end
  end.

Definition SaveIdentityState (path : string) (state : PersistedIdentityState) : FM unit :=
  let path := TrimSpace path in
  if is_empty path then retM tt else
  t <- now;;
  let state := {|
    is_AgentID := TrimSpace (is_AgentID state);
    is_Credential := TrimSpace (is_Credential state);
    is_CredentialExpiresAt := TrimSpace (is_CredentialExpiresAt state);
    is_RenewalToken := TrimSpace (is_RenewalToken state);
    is_RenewalTokenExpiresAt := TrimSpace (is_RenewalTokenExpiresAt state);
    is_PreviousRenewalToken := TrimSpace (is_PreviousRenewalToken state);
    is_PreviousRenewalTokenExpiresAt := TrimSpace (is_PreviousRenewalTokenExpiresAt state);
    is_LastRecoveryMethod := TrimSpace (is_LastRecoveryMethod state);
    is_BootstrapTokenConsumed := is_BootstrapTokenConsumed state;
    is_UpdatedAt := format_time t |} in
  match marshal_state state with
  | None => throw "marshal identity state"
  | Some payload => AtomicWriteFile suffix path (payload +:+ newline) 384
  end.

Definition ReadTextFile (path : string) : FM string :=
  let path := TrimSpace path in
  if is_empty path then retM "" else
  b <- ReadFile path;;
  retM (match b with Read b => TrimSpace b | _ => "" end).

Definition ConsumeBootstrapTokenFile (path : string) : FM unit :=
  let path := TrimSpace path in
  if is_empty path then retM tt else _ <- Remove path;; retM tt.

(** What the configuration takes from the identity state and the credential
    file (config.go), for a credential given in the environment. *)
Definition load_identity (env_credential : string) : FM Config :=
  let agentCredential := TrimSpace env_credential in
  loaded <- try (E' := string) (LoadIdentityState (cf_AgentIdentityStateFile cfg) (cf_AgentID cfg));;
  let state := match loaded with inl _ => zero_state | inr state => state end in
  let agentCredential := if is_empty agentCredential then TrimSpace (is_Credential state) else agentCredential in
  agentCredential <-
    (if is_empty agentCredential && negb (is_empty (cf_CredentialFile cfg))
     then t <- ReadTextFile (cf_CredentialFile cfg);; retM (TrimSpace t) else retM agentCredential);;
  retM {|
    cf_AgentID := cf_AgentID cfg; cf_Profile := cf_Profile cfg;
    cf_AgentIdentityStateFile := cf_AgentIdentityStateFile cfg; cf_CredentialFile := cf_CredentialFile cfg;
    cf_BootstrapToken := cf_BootstrapToken cfg; cf_BootstrapTokenFile := cf_BootstrapTokenFile cfg;
    cf_ForceEnrollOnStart := cf_ForceEnrollOnStart cfg;
    cf_TLSCAFile := cf_TLSCAFile cfg; cf_TLSCertFile := cf_TLSCertFile cfg; cf_TLSKeyFile := cf_TLSKeyFile cfg;
    cf_AgentCredential := agentCredential;
    cf_AgentCredentialExpiresAt := TrimSpace (is_CredentialExpiresAt state);
    cf_RenewalToken := TrimSpace (is_RenewalToken state);
    cf_RenewalTokenExpiresAt := TrimSpace (is_RenewalTokenExpiresAt state);
    cf_PreviousRenewalToken := TrimSpace (is_PreviousRenewalToken state);
    cf_PreviousRenewalTokenExpiresAt := TrimSpace (is_PreviousRenewalTokenExpiresAt state);
    cf_BootstrapTokenConsumed := is_BootstrapTokenConsumed state |}.

(** ** The manager *)

Definition NewManager : Manager := {|
  m_cred := TrimSpace (cf_AgentCredential cfg);
  m_credExp := ParseOptionalRFC3339 (cf_AgentCredentialExpiresAt cfg);
  m_renewalToken := TrimSpace (cf_RenewalToken cfg);
  m_renewalExp := ParseOptionalRFC3339 (cf_RenewalTokenExpiresAt cfg);
  m_previousRenewalToken := TrimSpace (cf_PreviousRenewalToken cfg);
  m_previousRenewalExp := ParseOptionalRFC3339 (cf_PreviousRenewalTokenExpiresAt cfg);
  m_lastRecoveryMethod := "startup";
  m_bootstrapConsumed := cf_BootstrapTokenConsumed cfg;
  m_recoveryInFlight := false; m_recoveryFailures := 0; m_nextEnrollRetryAt := 0 |}.

Definition CurrentCredential (m : Manager) : string := TrimSpace (m_cred m).
Definition CurrentRenewalToken (m : Manager) : string := TrimSpace (m_renewalToken m).

Definition RecoveryTokenSnapshot (m : Manager) : string * time * string * time :=
  (TrimSpace (m_renewalToken m), m_renewalExp m, TrimSpace (m_previousRenewalToken m), m_previousRenewalExp m).

Definition AuthStateSnapshot (m : Manager) : time * time * string * Z * time :=
  (m_credExp m, m_renewalExp m, m_lastRecoveryMethod m, m_recoveryFailures m, m_nextEnrollRetryAt m).

Definition CurrentBootstrapToken : EM string :=
  m <- gets ew_m;;
  if m_bootstrapConsumed m then retM "" else
  let tokenFile := TrimSpace (cf_BootstrapTokenFile cfg) in
  if negb (is_empty tokenFile) then t <- onFiles (ReadTextFile tokenFile);; retM (TrimSpace t)
  else retM (TrimSpace (cf_BootstrapToken cfg)).

(** The state [ApplyCredentialUpdate] persists. *)
Definition updated_state (m : Manager) (update : Credential) (recoveryMethod : string) : PersistedIdentityState :=
  let '(currentRenewal, currentRenewalExp, previousRenewal, previousRenewalExp) := RecoveryTokenSnapshot m in
  let token := TrimSpace (cr_RenewalToken update) in
  let expires := TrimSpace (cr_RenewalTokenExpiresAt update) in
  let renewalToken := if is_empty token then currentRenewal else token in
  let renewalExpiresAt :=
    if is_empty token && is_empty expires && negb (is_zero_time currentRenewalExp)
    then format_time currentRenewalExp else expires in
  let moved := negb (is_empty renewalToken) && negb (str_eqb renewalToken currentRenewal) in
  {| is_AgentID := cf_AgentID cfg;
     is_Credential := TrimSpace (cr_Credential update);
     is_CredentialExpiresAt := TrimSpace (cr_ExpiresAt update);
     is_RenewalToken := renewalToken;
     is_RenewalTokenExpiresAt := renewalExpiresAt;
     is_PreviousRenewalToken := if moved then currentRenewal else previousRenewal;
     is_PreviousRenewalTokenExpiresAt :=
       FormatOptionalTime (if moved then currentRenewalExp else previousRenewalExp);
     is_LastRecoveryMethod := TrimSpace recoveryMethod;
     is_BootstrapTokenConsumed := if str_eqb (TrimSpace recoveryMethod) "bootstrap" then true
                                  else m_bootstrapConsumed m;
     is_UpdatedAt := "" |}.

(** The memory after it. *)
Definition updated_manager (state : PersistedIdentityState) (update : Credential) (m : Manager) : Manager := {|
  m_cred := is_Credential state;
  m_credExp := ParseOptionalRFC3339 (cr_ExpiresAt update);
  m_renewalToken := is_RenewalToken state;
  m_renewalExp := ParseOptionalRFC3339 (is_RenewalTokenExpiresAt state);
  m_previousRenewalToken := is_PreviousRenewalToken state;
  m_previousRenewalExp := ParseOptionalRFC3339 (is_PreviousRenewalTokenExpiresAt state);
  m_lastRecoveryMethod := is_LastRecoveryMethod state;
  m_bootstrapConsumed := is_BootstrapTokenConsumed state;
  m_recoveryInFlight := m_recoveryInFlight m;
  m_recoveryFailures := 0; m_nextEnrollRetryAt := 0 |}.

Definition ApplyCredentialUpdate (update : Credential) (recoveryMethod : string) : EM unit :=
  if is_empty (TrimSpace (cr_Credential update)) then throw (CText "empty credential update") else
  m <- gets ew_m;;
  let state := updated_state m update recoveryMethod in
  onFiles (SaveIdentityState (cf_AgentIdentityStateFile cfg) state);;;
  (if is_empty (cf_CredentialFile cfg) then retM tt else
   _ <- try (E' := cerror) (onFiles (AtomicWriteFile suffix (cf_CredentialFile cfg) (is_Credential state +:+ newline) 384));;
   retM tt);;;
  modify (set_manager (updated_manager state update)).

(** ** The certificate of the identity *)

Definition certificateIdentityUsable : FM bool :=
  let certFile := TrimSpace (cf_TLSCertFile cfg) in
  let keyFile := TrimSpace (cf_TLSKeyFile cfg) in
  if is_empty certFile && is_empty keyFile then retM true else
  if is_empty certFile || is_empty keyFile then retM false else
  recovered <- try (RecoverPair suffix x509_key_pair certFile keyFile);;
  match recovered with
  | inl _ => retM false
  | inr _ =>
    certPEM <- ReadFile certFile;;
    match certPEM with
    | Read certPEM =>
      keyPEM <- ReadFile keyFile;;
      match keyPEM with
      | Read keyPEM =>
        t <- now;;
        retM (match ValidateIssuedPair parse_certificate x509_key_pair certPEM keyPEM (cf_AgentID cfg) t with
              | inl _ => false | inr _ => true end)
      | _ => retM false
      end
    | _ => retM false
    end
  end.

Definition HasUsableIdentity : EM bool :=
  m <- gets ew_m;;
  if is_empty (CurrentCredential m) then retM false else onFiles certificateIdentityUsable.

Definition prepareEnrollmentCSR : EM (string * string) :=
  if is_empty (TrimSpace (cf_TLSCertFile cfg)) || is_empty (TrimSpace (cf_TLSKeyFile cfg)) then retM ("", "")
  else NewKeyAndCSR.

Definition persistEnrollmentServerCA (issued : option CertificateRenewal) : FM unit :=
  match issued with
  | None => retM tt
  | Some issued =>
    _ <- PersistServerCA suffix pem_decode parse_certificate (cn_ServerCAPEM issued) (cf_TLSCAFile cfg);; retM tt
  end.

Definition persistEnrollmentCertificate (issued : option CertificateRenewal) (keyPEM : string) : FM unit :=
  if is_empty (TrimSpace (cf_TLSCertFile cfg)) && is_empty (TrimSpace (cf_TLSKeyFile cfg)) then retM tt else
  match issued with
  | None => throw "enrollment response is missing client certificate material"
  | Some issued =>
    if is_empty keyPEM then throw "enrollment response is missing client certificate material" else
    if is_empty (TrimSpace (cn_CertificatePEM issued)) then throw "enrollment response client certificate is empty" else
    PersistPair suffix parse_certificate x509_key_pair format_nano (cn_CertificatePEM issued) keyPEM
      (cf_AgentID cfg) (cf_TLSCertFile cfg) (cf_TLSKeyFile cfg)
  end.

(** ** The pending enrollment (pending.go) *)

Definition pendingEnrollmentPath : string :=
  let path := TrimSpace (cf_AgentIdentityStateFile cfg) in
  if negb (is_empty path) then path +:+ ".pending-enrollment" else
  let path := TrimSpace (cf_CredentialFile cfg) in
  if negb (is_empty path) then path +:+ ".pending-enrollment" else "".

Definition known_method (method : string) : bool := str_in method ["bootstrap"; "renewal"; "renewal_previous"].

Definition with_agent (agentID : string) (r : EnrollRequest) : EnrollRequest :=
  Build_EnrollRequest (eq_EnrollmentID r) agentID (eq_Hostname r) (eq_OS r) (eq_Arch r) (eq_Version r)
    (eq_ProtocolVersion r) (eq_Profile r) (eq_CSRPEM r) (eq_BootstrapToken r).
Definition with_token (token : string) (r : EnrollRequest) : EnrollRequest :=
  Build_EnrollRequest (eq_EnrollmentID r) (eq_AgentID r) (eq_Hostname r) (eq_OS r) (eq_Arch r) (eq_Version r)
    (eq_ProtocolVersion r) (eq_Profile r) (eq_CSRPEM r) token.

(** The fields [savePendingEnrollment] sets first, and the times. *)
Definition claimed (p : pendingEnrollment) : pendingEnrollment :=
  let id := TrimSpace (cf_AgentID cfg) in
  Build_pendingEnrollment pendingEnrollmentVersion id (TrimSpace (pe_Method p)) (with_agent id (pe_Request p))
    (pe_Response p) (pe_KeyPEM p) (pe_CreatedAt p) (pe_UpdatedAt p).
Definition stamped (now : string) (p : pendingEnrollment) : pendingEnrollment :=
  Build_pendingEnrollment (pe_Version p) (pe_AgentID p) (pe_Method p) (pe_Request p) (pe_Response p) (pe_KeyPEM p)
    (if is_empty (TrimSpace (pe_CreatedAt p)) then now else pe_CreatedAt p) now.

(** The result is the value behind the pointer after the call. *)
Definition savePendingEnrollment (pending : pendingEnrollment) : EM pendingEnrollment :=
  let path := pendingEnrollmentPath in
  if is_empty path then throw (CText "identity state path is required for durable enrollment") else
  let pending := claimed pending in
  if negb (known_method (pe_Method pending)) then throw (CText "pending enrollment recovery method is invalid") else
  if negb (uuid_Parse (TrimSpace (eq_EnrollmentID (pe_Request pending))))
  then throw (CText "pending enrollment transaction ID is invalid") else
  t <- now;;
  let pending := stamped (format_nano t) pending in
  match marshal_pending pending with
  | None => throw (CText "marshal pending enrollment")
  | Some payload =>
    onFiles (wrap "persist pending enrollment" (AtomicWriteFile suffix path (payload +:+ newline) 384));;;
    retM pending
  end.

(** What [loadPendingEnrollment] makes of the content of the file. *)
Definition checked_pending (payload : string) : string + pendingEnrollment :=
  let id := TrimSpace (cf_AgentID cfg) in
  match decode_pending payload with
  | None => inl "parse pending enrollment"
  | Some pending =>
    if negb (pe_Version pending =? pendingEnrollmentVersion) then inl "unsupported pending enrollment version" else
    if negb (str_eqb (TrimSpace (pe_AgentID pending)) id) then inl "pending enrollment agent ID mismatch" else
    if negb (known_method (TrimSpace (pe_Method pending))) then inl "pending enrollment recovery method is invalid" else
    if negb (str_eqb (TrimSpace (eq_AgentID (pe_Request pending))) id)
    then inl "pending enrollment request agent ID mismatch" else
    if negb (uuid_Parse (TrimSpace (eq_EnrollmentID (pe_Request pending))))
    then inl "pending enrollment transaction ID is invalid" else inr pending
  end.

Definition loadPendingEnrollment : FM (option pendingEnrollment) :=
  let path := pendingEnrollmentPath in
  if is_empty path then retM None else
  payload <- ReadFile path;;
  match payload with
  | NotExist => retM None
  | ReadFailed => throw "read pending enrollment"
  | Read payload => match checked_pending payload with inl e => throw e | inr p => retM (Some p) end
  end.

Definition clearPendingEnrollment : FM unit :=
  let path := pendingEnrollmentPath in
  if is_empty path then retM tt else
  r <- Remove path;;
  match r with
  | RemoveFailed => throw "remove pending enrollment"
  | _ =>
    sys_or "open pending enrollment directory" id;;;
    synced <- sys id;;
    closed <- sys id;;
    if negb synced then throw "sync pending enrollment directory" else
    if negb closed then throw "close pending enrollment directory" else retM tt
  end.

Definition lift_text {A} (r : string + A) : EM A := match r with inl e => throw (CText e) | inr a => retM a end.

Definition finalizePendingEnrollment (pending : pendingEnrollment) : EM unit :=
  match pe_Response pending with
  | None => throw (CText "pending enrollment response is unavailable")
  | Some response =>
    if negb (str_eqb (TrimSpace (es_AgentID response)) (TrimSpace (cf_AgentID cfg)))
    then throw (CText "enrollment response agent ID mismatch") else
    match Negotiate (es_Protocol response) with
    | inr incompatible => throw (CIncompatible incompatible)
    | inl _ =>
      if is_empty (TrimSpace (cr_Credential (es_Credential response)))
      then throw (CText "enrollment response credential is empty") else
      (match es_Certificate response with
       | Some certificate =>
         if is_empty (pe_KeyPEM pending) then retM tt else
         t <- now;;
         _ <- lift_text (ValidateIssuedPair parse_certificate x509_key_pair (cn_CertificatePEM certificate)
                (pe_KeyPEM pending) (cf_AgentID cfg) t);;
         retM tt
       | None => retM tt
       end);;;
      onFiles (persistEnrollmentServerCA (es_Certificate response));;;
      onFiles (persistEnrollmentCertificate (es_Certificate response) (pe_KeyPEM pending));;;
      ApplyCredentialUpdate (es_Credential response) (pe_Method pending);;;
      (match es_Config response with
       | Some (JObj (kv :: kvs)) => onRuntime (Apply (Some (JObj (kv :: kvs))))
       | _ => retM tt
       end);;;
      onFiles clearPendingEnrollment;;;
      if str_eqb (pe_Method pending) "bootstrap"
      then onFiles (ConsumeBootstrapTokenFile (cf_BootstrapTokenFile cfg)) else retM tt
    end
  end.

(** Whether there was a response to finalise. *)
Definition resumePendingEnrollment : EM bool :=
  pending <- onFiles loadPendingEnrollment;;
  match pending with
  | None => retM false
  | Some pending =>
    match pe_Response pending with
    | None => retM false
    | Some _ => finalizePendingEnrollment pending;;; retM true
    end
  end.

(** ** Recovery *)

Definition available_methods (now : time) (m : Manager) (bootstrapToken : string) : list recoveryMethod :=
  let '(currentRenewal, renewalExp, previousRenewal, previousRenewalExp) := RecoveryTokenSnapshot m in
  let renewalToken := TrimSpace currentRenewal in
  let renewalToken := if negb (is_zero_time renewalExp) && (renewalExp <? now) then "" else renewalToken in
  let previousRenewalToken := TrimSpace previousRenewal in
  let previousRenewalToken := if str_eqb previousRenewalToken renewalToken then "" else previousRenewalToken in
  let previousRenewalToken :=
    if negb (is_zero_time previousRenewalExp) && (previousRenewalExp <? now) then "" else previousRenewalToken in
  (if is_empty renewalToken then [] else [RecoveryMethod "renewal" renewalToken]) ++
  (if is_empty previousRenewalToken then [] else [RecoveryMethod "renewal_previous" previousRenewalToken]) ++
  (if is_empty bootstrapToken then [] else [RecoveryMethod "bootstrap" bootstrapToken]).

Definition availableRecoveryMethods (now : time) : EM (list recoveryMethod) :=
  bootstrapToken <- CurrentBootstrapToken;;
  m <- gets ew_m;;
  retM (available_methods now m (TrimSpace bootstrapToken)).

Definition recoveryMethodToken (methods : list recoveryMethod) (name : string) : string :=
  match List.find (λ m, str_eqb (rm_name m) (TrimSpace name)) methods with Some m => rm_token m | None => "" end.

Definition removeRecoveryMethod (methods : list recoveryMethod) (name : string) : list recoveryMethod :=
  List.filter (λ m, negb (str_eqb (rm_name m) (TrimSpace name))) methods.

Definition with_response (r : EnrollResponse) (p : pendingEnrollment) : pendingEnrollment :=
  Build_pendingEnrollment (pe_Version p) (pe_AgentID p) (pe_Method p) (pe_Request p) (Some r) (pe_KeyPEM p)
    (pe_CreatedAt p) (pe_UpdatedAt p).

Definition attemptPendingEnrollment (cp : Client) (pending : pendingEnrollment) (token : string) : EM EnrollResponse :=
  response <- onClient (Enroll parse marshal_enroll valid_url cp (with_token (TrimSpace token) (pe_Request pending)));;
  match Negotiate (es_Protocol response) with
  | inr incompatible => throw (CIncompatible incompatible)
  | inl _ =>
    pending <- savePendingEnrollment (with_response response pending);;
    wrapping "finalize enrollment" (finalizePendingEnrollment pending);;;
    retM response
  end.

Definition record_failure (now : time) (failures : Z) (m : Manager) : Manager :=
  Build_Manager (m_cred m) (m_credExp m) (m_renewalToken m) (m_renewalExp m) (m_previousRenewalToken m)
    (m_previousRenewalExp m) (m_lastRecoveryMethod m) (m_bootstrapConsumed m) (m_recoveryInFlight m)
    (failures + 1) (now + nextRecoveryBackoff (cf_AgentID cfg) (failures + 1)).

Definition recordRecoveryFailure (now : time) (failures : Z) (e : cerror) : EM unit :=
  modify (set_manager (record_failure now failures));;; throw e.

(** The two tests on the error of an attempt. *)
Definition is_401 (e : cerror) : bool := match e with CHTTP e => he_StatusCode e =? 401 | _ => false end.
Definition refused_as_incompatible (e : cerror) : bool :=
  match e with CIncompatible i => negb (i_HTTPStatus i =? 0) | _ => false end.

Definition clear_if_incompatible (e : cerror) : EM unit :=
  if refused_as_incompatible e then onFiles clearPendingEnrollment else retM tt.

Definition new_pending (id csrPEM keyPEM method : string) : pendingEnrollment := {|
  pe_Version := 0; pe_AgentID := ""; pe_Method := method;
  pe_Request := {|
    eq_EnrollmentID := id; eq_AgentID := cf_AgentID cfg; eq_Hostname := Hostname; eq_OS := GOOS;
    eq_Arch := GOARCH; eq_Version := Release; eq_ProtocolVersion := Version;
    eq_Profile := NormalizeProfile (cf_Profile cfg); eq_CSRPEM := csrPEM; eq_BootstrapToken := "" |};
  pe_Response := None; pe_KeyPEM := keyPEM; pe_CreatedAt := ""; pe_UpdatedAt := "" |}.

(** The loop over the methods. *)
Fixpoint try_methods (cp : Client) (now : time) (failures : Z) (keyPEM csrPEM : string)
    (methods : list recoveryMethod) (lastErr : option cerror) : EM unit :=
  match methods with
  | [] => recordRecoveryFailure now failures (default (CText "identity recovery failed") lastErr)
  | method :: methods =>
    id <- NewString;;
    pending <- savePendingEnrollment (new_pending id csrPEM keyPEM (rm_name method));;
    r <- try (attemptPendingEnrollment cp pending (rm_token method));;
    match r with
    | inr _ => retM tt
    | inl e =>
      if is_401 e then
        onFiles clearPendingEnrollment;;; try_methods cp now failures keyPEM csrPEM methods (Some e)
      else
        clear_if_incompatible e;;; recordRecoveryFailure now failures e
    end
  end.

(** The part of [RecoverIdentity] that follows the choice of the methods. *)
Definition enroll_anew (cp : Client) (now : time) (failures : Z) (methods : list recoveryMethod) : EM unit :=
  match methods with
  | [] => recordRecoveryFailure now failures (CText "no recovery token or bootstrap token available")
  | _ =>
    ' (keyPEM, csrPEM) <- prepareEnrollmentCSR;;
    try_methods cp now failures keyPEM csrPEM methods None
  end.

Definition recover_body (cp : Client) (now : time) (failures : Z) : EM unit :=
  resumed <- wrapping "resume pending enrollment" resumePendingEnrollment;;
  if resumed : bool then retM tt else
  methods <- availableRecoveryMethods now;;
  pending <- wrapping "load pending enrollment" (onFiles loadPendingEnrollment);;
  match pending with
  | None => enroll_anew cp now failures methods
  | Some pending =>
    let token := recoveryMethodToken methods (pe_Method pending) in
    if is_empty token
    then recordRecoveryFailure now failures (CText "pending enrollment token is unavailable") else
    r <- try (attemptPendingEnrollment cp pending token);;
    match r with
    | inr _ => retM tt
    | inl e =>
      if is_401 e then
        onFiles clearPendingEnrollment;;; enroll_anew cp now failures (removeRecoveryMethod methods (pe_Method pending))
      else
        clear_if_incompatible e;;; recordRecoveryFailure now failures e
    end
  end.

Definition begin_recovery (m : Manager) : Manager :=
  Build_Manager (m_cred m) (m_credExp m) (m_renewalToken m) (m_renewalExp m) (m_previousRenewalToken m)
    (m_previousRenewalExp m) (m_lastRecoveryMethod m) (m_bootstrapConsumed m) true
    (m_recoveryFailures m) 0.
Definition end_recovery (m : Manager) : Manager :=
  Build_Manager (m_cred m) (m_credExp m) (m_renewalToken m) (m_renewalExp m) (m_previousRenewalToken m)
    (m_previousRenewalExp m) (m_lastRecoveryMethod m) (m_bootstrapConsumed m) false
    (m_recoveryFailures m) (m_nextEnrollRetryAt m).

Definition RecoverIdentity (force : bool) : EM unit :=
  if negb (cf_ForceEnrollOnStart cfg) then throw (CText "identity recovery disabled") else
  match client with
  | None => throw (CText "controlplane client not initialized")
  | Some cp =>
    now <- now;;
    m <- gets ew_m;;
    if m_recoveryInFlight m then throw (CText "identity recovery already in progress") else
    if negb force && negb (is_zero_time (m_nextEnrollRetryAt m)) && (now <? m_nextEnrollRetryAt m)
    then throw (CText "identity recovery backed off") else
    modify (set_manager begin_recovery);;;
    deferring (set_manager end_recovery) (recover_body cp now (m_recoveryFailures m))
  end.

Definition shouldAttemptIdentityRecovery (errText : string) (status : Z) : bool :=
  if negb (cf_ForceEnrollOnStart cfg) then false else
  let et := norm errText in
  if status =? 401 then true else
  if Contains et "status=401" then true else
  if Contains et "remote error: tls:"
  then Contains et "certificate required" || Contains et "bad certificate" ||
       Contains et "expired certificate" || Contains et "unknown certificate authority"
  else Contains et "unknown or revoked agent" || Contains et "invalid agent credential" ||
       Contains et "credential expired" || Contains et "credential exhausted".

Definition MaybeRecoverIdentity (errText : string) (status : Z) : EM unit :=
  if negb (shouldAttemptIdentityRecovery errText status) then retM tt else
  _ <- try (E' := cerror) (RecoverIdentity false);; retM tt.

Definition EnsureInitialIdentity : EM unit :=
  _ <- wrapping "resume pending enrollment" resumePendingEnrollment;;
  m <- gets ew_m;;
  usable <- HasUsableIdentity;;
  if usable : bool then
    if is_empty (cf_CredentialFile cfg) then retM tt else
    _ <- try (E' := cerror) (onFiles (AtomicWriteFile suffix (cf_CredentialFile cfg) (CurrentCredential m +:+ newline) 384));;
    retM tt
  else
  if negb (cf_ForceEnrollOnStart cfg)
  then throw (CText "agent identity is missing and enrollment on startup is disabled")
  else RecoverIdentity false.
End enrollment.

(** ** Backoff *)

Lemma u64_nonneg z : 0 <= u64 z.
Proof. unfold u64. apply Z.mod_pos_bound. lia. Qed.

Lemma stableJitter_bounds agentID scope max : 0 <= stableJitter agentID scope max <= Z.max 0 (max - 1).
Proof.
  unfold stableJitter. destruct (max <=? 0) eqn:E; zbool; [lia|].
  match goal with |- context [?n mod max] => pose proof (Z.mod_pos_bound n max ltac:(lia)) end. lia.
Qed.

Lemma backoff_loop_spec n wait : 0 < wait <= 5 * minute →
  backoff_loop n wait = Z.min (wait * 2 ^ Z.of_nat n) (5 * minute).
Proof.
  revert wait. induction n as [|n IH]; intros wait Hw; cbn [backoff_loop]; [lia|].
  rewrite Nat2Z.inj_succ, Z.pow_succ_r by lia. pose proof (Z.pow_pos_nonneg 2 (Z.of_nat n) ltac:(lia) ltac:(lia)).
  destruct (5 * minute <=? wait * 2) eqn:E; zbool; [nia|]. rewrite IH by lia. f_equal. lia.
Qed.

(** The wait after a failed recovery doubles from five seconds to five
    minutes, with a jitter of at most a third of it and of thirty seconds. *)
Theorem nextRecoveryBackoff_bounds agentID failures :
  let base := Z.min (5 * second * 2 ^ (Z.max 1 failures - 1)) (5 * minute) in
  let wait := nextRecoveryBackoff agentID failures in
  base <= wait <= base + Z.min (base / 3) (30 * second) ∧ 5 * second <= wait <= 5 * minute + 30 * second.
Proof.
  cbn zeta. unfold nextRecoveryBackoff. set (f := if failures <? 1 then 1 else failures).
  assert (f = Z.max 1 failures) as Hf by (unfold f; destruct (failures <? 1) eqn:E; zbool; lia).
  rewrite <- Hf. assert (0 < 5 * second <= 5 * minute) as Hs by (unfold minute, second; lia).
  rewrite backoff_loop_spec, Z2Nat.id by lia. set (base := Z.min _ _).
  assert (5 * second <= base <= 5 * minute) as Hb.
  { pose proof (Z.pow_pos_nonneg 2 (f - 1) ltac:(lia) ltac:(lia)). unfold base. nia. }
  clearbody base f. rewrite Z.quot_div_nonneg by lia. pose proof (Z.div_pos base 3 ltac:(lia) ltac:(lia)).
  set (j := if 30 * second <? base / 3 then _ else _).
  assert (j = Z.min (base / 3) (30 * second)) as Hj by (unfold j; destruct (_ <? _) eqn:E; zbool; lia).
  pose proof (stableJitter_bounds agentID ("auth.recovery." +:+ pretty f) j). rewrite Hj in *.
  assert (0 < 30 * second) by (unfold second; lia). lia.
Qed.

(** ** The calls of other components *)

Definition put_files (w : eworld) (fs : files) : eworld :=
  EW fs (ew_m w) (ew_rc w) (ew_client w) (ew_ids w) (ew_keys w) (ew_audit w).

Lemma triple_onEnrollFiles {A} w0 (m : FM A) Q R C :
  triple (λ fs, fs = ew_files w0) m Q R C →
  triple (λ w, w = w0) (onFiles m) (λ a w, ∃ fs, w = put_files w0 fs ∧ Q a fs)
    (λ e w, ∃ s fs, w = put_files w0 fs ∧ e = CText s ∧ R s fs) (λ w, ∃ fs, w = put_files w0 fs ∧ C fs).
Proof.
  intros Hm v w ->. specialize (Hm v _ eq_refl). unfold onFiles.
  destruct (m v (ew_files w0)) as [[[a|e|] v'] fs]; [by eexists|by do 2 eexists|by eexists].
Qed.

(** A call that reads the files reads the world. *)
Lemma reads_onFiles {A} (m : FM A) φ : reads m φ → reads (onFiles m) (λ a w, φ a (ew_files w)).
Proof.
  intros Hm w0. assert (put_files w0 (ew_files w0) = w0) as Hput by (by destruct w0).
  eapply triple_conseq; [apply (triple_onEnrollFiles w0 m _ _ _ (Hm (ew_files w0)))|done|..].
  - intros a w (fs & -> & -> & H). by rewrite Hput.
  - intros e w (s & fs & -> & _ & ->). by rewrite Hput.
  - intros w (fs & -> & ->). by rewrite Hput.
Qed.

Lemma triple_wrapping {A} what (m : EM A) P Q R C :
  triple P m Q R C → (∀ e w, R e w → R (wrap_text what e) w) → triple P (wrapping what m) Q R C.
Proof.
  intros Hm HR. unfold wrapping.
  eapply triple_bind with (Q' := λ r w, match r with inl e => R e w | inr a => Q a w end).
  - by apply triple_try.
  - intros [e|a]; [apply triple_throw, HR|by apply triple_ret].
Qed.

Lemma triple_enroll_deferring {A} f (m : EM A) P Q R (C : eworld → Prop) :
  triple P m (λ a w, Q a (f w)) (λ e w, R e (f w)) (λ w, C (f w)) → triple P (deferring f m) Q R C.
Proof.
  intros Hm v w Hw. specialize (Hm v w Hw). unfold deferring. by destruct (m v w) as [[[a|e|] v'] w'].
Qed.

(** ** Nothing but the client sends requests *)

(** An invariant of the requests sent. *)
Section audited.
Context (φ : list (files * request) → Prop).
Let I (w : eworld) : Prop := φ (ew_audit w).

Lemma audit_onFiles {A} (m : FM A) : preserves I (onFiles m).
Proof. intros v w Hw. unfold onFiles. by destruct (m v (ew_files w)) as [[[a|e|] v'] fs]. Qed.
Lemma audit_onRuntime {A} (m : RuntimeConfig.RM A) : preserves I (onRuntime m).
Proof.
  intros v w Hw. unfold onRuntime. destruct (ew_rc w) as [rc|]; [|done].
  by destruct (m v _) as [[[a|e|] v'] fs].
Qed.
Lemma audit_manager f : preserves (E:=cerror) I (modify (set_manager f)).
Proof. by apply triple_modify. Qed.
Lemma audit_NewString : preserves I NewString.
Proof. by intros v w Hw. Qed.
Lemma audit_NewKeyAndCSR : preserves I NewKeyAndCSR.
Proof. intros v w Hw. unfold NewKeyAndCSR. by destruct (head (ew_keys w)) as [[kp|]|]. Qed.
Lemma audit_deferring {A} f (m : EM A) : (∀ w, I w → I (f w)) → preserves I m → preserves I (deferring f m).
Proof. intros Hf Hm. apply triple_enroll_deferring. eapply triple_conseq; [exact Hm|done|..]; eauto. Qed.
End audited.

Section facts.
Context (cfg : Config) (client : option Client).
Context (suffix : files → string → string).
Context (parse : string → option json).
Context (marshal_enroll : EnrollRequest → option string).
Context (marshal_pending : pendingEnrollment → option string) (decode_pending : string → option pendingEnrollment).
Context (marshal_state : PersistedIdentityState → option string)
        (decode_state : string → option PersistedIdentityState).
Context (valid_url : string → bool) (uuid_Parse : string → bool).
Context (parse_time : string → option time) (format_time format_nano : time → string).
Context (pem_decode : string → option (string * string * string)).
Context (parse_certificate : string → option certificate).
Context (x509_key_pair : string → string → option (list string)).
Context (Apply : option json → RuntimeConfig.RM bool).
Context (Hostname GOOS GOARCH Release : string).

Context (suffix_fresh : ∀ fs path, fs !! temp_path suffix fs path = None).

Abbreviation Recover := (RecoverIdentity cfg client suffix parse marshal_enroll marshal_pending decode_pending
  marshal_state valid_url uuid_Parse parse_time format_time format_nano pem_decode parse_certificate
  x509_key_pair Apply Hostname GOOS GOARCH Release).
Abbreviation Ensure := (EnsureInitialIdentity cfg client suffix parse marshal_enroll marshal_pending decode_pending
  marshal_state valid_url uuid_Parse parse_time format_time format_nano pem_decode parse_certificate
  x509_key_pair Apply Hostname GOOS GOARCH Release).
Abbreviation finalize := (finalizePendingEnrollment cfg suffix marshal_state parse_time format_time format_nano
  pem_decode parse_certificate x509_key_pair Apply).
Abbreviation save := (savePendingEnrollment cfg suffix marshal_pending uuid_Parse format_nano).
Abbreviation path := (pendingEnrollmentPath cfg).

(** *** Requests are durable before they leave *)

(** The files hold the pending enrollment of this request. *)
Definition on_file (fs : files) (r : EnrollRequest) : Prop :=
  ∃ f p, fs !! path = Some f ∧ decode_pending (f_data f) = Some p ∧
    marshal_enroll (pe_Request p) = marshal_enroll r.

Definition durable (entry : files * request) : Prop :=
  ∃ r, on_file entry.1 r ∧ q_Body entry.2 = marshal_enroll r ∧ is_Some (marshal_enroll r).

Section durable.
(** The encodings: the token of a request is not encoded, everything else of a
    pending enrollment is. *)
Context (token_unencoded : ∀ t r, marshal_enroll (with_token t r) = marshal_enroll r).
Context (pending_stable : ∀ p b, marshal_pending p = Some b → ∃ p', decode_pending (b +:+ newline) = Some p' ∧
  marshal_enroll (pe_Request p') = marshal_enroll (pe_Request p)).
Context (Hplain : plain_path path = true) (Hvisible : no_temp [path] = true).

Let audited (w : eworld) : Prop := Forall durable (ew_audit w).

Lemma finalize_audited p : preserves audited (finalize p).
Proof.
  unfold finalizePendingEnrollment, ApplyCredentialUpdate, lift_text.
  repeat first
    [ apply preserves_bind; [|intros ?]
    | apply (audit_onFiles (Forall durable)) | apply (audit_onRuntime (Forall durable))
    | apply (audit_manager (Forall durable)) | apply preserves_try
    | progress (auto with effects) | case_match ].
Qed.

Lemma save_spec p :
  triple audited (save p)
    (λ p' w, audited w ∧ on_file (ew_files w) (pe_Request p')) (λ _, audited) audited.
Proof.
  unfold savePendingEnrollment. destruct (is_empty path); [by apply triple_throw|].
  destruct (negb (known_method _)); [by apply triple_throw|]. destruct (negb (uuid_Parse _)); [by apply triple_throw|].
  eapply triple_bind with (Q' := λ _, audited); [by apply triple_now|]. intros t. cbv zeta.
  destruct (marshal_pending _) as [b|] eqn:Hb; [|by apply triple_throw].
  destruct (pending_stable _ _ Hb) as (p' & Hp' & Hreq).
  eapply triple_bind with (Q' := λ _ w, audited w ∧ on_file (ew_files w) (pe_Request (stamped (format_nano t) (claimed cfg p)))).
  - apply triple_start. intros w0 Hw0.
    assert (path ∈ [path]) as Hin by (by left).
    pose proof (triple_wrap "persist pending enrollment" _ _ _ _ _
      (AtomicWriteFile_spec suffix suffix_fresh [path] Hvisible path (b +:+ newline) 384 (ew_files w0) Hin Hplain)) as Hw.
    eapply triple_conseq; [apply (triple_onEnrollFiles w0 _ _ _ _ Hw)|done|..].
    + intros _ w (fs & -> & Hfs). split; [done|]. exists (File (b +:+ newline) 384), p'. cbn.
      split; [|by split]. rewrite (Hfs path Hin). apply lookup_insert_eq.
    + by intros e w (s & fs & -> & _).
    + by intros w (fs & -> & _).
  - intros _. apply triple_ret. by intros w Hw.
Qed.

(** One call of the client. *)
Lemma Enroll_sends cp r c0 :
  let sends c := cw_log c = cw_log c0 ∨ ∃ q, cw_log c = cw_log c0 ++ [q] ∧ q_Body q = marshal_enroll r ∧ is_Some (marshal_enroll r) in
  triple (λ c, c = c0) (Enroll parse marshal_enroll valid_url cp r) (λ _, sends) (λ _, sends) sends.
Proof.
  intros sends. assert (∀ c, c = c0 → sends c) as Hno by (intros c ->; by left).
  unfold Enroll. destruct (is_empty _); [by apply triple_throw|].
  destruct (marshal_enroll r) as [b|] eqn:Hb; [|by apply triple_throw].
  destruct (negb _); [by apply triple_throw|].
  match goal with |- context [exchange "enroll" ?q] => set (req := q) end.
  assert (∀ c, cw_log c = cw_log c0 ++ [req] → sends c) as Hyes.
  { intros c Hc. right. exists req. by split. }
  assert (∀ c a, exchanged c0 c ([] ++ [(req, a)]) → sends c) as Hex by (intros c a [Hc _]; by apply Hyes).
  eapply triple_bind with (Q' := λ _, sends).
  - eapply triple_conseq; [apply (exchange_spec "enroll" req c0 [])|..].
    + intros c ->. apply exchanged_nil.
    + intros [status body] c. apply Hex.
    + intros e c [a H]. by eapply Hex.
    + intros c H. by apply Hyes.
  - intros [status body]. destruct (negb _); [by apply triple_throw|].
    destruct (unmarshal _ _ _ _); [by apply triple_ret|by apply triple_throw].
Qed.

Lemma attempt_audited cp p token :
  triple (λ w, audited w ∧ on_file (ew_files w) (pe_Request p))
    (attemptPendingEnrollment cfg suffix parse marshal_enroll marshal_pending marshal_state valid_url uuid_Parse
       parse_time format_time format_nano pem_decode parse_certificate x509_key_pair Apply cp p token)
    (λ _, audited) (λ _, audited) audited.
Proof.
  unfold attemptPendingEnrollment. eapply triple_bind with (Q' := λ _, audited).
  - intros v w [Hw Hfile]. unfold onClient.
    pose proof (Enroll_sends cp (with_token (TrimSpace token) (pe_Request p)) (ew_client w) v _ eq_refl) as H.
    cbn zeta in H. rewrite token_unencoded in H.
    destruct (Enroll _ _ _ _ _ v (ew_client w)) as [[o v'] c].
    assert (Forall durable (ew_audit w ++ map (pair (ew_files w)) (drop (length (cw_log (ew_client w))) (cw_log c)))) as Ha.
    { apply Forall_app. split; [done|]. assert (cw_log c = cw_log (ew_client w) ∨ ∃ q, cw_log c = cw_log (ew_client w) ++ [q]
        ∧ q_Body q = marshal_enroll (pe_Request p) ∧ is_Some (marshal_enroll (pe_Request p))) as [->|(q & -> & Hq & Hs)].
      { by destruct o. }
      - by rewrite drop_all.
      - rewrite drop_app_length. constructor; [|constructor]. exists (pe_Request p). by split_and!. }
    destruct o; exact Ha.
  - intros r. destruct (Negotiate _); [|by apply triple_throw].
    eapply triple_bind with (Q' := λ _, audited).
    { eapply triple_conseq; [apply save_spec|done| |done|done]. by intros p' w [? _]. }
    intros p'. eapply triple_bind with (Q' := λ _, audited); [|intros _; by apply triple_ret].
    apply triple_wrapping; [|done]. apply finalize_audited.
Qed.

Ltac audit :=
  first [ apply (audit_onFiles (Forall durable)) | apply (audit_manager (Forall durable))
        | apply (audit_NewString (Forall durable)) | apply (audit_NewKeyAndCSR (Forall durable)) ].

Lemma record_audited now failures e : preserves audited (recordRecoveryFailure cfg now failures e).
Proof. unfold recordRecoveryFailure. apply preserves_bind; [audit|intros _; auto with effects]. Qed.

Lemma cleared_audited e : preserves audited (clear_if_incompatible cfg e).
Proof. unfold clear_if_incompatible. destruct (refused_as_incompatible e); [audit|auto with effects]. Qed.

Lemma try_methods_audited cp now failures keyPEM csrPEM methods : ∀ lastErr,
  preserves audited (try_methods cfg suffix parse marshal_enroll marshal_pending marshal_state valid_url uuid_Parse
    parse_time format_time format_nano pem_decode parse_certificate x509_key_pair Apply
    Hostname GOOS GOARCH Release cp now failures keyPEM csrPEM methods lastErr).
Proof.
  induction methods as [|method methods IH]; intros lastErr; cbn [try_methods]; [apply record_audited|].
  apply preserves_bind; [audit|]. intros id.
  eapply triple_bind; [apply save_spec|]. intros p.
  eapply triple_bind with (Q' := λ _, audited); [apply triple_try, attempt_audited|].
  intros [e|r]; [|by apply triple_ret]. destruct (is_401 e).
  - apply preserves_bind; [audit|]. intros _. apply IH.
  - apply preserves_bind; [apply cleared_audited|]. intros _. apply record_audited.
Qed.

Lemma enroll_anew_audited cp now failures methods :
  preserves audited (enroll_anew cfg suffix parse marshal_enroll marshal_pending marshal_state valid_url uuid_Parse
    parse_time format_time format_nano pem_decode parse_certificate x509_key_pair Apply
    Hostname GOOS GOARCH Release cp now failures methods).
Proof.
  unfold enroll_anew. destruct methods as [|method methods]; [apply record_audited|].
  apply preserves_bind; [|intros [keyPEM csrPEM]; apply try_methods_audited].
  unfold prepareEnrollmentCSR. destruct (_ || _); [auto with effects|audit].
Qed.

(** What a load finds. *)
Lemma load_reads : reads (loadPendingEnrollment cfg decode_pending uuid_Parse)
  (λ r fs, match r with
   | None => path = "" ∨ fs !! path = None
   | Some p => ∃ f, fs !! path = Some f ∧ checked_pending cfg decode_pending uuid_Parse (f_data f) = inr p end).
Proof.
  unfold loadPendingEnrollment. destruct (is_empty path) eqn:He.
  { apply reads_ret. intros fs. left. by apply is_empty_true in He. }
  eapply reads_bind; [apply ReadFile_reads|]. intros [d| |].
  - destruct (checked_pending cfg decode_pending uuid_Parse d) as [e|p] eqn:Hc; [apply reads_throw|].
    apply reads_ret. intros fs Hd. destruct (fs !! path) as [f|]; [|done]. injection Hd as <-. by exists f.
  - apply reads_ret. intros fs Hf. by right.
  - apply reads_throw.
Qed.

Lemma checked_decodes d p : checked_pending cfg decode_pending uuid_Parse d = inr p → decode_pending d = Some p.
Proof. unfold checked_pending. destruct (decode_pending d) as [p'|]; [|done]. repeat case_match; congruence. Qed.

Lemma resume_audited : preserves audited (resumePendingEnrollment cfg suffix decode_pending marshal_state uuid_Parse
  parse_time format_time format_nano pem_decode parse_certificate x509_key_pair Apply).
Proof.
  unfold resumePendingEnrollment. apply preserves_bind; [audit|]. intros [p|]; [|auto with effects].
  destruct (pe_Response p); [|auto with effects].
  apply preserves_bind; [apply finalize_audited|auto with effects].
Qed.

Lemma recover_body_audited cp now failures :
  preserves audited (recover_body cfg suffix parse marshal_enroll marshal_pending decode_pending marshal_state
    valid_url uuid_Parse parse_time format_time format_nano pem_decode parse_certificate x509_key_pair Apply
    Hostname GOOS GOARCH Release cp now failures).
Proof.
  unfold recover_body. apply preserves_bind; [apply triple_wrapping; [apply resume_audited|done]|].
  intros [|]; [auto with effects|]. apply preserves_bind.
  { unfold availableRecoveryMethods, CurrentBootstrapToken.
    repeat first [apply preserves_bind; [|intros ?] | audit | progress (auto with effects) | case_match]. }
  intros methods.
  eapply triple_bind with (Q' := λ r w, audited w ∧
    match r with Some p => on_file (ew_files w) (pe_Request p) | None => True end).
  { apply triple_wrapping; [|done].
    eapply triple_conseq; [apply (triple_reads _ _ audited (reads_onFiles _ _ load_reads))|done| |done|done].
    intros [p|] w [Hw H]; (split; [done|]); [|done]. destruct H as (f & Hf & Hc). exists f, p.
    apply checked_decodes in Hc. by split_and!. }
  intros [p|].
  2: { eapply triple_weaken; [|apply enroll_anew_audited]. by intros w [? _]. }
  destruct (is_empty _); [eapply triple_weaken; [|apply record_audited]; by intros w [? _]|].
  eapply triple_bind with (Q' := λ _, audited); [apply triple_try, attempt_audited|].
  intros [e|r]; [|by apply triple_ret]. destruct (is_401 e).
  - apply preserves_bind; [audit|]. intros _. apply enroll_anew_audited.
  - apply preserves_bind; [apply cleared_audited|]. intros _. apply record_audited.
Qed.

Lemma RecoverIdentity_audited force : preserves audited (Recover force).
Proof.
  unfold RecoverIdentity. destruct (negb _); [auto with effects|]. destruct client as [cp|]; [|auto with effects].
  apply preserves_bind; [auto with effects|]. intros t. apply preserves_bind; [auto with effects|]. intros m.
  destruct (m_recoveryInFlight m); [auto with effects|]. destruct (_ && _ && _); [auto with effects|].
  apply preserves_bind; [audit|]. intros _. apply (audit_deferring (Forall durable)); [done|apply recover_body_audited].
Qed.

Lemma EnsureInitialIdentity_audited : preserves audited Ensure.
Proof.
  unfold EnsureInitialIdentity. apply preserves_bind; [apply triple_wrapping; [apply resume_audited|done]|].
  intros _. apply preserves_bind; [auto with effects|]. intros m. apply preserves_bind.
  { unfold HasUsableIdentity. apply preserves_bind; [auto with effects|]. intros m'.
    destruct (is_empty _); [auto with effects|audit]. }
  intros [|].
  - destruct (is_empty _); [auto with effects|]. apply preserves_bind; [apply preserves_try; audit|auto with effects].
  - destruct (negb _); [auto with effects|apply RecoverIdentity_audited].
Qed.

(** The life of the manager: its two entry points, with any outcome. *)
Inductive identity_step (w w' : eworld) : Prop :=
  | step_recover force v o v' : Recover force v w = (o, v', w') → identity_step w w'
  | step_ensure v o v' : Ensure v w = (o, v', w') → identity_step w w'.

(** An enrollment request is durable before it leaves.  However the calls
    of the manager end, whatever the server answers and wherever the process is
    killed, the body of every request sent is that of the pending enrollment in
    the file when the call started, so a restart finds the transaction it belongs to and
    the key of its certificate request. *)
Theorem enroll_request_durable w w' :
  ew_audit w = [] → rtc identity_step w w' →
  ∀ fs q, (fs, q) ∈ ew_audit w' →
    ∃ f p, fs !! path = Some f ∧ decode_pending (f_data f) = Some p ∧
      q_Body q = marshal_enroll (pe_Request p) ∧ is_Some (q_Body q).
Proof using suffix_fresh token_unencoded pending_stable Hplain Hvisible.
  intros H0 Hsteps fs q Hin. assert (audited w) as Hw by (unfold audited; by rewrite H0).
  clear H0. assert (audited w') as Hw'.
  { clear Hin. induction Hsteps as [w|w w1 w2 Hstep _ IH]; [done|]. apply IH.
    destruct Hstep as [force v o v' Hrun|v o v' Hrun].
    - pose proof (RecoverIdentity_audited force v w Hw) as H. rewrite Hrun in H. by destruct o.
    - pose proof (EnsureInitialIdentity_audited v w Hw) as H. rewrite Hrun in H. by destruct o. }
  unfold audited in Hw'. rewrite Forall_forall in Hw'. destruct (Hw' _ Hin) as (r & (f & p & Hf & Hp & Hr) & Hq & Hs).
  exists f, p. cbn in *. rewrite Hq, Hr. by split_and!.
Qed.
End durable.

(** *** A response that cannot be finalised *)

(** A response for another agent, or without a credential. *)
Definition unusable (r : EnrollResponse) : bool :=
  negb (str_eqb (TrimSpace (es_AgentID r)) (TrimSpace (cf_AgentID cfg))) ||
  is_empty (TrimSpace (cr_Credential (es_Credential r))).

(** The pending enrollment on disk has such a response. *)
Definition wedged (w : eworld) : Prop :=
  path ≠ "" ∧ ∃ f p r, ew_files w !! path = Some f ∧ checked_pending cfg decode_pending uuid_Parse (f_data f) = inr p ∧
    pe_Response p = Some r ∧ unusable r = true.

Lemma finalize_unusable p r w0 : pe_Response p = Some r → unusable r = true →
  triple (λ w, w = w0) (finalize p) (λ _ _, False) (λ _ w, w = w0) (λ w, w = w0).
Proof.
  intros Hr Hu. unfold finalizePendingEnrollment. rewrite Hr. unfold unusable in Hu.
  destruct (negb (str_eqb _ _)); [by apply triple_throw|]. cbn [orb] in Hu. rewrite Hu.
  destruct (Negotiate _); by apply triple_throw.
Qed.

Lemma resume_unusable w0 : wedged w0 →
  triple (λ w, w = w0) (resumePendingEnrollment cfg suffix decode_pending marshal_state uuid_Parse
    parse_time format_time format_nano pem_decode parse_certificate x509_key_pair Apply)
    (λ _ _, False) (λ _ w, w = w0) (λ w, w = w0).
Proof.
  intros (Hpath & f & p & r & Hf & Hc & Hr & Hu). unfold resumePendingEnrollment.
  eapply triple_reads_bind; [apply (reads_onFiles _ _ load_reads)| |done|done]. intros o.
  intros v w [-> Ho]. destruct o as [p'|].
  - destruct Ho as (f' & Hf' & Hc'). rewrite Hf in Hf'. injection Hf' as <-. rewrite Hc in Hc'. injection Hc' as <-.
    rewrite Hr. eapply triple_bind with (Q' := λ _ _, False); [by apply (finalize_unusable p r w0)| |done].
    by intros _ ? ?.
  - destruct Ho as [?|Hn]; [done|congruence].
Qed.

(** What a call cannot change. *)
Definition untouched (w0 w : eworld) : Prop :=
  ew_files w = ew_files w0 ∧ ew_client w = ew_client w0 ∧ ew_audit w = ew_audit w0.

Lemma Recover_unusable force w0 : wedged w0 →
  triple (λ w, w = w0) (Recover force) (λ _ _, False) (λ _, untouched w0) (untouched w0).
Proof.
  intros Hw. assert (∀ w, w = w0 → untouched w0 w) as Hsame by by intros w ->.
  unfold RecoverIdentity. destruct (negb _); [by apply triple_throw|]. destruct client as [cp|]; [|by apply triple_throw].
  eapply triple_bind with (Q' := λ _ w, w = w0); [by apply triple_now|]. intros t.
  eapply triple_bind with (Q' := λ _ w, w = w0); [by apply triple_gets|]. intros m.
  destruct (m_recoveryInFlight m); [by apply triple_throw|]. destruct (_ && _ && _); [by apply triple_throw|].
  eapply triple_bind with (Q' := λ _ w, w = set_manager begin_recovery w0); [by apply triple_modify; intros w ->|].
  intros _. apply triple_enroll_deferring. unfold recover_body.
  eapply triple_bind with (Q' := λ _ _, False); [|by intros ? ? ?].
  eapply triple_wrapping; [|done].
  eapply triple_conseq; [apply (resume_unusable (set_manager begin_recovery w0))|done|done| |]; [exact Hw| |].
  - by intros e w ->.
  - by intros w ->.
Qed.

Lemma Ensure_unusable w0 : wedged w0 →
  triple (λ w, w = w0) Ensure (λ _ _, False) (λ _, untouched w0) (untouched w0).
Proof.
  intros Hw. unfold EnsureInitialIdentity. eapply triple_bind with (Q' := λ _ _, False); [|by intros ? ? ?].
  apply triple_wrapping; [|done]. eapply triple_conseq; [by apply (resume_unusable w0)|done|done| |].
  - by intros e w ->.
  - by intros w ->.
Qed.

(** A saved response that cannot be finalised blocks every later
    enrollment.  The response is saved before it is checked, and both entry
    points finish what is saved first: once the file holds a response for
    another agent or without a credential, no call succeeds any more, none sends
    a request, and none changes a file, whatever the server would answer. *)
Theorem unusable_response_wedges w w' :
  wedged w → rtc identity_step w w' →
  untouched w w' ∧ wedged w' ∧
  ∀ force v, (Recover force v w').1.1 ≠ Ok tt ∧ (Ensure v w').1.1 ≠ Ok tt.
Proof.
  assert (∀ w1 w2, wedged w1 → untouched w1 w2 → wedged w2) as Hkeep.
  { intros w1 w2 (Hp & H) (Hf & _). split; [done|]. by rewrite Hf. }
  intros Hw Hsteps. assert (untouched w w' ∧ wedged w') as [Hu Hw'].
  { induction Hsteps as [w|w w1 w2 Hstep _ IH]; [done|].
    assert (untouched w w1) as H1.
    { destruct Hstep as [force v o v' Hrun|v o v' Hrun].
      - pose proof (Recover_unusable force w Hw v w eq_refl) as H. rewrite Hrun in H. by destruct o.
      - pose proof (Ensure_unusable w Hw v w eq_refl) as H. rewrite Hrun in H. by destruct o. }
    destruct (IH (Hkeep _ _ Hw H1)) as [(Ha & Hb & Hc) H2]. destruct H1 as (Hd & He & Hf).
    split; [|done]. split_and!; congruence. }
  split; [done|]. split; [done|]. intros force v. split.
  - pose proof (Recover_unusable force w' Hw' v w' eq_refl) as H. by destruct (Recover force v w') as [[[[]| |] ?] ?].
  - pose proof (Ensure_unusable w' Hw' v w' eq_refl) as H. by destruct (Ensure v w') as [[[[]| |] ?] ?].
Qed.

(** *** Credentials survive a restart *)

Section survival.
Abbreviation id_path := (cf_AgentIdentityStateFile cfg).
Abbreviation cred_path := (cf_CredentialFile cfg).

(** The state encoded is the state decoded. *)
Context (state_stable : ∀ s b, marshal_state s = Some b → decode_state (b +:+ newline) = Some s).

(** The two files the update writes. *)
Definition identity_files : list string := if is_empty cred_path then [id_path] else [id_path; cred_path].
Context (Hplain : forallb plain_path identity_files = true) (Hvisible : no_temp identity_files = true).
Context (Hdistinct : id_path ≠ cred_path).

Definition same_state (s st : PersistedIdentityState) : Prop :=
  is_AgentID s = TrimSpace (is_AgentID st) ∧ is_Credential s = TrimSpace (is_Credential st) ∧
  is_CredentialExpiresAt s = TrimSpace (is_CredentialExpiresAt st) ∧
  is_RenewalToken s = TrimSpace (is_RenewalToken st) ∧
  is_RenewalTokenExpiresAt s = TrimSpace (is_RenewalTokenExpiresAt st) ∧
  is_PreviousRenewalToken s = TrimSpace (is_PreviousRenewalToken st) ∧
  is_PreviousRenewalTokenExpiresAt s = TrimSpace (is_PreviousRenewalTokenExpiresAt st) ∧
  is_BootstrapTokenConsumed s = is_BootstrapTokenConsumed st.

Definition saved (st : PersistedIdentityState) (fs : files) : Prop :=
  ∃ f s, fs !! id_path = Some f ∧ decode_state (f_data f) = Some s ∧ same_state s st.

Definition kept (st : PersistedIdentityState) (fs0 fs : files) : Prop :=
  fs !! id_path = fs0 !! id_path ∨ saved st fs.

Lemma id_plain : plain_path id_path = true ∧ id_path ∈ identity_files.
Proof using Hplain.
  unfold identity_files in Hplain |- *. destruct (is_empty cred_path); cbn in Hplain; apply andb_true_iff in Hplain as [H _];
    (split; [done|by left]).
Qed.

Lemma SaveIdentityState_spec st fs0 :
  triple (λ fs, fs = fs0) (SaveIdentityState suffix marshal_state format_time id_path st)
    (λ _, saved st) (λ _, kept st fs0) (kept st fs0).
Proof using state_stable Hplain Hvisible suffix_fresh.
  destruct id_plain as [Hp Hin]. pose proof Hp as [Hne Htrim]%andb_true_iff.
  apply str_eqb_eq in Htrim. apply negb_true_iff in Hne.
  unfold SaveIdentityState. rewrite Htrim, Hne.
  eapply triple_bind with (Q' := λ _ fs, fs = fs0); [by apply triple_now|]. intros t. cbv zeta.
  match goal with |- context [marshal_state ?x] => set (st' := x) end.
  destruct (marshal_state st') as [b|] eqn:Hb; [|apply triple_throw; intros fs ->; by left].
  assert (∀ fs, replaced identity_files id_path (b +:+ newline) 384 fs0 fs → saved st fs) as Hsaved.
  { intros fs Hfs. exists (File (b +:+ newline) 384), st'. rewrite (Hfs id_path Hin). split; [apply lookup_insert_eq|].
    split; [by apply state_stable|]. unfold st', same_state. cbn. by split_and!. }
  eapply triple_conseq; [apply (AtomicWriteFile_spec suffix suffix_fresh identity_files Hvisible id_path _ 384 fs0 Hin Hp)|done|..].
  - intros u fs. apply Hsaved.
  - intros e fs [H|H]; [left; by apply H|right; by apply Hsaved].
  - intros fs [H|H]; [left; by apply H|right; by apply Hsaved].
Qed.

(** The compatibility copy of the credential leaves the state alone. *)
Lemma credential_file_spec st data fs0 : is_empty cred_path = false → saved st fs0 →
  triple (λ fs, fs = fs0) (AtomicWriteFile suffix cred_path data 384) (λ _, saved st) (λ _, saved st) (saved st).
Proof using Hplain Hvisible Hdistinct suffix_fresh.
  intros He Hs. assert (identity_files = [id_path; cred_path]) as Hfiles by (unfold identity_files; by rewrite He).
  rewrite Hfiles in *. cbn in Hplain. apply andb_true_iff in Hplain as [_ [Hp _]%andb_true_iff].
  assert (∀ fs fs', agree [id_path; cred_path] fs fs' → saved st fs' → saved st fs) as Hagree.
  { intros fs fs' Ha (f & s & Hf & H). exists f, s. split; [|done]. rewrite (Ha id_path); [done|by left]. }
  assert (∀ fs, replaced [id_path; cred_path] cred_path data 384 fs0 fs → saved st fs) as Hrep.
  { intros fs Hr. apply (Hagree _ _ Hr). destruct Hs as (f & s & Hf & H). exists f, s. split; [|done].
    by rewrite lookup_insert_ne. }
  eapply triple_conseq; [apply (AtomicWriteFile_spec suffix suffix_fresh [id_path; cred_path] Hvisible cred_path data 384 fs0)|..].
  - right. by left.
  - exact Hp.
  - done.
  - intros u fs. apply Hrep.
  - intros e fs [H|H]; [by apply (Hagree _ fs0)|by apply Hrep].
  - intros fs [H|H]; [by apply (Hagree _ fs0)|by apply Hrep].
Qed.

(** A manager that starts from what is on disk has this identity. *)
Definition same_identity (m m' : Manager) : Prop :=
  m_cred m = m_cred m' ∧ m_credExp m = m_credExp m' ∧ m_renewalToken m = m_renewalToken m' ∧
  m_renewalExp m = m_renewalExp m' ∧ m_previousRenewalToken m = m_previousRenewalToken m' ∧
  m_previousRenewalExp m = m_previousRenewalExp m' ∧ m_bootstrapConsumed m = m_bootstrapConsumed m'.

Lemma Parse_trim s : ParseOptionalRFC3339 parse_time (TrimSpace s) = ParseOptionalRFC3339 parse_time s.
Proof. unfold ParseOptionalRFC3339. by rewrite TrimSpace_idem. Qed.

Lemma load_saved m0 update method fs0 :
  let st := updated_state cfg format_time m0 update method in
  is_empty (TrimSpace (cr_Credential update)) = false → saved st fs0 →
  succeeds (λ fs, fs = fs0) (load_identity cfg decode_state "")
    (λ cfg' _, same_identity (NewManager cfg' parse_time) (updated_manager parse_time st update m0)).
Proof using Hplain.
  intros st Hcred (f & s & Hf & Hd & H). destruct H as (Hid & Hc & Hce & Hr & Hre & Hpr & Hpre & Hb).
  destruct id_plain as [[Hne Htrim]%andb_true_iff _]. apply str_eqb_eq in Htrim. apply negb_true_iff in Hne.
  unfold load_identity. eapply succeeds_bind with (Q' := λ r _, r = inr (trimmed_state (cf_AgentID cfg) s)).
  { apply succeeds_try. unfold LoadIdentityState. rewrite Htrim, Hne.
    eapply succeeds_bind; [apply ReadFile_succeeds|]. intros r. intros t fs [-> ->]. rewrite Hf, Hd.
    rewrite Hid, TrimSpace_idem. change (is_AgentID st) with (cf_AgentID cfg). rewrite str_eqb_refl.
    destruct (negb (is_empty (TrimSpace (cf_AgentID cfg)))); cbn; by do 2 eexists. }
  intros r. eapply succeeds_bind with (Q' := λ c _, r = inr (trimmed_state (cf_AgentID cfg) s) ∧ c = is_Credential s).
  - intros t fs ->. cbn [is_Credential trimmed_state]. rewrite !TrimSpace_empty. cbn [is_empty].
    rewrite Hc. change (is_Credential st) with (TrimSpace (cr_Credential update)). rewrite !TrimSpace_idem, Hcred.
    cbn [andb]. by do 2 eexists.
  - intros c. apply succeeds_ret. intros fs [-> ->]. unfold same_identity, NewManager, updated_manager.
    cbn -[TrimSpace ParseOptionalRFC3339].
    rewrite Hc, Hce, Hr, Hre, Hpr, Hpre, Hb, !Parse_trim, !TrimSpace_idem.
    cbn -[TrimSpace ParseOptionalRFC3339]. rewrite !Parse_trim.
    assert (∀ (b : bool) x y, (TrimSpace (if b then TrimSpace x else TrimSpace y)) = if b then TrimSpace x else TrimSpace y) as Hif.
    { by intros [] ??; rewrite TrimSpace_idem. }
    rewrite !Hif, !TrimSpace_idem. by split_and!.
Qed.

(** C19: credentials survive a restart.  When an update of the credentials
    succeeds, a manager started from the files afterwards has the identity that is in
    memory now.  When it fails or the process is killed, the memory is unchanged
    and the file holds the old state or the new one entirely. *)
Theorem credentials_survive_restart update method w0 :
  let st := updated_state cfg format_time (ew_m w0) update method in
  triple (λ w, w = w0) (ApplyCredentialUpdate cfg suffix marshal_state parse_time format_time update method)
    (λ _ w, succeeds (λ fs, fs = ew_files w) (load_identity cfg decode_state "")
              (λ cfg' _, same_identity (NewManager cfg' parse_time) (ew_m w)))
    (λ _ w, ew_m w = ew_m w0 ∧ kept st (ew_files w0) (ew_files w))
    (λ w, ew_m w = ew_m w0 ∧ kept st (ew_files w0) (ew_files w)).
Proof using state_stable Hplain Hvisible Hdistinct suffix_fresh.
  intros st. unfold ApplyCredentialUpdate.
  destruct (is_empty (TrimSpace (cr_Credential update))) eqn:Hcred.
  { apply triple_throw. intros w ->. split; [done|by left]. }
  eapply triple_bind with (Q' := λ m w, m = ew_m w0 ∧ w = w0); [apply triple_gets; by intros w ->|].
  intros m. apply triple_pure. intros ->. cbv zeta. fold st.
  set (S w := ew_m w = ew_m w0 ∧ saved st (ew_files w)).
  assert (∀ w, S w → ew_m w = ew_m w0 ∧ kept st (ew_files w0) (ew_files w)) as HS.
  { intros w [? ?]. split; [done|by right]. }
  eapply triple_bind with (Q' := λ _, S).
  { eapply triple_conseq; [apply (triple_onEnrollFiles w0 _ _ _ _ (SaveIdentityState_spec st (ew_files w0)))|done|..].
    - by intros u w (fs & -> & H).
    - by intros e w (x & fs & -> & _ & H).
    - by intros w (fs & -> & H). }
  intros _. eapply triple_bind with (Q' := λ _, S).
  { destruct (is_empty cred_path) eqn:He; [by apply triple_ret|].
    eapply triple_bind with (Q' := λ _, S); [|intros _; by apply triple_ret].
    apply triple_try. apply triple_start. intros w1 [Hm Hs].
    eapply triple_conseq; [apply (triple_onEnrollFiles w1 _ _ _ _ (credential_file_spec st _ (ew_files w1) He Hs))|done|..].
    - by intros u w (fs & -> & H).
    - by intros e w (x & fs & -> & _ & H).
    - intros w (fs & -> & H). by apply HS. }
  intros _. apply triple_modify. intros w [Hm Hs]. cbn. rewrite Hm. by apply load_saved.
Qed.
End survival.
End facts.

(** ** Examples *)

Definition demo_cfg : Config := {|
  cf_AgentID := "agent-1"; cf_Profile := "sensor"; cf_AgentIdentityStateFile := "/s/id";
  cf_CredentialFile := "/s/credential"; cf_BootstrapToken := "boot"; cf_BootstrapTokenFile := "";
  cf_ForceEnrollOnStart := true; cf_TLSCAFile := ""; cf_TLSCertFile := ""; cf_TLSKeyFile := "";
  cf_AgentCredential := ""; cf_AgentCredentialExpiresAt := ""; cf_RenewalToken := "";
  cf_RenewalTokenExpiresAt := ""; cf_PreviousRenewalToken := ""; cf_PreviousRenewalTokenExpiresAt := "";
  cf_BootstrapTokenConsumed := false |}.

Definition demo_credential (c : string) : json := JObj [("agent_id", JStr "agent-1"); ("credential", JObj [("credential", JStr c)])].
Definition demo_parse_doc (s : string) : option json :=
  if str_eqb s "good" then Some (demo_credential "c1") else
  if str_eqb s "empty" then Some (demo_credential "") else None.

Definition demo_response (c : string) : EnrollResponse :=
  Build_EnrollResponse "agent-1" None (Build_Credential c "" 0 0 "" "") None None.

Definition demo_request (id : string) : EnrollRequest := Build_EnrollRequest id "agent-1" "" "" "" "" 1 "sensor" "" "".

(** The pending enrollment is encoded as what kind of response it has and its
    transaction id. *)
Definition demo_marshal_pending (p : pendingEnrollment) : option string :=
  Some (String (match pe_Response p with
                | None => "0" | Some r => if is_empty (cr_Credential (es_Credential r)) then "1" else "2" end)%char
       (eq_EnrollmentID (pe_Request p))).
Definition chop (s : string) : string := of_chars (removelast (to_chars s)).
Definition demo_decode_pending (s : string) : option pendingEnrollment :=
  match s with
  | String a id => Some {| pe_Version := 2; pe_AgentID := "agent-1"; pe_Method := "bootstrap";
      pe_Request := demo_request (chop id);
      pe_Response := if Ascii.eqb a "0" then None else Some (demo_response (if Ascii.eqb a "1" then "" else "c1"));
      pe_KeyPEM := ""; pe_CreatedAt := "t"; pe_UpdatedAt := "t" |}
  | EmptyString => None
  end.

Definition demo_marshal_enroll (r : EnrollRequest) : option string := Some (eq_EnrollmentID r).

Lemma chop_newline s : chop (s +:+ newline) = s.
Proof.
  unfold chop. rewrite to_chars_app. change (to_chars newline) with [ascii_of_nat 10].
  by rewrite removelast_last, of_to_chars.
Qed.

Lemma demo_pending_stable p b : demo_marshal_pending p = Some b → ∃ p', demo_decode_pending (b +:+ newline) = Some p' ∧
  demo_marshal_enroll (pe_Request p') = demo_marshal_enroll (pe_Request p).
Proof.
  unfold demo_marshal_pending. intros [= <-]. cbn [String.append demo_decode_pending].
  eexists. split; [reflexivity|]. unfold demo_marshal_enroll. cbn [pe_Request demo_request eq_EnrollmentID].
  by rewrite chop_newline.
Qed.

Definition demo_state : PersistedIdentityState :=
  Build_PersistedIdentityState "agent-1" "c1" "" "" "" "" "" "bootstrap" true "t".
#[export] Instance state_eq_dec : EqDecision PersistedIdentityState.
Proof. solve_decision. Defined.
Definition demo_marshal_state (s : PersistedIdentityState) : option string :=
  if decide (s = demo_state) then Some "S" else None.
Definition demo_decode_state (s : string) : option PersistedIdentityState :=
  if str_eqb s ("S" +:+ newline) then Some demo_state else None.

Lemma demo_state_stable s b : demo_marshal_state s = Some b → demo_decode_state (b +:+ newline) = Some s.
Proof. unfold demo_marshal_state. destruct (decide _) as [->|]; [|done]. by intros [= <-]. Qed.

Definition demo_step (force : bool) (w : eworld) :=
  RecoverIdentity demo_cfg (Some (New "https://cp" "agent-1")) long_suffix demo_parse_doc demo_marshal_enroll
    demo_marshal_pending demo_decode_pending demo_marshal_state (λ _, true) (λ _, true) (λ _, None) (λ _, "t") (λ _, "t")
    (λ _, None) (λ _, None) (λ _ _, None) (λ _, retM false) "host" "linux" "amd64" "1" force (Env [] []) w.

Definition demo_world (a : answer) : eworld :=
  EW ∅ (NewManager demo_cfg (λ _, None)) None (CW [] [a]) ["id-1"; "id-2"] [] [].

Lemma demo_step_step force w : identity_step demo_cfg (Some (New "https://cp" "agent-1")) long_suffix demo_parse_doc
  demo_marshal_enroll demo_marshal_pending demo_decode_pending demo_marshal_state (λ _, true) (λ _, true)
  (λ _, None) (λ _, "t") (λ _, "t") (λ _, None) (λ _, None) (λ _ _, None) (λ _, retM false) "host" "linux" "amd64" "1"
  w (demo_step force w).2.
Proof. destruct (demo_step force w) as [[o v'] w'] eqn:H. by econstructor 1. Qed.

Definition demo_done : eworld := (demo_step false (demo_world (Answer 200 "good"))).2.
Definition demo_entry : files * request := List.hd (∅, Build_request "" "" [] None) (ew_audit demo_done).

(** A complete enrollment: one request, durable. *)
Lemma enroll_request_durable_witness :
  ew_audit demo_done = [demo_entry] ∧ q_Body demo_entry.2 = Some "id-1" ∧ m_cred (ew_m demo_done) = "c1" ∧
  ∃ f, demo_entry.1 !! "/s/id.pending-enrollment" = Some f.
Proof.
  assert (ew_audit demo_done = [demo_entry]) as Ha by (vm_compute; reflexivity).
  split; [exact Ha|]. split; [vm_compute; reflexivity|]. split; [vm_compute; reflexivity|].
  destruct (enroll_request_durable demo_cfg (Some (New "https://cp" "agent-1")) long_suffix demo_parse_doc
    demo_marshal_enroll demo_marshal_pending demo_decode_pending demo_marshal_state (λ _, true) (λ _, true)
    (λ _, None) (λ _, "t") (λ _, "t") (λ _, None) (λ _, None) (λ _ _, None) (λ _, retM false) "host" "linux" "amd64" "1"
    long_suffix_fresh (λ t r, eq_refl) demo_pending_stable eq_refl eq_refl
    (demo_world (Answer 200 "good")) demo_done eq_refl
    (rtc_once _ _ (demo_step_step false _)) demo_entry.1 demo_entry.2) as (f & p & Hf & _).
  - rewrite Ha, <- surjective_pairing. by left.
  - exists f. exact Hf.
Defined.

(** An answer without a credential, then one that would do. *)
Definition demo_stuck : eworld := (demo_step false (demo_world (Answer 200 "empty"))).2.

Lemma unusable_response_wedges_witness :
  ∀ force v, (RecoverIdentity demo_cfg (Some (New "https://cp" "agent-1")) long_suffix demo_parse_doc demo_marshal_enroll
    demo_marshal_pending demo_decode_pending demo_marshal_state (λ _, true) (λ _, true) (λ _, None) (λ _, "t") (λ _, "t")
    (λ _, None) (λ _, None) (λ _ _, None) (λ _, retM false) "host" "linux" "amd64" "1" force v demo_stuck).1.1 ≠ Ok tt.
Proof.
  destruct (unusable_response_wedges demo_cfg (Some (New "https://cp" "agent-1")) long_suffix demo_parse_doc
    demo_marshal_enroll demo_marshal_pending demo_decode_pending demo_marshal_state (λ _, true) (λ _, true)
    (λ _, None) (λ _, "t") (λ _, "t") (λ _, None) (λ _, None) (λ _ _, None) (λ _, retM false) "host" "linux" "amd64" "1"
    demo_stuck demo_stuck) as (_ & _ & H).
  - split; [done|]. eexists _, _, (demo_response ""). split; [vm_compute; reflexivity|].
    split; [vm_compute; reflexivity|]. split; [vm_compute; reflexivity|]. vm_compute. reflexivity.
  - constructor.
  - intros force v. apply H.
Defined.

Definition demo_update := ApplyCredentialUpdate demo_cfg long_suffix demo_marshal_state (λ _, None) (λ _, "t")
  (Build_Credential "c1" "" 0 0 "" "") "bootstrap" (quiet 1) (demo_world (NetError "")).

Lemma credentials_survive_restart_witness :
  demo_update.1.1 = Ok tt ∧
  m_cred (NewManager (match load_identity demo_cfg demo_decode_state "" (quiet 1) (ew_files demo_update.2) with
    | (Ok cfg', _, _) => cfg' | _ => demo_cfg end) (λ _, None)) = "c1".
Proof.
  pose proof (credentials_survive_restart demo_cfg long_suffix demo_marshal_state demo_decode_state (λ _, None) (λ _, "t")
    long_suffix_fresh demo_state_stable eq_refl eq_refl ltac:(discriminate)
    (Build_Credential "c1" "" 0 0 "" "") "bootstrap" (demo_world (NetError "")) (quiet 1) _ eq_refl) as H.
  fold demo_update in H. assert (demo_update.1.1 = Ok tt) as Hok by (vm_compute; reflexivity).
  assert (m_cred (ew_m demo_update.2) = "c1") as Hc by (vm_compute; reflexivity).
  split; [exact Hok|]. destruct demo_update as [[o v] w]. cbn [fst snd] in *. subst o.
  destruct (H 1 _ eq_refl) as (cfg' & w' & Hload & Hsame & _). rewrite Hload, Hsame. exact Hc.
Defined.
