(* ===== verification/Fim.v ===== *)
(** * Fim: file integrity monitoring (internal/collectors/fim/fim.go)

    A capture lists the watched files, hashes the regular ones with a cache, and
    reports the differences to the previous capture.  What the operating system
    shows during a capture is a [view]: the files as trees, the matches of
    patterns and the contents.  Go leaves the order of map iterations and of
    equal elements under [sort.Slice] open: they are parameters. *)

From stdpp Require Import pretty.
From S2P Require Import Prelude GoStr GoText GoJson Event.
From Stdlib Require Import Ascii.

Local Open Scope Z_scope.
Local Open Scope go_scope.

Definition defaultMaxBatch : Z := 200.
Definition defaultHashMaxBytes : Z := 2 * 1024 * 1024.
Definition defaultMinInterval : duration := 30 * second.
Definition defaultHashCacheItems : Z := 4096.
Definition hashCacheSettleWindow : duration := second.

Record Options := {
  o_WatchPaths : list string;
  o_Exclude : list string;
  o_MinInterval : duration;
  o_MaxBatchSize : Z;
  o_MaxDepth : Z;
  o_EmitInitialState : bool;
  o_HashEnabled : bool;
  o_HashMaxBytes : Z;
  o_HashCacheTTL : duration;
  o_HashCacheMaxItems : Z;
}.

Record fileState := {
  fs_Path : string;
  fs_Category : string;
  fs_Exists : bool;
  fs_Size : Z;
  fs_ModUnix : Z;
  fs_Mode : Z;
  fs_UID : Z;
  fs_GID : Z;
  fs_Inode : Z;
  fs_IsDir : bool;
  fs_Digest : string;
}.

#[export] Instance fileState_eq_dec : EqDecision fileState.
Proof. solve_decision. Defined.

Record hashEntry := { he_value : string; he_size : Z; he_modUnix : Z; he_computedAt : time }.

Record Capturer := {
  c_agentID : string;
  c_opts : Options;
  c_lastRun : time;
  c_initialized : bool;
  c_snapshot : gmap string fileState;
  c_inodeIndex : gmap Z string;
  c_hashCache : gmap string hashEntry;
}.

(** ** What a capture sees *)

(** [fs.FileInfo]: [fi_Sys] is the owner, group and inode. *)
Record info := {
  fi_Size : Z;
  fi_ModUnixNano : Z;
  fi_Perm : Z;
  fi_IsDir : bool;
  fi_Sys : option (Z * Z * Z);
}.

(** An entry of a directory: whether it is one, what [Info] returns, and what
    [ReadDir] finds in it. *)
#[warnings="-register-all"]
Inductive node := Node (isdir : bool) (i : option info) (children : list (string * node)).

Definition node_info (n : node) : option info := let '(Node _ i _) := n in i.

Record view := {
  v_tree : string → option node;
  v_glob : string → list string;
  (** the content, when the file can be opened and read *)
  v_read : string → option string;
}.

(** ** Classification *)

Definition classifyPathCategory (path : string) : string :=
  let p := ToLower (Clean path) in
  if Contains p "/systemd/" && HasSuffix p ".service" then "systemd_unit" else
  if Contains p "/systemd/" then "systemd_override" else
  if Contains p "/cron" then "cron" else
  if HasSuffix p "/authorized_keys" then "ssh_authorized_keys" else
  if Contains p "/etc/ssh/" then "ssh_config" else
  if str_eqb p "/etc/profile" || Contains p "bashrc" || Contains p "zshrc" then "shell_profile" else
  if str_eqb p "/etc/rc.local" then "rc_local" else
  if str_eqb p "/etc/passwd" || str_eqb p "/etc/shadow" then "security_file" else "persistence_path".

(** Persistence and tampering. *)
Definition classifyRiskFlags (category : string) : bool * bool :=
  if str_in category ["systemd_unit"; "systemd_override"; "cron"; "ssh_authorized_keys"; "shell_profile";
                      "rc_local"; "persistence_path"] then (true, false) else
  if str_in category ["security_file"; "ssh_config"] then (false, true) else (false, false).

Definition eventTypeForCategory (category : string) : string :=
  if str_in category ["systemd_unit"; "systemd_override"] then "persistence_systemd" else
  if str_eqb category "cron" then "persistence_cron" else
  if str_eqb category "ssh_authorized_keys" then "ssh_key_change" else "fim_change".

Definition classifyChangeAction (old cur : fileState) : string :=
  if negb (is_empty (fs_Digest old)) && negb (is_empty (fs_Digest cur)) && negb (str_eqb (fs_Digest old) (fs_Digest cur))
  then "modify" else
  if negb (fs_Size old =? fs_Size cur) || negb (fs_ModUnix old =? fs_ModUnix cur) then "modify" else
  if negb (fs_UID old =? fs_UID cur) || negb (fs_GID old =? fs_GID cur) then "ownership_change" else
  if negb (fs_Mode old =? fs_Mode cur) then "permission_change" else "".

(** ** Options *)

Definition defaultWatchPaths : list string := [
  "/etc/systemd/system"; "/usr/lib/systemd/system"; "/lib/systemd/system";
  "/etc/cron.d"; "/etc/cron.daily"; "/etc/cron.hourly"; "/etc/cron.weekly"; "/etc/cron.monthly";
  "/var/spool/cron"; "/var/spool/cron/crontabs";
  "/root/.ssh/authorized_keys"; "/home/*/.ssh/authorized_keys"; "/etc/ssh/sshd_config"; "/etc/ssh/ssh_config";
  "/etc/profile"; "/etc/bash.bashrc"; "/etc/zsh/zshrc"; "/etc/rc.local"; "/etc/passwd"; "/etc/shadow"].

Definition positive_or (v def : Z) : Z := if v <=? 0 then def else v.

Definition applyDefaults (o : Options) : Options := {|
  o_WatchPaths := match o_WatchPaths o with [] => defaultWatchPaths | l => l end;
  o_Exclude := o_Exclude o;
  o_MinInterval := positive_or (o_MinInterval o) defaultMinInterval;
  o_MaxBatchSize := positive_or (o_MaxBatchSize o) defaultMaxBatch;
  o_MaxDepth := positive_or (o_MaxDepth o) 4;
  o_EmitInitialState := o_EmitInitialState o;
  o_HashEnabled := o_HashEnabled o;
  o_HashMaxBytes := positive_or (o_HashMaxBytes o) defaultHashMaxBytes;
  o_HashCacheTTL := positive_or (o_HashCacheTTL o) (6 * hour);
  o_HashCacheMaxItems := positive_or (o_HashCacheMaxItems o) defaultHashCacheItems |}.

Definition New (agentID : string) (opts : Options) : Capturer := {|
  c_agentID := TrimSpace agentID; c_opts := applyDefaults opts; c_lastRun := 0; c_initialized := false;
  c_snapshot := ∅; c_inodeIndex := ∅; c_hashCache := ∅ |}.

Section fim.
(** [hex.EncodeToString] of the SHA-256 of a text. *)
Context (sha256_hex : string → string).
(** The orders in which [diff] meets the entries of its two maps, and that of
    the cache entries after [sort.Slice]. *)
Context (order : gmap string fileState → list (string * fileState)).
Context (by_age : gmap string hashEntry → list (string * hashEntry)).

(** ** Scanning *)

Definition expandWatchPath (v : view) (path : string) : list string :=
  let p := TrimSpace path in
  if is_empty p then [] else if Contains p "*" then v_glob v p else [p].

Definition excluded_by (p ex : string) : bool :=
  let e := Clean (TrimSpace ex) in
  if is_empty e then false else str_eqb p e || HasPrefix p (e +:+ "/").

Definition isExcluded (o : Options) (path : string) : bool :=
  let p := Clean (TrimSpace path) in
  if is_empty p then true else existsb (excluded_by p) (o_Exclude o).

Definition pathDepth (path : string) : Z :=
  let p := Clean path in
  if str_eqb p "/" then 1 else Z.of_nat (length (Split p slash)).

(** What a scan builds: the states, the inodes and the cache. *)
Record scanned := { sc_out : gmap string fileState; sc_inodes : gmap Z string; sc_cache : gmap string hashEntry }.

(** The cached digest can be used: the file has not changed since, and it was
    old enough when it was read. *)
Definition cache_hit (o : Options) (e : hashEntry) (i : info) (now : time) : bool :=
  (hashCacheSettleWindow <=? wrap64 (UnixNano (he_computedAt e) - fi_ModUnixNano i)) &&
  (he_size e =? fi_Size i) && (he_modUnix e =? fi_ModUnixNano i) &&
  (time_sub now (he_computedAt e) <=? o_HashCacheTTL o).

(** The digest, if there is one, and the cache. *)
Definition hashFile (o : Options) (v : view) (path : string) (i : info) (now : time)
    (cache : gmap string hashEntry) : option string * gmap string hashEntry :=
  let key := Clean path in
  let fresh :=
    match v_read v path with
    | None => (None, cache)
    | Some content =>
      let sum := sha256_hex (str_take (Z.to_nat (o_HashMaxBytes o + 1)) content) in
      (Some sum, <[key := {| he_value := sum; he_size := fi_Size i; he_modUnix := fi_ModUnixNano i;
                             he_computedAt := now |}]> cache)
    end in
  match cache !! key with
  | Some cached =>
    if cache_hit o cached i now
    then (if is_empty (he_value cached) then None else Some (he_value cached), cache) else fresh
  | None => fresh
  end.

Definition buildState (o : Options) (v : view) (now : time) (path : string) (i : info)
    (cache : gmap string hashEntry) : fileState * gmap string hashEntry :=
  let '(uid, gid, ino) := default (0, 0, 0) (fi_Sys i) in
  let '(digest, cache) :=
    if o_HashEnabled o && negb (fi_IsDir i) && (0 <=? fi_Size i) && (fi_Size i <=? o_HashMaxBytes o)
    then hashFile o v path i now cache else (None, cache) in
  ({| fs_Path := path; fs_Category := classifyPathCategory path; fs_Exists := true;
      fs_Size := fi_Size i; fs_ModUnix := fi_ModUnixNano i; fs_Mode := fi_Perm i;
      fs_UID := uid; fs_GID := gid; fs_Inode := ino; fs_IsDir := fi_IsDir i;
      fs_Digest := default "" digest |}, cache).

Definition record_state (o : Options) (v : view) (now : time) (path : string) (i : info) (s : scanned) : scanned :=
  let '(st, cache) := buildState o v now path i (sc_cache s) in
  {| sc_out := <[path := st]> (sc_out s);
     sc_inodes := if 0 <? fs_Inode st then <[fs_Inode st := path]> (sc_inodes s) else sc_inodes s;
     sc_cache := cache |}.

(** [filepath.WalkDir] with the callback of [walkDir]: an entry that is excluded
    or too deep is left out with what is below it. *)
Fixpoint walk (o : Options) (v : view) (now : time) (root : string) (baseDepth : Z) (path : string) (n : node)
    (s : scanned) : scanned :=
  match n with
  | Node isdir i children =>
    if negb (str_eqb path root) && isExcluded o path then s else
    if (0 <? o_MaxDepth o) && (o_MaxDepth o <? pathDepth path - baseDepth) then s else
    let s := match i with Some i => record_state o v now path i s | None => s end in
    if isdir then
      (fix go (l : list (string * node)) (s : scanned) : scanned :=
         match l with
         | [] => s
         | (name, child) :: l => go l (walk o v now root baseDepth (JoinPath path name) child s)
         end) children s
    else s
  end.

Definition walkDir (o : Options) (v : view) (now : time) (root : string) (n : node) (s : scanned) : scanned :=
  walk o v now root (pathDepth root) root n s.

Definition scanPath (o : Options) (v : view) (now : time) (path : string) (s : scanned) : scanned :=
  let path := TrimSpace path in
  if is_empty path || isExcluded o path then s else
  match v_tree v path with
  | None => s
  | Some n =>
    match node_info n with
    | None => s
    | Some i => if fi_IsDir i then walkDir o v now path n s else record_state o v now path i s
    end
  end.

Definition scan (c : Capturer) (v : view) (now : time) : scanned :=
  fold_left (λ s raw, fold_left (λ s p, scanPath (c_opts c) v now p s) (expandWatchPath v raw) s)
    (o_WatchPaths (c_opts c))
    {| sc_out := ∅; sc_inodes := ∅; sc_cache := c_hashCache c |}.

(** ** Events *)

(** [%#o] *)
Fixpoint octal_digits (fuel : nat) (z : Z) (acc : string) : string :=
  match fuel with
  | O => acc
  | S fuel => if z <=? 0 then acc else octal_digits fuel (z `div` 8) (String (digit (z mod 8)) acc)
  end.
Definition sharp_octal (mode : Z) : string := "0" +:+ octal_digits 64 mode "".

Definition baseExtra (st : fileState) (action : string) : gmap string json :=
  let '(persist, tamper) := classifyRiskFlags (fs_Category st) in
  list_to_map [
    ("collector", JStr "fim_poll"); ("collection_method", JStr "poll_snapshot");
    ("signal_family", JStr "file_integrity"); ("path", JStr (fs_Path st));
    ("path_category", JStr (fs_Category st)); ("action", JStr action);
    ("persistence_related", JBool persist); ("tamper_related", JBool tamper);
    ("inode", JInt (fs_Inode st)); ("is_dir", JBool (fs_IsDir st));
    ("modified_unix_nano", JInt (fs_ModUnix st)); ("watch_model_revision", JInt 1)].

Definition previous (old : fileState) : json := JObj [
  ("path", JStr (fs_Path old)); ("uid", JInt (fs_UID old)); ("gid", JInt (fs_GID old));
  ("mode", JStr (sharp_octal (fs_Mode old))); ("size", JInt (fs_Size old)); ("digest", JStr (fs_Digest old))].

Definition makeDeleteEvent (c : Capturer) (now : time) (old : fileState) : NetEvent :=
  event (c_agentID c) (eventTypeForCategory (fs_Category old)) now "file" 0
    (<["previous" := previous old]> (baseExtra old "delete")).

Definition max64 (a b : Z) : Z := if b <? a then a else b.

Definition makeEvent (c : Capturer) (now : time) (cur : fileState) (action : string) (old : option fileState) : NetEvent :=
  let extra := baseExtra cur action in
  let extra := <["uid" := JInt (fs_UID cur)]> (<["gid" := JInt (fs_GID cur)]>
    (<["mode" := JStr (sharp_octal (fs_Mode cur))]> (<["size" := JInt (fs_Size cur)]> extra))) in
  let extra := if is_empty (fs_Digest cur) then extra else <["digest_after" := JStr (fs_Digest cur)]> extra in
  let extra := match old with
    | Some old =>
      let extra := <["previous" := previous old]> extra in
      if is_empty (fs_Digest old) then extra else <["digest_before" := JStr (fs_Digest old)]> extra
    | None => extra end in
  let extra := match old with
    | Some old =>
      if str_eqb action "rename" && negb (is_empty (fs_Path old))
      then <["path_from" := JStr (fs_Path old)]> (<["path_to" := JStr (fs_Path cur)]> extra) else extra
    | None => extra end in
  event (c_agentID c) (eventTypeForCategory (fs_Category cur)) now "file" (max64 (fs_Size cur) 0) extra.

(** ** Differences *)

(** The path a new file was renamed from, by its inode. *)
Definition renamed_from (prevInode : gmap Z string) (path : string) (cur : fileState) : option string :=
  if 0 <? fs_Inode cur then
    match prevInode !! fs_Inode cur with
    | Some oldPath => if str_eqb oldPath path then None else Some oldPath
    | None => None
    end
  else None.

(** A state of which only the path and the category are known. *)
Definition bare_state (path category : string) : fileState := {|
  fs_Path := path; fs_Category := category; fs_Exists := false; fs_Size := 0; fs_ModUnix := 0; fs_Mode := 0;
  fs_UID := 0; fs_GID := 0; fs_Inode := 0; fs_IsDir := false; fs_Digest := "" |}.

(** The first loop: the events and [renamedFrom]. *)
Fixpoint diff_current (c : Capturer) (now : time) (prev : gmap string fileState) (prevInode : gmap Z string)
    (curr : list (string * fileState)) (out : list NetEvent) (renamedFrom : gset string)
    : list NetEvent * gset string :=
  match curr with
  | [] => (out, renamedFrom)
  | (path, cur) :: curr =>
    match prev !! path with
    | None =>
      match renamed_from prevInode path cur with
      | Some oldPath =>
        let oldSt := default (bare_state oldPath (fs_Category cur)) (prev !! oldPath) in
        diff_current c now prev prevInode curr (out ++ [makeEvent c now cur "rename" (Some oldSt)])
          ({[oldPath]} ∪ renamedFrom)
      | None => diff_current c now prev prevInode curr (out ++ [makeEvent c now cur "create" None]) renamedFrom
      end
    | Some old =>
      let action := classifyChangeAction old cur in
      if is_empty action then diff_current c now prev prevInode curr out renamedFrom
      else diff_current c now prev prevInode curr (out ++ [makeEvent c now cur action (Some old)]) renamedFrom
    end
  end.

(** The second loop. *)
Fixpoint diff_previous (c : Capturer) (now : time) (curr : gmap string fileState) (renamedFrom : gset string)
    (prev : list (string * fileState)) (out : list NetEvent) : list NetEvent :=
  match prev with
  | [] => out
  | (path, old) :: prev =>
    if bool_decide (is_Some (curr !! path)) || bool_decide (path ∈ renamedFrom)
    then diff_previous c now curr renamedFrom prev out
    else diff_previous c now curr renamedFrom prev (out ++ [makeDeleteEvent c now old])
  end.

Definition diff (c : Capturer) (now : time) (prev curr : gmap string fileState) (prevInode : gmap Z string)
    : list NetEvent :=
  let '(out, renamedFrom) := diff_current c now prev prevInode (order curr) [] ∅ in
  diff_previous c now curr renamedFrom (order prev) out.

(** ** Captures *)

Definition cleanupHashCache (o : Options) (now : time) (cache : gmap string hashEntry) : gmap string hashEntry :=
  let cache :=
    if 0 <? o_HashCacheTTL o
    then filter (λ kv, ¬ (he_computedAt kv.2 < now - o_HashCacheTTL o)) cache else cache in
  if Z.of_nat (size cache) <=? o_HashCacheMaxItems o then cache else
  let drop := Z.of_nat (size cache) - o_HashCacheMaxItems o in
  foldr delete cache (map fst (take (Z.to_nat drop) (by_age cache))).

Definition with_capture (c : Capturer) (lastRun : time) (initialized : bool) (snapshot : gmap string fileState)
    (inodes : gmap Z string) (cache : gmap string hashEntry) : Capturer := {|
  c_agentID := c_agentID c; c_opts := c_opts c; c_lastRun := lastRun; c_initialized := initialized;
  c_snapshot := snapshot; c_inodeIndex := inodes; c_hashCache := cache |}.

(** [wall] is the clock, used when no time is given. *)
Definition Capture (c : Capturer) (v : view) (now wall : time) : list NetEvent * Capturer :=
  let now := if is_zero_time now then wall else now in
  let o := c_opts c in
  if (0 <? o_MinInterval o) && negb (is_zero_time (c_lastRun c)) && (time_sub now (c_lastRun c) <? o_MinInterval o)
  then ([], c) else
  let s := scan c v now in
  let first := negb (c_initialized c) in
  let c := if first then with_capture c now true (sc_out s) (sc_inodes s) (sc_cache s)
           else with_capture c now true (c_snapshot c) (c_inodeIndex c) (sc_cache s) in
  if first && negb (o_EmitInitialState o) then ([], c) else
  let events := diff c now (c_snapshot c) (sc_out s) (c_inodeIndex c) in
  let events := if o_MaxBatchSize o <? Z.of_nat (length events)
                then take (Z.to_nat (o_MaxBatchSize o)) events else events in
  (events, with_capture c now true (sc_out s) (sc_inodes s) (cleanupHashCache o now (sc_cache s))).

(** ** The differences, as a list *)

Definition current_event (c : Capturer) (now : time) (prev : gmap string fileState) (prevInode : gmap Z string)
    (pc : string * fileState) : option NetEvent :=
  let '(path, cur) := pc in
  match prev !! path with
  | None =>
    match renamed_from prevInode path cur with
    | Some oldPath => Some (makeEvent c now cur "rename" (Some (default (bare_state oldPath (fs_Category cur)) (prev !! oldPath))))
    | None => Some (makeEvent c now cur "create" None)
    end
  | Some old => let action := classifyChangeAction old cur in
                if is_empty action then None else Some (makeEvent c now cur action (Some old))
  end.

(** The paths new files were renamed from. *)
Definition rename_source (prev : gmap string fileState) (prevInode : gmap Z string) (pc : string * fileState) : option string :=
  match prev !! pc.1 with None => renamed_from prevInode pc.1 pc.2 | Some _ => None end.

Lemma diff_current_spec c now prev prevInode curr : ∀ out rf,
  diff_current c now prev prevInode curr out rf =
  (out ++ omap (current_event c now prev prevInode) curr, list_to_set (omap (rename_source prev prevInode) curr) ∪ rf).
Proof.
  induction curr as [|[path cur] curr IH]; intros out rf; cbn [diff_current omap list_omap].
  { cbn [list_to_set]. by rewrite app_nil_r, (left_id_L ∅ (∪)). }
  unfold current_event, rename_source. cbn [fst snd].
  destruct (prev !! path) as [old|].
  - destruct (is_empty (classifyChangeAction old cur)); rewrite IH; [done|]; by rewrite <- (assoc_L (++)).
  - destruct (renamed_from prevInode path cur) as [oldPath|]; rewrite IH; rewrite <- (assoc_L (++)); f_equal.
    by rewrite (assoc_L (∪)), (comm_L (∪) _ {[oldPath]}).
Qed.

Definition previous_event (c : Capturer) (now : time) (curr : gmap string fileState) (renamedFrom : gset string)
    (po : string * fileState) : option NetEvent :=
  if bool_decide (is_Some (curr !! po.1)) || bool_decide (po.1 ∈ renamedFrom) then None
  else Some (makeDeleteEvent c now po.2).

Lemma diff_previous_spec c now curr rf prev : ∀ out,
  diff_previous c now curr rf prev out = out ++ omap (previous_event c now curr rf) prev.
Proof.
  induction prev as [|[path old] prev IH]; intros out; cbn [diff_previous omap list_omap]; [by rewrite app_nil_r|].
  unfold previous_event. cbn [fst snd]. destruct (_ || _); rewrite IH; [done|]; by rewrite <- (assoc_L (++)).
Qed.

Definition renamed_set (prev curr : gmap string fileState) (prevInode : gmap Z string) : gset string :=
  list_to_set (omap (rename_source prev prevInode) (order curr)).

Lemma diff_spec c now prev curr prevInode :
  diff c now prev curr prevInode = omap (current_event c now prev prevInode) (order curr) ++
    omap (previous_event c now curr (renamed_set prev curr prevInode)) (order prev).
Proof. unfold diff. by rewrite diff_current_spec, diff_previous_spec, (right_id_L ∅ (∪)). Qed.

(** Equal snapshots have no differences. *)
Lemma classify_same st : classifyChangeAction st st = "".
Proof.
  unfold classifyChangeAction. rewrite str_eqb_refl, !Z.eqb_refl. cbn. by rewrite andb_false_r.
Qed.

Section ordered.
Context (order_perm : ∀ m, order m ≡ₚ map_to_list m).

Lemma order_elem m p st : (p, st) ∈ order m ↔ m !! p = Some st.
Proof using order_perm. by rewrite order_perm, elem_of_map_to_list. Qed.

Lemma diff_same c now m prevInode : diff c now m m prevInode = [].
Proof using order_perm.
  rewrite diff_spec. assert (∀ l, (∀ x, x ∈ l → x ∈ order m) →
    omap (current_event c now m prevInode) l = [] ∧ ∀ rf, omap (previous_event c now m rf) l = []) as H.
  { induction l as [|[p st] l IH]; intros Hl; [done|]. destruct IH as [IH1 IH2]; [intros x Hx; apply Hl; by right|].
    assert (m !! p = Some st) as Hp by (apply order_elem, Hl; by left). cbn [omap list_omap].
    unfold current_event at 1, previous_event at 1. cbn [fst snd]. rewrite Hp, classify_same.
    split; [exact IH1|]. intros rf. rewrite bool_decide_eq_true_2 by done. apply IH2. }
  destruct (H (order m)) as [-> H2]; [done|]. by rewrite H2.
Qed.

(** *** What the events say *)

Definition path_of (e : NetEvent) : option string := extra_string e "path".
Definition action_of (e : NetEvent) : option string := extra_string e "action".

Definition says (extra : gmap string json) (path action : string) : Prop :=
  extra !! "path" = Some (JStr path) ∧ extra !! "action" = Some (JStr action).

Lemma says_insert k v extra path action : str_in k ["path"; "action"] = false →
  says extra path action → says (<[k := v]> extra) path action.
Proof.
  intros Hk [Hp Ha]. unfold says.
  assert (∀ k', k' ∈ ["path"; "action"] → k ≠ k') as Hne.
  { intros k' Hk' ->. apply str_in_elem in Hk'. congruence. }
  rewrite !lookup_insert_ne by (apply Hne, list_elem_of_In; cbn; auto). done.
Qed.

Lemma baseExtra_says st action : says (baseExtra st action) (fs_Path st) action.
Proof. unfold baseExtra, says. destruct (classifyRiskFlags _). split; reflexivity. Qed.

Lemma says_event e extra path action : ne_Extra e = Some extra → says extra path action →
  path_of e = Some path ∧ action_of e = Some action.
Proof. intros He [Hp Ha]. unfold path_of, action_of, extra_string. by rewrite He, Hp, Ha. Qed.

Lemma makeEvent_says c now cur action old :
  path_of (makeEvent c now cur action old) = Some (fs_Path cur) ∧ action_of (makeEvent c now cur action old) = Some action.
Proof.
  eapply says_event; [reflexivity|]. cbv zeta.
  destruct old as [old|].
  all: repeat match goal with
    | |- says (if ?b then _ else _) _ _ => destruct b
    | |- says (<[_ := _]> _) _ _ => apply says_insert; [reflexivity|]
    end.
  all: apply baseExtra_says.
Qed.

Lemma makeDeleteEvent_says c now old :
  path_of (makeDeleteEvent c now old) = Some (fs_Path old) ∧ action_of (makeDeleteEvent c now old) = Some "delete".
Proof. eapply says_event; [reflexivity|]. apply says_insert; [reflexivity|apply baseExtra_says]. Qed.

(** *** Exactly the changes *)

Definition keyed (m : gmap string fileState) : Prop := ∀ p st, m !! p = Some st → fs_Path st = p.

(** The action to be reported for a path. *)
Definition expected (prev curr : gmap string fileState) (prevInode : gmap Z string) (p a : string) : Prop :=
  match prev !! p, curr !! p with
  | None, Some cur => a = match renamed_from prevInode p cur with Some _ => "rename" | None => "create" end
  | Some old, Some cur => a = classifyChangeAction old cur ∧ a ≠ ""
  | Some _, None => a = "delete" ∧ ¬ ∃ q cur, curr !! q = Some cur ∧ prev !! q = None ∧ renamed_from prevInode q cur = Some p
  | None, None => False
  end.

(** Events made from the entries of a map, one at most from each and about its key. *)
Lemma omap_about (f : string * fileState → option NetEvent) l :
  NoDup l.*1 → (∀ x e, x ∈ l → f x = Some e → path_of e = Some x.1) →
  NoDup (map path_of (omap f l)) ∧ ∀ e, e ∈ omap f l → ∃ x, x ∈ l ∧ path_of e = Some x.1.
Proof.
  induction l as [|x l IH]; intros Hnd Hf; [split; [constructor|by intros e ?%not_elem_of_nil]|].
  apply NoDup_cons in Hnd as [Hx Hnd]. destruct IH as [IH1 IH2]; [done|intros y e Hy; apply Hf; by right|].
  assert (∀ e, e ∈ omap f l → ∃ y, y ∈ x :: l ∧ path_of e = Some y.1) as Hin.
  { intros e He. destruct (IH2 e He) as (y & Hy & Hp). exists y. split; [by right|done]. }
  cbn [omap list_omap]. destruct (f x) as [e|] eqn:He; [|by split].
  assert (path_of e = Some x.1) as Hpe by (apply Hf; [by left|done]). split.
  - constructor; [|done]. rewrite Hpe. intros (e' & He' & Hin')%list_elem_of_fmap.
    destruct (IH2 e' Hin') as (y & Hy & Hp). rewrite Hp in He'. injection He' as Heq.
    apply Hx. rewrite Heq. by apply list_elem_of_fmap_2.
  - intros e' [->|He']%elem_of_cons; [exists x; split; [by left|done]|by apply Hin].
Qed.

Lemma order_keys m : NoDup (order m).*1.
Proof using order_perm. rewrite order_perm. apply NoDup_fst_map_to_list. Qed.

Lemma current_event_path c now prev prevInode m x e : keyed m → x ∈ order m →
  current_event c now prev prevInode x = Some e → path_of e = Some x.1.
Proof using order_perm.
  intros Hk Hx He. destruct x as [p cur]. apply order_elem, Hk in Hx. cbn [fst].
  assert (∀ a old, path_of (makeEvent c now cur a old) = Some p) as Hpath.
  { intros a old. destruct (makeEvent_says c now cur a old) as [-> _]. by rewrite Hx. }
  unfold current_event in He. repeat case_match; simplify_eq; apply Hpath.
Qed.

Lemma previous_event_path c now curr rf m x e : keyed m → x ∈ order m →
  previous_event c now curr rf x = Some e → path_of e = Some x.1 ∧ curr !! x.1 = None.
Proof using order_perm.
  intros Hk Hx He. destruct x as [p old]. apply order_elem, Hk in Hx. unfold previous_event in He. cbn [fst snd] in *.
  destruct (curr !! p) eqn:Hc; [by rewrite bool_decide_eq_true_2 in He|].
  destruct (_ || _); [done|]. injection He as <-. destruct (makeDeleteEvent_says c now old) as [-> _]. by rewrite Hx.
Qed.

Lemma elem_renamed_set prev curr prevInode p : p ∈ renamed_set prev curr prevInode ↔
  ∃ q cur, curr !! q = Some cur ∧ prev !! q = None ∧ renamed_from prevInode q cur = Some p.
Proof using order_perm.
  unfold renamed_set. rewrite elem_of_list_to_set, list_elem_of_omap. split.
  - intros ([q cur] & Hq%order_elem & Hr). unfold rename_source in Hr. cbn in Hr.
    destruct (prev !! q) eqn:Hp; [done|]. by exists q, cur.
  - intros (q & cur & Hq & Hp & Hr). exists (q, cur). split; [by apply order_elem|].
    unfold rename_source. cbn. by rewrite Hp.
Qed.

Lemma diff_paths c now prev curr prevInode : keyed prev → keyed curr →
  NoDup (map path_of (diff c now prev curr prevInode)).
Proof using order_perm.
  intros Hkp Hkc. rewrite diff_spec, map_app. set (rf := renamed_set prev curr prevInode).
  destruct (omap_about (current_event c now prev prevInode) (order curr)) as [H1 H2];
    [apply order_keys|intros x e; by apply current_event_path|].
  destruct (omap_about (previous_event c now curr rf) (order prev)) as [H3 H4];
    [apply order_keys|intros x e Hx He; by apply (previous_event_path c now curr rf prev x e)|].
  apply NoDup_app. split; [exact H1|]. split; [|exact H3].
  intros p (e & -> & He)%list_elem_of_fmap (e' & Heq & He')%list_elem_of_fmap.
  destruct (H2 e He) as ([q st] & Hq%order_elem & Hp). apply list_elem_of_omap in He' as (x & Hx & He').
  destruct (previous_event_path c now curr rf prev x e' Hkp Hx He') as [Hp' Hnone].
  rewrite Hp, Hp' in Heq. injection Heq as Heq. cbn in Heq. congruence.
Qed.

Lemma diff_says c now prev curr prevInode p a : keyed prev → keyed curr →
  (∃ e, e ∈ diff c now prev curr prevInode ∧ path_of e = Some p ∧ action_of e = Some a) ↔
  expected prev curr prevInode p a.
Proof using order_perm.
  intros Hkp Hkc. rewrite diff_spec. set (rf := renamed_set prev curr prevInode).
  assert (∀ cur a' old, fs_Path cur = p → a = a' → path_of (makeEvent c now cur a' old) = Some p ∧
    action_of (makeEvent c now cur a' old) = Some a) as Hmake.
  { intros cur a' old <- ->. apply makeEvent_says. }
  split.
  - intros (e & [He|He]%elem_of_app & Hpe & Hae); apply list_elem_of_omap in He as ([q st] & Hq & He).
    + pose proof (current_event_path c now prev prevInode curr _ e Hkc Hq He) as Hpq. cbn in Hpq.
      rewrite Hpe in Hpq. injection Hpq as <-. apply order_elem in Hq. unfold expected. rewrite Hq.
      unfold current_event in He. destruct (prev !! p) as [old|].
      * destruct (is_empty _) eqn:Hempty; [done|]. injection He as <-.
        destruct (makeEvent_says c now st (classifyChangeAction old st) (Some old)) as [_ Ha].
        rewrite Hae in Ha. injection Ha as ->. split; [done|]. by apply is_empty_false.
      * destruct (renamed_from prevInode p st); injection He as <-;
          [destruct (makeEvent_says c now st "rename" (Some (default (bare_state s (fs_Category st)) (prev !! s)))) as [_ Ha]
          |destruct (makeEvent_says c now st "create" None) as [_ Ha]]; rewrite Hae in Ha; by injection Ha as ->.
    + destruct (previous_event_path c now curr rf prev _ e Hkp Hq He) as [Hpq Hnone]. cbn in Hpq, Hnone.
      rewrite Hpe in Hpq. injection Hpq as <-. apply order_elem in Hq. unfold expected. rewrite Hq, Hnone.
      unfold previous_event in He. cbn in He. destruct (_ || _) eqn:Hb; [done|]. injection He as <-.
      destruct (makeDeleteEvent_says c now st) as [_ Ha]. rewrite Hae in Ha. injection Ha as ->. split; [done|].
      apply orb_false_iff in Hb as [_ Hb%bool_decide_eq_false]. by rewrite <- elem_renamed_set.
  - unfold expected. destruct (prev !! p) as [old|] eqn:Hp, (curr !! p) as [cur|] eqn:Hc; [| | |done].
    + intros [-> Hne%is_empty_false]. exists (makeEvent c now cur (classifyChangeAction old cur) (Some old)).
      split; [|by apply Hmake; [apply Hkc|]]. apply elem_of_app. left. apply list_elem_of_omap. exists (p, cur).
      split; [by apply order_elem|]. unfold current_event. by rewrite Hp, Hne.
    + intros [-> Hno]. exists (makeDeleteEvent c now old).
      split; [|destruct (makeDeleteEvent_says c now old) as [-> ->]; by rewrite (Hkp _ _ Hp)].
      apply elem_of_app. right. apply list_elem_of_omap. exists (p, old). split; [by apply order_elem|].
      unfold previous_event. cbn. rewrite Hc. rewrite (bool_decide_eq_false_2 (is_Some None)) by (by intros [? ?]).
      rewrite bool_decide_eq_false_2; [done|]. unfold rf. by rewrite elem_renamed_set.
    + intros ->. destruct (renamed_from prevInode p cur) as [oldPath|] eqn:Hr.
      * exists (makeEvent c now cur "rename" (Some (default (bare_state oldPath (fs_Category cur)) (prev !! oldPath)))).
        split; [|by apply Hmake; [apply Hkc|]]. apply elem_of_app. left. apply list_elem_of_omap. exists (p, cur).
        split; [by apply order_elem|]. unfold current_event. by rewrite Hp, Hr.
      * exists (makeEvent c now cur "create" None).
        split; [|by apply Hmake; [apply Hkc|]]. apply elem_of_app. left. apply list_elem_of_omap. exists (p, cur).
        split; [by apply order_elem|]. unfold current_event. by rewrite Hp, Hr.
Qed.
End ordered.

(** ** What a scan records *)

Lemma node_nested_ind (P : node → Prop) :
  (∀ isdir i children, Forall (λ x, P x.2) children → P (Node isdir i children)) → ∀ n, P n.
Proof.
  intros Hstep. fix IH 1. intros [isdir i children]. apply Hstep.
  induction children as [|[name child] children IHc]; constructor; [apply IH|exact IHc].
Qed.

(** [m] is the entry [q] of the tree [n] at [p]. *)
Inductive at_path : string → node → string → node → Prop :=
  | at_root p n : at_path p n p n
  | at_child p isdir i children name child q m :
      (name, child) ∈ children → at_path (JoinPath p name) child q m →
      at_path p (Node isdir i children) q m.

(** The view shows [i] as what [Lstat] says of [path]. *)
Definition shows (v : view) (path : string) (i : info) : Prop :=
  ∃ root n m, v_tree v root = Some n ∧ at_path root n path m ∧ node_info m = Some i.

Section scanning.
Context (o : Options) (v : view) (now : time) (P : scanned → Prop).
Context (Hrecord : ∀ path i s, shows v path i → P s → P (record_state o v now path i s)).

Lemma walk_inv root baseDepth n : ∀ path s,
  (∀ q m i, at_path path n q m → node_info m = Some i → shows v q i) → P s →
  P (walk o v now root baseDepth path n s).
Proof using Hrecord.
  induction n as [isdir i children IH] using node_nested_ind. intros path s Hshows Hs. cbn [walk].
  destruct (_ && isExcluded o path); [done|]. destruct (_ && _); [done|].
  assert (P (match i with Some i => record_state o v now path i s | None => s end)) as Hs1.
  { destruct i as [i|]; [|done]. apply Hrecord; [|done]. eapply Hshows; [apply at_root|done]. }
  clear Hs. destruct isdir; [|done].
  assert (∀ name child, (name, child) ∈ children → ∀ q m i, at_path (JoinPath path name) child q m →
    node_info m = Some i → shows v q i) as Hsub.
  { intros name child Hin q m i' Hat. eapply Hshows. by econstructor. }
  clear Hshows. revert Hs1. generalize (match i with Some i => record_state o v now path i s | None => s end).
  induction children as [|[name child] children IHc]; intros s1 Hs1; [done|].
  inversion IH as [|? ? IHhead IHtail]; subst. apply IHc; [done| |].
  - intros nm ch Hin. apply Hsub. by right.
  - apply IHhead; [|done]. apply (Hsub name child). by left.
Qed.

Lemma scanPath_inv path s : P s → P (scanPath o v now path s).
Proof using Hrecord.
  intros Hs. unfold scanPath. destruct (_ || _); [done|].
  destruct (v_tree v (TrimSpace path)) as [n|] eqn:Hn; [|done]. destruct (node_info n) as [i|] eqn:Hi; [|done].
  destruct (fi_IsDir i).
  - apply walk_inv; [|done]. intros q m i' Hat Hi'. by exists (TrimSpace path), n, m.
  - apply Hrecord; [|done]. exists (TrimSpace path), n, n. split; [done|]. split; [constructor|done].
Qed.

Lemma scan_inv c : c_opts c = o → P {| sc_out := ∅; sc_inodes := ∅; sc_cache := c_hashCache c |} → P (scan c v now).
Proof using Hrecord.
  intros Ho H0. unfold scan. rewrite Ho.
  assert (∀ l s, P s → P (fold_left (λ s p, scanPath o v now p s) l s)) as Hpaths.
  { induction l as [|p l IH]; intros s Hs; cbn [fold_left]; [done|]. apply IH, scanPath_inv, Hs. }
  revert H0. generalize {| sc_out := ∅; sc_inodes := ∅; sc_cache := c_hashCache c |}.
  induction (o_WatchPaths o) as [|p l IH]; intros s Hs; cbn [fold_left]; [done|]. apply IH, Hpaths, Hs.
Qed.
End scanning.

Lemma buildState_path o v now path i cache : fs_Path (buildState o v now path i cache).1 = path.
Proof. unfold buildState. repeat case_match; by simplify_eq/=. Qed.

Lemma scan_keyed c v now : keyed (sc_out (scan c v now)).
Proof.
  apply (scan_inv (c_opts c) v now (λ s, keyed (sc_out s))); [|done|intros p st; cbn; by rewrite lookup_empty].
  intros path i s _ Hs p st. unfold record_state.
  pose proof (buildState_path (c_opts c) v now path i (sc_cache s)) as Hp.
  destruct (buildState _ _ _ _ _ _) as [st' cache]. cbn in *. rewrite lookup_insert_Some.
  intros [[<- <-]|[_ H]]; [exact Hp|by apply Hs].
Qed.

(** ** Captures *)

(** A capture that is not skipped for coming too soon. *)
Definition due (c : Capturer) (now wall : time) : bool :=
  let now := if is_zero_time now then wall else now in
  negb ((0 <? o_MinInterval (c_opts c)) && negb (is_zero_time (c_lastRun c)) &&
        (time_sub now (c_lastRun c) <? o_MinInterval (c_opts c))).

Definition capture_time (now wall : time) : time := if is_zero_time now then wall else now.

(** The changes a capture finds, before the batch limit. *)
Definition found (c : Capturer) (v : view) (t : time) : list NetEvent :=
  diff c t (c_snapshot c) (sc_out (scan c v t)) (c_inodeIndex c).

Lemma diff_agent c c' now prev curr pi : c_agentID c = c_agentID c' → diff c now prev curr pi = diff c' now prev curr pi.
Proof.
  intros Ha. rewrite !diff_spec. f_equal; apply list_omap_ext, Forall_Forall2_diag, Forall_true; intros [p st].
  - unfold current_event, makeEvent. by rewrite Ha.
  - unfold previous_event, makeDeleteEvent. by rewrite Ha.
Qed.

Lemma Capture_due c v now wall : due c now wall = true → c_initialized c = true →
  let t := capture_time now wall in
  Capture c v now wall =
    (take (Z.to_nat (Z.min (Z.of_nat (length (found c v t))) (Z.max 0 (o_MaxBatchSize (c_opts c))))) (found c v t),
     with_capture c t true (sc_out (scan c v t)) (sc_inodes (scan c v t))
       (cleanupHashCache (c_opts c) t (sc_cache (scan c v t)))).
Proof.
  intros Hdue Hi t. unfold Capture, due in *. fold (capture_time now wall) in *. fold t in Hdue |- *.
  apply negb_true_iff in Hdue. rewrite Hdue, Hi. cbn [negb andb]. f_equal.
  rewrite (diff_agent _ c) by done. unfold with_capture at 1 2. cbn [c_snapshot c_inodeIndex].
  fold (found c v t). destruct (o_MaxBatchSize (c_opts c) <? _) eqn:E; zbool.
  - f_equal. lia.
  - rewrite take_ge; [done|lia].
Qed.

Section reporting.
Context (order_perm : ∀ m, order m ≡ₚ map_to_list m).


(** What a capture does not report is never reported.  The first capture
    emits nothing, [EmitInitialState] or not, since the snapshot it compares with
    is the one it has just taken; and after any other capture the snapshot is
    what it saw, so the changes that did not fit the batch are not reported by a
    later capture either. *)
Theorem unreported_changes_are_lost c v now wall :
  (c_initialized c = false → (Capture c v now wall).1 = []) ∧
  ∀ v' now' wall', due c now wall = true → c_initialized c = true →
    let c' := (Capture c v now wall).2 in
    sc_out (scan c' v' (capture_time now' wall')) = sc_out (scan c v (capture_time now wall)) →
    (Capture c' v' now' wall').1 = [].
Proof.
  split.
  - intros Hi. unfold Capture. fold (capture_time now wall). set (t := capture_time now wall).
    destruct (_ && _ && _); [done|]. rewrite Hi. cbn [negb andb].
    destruct (o_EmitInitialState (c_opts c)); cbn [negb]; [|done].
    cbn [with_capture c_snapshot c_inodeIndex]. rewrite diff_same by done. destruct (_ <? _); [cbn; by rewrite take_nil|done].
  - intros v' now' wall' Hdue Hi. rewrite (Capture_due c v now wall Hdue Hi). cbv zeta. cbn [snd].
    match goal with |- context [with_capture c ?a ?b ?m ?i ?h] => set (c' := with_capture c a b m i h) end.
    intros Hsame. destruct (due c' now' wall') eqn:Hdue'.
    + rewrite (Capture_due c' v' now' wall' Hdue') by done. cbn [fst]. unfold found. rewrite Hsame.
      cbn [c' with_capture c_snapshot].
      rewrite diff_same by done. apply take_nil.
    + unfold Capture, due in *. apply negb_false_iff in Hdue'. fold (capture_time now' wall') in *. by rewrite Hdue'.
Qed.
End reporting.

(** ** The hash cache *)

Definition digest (o : Options) (content : string) : string :=
  sha256_hex (str_take (Z.to_nat (o_HashMaxBytes o + 1)) content).

(** An instant and what the system shows at it. *)
Abbreviation observation := (time * view)%type.

(** A file whose content is not what it was then has been modified since then,
    up to the coarseness of modification times: less than the settle window. *)
Definition settled_writes (earlier later : observation) : Prop :=
  ∀ path i, shows later.2 path i → v_read earlier.2 (Clean path) ≠ v_read later.2 (Clean path) →
    UnixNano earlier.1 - hashCacheSettleWindow < fi_ModUnixNano i.

(** Instants between 1970 and 2262, modification times that fit an int64, and
    a file that is the same under its cleaned path. *)
Definition plausible (obs : observation) : Prop :=
  unix_epoch < obs.1 < unix_epoch + 2 ^ 63 ∧
  (∀ path i, shows obs.2 path i → in_int64 (fi_ModUnixNano i) = true) ∧
  ∀ path, v_read obs.2 path = v_read obs.2 (Clean path).

(** Every entry is the digest of the content at one of these observations. *)
Definition cache_ok (o : Options) (hist : list observation) (cache : gmap string hashEntry) : Prop :=
  ∀ key e, cache !! key = Some e → ∃ obs content, obs ∈ hist ∧ he_computedAt e = obs.1 ∧
    v_read obs.2 key = Some content ∧ he_value e = digest o content.

Definition digests_ok (o : Options) (v : view) (out : gmap string fileState) : Prop :=
  ∀ path st, out !! path = Some st → fs_Digest st ≠ "" →
    ∃ content, v_read v path = Some content ∧ fs_Digest st = digest o content.

(** What is settled was not modified after. *)
Lemma settled_before t m : 0 < t < 2 ^ 63 → in_int64 m = true →
  hashCacheSettleWindow <= wrap64 (t - m) → m <= t - hashCacheSettleWindow.
Proof.
  unfold in_int64, wrap64, min_int64, max_int64. intros Ht Hm. zbool. intros Hw.
  assert (0 < hashCacheSettleWindow) by (unfold hashCacheSettleWindow, second; lia).
  destruct (Z.lt_ge_cases (t - m) (2 ^ 63)) as [Hlt|Hge].
  - destruct (Z.lt_ge_cases (t - m) (- 2 ^ 63)) as [?|?]; [lia|]. rewrite Z.mod_small in Hw by lia. lia.
  - rewrite (Z.mod_eq _ (2 ^ 64)) in Hw by lia.
    rewrite <- (Z.div_unique (t - m + 2 ^ 63) (2 ^ 64) 1 (t - m - 2 ^ 63)) in Hw by lia. lia.
Qed.

Section cached.
Context (o : Options) (hist : list observation) (t : time) (v : view).
Context (Hlaw : ∀ obs, obs ∈ hist → settled_writes obs (t, v)).
Context (Htimes : Forall plausible (hist ++ [(t, v)])).

Let seen : list observation := hist ++ [(t, v)].

Lemma seen_plausible obs : obs ∈ seen → plausible obs.
Proof using Htimes. rewrite Forall_forall in Htimes. apply Htimes. Qed.

Lemma now_plausible : plausible (t, v).
Proof using Htimes. apply seen_plausible. apply elem_of_app. right. by left. Qed.

Lemma hashFile_sound path i cache : shows v path i → cache_ok o seen cache →
  let '(d, cache') := hashFile o v path i t cache in
  cache_ok o seen cache' ∧ ∀ x, d = Some x → ∃ content, v_read v path = Some content ∧ x = digest o content.
Proof using Hlaw Htimes.
  intros Hi Hc. unfold hashFile. destruct now_plausible as (_ & Hmods & Hclean). cbn [snd] in Hmods, Hclean.
  set (fresh := match v_read v path with Some content => _ | None => _ end).
  assert (let '(d, cache') := fresh in cache_ok o seen cache' ∧
    ∀ x, d = Some x → ∃ content, v_read v path = Some content ∧ x = digest o content) as Hfresh.
  { unfold fresh. destruct (v_read v path) as [content|] eqn:Hr; [|by split]. split.
    - intros key e. rewrite lookup_insert_Some. intros [[<- <-]|[_ H]]; [|by apply Hc].
      exists (t, v), content. cbn. rewrite <- Hclean. split_and!; [|done..]. apply elem_of_app. right. by left.
    - intros x [= <-]. by exists content. }
  destruct (cache !! Clean path) as [e|] eqn:He; [|exact Hfresh]. destruct (cache_hit o e i t) eqn:Hhit; [|exact Hfresh].
  clear Hfresh. split; [done|]. intros x Hx. destruct (is_empty (he_value e)); [done|]. injection Hx as <-.
  destruct (Hc _ _ He) as (obs & content & Hin & Hat & Hread & Hval). exists content. split; [|done].
  rewrite Hclean. destruct (decide (v_read obs.2 (Clean path) = v_read v (Clean path))) as [Heq|Hne]; [congruence|].
  exfalso. pose proof Hin as Hp%seen_plausible. apply elem_of_app in Hin as [Hin|[= ->]%list_elem_of_singleton]; [|done].
  specialize (Hlaw obs Hin path i Hi Hne). unfold cache_hit in Hhit. zbool.
  destruct Hp as (Ht & _). rewrite Hat in *.
  pose proof (settled_before (UnixNano obs.1) (fi_ModUnixNano i) (UnixNano_exact _ Ht) (Hmods _ _ Hi) ltac:(done)). lia.
Qed.

Lemma record_sound path i s : shows v path i →
  cache_ok o seen (sc_cache s) ∧ digests_ok o v (sc_out s) →
  cache_ok o seen (sc_cache (record_state o v t path i s)) ∧ digests_ok o v (sc_out (record_state o v t path i s)).
Proof using Hlaw Htimes.
  intros Hi [Hc Hd]. pose proof (hashFile_sound path i (sc_cache s) Hi Hc) as Hh.
  unfold record_state, buildState. destruct (default (0, 0, 0) (fi_Sys i)) as [[uid gid] ino].
  destruct (_ && (fi_Size i <=? o_HashMaxBytes o)) eqn:E.
  - destruct (hashFile o v path i t (sc_cache s)) as [d cache']. destruct Hh as [Hc' Hx]. cbn. split; [done|].
    intros p st. rewrite lookup_insert_Some. intros [[<- <-]|[_ H]]; [|by apply Hd]. cbn. intros Hne.
    destruct d as [x|]; [by apply Hx|done].
  - cbn. split; [done|]. intros p st. rewrite lookup_insert_Some. intros [[<- <-]|[_ H]]; [done|by apply Hd].
Qed.

Lemma scan_sound c : c_opts c = o → cache_ok o hist (c_hashCache c) →
  cache_ok o seen (sc_cache (scan c v t)) ∧ digests_ok o v (sc_out (scan c v t)).
Proof using Hlaw Htimes.
  intros Ho Hc. apply (scan_inv o v t (λ s, cache_ok o seen (sc_cache s) ∧ digests_ok o v (sc_out s))).
  - intros path i s. apply record_sound.
  - done.
  - split; cbn.
    + intros key e He. destruct (Hc key e He) as (obs & content & Hin & H). exists obs, content.
      split; [by apply elem_of_app; left|done].
    + intros p st. by rewrite lookup_empty.
Qed.
End cached.

Lemma cleanup_sub o now cache k e : cleanupHashCache o now cache !! k = Some e → cache !! k = Some e.
Proof.
  unfold cleanupHashCache. set (kept := if 0 <? o_HashCacheTTL o then _ else cache).
  assert (∀ k e, kept !! k = Some e → cache !! k = Some e) as Hk.
  { intros k' e'. unfold kept. destruct (0 <? _); [|done]. by intros [? _]%map_lookup_filter_Some. }
  destruct (_ <=? _); [apply Hk|]. intros H%foldr_delete_sub. by apply Hk.
Qed.

(** The captures of a history, at the instants it gives. *)
Definition captures (c : Capturer) (hist : list observation) : Capturer :=
  fold_left (λ c obs, (Capture c obs.2 obs.1 0).2) hist c.

Lemma Capture_cache c v now : unix_epoch < now → ∀ o, c_opts c = o →
  c_opts (Capture c v now 0).2 = o ∧
  ∀ k e, c_hashCache (Capture c v now 0).2 !! k = Some e →
    c_hashCache c !! k = Some e ∨ sc_cache (scan c v now) !! k = Some e.
Proof.
  intros Hnow o Ho. assert (is_zero_time now = false) as Hz.
  { unfold is_zero_time, unix_epoch, second in *. destruct (now =? 0) eqn:E; zbool; [lia|done]. }
  unfold Capture. rewrite Hz. destruct (_ && _ && _); [split; [done|by left]|].
  destruct (negb (c_initialized c)); cbn [andb]; [destruct (o_EmitInitialState _); cbn [negb]|];
    cbn [with_capture c_opts c_hashCache]; (split; [done|]); intros k e H; right; try done; by apply cleanup_sub in H.
Qed.

Lemma captures_cache agentID opts hist : StronglySorted settled_writes hist → Forall plausible hist →
  c_opts (captures (New agentID opts) hist) = applyDefaults opts ∧
  cache_ok (applyDefaults opts) hist (c_hashCache (captures (New agentID opts) hist)).
Proof.
  induction hist as [|[t v] hist IH] using rev_ind; intros Hs Hp.
  { split; [done|]. intros key e. unfold captures. cbn. by rewrite lookup_empty. }
  assert (StronglySorted settled_writes hist ∧ ∀ obs, obs ∈ hist → settled_writes obs (t, v)) as [Hs1 Hlaw].
  { apply StronglySorted_app in Hs as (H1 & H2 & _). split; [done|]. intros obs Hin. apply H1; [done|by left]. }
  pose proof Hp as [Hp1 Hpl]%Forall_app. apply Forall_singleton in Hpl as (Ht & _).
  destruct (IH Hs1 Hp1) as [Ho Hc]. unfold captures in *. rewrite fold_left_app. cbn [fold_left].
  set (c := fold_left _ hist _) in *. destruct (Capture_cache c v t ltac:(cbn in Ht; lia) _ Ho) as [Ho' Hsub].
  cbn [fst snd]. split; [done|]. destruct (scan_sound (applyDefaults opts) hist t v Hlaw Hp c Ho Hc) as [Hc' _].
  intros key e He. destruct (Hsub key e He) as [H|H]; [|by apply Hc'].
  destruct (Hc key e H) as (obs & content & Hin & Hrest). exists obs, content.
  split; [by apply elem_of_app; left|done].
Qed.

(** A cached digest is the digest of the present content.  After any
    captures, whatever was cached, the digest a capture records for a file is
    that of what the file contains then, provided a content that changed carries
    a modification time later than the instant it was read less the settle
    window. *)
Theorem hash_cache_sound agentID opts hist t v :
  StronglySorted settled_writes (hist ++ [(t, v)]) → Forall plausible (hist ++ [(t, v)]) →
  let c := captures (New agentID opts) hist in
  ∀ path st, sc_out (scan c v t) !! path = Some st → fs_Digest st ≠ "" →
    ∃ content, v_read v path = Some content ∧ fs_Digest st = digest (c_opts c) content.
Proof.
  intros Hs Hp c. pose proof Hp as [Hp1 _]%Forall_app. apply StronglySorted_app in Hs as (Hlaw & Hs1 & _).
  destruct (captures_cache agentID opts hist Hs1 Hp1) as [Ho Hc]. fold c in Ho, Hc. rewrite Ho.
  apply (scan_sound (applyDefaults opts) hist t v); [|done..]. intros obs Hin. apply Hlaw; [done|by left].
Qed.
End fim.

(** ** Examples *)

Definition demo_info (ino size mtime : Z) : info :=
  {| fi_Size := size; fi_ModUnixNano := mtime; fi_Perm := 420; fi_IsDir := false; fi_Sys := Some (0, 0, ino) |}.
Definition demo_dir : info :=
  {| fi_Size := 0; fi_ModUnixNano := 1; fi_Perm := 493; fi_IsDir := true; fi_Sys := Some (0, 0, 1) |}.

(** A directory with the given files: name, inode, modification time and
    content (that of the first one is read for all). *)
Definition demo_view (files : list (string * Z * Z * string)) : view := {|
  v_tree p := if str_eqb p "/w" then Some (Node true (Some demo_dir)
    (map (λ '(name, ino, mtime, content), (name, Node false (Some (demo_info ino (strlen content) mtime)) [])) files)) else None;
  v_glob _ := [];
  v_read p := match files with (_, content) :: _ => Some content | [] => None end |}.

Definition demo_opts (batch : Z) : Options := {|
  o_WatchPaths := ["/w"]; o_Exclude := []; o_MinInterval := 0; o_MaxBatchSize := batch; o_MaxDepth := 0;
  o_EmitInitialState := true; o_HashEnabled := true; o_HashMaxBytes := 0; o_HashCacheTTL := 0; o_HashCacheMaxItems := 0 |}.

Definition demo_time (s : Z) : time := unix_epoch + s * second.
Definition demo_capture (c : Capturer) (v : view) (t : time) := Capture id map_to_list map_to_list c v t 0.
Definition demo_started (batch : Z) : Capturer :=
  (demo_capture (New "agent" (demo_opts batch)) (demo_view [("a", 2, 5, "one")]) (demo_time 100)).2.

Lemma demo_keyed batch : keyed (c_snapshot (demo_started batch)).
Proof.
  assert (c_snapshot (demo_started batch) =
    sc_out (scan id (New "agent" (demo_opts batch)) (demo_view [("a", 2, 5, "one")]) (demo_time 100))) as ->.
  { reflexivity. }
  apply scan_keyed.
Qed.

(** A file is renamed and another one appears. *)
Definition demo_later : view := demo_view [("b", 2, 5, "one"); ("c", 3, 6, "two")].


Lemma unreported_changes_are_lost_witness :
  length (demo_capture (demo_started 1) demo_later (demo_time 200)).1 = 1%nat ∧
  (demo_capture (demo_capture (demo_started 1) demo_later (demo_time 200)).2 demo_later (demo_time 300)).1 = [].
Proof.
  split; [vm_compute; reflexivity|].
  apply (unreported_changes_are_lost id map_to_list map_to_list (λ m, reflexivity _) (demo_started 1) demo_later (demo_time 200) 0);
    vm_compute; reflexivity.
Defined.

Definition demo_still : view := demo_view [("a", 2, 5, "one")].

Lemma demo_plausible s : 0 < s < 1000 → plausible (demo_time s, demo_still).
Proof.
  intros Hs. split; [unfold demo_time, second; cbn [fst]; lia|]. split; [|done].
  intros p i (root & n & m & Hroot & Hat & Hi). cbn in Hroot. destruct (str_eqb root "/w"); [|done].
  injection Hroot as <-. inversion Hat as [|? ? ? ? name child ? ? Hin Hat']; subst; [by injection Hi as <-|].
  apply list_elem_of_singleton in Hin as [= -> ->].
  inversion Hat' as [|? ? ? ? ? ? ? ? Hin' _]; subst; [by injection Hi as <-|by apply not_elem_of_nil in Hin'].
Qed.

Lemma demo_settled s t : settled_writes (demo_time s, demo_still) (demo_time t, demo_still).
Proof. intros p i _ []. done. Qed.

(** The file was settled when it was first hashed: the second capture takes the
    digest from the cache. *)
Lemma hash_cache_sound_witness :
  sc_cache (scan id (demo_started 10) demo_still (demo_time 200)) !! "/w/a" =
    Some {| he_value := "one"; he_size := 3; he_modUnix := 5; he_computedAt := demo_time 100 |} ∧
  ∃ st content, sc_out (scan id (demo_started 10) demo_still (demo_time 200)) !! "/w/a" = Some st ∧
    v_read demo_still "/w/a" = Some content ∧ fs_Digest st = digest id (c_opts (demo_started 10)) content.
Proof.
  split; [vm_compute; reflexivity|].
  assert (∃ st, sc_out (scan id (demo_started 10) demo_still (demo_time 200)) !! "/w/a" = Some st ∧ fs_Digest st = "one")
    as (st & Hst & Hd) by (eexists; split; vm_compute; reflexivity).
  destruct (hash_cache_sound id map_to_list map_to_list "agent" (demo_opts 10)
    [(demo_time 100, demo_still)] (demo_time 200) demo_still) with (path := "/w/a") (st := st) as (content & Hc & Hdig).
  - repeat constructor; apply demo_settled.
  - apply Forall_app. split; apply Forall_singleton, demo_plausible; lia.
  - exact Hst.
  - by rewrite Hd.
  - exists st, content. exact (conj Hst (conj Hc Hdig)).
Defined.
