(* ===== verification/Float.v ===== *)
(** * Float: Go's float64

    The IEEE 754 binary64 numbers of the Standard Library's [SpecFloat], whose
    operations round to nearest even.  The functions of package [math] that the
    programs call are parameters where they are used. *)

From Stdlib Require Export SpecFloat.
From S2P Require Import Prelude.

Local Open Scope Z_scope.
Local Open Scope go_scope.

Abbreviation float64 := spec_float.

Definition fadd : float64 → float64 → float64 := SFadd 53 1024.
Definition fsub : float64 → float64 → float64 := SFsub 53 1024.
Definition fmul : float64 → float64 → float64 := SFmul 53 1024.
Definition fdiv : float64 → float64 → float64 := SFdiv 53 1024.
Definition fopp : float64 → float64 := SFopp.

(** Comparisons: false when an operand is not a number. *)
Definition flt (x y : float64) : bool := SFltb x y.
Definition fle (x y : float64) : bool := SFleb x y.
Definition fgt (x y : float64) : bool := SFltb y x.
Definition fge (x y : float64) : bool := SFleb y x.
Definition fne (x y : float64) : bool := negb (SFeqb x y).

(** [float64(n)], and the literal [n * 10^-k]. *)
Definition of_int (z : Z) : float64 := binary_normalize 53 1024 z 0 false.
Definition lit (n : Z) (k : nat) : float64 := fdiv (of_int n) (of_int (10 ^ Z.of_nat k)).

Definition f0 : float64 := S754_zero false.

(** [int(v)]: truncation; what has no int64 becomes the least one. *)
Definition to_int (v : float64) : Z :=
  match v with
  | S754_zero _ => 0
  | S754_finite s m e =>
    let n := if 0 <=? e then Zpos m * 2 ^ e else Zpos m `div` 2 ^ (- e) in
    let n := if s then - n else n in
    if in_int64 n then n else min_int64
  | _ => min_int64
  end.

(** [math.Ldexp(1.0, e)] *)
Definition ldexp1 (e : Z) : float64 := SFldexp 53 1024 (of_int 1) e.

(** [math.Ceil] *)
Definition Ceil (v : float64) : float64 :=
  match v with
  | S754_finite s m e =>
    if 0 <=? e then v else
    let n := if s then - (Zpos m `div` 2 ^ (- e)) else - ((- Zpos m) `div` 2 ^ (- e)) in
    if n =? 0 then S754_zero s else of_int n
  | _ => v
  end.

(** [math.Pow(x, n)] for a positive odd integer [n]: Go squares the fraction of [x]
    along the bits of [n] and keeps the exponent apart. *)
Fixpoint pow_loop (n : positive) (x1 : float64) (xe : Z) (a1 : float64) (ae : Z) : float64 * Z :=
  let step (take : bool) (rest : float64 → Z → float64 → Z → float64 * Z) :=
    let '(a1, ae) := if take then (fmul a1 x1, ae + xe) else (a1, ae) in
    let x2 := fmul x1 x1 in
    if flt x2 (lit 5 1) then rest (fadd x2 x2) (2 * xe - 1) a1 ae else rest x2 (2 * xe) a1 ae in
  match n with
  | xH => (fmul a1 x1, ae + xe)
  | xO n => step false (pow_loop n)
  | xI n => step true (pow_loop n)
  end.
Definition PowInt (x : float64) (n : positive) : float64 :=
  match x with
  | S754_finite _ _ _ =>
    let '(x1, xe) := SFfrexp 53 1024 x in
    let '(a1, ae) := pow_loop n x1 xe (of_int 1) 0 in SFldexp 53 1024 a1 ae
  | _ => x
  end.

(** [time.Duration.Seconds] *)
Definition Seconds (d : duration) : float64 := fadd (of_int (Z.quot d second)) (fdiv (of_int (Z.rem d second)) (of_int (10 ^ 9))).

(** [internal/mathx] *)
Definition Round2 (v : float64) : float64 := fdiv (of_int (to_int (fmul v (of_int 100)))) (of_int 100).
Definition Round2HalfUp (v : float64) : float64 :=
  if fne v v then f0 else fdiv (of_int (to_int (fadd (fmul v (of_int 100)) (lit 5 1)))) (of_int 100).

(** ** Checks *)

Example lit_sum : flt (lit 3 1) (fadd (lit 1 1) (lit 2 1)) = true.
Proof. vm_compute. reflexivity. Qed.

Example int_of_negative : to_int (fdiv (of_int (-7)) (of_int 2)) = -3.
Proof. vm_compute. reflexivity. Qed.

Example round_third : SFeqb (Round2HalfUp (fdiv (of_int 2) (of_int 3))) (lit 67 2) = true.
Proof. vm_compute. reflexivity. Qed.
