(* ===== verification/Sketch.v ===== *)
(** * Sketch: heavy hitters and cardinalities
      (internal/collectors/ddos/topk.go, cardinality.go, entropy.go)

    The summaries a flood detector keeps of the sources of its packets: counters
    of the [k] heaviest keys with replacement of a least one (Space-Saving), and
    three estimates of the number of distinct sources.  [int] counters are
    integers; the order in which Go iterates over a map is a parameter. *)

From stdpp Require Import pretty.
From S2P Require Import Prelude GoStr Float.
From Stdlib Require Import Ascii NArith.

Local Open Scope Z_scope.
Local Open Scope go_scope.

(** ** The heaviest keys *)

Record TopK (K : Type) `{Countable K} := { tk_k : Z; tk_items : gmap K Z }.
Arguments tk_k {K _ _} _.
Arguments tk_items {K _ _} _.
Arguments Build_TopK {K _ _} _ _.

Section topk.
Context {K : Type} `{Countable K}.
Context (order : gmap K Z → list (K * Z)).

Definition NewTopK (k : Z) : TopK K := Build_TopK (if k <=? 0 then 10 else k) ∅.

Definition Reset (t : TopK K) : TopK K := Build_TopK (tk_k t) ∅.

(** The loop that looks for the least counter; the first one found wins. *)
Definition min_step (acc : option (K * Z)) (kv : K * Z) : option (K * Z) :=
  match acc with
  | None => Some kv
  | Some (_, minVal) => if kv.2 <? minVal then Some kv else acc
  end.
Definition min_entry (l : list (K * Z)) : option (K * Z) := fold_left min_step l None.

(** [Add] after its guard.  [zero] is the key removed when there is no counter at
    all; [None] is a return in that case. *)
Definition add (zero : option K) (t : TopK K) (key : K) (inc : Z) : TopK K :=
  match tk_items t !! key with
  | Some v => Build_TopK (tk_k t) (<[key := v + inc]> (tk_items t))
  | None =>
    if Z.of_nat (size (tk_items t)) <? tk_k t then Build_TopK (tk_k t) (<[key := inc]> (tk_items t)) else
    match min_entry (order (tk_items t)) with
    | Some (minKey, minVal) => Build_TopK (tk_k t) (<[key := minVal + inc]> (delete minKey (tk_items t)))
    | None =>
      match zero with
      | Some minKey => Build_TopK (tk_k t) (<[key := inc]> (delete minKey (tk_items t)))
      | None => t
      end
    end
  end.
End topk.

Definition TopKStr_Add (order : gmap string Z → list (string * Z)) (t : TopK string) (key : string) (inc : Z) : TopK string :=
  if is_empty key || (inc <=? 0) then t else add order None t key inc.

Definition TopKInt_Add (order : gmap Z Z → list (Z * Z)) (t : TopK Z) (key inc : Z) : TopK Z :=
  if (key <? 0) || (inc <=? 0) then t else add order (Some 0) t key inc.

(** [ItemsSorted]: by count downwards, then by key. *)
Definition str_item_le (a b : string * Z) : Prop := b.2 < a.2 ∨ (a.2 = b.2 ∧ String.le a.1 b.1).
Definition int_item_le (a b : Z * Z) : Prop := b.2 < a.2 ∨ (a.2 = b.2 ∧ a.1 <= b.1).
#[export] Instance str_item_le_dec : RelDecision str_item_le.
Proof. intros a b. unfold str_item_le. apply _. Defined.
#[export] Instance int_item_le_dec : RelDecision int_item_le.
Proof. intros a b. unfold int_item_le. apply _. Defined.

Definition TopKStr_ItemsSorted (t : TopK string) : list (string * Z) :=
  take (Z.to_nat (tk_k t)) (merge_sort str_item_le (map_to_list (tk_items t))).
Definition TopKInt_ItemsSorted (t : TopK Z) : list (Z * Z) :=
  take (Z.to_nat (tk_k t)) (merge_sort int_item_le (map_to_list (tk_items t))).

(** ** Distinct sources *)

Definition fnv_offset : Z := 14695981039346656037.
Definition fnv_prime64 : Z := 1099511628211.
Definition hash64String (s : string) : Z :=
  fold_left (λ h b, u64 (Z.lxor h (Z.of_N (code b)) * fnv_prime64)) (to_chars s) fnv_offset.

Record mapCounter := { mc_max : Z; mc_seen : gset string; mc_capped : bool }.
Record bloomCounter := { bc_max : Z; bc_bits : list Z; bc_m : Z; bc_capped : bool }.
Record hllCounter := { hc_max : Z; hc_p : Z; hc_m : Z; hc_regs : list Z; hc_capped : bool }.

Definition default_max (max : Z) : Z := if max <=? 0 then 4096 else max.

Definition newMapCounter (max : Z) : mapCounter := {| mc_max := default_max max; mc_seen := ∅; mc_capped := false |}.
Definition map_Reset (c : mapCounter) : mapCounter := {| mc_max := mc_max c; mc_seen := ∅; mc_capped := false |}.
Definition map_Add (c : mapCounter) (ip : string) : mapCounter :=
  if is_empty ip then c else
  if mc_capped c then c else
  if decide (ip ∈ mc_seen c) then c else
  if mc_max c <=? Z.of_nat (size (mc_seen c))
  then {| mc_max := mc_max c; mc_seen := mc_seen c; mc_capped := true |}
  else {| mc_max := mc_max c; mc_seen := {[ip]} ∪ mc_seen c; mc_capped := mc_capped c |}.
Definition map_Estimate (c : mapCounter) : Z := Z.of_nat (size (mc_seen c)).

Definition newBloomCounter (max bloomBits : Z) : bloomCounter :=
  let bloomBits := if bloomBits <=? 0 then 2048 else bloomBits in
  let bloomBits := if bloomBits <? 256 then 256 else bloomBits in
  let m := (bloomBits + 63) `div` 64 * 64 in
  {| bc_max := default_max max; bc_bits := replicate (Z.to_nat (m `div` 64)) 0; bc_m := m; bc_capped := false |}.
Definition bloom_Reset (b : bloomCounter) : bloomCounter :=
  {| bc_max := bc_max b; bc_bits := map (λ _, 0) (bc_bits b); bc_m := bc_m b; bc_capped := false |}.
Definition bloom_index (b : bloomCounter) (ip : string) : Z := hash64String ip mod bc_m b.
Definition bloom_Add (b : bloomCounter) (ip : string) : bloomCounter :=
  if is_empty ip then b else
  let idx := bloom_index b ip in
  {| bc_max := bc_max b;
     bc_bits := alter (λ w, Z.lor w (Z.shiftl 1 (Z.land idx 63))) (Z.to_nat (Z.shiftr idx 6)) (bc_bits b);
     bc_m := bc_m b; bc_capped := bc_capped b |}.

(** [bits.OnesCount64] and [bits.LeadingZeros64]. *)
Definition OnesCount64 (w : Z) : Z :=
  Z.of_nat (length (List.filter (λ i, Z.testbit w (Z.of_nat i)) (seq 0 64))).
Definition LeadingZeros64 (w : Z) : Z := if w <=? 0 then 64 else 63 - Z.log2 w.

Definition newHLLCounter (max precision : Z) : hllCounter :=
  let precision := if precision <=? 0 then 8 else precision in
  let precision := if precision <? 4 then 4 else precision in
  let precision := if 16 <? precision then 16 else precision in
  let m := Z.shiftl 1 precision in
  {| hc_max := default_max max; hc_p := precision; hc_m := m; hc_regs := replicate (Z.to_nat m) 0; hc_capped := false |}.
Definition hll_Reset (h : hllCounter) : hllCounter :=
  {| hc_max := hc_max h; hc_p := hc_p h; hc_m := hc_m h; hc_regs := map (λ _, 0) (hc_regs h); hc_capped := false |}.
(** The register and the rank of an address. *)
Definition hll_index (h : hllCounter) (ip : string) : Z := Z.land (hash64String ip) (hc_m h - 1).
Definition hll_rank (h : hllCounter) (ip : string) : Z :=
  let lz := LeadingZeros64 (Z.shiftr (hash64String ip) (hc_p h)) + 1 in
  let maxRho := 64 - hc_p h + 1 in
  if maxRho <? lz then maxRho else lz.
Definition hll_Add (h : hllCounter) (ip : string) : hllCounter :=
  if is_empty ip then h else
  {| hc_max := hc_max h; hc_p := hc_p h; hc_m := hc_m h;
     hc_regs := alter (λ r, if r <? hll_rank h ip then hll_rank h ip else r) (Z.to_nat (hll_index h ip)) (hc_regs h);
     hc_capped := hc_capped h |}.

Section estimates.
(** [math.Log] and [math.Log2] *)
Context (Log Log2 : float64 → float64).

(** An estimate and whether it was cut at the maximum. *)
Definition cut (max : Z) (est : float64) : Z * bool :=
  let est := if flt est f0 then f0 else est in
  if fgt est (of_int max) then (max, true) else (to_int (fadd est (lit 5 1)), false).

Definition bloom_zeros (b : bloomCounter) : Z := fold_left (λ zeros w, zeros + (64 - OnesCount64 w)) (bc_bits b) 0.

Definition bloom_Estimate (b : bloomCounter) : Z * bloomCounter :=
  let zeros := bloom_zeros b in
  let '(est, capped) :=
    if zeros <=? 0 then (bc_max b, true) else
    let m := of_int (bc_m b) in
    cut (bc_max b) (fmul (fopp m) (Log (fdiv (of_int zeros) m))) in
  (est, {| bc_max := bc_max b; bc_bits := bc_bits b; bc_m := bc_m b; bc_capped := bc_capped b || capped |}).

Definition hll_raw (h : hllCounter) : float64 :=
  let m := of_int (hc_m h) in
  let sum := fold_left (λ sum r, fadd sum (ldexp1 (- r))) (hc_regs h) f0 in
  let alpha := fdiv (lit 7213 4) (fadd (of_int 1) (fdiv (lit 1079 3) m)) in
  fdiv (fmul (fmul alpha m) m) sum.

Definition hll_zeros (h : hllCounter) : Z := Z.of_nat (length (List.filter (λ r, r =? 0) (hc_regs h))).

Definition hll_Estimate (h : hllCounter) : Z * hllCounter :=
  let m := of_int (hc_m h) in
  let est := hll_raw h in
  let zeros := hll_zeros h in
  let est := if fle est (fmul (lit 25 1) m) && (0 <? zeros) then fmul m (Log (fdiv m (of_int zeros))) else est in
  let '(n, capped) := cut (hc_max h) est in
  (n, {| hc_max := hc_max h; hc_p := hc_p h; hc_m := hc_m h; hc_regs := hc_regs h; hc_capped := hc_capped h || capped |}).

(** The interface [cardCounter]. *)
Inductive cardCounter := MapCounter (c : mapCounter) | BloomCounter (b : bloomCounter) | HLLCounter (h : hllCounter).

Definition newCardCounter (mode : string) (maxUnique hllPrecision bloomBits : Z) : cardCounter :=
  if str_eqb mode "hll" then HLLCounter (newHLLCounter maxUnique hllPrecision) else
  if str_eqb mode "bloom" then BloomCounter (newBloomCounter maxUnique bloomBits) else
  if str_eqb mode "map" then MapCounter (newMapCounter maxUnique) else
  HLLCounter (newHLLCounter maxUnique hllPrecision).

Definition card_Add (c : cardCounter) (ip : string) : cardCounter :=
  match c with
  | MapCounter c => MapCounter (map_Add c ip)
  | BloomCounter b => BloomCounter (bloom_Add b ip)
  | HLLCounter h => HLLCounter (hll_Add h ip)
  end.
Definition card_Reset (c : cardCounter) : cardCounter :=
  match c with
  | MapCounter c => MapCounter (map_Reset c)
  | BloomCounter b => BloomCounter (bloom_Reset b)
  | HLLCounter h => HLLCounter (hll_Reset h)
  end.
Definition card_Estimate (c : cardCounter) : Z * cardCounter :=
  match c with
  | MapCounter c => (map_Estimate c, MapCounter c)
  | BloomCounter b => let '(n, b) := bloom_Estimate b in (n, BloomCounter b)
  | HLLCounter h => let '(n, h) := hll_Estimate h in (n, HLLCounter h)
  end.
Definition card_Capped (c : cardCounter) : bool :=
  match c with MapCounter c => mc_capped c | BloomCounter b => bc_capped b | HLLCounter h => hc_capped h end.
Definition card_Kind (c : cardCounter) : string :=
  match c with MapCounter _ => "map" | BloomCounter _ => "bloom" | HLLCounter _ => "hll" end.

(** ** Entropy *)

Definition entropyNormFromCounts (counts : list Z) : float64 :=
  if (length counts <=? 1)%nat then f0 else
  let total := fold_left (λ total c, if 0 <? c then total + c else total) counts 0 in
  if total <=? 0 then f0 else
  let h := fold_left (λ h c, if c <=? 0 then h else
             let p := fdiv (of_int c) (of_int total) in fsub h (fmul p (Log2 p))) counts f0 in
  let den := Log2 (of_int (Z.of_nat (length counts))) in
  if fle den f0 then f0 else
  let v := fdiv h den in
  if flt v f0 then f0 else if fgt v (of_int 1) then of_int 1 else v.

(** The positive counts of the items, and the rest of the packets if any. *)
Definition with_other (totalPkts : Z) (counts : list Z) : list Z :=
  let counts := List.filter (λ c, 0 <? c) counts in
  let other := totalPkts - sumZ id counts in
  if 0 <? other then counts ++ [other] else counts.

Definition srcEntropyNorm (totalPkts : Z) (top : list (string * Z)) : float64 :=
  if totalPkts <=? 0 then f0 else entropyNormFromCounts (with_other totalPkts (map snd top)).

Record PortEntropy := { pe_EntropyNorm : float64; pe_Distinct : Z; pe_TopPort : Z; pe_TopShare : float64 }.
Definition zero_PortEntropy : PortEntropy := Build_PortEntropy f0 0 0 f0.

Definition top_port (ports : list (Z * Z)) : Z * Z :=
  fold_left (λ '(topPort, topVal) it, if it.2 <=? 0 then (topPort, topVal) else
    if topVal <? it.2 then it else (topPort, topVal)) ports (0, 0).

Definition portEntropy (totalPkts : Z) (ports : list (Z * Z)) : PortEntropy :=
  if totalPkts <=? 0 then zero_PortEntropy else
  let '(topPort, topVal) := top_port ports in
  let other := totalPkts - sumZ id (List.filter (λ c, 0 <? c) (map snd ports)) in
  let share := fdiv (of_int topVal) (of_int totalPkts) in
  {| pe_EntropyNorm := entropyNormFromCounts (with_other totalPkts (map snd ports));
     pe_Distinct := Z.of_nat (length ports) + (if 0 <? other then 1 else 0);
     pe_TopPort := topPort;
     pe_TopShare := if (0 <? totalPkts) && (0 <? topVal)
                    then (if flt share f0 then f0 else if fgt share (of_int 1) then of_int 1 else share)
                    else f0 |}.
End estimates.

(** ** The heaviest keys: proofs *)

Section topk_facts.
Context {K : Type} `{Countable K}.
Context (order : gmap K Z → list (K * Z)) (Horder : ∀ m, order m ≡ₚ map_to_list m).

Lemma min_entry_spec (l : list (K * Z)) :
  match min_entry l with
  | Some kv => kv ∈ l ∧ Forall (λ x, kv.2 <= x.2) l
  | None => l = []
  end.
Proof.
  induction l as [|x l IH] using rev_ind; [done|]. unfold min_entry in *. rewrite fold_left_app. simpl.
  destruct (fold_left min_step l None) as [[k v]|]; simpl; [|by subst; split; [left|repeat constructor]].
  destruct IH as [Hin Hle]. destruct (x.2 <? v) eqn:Hx; zbool.
  - split; [apply elem_of_app; right; by left|]. apply Forall_app; split; [|by repeat constructor].
    eapply Forall_impl; [exact Hle|]. intros y Hy. cbn in *. lia.
  - split; [apply elem_of_app; by left|]. apply Forall_app; split; [done|]. constructor; [done|constructor].
Qed.

(** What was really added for a key, and in all. *)
Definition weight (adds : list (K * Z)) (key : K) : Z :=
  sumZ (λ a, if decide (a.1 = key) then a.2 else 0) adds.
Definition total_weight (adds : list (K * Z)) : Z := sumZ snd adds.

(** The counters are exact up to a floor [f], which the least counter reaches. *)
Record counts (t : TopK K) (adds : list (K * Z)) (f : Z) : Prop := {
  cn_floor : 0 <= f;
  cn_room : Z.of_nat (size (tk_items t)) <= tk_k t;
  cn_exact : Z.of_nat (size (tk_items t)) < tk_k t → f = 0;
  cn_least : ∀ key v, tk_items t !! key = Some v → f <= v;
  cn_positive : ∀ key v, tk_items t !! key = Some v → 0 < v;
  cn_tracked : ∀ key v, tk_items t !! key = Some v → weight adds key <= v <= weight adds key + f;
  cn_untracked : ∀ key, tk_items t !! key = None → weight adds key <= f;
  cn_sum : map_sum (λ _ v, v) (tk_items t) = total_weight adds;
}.

Lemma weight_nonneg adds key : Forall (λ a, 0 < a.2) adds → 0 <= weight adds key.
Proof.
  intros Hp. apply sumZ_nonneg. intros a Ha. rewrite Forall_forall in Hp. specialize (Hp a Ha). case_decide; lia.
Qed.

Lemma weight_snoc adds key inc key' :
  weight (adds ++ [(key, inc)]) key' = weight adds key' + (if decide (key = key') then inc else 0).
Proof. unfold weight. rewrite sumZ_app. simpl. lia. Qed.

Lemma counts_reset t : 0 <= tk_k t → counts (Reset t) [] 0.
Proof. intros Hk. constructor; cbn; try done. Qed.

Lemma counts_new k : counts (NewTopK k) [] 0.
Proof.
  unfold NewTopK. constructor; cbn; try done; try lia.
  - rewrite map_size_empty. case_match; zbool; lia.
Qed.

(** A list of values none of which is below [f] sums up to at least as many times [f]. *)
Lemma floor_times_size (l : list (K * Z)) f :
  Forall (λ x, f <= x.2) l → f * Z.of_nat (length l) <= sumZ (λ kv, kv.2) l.
Proof. induction 1; cbn [length sumZ foldr] in *; [lia|]. unfold sumZ in *. lia. Qed.

Lemma counts_add zero t adds f key inc :
  counts t adds f → 0 < tk_k t → Forall (λ a, 0 < a.2) adds → 0 < inc →
  ∃ f', counts (add order zero t key inc) (adds ++ [(key, inc)]) f' ∧ f <= f' ∧
        tk_k (add order zero t key inc) = tk_k t ∧
        (f' = f ∨ tk_k t * f' <= total_weight adds).
Proof using Horder.
  intros [Hf Hroom Hexact Hleast Hposv Htr Hun Hsum] Hk Hpos Hinc. unfold add.
  pose proof (λ key', weight_nonneg adds key' Hpos) as Hw.
  assert (Htot : total_weight (adds ++ [(key, inc)]) = total_weight adds + inc) by (unfold total_weight; rewrite sumZ_app; simpl; lia).
  destruct (tk_items t !! key) as [v|] eqn:Hkey.
  { exists f. split; [|auto with lia]. constructor; cbn; try done.
    - by rewrite map_size_insert_Some by eauto.
    - rewrite map_size_insert_Some by eauto. done.
    - intros k' v' Hl. apply lookup_insert_Some in Hl as [[<- <-]|[Hne Hl]]; [|eauto].
      specialize (Hleast _ _ Hkey). lia.
    - intros k' v' Hl. apply lookup_insert_Some in Hl as [[<- <-]|[Hne Hl]]; [|eauto].
      specialize (Hposv _ _ Hkey). lia.
    - intros k' v' Hl. rewrite weight_snoc. apply lookup_insert_Some in Hl as [[<- <-]|[Hne Hl]].
      + specialize (Htr _ _ Hkey). rewrite decide_True by done. lia.
      + rewrite decide_False by done. specialize (Htr _ _ Hl). lia.
    - intros k' Hl. apply lookup_insert_None in Hl as [Hl Hne]. rewrite weight_snoc, decide_False by done.
      specialize (Hun _ Hl). lia.
    - rewrite map_sum_insert, Hsum, Htot. unfold at_key. rewrite Hkey. lia. }
  destruct (Z.of_nat (size (tk_items t)) <? tk_k t) eqn:Hfull; zbool.
  { exists f. pose proof (Hexact Hfull) as ->. split; [|auto with lia]. constructor; cbn; try done.
    - rewrite map_size_insert_None by done. lia.
    - intros k' v' Hl. apply lookup_insert_Some in Hl as [[<- <-]|[Hne Hl]]; [lia|eauto].
    - intros k' v' Hl. apply lookup_insert_Some in Hl as [[<- <-]|[Hne Hl]]; [lia|eauto].
    - intros k' v' Hl. rewrite weight_snoc. apply lookup_insert_Some in Hl as [[<- <-]|[Hne Hl]].
      + rewrite decide_True by done. specialize (Hun _ Hkey). specialize (Hw key). lia.
      + rewrite decide_False by done. specialize (Htr _ _ Hl). lia.
    - intros k' Hl. apply lookup_insert_None in Hl as [Hl Hne]. rewrite weight_snoc, decide_False by done.
      specialize (Hun _ Hl). lia.
    - rewrite map_sum_insert_None, Hsum, Htot by done. lia. }
  pose proof (min_entry_spec (order (tk_items t))) as Hmin.
  destruct (min_entry (order (tk_items t))) as [[minKey minVal]|].
  2: { exfalso. specialize (Horder (tk_items t)). rewrite Hmin in Horder.
       apply Permutation_nil_l, eq_sym, map_to_list_empty_iff in Horder.
       rewrite Horder, map_size_empty in Hfull. lia. }
  destruct Hmin as [Hin Hle]. rewrite Horder in Hle. rewrite Horder in Hin.
  apply elem_of_map_to_list in Hin. cbn [fst snd] in *.
  assert (Hmf : f <= minVal) by eauto.
  assert (Hall : ∀ key v, tk_items t !! key = Some v → minVal <= v).
  { intros k' v' Hl. rewrite Forall_forall in Hle. apply (Hle (k', v')). by apply elem_of_map_to_list. }
  exists minVal. cbn. split; [|split; [done|split; [done|right]]].
  2: { pose proof (floor_times_size _ _ Hle) as Hs. rewrite length_map_to_list in Hs.
       assert (Htk : tk_k t = Z.of_nat (size (tk_items t))) by lia. rewrite <- Hsum, Htk. unfold map_sum. lia. }
  constructor; cbn.
  - lia.
  - rewrite map_size_insert_None by (rewrite lookup_delete_None; by right).
    rewrite map_size_delete_Some by done. 
    assert (size (tk_items t) ≠ 0%nat) by (intros Hz; apply map_size_empty_inv in Hz; by rewrite Hz in Hin).
    lia.
  - rewrite map_size_insert_None by (rewrite lookup_delete_None; by right).
    rewrite map_size_delete_Some by done. lia.
  - intros k' v' Hl. apply lookup_insert_Some in Hl as [[<- <-]|[Hne Hl]]; [lia|].
    apply lookup_delete_Some in Hl as [_ Hl]. eauto.
  - intros k' v' Hl. apply lookup_insert_Some in Hl as [[<- <-]|[Hne Hl]]; [lia|].
    apply lookup_delete_Some in Hl as [_ Hl]. eauto.
  - intros k' v' Hl. rewrite weight_snoc. apply lookup_insert_Some in Hl as [[<- <-]|[Hne Hl]].
    + rewrite decide_True by done. specialize (Hun _ Hkey). specialize (Hw key). lia.
    + rewrite decide_False by done. apply lookup_delete_Some in Hl as [_ Hl]. specialize (Htr _ _ Hl). lia.
  - intros k' Hl. apply lookup_insert_None in Hl as [Hl Hne]. rewrite weight_snoc, decide_False by done.
    apply lookup_delete_None in Hl as [<-|Hl].
    + specialize (Htr _ _ Hin). lia.
    + specialize (Hun _ Hl). lia.
  - rewrite map_sum_insert_None by (rewrite lookup_delete_None; by right).
    rewrite map_sum_delete, Hsum, Htot. unfold at_key. rewrite Hin. lia.
Qed.

Lemma counts_adds zero k adds :
  Forall (λ a, 0 < a.2) adds →
  let t := fold_left (λ t a, add order zero t a.1 a.2) adds (NewTopK k) in
  ∃ f, counts t adds f ∧ tk_k t * f <= total_weight adds ∧ tk_k t = tk_k (NewTopK (K := K) k).
Proof using Horder.
  cbn zeta. induction adds as [|[key inc] adds IH] using rev_ind; intros Hpos.
  - exists 0. split; [apply counts_new|]. cbn. lia.
  - apply Forall_app in Hpos as [Hpos Hinc]. inversion_clear Hinc as [|? ? Hinc0 _]. cbn in Hinc0. rename Hinc0 into Hinc.
    destruct (IH Hpos) as (f & Hc & Hf & Hk). rewrite fold_left_app. cbn [fold_left fst snd].
    assert (Hk0 : 0 < tk_k (NewTopK (K := K) k)) by (cbn; case_match; zbool; lia).
    destruct (counts_add zero _ _ _ key inc Hc ltac:(lia) Hpos Hinc) as (f' & Hc' & Hff & Hk' & Hb).
    exists f'. split; [done|]. rewrite Hk'. split; [|done].
    assert (total_weight (adds ++ [(key, inc)]) = total_weight adds + inc) by (unfold total_weight; rewrite sumZ_app; simpl; lia).
    destruct Hb as [->|Hb]; lia.
Qed.
End topk_facts.

(** [Add] skips what its guard refuses. *)
Definition str_counted (adds : list (string * Z)) : list (string * Z) :=
  List.filter (λ a, negb (is_empty a.1 || (a.2 <=? 0))) adds.

Lemma TopKStr_Add_counted order t adds :
  fold_left (λ t a, TopKStr_Add order t a.1 a.2) adds t = fold_left (λ t a, add order None t a.1 a.2) (str_counted adds) t.
Proof.
  revert t. induction adds as [|a adds IH]; intros t; [done|]. cbn [fold_left str_counted List.filter].
  unfold TopKStr_Add at 2. destruct (is_empty a.1 || (a.2 <=? 0)); cbn [negb fold_left]; apply IH.
Qed.

Lemma str_counted_positive adds : Forall (λ a, 0 < a.2) (str_counted adds).
Proof.
  apply Forall_forall. intros a Ha. apply list_elem_of_In, filter_In in Ha as [_ Ha]. zbool. done.
Qed.

#[export] Instance str_item_le_total : Total str_item_le.
Proof.
  intros [a n] [b m]. unfold str_item_le. cbn. destruct (total String.le a b); destruct (Z.lt_trichotomy n m) as [?|[?|?]]; auto.
Qed.
#[export] Instance str_item_le_trans : Transitive str_item_le.
Proof.
  intros [a n] [b m] [c o]. unfold str_item_le. cbn. intros [?|[-> ?]] [?|[-> ?]]; [left; lia|left; lia|left; lia|].
  right. split; [done|]. by transitivity b.
Qed.

Lemma ItemsSorted_Permutation t adds f : counts t adds f → TopKStr_ItemsSorted t ≡ₚ map_to_list (tk_items t).
Proof.
  intros Hc. unfold TopKStr_ItemsSorted. rewrite take_ge; [apply merge_sort_Permutation|].
  rewrite merge_sort_Permutation, length_map_to_list. pose proof (cn_room _ _ _ Hc). lia.
Qed.

Lemma sumZ_map {A B} (f : B → Z) (g : A → B) l : sumZ f (map g l) = sumZ (λ x, f (g x)) l.
Proof. induction l as [|x l IH]; cbn; [done|]. unfold sumZ in IH. by rewrite IH. Qed.

(** The counters account for all the weight, so an entropy over them has no rest. *)
Lemma with_other_counts t adds f : counts t adds f →
  with_other (total_weight adds) (map snd (TopKStr_ItemsSorted t)) = map snd (TopKStr_ItemsSorted t).
Proof.
  intros Hc. pose proof (ItemsSorted_Permutation _ _ _ Hc) as Hp. destruct Hc as [_ _ _ _ Hposv _ _ Hsum]. unfold with_other.
  assert (Hall : Forall (λ c, 0 < c) (map snd (TopKStr_ItemsSorted t))).
  { apply Forall_map. rewrite Hp. apply Forall_forall. intros [key v] Hin. apply elem_of_map_to_list in Hin. cbn. eauto. }
  assert (Hf : List.filter (λ c, 0 <? c) (map snd (TopKStr_ItemsSorted t)) = map snd (TopKStr_ItemsSorted t)).
  { induction Hall as [|x l Hx _ IH]; [done|]. cbn. rewrite (proj2 (Z.ltb_lt _ _) Hx). by rewrite IH. }
  rewrite Hf.
  assert (Hs : sumZ id (map snd (TopKStr_ItemsSorted t)) = total_weight adds).
  { rewrite <- Hsum. unfold map_sum. rewrite <- (sumZ_Permutation _ _ _ Hp).
    by rewrite sumZ_map. }
  rewrite Hs, Z.sub_diag. done.
Qed.

(** C23: the counters of the heaviest sources (topk.go).  Whatever the order in which Go
    iterates over the map, after any sequence of additions there is an error
    bound [f], at most the total weight divided by [k], such that every counter is
    at least the true weight of its key and exceeds it by at most [f], a key
    without a counter has a weight of at most [f], and the counters sum up to
    the total weight; so every key of more than one [k]-th of the weight has a
    counter.  [ItemsSorted] lists all the counters, heaviest first. *)
Theorem space_saving (order : gmap string Z → list (string * Z)) k adds :
  (∀ m, order m ≡ₚ map_to_list m) →
  let t := fold_left (λ t a, TopKStr_Add order t a.1 a.2) adds (NewTopK k) in
  let counted := str_counted adds in
  ∃ f, 0 <= f ∧ tk_k t * f <= total_weight counted ∧
       (∀ key v, tk_items t !! key = Some v → weight counted key <= v <= weight counted key + f) ∧
       (∀ key, tk_items t !! key = None → weight counted key <= f) ∧
       map_sum (λ _ v, v) (tk_items t) = total_weight counted ∧
       (∀ key, total_weight counted < tk_k t * weight counted key → is_Some (tk_items t !! key)) ∧
       TopKStr_ItemsSorted t ≡ₚ map_to_list (tk_items t) ∧ StronglySorted str_item_le (TopKStr_ItemsSorted t).
Proof.
  intros Horder t counted.
  destruct (counts_adds order Horder None k counted (str_counted_positive adds)) as (f & Hc & Hf & Hk).
  subst t. rewrite TopKStr_Add_counted. fold counted. destruct Hc as [H0 Hroom Hexact Hleast Hposv Htr Hun Hsum].
  assert (Hkp : 0 < tk_k (NewTopK (K := string) k)) by (cbn; case_match; zbool; lia).
  set (t := fold_left _ _ _) in *. exists f. unfold TopKStr_ItemsSorted.
  rewrite take_ge.
  2: { rewrite merge_sort_Permutation, length_map_to_list. lia. }
  split_and!; try done.
  - intros key Hkey. destruct (tk_items t !! key) as [v|] eqn:Hl; [by exists v|]. specialize (Hun key Hl). nia.
  - apply merge_sort_Permutation.
  - apply (StronglySorted_merge_sort _).
Qed.

Lemma space_saving_witness :
  let adds := [("10.0.0.1"%string, 5); ("10.0.0.2"%string, 1); (""%string, 9); ("10.0.0.3"%string, 1); ("10.0.0.1"%string, 3)] in
  let t := fold_left (λ t a, TopKStr_Add map_to_list t a.1 a.2) adds (NewTopK 2) in
  is_Some (tk_items t !! "10.0.0.1"%string) ∧ (∃ l, TopKStr_ItemsSorted t = ("10.0.0.1"%string, 8) :: l).
Proof.
  split; [|eexists; vm_compute; reflexivity].
  destruct (space_saving map_to_list 2 [("10.0.0.1"%string, 5); ("10.0.0.2"%string, 1); (""%string, 9); ("10.0.0.3"%string, 1); ("10.0.0.1"%string, 3)] (λ m, Permutation_refl _))
    as (f & _ & _ & _ & _ & _ & Hheavy & _).
  apply Hheavy. vm_compute. reflexivity.
Defined.

(** ** Distinct sources: proofs *)

(** A step that may be repeated and exchanged only depends on the set of its arguments. *)
Section set_folds.
Context {C A : Type} (f : C → A → C) (skipped : A → Prop).
Context (Hskip : ∀ c x, skipped x → f c x = c).
Context (Hidem : ∀ c x, f (f c x) x = f c x) (Hcomm : ∀ c x y, f (f c x) y = f (f c y) x).

Lemma fold_absorbs c x l : x ∈ l → f (fold_left f l c) x = fold_left f l c.
Proof using Hidem Hcomm.
  intros Hx. induction l as [|y l IH] using rev_ind; [by apply elem_of_nil in Hx|].
  rewrite fold_left_app. cbn. apply elem_of_app in Hx as [Hx|Hx].
  - rewrite Hcomm. by rewrite IH.
  - apply list_elem_of_singleton in Hx as ->. apply Hidem.
Qed.

Lemma fold_extend c l k : (∀ x, x ∈ k → skipped x ∨ x ∈ l) → fold_left f (l ++ k) c = fold_left f l c.
Proof using Hskip Hidem Hcomm.
  intros Hk. rewrite fold_left_app. induction k as [|x k IH] using rev_ind; [done|].
  rewrite fold_left_app, IH by (intros y Hy; apply Hk, elem_of_app; by left). cbn.
  destruct (Hk x) as [Hx|Hx]; [apply elem_of_app; right; by left|by apply Hskip|by apply fold_absorbs].
Qed.

Lemma fold_Permutation c l k : l ≡ₚ k → fold_left f l c = fold_left f k c.
Proof using Hcomm.
  intros Hp. revert c. induction Hp as [|x l k _ IH|x y l|l k m _ IH1 _ IH2]; intros c; cbn; [done|done| |].
  - by rewrite Hcomm.
  - by rewrite IH1.
Qed.

Lemma fold_same_set c l k : (∀ x, skipped x ∨ (x ∈ l ↔ x ∈ k)) → fold_left f l c = fold_left f k c.
Proof using Hskip Hidem Hcomm.
  intros Hlk. rewrite <- (fold_extend c l k), (fold_Permutation c (l ++ k) (k ++ l)), (fold_extend c k l); [done| |by rewrite (comm (++))|].
  all: intros x Hx; destruct (Hlk x) as [?|[??]]; auto.
Qed.
End set_folds.

Lemma alter_idem {A} (f : A → A) i (l : list A) : (∀ x, f (f x) = f x) → alter f i (alter f i l) = alter f i l.
Proof. intros Hf. rewrite list_alter_alter_eq. apply list_alter_ext; [|done]. intros x _. apply Hf. Qed.

Lemma alter_comm {A} (f g : A → A) i j (l : list A) :
  (∀ x, f (g x) = g (f x)) → alter f i (alter g j l) = alter g j (alter f i l).
Proof.
  intros Hfg. destruct (decide (i = j)) as [->|Hij]; [|by apply list_alter_alter_ne].
  rewrite !list_alter_alter_eq. apply list_alter_ext; [|done]. intros x _. apply Hfg.
Qed.

Lemma bloom_Add_idem b ip : bloom_Add (bloom_Add b ip) ip = bloom_Add b ip.
Proof.
  unfold bloom_Add. destruct (is_empty ip); [done|]. unfold bloom_index. cbn. f_equal. apply alter_idem.
  intros x. by rewrite <- Z.lor_assoc, Z.lor_diag.
Qed.
Lemma bloom_Add_comm b ip ip' : bloom_Add (bloom_Add b ip) ip' = bloom_Add (bloom_Add b ip') ip.
Proof.
  unfold bloom_Add. destruct (is_empty ip), (is_empty ip'); try done. unfold bloom_index. cbn. f_equal. apply alter_comm.
  intros x. rewrite <- !Z.lor_assoc. f_equal. apply Z.lor_comm.
Qed.

Lemma hll_Add_idem h ip : hll_Add (hll_Add h ip) ip = hll_Add h ip.
Proof.
  unfold hll_Add. destruct (is_empty ip); [done|]. unfold hll_index, hll_rank. cbn. f_equal. apply alter_idem.
  intros x. repeat case_match; zbool; lia.
Qed.
Lemma hll_Add_comm h ip ip' : hll_Add (hll_Add h ip) ip' = hll_Add (hll_Add h ip') ip.
Proof.
  unfold hll_Add. destruct (is_empty ip), (is_empty ip'); try done. unfold hll_index, hll_rank. cbn. f_equal. apply alter_comm.
  intros x. repeat case_match; zbool; lia.
Qed.

Definition distinct (l : list string) : gset string := list_to_set (List.filter (λ ip, negb (is_empty ip)) l).

Lemma elem_of_distinct l ip : ip ∈ distinct l ↔ is_empty ip = false ∧ ip ∈ l.
Proof.
  unfold distinct. rewrite elem_of_list_to_set, list_elem_of_In, filter_In, <- list_elem_of_In, negb_true_iff. tauto.
Qed.

Lemma distinct_snoc l ip : distinct (l ++ [ip]) = if is_empty ip then distinct l else distinct l ∪ {[ip]}.
Proof.
  unfold distinct. rewrite List.filter_app, list_to_set_app_L. cbn. destruct (is_empty ip); cbn; set_solver.
Qed.

(** The exact counter holds the distinct sources up to its maximum. *)
Lemma map_Add_counts max l :
  let c := fold_left map_Add l (newMapCounter max) in
  mc_max c = default_max max ∧ mc_seen c ⊆ distinct l ∧
  map_Estimate c = Z.min (default_max max) (Z.of_nat (size (distinct l))) ∧
  mc_capped c = (default_max max <? Z.of_nat (size (distinct l))).
Proof.
  cbn zeta. assert (Hmax : 0 < default_max max) by (unfold default_max; case_match; zbool; lia).
  enough (mc_max (fold_left map_Add l (newMapCounter max)) = default_max max ∧
          mc_seen (fold_left map_Add l (newMapCounter max)) ⊆ distinct l ∧
          if mc_capped (fold_left map_Add l (newMapCounter max))
          then Z.of_nat (size (mc_seen (fold_left map_Add l (newMapCounter max)))) = default_max max ∧ default_max max < Z.of_nat (size (distinct l))
          else mc_seen (fold_left map_Add l (newMapCounter max)) = distinct l ∧ Z.of_nat (size (distinct l)) <= default_max max) as (-> & Hsub & Hc).
  { unfold map_Estimate. destruct (mc_capped _); destruct Hc as [Hc1 Hc2].
    - split_and!; [done|done|lia|]. symmetry. apply Z.ltb_lt. lia.
    - split_and!; [done|done|rewrite Hc1; lia|]. symmetry. apply Z.ltb_ge. lia. }
  induction l as [|ip l IH] using rev_ind; [cbn; split_and!; [done|set_solver|done|rewrite size_empty; lia]|].
  rewrite fold_left_app. cbn [fold_left]. set (c := fold_left map_Add l _) in *. destruct IH as (Hm & Hsub & Hc).
  rewrite distinct_snoc. unfold map_Add. destruct (is_empty ip) eqn:Hip; [done|].
  destruct (mc_capped c) eqn:Hcap.
  { rewrite Hcap. destruct Hc as [Hc1 Hc2]. split_and!; [done|set_solver|done|].
    assert (size (distinct l) ≤ size (distinct l ∪ {[ip]}))%nat by (apply subseteq_size; set_solver). lia. }
  destruct Hc as [Hc1 Hc2]. rewrite Hc1 in *. destruct (decide (ip ∈ distinct l)) as [Hin|Hin].
  { rewrite Hcap, Hc1. replace (distinct l ∪ {[ip]}) with (distinct l) by set_solver. split_and!; [done|set_solver|done|done]. }
  rewrite Hm. rewrite size_union, size_singleton by set_solver. destruct (default_max max <=? Z.of_nat (size (distinct l))) eqn:Hfull; zbool; cbn.
  - split_and!; [done|set_solver|lia|lia].
  - split_and!; [done|set_solver|set_solver|lia].
Qed.

(** Adding to a counter keeps its kind. *)
Lemma card_Adds l c :
  fold_left card_Add l c =
  match c with
  | MapCounter c => MapCounter (fold_left map_Add l c)
  | BloomCounter b => BloomCounter (fold_left bloom_Add l b)
  | HLLCounter h => HLLCounter (fold_left hll_Add l h)
  end.
Proof. revert c. induction l as [|x l IH]; intros [c|b|h]; cbn; rewrite ?IH; done. Qed.

(** The estimates of the number of distinct sources (cardinality.go) depend
    only on the set of the non-empty addresses added, not on their order or
    repetition, whatever the kind of counter; and the exact counter returns the
    number of distinct addresses up to its maximum, and says when it exceeded it. *)
Theorem distinct_sources (Log : float64 → float64) mode maxUnique hllPrecision bloomBits l l' :
  (∀ ip, ip ≠ ""%string → ip ∈ l ↔ ip ∈ l') →
  let count l := fold_left card_Add l (newCardCounter mode maxUnique hllPrecision bloomBits) in
  (card_Estimate Log (count l)).1 = (card_Estimate Log (count l')).1 ∧
  card_Capped (count l) = card_Capped (count l') ∧
  (mode = "map"%string →
   (card_Estimate Log (count l)).1 = Z.min (default_max maxUnique) (Z.of_nat (size (distinct l))) ∧
   card_Capped (count l) = (default_max maxUnique <? Z.of_nat (size (distinct l)))).
Proof.
  intros Hl count. unfold count. rewrite !card_Adds.
  assert (Hset : ∀ ip, ip = ""%string ∨ (ip ∈ l ↔ ip ∈ l')) by (intros ip; destruct (decide (ip = ""%string)); auto).
  assert (Hd : distinct l = distinct l').
  { apply set_eq. intros ip. rewrite !elem_of_distinct. destruct (Hset ip) as [->|Hip]; [cbn; naive_solver|]. by rewrite Hip. }
  assert (Hb : ∀ b, fold_left bloom_Add l b = fold_left bloom_Add l' b).
  { intros b. apply (fold_same_set _ (λ ip, ip = ""%string)); auto using bloom_Add_idem, bloom_Add_comm. by intros c ? ->. }
  assert (Hh : ∀ h, fold_left hll_Add l h = fold_left hll_Add l' h).
  { intros h. apply (fold_same_set _ (λ ip, ip = ""%string)); auto using hll_Add_idem, hll_Add_comm. by intros c ? ->. }
  destruct (map_Add_counts maxUnique l) as (_ & _ & He & Hc). destruct (map_Add_counts maxUnique l') as (_ & _ & He' & Hc').
  unfold newCardCounter.
  destruct (str_eqb mode "hll") eqn:H1; [apply str_eqb_eq in H1 as ->; cbn iota; rewrite Hh; by split_and!|].
  destruct (str_eqb mode "bloom") eqn:H2; [apply str_eqb_eq in H2 as ->; cbn iota; rewrite Hb; by split_and!|].
  destruct (str_eqb mode "map") eqn:H3; cbn [card_Estimate card_Capped fst].
  - rewrite He, Hc, He', Hc', Hd. by split_and!.
  - cbn iota. rewrite Hh. split_and!; [done|done|]. intros ->. by rewrite str_eqb_refl in H3.
Qed.

Lemma distinct_sources_witness :
  let count := fold_left card_Add ["10.0.0.1"; ""; "10.0.0.2"; "10.0.0.1"]%string (newCardCounter "map" 0 0 0) in
  (card_Estimate id count).1 = 2 ∧ card_Capped count = false.
Proof.
  destruct (distinct_sources id "map" 0 0 0 ["10.0.0.1"; ""; "10.0.0.2"; "10.0.0.1"]%string ["10.0.0.2"; "10.0.0.1"]%string)
    as (_ & _ & Hm); [|destruct (Hm eq_refl) as [H1 H2]; split; [rewrite H1|rewrite H2]; vm_compute; reflexivity].
  intros ip Hip. rewrite !elem_of_cons, elem_of_nil. tauto.
Defined.

(** *** The HyperLogLog rank *)

Lemma hash64String_range s : 0 <= hash64String s < 2 ^ 64.
Proof.
  unfold hash64String. induction (to_chars s) as [|b l IH] using rev_ind; [by vm_compute|].
  rewrite fold_left_app. cbn. apply Z.mod_pos_bound. done.
Qed.

Lemma LeadingZeros64_shift w p : 0 <= w < 2 ^ 64 → 0 <= p <= 64 → p <= LeadingZeros64 (Z.shiftr w p) <= 64.
Proof.
  intros Hw Hp. unfold LeadingZeros64. case_match; zbool; [lia|].
  rewrite Z.shiftr_div_pow2 in * by lia.
  assert (w `div` 2 ^ p < 2 ^ (64 - p)).
  { apply Z.div_lt_upper_bound; [lia|]. rewrite <- Z.pow_add_r by lia. replace (p + (64 - p)) with 64 by lia. apply Hw. }
  pose proof (Z.log2_nonneg (w `div` 2 ^ p)).
  assert (Z.log2 (w `div` 2 ^ p) < 64 - p) by (apply Z.log2_lt_pow2; lia). lia.
Qed.

Lemma newHLL_precision max precision : 4 <= hc_p (newHLLCounter max precision) <= 16.
Proof.
  cbn [hc_p newHLLCounter]. set (p1 := if precision <=? 0 then 8 else precision). set (p2 := if p1 <? 4 then 4 else p1).
  assert (4 <= p2) by (unfold p2; case_match; zbool; lia). clearbody p2. case_match; zbool; lia.
Qed.

(** Thirty addresses of one network. *)
Definition thirty : list string := map (λ n, "10.0.0." +:+ pretty n) (seq 0 30).

(** The rank of an address in a HyperLogLog counter (cardinality.go) counts
    the leading zeros of the 64-bit hash shifted right by [p] bits, so it is
    always greater than [p], although the hash then has only [64 - p] bits: every
    register that was set is [p] too high, and once all of them are, the
    estimate is about [2^p] times too large.  With 16 registers, 30 addresses
    of one network are estimated as 692. *)
Theorem hll_ranks_too_high :
  (∀ max precision ip, let h := newHLLCounter max precision in hc_p h < hll_rank h ip <= 65 - hc_p h) ∧
  NoDup thirty ∧
  (∀ Log : float64 → float64, (hll_Estimate Log (fold_left hll_Add thirty (newHLLCounter 0 4))).1 = 692).
Proof.
  split_and!.
  - intros max precision ip h.
    pose proof (newHLL_precision max precision) as Hp. fold h in Hp.
    pose proof (LeadingZeros64_shift (hash64String ip) (hc_p h) (hash64String_range ip) ltac:(lia)).
    unfold hll_rank. case_match; zbool; lia.
  - apply (bool_decide_unpack _). vm_compute. exact I.
  - intros Log. vm_compute. reflexivity.
Qed.
