(* ===== verification/GoIP.v ===== *)
(** * GoIP: package net's addresses as text

    [net.ParseIP], [IP.String], [IPNet.String] and the classification of
    addresses, after the Go standard library (net and net/netip), and the lines
    of [bufio.Scanner].  Addresses are those of Net.v: 32 or 128 bits, an
    IPv4-mapped address being an IPv4 one. *)

From stdpp Require Import pretty.
From S2P Require Import Prelude GoStr GoText Net.
From Stdlib Require Import Ascii NArith.

Local Open Scope string_scope.
Local Open Scope Z_scope.
Local Open Scope go_scope.

(** ** Formatting *)

Definition octet (v i : Z) : Z := Z.land (Z.shiftr v (8 * i)) 255.

Definition dotted (v : Z) : string :=
  Itoa (octet v 3) +:+ "." +:+ Itoa (octet v 2) +:+ "." +:+ Itoa (octet v 1) +:+ "." +:+ Itoa (octet v 0).

Definition hex_char (d : Z) : ascii := if d <? 10 then digit d else ascii_of_N (Z.to_N (87 + d)).

(** [appendHex]: without leading zeros. *)
Definition hex_group (g : Z) : string :=
  let d i := String (hex_char (Z.land (Z.shiftr g (4 * i)) 15)) "" in
  (if 4096 <=? g then d 3 else "") +:+ (if 256 <=? g then d 2 else "") +:+ (if 16 <=? g then d 1 else "") +:+ d 0.

(** The eight groups of an address, most significant first. *)
Definition groups (v : Z) : list Z := map (λ i, Z.land (Z.shiftr v (16 * i)) 65535) [7; 6; 5; 4; 3; 2; 1; 0].

Fixpoint zero_run (l : list Z) : nat :=
  match l with g :: l => if g =? 0 then S (zero_run l) else O | [] => O end.

(** The first longest run of at least two zero groups, as start and end. *)
Definition longest_run (gs : list Z) : nat * nat :=
  fold_left (λ '(zs, ze) i, let l := zero_run (drop i gs) in
    if (2 <=? l)%nat && (ze - zs <? l)%nat then (i, (i + l)%nat) else (zs, ze)) (seq 0 8) (255%nat, 255%nat).

Fixpoint join_groups (fuel : nat) (gs : list Z) (zs ze i : nat) : string :=
  match fuel with
  | O => ""
  | S fuel =>
    if (8 <=? i)%nat then "" else
    let '(sep, i) := if (i =? zs)%nat then ("::", ze) else if (0 <? i)%nat then (":", i) else ("", i) in
    if (8 <=? i)%nat then sep else sep +:+ hex_group (default 0 (gs !! i)) +:+ join_groups fuel gs zs ze (S i)
  end.

Definition colons (v : Z) : string :=
  let gs := groups v in let '(zs, ze) := longest_run gs in join_groups 9 gs zs ze 0.

(** [IP.String] of an address. *)
Definition IP_String (a : ip) : string := if ip_bits a =? 32 then dotted (ip_val a) else colons (ip_val a).

(** [IPNet.String] for a prefix mask. *)
Definition IPNet_String (n : ipnet) : string := IP_String (net_addr n) +:+ "/" +:+ Itoa (n_ones n).

(** ** Parsing *)

(** A field of a dotted address: digits without a leading zero, at most 255. *)
Definition v4_field (l : list ascii) : option Z :=
  match l with
  | [] => None
  | a :: rest =>
    if Ascii.eqb a "0" && negb (length rest =? 0)%nat then None else
    if (3 <? length l)%nat then None else
    n ← parse_dec 0 l; if 255 <? n then None else Some n
  end.

Definition parse_v4 (l : list ascii) : option Z :=
  match split_chars "."%char l with
  | [a; b; c; d] => w ← v4_field a; x ← v4_field b; y ← v4_field c; z ← v4_field d; Some (((w * 256 + x) * 256 + y) * 256 + z)
  | _ => None
  end.

(** The hexadecimal digits at the start: value and rest; more than four fail. *)
Fixpoint hex_number (off : nat) (acc : Z) (l : list ascii) : option (nat * Z * list ascii) :=
  match l with
  | a :: l' =>
    match hex_digit a with
    | Some d => if (3 <? off)%nat then None else hex_number (S off) (16 * acc + d) l'
    | None => Some (off, acc, l)
    end
  | [] => Some (off, acc, [])
  end.

(** The loop of [parseIPv6]: the groups read (latest first), where the ellipsis
    is, and what is left of the text. *)
Fixpoint v6_loop (fuel : nat) (gs : list Z) (ellipsis : option nat) (l : list ascii) : option (list Z * option nat * list ascii) :=
  match fuel with
  | O => Some (gs, ellipsis, l)
  | S fuel =>
    if (8 <=? length gs)%nat then Some (gs, ellipsis, l) else
    '(off, acc, rest) ← hex_number 0 0 l;
    if (off =? 0)%nat then None else
    match rest with
    | "."%char :: _ =>
      if (match ellipsis with None => negb (length gs =? 6)%nat | Some _ => false end) || (6 <? length gs)%nat then None else
      v ← parse_v4 l; Some (Z.land v 65535 :: Z.shiftr v 16 :: gs, ellipsis, [])
    | [] => Some (acc :: gs, ellipsis, [])
    | ":"%char :: rest =>
      match rest with
      | [] => None
      | ":"%char :: rest' =>
        match ellipsis with
        | Some _ => None
        | None =>
          match rest' with
          | [] => Some (acc :: gs, Some (S (length gs)), [])
          | _ => v6_loop fuel (acc :: gs) (Some (S (length gs))) rest'
          end
        end
      | _ => v6_loop fuel (acc :: gs) ellipsis rest
      end
    | _ => None
    end
  end.

Definition of_groups (gs : list Z) : Z := fold_left (λ v g, v * 65536 + g) gs 0.

Definition parse_v6 (l : list ascii) : option Z :=
  match l with
  | [":"%char; ":"%char] => Some 0
  | _ =>
    let '(ellipsis, l) := match l with ":"%char :: ":"%char :: l' => (Some 0%nat, l') | _ => (None, l) end in
    '(gs, ellipsis, rest) ← v6_loop 9 [] ellipsis l;
    let gs := reverse gs in
    if negb (length rest =? 0)%nat then None else
    match ellipsis with
    | None => if (length gs <? 8)%nat then None else Some (of_groups gs)
    | Some k =>
      if (length gs <? 8)%nat then Some (of_groups (take k gs ++ replicate (8 - length gs)%nat 0 ++ drop k gs)) else None
    end
  end.

(** An address without a zone, in normal form. *)
Definition norm_v6 (v : Z) : ip := if Z.shiftr v 32 =? 65535 then IP 32 (Z.land v (2 ^ 32 - 1)) else IP 128 v.

Fixpoint ParseIP_at (l0 l : list ascii) : option ip :=
  match l with
  | [] => None
  | "."%char :: _ => IP 32 <$> parse_v4 l0
  | ":"%char :: _ => if existsb (Ascii.eqb "%") l0 then None else norm_v6 <$> parse_v6 l0
  | "%"%char :: _ => None
  | _ :: l => ParseIP_at l0 l
  end.
Definition ParseIP (s : string) : option ip := ParseIP_at (to_chars s) (to_chars s).

(** ** Classes of addresses *)

Definition within (n : ipnet) (a : ip) : bool := net_Contains n a.

Definition IsLoopback (a : ip) : bool := within (v4 127 0 0 0 8) a || within (IPNet 1 128 128) a.
Definition IsLinkLocalUnicast (a : ip) : bool := within (v4 169 254 0 0 16) a || within (IPNet (254 * 2 ^ 120 + 128 * 2 ^ 112) 10 128) a.
Definition IsLinkLocalMulticast (a : ip) : bool :=
  within (v4 224 0 0 0 24) a ||
  ((ip_bits a =? 128) && (octet (ip_val a) 15 =? 255) && (Z.land (octet (ip_val a) 14) 15 =? 2)).
Definition IsPrivate (a : ip) : bool :=
  within (v4 10 0 0 0 8) a || within (v4 172 16 0 0 12) a || within (v4 192 168 0 0 16) a || within (IPNet (252 * 2 ^ 120) 7 128) a.
Definition IsMulticast (a : ip) : bool := within (v4 224 0 0 0 4) a || ((ip_bits a =? 128) && (octet (ip_val a) 15 =? 255)).
Definition IsUnspecified (a : ip) : bool := ip_val a =? 0.

(** ** Lines *)

Definition newline : ascii := ascii_of_nat 10.
Definition carriage_return : ascii := ascii_of_nat 13.

Definition drop_cr (l : list ascii) : list ascii :=
  match reverse l with a :: r => if Ascii.eqb a carriage_return then reverse r else l | [] => [] end.

Fixpoint scan_pieces (max : nat) (ls : list (list ascii)) : list string * bool :=
  match ls with
  | [] => ([], true)
  | l :: rest =>
    match l, rest with
    | [], [] => ([], true)
    | _, _ =>
      if (max <=? length l)%nat then ([], false) else
      let '(out, ok) := scan_pieces max rest in (of_chars (drop_cr l) :: out, ok)
    end
  end.

(** [bufio.Scanner] over a text with tokens below [max] bytes: the lines before
    the first that is too long, and whether there was none. *)
Definition scan_lines (max : nat) (s : string) : list string * bool := scan_pieces max (split_chars newline (to_chars s)).
Definition MaxScanTokenSize : nat := 64 * 1024.

(** ** Checks *)

Example parse_dotted : ParseIP "192.168.1.20" = Some (IP 32 3232235796).
Proof. vm_compute. reflexivity. Qed.
Example parse_bad : map ParseIP ["1.2.3"; "1.2.3.4.5"; "01.2.3.4"; "1.2.3.256"; "1::2::3"; "fe80::1%eth0"; ":1"; "1:2:3:4:5:6:7:8:9"; ""] = replicate 9 None.
Proof. vm_compute. reflexivity. Qed.
Example string_v6 : map (λ s, IP_String <$> ParseIP s)
  ["2001:DB8:0:0:1:0:0:1"; "::"; "::1"; "fe80::"; "::ffff:10.0.0.1"; "1:0:0:2:0:0:0:3"; "0:1:2:3:4:5:6:7"; "64:ff9b::1.2.3.4"] =
  map Some ["2001:db8::1:0:0:1"; "::"; "::1"; "fe80::"; "10.0.0.1"; "1:0:0:2::3"; "0:1:2:3:4:5:6:7"; "64:ff9b::102:304"].
Proof. vm_compute. reflexivity. Qed.
Example lines_of_text : scan_lines 6 (String.concat (String newline "") ["ab"; "cd"; ""; "toolong"; "x"]) = (["ab"; "cd"; ""], false).
Proof. vm_compute. reflexivity. Qed.
