(* ===== verification/Netctx.v ===== *)
(** * Netctx: the agent's own network (internal/netcontext)

    The interfaces, neighbours, routes and resolvers the collectors consult, read
    from the kernel's text files; [host] holds what the operating system
    answers (a file that cannot be opened is [None]). *)

From S2P Require Import Prelude GoStr GoText GoJson Net GoIP.
From Stdlib Require Import Ascii NArith.

Local Open Scope Z_scope.
Local Open Scope go_scope.

(** ** context.go: data *)

Definition SourceHostObserved : string := "host_observed".
Definition SourceContainerObserved : string := "container_observed".
Definition SourceUnknown : string := "unknown".

Record InterfaceInfo := {
  if_Name : string; if_MAC : string; if_MTU : Z; if_IsUp : bool; if_IsLoopback : bool; if_IsLinkLocal : bool;
  if_IPs : list string; if_CIDRs : list string }.

Record NeighborEntry := { nb_IP : string; nb_MAC : string; nb_Interface : string; nb_State : string }.
Record RouteEntry := { rt_Destination : string; rt_Gateway : string; rt_Interface : string; rt_Metric : Z; rt_Family : string }.
Record ResolverInfo := { rs_Nameservers : list string; rs_SearchDomains : list string; rs_Options : list string }.
Record HostIdentity := { hi_Hostname : string; hi_FQDN : string }.

Record NetworkContext := {
  nc_Interfaces : list InterfaceInfo; nc_LocalIPs : gset string; nc_LocalCIDRs : list ipnet; nc_Source : string;
  nc_Neighbors : list NeighborEntry; nc_Routes : list RouteEntry; nc_Resolvers : ResolverInfo; nc_HostIdentity : HostIdentity }.

(** The dynamic types of [net.Addr]; [None] is a nil IP. *)
Inductive iface_addr := AddrIPNet (n : option ipnet) | AddrIPAddr (a : option ip) | AddrOther.

Record ifaceData := { id_name : string; id_hardwareAddr : list Z; id_mtu : Z; id_flags : Z; id_addrs : list iface_addr }.

(** An interface of the host; [None] when its addresses cannot be listed. *)
Record host_iface := { hf_name : string; hf_hw : list Z; hf_mtu : Z; hf_flags : Z; hf_addrs : option (list iface_addr) }.

Record host := {
  h_ifaces : option (list host_iface); h_dockerenv : bool; h_cgroup : option string; h_arp : option string;
  h_route : option string; h_ipv6_route : option string; h_resolv : option string; h_hostname : option string }.

Definition flag_up (flags : Z) : bool := Z.testbit flags 0.
Definition flag_loopback (flags : Z) : bool := Z.testbit flags 2.

Definition ipFromAddr (a : iface_addr) : option ip :=
  match a with AddrIPNet n => net_addr <$> n | AddrIPAddr a => a | AddrOther => None end.

(** ** proc.go: limits *)

Record Caps := { cp_MaxInterfaces : Z; cp_MaxNeighbors : Z; cp_MaxRoutes : Z; cp_MaxResolvers : Z }.
Definition defaultMaxInterfaces : Z := 64.
Definition defaultMaxNeighbors : Z := 512.
Definition defaultMaxRoutes : Z := 256.
Definition defaultMaxResolvers : Z := 8.
Definition or_default (n d : Z) : Z := if n <=? 0 then d else n.
Definition normalizeCaps (c : Caps) : Caps := {|
  cp_MaxInterfaces := or_default (cp_MaxInterfaces c) defaultMaxInterfaces;
  cp_MaxNeighbors := or_default (cp_MaxNeighbors c) defaultMaxNeighbors;
  cp_MaxRoutes := or_default (cp_MaxRoutes c) defaultMaxRoutes;
  cp_MaxResolvers := or_default (cp_MaxResolvers c) defaultMaxResolvers |}.

(** ** proc.go: the kernel's tables *)

(** [strconv.ParseUint(s, 16, bits)] and [strconv.ParseInt(s, base, 32)]; [None] is
    any error. *)
Definition ParseUint16 (s : string) (bits : Z) : option Z :=
  match to_chars s with
  | [] => None
  | l => n ← parse_hex 0 l; if n <? 2 ^ bits then Some n else None
  end.
Definition ParseInt32 (parse : list ascii → option Z) (s : string) : option Z :=
  let '(neg, l) := match to_chars s with
    | "-"%char :: l => (true, l) | "+"%char :: l => (false, l) | l => (false, l) end in
  match l with
  | [] => None
  | _ => n ← parse l; let z := if neg : bool then - n else n in
         if (- 2 ^ 31 <=? z) && (z <? 2 ^ 31) then Some z else None
  end.

(** The [n]-th field, in range after the length tests. *)
Definition field (fields : list string) (n : nat) : string := default "" (fields !! n).

(** A loop that parses lines into entries until it has [max] of them. *)
Fixpoint take_entries {A} (parse : string → option A) (max : Z) (lines : list string) (out : list A) : list A :=
  match lines with
  | [] => out
  | line :: lines =>
    match parse line with
    | None => take_entries parse max lines out
    | Some x =>
      let out := out ++ [x] in
      if max <=? Z.of_nat (length out) then out else take_entries parse max lines out
    end
  end.

Definition hexIPv4LE (h : string) : option Z :=
  if negb (strlen h =? 8) then None else
  match hex_bytes (to_chars h) with
  | Some [b0; b1; b2; b3] => Some (((b3 * 256 + b2) * 256 + b1) * 256 + b0)
  | _ => None
  end.
Definition hexIPv4LEtoIP (h : string) : option string := dotted <$> hexIPv4LE h.

(** [IPMask.String]'s digits, and [IPNet.String] for any mask: the prefix
    length, or the mask itself when its ones are not a prefix. *)
Definition prefix_len (mask : Z) : option Z :=
  let ones := 32 - Z.log2_up (2 ^ 32 - mask) in
  if mask =? 2 ^ 32 - 2 ^ (32 - ones) then Some ones else None.
Definition mask_hex (mask : Z) : string :=
  of_chars (map (λ i, hex_char (Z.land (Z.shiftr mask (4 * i)) 15)) [7; 6; 5; 4; 3; 2; 1; 0]).
Definition hexIPv4LEtoCIDR (addrHex maskHex : string) : option string :=
  addr ← hexIPv4LE addrHex;
  mask ← hexIPv4LE maskHex;
  Some (dotted (Z.land addr mask) +:+ "/" +:+ match prefix_len mask with Some ones => Itoa ones | None => mask_hex mask end).

Definition hexIPv6 (h : string) : option string :=
  if negb (strlen h =? 32) then None else
  (λ bs, IP_String (norm_v6 (fold_left (λ v b, v * 256 + b) bs 0))) <$> hex_bytes (to_chars h).

Definition zero_mac : string := "00:00:00:00:00:00".

Definition parse_neighbor (line : string) : option NeighborEntry :=
  let fields := Fields line in
  if (length fields <? 6)%nat then None else
  let ip := field fields 0 in
  let flagStr := TrimPrefix (field fields 2) "0x" in
  let mac := field fields 3 in
  if str_eqb mac zero_mac then None else
  match ParseIP ip with
  | None => None
  | Some _ =>
    let state := match ParseUint16 flagStr 32 with
      | Some fl => if negb (Z.land fl 2 =? 0) then "reachable" else "incomplete"
      | None => "incomplete" end in
    Some {| nb_IP := ip; nb_MAC := mac; nb_Interface := field fields 5; nb_State := state |}
  end.

(** The entries of a table, and whether the scanner reached its end. *)
Definition collectARP (file : option string) (max : Z) : option (list NeighborEntry * bool) :=
  text ← file; let '(lines, ok) := scan_lines MaxScanTokenSize text in
  Some (take_entries parse_neighbor max (tail lines) [], ok).

Definition parse_route (line : string) : option RouteEntry :=
  let fields := Fields line in
  if (length fields <? 8)%nat then None else
  dest ← hexIPv4LEtoCIDR (field fields 1) (field fields 7);
  gw ← hexIPv4LEtoIP (field fields 2);
  Some {| rt_Destination := dest; rt_Gateway := gw; rt_Interface := field fields 0;
          rt_Metric := default 0 (ParseInt32 (parse_dec 0) (field fields 6)); rt_Family := "ipv4" |}.

Definition collectRoutes (file : option string) (max : Z) : option (list RouteEntry * bool) :=
  text ← file; let '(lines, ok) := scan_lines MaxScanTokenSize text in
  Some (take_entries parse_route max (tail lines) [], ok).

Definition parse_route6 (line : string) : option RouteEntry :=
  let fields := Fields line in
  if (length fields <? 10)%nat then None else
  prefixLen ← ParseUint16 (field fields 1) 8;
  destIP ← hexIPv6 (field fields 0);
  gw ← hexIPv6 (field fields 4);
  Some {| rt_Destination := destIP +:+ "/" +:+ Itoa prefixLen; rt_Gateway := gw; rt_Interface := field fields 9;
          rt_Metric := default 0 (ParseInt32 (parse_hex 0) (field fields 5)); rt_Family := "ipv6" |}.

Definition collectIPv6Routes (file : option string) (max : Z) : option (list RouteEntry * bool) :=
  if max <=? 0 then Some ([], true) else
  text ← file; let '(lines, ok) := scan_lines MaxScanTokenSize text in
  Some (take_entries parse_route6 max lines [], ok).

Definition no_resolvers : ResolverInfo := Build_ResolverInfo [] [] [].

Definition resolver_line (maxNS : Z) (info : ResolverInfo) (text : string) : ResolverInfo :=
  let line := TrimSpace text in
  if is_empty line || HasPrefix line "#" || HasPrefix line ";" then info else
  match Fields line with
  | kind :: value :: more =>
    if str_eqb kind "nameserver" then
      if (Z.of_nat (length (rs_Nameservers info)) <? maxNS) && bool_decide (is_Some (ParseIP value))
      then Build_ResolverInfo (rs_Nameservers info ++ [value]) (rs_SearchDomains info) (rs_Options info) else info
    else if str_eqb kind "search" then
      Build_ResolverInfo (rs_Nameservers info) (rs_SearchDomains info ++ value :: more) (rs_Options info)
    else if str_eqb kind "domain" then
      Build_ResolverInfo (rs_Nameservers info) (value :: rs_SearchDomains info) (rs_Options info)
    else if str_eqb kind "options" then
      Build_ResolverInfo (rs_Nameservers info) (rs_SearchDomains info) (rs_Options info ++ value :: more)
    else info
  | _ => info
  end.

Definition collectResolvers (file : option string) (maxNS : Z) : option (ResolverInfo * bool) :=
  text ← file; let '(lines, ok) := scan_lines MaxScanTokenSize text in
  Some (fold_left (resolver_line maxNS) lines no_resolvers, ok).

Definition collectHostIdentity (hostname : option string) : HostIdentity :=
  match hostname with
  | None => Build_HostIdentity "" ""
  | Some name => Build_HostIdentity name (if Contains name "." then name else "")
  end.

(** ** context.go: building the context *)

Definition mac_string (hw : list Z) : string :=
  Join (map (λ b, String (hex_char (Z.shiftr b 4)) (String (hex_char (Z.land b 15)) "")) hw) ":".

(** The address and the network of one interface address; [None] is [continue]. *)
Definition addr_net (a : iface_addr) : option (ip * ipnet) :=
  match a with
  | AddrIPNet n => (λ n, (net_addr n, n)) <$> n
  | AddrIPAddr a => (λ a, (a, IPNet (ip_val a) (ip_bits a) (ip_bits a))) <$> a
  | AddrOther => None
  end.

Definition add_addr (acc : InterfaceInfo * gset string * list ipnet) (a : iface_addr) : InterfaceInfo * gset string * list ipnet :=
  let '(info, ips, cidrs) := acc in
  match addr_net a with
  | None => acc
  | Some (ip, ipnet) =>
    let ipStr := IP_String ip in
    ({| if_Name := if_Name info; if_MAC := if_MAC info; if_MTU := if_MTU info; if_IsUp := if_IsUp info;
        if_IsLoopback := if_IsLoopback info || IsLoopback ip;
        if_IsLinkLocal := if_IsLinkLocal info || IsLinkLocalUnicast ip || IsLinkLocalMulticast ip;
        if_IPs := if_IPs info ++ [ipStr]; if_CIDRs := if_CIDRs info ++ [IPNet_String ipnet] |},
     {[ipStr]} ∪ ips, cidrs ++ [ipnet])
  end.

Definition new_info (d : ifaceData) : InterfaceInfo := {|
  if_Name := id_name d; if_MAC := if (length (id_hardwareAddr d) =? 0)%nat then "" else mac_string (id_hardwareAddr d);
  if_MTU := id_mtu d; if_IsUp := flag_up (id_flags d); if_IsLoopback := false; if_IsLinkLocal := false; if_IPs := []; if_CIDRs := [] |}.

Definition add_iface (acc : list InterfaceInfo * gset string * list ipnet) (d : ifaceData) : list InterfaceInfo * gset string * list ipnet :=
  let '(ifaces, ips, cidrs) := acc in
  let '(info, ips, cidrs) := fold_left add_addr (id_addrs d) (new_info d, ips, cidrs) in
  (if (length (if_IPs info) =? 0)%nat then ifaces else ifaces ++ [info], ips, cidrs).

Definition buildFromIfaceData (data : list ifaceData) (src : string) : NetworkContext :=
  let '(ifaces, ips, cidrs) := fold_left add_iface data ([], ∅, []) in
  {| nc_Interfaces := ifaces; nc_LocalIPs := ips; nc_LocalCIDRs := cidrs; nc_Source := src;
     nc_Neighbors := []; nc_Routes := []; nc_Resolvers := no_resolvers; nc_HostIdentity := Build_HostIdentity "" "" |}.

Definition detectSource (dockerenv : bool) (cgroup : option string) : string :=
  if dockerenv then SourceContainerObserved else
  match cgroup with
  | Some s => if Contains s "docker" || Contains s "kubepods" || Contains s "containerd"
              then SourceContainerObserved else SourceHostObserved
  | None => SourceHostObserved
  end.

Definition iface_data (i : host_iface) : option ifaceData :=
  (λ addrs, {| id_name := hf_name i; id_hardwareAddr := hf_hw i; id_mtu := hf_mtu i; id_flags := hf_flags i; id_addrs := addrs |})
  <$> hf_addrs i.

Definition Collect (h : host) (caps : Caps) : option NetworkContext :=
  let caps := normalizeCaps caps in
  ifaces ← h_ifaces h;
  let data := omap iface_data ifaces in
  let data := take (Z.to_nat (cp_MaxInterfaces caps)) data in
  let nc := buildFromIfaceData data (detectSource (h_dockerenv h) (h_cgroup h)) in
  let routes := from_option fst [] (collectRoutes (h_route h) (cp_MaxRoutes caps)) in
  let remaining := cp_MaxRoutes caps - Z.of_nat (length routes) in
  let routes := if 0 <? remaining then
      match collectIPv6Routes (h_ipv6_route h) remaining with
      | Some (routes6, true) => routes ++ routes6
      | _ => routes
      end
    else routes in
  Some {| nc_Interfaces := nc_Interfaces nc; nc_LocalIPs := nc_LocalIPs nc; nc_LocalCIDRs := nc_LocalCIDRs nc; nc_Source := nc_Source nc;
          nc_Neighbors := from_option fst [] (collectARP (h_arp h) (cp_MaxNeighbors caps));
          nc_Routes := routes;
          nc_Resolvers := from_option fst no_resolvers (collectResolvers (h_resolv h) (cp_MaxResolvers caps));
          nc_HostIdentity := collectHostIdentity (h_hostname h) |}.

(** [PrimaryIPv4]: the first match. *)
Definition primary_of (i : host_iface) : option string :=
  if negb (flag_up (hf_flags i)) || flag_loopback (hf_flags i) then None else
  addrs ← hf_addrs i;
  head (omap (λ a, ip ← ipFromAddr a; if negb (ip_bits ip =? 32) || IsLoopback ip then None else Some (IP_String ip)) addrs).
Definition PrimaryIPv4 (h : host) : string :=
  match h_ifaces h with Some ifaces => default "" (head (omap primary_of ifaces)) | None => "" end.

(** ** context.go: queries *)

Fixpoint find_cidr (cidrs : list ipnet) (a : ip) : string :=
  match cidrs with
  | [] => ""
  | cidr :: cidrs =>
    if net_Contains cidr a
    then IPNet_String (IPNet (net_base (IPNet (ip_val a) (n_ones cidr) (n_bits cidr))) (n_ones cidr) (n_bits cidr))
    else find_cidr cidrs a
  end.
Definition FindCIDR (nc : NetworkContext) (a : option ip) : string :=
  match a with Some a => find_cidr (nc_LocalCIDRs nc) a | None => "" end.

Definition is_local (nc : NetworkContext) (s : string) : bool := bool_decide (s ∈ nc_LocalIPs nc).

Definition EnrichEndpoints (nc : NetworkContext) (extra : gmap string json) (srcIPStr dstIPStr : string) : gmap string json :=
  let srcIsLocal := negb (is_empty srcIPStr) && is_local nc srcIPStr in
  let dstIsLocal := negb (is_empty dstIPStr) && is_local nc dstIPStr in
  let srcIP := ParseIP srcIPStr in
  let dstIP := ParseIP dstIPStr in
  let extra :=
    <["network_context_source" := JStr (nc_Source nc)]>
    (<["dst_in_agent_network" := JBool (bool_decide (is_Some dstIP) && negb (is_empty (FindCIDR nc dstIP)))]>
    (<["src_in_agent_network" := JBool (bool_decide (is_Some srcIP) && negb (is_empty (FindCIDR nc srcIP)))]>
    (<["dst_is_local_endpoint" := JBool dstIsLocal]>
    (<["src_is_local_endpoint" := JBool srcIsLocal]> extra)))) in
  if str_eqb (nc_Source nc) SourceUnknown then extra else
  let localCIDR :=
    if srcIsLocal && bool_decide (is_Some srcIP) then FindCIDR nc srcIP
    else if dstIsLocal && bool_decide (is_Some dstIP) then FindCIDR nc dstIP else "" in
  if is_empty localCIDR then extra else <["local_network_cidr" := JStr localCIDR]> extra.

Definition iface_map (i : InterfaceInfo) : json :=
  JObj ([("name", JStr (if_Name i)); ("ips", JArr (map JStr (if_IPs i))); ("cidrs", JArr (map JStr (if_CIDRs i)));
         ("is_loopback", JBool (if_IsLoopback i)); ("is_link_local", JBool (if_IsLinkLocal i)); ("is_up", JBool (if_IsUp i))] ++
        (if is_empty (if_MAC i) then [] else [("mac", JStr (if_MAC i))]) ++
        (if 0 <? if_MTU i then [("mtu", JInt (if_MTU i))] else []))%list.

Definition ToInventoryMap (nc : NetworkContext) : json :=
  let resolvers := nc_Resolvers nc in
  JObj [("schema_version", JInt 2); ("source", JStr (nc_Source nc)); ("interfaces", JArr (map iface_map (nc_Interfaces nc)));
        ("neighbors", JArr (map (λ n, JObj [("ip", JStr (nb_IP n)); ("mac", JStr (nb_MAC n)); ("interface", JStr (nb_Interface n)); ("state", JStr (nb_State n))]) (nc_Neighbors nc)));
        ("routes", JArr (map (λ r, JObj [("destination", JStr (rt_Destination r)); ("gateway", JStr (rt_Gateway r)); ("interface", JStr (rt_Interface r));
                                         ("metric", JInt (rt_Metric r)); ("family", JStr (rt_Family r))]) (nc_Routes nc)));
        ("resolvers", JObj ([("nameservers", JArr (map JStr (rs_Nameservers resolvers))); ("search_domains", JArr (map JStr (rs_SearchDomains resolvers)))] ++
                            (if (length (rs_Options resolvers) =? 0)%nat then [] else [("options", JArr (map JStr (rs_Options resolvers)))])));
        ("host_identity", JObj ([("hostname", JStr (hi_Hostname (nc_HostIdentity nc)))] ++
                                (if is_empty (hi_FQDN (nc_HostIdentity nc)) then [] else [("fqdn", JStr (hi_FQDN (nc_HostIdentity nc)))])))]%list.

(** ** Checks *)

Example route_line : parse_route "eth0	0001A8C0	00000000	0001	0	0	100	00FFFFFF	0	0	0" =
  Some {| rt_Destination := "192.168.1.0/24"; rt_Gateway := "0.0.0.0"; rt_Interface := "eth0"; rt_Metric := 100; rt_Family := "ipv4" |}.
Proof. vm_compute. reflexivity. Qed.
Example mask_prefixes : map prefix_len [0; 2 ^ 32 - 1; 2 ^ 32 - 256; 255] = [Some 0; Some 32; Some 24; None].
Proof. vm_compute. reflexivity. Qed.

(** ** Proofs *)

(** The network of [a] with the prefix of [cidr]. *)
Definition network_of (cidr : ipnet) (a : ip) : string :=
  IPNet_String (IPNet (net_base (IPNet (ip_val a) (n_ones cidr) (n_bits cidr))) (n_ones cidr) (n_bits cidr)).

Lemma IPNet_String_nonempty n : is_empty (IPNet_String n) = false.
Proof. unfold IPNet_String. by destruct (IP_String (net_addr n)). Qed.

Lemma find_cidr_spec cidrs a :
  if is_empty (find_cidr cidrs a) then (∀ cidr, cidr ∈ cidrs → net_Contains cidr a = false)
  else ∃ cidr, cidr ∈ cidrs ∧ net_Contains cidr a = true ∧ find_cidr cidrs a = network_of cidr a.
Proof.
  induction cidrs as [|cidr cidrs IH]; cbn; [by intros ? ?%elem_of_nil|].
  destruct (net_Contains cidr a) eqn:Hc.
  - rewrite IPNet_String_nonempty. exists cidr. split; [by left|done].
  - destruct (is_empty (find_cidr cidrs a)).
    + intros c [->|Hin]%elem_of_cons; [done|by apply IH].
    + destruct IH as (c & Hin & Hr). exists c. split; [by right|done].
Qed.

(** Whether a text is an address of one of the agent's networks. *)
Definition in_agent_network (nc : NetworkContext) (s : string) : Prop :=
  ∃ a cidr, ParseIP s = Some a ∧ cidr ∈ nc_LocalCIDRs nc ∧ net_Contains cidr a = true.

Lemma in_network_decided nc s :
  bool_decide (is_Some (ParseIP s)) && negb (is_empty (FindCIDR nc (ParseIP s))) = true ↔ in_agent_network nc s.
Proof.
  unfold in_agent_network, FindCIDR. destruct (ParseIP s) as [a|]; cbn [andb].
  - rewrite bool_decide_true by done. cbn. pose proof (find_cidr_spec (nc_LocalCIDRs nc) a) as H.
    destruct (is_empty (find_cidr _ a)); cbn; split; try done.
    + intros (a' & c & [= <-] & Hin & Hc). by rewrite H in Hc.
    + intros _. destruct H as (c & Hin & Hc & _). by exists a, c.
  - split; [done|]. by intros (? & ? & ? & _).
Qed.

Lemma JBool_true b : Some (JBool b) = Some (JBool true) ↔ b = true.
Proof. split; [congruence|by intros ->]. Qed.

Lemma is_local_spec nc s : negb (is_empty s) && is_local nc s = true ↔ s ≠ ""%string ∧ s ∈ nc_LocalIPs nc.
Proof. unfold is_local. rewrite andb_true_iff, bool_decide_eq_true. destruct s; naive_solver. Qed.

(** The locality hints of an event (netcontext.EnrichEndpoints).  An endpoint is
    marked local exactly if its text is one of the agent's addresses, and in the
    agent's network exactly if it parses to an address that one of the agent's
    networks contains.  [local_network_cidr] is only set when the source of the
    context is known, and is then the network of a local endpoint. *)
Theorem endpoint_hints nc extra src dst :
  extra !! "local_network_cidr"%string = None →
  let e := EnrichEndpoints nc extra src dst in
  (e !! "src_is_local_endpoint"%string = Some (JBool true) ↔ src ≠ ""%string ∧ src ∈ nc_LocalIPs nc) ∧
  (e !! "dst_is_local_endpoint"%string = Some (JBool true) ↔ dst ≠ ""%string ∧ dst ∈ nc_LocalIPs nc) ∧
  (e !! "src_in_agent_network"%string = Some (JBool true) ↔ in_agent_network nc src) ∧
  (e !! "dst_in_agent_network"%string = Some (JBool true) ↔ in_agent_network nc dst) ∧
  (∀ v, e !! "local_network_cidr"%string = Some v → nc_Source nc ≠ SourceUnknown ∧
     ∃ s a cidr, (s = src ∨ s = dst) ∧ s ∈ nc_LocalIPs nc ∧ ParseIP s = Some a ∧ cidr ∈ nc_LocalCIDRs nc ∧
                 net_Contains cidr a = true ∧ v = JStr (network_of cidr a)).
Proof.
  intros Hno e. rewrite <- !in_network_decided, <- !is_local_spec, <- !JBool_true.
  unfold e, EnrichEndpoints.
  set (sl := negb (is_empty src) && is_local nc src). set (dl := negb (is_empty dst) && is_local nc dst).
  set (base := <["network_context_source" := _]> _).
  set (cidr := if sl && _ then _ else _).
  assert (Hbase : ∀ k v, k ≠ "local_network_cidr"%string →
    (if str_eqb (nc_Source nc) SourceUnknown then base else if is_empty cidr then base else <["local_network_cidr" := JStr cidr]> base) !! k = v ↔
    base !! k = v).
  { intros k v Hk. repeat case_match; [done|done|]. by rewrite lookup_insert_ne by congruence. }
  rewrite !Hbase by done. unfold base. split_and!; [by simplify_map_eq..|].
  intros v Hv. fold base in Hv.
  assert (Hnb : base !! "local_network_cidr"%string = None) by (unfold base; by simplify_map_eq).
  destruct (str_eqb (nc_Source nc) SourceUnknown) eqn:Hs; [congruence|].
  destruct (is_empty cidr) eqn:Hc; [congruence|]. rewrite lookup_insert_eq in Hv. injection Hv as <-.
  split; [intros Heq; rewrite Heq, str_eqb_refl in Hs; done|].
  enough (∃ s, (s = src ∨ s = dst) ∧ s ∈ nc_LocalIPs nc ∧ cidr = FindCIDR nc (ParseIP s)) as (s & Hsd & Hl & Heq).
  { exists s. rewrite Heq in Hc |- *. destruct (ParseIP s) as [a|]; [|done]. cbn in *.
    pose proof (find_cidr_spec (nc_LocalCIDRs nc) a) as Hf. rewrite Hc in Hf.
    destruct Hf as (c & Hin & Hcon & ->). by exists a, c. }
  unfold cidr in *. destruct (sl && _) eqn:H1.
  - apply andb_true_iff in H1 as [H1 _]. exists src. split; [by left|]. split; [by apply is_local_spec|done].
  - destruct (dl && _) eqn:H2; [|done]. apply andb_true_iff in H2 as [H2 _]. exists dst. split; [by right|]. split; [by apply is_local_spec|done].
Qed.

Definition example_context : NetworkContext :=
  buildFromIfaceData [{| id_name := "eth0"; id_hardwareAddr := []; id_mtu := 1500; id_flags := 1;
                         id_addrs := [AddrIPNet (Some (v4 192 168 0 5 24))] |}] SourceHostObserved.

Lemma endpoint_hints_witness :
  in_agent_network example_context "192.168.0.7" ∧
  EnrichEndpoints example_context ∅ "192.168.0.7" "192.168.0.5" !! "local_network_cidr"%string = Some (JStr "192.168.0.0/24").
Proof.
  split; [|vm_compute; reflexivity].
  destruct (endpoint_hints example_context ∅ "192.168.0.7" "192.168.0.5" (lookup_empty _)) as (_ & _ & H & _).
  apply H. vm_compute. reflexivity.
Defined.
