(* ===== verification/Pcapx.v ===== *)
(** * Pcapx: what the packet collectors share (internal/collectors/pcapx)

    Decoded packets, the address filters, and the buffer that keeps one event per
    key and period until the next drain.  A packet is what gopacket decodes of
    it: one optional layer of each type the collectors look for. *)

From S2P Require Import Prelude GoStr GoText GoJson Net GoIP Event.
From Stdlib Require Import Ascii.

Local Open Scope Z_scope.
Local Open Scope go_scope.

(** ** Packets *)

Record tcp_layer := {
  tcp_SrcPort : Z; tcp_DstPort : Z; tcp_SYN : bool; tcp_ACK : bool; tcp_FIN : bool; tcp_RST : bool; tcp_PSH : bool; tcp_URG : bool;
  tcp_Payload : list Z }.
Record udp_layer := { udp_SrcPort : Z; udp_DstPort : Z; udp_Payload : list Z }.
Record icmp_layer := { icmp_Type : Z; icmp_Code : Z }.
Record arp_layer := { arp_Operation : Z; arp_SourceProtAddress : list Z; arp_DstProtAddress : list Z }.

(** [pk_capture] is the length in the metadata ([None]: no metadata), [pk_len] that
    of the data. *)
Record packet := {
  pk_ts : time; pk_capture : option Z; pk_len : Z;
  pk_ip4 : option (option ip * option ip); pk_ip6 : option (option ip * option ip); pk_arp : option arp_layer;
  pk_tcp : option tcp_layer; pk_udp : option udp_layer; pk_icmp4 : option icmp_layer; pk_icmp6 : option icmp_layer }.

(** [IP.String] of a possibly nil address, and of raw bytes. *)
Definition IPString (a : option ip) : string := match a with Some a => IP_String a | None => "<nil>" end.
Definition bytes_value (bs : list Z) : Z := fold_left (λ v b, v * 256 + b) bs 0.
Definition IPString_bytes (bs : list Z) : string :=
  match length bs with
  | O => "<nil>"
  | 4%nat => dotted (bytes_value bs)
  | 16%nat => IP_String (norm_v6 (bytes_value bs))
  | _ => "?" +:+ of_chars (flat_map (λ b, [hex_char (Z.shiftr b 4); hex_char (Z.land b 15)]) bs)
  end.

(** ** filter.go *)

Definition TCPFlags (t : tcp_layer) : string :=
  Join ((if tcp_SYN t then ["SYN"] else []) ++ (if tcp_ACK t then ["ACK"] else []) ++ (if tcp_FIN t then ["FIN"] else []) ++
        (if tcp_RST t then ["RST"] else []) ++ (if tcp_PSH t then ["PSH"] else []) ++ (if tcp_URG t then ["URG"] else []))%list%string "|".

Definition DropByIP (srcIP dstIP : string) (skipLoopback skipLinkLocal skipPrivateToPrivate : bool) (denyCIDRs : list ipnet) : bool :=
  match ParseIP srcIP, ParseIP dstIP with
  | Some sip, Some dip =>
    if skipLoopback && (IsLoopback sip || IsLoopback dip) then true else
    if skipLinkLocal && (IsLinkLocalUnicast sip || IsLinkLocalUnicast dip) then true else
    if skipPrivateToPrivate && IsPrivate sip && IsPrivate dip then true else
    existsb (λ n, net_Contains n sip || net_Contains n dip) denyCIDRs
  | _, _ => true
  end.

Definition SkippableIP (a : option ip) (skipLoopback skipLinkLocal : bool) : bool :=
  match a with
  | None => true
  | Some a =>
    if skipLoopback && IsLoopback a then true else
    if skipLinkLocal && (IsLinkLocalUnicast a || IsLinkLocalMulticast a) then true else false
  end.

Definition IPInCIDRs (a : option ip) (cidrs : list ipnet) : bool :=
  match a with Some a => existsb (λ n, net_Contains n a) cidrs | None => false end.

(** ** buffer.go *)

Record Buffer := { bf_buf : list NetEvent; bf_cache : gmap string time; bf_lastCleanup : time; bf_ttl : duration; bf_maxBatch : Z }.

Definition NewBuffer (ttl : duration) (maxBatch : Z) (now : time) : Buffer :=
  {| bf_buf := []; bf_cache := ∅; bf_lastCleanup := now; bf_ttl := ttl; bf_maxBatch := maxBatch |}.

(** [-2 * b.ttl] wraps around. *)
Definition cleanupLocked (b : Buffer) (now : time) : Buffer :=
  if time_sub now (bf_lastCleanup b) <? bf_ttl b then b else
  let cutoff := now + wrap64 (- 2 * bf_ttl b) in
  {| bf_buf := bf_buf b; bf_cache := filter (λ kt, ¬ kt.2 < cutoff) (bf_cache b); bf_lastCleanup := now;
     bf_ttl := bf_ttl b; bf_maxBatch := bf_maxBatch b |}.

Definition Push (b : Buffer) (now : time) (key : string) (ev : NetEvent) : bool * Buffer :=
  if match bf_cache b !! key with Some t => time_sub now t <? bf_ttl b | None => false end then (false, b) else
  if bf_maxBatch b <=? Z.of_nat (length (bf_buf b)) then (false, b) else
  (true, cleanupLocked {| bf_buf := bf_buf b ++ [ev]; bf_cache := <[key := now]> (bf_cache b); bf_lastCleanup := bf_lastCleanup b;
                          bf_ttl := bf_ttl b; bf_maxBatch := bf_maxBatch b |} now).

Definition Drain (b : Buffer) : list NetEvent * Buffer :=
  (bf_buf b, {| bf_buf := []; bf_cache := bf_cache b; bf_lastCleanup := bf_lastCleanup b; bf_ttl := bf_ttl b; bf_maxBatch := bf_maxBatch b |}).

(** ** Proofs *)

(** The uses of a buffer: the mutex makes each of them atomic. *)
Inductive op := OpPush (now : time) (key : string) (ev : NetEvent) | OpDrain.

(** A run: the buffer, the pushes accepted so far (latest first) and the events
    accepted since the last drain and drained so far. *)
Record history := { hs_buffer : Buffer; hs_accepted : list (time * string); hs_pending : list NetEvent; hs_drained : list NetEvent }.

Definition step (h : history) (o : op) : history :=
  match o with
  | OpPush now key ev =>
    let '(ok, b) := Push (hs_buffer h) now key ev in
    if ok : bool then {| hs_buffer := b; hs_accepted := (now, key) :: hs_accepted h; hs_pending := hs_pending h ++ [ev]; hs_drained := hs_drained h |}
    else {| hs_buffer := b; hs_accepted := hs_accepted h; hs_pending := hs_pending h; hs_drained := hs_drained h |}
  | OpDrain =>
    let '(out, b) := Drain (hs_buffer h) in
    {| hs_buffer := b; hs_accepted := hs_accepted h; hs_pending := []; hs_drained := hs_drained h ++ out |}
  end.

Definition run (ttl : duration) (maxBatch : Z) (start : time) (ops : list op) : history :=
  fold_left step ops {| hs_buffer := NewBuffer ttl maxBatch start; hs_accepted := []; hs_pending := []; hs_drained := [] |}.

(** The clock of a process does not go back. *)
Fixpoint clock_from (t : time) (ops : list op) : Prop :=
  match ops with
  | [] => True
  | OpPush now _ _ :: ops => t <= now ∧ clock_from now ops
  | OpDrain :: ops => clock_from t ops
  end.
Fixpoint clock_after (t : time) (ops : list op) : time :=
  match ops with [] => t | OpPush now _ _ :: ops => clock_after now ops | OpDrain :: ops => clock_after t ops end.

Record buffer_ok (ttl : duration) (maxBatch : Z) (now : time) (h : history) : Prop := {
  bo_ttl : bf_ttl (hs_buffer h) = ttl;
  bo_max : bf_maxBatch (hs_buffer h) = maxBatch;
  bo_pending : bf_buf (hs_buffer h) = hs_pending h;
  bo_room : Z.of_nat (length (hs_pending h)) <= Z.max 0 maxBatch;
  bo_past : ∀ t key, (t, key) ∈ hs_accepted h → t <= now;
  bo_last : ∀ key t, bf_cache (hs_buffer h) !! key = Some t →
    (t, key) ∈ hs_accepted h ∧ ∀ t', (t', key) ∈ hs_accepted h → t' <= t;
  bo_forgotten : ∀ key t, bf_cache (hs_buffer h) !! key = None → (t, key) ∈ hs_accepted h → ttl <= now - t;
}.

Lemma time_sub_ttl now t ttl : ttl <= max_int64 → t <= now → (time_sub now t <? ttl) = (now - t <? ttl).
Proof. unfold time_sub, sat64, max_int64, min_int64. intros. destruct (now - t <? ttl) eqn:E; zbool; [apply Z.ltb_lt|apply Z.ltb_ge]; lia. Qed.

Section runs.
Context (ttl : duration) (maxBatch : Z).
Context (Httl : 0 <= ttl < 2 ^ 62).

(** The test of [Push] against the whole past. *)
Definition recently (h : history) (now : time) (key : string) : Prop := ∃ t, (t, key) ∈ hs_accepted h ∧ now - t < ttl.

Lemma cache_test now now' h key : buffer_ok ttl maxBatch now h → now <= now' →
  match bf_cache (hs_buffer h) !! key with Some t => time_sub now' t <? bf_ttl (hs_buffer h) | None => false end = true ↔ recently h now' key.
Proof using Httl.
  intros [Ht _ _ _ Hpast Hlast Hforg] Hnow. unfold recently. rewrite Ht. destruct (bf_cache (hs_buffer h) !! key) as [t|] eqn:Hk.
  - destruct (Hlast key t Hk) as [Hin Hmax]. specialize (Hpast _ _ Hin).
    rewrite time_sub_ttl by (unfold max_int64; lia). rewrite Z.ltb_lt. split; [by exists t|].
    intros (t' & Hin' & Hlt). specialize (Hmax t' Hin'). lia.
  - split; [done|]. intros (t & Hin & Hlt). specialize (Hforg key t Hk Hin). lia.
Qed.

Lemma wrap_ttl : wrap64 (- 2 * ttl) = - 2 * ttl.
Proof using Httl. unfold wrap64. rewrite Z.mod_small; lia. Qed.

Lemma step_ok now h o : buffer_ok ttl maxBatch now h → clock_from now [o] → buffer_ok ttl maxBatch (clock_after now [o]) (step h o).
Proof using Httl.
  intros Hok Hclock. pose proof Hok as [Ht Hm Hp Hr Hpast Hlast Hforg]. destruct o as [now' key ev|]; cbn in *.
  2: { constructor; cbn; try done; lia. }
  destruct Hclock as [Hnow _].
  assert (Hrej : buffer_ok ttl maxBatch now' {| hs_buffer := hs_buffer h; hs_accepted := hs_accepted h; hs_pending := hs_pending h; hs_drained := hs_drained h |}).
  { constructor; cbn; try done.
    - intros t k Hin. specialize (Hpast t k Hin). lia.
    - intros k t Hk Hin. specialize (Hforg k t Hk Hin). lia. }
  unfold Push. destruct (match bf_cache (hs_buffer h) !! key with Some t => _ | None => _ end); [exact Hrej|].
  destruct (bf_maxBatch (hs_buffer h) <=? Z.of_nat (length (bf_buf (hs_buffer h)))) eqn:Hfull; [exact Hrej|]. zbool.
  set (b1 := {| bf_buf := _ |}).
  set (h1 := {| hs_buffer := b1; hs_accepted := (now', key) :: hs_accepted h; hs_pending := hs_pending h ++ [ev]; hs_drained := hs_drained h |}).
  assert (Hok1 : buffer_ok ttl maxBatch now' h1).
  { constructor; cbn; try done.
    - by rewrite Hp.
    - rewrite length_app. cbn. rewrite Hp in Hfull. lia.
    - intros t k [[= -> ->]|Hin]%elem_of_cons; [lia|]. specialize (Hpast t k Hin). lia.
    - intros k t [[<- <-]|[Hne Hk]]%lookup_insert_Some.
      + split; [by left|]. intros t' [[= ->]|Hin]%elem_of_cons; [lia|]. specialize (Hpast _ _ Hin). lia.
      + destruct (Hlast k t Hk) as [Hin Hmax]. split; [by right|]. intros t' [[= -> ->]|Hin']%elem_of_cons; [done|auto].
    - intros k t [Hk Hne]%lookup_insert_None [[= -> ->]|Hin]%elem_of_cons; [done|]. specialize (Hforg k t Hk Hin). lia. }
  unfold cleanupLocked. destruct (time_sub now' (bf_lastCleanup b1) <? bf_ttl b1); [exact Hok1|].
  destruct Hok1 as [_ _ Hp1 Hr1 Hpast1 Hlast1 Hforg1]. cbn -[b1] in *.
  constructor; cbn -[b1]; [by unfold b1; cbn|by unfold b1; cbn|done|done|done| |].
  - intros k t [Hk _]%map_lookup_filter_Some. by apply Hlast1.
  - intros k t Hk Hin. apply map_lookup_filter_None in Hk as [Hk|Hk]; [by apply (Hforg1 k t)|].
    unfold b1 in Hk at 2. cbn in Hk. rewrite Ht, wrap_ttl in Hk. destruct (bf_cache b1 !! k) as [t'|] eqn:Ht'.
    + destruct (Hlast1 k t' Ht') as [_ Hmax]. specialize (Hmax t Hin). specialize (Hk t' Ht'). cbn in Hk.
      assert (t' < now' + - 2 * ttl) by (apply Znot_ge_lt; intros Hge; apply Hk; lia). lia.
    + by apply (Hforg1 k t).
Qed.
End runs.

Lemma clock_from_app t ops ops' : clock_from t (ops ++ ops') ↔ clock_from t ops ∧ clock_from (clock_after t ops) ops'.
Proof. revert t. induction ops as [|[now key ev|] ops IH]; intros t; cbn; rewrite ?IH; tauto. Qed.

Lemma clock_after_app t ops ops' : clock_after t (ops ++ ops') = clock_after (clock_after t ops) ops'.
Proof. revert t. induction ops as [|[now key ev|] ops IH]; intros t; cbn; auto. Qed.

(** Two accepted events of one key are at least [ttl] apart. *)
Definition spaced (ttl : duration) (accepted : list (time * string)) : Prop :=
  StronglySorted (λ later earlier : time * string, later.2 = earlier.2 → ttl <= later.1 - earlier.1) accepted.

Lemma run_ok ttl maxBatch start ops : 0 <= ttl < 2 ^ 62 → clock_from start ops →
  buffer_ok ttl maxBatch (clock_after start ops) (run ttl maxBatch start ops) ∧ spaced ttl (hs_accepted (run ttl maxBatch start ops)).
Proof.
  intros Httl. induction ops as [|o ops IH] using rev_ind; intros Hclock.
  - split; [|constructor]. constructor; cbn; try done; try lia. by intros t key ?%elem_of_nil. by intros key t _ ?%elem_of_nil.
  - apply clock_from_app in Hclock as [H1 H2]. destruct (IH H1) as [Hok Hsp]. clear IH.
    unfold run. rewrite fold_left_app, clock_after_app. cbn [fold_left]. fold (run ttl maxBatch start ops).
    split; [by apply step_ok|]. destruct o as [now key ev|]; cbn in H2 |- *; [|done]. destruct H2 as [Hnow _].
    pose proof (cache_test ttl maxBatch Httl _ now _ key Hok Hnow) as Htest. unfold Push.
    destruct (match bf_cache _ !! key with Some t => _ | None => _ end); [done|].
    destruct (_ <=? _); [done|]. cbn. constructor; [done|]. apply Forall_forall. intros [t k] Hin. cbn. intros <-.
    apply Z.le_ngt. intros Hlt. assert (false = true) by (apply Htest; by exists t). done.
Qed.

(** C24: the deduplicating buffer of the packet collectors (pcapx.Buffer).  Although
    [cleanupLocked] forgets old keys, an event is accepted exactly if no event of
    its key was accepted within the period before it and fewer than [maxBatch]
    events wait for a drain; accepted events of one key are at least the period
    apart; and the buffer holds exactly the events accepted since the last drain,
    in order, never more than [maxBatch]. *)
Theorem dedup_exact ttl maxBatch start ops now key ev :
  0 <= ttl < 2 ^ 62 → clock_from start (ops ++ [OpPush now key ev]) →
  let h := run ttl maxBatch start ops in
  ((Push (hs_buffer h) now key ev).1 = true ↔
     (∀ t, (t, key) ∈ hs_accepted h → ttl <= now - t) ∧ Z.of_nat (length (hs_pending h)) < maxBatch) ∧
  spaced ttl (hs_accepted h) ∧
  bf_buf (hs_buffer h) = hs_pending h ∧ Z.of_nat (length (hs_pending h)) <= Z.max 0 maxBatch.
Proof.
  intros Httl [H1 [Hnow _]]%clock_from_app h. destruct (run_ok ttl maxBatch start ops Httl H1) as [Hok Hsp]. fold h in Hok, Hsp.
  pose proof (cache_test ttl maxBatch Httl _ now h key Hok Hnow) as Htest. destruct Hok as [Ht Hm Hp Hr _ _ _].
  split; [|done]. unfold Push. destruct (match bf_cache _ !! key with Some t => _ | None => _ end) eqn:Hc.
  - split; [done|]. intros [Hall _]. destruct (proj1 Htest eq_refl) as (t & Hin & Hlt). specialize (Hall t Hin). lia.
  - rewrite Hm, Hp. destruct (maxBatch <=? _) eqn:Hfull; zbool; cbn.
    + split; [done|lia].
    + split; [intros _|done]. split; [|lia]. intros t Hin. apply Z.le_ngt. intros Hlt.
      assert (false = true) by (apply Htest; by exists t). done.
Qed.

Definition probe (n : Z) : NetEvent := event "agent" "scan_probe" n "tcp" 60 ∅.

Lemma dedup_exact_witness :
  let ops := [OpPush 10 "k" (probe 1); OpPush 12 "k" (probe 2); OpPush 13 "l" (probe 3); OpDrain; OpPush 40 "m" (probe 4)] in
  (Push (hs_buffer (run 20 2 0 ops)) 41 "k" (probe 5)).1 = true ∧ hs_drained (run 20 2 0 ops) = [probe 1; probe 3].
Proof.
  split; [|vm_compute; reflexivity].
  apply (dedup_exact 20 2 0 [OpPush 10 "k" (probe 1); OpPush 12 "k" (probe 2); OpPush 13 "l" (probe 3); OpDrain; OpPush 40 "m" (probe 4)] 41 "k" (probe 5));
    [lia|cbn; lia|].
  split; [|vm_compute; reflexivity]. intros t.
  change (hs_accepted _) with [(40, "m"); (13, "l"); (10, "k")]%string.
  rewrite !elem_of_cons, elem_of_nil. intros [[=]|[[=]|[[= ->]|[]]]]. lia.
Defined.
