(* ===== verification/Ddos.v ===== *)
(** * Ddos: the flood detector (internal/collectors/ddos/pcap_ddos.go, l7.go)

    Packets to the agent's own addresses are counted per destination, protocol and
    port; once per window every active counter is compared with absolute
    thresholds and with its own baseline, and a sustained excess becomes one
    [dos_attack] event per cooldown period.  Packets, ticks and drains are atomic
    steps: the mutex and the atomic counters only cover the output buffer.  Map
    orders, [math.Log], [math.Log2] and the JSON text of a float64 are parameters.
    Counters are integers ([int] has 64 bits). *)

From S2P Require Import Prelude GoStr GoText GoJson Net GoIP Event Float Netctx Pcapx Sketch.
From Stdlib Require Import Ascii.

Local Open Scope Z_scope.
Local Open Scope go_scope.

Record PcapDDoSOptions := {
  o_Interface : string; o_SnapLen : Z; o_Promisc : bool; o_ReadTimeout : duration;
  o_Window : duration; o_EvalEvery : duration; o_Cooldown : duration; o_SustainWindows : Z;
  o_BaselineWarmupWindows : Z; o_BaselineAlpha : float64; o_BaselineFactor : float64;
  o_MinPPS : float64; o_MinBPS : float64; o_MinPackets : Z; o_MinRequests : Z; o_MinConfidence : Z; o_MinSynRatio : float64;
  o_DDoSMinSrcIPs : Z; o_DDoSMinSrcEntropyNorm : float64;
  o_EnableL7 : bool; o_MinHTTPRPS : float64; o_MinTLSHSRPS : float64; o_MinL7Ratio : float64;
  o_EnableEntropy : bool; o_MinSrcEntropyNorm : float64; o_MinPortEntropyNorm : float64; o_PortEntropyTopN : Z;
  o_CardinalityMode : string; o_HLLPrecision : Z; o_BloomBits : Z; o_MaxUniqueSrc : Z; o_TopSrc : Z;
  o_MaxBatchSize : Z; o_BackpressureHighWatermark : Z; o_BackpressureSampleEvery : Z;
  o_DropLikelyOutbound : bool; o_EphemeralPortMin : Z; o_SkipLoopback : bool; o_SkipLinkLocal : bool;
  o_DenyCIDRs : list ipnet; o_DenyDstPorts : gset Z; o_DenySrcPorts : gset Z }.

Definition pos_or (n d : Z) : Z := if n <=? 0 then d else n.
Definition fpos_or (v d : float64) : float64 := if fle v f0 then d else v.

Definition applyDDoSDefaults (o : PcapDDoSOptions) : PcapDDoSOptions :=
  let maxBatch := pos_or (o_MaxBatchSize o) 200 in
  let high := if o_BackpressureHighWatermark o <=? 0 then to_int (fmul (of_int maxBatch) (lit 80 2)) else o_BackpressureHighWatermark o in
  {| o_Interface := o_Interface o; o_SnapLen := pos_or (o_SnapLen o) 256; o_Promisc := o_Promisc o;
     o_ReadTimeout := pos_or (o_ReadTimeout o) (500 * millisecond);
     o_Window := pos_or (o_Window o) (5 * second); o_EvalEvery := pos_or (o_EvalEvery o) (1 * second);
     o_Cooldown := pos_or (o_Cooldown o) (30 * second); o_SustainWindows := pos_or (o_SustainWindows o) 2;
     o_BaselineWarmupWindows := pos_or (o_BaselineWarmupWindows o) 6;
     o_BaselineAlpha := if fle (o_BaselineAlpha o) f0 || fgt (o_BaselineAlpha o) (of_int 1) then lit 2 1 else o_BaselineAlpha o;
     o_BaselineFactor := if fle (o_BaselineFactor o) (of_int 1) then of_int 4 else o_BaselineFactor o;
     o_MinPPS := fpos_or (o_MinPPS o) (of_int 300); o_MinBPS := fpos_or (o_MinBPS o) (of_int 500000);
     o_MinPackets := if o_MinPackets o <? 0 then 0 else o_MinPackets o;
     o_MinRequests := if o_MinRequests o <? 0 then 0 else o_MinRequests o;
     o_MinConfidence := pos_or (o_MinConfidence o) 75; o_MinSynRatio := fpos_or (o_MinSynRatio o) (lit 70 2);
     o_DDoSMinSrcIPs := pos_or (o_DDoSMinSrcIPs o) 2; o_DDoSMinSrcEntropyNorm := fpos_or (o_DDoSMinSrcEntropyNorm o) (lit 55 2);
     o_EnableL7 := o_EnableL7 o; o_MinHTTPRPS := fpos_or (o_MinHTTPRPS o) (of_int 60);
     o_MinTLSHSRPS := fpos_or (o_MinTLSHSRPS o) (of_int 60); o_MinL7Ratio := fpos_or (o_MinL7Ratio o) (lit 25 2);
     o_EnableEntropy := o_EnableEntropy o; o_MinSrcEntropyNorm := fpos_or (o_MinSrcEntropyNorm o) (lit 50 2);
     o_MinPortEntropyNorm := fpos_or (o_MinPortEntropyNorm o) (lit 70 2); o_PortEntropyTopN := pos_or (o_PortEntropyTopN o) 12;
     o_CardinalityMode := if is_empty (o_CardinalityMode o) then "hll" else o_CardinalityMode o;
     o_HLLPrecision := pos_or (o_HLLPrecision o) 8; o_BloomBits := pos_or (o_BloomBits o) 2048;
     o_MaxUniqueSrc := pos_or (o_MaxUniqueSrc o) 4096; o_TopSrc := pos_or (o_TopSrc o) 10;
     o_MaxBatchSize := maxBatch; o_BackpressureHighWatermark := if maxBatch <? high then maxBatch else high;
     o_BackpressureSampleEvery := pos_or (o_BackpressureSampleEvery o) 4;
     o_DropLikelyOutbound := o_DropLikelyOutbound o; o_EphemeralPortMin := pos_or (o_EphemeralPortMin o) 49152;
     o_SkipLoopback := o_SkipLoopback o; o_SkipLinkLocal := o_SkipLinkLocal o;
     o_DenyCIDRs := o_DenyCIDRs o; o_DenyDstPorts := o_DenyDstPorts o; o_DenySrcPorts := o_DenySrcPorts o |}.

(** Destination, protocol and port; destination and protocol. *)
Definition aggKey : Type := (string * string * Z)%type.
Definition hostKey : Type := (string * string)%type.
Definition k_dst (k : aggKey) : string := k.1.1.
Definition k_proto (k : aggKey) : string := k.1.2.
Definition k_dport (k : aggKey) : Z := k.2.

Record agg := {
  a_key : aggKey; a_pkts : Z; a_bytes : Z; a_tcpPkts : Z; a_tcpSynPkts : Z; a_tcpPayloadPkts : Z; a_httpReqPkts : Z; a_tlsHelloPkts : Z;
  a_udpPkts : Z; a_udpAmpPkts : Z; a_icmpPkts : Z; a_srcCard : cardCounter; a_topSrc : TopK string;
  a_baselinePPS : float64; a_baselineBPS : float64; a_warmupOK : Z; a_sustain : Z; a_lastAlertAt : time; a_lastSeenAt : time }.

Record hostPortState := { hp_totalPkts : Z; hp_ports : TopK Z }.

(** What the capturer is made with, and what it changes. *)
Record config := { c_agentID : string; c_opts : PcapDDoSOptions; c_netCtx : NetworkContext }.
Record state := {
  s_buf : list NetEvent; s_bufLen : Z; s_windowStart : time; s_aggs : gmap aggKey agg;
  s_backpressureSeq : Z; s_backpressureDropped : Z }.

Definition NewPcapDDoSCapturer (agentID : string) (opts : PcapDDoSOptions) (collected : option NetworkContext) (now : time) :
    option (config * state) :=
  let opts := applyDDoSDefaults opts in
  nc ← collected;
  if (size (nc_LocalIPs nc) =? 0)%nat then None else
  Some ({| c_agentID := agentID; c_opts := opts; c_netCtx := nc |},
        {| s_buf := []; s_bufLen := 0; s_windowStart := now; s_aggs := ∅; s_backpressureSeq := 0; s_backpressureDropped := 0 |}).

Definition set_aggs (f : gmap aggKey agg → gmap aggKey agg) (s : state) : state :=
  {| s_buf := s_buf s; s_bufLen := s_bufLen s; s_windowStart := s_windowStart s; s_aggs := f (s_aggs s);
     s_backpressureSeq := s_backpressureSeq s; s_backpressureDropped := s_backpressureDropped s |}.

(** ** The output buffer *)

Definition Drain (s : state) : list NetEvent * state :=
  match s_buf s with
  | [] => ([], s)
  | buf => (buf, {| s_buf := []; s_bufLen := 0; s_windowStart := s_windowStart s; s_aggs := s_aggs s;
                    s_backpressureSeq := s_backpressureSeq s; s_backpressureDropped := s_backpressureDropped s |})
  end.

Definition drop_one (s : state) : state :=
  {| s_buf := s_buf s; s_bufLen := s_bufLen s; s_windowStart := s_windowStart s; s_aggs := s_aggs s;
     s_backpressureSeq := s_backpressureSeq s; s_backpressureDropped := u64 (s_backpressureDropped s + 1) |}.

Definition push (opts : PcapDDoSOptions) (ev : NetEvent) (s : state) : state :=
  if o_MaxBatchSize opts <=? Z.of_nat (length (s_buf s)) then drop_one s else
  let buf := s_buf s ++ [ev] in
  {| s_buf := buf; s_bufLen := Z.of_nat (length buf); s_windowStart := s_windowStart s; s_aggs := s_aggs s;
     s_backpressureSeq := s_backpressureSeq s; s_backpressureDropped := s_backpressureDropped s |}.

Definition sampleWeight (opts : PcapDDoSOptions) (s : state) : Z * state :=
  if o_BackpressureHighWatermark opts <=? 0 then (1, s) else
  if s_bufLen s <? o_BackpressureHighWatermark opts then (1, s) else
  let n := u64 (s_backpressureSeq s + 1) in
  let s := {| s_buf := s_buf s; s_bufLen := s_bufLen s; s_windowStart := s_windowStart s; s_aggs := s_aggs s;
              s_backpressureSeq := n; s_backpressureDropped := s_backpressureDropped s |} in
  let every := o_BackpressureSampleEvery opts in
  if (every <=? 1) || (n mod every =? 0) then (if every <=? 1 then 1 else every, s) else (0, drop_one s).

(** ** Application protocols (l7.go) *)

Definition mem (z : Z) (l : list Z) : bool := existsb (Z.eqb z) l.

Definition isHTTPPort (port : Z) : bool := mem port [80; 8080; 8000; 8888; 5000; 3000].
Definition isTLSPort (port : Z) : bool := mem port [443; 8443; 9443; 10443].
Definition isAmplificationSrcPort (port : Z) : bool := mem port [53; 123; 1900; 11211; 389; 19; 161; 520; 69; 5353].

Fixpoint trim_left (payload : list Z) : list Z :=
  match payload with b :: rest => if mem b [13; 10; 9; 32] then trim_left rest else payload | [] => [] end.
Definition bytes_of (s : string) : list Z := map (λ a, Z.of_N (code a)) (to_chars s).
Definition has_prefix (payload prefix : list Z) : bool := bool_decide (take (length prefix) payload = prefix).
Definition byte (payload : list Z) (i : nat) : Z := default 0 (payload !! i).

Definition isHTTPPayload (payload : list Z) : bool :=
  if (length payload <? 4)%nat then false else
  let p := trim_left payload in
  if (length p <? 4)%nat then false else
  existsb (λ m, has_prefix p (bytes_of m)) ["GET "; "POST "; "HEAD "; "PUT "; "DELETE "; "OPTIONS "; "PATCH "; "PRI * HTTP/2.0"]%string.

Definition isTLSClientHello (payload : list Z) : bool :=
  if (length payload <? 6)%nat then false else
  (byte payload 0 =? 22) && (byte payload 1 =? 3) && negb ((byte payload 2 <? 1) || (4 <? byte payload 2)) && (byte payload 5 =? 1).

(** ** Counting packets *)

Definition getAgg (opts : PcapDDoSOptions) (aggs : gmap aggKey agg) (k : aggKey) (now : time) : agg :=
  match aggs !! k with
  | Some a =>
    {| a_key := a_key a; a_pkts := a_pkts a; a_bytes := a_bytes a; a_tcpPkts := a_tcpPkts a; a_tcpSynPkts := a_tcpSynPkts a;
       a_tcpPayloadPkts := a_tcpPayloadPkts a; a_httpReqPkts := a_httpReqPkts a; a_tlsHelloPkts := a_tlsHelloPkts a;
       a_udpPkts := a_udpPkts a; a_udpAmpPkts := a_udpAmpPkts a; a_icmpPkts := a_icmpPkts a; a_srcCard := a_srcCard a; a_topSrc := a_topSrc a;
       a_baselinePPS := a_baselinePPS a; a_baselineBPS := a_baselineBPS a; a_warmupOK := a_warmupOK a; a_sustain := a_sustain a;
       a_lastAlertAt := a_lastAlertAt a; a_lastSeenAt := now |}
  | None =>
    {| a_key := k; a_pkts := 0; a_bytes := 0; a_tcpPkts := 0; a_tcpSynPkts := 0; a_tcpPayloadPkts := 0; a_httpReqPkts := 0; a_tlsHelloPkts := 0;
       a_udpPkts := 0; a_udpAmpPkts := 0; a_icmpPkts := 0;
       a_srcCard := newCardCounter (o_CardinalityMode opts) (o_MaxUniqueSrc opts) (o_HLLPrecision opts) (o_BloomBits opts);
       a_topSrc := NewTopK (o_TopSrc opts);
       a_baselinePPS := f0; a_baselineBPS := f0; a_warmupOK := 0; a_sustain := 0; a_lastAlertAt := 0; a_lastSeenAt := now |}
  end.

Section detector.
Context (Log Log2 : float64 → float64) (number : float64 → string).
Context (str_order : gmap string Z → list (string * Z)) (int_order : gmap Z Z → list (Z * Z)).
Context (port_order agg_order : gmap aggKey agg → list (aggKey * agg)).
Context (c : config).

Let opts := c_opts c.

(** What a packet adds to its counter, per protocol: packets, SYNs, payloads, HTTP
    requests, TLS hellos, UDP, amplified UDP, ICMP. *)
Record tally := { t_tcp : Z; t_syn : Z; t_payload : Z; t_http : Z; t_tls : Z; t_udp : Z; t_amp : Z; t_icmp : Z }.

Definition tcp_tally (weight : Z) (tcp : tcp_layer) : tally :=
  let dport := tcp_DstPort tcp in
  let payload := negb (length (tcp_Payload tcp) =? 0)%nat in
  {| t_tcp := weight; t_syn := if tcp_SYN tcp && negb (tcp_ACK tcp) then weight else 0;
     t_payload := if payload then weight else 0;
     t_http := if payload && o_EnableL7 opts && (isHTTPPort dport && isHTTPPayload (tcp_Payload tcp)) then weight else 0;
     t_tls := if payload && o_EnableL7 opts && (isTLSPort dport && isTLSClientHello (tcp_Payload tcp)) then weight else 0;
     t_udp := 0; t_amp := 0; t_icmp := 0 |}.
Definition udp_tally (weight : Z) (udp : udp_layer) : tally :=
  {| t_tcp := 0; t_syn := 0; t_payload := 0; t_http := 0; t_tls := 0; t_udp := weight;
     t_amp := if isAmplificationSrcPort (udp_SrcPort udp) then weight else 0; t_icmp := 0 |}.
Definition icmp_tally (weight : Z) : tally :=
  {| t_tcp := 0; t_syn := 0; t_payload := 0; t_http := 0; t_tls := 0; t_udp := 0; t_amp := 0; t_icmp := weight |}.

Definition count (a : agg) (weight capLen : Z) (srcS : string) (t : tally) : agg :=
  {| a_key := a_key a; a_pkts := a_pkts a + weight; a_bytes := a_bytes a + capLen * weight;
     a_tcpPkts := a_tcpPkts a + t_tcp t; a_tcpSynPkts := a_tcpSynPkts a + t_syn t; a_tcpPayloadPkts := a_tcpPayloadPkts a + t_payload t;
     a_httpReqPkts := a_httpReqPkts a + t_http t; a_tlsHelloPkts := a_tlsHelloPkts a + t_tls t;
     a_udpPkts := a_udpPkts a + t_udp t; a_udpAmpPkts := a_udpAmpPkts a + t_amp t; a_icmpPkts := a_icmpPkts a + t_icmp t;
     a_srcCard := card_Add (a_srcCard a) srcS; a_topSrc := TopKStr_Add str_order (a_topSrc a) srcS weight;
     a_baselinePPS := a_baselinePPS a; a_baselineBPS := a_baselineBPS a; a_warmupOK := a_warmupOK a; a_sustain := a_sustain a;
     a_lastAlertAt := a_lastAlertAt a; a_lastSeenAt := a_lastSeenAt a |}.

(** Ports the detector does not look at. *)
Definition port_denied (sport dport : Z) : bool :=
  bool_decide (dport ∈ o_DenyDstPorts opts) || bool_decide (sport ∈ o_DenySrcPorts opts) ||
  (o_DropLikelyOutbound opts && (0 <? o_EphemeralPortMin opts) && (o_EphemeralPortMin opts <=? dport)).

(** The counter of a packet and what it adds; [None] when it is not counted. *)
Definition classify (weight : Z) (dstS : string) (pkt : packet) : option (aggKey * tally) :=
  match pk_tcp pkt with
  | Some tcp =>
    if port_denied (tcp_SrcPort tcp) (tcp_DstPort tcp) then None else Some ((dstS, "tcp"%string, tcp_DstPort tcp), tcp_tally weight tcp)
  | None =>
    match pk_udp pkt with
    | Some udp =>
      if port_denied (udp_SrcPort udp) (udp_DstPort udp) then None else Some ((dstS, "udp"%string, udp_DstPort udp), udp_tally weight udp)
    | None =>
      match pk_icmp4 pkt, pk_icmp6 pkt with
      | Some _, _ => Some ((dstS, "icmp"%string, 0), icmp_tally weight)
      | None, Some _ => Some ((dstS, "icmp6"%string, 0), icmp_tally weight)
      | None, None => None
      end
    end
  end.

Definition packet_ips (pkt : packet) : option (option ip * option ip) :=
  match pk_ip4 pkt with Some ips => Some ips | None => pk_ip6 pkt end.

Definition captured_length (pkt : packet) : Z :=
  let capLen := default 0 (pk_capture pkt) in
  let capLen := if capLen <=? 0 then pk_len pkt else capLen in
  if capLen <=? 0 then 1 else capLen.

(** The counter of a packet, its source and what it adds, past all the filters. *)
Definition counted (weight : Z) (pkt : packet) : option (aggKey * string * tally) :=
  match packet_ips pkt with
  | None => None
  | Some (srcIP, dstIP) =>
    if SkippableIP srcIP (o_SkipLoopback opts) (o_SkipLinkLocal opts) then None else
    if SkippableIP dstIP (o_SkipLoopback opts) (o_SkipLinkLocal opts) then None else
    if IPInCIDRs srcIP (o_DenyCIDRs opts) || IPInCIDRs dstIP (o_DenyCIDRs opts) then None else
    let srcS := IPString srcIP in
    let dstS := IPString dstIP in
    if negb (is_local (c_netCtx c) dstS) then None else
    if is_local (c_netCtx c) srcS then None else
    match classify weight dstS pkt with
    | None => None
    | Some (k, t) => Some (k, srcS, t)
    end
  end.

Definition onPacket (now : time) (pkt : packet) (s : state) : state :=
  let '(weight, s) := sampleWeight opts s in
  if weight <=? 0 then s else
  match counted weight pkt with
  | None => s
  | Some (k, srcS, t) => set_aggs (λ aggs, <[k := count (getAgg opts aggs k now) weight (captured_length pkt) srcS t]> aggs) s
  end.

(** ** Evaluating a window *)

Definition ratio (n d : Z) : float64 := if 0 <? d then fdiv (of_int n) (of_int d) else f0.

Definition classifyVector (a : agg) (synRatio httpRPS tlsRPS l7Ratio : float64) : string * float64 :=
  let proto := k_proto (a_key a) in
  let dport := k_dport (a_key a) in
  if str_eqb proto "tcp" then
    if o_EnableL7 opts && fge httpRPS (o_MinHTTPRPS opts) && fge l7Ratio (o_MinL7Ratio opts) && isHTTPPort dport then ("http_flood", f0) else
    if o_EnableL7 opts && fge tlsRPS (o_MinTLSHSRPS opts) && fge l7Ratio (o_MinL7Ratio opts) && isTLSPort dport then ("tls_handshake_flood", f0) else
    if fge synRatio (o_MinSynRatio opts) && (50 <=? a_tcpPkts a) then ("tcp_syn_flood", f0) else ("tcp_flood", f0)
  else if str_eqb proto "udp" then
    let ampRatio := ratio (a_udpAmpPkts a) (a_udpPkts a) in
    if fge ampRatio (lit 60 2) && (50 <=? a_udpPkts a) then ("udp_amp_flood", ampRatio) else ("udp_flood", ampRatio)
  else if str_eqb proto "icmp" || str_eqb proto "icmp6" then ("icmp_flood", f0)
  else ("flood", f0).

Definition computeConfidence (trigger baselineReady relOver distributed : bool) (vector : string)
    (pps bps synRatio httpRPS tlsRPS l7Ratio ampRatio srcEnt : float64) (pm : PortEntropy) : Z :=
  let conf := 0 in
  let conf := if trigger then conf + 25 else conf in
  let conf := if baselineReady && relOver then conf + 15 else conf in
  let conf := if fge pps (of_int 1000) then conf + 10 else conf in
  let conf := if fge bps (of_int 2000000) then conf + 10 else conf in
  let conf := if distributed then conf + 20 else conf + 8 in
  let conf := if fge srcEnt (lit 75 2) then conf + 10 else if fge srcEnt (lit 55 2) then conf + 6 else conf in
  let conf :=
    if str_eqb vector "tcp_syn_flood" then (if fge synRatio (lit 85 2) then conf + 12 else conf + 8)
    else if str_eqb vector "http_flood" then
      let conf := if fge httpRPS (of_int 200) then conf + 15 else conf + 10 in if fge l7Ratio (lit 60 2) then conf + 5 else conf
    else if str_eqb vector "tls_handshake_flood" then
      let conf := if fge tlsRPS (of_int 200) then conf + 15 else conf + 10 in if fge l7Ratio (lit 60 2) then conf + 5 else conf
    else if str_eqb vector "udp_amp_flood" then (if fge ampRatio (lit 80 2) then conf + 15 else conf + 10)
    else conf in
  let conf := if fge (pe_TopShare pm) (lit 85 2) && fle (pe_EntropyNorm pm) (lit 35 2) then conf + 5 else conf in
  let conf := if conf <? 0 then 0 else conf in
  if 100 <? conf then 100 else conf.

Definition severityFrom (conf : Z) (pps bps : float64) (distributed : bool) : string :=
  if 90 <=? conf then "critical" else
  if 80 <=? conf then "high" else
  if 70 <=? conf then
    if distributed && (fge pps (of_int 1500) || fge bps (of_int 5000000)) then "high" else "medium"
  else "low".

(** What is measured of a counter at the end of a window. *)
Record measures := {
  m_pps : float64; m_bps : float64; m_uniqueSrc : Z; m_uniqueCapped : bool; m_cardMode : string; m_topSrc : list (string * Z); m_srcEnt : float64;
  m_synRatio : float64; m_httpRPS : float64; m_tlsRPS : float64; m_l7Ratio : float64; m_reqCount : Z }.

Definition windowSec : float64 := let w := Seconds (o_Window opts) in if fle w f0 then of_int 1 else w.

Definition measure (a : agg) : measures :=
  let '(uniqueSrc, card) := card_Estimate Log (a_srcCard a) in
  let topSrc := TopKStr_ItemsSorted (a_topSrc a) in
  {| m_pps := fdiv (of_int (a_pkts a)) windowSec; m_bps := fdiv (of_int (a_bytes a)) windowSec;
     m_uniqueSrc := uniqueSrc; m_uniqueCapped := card_Capped card; m_cardMode := card_Kind card; m_topSrc := topSrc;
     m_srcEnt := if o_EnableEntropy opts then srcEntropyNorm Log2 (a_pkts a) topSrc else f0;
     m_synRatio := ratio (a_tcpSynPkts a) (a_tcpPkts a);
     m_httpRPS := fdiv (of_int (a_httpReqPkts a)) windowSec; m_tlsRPS := fdiv (of_int (a_tlsHelloPkts a)) windowSec;
     m_l7Ratio := ratio (a_httpReqPkts a + a_tlsHelloPkts a) (a_tcpPayloadPkts a);
     m_reqCount := a_httpReqPkts a + a_tlsHelloPkts a |}.

Definition baseline_ready (a : agg) : bool :=
  (o_BaselineWarmupWindows opts <=? a_warmupOK a) && fgt (a_baselinePPS a) f0 && fgt (a_baselineBPS a) f0.
Definition rel_over (a : agg) (m : measures) : bool :=
  baseline_ready a && (fge (m_pps m) (fmul (a_baselinePPS a) (o_BaselineFactor opts)) || fge (m_bps m) (fmul (a_baselineBPS a) (o_BaselineFactor opts))).

Definition triggers (a : agg) (m : measures) : bool :=
  let packetsOK := (o_MinPackets opts <=? 0) || (o_MinPackets opts <=? a_pkts a) in
  let requestsOK := (o_MinRequests opts <=? 0) || (o_MinRequests opts <=? m_reqCount m) in
  let volOver := packetsOK && (fge (m_pps m) (o_MinPPS opts) || fge (m_bps m) (o_MinBPS opts)) in
  let l7Over := o_EnableL7 opts && packetsOK && requestsOK && fge (m_l7Ratio m) (o_MinL7Ratio opts) &&
                (fge (m_httpRPS m) (o_MinHTTPRPS opts) || fge (m_tlsRPS m) (o_MinTLSHSRPS opts)) in
  (volOver || l7Over) && (l7Over || negb (baseline_ready a) || rel_over a m).

(** The counter after [trigger] is known: the streak, and a baseline that only
    learns from windows that do not trigger. *)
Definition learn (a : agg) (m : measures) (trigger : bool) : agg :=
  let alpha := o_BaselineAlpha opts in
  let ewma b x := if a_warmupOK a =? 0 then x else fadd (fmul (fsub (of_int 1) alpha) b) (fmul alpha x) in
  {| a_key := a_key a; a_pkts := a_pkts a; a_bytes := a_bytes a; a_tcpPkts := a_tcpPkts a; a_tcpSynPkts := a_tcpSynPkts a;
     a_tcpPayloadPkts := a_tcpPayloadPkts a; a_httpReqPkts := a_httpReqPkts a; a_tlsHelloPkts := a_tlsHelloPkts a;
     a_udpPkts := a_udpPkts a; a_udpAmpPkts := a_udpAmpPkts a; a_icmpPkts := a_icmpPkts a;
     a_srcCard := (card_Estimate Log (a_srcCard a)).2; a_topSrc := a_topSrc a;
     a_baselinePPS := if trigger then a_baselinePPS a else ewma (a_baselinePPS a) (m_pps m);
     a_baselineBPS := if trigger then a_baselineBPS a else ewma (a_baselineBPS a) (m_bps m);
     a_warmupOK := if trigger then a_warmupOK a else a_warmupOK a + 1;
     a_sustain := if trigger then a_sustain a + 1 else 0;
     a_lastAlertAt := a_lastAlertAt a; a_lastSeenAt := a_lastSeenAt a |}.

(** The counts start again; an alert is remembered. *)
Definition restart (a : agg) (lastAlertAt : time) : agg :=
  {| a_key := a_key a; a_pkts := 0; a_bytes := 0; a_tcpPkts := 0; a_tcpSynPkts := 0; a_tcpPayloadPkts := 0; a_httpReqPkts := 0;
     a_tlsHelloPkts := 0; a_udpPkts := 0; a_udpAmpPkts := 0; a_icmpPkts := 0; a_srcCard := card_Reset (a_srcCard a); a_topSrc := Reset (a_topSrc a);
     a_baselinePPS := a_baselinePPS a; a_baselineBPS := a_baselineBPS a; a_warmupOK := a_warmupOK a; a_sustain := a_sustain a;
     a_lastAlertAt := lastAlertAt; a_lastSeenAt := a_lastSeenAt a |}.

Definition dist (m : measures) : bool :=
  (o_DDoSMinSrcIPs opts <=? m_uniqueSrc m) && (negb (o_EnableEntropy opts) || fge (m_srcEnt m) (o_DDoSMinSrcEntropyNorm opts)).

Definition rnum (v : float64) : json := JFrac (number (Round2HalfUp v)).

(** The alert: [a] before its counts start again, [ready] and [conf] as computed. *)
Definition alert_event (now : time) (a : agg) (m : measures) (pm : PortEntropy) (vector : string) (ampRatio : float64) (ready : bool)
    (conf : Z) (sev : string) (sustainNeeded dropped : Z) : NetEvent :=
  let extra : gmap string json := list_to_map [
    ("attack", JStr (if dist m then "ddos" else "dos")); ("distributed", JBool (dist m)); ("vector", JStr vector); ("severity", JStr sev);
    ("confidence", JInt conf); ("window_seconds", JInt (to_int (Seconds (o_Window opts)))); ("packets", JInt (a_pkts a));
    ("requests", JInt (m_reqCount m)); ("pps", rnum (m_pps m)); ("bps", rnum (m_bps m)); ("unique_src_ips", JInt (m_uniqueSrc m));
    ("unique_src_capped", JBool (m_uniqueCapped m)); ("cardinality_mode", JStr (m_cardMode m)); ("src_entropy_norm", rnum (m_srcEnt m));
    ("src_entropy_signal", JBool (o_EnableEntropy opts && fge (m_srcEnt m) (o_MinSrcEntropyNorm opts)));
    ("port_entropy_signal", JBool (o_EnableEntropy opts && fge (pe_EntropyNorm pm) (o_MinPortEntropyNorm opts)));
    ("port_entropy_norm", rnum (pe_EntropyNorm pm)); ("port_distinct", JInt (pe_Distinct pm)); ("port_top", JInt (pe_TopPort pm));
    ("port_top_share", rnum (pe_TopShare pm)); ("tcp_syn_ratio", rnum (m_synRatio m)); ("http_rps", rnum (m_httpRPS m));
    ("tls_handshake_rps", rnum (m_tlsRPS m)); ("l7_ratio", rnum (m_l7Ratio m)); ("udp_amp_ratio", rnum ampRatio);
    ("baseline_pps", rnum (a_baselinePPS a)); ("baseline_bps", rnum (a_baselineBPS a)); ("baseline_ready", JBool ready);
    ("baseline_factor", rnum (o_BaselineFactor opts));
    ("top_src", JArr (map (λ it, JObj [("ip", JStr it.1); ("packets", JInt it.2)]) (m_topSrc m)));
    ("collector_bp_compensated", JBool (0 <? dropped)); ("collector_bp_sample_every", JInt (o_BackpressureSampleEvery opts));
    ("collector_sustain_windows", JInt (o_SustainWindows opts)); ("collector_sustain_effective", JInt sustainNeeded);
    ("collector_bp_dropped_packets", JInt dropped)] in
  {| ne_EventID := ""; ne_AgentID := c_agentID c; ne_EventType := "dos_attack"; ne_SchemaVersion := 0; ne_Timestamp := now;
     ne_SrcIP := ""; ne_DstIP := k_dst (a_key a); ne_SrcPort := 0; ne_DstPort := k_dport (a_key a); ne_Proto := k_proto (a_key a);
     ne_Bytes := a_bytes a; ne_Extra := Some (EnrichEndpoints (c_netCtx c) extra "" (k_dst (a_key a))) |}.

(** The counter at the end of a window, and the alert if there is one. *)
Definition evaluate (now : time) (sustainNeeded dropped : Z) (pm : PortEntropy) (a : agg) : agg * option NetEvent :=
  let m := measure a in
  let ready := baseline_ready a in
  let rel := rel_over a m in
  let trigger := triggers a m in
  let a := learn a m trigger in
  let '(vector, ampRatio) := classifyVector a (m_synRatio m) (m_httpRPS m) (m_tlsRPS m) (m_l7Ratio m) in
  let conf := computeConfidence trigger ready rel (dist m) vector (m_pps m) (m_bps m) (m_synRatio m) (m_httpRPS m) (m_tlsRPS m)
                (m_l7Ratio m) ampRatio (m_srcEnt m) pm in
  let sev := severityFrom conf (m_pps m) (m_bps m) (dist m) in
  let shouldEmit := trigger && (sustainNeeded <=? a_sustain a) && (o_MinConfidence opts <=? conf) in
  let shouldEmit := shouldEmit && negb (negb (is_zero_time (a_lastAlertAt a)) && (time_sub now (a_lastAlertAt a) <? o_Cooldown opts)) in
  if shouldEmit
  then (restart a now, Some (alert_event now a m pm vector ampRatio ready conf sev sustainNeeded dropped))
  else (restart a (a_lastAlertAt a), None).

(** *** The ports of a host *)

Definition add_port (hosts : gmap hostKey hostPortState) (ka : aggKey * agg) : gmap hostKey hostPortState :=
  let a := ka.2 in
  if a_pkts a <=? 0 then hosts else
  let hk := (k_dst (a_key a), k_proto (a_key a)) in
  let hs := default {| hp_totalPkts := 0; hp_ports := NewTopK (o_PortEntropyTopN opts) |} (hosts !! hk) in
  <[hk := {| hp_totalPkts := hp_totalPkts hs + a_pkts a; hp_ports := TopKInt_Add int_order (hp_ports hs) (k_dport (a_key a)) (a_pkts a) |}]> hosts.
Definition host_ports (aggs : gmap aggKey agg) : gmap hostKey hostPortState := fold_left add_port (port_order aggs) ∅.
Definition port_metrics (aggs : gmap aggKey agg) : gmap hostKey PortEntropy :=
  (λ hs, portEntropy Log2 (hp_totalPkts hs) (TopKInt_ItemsSorted (hp_ports hs))) <$> host_ports aggs.

(** *** The end of a window *)

Definition staleCutoff (now : time) : time := now + wrap64 (-10 * o_Window opts).

Definition rotate_agg (now : time) (sustainNeeded dropped : Z) (metrics : gmap hostKey PortEntropy) (s : state) (ka : aggKey * agg) : state :=
  let '(k, a) := ka in
  if a_lastSeenAt a <? staleCutoff now then set_aggs (delete k) s else
  if a_pkts a <=? 0 then s else
  let pm := default zero_PortEntropy (metrics !! (k_dst (a_key a), k_proto (a_key a))) in
  let '(a, ev) := evaluate now sustainNeeded dropped pm a in
  set_aggs (insert k a) (match ev with Some ev => push opts ev s | None => s end).

Definition sustain_needed (dropped : Z) : Z :=
  if 0 <? dropped then Z.max 1 (o_SustainWindows opts - 1) else o_SustainWindows opts.

Definition rotateIfNeeded (now : time) (s : state) : state :=
  if time_sub now (s_windowStart s) <? o_Window opts then s else
  let dropped := wrap64 (s_backpressureDropped s) in
  let s := {| s_buf := s_buf s; s_bufLen := s_bufLen s; s_windowStart := s_windowStart s; s_aggs := s_aggs s;
              s_backpressureSeq := s_backpressureSeq s; s_backpressureDropped := 0 |} in
  let metrics := port_metrics (s_aggs s) in
  let s := fold_left (rotate_agg now (sustain_needed dropped) dropped metrics) (agg_order (s_aggs s)) s in
  {| s_buf := s_buf s; s_bufLen := s_bufLen s; s_windowStart := now; s_aggs := s_aggs s;
     s_backpressureSeq := s_backpressureSeq s; s_backpressureDropped := s_backpressureDropped s |}.

(** ** Steps *)

Inductive input := Packet (now : time) (pkt : packet) | Tick (now : time) | DrainCall.

Definition step (s : state) (i : input) : state :=
  match i with
  | Packet now pkt => onPacket now pkt s
  | Tick now => rotateIfNeeded now s
  | DrainCall => (Drain s).2
  end.
End detector.

(** ** Proofs *)

Section proofs.
Context (Log Log2 : float64 → float64) (number : float64 → string).
Context (str_order : gmap string Z → list (string * Z)) (int_order : gmap Z Z → list (Z * Z)).
Context (port_order agg_order : gmap aggKey agg → list (aggKey * agg)).
Context (Hstr : ∀ m, str_order m ≡ₚ map_to_list m) (Hagg : ∀ m, agg_order m ≡ₚ map_to_list m).
Context (c : config).

Let opts := c_opts c.
#[local] Abbreviation evaluate' := (evaluate Log Log2 number c).
#[local] Abbreviation rotate_agg' := (rotate_agg Log Log2 number c).
#[local] Abbreviation step' := (step Log Log2 number str_order int_order port_order agg_order c).

(** *** A rotation, key by key *)

(** What becomes of a counter when its window ends, and its alert. *)
Definition after_window (now : time) (needed dropped : Z) (metrics : gmap hostKey PortEntropy) (a : agg) : option agg :=
  if a_lastSeenAt a <? staleCutoff c now then None else
  if a_pkts a <=? 0 then Some a else
  Some (evaluate' now needed dropped (default zero_PortEntropy (metrics !! (k_dst (a_key a), k_proto (a_key a)))) a).1.
Definition window_alert (now : time) (needed dropped : Z) (metrics : gmap hostKey PortEntropy) (a : agg) : option NetEvent :=
  if (a_lastSeenAt a <? staleCutoff c now) || (a_pkts a <=? 0) then None else
  (evaluate' now needed dropped (default zero_PortEntropy (metrics !! (k_dst (a_key a), k_proto (a_key a)))) a).2.

Lemma push_aggs ev s : s_aggs (push opts ev s) = s_aggs s.
Proof. unfold push. by case_match. Qed.

Lemma rotate_agg_aggs now needed dropped metrics s k a :
  s_aggs s !! k = Some a →
  s_aggs (rotate_agg' now needed dropped metrics s (k, a)) =
  match after_window now needed dropped metrics a with Some a' => <[k := a']> (s_aggs s) | None => delete k (s_aggs s) end.
Proof.
  intros Hk. unfold rotate_agg, after_window. destruct (a_lastSeenAt a <? _); [done|].
  destruct (a_pkts a <=? 0); [by rewrite insert_id|].
  destruct (evaluate' _ _ _ _ a) as [a' ev]. cbn. destruct ev; [|done]. by rewrite push_aggs.
Qed.

Lemma rotate_fold now needed dropped metrics (l : list (aggKey * agg)) s :
  NoDup l.*1 → (∀ k a, (k, a) ∈ l → s_aggs s !! k = Some a) →
  let s' := fold_left (rotate_agg' now needed dropped metrics) l s in
  ∀ k, s_aggs s' !! k = if decide (k ∈ l.*1) then s_aggs s !! k ≫= after_window now needed dropped metrics else s_aggs s !! k.
Proof.
  revert s. induction l as [|[k0 a0] l IH]; intros s Hnd Hl s' k; [done|].
  inversion_clear Hnd as [|? ? Hk0 Hnd']. unfold s'. cbn [fold_left].
  assert (Ha0 : s_aggs s !! k0 = Some a0) by (apply Hl; by left).
  pose proof (rotate_agg_aggs now needed dropped metrics s k0 a0 Ha0) as Hstep.
  set (s1 := rotate_agg' now needed dropped metrics s (k0, a0)) in *.
  assert (Hother : ∀ k', k' ≠ k0 → s_aggs s1 !! k' = s_aggs s !! k').
  { intros k' Hne. rewrite Hstep. case_match; [by rewrite lookup_insert_ne|by rewrite lookup_delete_ne]. }
  rewrite (IH s1 Hnd').
  2: { intros k' a' Hin. rewrite Hother; [apply Hl; by right|]. intros ->. apply Hk0, list_elem_of_fmap. by exists (k0, a'). }
  cbn [fmap list_fmap fst]. destruct (decide (k = k0)) as [->|Hne].
  - rewrite decide_False by done. rewrite decide_True by left. rewrite Ha0, Hstep. cbn.
    destruct (after_window _ _ _ _ a0); [apply lookup_insert_eq|apply lookup_delete_eq].
  - rewrite (Hother k Hne). destruct (decide (k ∈ l.*1)).
    + rewrite decide_True by (by right). done.
    + rewrite decide_False; [done|]. intros [->|?]%elem_of_cons; done.
Qed.

(** The parameters of the rotation at [now] in state [s]. *)
Definition dropped_of (s : state) : Z := wrap64 (s_backpressureDropped s).
Definition metrics_of (s : state) : gmap hostKey PortEntropy := port_metrics Log2 int_order port_order c (s_aggs s).
Definition due (now : time) (s : state) : bool := negb (time_sub now (s_windowStart s) <? o_Window opts).
Definition window_end (now : time) (s : state) (a : agg) : option agg :=
  after_window now (sustain_needed c (dropped_of s)) (dropped_of s) (metrics_of s) a.
Definition alert_at (now : time) (s : state) (a : agg) : option NetEvent :=
  window_alert now (sustain_needed c (dropped_of s)) (dropped_of s) (metrics_of s) a.

Lemma agg_order_keys m : NoDup (agg_order m).*1 ∧ (∀ k a, (k, a) ∈ agg_order m ↔ m !! k = Some a) ∧ (∀ k, k ∈ (agg_order m).*1 ↔ is_Some (m !! k)).
Proof using Hagg.
  assert (Hin : ∀ k a, (k, a) ∈ agg_order m ↔ m !! k = Some a) by (intros k a; rewrite (Hagg m); apply elem_of_map_to_list).
  split_and!; [|done|].
  - rewrite (Hagg m). apply NoDup_fst_map_to_list.
  - intros k. rewrite list_elem_of_fmap. split.
    + intros ([k' a] & -> & Hka). apply Hin in Hka. by exists a.
    + intros [a Ha]. exists (k, a). split; [done|]. by apply Hin.
Qed.

Lemma rotate_lookup now s k :
  s_aggs (step' s (Tick now)) !! k = if due now s then s_aggs s !! k ≫= window_end now s else s_aggs s !! k.
Proof using Hagg.
  cbn. unfold rotateIfNeeded, due. fold opts. destruct (time_sub now (s_windowStart s) <? o_Window opts); [done|]. cbn.
  set (s0 := {| s_buf := s_buf s |}). destruct (agg_order_keys (s_aggs s)) as (Hnd & Hin & Hkey).
  assert (Hl : ∀ k a, (k, a) ∈ agg_order (s_aggs s) → s_aggs s0 !! k = Some a) by (intros ?? H; by apply Hin in H).
  pose proof (rotate_fold now (sustain_needed c (dropped_of s)) (dropped_of s) (metrics_of s) (agg_order (s_aggs s)) s0 Hnd Hl k) as H.
  etransitivity; [exact H|]. destruct (decide _) as [Hk|Hk]; [done|].
  rewrite Hkey in Hk. change (s_aggs s0) with (s_aggs s). destruct (s_aggs s !! k); [exfalso; by apply Hk|done].
Qed.

(** *** Alerts *)

(** The buffer takes the alerts of a rotation in order while it has room. *)
Lemma push_buf ev s : s_buf (push opts ev s) = s_buf s ++ (if o_MaxBatchSize opts <=? Z.of_nat (length (s_buf s)) then [] else [ev]).
Proof. unfold push. case_match; cbn; [by rewrite app_nil_r|done]. Qed.

(** What a step reports: the keys it counts a packet for, those it alerts for and
    those it forgets. *)
Definition seen_by (s : state) (i : input) : list aggKey :=
  match i with
  | Packet now pkt =>
    let '(weight, _) := sampleWeight opts s in
    if weight <=? 0 then [] else match counted c weight pkt with Some (k, _, _) => [k] | None => [] end
  | _ => []
  end.
Definition alerts_by (s : state) (i : input) : list aggKey :=
  match i with
  | Tick now => if due now s then omap (λ ka, match alert_at now s ka.2 with Some _ => Some ka.1 | None => None end) (agg_order (s_aggs s)) else []
  | _ => []
  end.
Definition forgot_by (s : state) (i : input) : list aggKey :=
  match i with
  | Tick now => if due now s then omap (λ ka, match window_end now s ka.2 with Some _ => None | None => Some ka.1 end) (agg_order (s_aggs s)) else []
  | _ => []
  end.
Definition time_of (t : time) (i : input) : time := match i with Packet now _ | Tick now => now | DrainCall => t end.

Record trace := { tr_state : state; tr_now : time; tr_seen : list (time * aggKey); tr_alerts : list (time * aggKey); tr_forgot : list (time * aggKey) }.

Definition observe (tr : trace) (i : input) : trace :=
  let now := time_of (tr_now tr) i in
  let s := tr_state tr in
  {| tr_state := step' s i; tr_now := now; tr_seen := map (pair now) (seen_by s i) ++ tr_seen tr;
     tr_alerts := map (pair now) (alerts_by s i) ++ tr_alerts tr; tr_forgot := map (pair now) (forgot_by s i) ++ tr_forgot tr |}.

Definition traced (s0 : state) (start : time) (ins : list input) : trace :=
  fold_left observe ins {| tr_state := s0; tr_now := start; tr_seen := []; tr_alerts := []; tr_forgot := [] |}.

Fixpoint clock (t : time) (ins : list input) : Prop :=
  match ins with [] => True | i :: ins => t <= time_of t i ∧ clock (time_of t i) ins end.

Lemma elem_of_alerts now s k : k ∈ alerts_by s (Tick now) ↔ due now s = true ∧ ∃ a, s_aggs s !! k = Some a ∧ is_Some (alert_at now s a).
Proof using Hagg.
  cbn. destruct (due now s); [|split; [by intros ?%elem_of_nil|by intros []]].
  rewrite list_elem_of_omap. destruct (agg_order_keys (s_aggs s)) as (_ & Hin & _). split.
  - intros ([k' a] & Hka & H). cbn in H. apply Hin in Hka. destruct (alert_at now s a) eqn:E; [|done]. injection H as <-.
    split; [done|]. exists a. rewrite E. split; [done|by eexists].
  - intros (_ & a & Hk & [ev Hev]). exists (k, a). split; [by apply Hin|]. cbn. by rewrite Hev.
Qed.

Lemma elem_of_forgot now s k : k ∈ forgot_by s (Tick now) ↔ due now s = true ∧ ∃ a, s_aggs s !! k = Some a ∧ window_end now s a = None.
Proof using Hagg.
  cbn. destruct (due now s); [|split; [by intros ?%elem_of_nil|by intros []]].
  rewrite list_elem_of_omap. destruct (agg_order_keys (s_aggs s)) as (_ & Hin & _). split.
  - intros ([k' a] & Hka & H). cbn in H. apply Hin in Hka. destruct (window_end now s a) eqn:E; [done|]. injection H as <-.
    split; [done|]. by exists a.
  - intros (_ & a & Hk & Hev). exists (k, a). split; [by apply Hin|]. cbn. by rewrite Hev.
Qed.

(** The effect of a window on what is remembered of alerts. *)
Lemma evaluate_memory now needed dropped pm a :
  let '(a', ev) := evaluate' now needed dropped pm a in
  a_key a' = a_key a ∧ a_lastSeenAt a' = a_lastSeenAt a ∧
  (is_Some ev → a_lastAlertAt a' = now ∧ (a_lastAlertAt a = 0 ∨ o_Cooldown opts <= time_sub now (a_lastAlertAt a))) ∧
  (ev = None → a_lastAlertAt a' = a_lastAlertAt a).
Proof.
  unfold evaluate. destruct (classifyVector _ _ _ _ _ _) as [vector amp]. fold opts.
  match goal with |- context [if ?b then (restart _ now, _) else _] => destruct b eqn:Hb end; cbn.
  - split_and!; [done|done| |done]. intros _. split; [done|].
    apply andb_true_iff in Hb as [_ Hb]. apply negb_true_iff, andb_false_iff in Hb as [Hb|Hb]; zbool; cbn in Hb.
    + left. unfold is_zero_time in Hb. by zbool.
    + right. zbool. cbn in Hb. done.
  - split_and!; [done|done|by intros [? ?]|done].
Qed.

Lemma window_end_memory now s a a' :
  window_end now s a = Some a' →
  staleCutoff c now <= a_lastSeenAt a ∧ a_key a' = a_key a ∧ a_lastSeenAt a' = a_lastSeenAt a ∧
  a_lastAlertAt a' = match alert_at now s a with Some _ => now | None => a_lastAlertAt a end ∧
  (is_Some (alert_at now s a) → a_lastAlertAt a = 0 ∨ o_Cooldown opts <= time_sub now (a_lastAlertAt a)).
Proof.
  unfold window_end, after_window, alert_at, window_alert. destruct (a_lastSeenAt a <? staleCutoff c now) eqn:Hst; [done|]. zbool.
  destruct (a_pkts a <=? 0) eqn:Hp; cbn [orb].
  - intros [= <-]. split_and!; try done; by intros [? ?].
  - intros [= <-]. match goal with |- context [evaluate' ?n ?x ?d ?pm a] => pose proof (evaluate_memory n x d pm a) as H; destruct (evaluate' n x d pm a) as [a1 ev] end.
    destruct H as (H1 & H2 & H3 & H4). cbn. split_and!; try done.
    + destruct ev; [by apply H3|by apply H4].
    + intros Hev. by apply H3.
Qed.

Lemma sampleWeight_aggs s w s' : sampleWeight opts s = (w, s') → s_aggs s' = s_aggs s.
Proof. unfold sampleWeight. intros H. repeat case_match; simplify_eq/=; done. Qed.

Lemma getAgg_memory aggs k now :
  a_lastSeenAt (getAgg opts aggs k now) = now ∧
  a_lastAlertAt (getAgg opts aggs k now) = from_option a_lastAlertAt 0 (aggs !! k).
Proof. unfold getAgg. by destruct (aggs !! k). Qed.

(** What the counters remember of the past. *)
Record remembers (tr : trace) : Prop := {
  rm_seen : ∀ t k, (t, k) ∈ tr_seen tr → t <= tr_now tr ∧
    ((∃ a, s_aggs (tr_state tr) !! k = Some a ∧ t <= a_lastSeenAt a) ∨ (∃ t', (t', k) ∈ tr_forgot tr ∧ t < t' - 10 * o_Window opts));
  rm_alert : ∀ t k, (t, k) ∈ tr_alerts tr → 0 < t <= tr_now tr ∧
    ((∃ a, s_aggs (tr_state tr) !! k = Some a ∧ a_lastAlertAt a ≠ 0 ∧ t <= a_lastAlertAt a) ∨ (∃ t', (t', k) ∈ tr_forgot tr ∧ t <= t'));
  rm_forgot : ∀ t k, (t, k) ∈ tr_forgot tr → t <= tr_now tr;
  rm_silent : ∀ t t' k, (t', k) ∈ tr_forgot tr → (t, k) ∈ tr_seen tr → t < t' - 10 * o_Window opts ∨ t' <= t;
  rm_past : ∀ k a, s_aggs (tr_state tr) !! k = Some a → a_lastAlertAt a <= tr_now tr;
}.

Lemma sat_cooldown now t : t <= now → o_Cooldown opts <= max_int64 → o_Cooldown opts <= time_sub now t → o_Cooldown opts <= now - t.
Proof. unfold time_sub, sat64, max_int64, min_int64. lia. Qed.

Lemma cutoff_window now : 0 < o_Window opts < 2 ^ 59 → staleCutoff c now = now - 10 * o_Window opts.
Proof. intros H. unfold staleCutoff, wrap64. fold opts. rewrite Z.mod_small; lia. Qed.

Lemma window_end_None now s a : 0 < o_Window opts < 2 ^ 59 → window_end now s a = None → a_lastSeenAt a < now - 10 * o_Window opts.
Proof.
  intros Hw. unfold window_end, after_window. rewrite (cutoff_window now Hw). destruct (a_lastSeenAt a <? _) eqn:E; zbool; [done|].
  destruct (a_pkts a <=? 0); done.
Qed.

(** What remains of a counter that is remembered, through one rotation. *)
Lemma kept_or_forgot now s k a : due now s = true → s_aggs s !! k = Some a → 0 < o_Window opts < 2 ^ 59 →
  (∃ a', s_aggs (step' s (Tick now)) !! k = Some a' ∧ window_end now s a = Some a') ∨
  (k ∈ forgot_by s (Tick now) ∧ a_lastSeenAt a < now - 10 * o_Window opts).
Proof using Hagg.
  intros Hdue Hk Hw. pose proof (rotate_lookup now s k) as Hl. rewrite Hdue, Hk in Hl. cbn -[step] in Hl.
  destruct (window_end now s a) as [a'|] eqn:E; [left; by exists a'|]. right. split; [|by eapply window_end_None].
  apply elem_of_forgot. split; [done|]. by exists a.
Qed.


(** A packet step counts for no key or for one. *)
Lemma packet_step s now pkt :
  let s' := step' s (Packet now pkt) in
  (seen_by s (Packet now pkt) = [] ∧ s_aggs s' = s_aggs s) ∨
  ∃ k a, seen_by s (Packet now pkt) = [k] ∧ s_aggs s' = <[k := a]> (s_aggs s) ∧
         a_lastSeenAt a = now ∧ a_lastAlertAt a = from_option a_lastAlertAt 0 (s_aggs s !! k).
Proof.
  cbn [step]. unfold onPacket, seen_by. fold opts. destruct (sampleWeight opts s) as [w s1] eqn:Hs.
  apply sampleWeight_aggs in Hs. destruct (w <=? 0); [by left|].
  destruct (counted c w pkt) as [[[k srcS] t]|]; [right|by left].
  destruct (getAgg_memory (s_aggs s) k now) as [Hg1 Hg2].
  exists k, (count str_order (getAgg opts (s_aggs s) k now) w (captured_length pkt) srcS t).
  unfold set_aggs. cbn [s_aggs]. rewrite Hs. done.
Qed.

Ltac observed := constructor; unfold observe; cbn [tr_state tr_now tr_seen tr_alerts tr_forgot alerts_by forgot_by seen_by time_of].

(** A step that counts no packet, ends no window and leaves the counters alone. *)
Lemma observe_idle tr i :
  tr_now tr <= time_of (tr_now tr) i → s_aggs (step' (tr_state tr) i) = s_aggs (tr_state tr) →
  seen_by (tr_state tr) i = [] → alerts_by (tr_state tr) i = [] → forgot_by (tr_state tr) i = [] →
  remembers tr → remembers (observe tr i).
Proof.
  intros Hclock Hs H1 H2 H3 [Hseen Halert Hforgot Hsilent Hpast]. constructor; unfold observe; cbn [tr_state tr_now tr_seen tr_alerts tr_forgot];
    rewrite ?Hs, ?H1, ?H2, ?H3; cbn [map app].
  - intros t k Hin. destruct (Hseen t k Hin) as [? ?]. split; [lia|done].
  - intros t k Hin. destruct (Halert t k Hin) as [? ?]. split; [lia|done].
  - intros t k Hin. specialize (Hforgot t k Hin). lia.
  - done.
  - intros k a Hk. specialize (Hpast k a Hk). lia.
Qed.

Lemma observe_packet tr now pkt : 0 < tr_now tr → tr_now tr <= now → remembers tr → remembers (observe tr (Packet now pkt)).
Proof.
  intros Hpos Hclock Hrm. destruct (packet_step (tr_state tr) now pkt) as [[H1 H2]|(k & a1 & Hsb & Hstep & Hl1 & Hl2)]; [by apply observe_idle|].
  destruct Hrm as [Hseen Halert Hforgot Hsilent Hpast].
  constructor; unfold observe; cbn [tr_state tr_now tr_seen tr_alerts tr_forgot alerts_by forgot_by time_of]; rewrite ?Hstep, ?Hsb; cbn [map app].
  - intros t' k' [[= -> ->]|Hin]%elem_of_cons.
    { split; [lia|]. left. exists a1. split; [apply lookup_insert_eq|lia]. }
    destruct (Hseen t' k' Hin) as [Hle [(a & Ha & Hs')|Hf]]; (split; [lia|]); [left|by right].
    destruct (decide (k' = k)) as [->|Hne]; [exists a1; split; [apply lookup_insert_eq|lia]|exists a; by rewrite lookup_insert_ne].
  - intros t' k' Hin. destruct (Halert t' k' Hin) as [Hle [(a & Ha & Hz & Hs')|Hf]]; (split; [lia|]); [left|by right].
    destruct (decide (k' = k)) as [->|Hne]; [|exists a; by rewrite lookup_insert_ne].
    exists a1. split; [apply lookup_insert_eq|]. by rewrite Hl2, Ha.
  - intros t k' Hin. specialize (Hforgot t k' Hin). lia.
  - intros t t' k' Hf [[= -> ->]|Hin]%elem_of_cons; [|by apply Hsilent with k']. right. specialize (Hforgot _ _ Hf). lia.
  - intros k' a [[<- <-]|[Hne Hk']]%lookup_insert_Some; [|specialize (Hpast k' a Hk'); lia].
    rewrite Hl2. destruct (s_aggs (tr_state tr) !! k) as [a|] eqn:Ha; cbn; [specialize (Hpast k a Ha); lia|lia].
Qed.

Lemma elem_of_now {A} (now : time) (l : list A) (rest : list (time * A)) t x :
  (t, x) ∈ map (pair now) l ++ rest ↔ (t = now ∧ x ∈ l) ∨ (t, x) ∈ rest.
Proof.
  rewrite elem_of_app, list_elem_of_fmap. split; (intros [H|H]; [left|by right]).
  - destruct H as (y & [= -> ->] & Hy). done.
  - destruct H as [-> Hx]. by exists x.
Qed.

Lemma observe_tick tr now :
  0 < o_Window opts < 2 ^ 59 → 0 < tr_now tr → tr_now tr <= now → remembers tr → remembers (observe tr (Tick now)).
Proof using Hagg.
  intros Hw Hpos Hclock Hrm. destruct (due now (tr_state tr)) eqn:Hdue.
  2: { apply observe_idle; cbn [time_of seen_by alerts_by forgot_by]; rewrite ?Hdue; try done.
       apply map_eq. intros k. by rewrite rotate_lookup, Hdue. }
  destruct Hrm as [Hseen Halert Hforgot Hsilent Hpast].
  pose proof (λ k a Ha, kept_or_forgot now (tr_state tr) k a Hdue Ha Hw) as Hkeep.
  constructor; unfold observe; cbn [tr_state tr_now tr_seen tr_alerts tr_forgot seen_by time_of map app]; try setoid_rewrite elem_of_now.
  - intros t k Hin. destruct (Hseen t k Hin) as [Hle [(a & Ha & Hs)|(t' & Hf & Hs)]]; (split; [lia|]); [|right; exists t'; auto].
    destruct (Hkeep k a Ha) as [(a' & Ha' & Hend)|[Hf Hs']].
    + left. exists a'. split; [done|]. apply window_end_memory in Hend as (_ & _ & -> & _). done.
    + right. exists now. split; [auto|lia].
  - intros t k [[-> (_ & a & Ha & Hal)%elem_of_alerts]|Hin].
    + split; [lia|]. left. destruct (Hkeep k a Ha) as [(a' & Ha' & Hend)|[Hf Hs']].
      * exists a'. split; [done|]. apply window_end_memory in Hend as (_ & _ & _ & -> & _). destruct Hal as [ev ->]. lia.
      * exfalso. unfold alert_at, window_alert in Hal. rewrite (cutoff_window now Hw), (proj2 (Z.ltb_lt _ _) Hs') in Hal. by destruct Hal.
    + destruct (Halert t k Hin) as [Hle [(a & Ha & Hz & Hs)|(t' & Hf & Hs)]]; (split; [lia|]); [|right; exists t'; auto].
      destruct (Hkeep k a Ha) as [(a' & Ha' & Hend)|[Hf Hs']].
      * left. exists a'. split; [done|]. apply window_end_memory in Hend as (_ & _ & _ & -> & _). case_match; [lia|done].
      * right. exists now. split; [auto|lia].
  - intros t k [[-> _]|Hin]; [lia|]. specialize (Hforgot t k Hin). lia.
  - intros t t' k [[-> (_ & a & Ha & Hend)%elem_of_forgot]|Hf] Hin; [|by apply Hsilent with k]. left.
    apply window_end_None in Hend; [|done]. destruct (Hseen t k Hin) as [_ [(a' & Ha' & Hs)|(t' & Hf & Hs)]]; [simplify_eq; lia|].
    specialize (Hforgot _ _ Hf). lia.
  - intros k a Hk. rewrite rotate_lookup, Hdue in Hk. destruct (s_aggs (tr_state tr) !! k) as [a0|] eqn:Ha0; [|done]. cbn in Hk.
    apply window_end_memory in Hk as (_ & _ & _ & -> & _). specialize (Hpast k a0 Ha0). case_match; lia.
Qed.

Lemma traced_remembers s0 start ins :
  0 < o_Window opts < 2 ^ 59 → 0 < start → s_aggs s0 = ∅ → clock start ins →
  let tr := traced s0 start ins in remembers tr ∧ start <= tr_now tr.
Proof using Hagg.
  intros Hw Hpos H0 Hclock. cbn zeta.
  assert (Hgen : ∀ tr, remembers tr → start <= tr_now tr → clock (tr_now tr) ins →
    remembers (fold_left observe ins tr) ∧ start <= tr_now (fold_left observe ins tr)).
  { clear Hclock. induction ins as [|i ins IH]; intros tr Hrm Hle Hc; [done|]. cbn. destruct Hc as [Hi Hc].
    apply IH; [|unfold observe; cbn; lia|done].
    destruct i as [now pkt|now|]; [apply observe_packet|apply observe_tick|apply observe_idle]; cbn in Hi |- *; try lia; try done.
    unfold Drain. by case_match. }
  apply Hgen; [|cbn; lia|done]. constructor; cbn; rewrite ?H0; try (intros ? ? ?%elem_of_nil; done); try (intros ? ? ? ?%elem_of_nil; done); done.
Qed.

Lemma clock_last ins now tr : clock (tr_now tr) (ins ++ [Tick now]) → clock (tr_now tr) ins ∧ tr_now (fold_left observe ins tr) <= now.
Proof.
  revert tr. induction ins as [|i ins IH]; intros tr; cbn; [lia|]. intros [Hi Hc].
  destruct (IH (observe tr i) Hc) as [H1 H2]. done.
Qed.

(** *** The counters *)

Lemma hex_group_nonempty g rest : is_empty (hex_group g +:+ rest) = false.
Proof. unfold hex_group. by destruct (4096 <=? g), (256 <=? g), (16 <=? g). Qed.

Lemma join_groups_nonempty fuel gs zs ze : is_empty (join_groups (S fuel) gs zs ze 0) = false.
Proof.
  cbn [join_groups]. change (8 <=? 0)%nat with false. change (0 <? 0)%nat with false. cbn iota.
  destruct (0 =? zs)%nat; cbn iota beta; [by destruct (8 <=? ze)%nat|]. change (8 <=? 0)%nat with false. cbn iota.
  apply hex_group_nonempty.
Qed.

Lemma IPString_nonempty a : is_empty (IPString a) = false.
Proof.
  destruct a as [a|]; [|done]. unfold IPString, IP_String. destruct (ip_bits a =? 32).
  - unfold dotted. by destruct (Itoa (octet (ip_val a) 3)).
  - unfold colons. destruct (longest_run (groups (ip_val a))) as [zs ze]. apply join_groups_nonempty.
Qed.

(** The counts of a key fit together: by protocol, a part never above the whole, and
    the heaviest sources accounting for every packet. *)
Record agg_wf (k : aggKey) (a : agg) : Prop := {
  wf_key : a_key a = k;
  wf_pkts : a_pkts a = a_tcpPkts a + a_udpPkts a + a_icmpPkts a;
  wf_tcp : 0 <= a_tcpSynPkts a <= a_tcpPkts a ∧ 0 <= a_tcpPayloadPkts a <= a_tcpPkts a;
  wf_l7 : 0 <= a_httpReqPkts a <= a_tcpPayloadPkts a ∧ 0 <= a_tlsHelloPkts a <= a_tcpPayloadPkts a;
  wf_http : isHTTPPort (k_dport k) = false → a_httpReqPkts a = 0;
  wf_tls : isTLSPort (k_dport k) = false → a_tlsHelloPkts a = 0;
  wf_udp : 0 <= a_udpAmpPkts a <= a_udpPkts a;
  wf_icmp : 0 <= a_icmpPkts a;
  wf_top : 0 < tk_k (a_topSrc a) ∧ ∃ adds f, Forall (λ x, 0 < x.2) adds ∧ counts (a_topSrc a) adds f ∧ total_weight adds = a_pkts a;
}.

Lemma ports_disjoint port : isHTTPPort port = true → isTLSPort port = true → False.
Proof.
  unfold isHTTPPort, isTLSPort, mem. cbn. rewrite !orb_true_iff, !Z.eqb_eq. intros H1 H2.
  repeat match goal with H : _ ∨ _ |- _ => destruct H as [H|H] end; try done; lia.
Qed.

Lemma wf_requests k a : agg_wf k a → a_httpReqPkts a + a_tlsHelloPkts a <= a_tcpPayloadPkts a.
Proof.
  intros [_ _ _ [Hh Ht] Hh0 Ht0 _ _ _]. destruct (isHTTPPort (k_dport k)) eqn:E1; [|specialize (Hh0 eq_refl); lia].
  destruct (isTLSPort (k_dport k)) eqn:E2; [|specialize (Ht0 eq_refl); lia]. by destruct (ports_disjoint _ E1 E2).
Qed.

Lemma classify_tally w dst pkt k t : 0 < w → classify c w dst pkt = Some (k, t) →
  w = t_tcp t + t_udp t + t_icmp t ∧ 0 <= t_tcp t ∧ 0 <= t_syn t <= t_tcp t ∧ 0 <= t_payload t <= t_tcp t ∧
  0 <= t_http t <= t_payload t ∧ 0 <= t_tls t <= t_payload t ∧
  (isHTTPPort (k_dport k) = false → t_http t = 0) ∧ (isTLSPort (k_dport k) = false → t_tls t = 0) ∧
  0 <= t_amp t <= t_udp t ∧ 0 <= t_icmp t.
Proof.
  intros Hw. unfold classify.
  destruct (pk_tcp pkt) as [tcp|]; [|destruct (pk_udp pkt) as [udp|]; [|destruct (pk_icmp4 pkt), (pk_icmp6 pkt)]];
    try (destruct (port_denied c _ _); [done|]); intros [= <- <-];
    cbn [t_tcp t_syn t_payload t_http t_tls t_udp t_amp t_icmp tcp_tally udp_tally icmp_tally].
  - unfold k_dport. cbn [snd]. destruct (tcp_SYN tcp && _), (negb _); cbn [andb]; repeat split; try lia;
      destruct (isHTTPPort (tcp_DstPort tcp)), (isTLSPort (tcp_DstPort tcp)); rewrite ?andb_false_r; cbn [andb]; repeat case_match; try done; try lia.
  - destruct (isAmplificationSrcPort _); split_and!; try done; lia.
  - split_and!; try done; lia.
  - split_and!; try done; lia.
  - split_and!; try done; lia.
Qed.

Lemma getAgg_wf aggs k now : 0 < o_TopSrc opts → (∀ a, aggs !! k = Some a → agg_wf k a) → agg_wf k (getAgg opts aggs k now).
Proof.
  intros Htop Hwf. unfold getAgg. destruct (aggs !! k) as [a|].
  - destruct (Hwf a eq_refl). by constructor.
  - constructor; try done; try (cbn; lia). split; [cbn; case_match; zbool; lia|].
    exists [], 0. split; [constructor|]. split; [apply counts_new|done].
Qed.

Lemma count_wf k a w cap src t dst pkt :
  0 < w → is_empty src = false → classify c w dst pkt = Some (k, t) → agg_wf k a → agg_wf k (count str_order a w cap src t).
Proof using Hstr.
  intros Hw Hsrc Hcl [H1 H2 H3 H4 H5 H6 H7 H8 [H9 (adds & f & Hpos & Hc & Htot)]].
  destruct (classify_tally w dst pkt k t Hw Hcl) as (T1 & T2 & T3 & T4 & T5 & T6 & T7 & T8 & T9 & T10).
  constructor; cbn; try lia; [done|intros Hp; specialize (T7 Hp); specialize (H5 Hp); lia|intros Hp; specialize (T8 Hp); specialize (H6 Hp); lia|].
  unfold TopKStr_Add. rewrite Hsrc. destruct (w <=? 0) eqn:E; zbool; [lia|]. cbn [orb].
  destruct (counts_add str_order Hstr None _ adds f src w Hc H9 Hpos Hw) as (f' & Hc' & _ & Hk & _). rewrite Hk. split; [done|].
  exists (adds ++ [(src, w)]), f'. split; [apply Forall_app; split; [done|]; constructor; [done|constructor]|]. split; [done|].
  unfold total_weight in *. rewrite sumZ_app, Htot. cbn. lia.
Qed.

Lemma evaluate_wf now needed dropped pm k a : agg_wf k a → agg_wf k (evaluate' now needed dropped pm a).1.
Proof.
  intros [H1 _ _ _ _ _ _ _ [H9 _]]. unfold evaluate. destruct (classifyVector _ _ _ _ _ _) as [vector amp].
  case_match; (constructor; cbn; try done; try lia); (split; [done|]); exists [], 0; (split; [constructor|]); (split; [|done]);
    apply counts_reset; cbn; lia.
Qed.

(** What holds of every state a detector reaches. *)
Record state_wf (s : state) : Prop := {
  sw_aggs : ∀ k a, s_aggs s !! k = Some a → agg_wf k a;
  sw_bufLen : s_bufLen s = Z.of_nat (length (s_buf s));
  sw_room : Z.of_nat (length (s_buf s)) <= Z.max 0 (o_MaxBatchSize opts);
}.

Lemma push_wf ev s : state_wf s → state_wf (push opts ev s).
Proof.
  intros [H1 H2 H3]. unfold push. destruct (_ <=? _) eqn:E; zbool; constructor; cbn; try done.
  rewrite length_app. cbn. lia.
Qed.

Lemma set_aggs_wf f s : state_wf s → (∀ k a, f (s_aggs s) !! k = Some a → agg_wf k a) → state_wf (set_aggs f s).
Proof. intros [H1 H2 H3] Hf. by constructor. Qed.

Lemma rotate_agg_wf now needed dropped metrics s k a :
  agg_wf k a → state_wf s → state_wf (rotate_agg' now needed dropped metrics s (k, a)).
Proof.
  intros Ha Hs. unfold rotate_agg. destruct (a_lastSeenAt a <? _).
  { apply set_aggs_wf; [done|]. intros k' a' [_ Hk]%lookup_delete_Some. by apply (sw_aggs _ Hs). }
  destruct (a_pkts a <=? 0); [done|].
  match goal with |- context [evaluate' ?n ?x ?d ?pm a] => pose proof (evaluate_wf n x d pm k a Ha) as Hw; destruct (evaluate' n x d pm a) as [a1 ev] end.
  cbn in Hw. assert (Hs1 : state_wf (match ev with Some ev => push opts ev s | None => s end)) by (destruct ev; [by apply push_wf|done]).
  apply set_aggs_wf; [exact Hs1|]. intros k' a' [[<- <-]|[_ Hk]]%lookup_insert_Some; [done|by apply (sw_aggs _ Hs1)].
Qed.

Lemma step_wf s i : 0 < o_TopSrc opts → state_wf s → state_wf (step' s i).
Proof using Hstr Hagg.
  intros Htop Hs. destruct i as [now pkt|now|]; cbn [step].
  - unfold onPacket. fold opts. destruct (sampleWeight opts s) as [w s1] eqn:Hsw.
    assert (Hs1 : state_wf s1).
    { destruct Hs as [H1 H2 H3]. unfold sampleWeight in Hsw. repeat case_match; simplify_eq/=; by constructor. }
    destruct (w <=? 0) eqn:Hw; zbool; [done|]. destruct (counted c w pkt) as [[[k src] t]|] eqn:Hc; [|done].
    apply set_aggs_wf; [done|]. intros k' a' [[<- <-]|[_ Hk]]%lookup_insert_Some; [|by apply (sw_aggs _ Hs1)].
    unfold counted in Hc. repeat (case_match; try discriminate Hc). simplify_eq. eapply count_wf; [done|apply IPString_nonempty|eassumption|].
    apply getAgg_wf; [done|]. by apply (sw_aggs _ Hs1).
  - unfold rotateIfNeeded. destruct (_ <? _); [done|]. set (s0 := {| s_buf := s_buf s |}).
    change (s_aggs s0) with (s_aggs s). set (l := agg_order (s_aggs s)).
    assert (Hl : Forall (λ ka, agg_wf ka.1 ka.2) l).
    { apply Forall_forall. intros [k a] Hin. destruct (agg_order_keys (s_aggs s)) as (_ & Hmem & _). apply Hmem in Hin. by apply (sw_aggs _ Hs). }
    assert (Hs0 : state_wf s0) by (destruct Hs; by constructor).
    match goal with |- context [fold_left ?f l s0] => assert (Hf : state_wf (fold_left f l s0)) end.
    { generalize (sustain_needed c (wrap64 (s_backpressureDropped s))), (wrap64 (s_backpressureDropped s)).
      clearbody s0. generalize (port_metrics Log2 int_order port_order c (s_aggs s)). intros metrics needed dropped.
      revert s0 Hs0. induction Hl as [|[k a] l Ha _ IH]; intros s0 Hs0; [done|]. cbn [fold_left]. apply IH. by apply rotate_agg_wf. }
    destruct Hf as [F1 F2 F3]. by constructor.
  - unfold Drain. destruct Hs as [H1 H2 H3]. destruct (s_buf s) eqn:E; cbn; constructor; cbn; try done; try lia; rewrite E; cbn in *; done.
Qed.
End proofs.

(** C25: alerts of the flood detector (rotateIfNeeded).  In any run of the detector, whatever the
    map orders, two alerts of one destination, protocol and port are at least
    [Cooldown] apart, unless the counter was forgotten in between; and it is only
    forgotten when its last packet is more than ten windows old. *)
Theorem alerts_spaced Log Log2 number str_order int_order port_order agg_order agentID o nc start c s0 ins now k :
  (∀ m, agg_order m ≡ₚ map_to_list m) →
  NewPcapDDoSCapturer agentID o nc start = Some (c, s0) →
  0 < start → o_Window o < 2 ^ 59 → o_Cooldown o <= max_int64 → clock start (ins ++ [Tick now]) →
  let tr := traced Log Log2 number str_order int_order port_order agg_order c s0 start ins in
  k ∈ alerts_by Log Log2 number int_order port_order agg_order c (tr_state tr) (Tick now) →
  ∀ t, (t, k) ∈ tr_alerts tr →
    o_Cooldown (c_opts c) <= now - t ∨
    ∃ t', (t', k) ∈ tr_forgot tr ∧ t <= t' ∧ ∀ t'', (t'', k) ∈ tr_seen tr → t'' < t' - 10 * o_Window (c_opts c) ∨ t' <= t''.
Proof.
  intros Hagg Hnew Hstart Hwin Hcool Hclock tr Hk t Ht.
  unfold NewPcapDDoSCapturer in Hnew. destruct nc as [nc|]; [|done]. cbn in Hnew. case_match; [done|]. injection Hnew as <- <-.
  set (c := {| c_agentID := agentID |}) in *. set (s0 := {| s_buf := [] |}) in *.
  assert (Hw : 0 < o_Window (c_opts c) < 2 ^ 59) by (cbn; unfold pos_or, second; case_match; zbool; lia).
  assert (Hc : o_Cooldown (c_opts c) <= max_int64) by (cbn; unfold pos_or, second, max_int64 in *; case_match; zbool; lia).
  destruct (clock_last Log Log2 number str_order int_order port_order agg_order c ins now
    {| tr_state := s0; tr_now := start; tr_seen := []; tr_alerts := []; tr_forgot := [] |} Hclock) as [Hcl Hnow].
  change (tr_now tr <= now) in Hnow.
  destruct (traced_remembers Log Log2 number str_order int_order port_order agg_order Hagg c s0 start ins Hw Hstart eq_refl Hcl) as [Hrm Hst].
  fold tr in Hrm, Hst. destruct Hrm as [Hseen Halert Hforgot Hsilent Hpast].
  destruct (Halert t k Ht) as [Hle [(a & Ha & Hz & Hs)|(t' & Hf & Hs)]].
  2: { right. exists t'. split; [done|]. split; [done|]. intros t'' Hin. by apply (Hsilent t'' t' k). }
  left. apply elem_of_alerts in Hk as (Hdue & a' & Ha' & Hal); [|done]. assert (a' = a) as -> by congruence.
  destruct (kept_or_forgot Log Log2 number str_order int_order port_order agg_order Hagg c now (tr_state tr) k a Hdue Ha Hw) as [(a1 & _ & Hend)|[_ Hold]].
  - apply window_end_memory in Hend as (_ & _ & _ & _ & Hmem). destruct (Hmem Hal) as [?|Hcd]; [done|].
    pose proof (sat_cooldown c now (a_lastAlertAt a) ltac:(specialize (Hpast k a Ha); lia) Hc Hcd). lia.
  - exfalso. unfold alert_at, window_alert in Hal. rewrite (cutoff_window c now Hw), (proj2 (Z.ltb_lt _ _) Hold) in Hal. by destruct Hal.
Qed.

(** A detector of one-second windows that alerts at the first window of one packet. *)
Definition quick_options : PcapDDoSOptions :=
  {| o_Interface := ""; o_SnapLen := 0; o_Promisc := false; o_ReadTimeout := 0; o_Window := second; o_EvalEvery := second; o_Cooldown := 2 * second;
     o_SustainWindows := 1; o_BaselineWarmupWindows := 0; o_BaselineAlpha := f0; o_BaselineFactor := f0; o_MinPPS := of_int 1; o_MinBPS := f0;
     o_MinPackets := 0; o_MinRequests := 0; o_MinConfidence := 1; o_MinSynRatio := f0; o_DDoSMinSrcIPs := 0; o_DDoSMinSrcEntropyNorm := f0;
     o_EnableL7 := true; o_MinHTTPRPS := f0; o_MinTLSHSRPS := f0; o_MinL7Ratio := f0; o_EnableEntropy := true; o_MinSrcEntropyNorm := f0;
     o_MinPortEntropyNorm := f0; o_PortEntropyTopN := 0; o_CardinalityMode := "map"; o_HLLPrecision := 0; o_BloomBits := 0; o_MaxUniqueSrc := 0;
     o_TopSrc := 0; o_MaxBatchSize := 0; o_BackpressureHighWatermark := 0; o_BackpressureSampleEvery := 0; o_DropLikelyOutbound := false;
     o_EphemeralPortMin := 0; o_SkipLoopback := true; o_SkipLinkLocal := true; o_DenyCIDRs := []; o_DenyDstPorts := ∅; o_DenySrcPorts := ∅ |}.
Definition udp_packet : packet :=
  {| pk_ts := 0; pk_capture := Some 60; pk_len := 60; pk_ip4 := Some (Some (IP 32 (10 * 2 ^ 24 + 9)), Some (IP 32 (192 * 2 ^ 24 + 168 * 2 ^ 16 + 5)));
     pk_ip6 := None; pk_arp := None; pk_tcp := None; pk_udp := Some {| udp_SrcPort := 53; udp_DstPort := 7000; udp_Payload := [] |};
     pk_icmp4 := None; pk_icmp6 := None |}.

Definition quick_config : config := {| c_agentID := "agent"; c_opts := applyDDoSDefaults quick_options; c_netCtx := example_context |}.
Definition quick_start : state :=
  {| s_buf := []; s_bufLen := 0; s_windowStart := 100 * second; s_aggs := ∅; s_backpressureSeq := 0; s_backpressureDropped := 0 |}.
Definition quick_inputs : list input :=
  [Packet (100 * second) udp_packet; Tick (101 * second); Packet (102 * second) udp_packet; Tick (102 * second); Packet (103 * second) udp_packet].
Definition quick_trace : trace :=
  traced id id (λ _, "") map_to_list map_to_list map_to_list map_to_list quick_config quick_start (100 * second) quick_inputs.
Definition quick_key : aggKey := ("192.168.0.5", "udp", 7000).

Lemma alerts_spaced_witness :
  tr_alerts quick_trace = [(101 * second, quick_key)] ∧ tr_forgot quick_trace = [] ∧ 2 * second <= 103 * second - 101 * second.
Proof.
  assert (Ha : tr_alerts quick_trace = [(101 * second, quick_key)]) by (vm_compute; reflexivity).
  assert (Hf : tr_forgot quick_trace = []) by (vm_compute; reflexivity).
  split; [exact Ha|]. split; [exact Hf|].
  destruct (alerts_spaced id id (λ _, "") map_to_list map_to_list map_to_list map_to_list "agent" quick_options (Some example_context)
    (100 * second) quick_config quick_start quick_inputs (103 * second) quick_key) with (t := 101 * second) as [H|(t' & Hin & _)].
  - intros m. reflexivity.
  - vm_compute. reflexivity.
  - vm_compute. reflexivity.
  - vm_compute. reflexivity.
  - vm_compute. discriminate.
  - cbn. repeat split; vm_compute; discriminate.
  - fold quick_trace. assert (alerts_by id id (λ _, "") map_to_list map_to_list map_to_list quick_config (tr_state quick_trace) (Tick (103 * second)) = [quick_key]) as ->
      by (vm_compute; reflexivity). left.
  - fold quick_trace. rewrite Ha. left.
  - exact H.
  - fold quick_trace in Hin. rewrite Hf in Hin. by apply elem_of_nil in Hin.
Defined.

(** The flood detector's counters (onPacket, rotateIfNeeded).  In every state a detector reaches,
    the packets of a counter are those of its protocols, SYNs and payloads are
    among the TCP packets, HTTP requests and TLS hellos together among the
    payloads, amplified packets among the UDP ones; its heaviest sources account
    for every packet, so the entropy of the sources has no rest; and the length
    read without the lock is that of the buffer, at most [MaxBatchSize]. *)
Theorem counters_consistent Log Log2 number str_order int_order port_order agg_order agentID o nc start c s0 ins :
  (∀ m, str_order m ≡ₚ map_to_list m) → (∀ m, agg_order m ≡ₚ map_to_list m) →
  NewPcapDDoSCapturer agentID o nc start = Some (c, s0) →
  let s := fold_left (step Log Log2 number str_order int_order port_order agg_order c) ins s0 in
  (∀ k a, s_aggs s !! k = Some a →
     a_key a = k ∧ a_pkts a = a_tcpPkts a + a_udpPkts a + a_icmpPkts a ∧
     0 <= a_tcpSynPkts a <= a_tcpPkts a ∧ 0 <= a_httpReqPkts a + a_tlsHelloPkts a <= a_tcpPayloadPkts a ∧
     a_tcpPayloadPkts a <= a_tcpPkts a ∧ 0 <= a_udpAmpPkts a <= a_udpPkts a ∧
     with_other (a_pkts a) (map snd (TopKStr_ItemsSorted (a_topSrc a))) = map snd (TopKStr_ItemsSorted (a_topSrc a))) ∧
  s_bufLen s = Z.of_nat (length (s_buf s)) ∧ Z.of_nat (length (s_buf s)) <= o_MaxBatchSize (c_opts c).
Proof.
  intros Hstr Hagg Hnew s. unfold NewPcapDDoSCapturer in Hnew. destruct nc as [nc|]; [|done]. cbn in Hnew. case_match; [done|].
  injection Hnew as <- <-. set (c := {| c_agentID := agentID |}) in *.
  assert (Htop : 0 < o_TopSrc (c_opts c)) by (cbn; unfold pos_or; case_match; zbool; lia).
  assert (Hbatch : 0 < o_MaxBatchSize (c_opts c)) by (cbn; unfold pos_or; case_match; zbool; lia).
  assert (Hwf : state_wf c s).
  { unfold s. clear s. match goal with |- context [fold_left _ ins ?s] => assert (H0 : state_wf c s) by (constructor; cbn; [done|done|lia]); revert H0; generalize s end.
    induction ins as [|i ins IH]; intros s1 H1; [done|]. cbn [fold_left]. apply IH. by apply step_wf. }
  destruct Hwf as [H1 H2 H3]. split; [|split; [done|lia]]. intros k a Ha.
  pose proof (H1 k a Ha) as Hw. pose proof (wf_requests k a Hw). destruct Hw as [W1 W2 [W3 W3'] [W4 W4'] _ _ W7 W8 [_ (adds & f & _ & Hc & Htot)]].
  split_and!; try done; try lia. rewrite <- Htot. by apply (with_other_counts _ adds f).
Qed.

Lemma counters_consistent_witness :
  let s := fold_left (step id id (λ _, "") map_to_list map_to_list map_to_list map_to_list quick_config) [Packet (100 * second) udp_packet] quick_start in
  a_pkts <$> (s_aggs s !! quick_key) = Some 1 ∧ s_bufLen s = Z.of_nat (length (s_buf s)).
Proof.
  split; [vm_compute; reflexivity|].
  apply (counters_consistent id id (λ _, "") map_to_list map_to_list map_to_list map_to_list "agent" quick_options (Some example_context)
    (100 * second) quick_config quick_start [Packet (100 * second) udp_packet]); [intros m; reflexivity|intros m; reflexivity|vm_compute; reflexivity].
Defined.

(** *** Sampling under backpressure *)

(** [n] calls of [sampleWeight]: the sum of the weights, and the state. *)
Fixpoint sample (opts : PcapDDoSOptions) (n : nat) (s : state) : Z * state :=
  match n with
  | O => (0, s)
  | S n => let '(w, s) := sampleWeight opts s in let '(ws, s) := sample opts n s in (w + ws, s)
  end.

Lemma multiples_step every n : 1 < every → 0 <= n →
  (n + 1) / every = n / every + (if (n + 1) mod every =? 0 then 1 else 0).
Proof.
  intros He Hn. pose proof (Z.div_mod n every ltac:(lia)) as H1. pose proof (Z.mod_pos_bound n every ltac:(lia)) as H2.
  destruct (decide (n mod every = every - 1)) as [Heq|Hne].
  - assert ((n + 1) mod every = 0) as -> by (symmetry; apply (Z.mod_unique _ _ (n / every + 1)); nia). cbn.
    symmetry. apply (Z.div_unique _ _ _ 0); nia.
  - assert ((n + 1) mod every = n mod every + 1) as -> by (symmetry; apply (Z.mod_unique _ _ (n / every)); nia).
    destruct (n mod every + 1 =? 0) eqn:E; zbool; [lia|]. rewrite Z.add_0_r. symmetry. apply (Z.div_unique _ _ _ (n mod every + 1)); nia.
Qed.

(** Sampling of the flood detector under backpressure (sampleWeight).  While the buffer
    is at its high watermark, the weights of [n] packets add up to [n] up to one
    sampling period: to the period times the multiples of it that the sequence
    number passed.  Every packet not processed is counted as dropped. *)
Theorem sampling_compensates opts n s :
  0 < o_BackpressureHighWatermark opts <= s_bufLen s → 1 < o_BackpressureSampleEvery opts →
  0 <= s_backpressureSeq s → s_backpressureSeq s + Z.of_nat n < 2 ^ 64 →
  0 <= s_backpressureDropped s → s_backpressureDropped s + Z.of_nat n < 2 ^ 64 →
  let every := o_BackpressureSampleEvery opts in
  let seq := s_backpressureSeq s in
  let processed := (seq + Z.of_nat n) / every - seq / every in
  let '(weights, s') := sample opts n s in
  weights = every * processed ∧ Z.of_nat n - every < weights < Z.of_nat n + every ∧
  s_backpressureDropped s' = s_backpressureDropped s + (Z.of_nat n - processed) ∧
  s_buf s' = s_buf s ∧ s_aggs s' = s_aggs s.
Proof.
  intros Hw He Hs1 Hs2 Hd1 Hd2 every seq processed. fold every in He.
  assert (Hmain : let '(weights, s') := sample opts n s in
    weights = every * processed ∧ s_backpressureDropped s' = s_backpressureDropped s + (Z.of_nat n - processed) ∧
    s_buf s' = s_buf s ∧ s_aggs s' = s_aggs s).
  2: { destruct (sample opts n s) as [weights s']. destruct Hmain as (H1 & H2 & H3 & H4). split_and!; try done.
       all: rewrite H1; unfold processed.
       all: pose proof (Z.div_mod (seq + Z.of_nat n) every ltac:(lia)); pose proof (Z.mod_pos_bound (seq + Z.of_nat n) every ltac:(lia)).
       all: pose proof (Z.div_mod seq every ltac:(lia)); pose proof (Z.mod_pos_bound seq every ltac:(lia)); nia. }
  subst processed seq. revert s Hw Hs1 Hs2 Hd1 Hd2. induction n as [|n IH]; intros s Hw Hs1 Hs2 Hd1 Hd2.
  { cbn. rewrite Z.add_0_r. split_and!; try done; lia. }
  cbn [sample]. unfold sampleWeight. destruct (_ <=? 0) eqn:E1; zbool; [lia|]. destruct (s_bufLen s <? _) eqn:E2; zbool; [lia|].
  fold every. destruct (every <=? 1) eqn:E3; zbool; [lia|]. cbn [orb].
  assert (Hu : u64 (s_backpressureSeq s + 1) = s_backpressureSeq s + 1) by (unfold u64; rewrite Z.mod_small; lia). rewrite Hu.
  pose proof (multiples_step every (s_backpressureSeq s) He Hs1) as Hstep.
  replace (s_backpressureSeq s + Z.of_nat (S n)) with (s_backpressureSeq s + 1 + Z.of_nat n) by lia.
  destruct ((s_backpressureSeq s + 1) mod every =? 0) eqn:E4; cbv zeta.
  - match goal with |- context [sample opts n ?s1] => specialize (IH s1); set (s' := s1) in * end.
    destruct (sample opts n s') as [ws s'']. cbn in IH. destruct IH as (H1 & H2 & H3 & H4); [lia|lia|lia|lia|lia|]. split_and!; try done; nia.
  - match goal with |- context [sample opts n ?s1] => specialize (IH s1); set (s' := s1) in * end.
    assert (Hu' : u64 (s_backpressureDropped s + 1) = s_backpressureDropped s + 1) by (unfold u64; rewrite Z.mod_small; lia).
    destruct (sample opts n s') as [ws s'']. cbn in IH. rewrite Hu' in IH.
    destruct IH as (H1 & H2 & H3 & H4); [lia|lia|lia|lia|lia|]. split_and!; try done; nia.
Qed.

Lemma sampling_compensates_witness :
  let s := {| s_buf := replicate 160 (probe 0); s_bufLen := 160; s_windowStart := 0; s_aggs := ∅; s_backpressureSeq := 5; s_backpressureDropped := 2 |} in
  let '(weights, s') := sample (c_opts quick_config) 9 s in weights = 8 ∧ s_backpressureDropped s' = 9.
Proof.
  pose proof (sampling_compensates (c_opts quick_config) 9
    {| s_buf := replicate 160 (probe 0); s_bufLen := 160; s_windowStart := 0; s_aggs := ∅; s_backpressureSeq := 5; s_backpressureDropped := 2 |}) as H.
  cbn zeta in H |- *. destruct (sample _ 9 _) as [weights s'].
  destruct H as (H1 & _ & H2 & _ & _); [vm_compute; split; [reflexivity|discriminate]|vm_compute; reflexivity|vm_compute; discriminate|vm_compute; reflexivity|vm_compute; discriminate|vm_compute; reflexivity|].
  rewrite H1, H2. vm_compute. split; reflexivity.
Defined.
