(* ===== verification/L7.v ===== *)
(** * L7: application protocols in sampled payloads (internal/collectors/l7/pcap_l7.go)

    The classification of a payload as DNS, HTTP, DTLS, QUIC or TLS and the
    extraction of names from it.  The payload comes from the network, so every
    index and slice expression of the parsers is an access that may fail: [None] is
    the run-time panic of Go, or a loop that has used up its fuel. *)

From S2P Require Import Prelude GoStr GoText GoJson Net GoIP Event Netctx Pcapx.
From Stdlib Require Import Ascii NArith.

Local Open Scope Z_scope.
Local Open Scope go_scope.

(** ** Bytes *)

Abbreviation bytes := (list Z).
Definition len (p : bytes) : Z := Z.of_nat (length p).

(** [p[i]] and [p[i:j]]. *)
Definition at_ (p : bytes) (i : Z) : option Z := if i <? 0 then None else p !! Z.to_nat i.
Definition sub (p : bytes) (i j : Z) : option bytes :=
  if (0 <=? i) && (i <=? j) && (j <=? len p) then Some (slice p (Z.to_nat i) (Z.to_nat j)) else None.
(** [int(p[i])<<8 | int(p[i+1])] *)
Definition be16 (p : bytes) (i : Z) : option Z := h ← at_ p i; l ← at_ p (i + 1); Some (Z.lor (Z.shiftl h 8) l).

Definition of_bytes (p : bytes) : string := of_chars (map (λ b, ascii_of_N (Z.to_N b)) p).

(** [strings.Trim(s, ".")] *)
Fixpoint drop_dots (l : list ascii) : list ascii :=
  match l with a :: l' => if Ascii.eqb a "." then drop_dots l' else l | [] => [] end.
Definition trim_dots (s : string) : string := of_chars (reverse (drop_dots (reverse (drop_dots (to_chars s))))).

(** [strings.Split(s, sep)] for a separator of more than one byte: [skip] bytes of a
    separator are left. *)
Fixpoint split_sep (sep : list ascii) (skip : nat) (cur : list ascii) (l : list ascii) : list (list ascii) :=
  match l with
  | [] => [reverse cur]
  | a :: l' =>
    match skip with
    | S k => split_sep sep k cur l'
    | O => if bool_decide (take (length sep) l = sep) then reverse cur :: split_sep sep (length sep - 1) [] l'
           else split_sep sep O (a :: cur) l'
    end
  end.
Definition crlf : list ascii := [carriage_return; newline].

(** ** Options *)

Record PcapL7Options := {
  o_Interface : string; o_SnapLen : Z; o_Promisc : bool; o_ReadTimeout : duration; o_DedupTTL : duration; o_MaxBatchSize : Z;
  o_MaxPayloadBytes : Z; o_IncludePayload : bool; o_SkipLoopback : bool; o_SkipLinkLocal : bool }.

Definition positive_or (n d : Z) : Z := if n <=? 0 then d else n.

Definition applyDefaults (o : PcapL7Options) : PcapL7Options :=
  {| o_Interface := if is_empty (TrimSpace (o_Interface o)) then "any" else o_Interface o;
     o_SnapLen := positive_or (o_SnapLen o) 768; o_Promisc := o_Promisc o; o_ReadTimeout := positive_or (o_ReadTimeout o) (500 * millisecond);
     o_DedupTTL := positive_or (o_DedupTTL o) (20 * second); o_MaxBatchSize := positive_or (o_MaxBatchSize o) 400;
     o_MaxPayloadBytes := positive_or (o_MaxPayloadBytes o) 768; o_IncludePayload := o_IncludePayload o;
     o_SkipLoopback := o_SkipLoopback o; o_SkipLinkLocal := o_SkipLinkLocal o |}.

(** ** DNS *)

Definition finish_name (labels : list string) (i : Z) : option (string * Z) := Some (trim_dots (Join labels "."), i).

Section name_loop.
Context (decode : Z → option (string * Z)) (payload : bytes).

Fixpoint name_loop (fuel : nat) (labels : list string) (i : Z) : option (string * Z) :=
  match fuel with
  | O => None
  | S fuel =>
    if len payload <=? i then finish_name labels i else
    l ← at_ payload i;
    if l =? 0 then finish_name labels (i + 1) else
    if Z.land l 192 =? 192 then
      if len payload <=? i + 1 then Some (Join labels ".", i + 1) else
      b ← at_ payload (i + 1);
      '(ref, _) ← decode (Z.lor (Z.shiftl (Z.land l 63) 8) b);
      finish_name (if is_empty ref then labels else labels ++ [ref])%list (i + 2)
    else
      let i := i + 1 in
      if len payload <? i + l then finish_name labels i else
      label ← sub payload i (i + l);
      name_loop fuel (labels ++ [ToLower (of_bytes label)])%list (i + l)
  end.
End name_loop.

(** [levels] is [9 - depth]: at depth 9 nothing is decoded. *)
Fixpoint decodeDNSName (levels : nat) (payload : bytes) (off : Z) : option (string * Z) :=
  match levels with
  | O => Some (EmptyString, off)
  | S levels =>
    if (off <? 0) || (len payload <=? off) then Some (EmptyString, off) else
    name_loop (decodeDNSName levels payload) payload (S (length payload)) [] off
  end.
Definition max_levels : nat := 9.

Definition dns_answer (payload : bytes) (offset rtype : Z) (rdata : bytes) : option (list string) :=
  if rtype =? 1 then Some (if len rdata =? 4 then [dotted (bytes_value rdata)] else []) else
  if rtype =? 28 then Some (if len rdata =? 16 then [IP_String (norm_v6 (bytes_value rdata))] else []) else
  if (rtype =? 5) || (rtype =? 2) then
    '(nm, _) ← decodeDNSName max_levels payload offset; Some (if is_empty nm then [] else [nm])
  else Some [].

Fixpoint dns_answers (n : nat) (payload : bytes) (offset : Z) (answers : list string) : option (list string) :=
  match n with
  | O => Some answers
  | S n =>
    '(_, offset) ← decodeDNSName max_levels payload offset;
    if len payload <? offset + 10 then Some answers else
    rtype ← be16 payload offset;
    rdlen ← be16 payload (offset + 8);
    let offset := offset + 10 in
    if (rdlen <=? 0) || (len payload <? offset + rdlen) then Some answers else
    rdata ← sub payload offset (offset + rdlen);
    new ← dns_answer payload offset rtype rdata;
    dns_answers n payload (offset + rdlen) (answers ++ new)%list
  end.

Definition parseDNSMetadata (payload : bytes) : option (option (gmap string json)) :=
  if len payload <? 12 then Some None else
  id ← be16 payload 0; flags ← be16 payload 2; qd ← be16 payload 4; an ← be16 payload 6;
  let rcode := Z.land flags 15 in
  let qr := Z.land (Z.shiftr flags 15) 1 in
  let out : gmap string json := list_to_map [("id", JInt id); ("is_response", JBool (qr =? 1)); ("rcode", JInt rcode); ("qdcount", JInt qd); ("ancount", JInt an)] in
  if qd <=? 0 then Some (Some out) else
  '(name, offset) ← decodeDNSName max_levels payload 12;
  let out := if is_empty name then out else <["qname" := JStr name]> out in
  '(out, offset) ← (if offset + 4 <=? len payload
    then qtype ← be16 payload offset; Some (<["qtype" := JInt qtype]> out, offset + 4) else Some (out, offset));
  if (an <=? 0) || (offset <=? 0) || (len payload <=? offset) then Some (Some out) else
  answers ← dns_answers (Z.to_nat (Z.min an 6)) payload offset [];
  Some (Some (if (length answers =? 0)%nat then out else <["answers" := JArr (map JStr answers)]> out)).

(** ** HTTP *)

Definition trimString (s : string) (max : Z) : string :=
  let s := TrimSpace s in
  if (max <=? 0) || (strlen s <=? max) then s else str_take (Z.to_nat max) s.

Definition isHTTPMethod (method : string) : bool := str_in method ["GET"; "POST"; "PUT"; "DELETE"; "PATCH"; "HEAD"; "OPTIONS"].

(** The header lines: [host] and [user-agent]. *)
Definition http_header (out : gmap string json) (ln : string) : gmap string json :=
  match before_byte ln ":"%char with
  | None | Some EmptyString => out
  | Some name =>
    let k := ToLower (TrimSpace name) in
    let v := trimString (TrimSpace (str_drop (String.length name + 1) ln)) 1024 in
    if str_eqb k "host" then <["host" := JStr (ToLower v)]> out else
    if str_eqb k "user-agent" then <["user_agent" := JStr v]> out else out
  end.

(** The text before an empty line that is not at the start. *)
Definition http_head (text : string) : string :=
  match split_sep (crlf ++ crlf) 0 [] (to_chars text) with
  | first :: _ :: _ => if (length first =? 0)%nat then text else of_chars first
  | _ => text
  end.

Definition http_first (first : string) : option (gmap string json) :=
  if HasPrefix first "HTTP/" then
    match Fields first with
    | version :: status :: _ => Some (list_to_map [("direction", JStr "response"); ("status", JStr status); ("version", JStr version)])
    | _ => None
    end
  else
    match Fields first with
    | method :: path :: more =>
      let method := ToUpper method in
      if negb (isHTTPMethod method) then None else
      let out : gmap string json := list_to_map [("direction", JStr "request"); ("method", JStr method); ("path", JStr (trimString path 1024))] in
      Some (match more with version :: _ => <["version" := JStr version]> out | [] => out end)
    | _ => None
    end.

Definition parseHTTPMetadata (payload : bytes) : option (gmap string json) :=
  if len payload <? 8 then None else
  let text := of_bytes payload in
  let text := if 4096 <? strlen text then str_take 4096 text else text in
  match map of_chars (split_sep crlf 0 [] (to_chars (http_head text))) with
  | [] => None
  | line :: lines =>
    let first := TrimSpace line in
    if is_empty first then None else
    out ← http_first first; Some (fold_left http_header lines out)
  end.

(** ** TLS *)

Definition hex4 (v : Z) : string := of_chars (map (λ i, hex_char (Z.land (Z.shiftr v (4 * i)) 15)) [3; 2; 1; 0]).
Definition tlsVersionHint (v : Z) : string :=
  if v =? 769 then "10" else if v =? 770 then "11" else if v =? 771 then "12" else if v =? 772 then "13" else "0x" +:+ hex4 v.

Fixpoint sni_loop (fuel : nat) (ext : bytes) (i last : Z) : option string :=
  match fuel with
  | O => None
  | S fuel =>
    if negb (i + 3 <=? last) then Some EmptyString else
    nameType ← at_ ext i;
    nameLen ← be16 ext (i + 1);
    let i := i + 3 in
    if (nameLen <=? 0) || (last <? i + nameLen) then Some EmptyString else
    if nameType =? 0 then
      name ← sub ext i (i + nameLen); Some (ToLower (trim_dots (TrimSpace (of_bytes name))))
    else sni_loop fuel ext (i + nameLen) last
  end.

Definition parseTLSSNI (ext : bytes) : option string :=
  if len ext <? 5 then Some EmptyString else
  listLen ← be16 ext 0;
  let last := Z.min (2 + listLen) (len ext) in
  sni_loop (S (length ext)) ext 2 last.

Definition parseTLSALPN (ext : bytes) : option string :=
  if len ext <? 3 then Some EmptyString else
  listLen ← be16 ext 0;
  let last := Z.min (2 + listLen) (len ext) in
  if last <=? 2 then Some EmptyString else
  firstLen ← at_ ext 2;
  let i := 3 in
  if (firstLen <=? 0) || (last <? i + firstLen) then Some EmptyString else
  name ← sub ext i (i + firstLen); Some (ToLower (TrimSpace (of_bytes name))).

Fixpoint ext_loop (fuel : nat) (body : bytes) (i extEnd : Z) (out : gmap string json) : option (gmap string json) :=
  match fuel with
  | O => None
  | S fuel =>
    if negb (i + 4 <=? extEnd) then Some out else
    etype ← be16 body i;
    elen ← be16 body (i + 2);
    let i := i + 4 in
    if (elen <=? 0) || (extEnd <? i + elen) then Some out else
    ext ← sub body i (i + elen);
    out ← (if etype =? 0 then sni ← parseTLSSNI ext; Some (if is_empty sni then out else <["sni" := JStr sni]> out)
           else if etype =? 16 then alpn ← parseTLSALPN ext; Some (if is_empty alpn then out else <["alpn" := JStr alpn]> out)
           else Some out);
    ext_loop fuel body (i + elen) extEnd out
  end.

(** The body of a ClientHello, from its version on. *)
Definition parse_hello (body : bytes) (out : gmap string json) : option (gmap string json) :=
  chVer ← be16 body 0;
  let out := <["version" := JStr (tlsVersionHint chVer)]> out in
  let i := 34 in
  if len body <=? i then Some out else
  sidLen ← at_ body i;
  let i := i + 1 in
  if len body <? i + sidLen then Some out else
  let i := i + sidLen in
  if len body <? i + 2 then Some out else
  csLen ← be16 body i;
  let i := i + 2 in
  if len body <? i + csLen then Some out else
  let i := i + csLen in
  if len body <=? i then Some out else
  compLen ← at_ body i;
  let i := i + 1 in
  if len body <? i + compLen then Some out else
  let i := i + compLen in
  if len body <? i + 2 then Some out else
  extLen ← be16 body i;
  let i := i + 2 in
  let extEnd := Z.min (i + extLen) (len body) in
  ext_loop (S (length body)) body i extEnd out.

Definition parseTLSMetadata (payload : bytes) : option (gmap string json) :=
  out ← (if 3 <=? len payload then ver ← be16 payload 1; Some {["record_version"%string := JStr (tlsVersionHint ver)]} else Some ∅);
  if len payload <? 9 then Some out else
  b0 ← at_ payload 0;
  if negb (b0 =? 22) then Some out else
  recLen ← be16 payload 3;
  if recLen <=? 0 then Some out else
  rec ← sub payload 5 (Z.min (5 + recLen) (len payload));
  if len rec <? 4 then Some out else
  r0 ← at_ rec 0;
  if negb (r0 =? 1) then Some out else
  h ← at_ rec 1; l ← be16 rec 2;
  let hsLen := Z.lor (Z.shiftl h 16) l in
  if hsLen <=? 0 then Some out else
  body ← sub rec 4 (Z.min (4 + hsLen) (len rec));
  if len body <? 42 then Some out else parse_hello body out.

(** ** Classification *)

Definition isHTTPPort (srcPort dstPort : Z) : bool := existsb (λ p, existsb (Z.eqb p) [80; 8000; 8080; 8888]) [srcPort; dstPort].

Definition isTLSClientHello (payload : bytes) : option bool :=
  if len payload <? 6 then Some false else
  b0 ← at_ payload 0; b1 ← at_ payload 1; b5 ← at_ payload 5; Some ((b0 =? 22) && (b1 =? 3) && (b5 =? 1)).

Definition isDTLS (payload : bytes) : option bool :=
  if len payload <? 13 then Some false else
  b0 ← at_ payload 0;
  if negb (b0 =? 22) then Some false else
  ver ← be16 payload 1; Some ((ver =? 65279) || (ver =? 65277) || (ver =? 65276)).

Definition looksLikeQUICInitial (payload : bytes) : option bool :=
  if len payload <? 6 then Some false else
  first ← at_ payload 0; Some ((Z.land first 128 =? 128) && (Z.land first 64 =? 64)).

Definition obj (m : gmap string json) : json := JObj (map_to_list m).

(** The payload of a DNS message over TCP follows its length. *)
Definition dns_payload (proto : string) (sport dport : Z) (payload : bytes) : option bytes :=
  if str_eqb proto "tcp" && ((sport =? 53) || (dport =? 53)) && (2 <? len payload) then
    declared ← be16 payload 0;
    if (0 <? declared) && (declared <=? len payload - 2) then sub payload 2 (2 + declared) else Some payload
  else Some payload.

(** The kind and what is known of it; the empty kind is an unknown payload. *)
Definition classifyPayload (proto : string) (sport dport : Z) (payload : bytes) : option (string * gmap string json) :=
  let l7 kind more : gmap string json := {["l7"%string := JObj (("protocol"%string, JStr kind) :: more)]} in
  dnsPayload ← dns_payload proto sport dport payload;
  dns ← (if (sport =? 53) || (dport =? 53) || (sport =? 5353) || (dport =? 5353) then parseDNSMetadata dnsPayload else Some None);
  match dns with
  | Some dns => Some ("dns"%string, <["dns_evidence"%string := obj dns]> (l7 "dns"%string [("dns"%string, obj dns)]))
  | None =>
    match (if str_eqb proto "tcp" && isHTTPPort sport dport then parseHTTPMetadata payload else None) with
    | Some h => Some ("http"%string, <["http_evidence"%string := obj h]> (l7 "http"%string [("http"%string, obj h)]))
    | None =>
      dtls ← isDTLS payload;
      if dtls : bool then Some ("dtls"%string, <["is_dtls"%string := JBool true]> (<["ja4_ptype"%string := JStr "d"]> (l7 "dtls"%string []))) else
      quic ← looksLikeQUICInitial payload;
      if quic && str_eqb proto "udp" && ((sport =? 443) || (dport =? 443))
      then Some ("quic"%string, <["is_quic"%string := JBool true]> (<["ja4_ptype"%string := JStr "q"]> (l7 "quic"%string []))) else
      hello ← isTLSClientHello payload;
      if hello : bool then tls ← parseTLSMetadata payload; Some ("tls"%string, l7 "tls"%string [("tls"%string, obj tls)]) else
      Some (EmptyString, ∅)
    end
  end.

(** ** The capturer *)

(** [base64.StdEncoding.EncodeToString] *)
Definition b64_char (v : Z) : ascii :=
  ascii_of_N (Z.to_N (if v <? 26 then 65 + v else if v <? 52 then 71 + v else if v <? 62 then v - 4 else if v =? 62 then 43 else 47)).
Fixpoint base64 (p : bytes) : list ascii :=
  match p with
  | [] => []
  | [a] => [b64_char (Z.shiftr a 2); b64_char (Z.land (Z.shiftl a 4) 63); "="; "="]%char
  | [a; b] => [b64_char (Z.shiftr a 2); b64_char (Z.land (Z.lor (Z.shiftl a 4) (Z.shiftr b 4)) 63); b64_char (Z.land (Z.shiftl b 2) 63); "="]%char
  | a :: b :: c :: p =>
    b64_char (Z.shiftr a 2) :: b64_char (Z.land (Z.lor (Z.shiftl a 4) (Z.shiftr b 4)) 63) ::
    b64_char (Z.land (Z.lor (Z.shiftl b 2) (Z.shiftr c 6)) 63) :: b64_char (Z.land c 63) :: base64 p
  end.

Record PcapL7Capturer := { c_agentID : string; c_opts : PcapL7Options; c_netCtx : NetworkContext; c_buffer : Buffer }.

Definition NewPcapL7Capturer (agentID : string) (opts : PcapL7Options) (collected : option NetworkContext) (now : time) : option PcapL7Capturer :=
  let opts := applyDefaults opts in
  nc ← collected;
  if (size (nc_LocalIPs nc) =? 0)%nat then None else
  Some {| c_agentID := TrimSpace agentID; c_opts := opts; c_netCtx := nc; c_buffer := NewBuffer (o_DedupTTL opts) (o_MaxBatchSize opts) now |}.

Definition asMap (v : option json) : list (string * json) := match v with Some (JObj kvs) => kvs | _ => [] end.
Definition toString (v : option json) : string := match v with Some (JStr s) => s | _ => "<nil>" end.

(** Source and destination port, protocol and payload of the transport layer. *)
Definition transport (pkt : packet) : option (Z * Z * string * bytes) :=
  match pk_tcp pkt with
  | Some t => Some (tcp_SrcPort t, tcp_DstPort t, "tcp"%string, tcp_Payload t)
  | None => match pk_udp pkt with
    | Some u => Some (udp_SrcPort u, udp_DstPort u, "udp"%string, udp_Payload u)
    | None => None end
  end.
Definition network (pkt : packet) : option (option ip * option ip * Z) :=
  match pk_ip4 pkt with
  | Some (s, d) => Some (s, d, 4)
  | None => match pk_ip6 pkt with Some (s, d) => Some (s, d, 6) | None => None end
  end.

Definition attach_payload (opts : PcapL7Options) (payload : bytes) (evidence : gmap string json) : gmap string json :=
  let trimmed := if o_MaxPayloadBytes opts <? len payload then take (Z.to_nat (o_MaxPayloadBytes opts)) payload else payload in
  if o_IncludePayload opts && (0 <? len trimmed)
  then <["l7"%string := JObj (asMap (evidence !! "l7"%string) ++
          [("payload_b64"%string, JStr (of_chars (base64 trimmed))); ("payload_size"%string, JInt (len trimmed))])]> evidence
  else evidence.

(** The event of a packet: [Some None] when there is none. *)
Definition packetToEvent (c : PcapL7Capturer) (now : time) (pkt : packet) : option (option NetEvent) :=
  let opts := c_opts c in
  let ts := if is_zero_time (pk_ts pkt) then now else pk_ts pkt in
  match network pkt with
  | Some (Some srcIP, Some dstIP, ipVersion) =>
    if o_SkipLoopback opts && (IsLoopback srcIP || IsLoopback dstIP) then Some None else
    if o_SkipLinkLocal opts && (IsLinkLocalUnicast srcIP || IsLinkLocalUnicast dstIP) then Some None else
    let srcS := IP_String srcIP in
    let dstS := IP_String dstIP in
    let srcLocal := is_local (c_netCtx c) srcS in
    let dstLocal := is_local (c_netCtx c) dstS in
    if Bool.eqb srcLocal dstLocal then Some None else
    match transport pkt with
    | None => Some None
    | Some (sport, dport, proto, payload) =>
      if (sport <=? 0) || (dport <=? 0) then Some None else
      if len payload =? 0 then Some None else
      '(kind, evidence) ← classifyPayload proto sport dport payload;
      if is_empty kind then Some None else
      let evidence := attach_payload opts payload evidence in
      let evidence :=
        <["app_proto"%string := JStr kind]> (<["l7_protocol"%string := JStr kind]> (<["ip_version"%string := JInt ipVersion]>
        (<["flow_direction"%string := JStr (if srcLocal then "outbound_from_local" else "inbound_to_local")]>
        (<["signal_family"%string := JStr "protocol_intel"]> (<["collection_method"%string := JStr "pcap_sample"]>
        (<["collector"%string := JStr "pcap_l7"]> evidence)))))) in
      Some (Some {| ne_EventID := ""; ne_AgentID := c_agentID c; ne_EventType := "l7_flow"; ne_SchemaVersion := 0; ne_Timestamp := ts;
                    ne_SrcIP := srcS; ne_DstIP := dstS; ne_SrcPort := sport; ne_DstPort := dport; ne_Proto := proto; ne_Bytes := len payload;
                    ne_Extra := Some (EnrichEndpoints (c_netCtx c) evidence srcS dstS) |})
    end
  | _ => Some None
  end.

Definition dedupKey (ev : NetEvent) : string :=
  let extra := default ∅ (ne_Extra ev) in
  let kind := norm (toString (extra !! "l7_protocol"%string)) in
  Join [ne_Proto ev; ne_SrcIP ev; Itoa (ne_SrcPort ev); ne_DstIP ev; Itoa (ne_DstPort ev); kind;
        TrimSpace (toString (extra !! "flow_direction"%string))] "|".

Definition push (c : PcapL7Capturer) (now : time) (ev : NetEvent) : PcapL7Capturer :=
  {| c_agentID := c_agentID c; c_opts := c_opts c; c_netCtx := c_netCtx c; c_buffer := (Push (c_buffer c) now (dedupKey ev) ev).2 |}.
Definition drain (c : PcapL7Capturer) : list NetEvent * PcapL7Capturer :=
  let '(out, b) := Drain (c_buffer c) in
  (out, {| c_agentID := c_agentID c; c_opts := c_opts c; c_netCtx := c_netCtx c; c_buffer := b |}).

(** One round of [Start]'s loop. *)
Definition on_packet (c : PcapL7Capturer) (now : time) (pkt : packet) : option PcapL7Capturer :=
  ev ← packetToEvent c now pkt;
  Some (match ev with Some ev => push c now ev | None => c end).

(** ** Proofs *)

Definition byte_ok (b : Z) : Prop := 0 <= b < 256.
#[export] Instance byte_ok_dec b : Decision (byte_ok b).
Proof. unfold byte_ok. apply _. Defined.

Lemma at_ok p i : 0 <= i < len p → ∃ b, at_ p i = Some b ∧ b ∈ p.
Proof.
  unfold at_, len. intros Hi. destruct (i <? 0) eqn:E; zbool; [lia|].
  destruct (lookup_lt_is_Some_2 p (Z.to_nat i)) as [b Hb]; [lia|]. exists b. split; [done|]. by eapply list_elem_of_lookup_2.
Qed.

Lemma len_nonneg p : 0 <= len p. Proof. unfold len. lia. Qed.

Lemma sub_ok p i j : 0 <= i <= j → j <= len p → ∃ q, sub p i j = Some q ∧ len q = j - i ∧ q ⊆ p.
Proof.
  intros Hi Hj. unfold sub, len in *. assert ((0 <=? i) && (i <=? j) && (j <=? Z.of_nat (length p)) = true) as ->.
  { rewrite !andb_true_iff, !Z.leb_le. lia. }
  eexists. split; [done|]. split; [rewrite length_slice by lia; lia|].
  intros x Hx. unfold slice in Hx. apply elem_of_take in Hx as (k & Hk & _). rewrite lookup_drop in Hk. by eapply list_elem_of_lookup_2.
Qed.

Section safety.
Context (payload : bytes) (Hbytes : Forall byte_ok payload).

Lemma at_byte p i : Forall byte_ok p → 0 <= i < len p → ∃ b, at_ p i = Some b ∧ 0 <= b < 256.
Proof. intros Hp Hi. destruct (at_ok p i Hi) as (b & -> & Hin). exists b. split; [done|]. rewrite Forall_forall in Hp. by apply Hp. Qed.

Lemma lor_shift a b k : 0 <= a → 0 <= b → 0 <= Z.lor (Z.shiftl a k) b.
Proof. intros Ha Hb. apply Z.lor_nonneg. split; [|done]. by apply Z.shiftl_nonneg. Qed.

Lemma be16_ok p i : Forall byte_ok p → 0 <= i → i + 1 < len p → ∃ v, be16 p i = Some v ∧ 0 <= v.
Proof.
  intros Hp Hi Hl. unfold be16. destruct (at_byte p i Hp) as (h & -> & Hh); [lia|]. destruct (at_byte p (i + 1) Hp) as (l & -> & Hb); [lia|].
  cbn. eexists. split; [done|]. apply lor_shift; lia.
Qed.

Lemma sub_bytes p i j : Forall byte_ok p → 0 <= i <= j → j <= len p → ∃ q, sub p i j = Some q ∧ len q = j - i ∧ Forall byte_ok q.
Proof.
  intros Hp Hi Hj. destruct (sub_ok p i j Hi Hj) as (q & -> & Hl & Hq). exists q. split; [done|]. split; [done|].
  rewrite Forall_forall in Hp |- *. auto.
Qed.
End safety.

(** Steps through an access whose bounds [lia] can check. *)
Ltac access :=
  match goal with
  | |- context [mbind _ (at_ ?p ?i)] =>
    match goal with H : Forall byte_ok p |- _ => destruct (at_byte p i H) as (? & -> & ?); [lia|]; cbn [mbind option_bind] end
  | |- context [mbind _ (be16 ?p ?i)] =>
    match goal with H : Forall byte_ok p |- _ => destruct (be16_ok p i H) as (? & -> & ?); [lia|lia|]; cbn [mbind option_bind] end
  | |- context [mbind _ (sub ?p ?i ?j)] =>
    match goal with H : Forall byte_ok p |- _ => destruct (sub_bytes p i j H) as (? & -> & ? & ?); [lia|lia|]; cbn [mbind option_bind] end
  end.
(** The access the computation starts with. *)
Ltac first_access :=
  match goal with
  | |- ∃ _, mbind _ (at_ ?p ?i) = _ =>
    match goal with H : Forall byte_ok p |- _ => destruct (at_byte p i H) as (? & -> & ?); [lia|]; cbn [mbind option_bind] end
  | |- ∃ _, mbind _ (sub ?p ?i ?j) = _ =>
    match goal with H : Forall byte_ok p |- _ => destruct (sub_bytes p i j H) as (? & -> & ? & ?); [lia|lia|]; cbn [mbind option_bind] end
  | |- ∃ _, mbind _ (be16 ?p ?i) = _ =>
    match goal with H : Forall byte_ok p |- _ => destruct (be16_ok p i H) as (? & -> & ?); [lia|lia|]; cbn [mbind option_bind] end
  end.
Ltac test := match goal with |- context [if ?b then _ else _] => destruct b eqn:?; zbool; [by eauto|] end.

Lemma name_loop_ok decode p fuel labels i :
  Forall byte_ok p → (∀ ptr, 0 <= ptr → ∃ r, decode ptr = Some r) →
  0 <= i <= len p → len p - i < Z.of_nat fuel → ∃ name next, name_loop decode p fuel labels i = Some (name, next) ∧ i <= next <= Z.max i (len p).
Proof.
  intros Hp Hdec. revert labels i. induction fuel as [|fuel IH]; intros labels i Hi Hf; [lia|]. cbn [name_loop].
  destruct (len p <=? i) eqn:E1; zbool; [eexists _, _; split; [done|lia]|]. access.
  destruct (x =? 0) eqn:E2; zbool; [eexists _, _; split; [done|lia]|].
  destruct (Z.land x 192 =? 192) eqn:E3; zbool.
  { destruct (len p <=? i + 1) eqn:E4; zbool; [eexists _, _; split; [done|lia]|]. access.
    destruct (Hdec (Z.lor (Z.shiftl (Z.land x 63) 8) x0)) as ([ref next] & ->).
    { apply lor_shift; [|lia]. apply Z.land_nonneg. lia. }
    cbn. eexists _, _. split; [done|lia]. }
  destruct (len p <? i + 1 + x) eqn:E4; zbool; [eexists _, _; split; [done|lia]|]. access.
  destruct (IH (labels ++ [ToLower (of_bytes x0)])%list (i + 1 + x)) as (name & next & -> & Hn); [lia|lia|]. eexists _, _. split; [done|lia].
Qed.

Lemma decodeDNSName_ok levels p off :
  Forall byte_ok p → 0 <= off → ∃ name next, decodeDNSName levels p off = Some (name, next) ∧ off <= next <= Z.max off (len p).
Proof.
  intros Hp. revert off. induction levels as [|levels IH]; intros off Hoff; cbn [decodeDNSName]; [eexists _, _; split; [done|lia]|].
  destruct ((off <? 0) || (len p <=? off)) eqn:E; [eexists _, _; split; [done|lia]|]. zbool.
  apply name_loop_ok; [done| |lia|unfold len; lia].
  intros ptr Hptr. destruct (IH ptr Hptr) as (name & next & -> & _). by eexists.
Qed.

Lemma dns_answers_ok n p offset answers : Forall byte_ok p → 0 <= offset → ∃ out, dns_answers n p offset answers = Some out.
Proof.
  intros Hp. revert offset answers. induction n as [|n IH]; intros offset answers Ho; cbn [dns_answers]; [by eexists|].
  destruct (decodeDNSName_ok max_levels p offset Hp Ho) as (name & next & -> & Hn). cbn [mbind option_bind]. test. access. access. cbv zeta. test. access.
  assert (∃ new, dns_answer p (next + 10) x x1 = Some new) as [new ->].
  { unfold dns_answer. repeat (test). destruct ((x =? 5) || (x =? 2)); [|by eauto].
    destruct (decodeDNSName_ok max_levels p (next + 10) Hp) as (nm & k & -> & _); [lia|]. cbn. by eauto. }
  cbn [mbind option_bind]. apply IH. lia.
Qed.

Lemma parseDNSMetadata_ok p : Forall byte_ok p → ∃ out, parseDNSMetadata p = Some out.
Proof.
  intros Hp. unfold parseDNSMetadata. test. do 4 access. cbv zeta. test.
  destruct (decodeDNSName_ok max_levels p 12 Hp) as (name & next & -> & Hn); [lia|]. cbn [mbind option_bind].
  match goal with |- context [if next + 4 <=? len p then _ else Some (?o, next)] => set (out := o) end.
  assert (∃ out' offset, (if next + 4 <=? len p then qtype ← be16 p next; Some (<["qtype" := JInt qtype]> out, next + 4) else Some (out, next))
    = Some (out', offset) ∧ 0 <= offset) as (out' & offset & -> & Ho).
  { destruct (next + 4 <=? len p) eqn:E; zbool; [access|]; eexists _, _; (split; [done|lia]). }
  cbn [mbind option_bind]. test.
  match goal with |- context [dns_answers ?n p offset []] => destruct (dns_answers_ok n p offset [] Hp Ho) as [answers ->] end. cbn. by eexists.
Qed.

Lemma sni_loop_ok fuel p i last : Forall byte_ok p → 0 <= i <= last → last <= len p → last - i < Z.of_nat fuel → ∃ s, sni_loop fuel p i last = Some s.
Proof.
  intros Hp. revert i. induction fuel as [|fuel IH]; intros i Hi Hl Hf; cbn [sni_loop].
  { lia. }
  test. access. access. test. destruct (x =? 0); [access; by eauto|]. apply IH; lia.
Qed.

Lemma parseTLSSNI_ok p : Forall byte_ok p → ∃ s, parseTLSSNI p = Some s.
Proof. intros Hp. unfold parseTLSSNI. test. access. apply sni_loop_ok; [done|lia|lia|unfold len; lia]. Qed.

Lemma parseTLSALPN_ok p : Forall byte_ok p → ∃ s, parseTLSALPN p = Some s.
Proof. intros Hp. unfold parseTLSALPN. test. do 2 access. cbv zeta. do 2 test. access. by eauto. Qed.

Lemma ext_loop_ok fuel p i extEnd out :
  Forall byte_ok p → 0 <= i <= extEnd → extEnd <= len p → extEnd - i < Z.of_nat fuel → ∃ out', ext_loop fuel p i extEnd out = Some out'.
Proof.
  intros Hp. revert i out. induction fuel as [|fuel IH]; intros i out Hi Hl Hf; cbn [ext_loop]; [lia|].
  test. access. access. test. access.
  destruct (parseTLSSNI_ok x1) as [sni Hsni]; [done|]. destruct (parseTLSALPN_ok x1) as [alpn Halpn]; [done|]. rewrite Hsni, Halpn. cbn [mbind option_bind].
  destruct (x =? 0); [|destruct (x =? 16)]; cbn [mbind option_bind]; apply IH; lia.
Qed.

Lemma parse_hello_ok p out : Forall byte_ok p → 42 <= len p → ∃ out', parse_hello p out = Some out'.
Proof.
  intros Hp Hl. unfold parse_hello. first_access. cbv zeta. test. access. test. test. access. test. test. access. test. test. access.
  apply ext_loop_ok; [done|lia|lia|unfold len in *; lia].
Qed.

Lemma parseTLSMetadata_ok p : Forall byte_ok p → ∃ out, parseTLSMetadata p = Some out.
Proof.
  intros Hp. unfold parseTLSMetadata.
  assert (∃ out, (if 3 <=? len p then ver ← be16 p 1; Some ({["record_version"%string := JStr (tlsVersionHint ver)]} : gmap string json) else Some ∅) = Some out) as [out ->].
  { destruct (3 <=? len p) eqn:E; zbool; [access|]; by eexists. }
  cbn [mbind option_bind]. test. first_access. test. first_access. test. first_access. test. first_access. test. do 2 first_access. cbv zeta. test.
  first_access. test. apply parse_hello_ok; [done|lia].
Qed.

Lemma isDTLS_ok p : Forall byte_ok p → ∃ b, isDTLS p = Some b.
Proof. intros Hp. unfold isDTLS. test. access. test. access. by eexists. Qed.
Lemma isTLSClientHello_ok p : Forall byte_ok p → ∃ b, isTLSClientHello p = Some b.
Proof. intros Hp. unfold isTLSClientHello. test. do 3 access. by eexists. Qed.
Lemma looksLikeQUICInitial_ok p : Forall byte_ok p → ∃ b, looksLikeQUICInitial p = Some b.
Proof. intros Hp. unfold looksLikeQUICInitial. test. access. by eexists. Qed.

Lemma dns_payload_ok proto sport dport p : Forall byte_ok p → ∃ q, dns_payload proto sport dport p = Some q ∧ Forall byte_ok q.
Proof.
  intros Hp. unfold dns_payload. destruct (_ && (2 <? len p)) eqn:E; zbool; [|by eexists]. access.
  destruct ((0 <? x) && (x <=? len p - 2)) eqn:E2; zbool; [|by eexists].
  destruct (sub_bytes p 2 (2 + x) Hp) as (q & -> & _ & Hq); [lia|lia|]. by eexists.
Qed.

Lemma classifyPayload_ok proto sport dport p : Forall byte_ok p → ∃ r, classifyPayload proto sport dport p = Some r.
Proof.
  intros Hp. unfold classifyPayload. cbv zeta. destruct (dns_payload_ok proto sport dport p Hp) as (q & -> & Hq). cbn [mbind option_bind].
  destruct (parseDNSMetadata_ok q Hq) as [dns ->].
  destruct (isDTLS_ok p Hp) as [dtls ->], (isTLSClientHello_ok p Hp) as [hello ->], (looksLikeQUICInitial_ok p Hp) as [quic ->], (parseTLSMetadata_ok p Hp) as [tls ->].
  assert (Hdns : ∃ d, (if (sport =? 53) || (dport =? 53) || (sport =? 5353) || (dport =? 5353) then Some dns else Some None) = Some d)
    by (destruct (_ || (dport =? 5353)); by eexists).
  destruct Hdns as [[d|] ->]; cbn [mbind option_bind]; [by eexists|].
  destruct (if str_eqb proto "tcp" && _ then _ else _); [by eexists|].
  destruct dtls; [by eexists|]. destruct (quic && _ && _); [by eexists|]. destruct hello; by eexists.
Qed.

(** *** ClientHello messages *)

Definition enc16 (n : Z) : bytes := [Z.shiftr n 8; Z.land n 255].
Definition enc24 (n : Z) : bytes := Z.shiftr n 16 :: enc16 (Z.land n 65535).
Definition enc_ext (e : Z * bytes) : bytes := (enc16 e.1 ++ enc16 (len e.2) ++ e.2)%list.
Definition sni_data (host : bytes) : bytes := (enc16 (len host + 3) ++ [0] ++ enc16 (len host) ++ host)%list.

Record client_hello := {
  ch_version : Z; ch_random : bytes; ch_session : bytes; ch_suites : bytes; ch_compression : bytes; ch_extensions : list (Z * bytes) }.

Definition hello_body (h : client_hello) : bytes :=
  (enc16 (ch_version h) ++ ch_random h ++ [len (ch_session h)] ++ ch_session h ++ enc16 (len (ch_suites h)) ++ ch_suites h ++
   [len (ch_compression h)] ++ ch_compression h ++ enc16 (len (flat_map enc_ext (ch_extensions h))) ++ flat_map enc_ext (ch_extensions h))%list.
Definition hello_record (version : Z) (body : bytes) : bytes :=
  ([22] ++ enc16 version ++ enc16 (len body + 4) ++ [1] ++ enc24 (len body) ++ body)%list.

Definition word (n : Z) : Prop := 0 <= n < 65536.
Definition ext_fits (e : Z * bytes) : Prop := word e.1 ∧ len e.2 < 65536.
Record hello_fits (h : client_hello) : Prop := {
  hf_version : word (ch_version h);
  hf_random : len (ch_random h) = 32;
  hf_suites : 2 <= len (ch_suites h) < 65536;
  hf_extensions : Forall ext_fits (ch_extensions h);
  hf_body : len (hello_body h) < 65532 }.

Lemma len_app p q : len (p ++ q) = len p + len q. Proof. unfold len. rewrite length_app. lia. Qed.
Lemma len_cons b p : len (b :: p) = 1 + len p. Proof. unfold len. cbn. lia. Qed.


(** Arithmetic on the lengths of concatenations. *)
Ltac lens := subst; unfold len, enc24, enc16 in *; rewrite ?length_app in *; cbn [length] in *; rewrite ?length_app in *; lia.

Lemma word_bytes n : word n → Z.lor (Z.shiftl (Z.shiftr n 8) 8) (Z.land n 255) = n.
Proof.
  intros [H0 H1]. apply Z.bits_inj'. intros k Hk. change 255 with (Z.ones 8). rewrite Z.lor_spec, Z.land_spec, Z.shiftl_spec by lia.
  destruct (decide (k < 8)).
  - rewrite (Z.testbit_neg_r _ (k - 8)), Z.ones_spec_low, andb_true_r by lia. done.
  - rewrite Z.ones_spec_high, andb_false_r, orb_false_r, Z.shiftr_spec by lia. by rewrite Z.sub_add.
Qed.

Lemma read8 pre b post i : i = len pre → at_ (pre ++ b :: post) i = Some b.
Proof.
  intros ->. unfold at_, len. destruct (Z.of_nat (length pre) <? 0) eqn:E; zbool; [lia|]. rewrite Nat2Z.id.
  by apply list_lookup_middle.
Qed.

Lemma read16 pre n post i : i = len pre → word n → be16 (pre ++ enc16 n ++ post) i = Some n.
Proof.
  intros Hi Hn. unfold be16, enc16. cbn [app]. rewrite (read8 pre _ _ i) by done. cbn [mbind option_bind].
  replace (pre ++ Z.shiftr n 8 :: Z.land n 255 :: post) with ((pre ++ [Z.shiftr n 8]) ++ Z.land n 255 :: post) by (by rewrite <- app_assoc).
  rewrite read8 by lens. cbn. by rewrite word_bytes.
Qed.

Lemma read_sub pre d post i j : i = len pre → j = len pre + len d → sub (pre ++ d ++ post) i j = Some d.
Proof.
  intros -> ->. unfold sub. rewrite !len_app. unfold len.
  assert ((0 <=? Z.of_nat (length pre)) && (Z.of_nat (length pre) <=? Z.of_nat (length pre) + Z.of_nat (length d)) &&
    (Z.of_nat (length pre) + Z.of_nat (length d) <=? Z.of_nat (length pre) + (Z.of_nat (length d) + Z.of_nat (length post))) = true) as ->
    by (rewrite !andb_true_iff, !Z.leb_le; lia).
  unfold slice. rewrite Nat2Z.id. replace (Z.to_nat (Z.of_nat (length pre) + Z.of_nat (length d)) - length pre)%nat with (length d) by lia.
  by rewrite drop_app_length, take_app_length.
Qed.

(** The result of the extension loop: it stops at the first extension without data. *)
Definition ext_step (out : gmap string json) (e : Z * bytes) : option (gmap string json) :=
  if e.1 =? 0 then sni ← parseTLSSNI e.2; Some (if is_empty sni then out else <["sni" := JStr sni]> out)
  else if e.1 =? 16 then alpn ← parseTLSALPN e.2; Some (if is_empty alpn then out else <["alpn" := JStr alpn]> out)
  else Some out.
Fixpoint read_extensions (exts : list (Z * bytes)) (out : gmap string json) : option (gmap string json) :=
  match exts with
  | [] => Some out
  | e :: exts => if len e.2 =? 0 then Some out else out ← ext_step out e; read_extensions exts out
  end.

Lemma ext_loop_reads exts fuel pre i out :
  Forall ext_fits exts → i = len pre → len (flat_map enc_ext exts) < Z.of_nat fuel →
  ext_loop fuel (pre ++ flat_map enc_ext exts) i (len (pre ++ flat_map enc_ext exts)) out = read_extensions exts out.
Proof.
  intros Hf. revert fuel pre i out. induction Hf as [|[t d] exts [Ht Hd] _ IH]; intros fuel pre i out -> Hfuel.
  { destruct fuel as [|fuel]; [unfold len in Hfuel; cbn in Hfuel; lia|]. cbn [flat_map]. rewrite app_nil_r. cbn [ext_loop read_extensions].
    destruct (negb _) eqn:E; [done|]. zbool. lia. }
  cbn [flat_map read_extensions fst snd] in Hd, Ht |- *.
  assert (Hw : word (len d)) by (unfold word; pose proof (len_nonneg d); lia).
  set (rest := flat_map enc_ext exts) in *. change (enc_ext (t, d)) with (enc16 t ++ enc16 (len d) ++ d)%list.
  assert (Hlen : len (flat_map enc_ext ((t, d) :: exts)) = 4 + len d + len rest).
  { cbn [flat_map]. unfold enc_ext at 1. cbn [fst snd]. fold rest. clearbody rest. lens. }
  pose proof (len_nonneg d) as Hd0. pose proof (len_nonneg rest) as Hr0. pose proof (len_nonneg pre) as Hp0.
  rewrite Hlen in Hfuel. destruct fuel as [|fuel]; [lia|]. cbn [ext_loop].
  replace (len (pre ++ (enc16 t ++ enc16 (len d) ++ d) ++ rest)) with (len pre + 4 + len d + len rest)
    by lens.
  destruct (negb _) eqn:E; zbool; [lia|]. rewrite <- !app_assoc. rewrite (read16 pre t _ (len pre)) by done. cbn [mbind option_bind].
  replace (pre ++ enc16 t ++ enc16 (len d) ++ d ++ rest) with ((pre ++ enc16 t) ++ enc16 (len d) ++ d ++ rest) by (by rewrite <- !app_assoc).
  rewrite read16 by (done || lens). cbn [mbind option_bind].
  destruct (len d =? 0) eqn:E0; zbool.
  { rewrite E0. cbn. done. }
  destruct ((len d <=? 0) || _) eqn:E1; [exfalso; apply orb_true_iff in E1 as [E1|E1]; zbool; lia|]. clear E1.
  replace ((pre ++ enc16 t) ++ enc16 (len d) ++ d ++ rest) with ((pre ++ enc16 t ++ enc16 (len d)) ++ d ++ rest) by (by rewrite <- !app_assoc).
  rewrite read_sub by lens. cbn [mbind option_bind]. unfold ext_step. cbn [fst snd].
  assert (Hrec : ∀ out, ext_loop fuel ((pre ++ enc16 t ++ enc16 (len d)) ++ d ++ rest) (len pre + 4 + len d) (len pre + 4 + len d + len rest) out =
                        read_extensions exts out).
  { intros out'. rewrite <- (IH fuel (pre ++ enc16 t ++ enc16 (len d) ++ d) (len pre + 4 + len d) out'); [|lens|lia].
    fold rest. rewrite <- !app_assoc. f_equal. lens. }
  destruct (t =? 0); [|destruct (t =? 16)]; [destruct (parseTLSSNI d)|destruct (parseTLSALPN d)|]; cbn [mbind option_bind]; auto.
Qed.

(** Reads a field of a message at the end of a prefix of it. *)
Ltac at_prefix lem pre := rewrite (lem pre); [|lens|try done]; cbn [mbind option_bind].

Lemma parse_hello_reads h out :
  hello_fits h → parse_hello (hello_body h) out = read_extensions (ch_extensions h) (<["version"%string := JStr (tlsVersionHint (ch_version h))]> out).
Proof.
  intros [Hv Hr Hs Hf Hb]. set (E := flat_map enc_ext (ch_extensions h)).
  pose proof (len_nonneg (ch_session h)) as L1. pose proof (len_nonneg (ch_suites h)) as L2. pose proof (len_nonneg (ch_compression h)) as L3.
  pose proof (len_nonneg E) as L4.
  assert (Hlen : len (hello_body h) = 40 + len (ch_session h) + len (ch_suites h) + len (ch_compression h) + len E).
  { unfold hello_body. fold E. clearbody E. lens. }
  assert (R0 : be16 (hello_body h) 0 = Some (ch_version h)) by (by apply (read16 [])).
  assert (R1 : at_ (hello_body h) 34 = Some (len (ch_session h))).
  { unfold hello_body. rewrite app_assoc. apply read8. lens. }
  assert (R2 : be16 (hello_body h) (34 + 1 + len (ch_session h)) = Some (len (ch_suites h))).
  { unfold hello_body. rewrite !(app_assoc _ _ (enc16 (len (ch_suites h)) ++ _)%list). apply read16; [lens|unfold word; lia]. }
  assert (R3 : at_ (hello_body h) (34 + 1 + len (ch_session h) + 2 + len (ch_suites h)) = Some (len (ch_compression h))).
  { unfold hello_body. rewrite !(app_assoc _ _ ([len (ch_compression h)] ++ _)%list). apply read8. lens. }
  assert (R4 : be16 (hello_body h) (34 + 1 + len (ch_session h) + 2 + len (ch_suites h) + 1 + len (ch_compression h)) = Some (len E)).
  { unfold hello_body. fold E. rewrite !(app_assoc _ _ (enc16 (len E) ++ _)%list). apply read16; [clearbody E; lens|]. unfold word. lia. }
  unfold parse_hello. rewrite R0. cbn [mbind option_bind]. cbv zeta. rewrite Hlen.
  destruct (_ <=? 34) eqn:E1; zbool; [lia|]. rewrite R1. cbn [mbind option_bind]. clear E1.
  destruct (_ <? 34 + 1 + _) eqn:E1; zbool; [lia|]. clear E1. destruct (_ <? _ + 2) eqn:E1; zbool; [lia|]. clear E1.
  rewrite R2. cbn [mbind option_bind]. destruct (_ <? _ + 2 + _) eqn:E1; zbool; [lia|]. clear E1. destruct (_ <=? _ + 2 + _) eqn:E1; zbool; [lia|]. clear E1.
  rewrite R3. cbn [mbind option_bind]. destruct (_ <? _ + 1 + len (ch_compression h)) eqn:E1; zbool; [lia|]. clear E1.
  destruct (_ <? _ + len (ch_compression h) + 2) eqn:E1; zbool; [lia|]. clear E1. rewrite R4. cbn [mbind option_bind].
  rewrite Z.min_r by lia. rewrite <- Hlen.
  set (pre := (enc16 (ch_version h) ++ ch_random h ++ [len (ch_session h)] ++ ch_session h ++ enc16 (len (ch_suites h)) ++ ch_suites h ++
     [len (ch_compression h)] ++ ch_compression h ++ enc16 (len E))%list).
  assert (Hpre : hello_body h = (pre ++ E)%list) by (unfold hello_body, pre; fold E; by rewrite <- !app_assoc).
  assert (Hfuel : len E < Z.of_nat (S (length (hello_body h)))) by (clear -Hlen L1 L2 L3; unfold len in *; lia).
  rewrite Hpre in Hfuel |- *. apply ext_loop_reads; [done| |done].
  assert (len (hello_body h) = len pre + len E) by (rewrite Hpre; apply len_app). lia.
Qed.

Lemma hello_body_len h : hello_fits h → 42 <= len (hello_body h) < 65532.
Proof.
  intros [_ Hr Hs _ Hb]. split; [|done]. unfold hello_body. set (E := flat_map _ _).
  pose proof (len_nonneg (ch_session h)). pose proof (len_nonneg (ch_compression h)). pose proof (len_nonneg E). clearbody E. lens.
Qed.

Lemma parseTLSMetadata_reads version h :
  word version → hello_fits h →
  parseTLSMetadata (hello_record version (hello_body h)) =
  read_extensions (ch_extensions h) (<["version"%string := JStr (tlsVersionHint (ch_version h))]> {["record_version"%string := JStr (tlsVersionHint version)]}).
Proof.
  intros Hv Hf. pose proof (hello_body_len h Hf) as Hb. pose proof (parse_hello_reads h) as Hread. set (B := hello_body h) in *. clearbody B.
  assert (Hlen : len (hello_record version B) = 9 + len B) by (unfold hello_record; lens).
  assert (R0 : at_ (hello_record version B) 0 = Some 22) by (by apply (read8 [])).
  assert (R1 : be16 (hello_record version B) 1 = Some version) by (by apply (read16 [22])).
  assert (R3 : be16 (hello_record version B) 3 = Some (len B + 4)).
  { unfold hello_record. rewrite app_assoc. apply read16; [lens|unfold word; lia]. }
  set (R := ([1] ++ enc24 (len B) ++ B)%list).
  assert (R5 : sub (hello_record version B) 5 (9 + len B) = Some R).
  { replace (hello_record version B) with (([22] ++ enc16 version ++ enc16 (len B + 4)) ++ R ++ [])%list
      by (unfold hello_record, R; by rewrite app_nil_r, <- !app_assoc).
    apply read_sub; unfold R; lens. }
  assert (HR : len R = 4 + len B) by (unfold R; lens).
  assert (S1 : at_ R 1 = Some 0).
  { unfold R, enc24. rewrite Z.shiftr_div_pow2, Z.div_small by lia. by apply (read8 [1]). }
  assert (S2 : be16 R 2 = Some (len B)).
  { unfold R, enc24. rewrite Z.shiftr_div_pow2, (Z.div_small (len B) (2 ^ 16)) by lia. change 65535 with (Z.ones 16).
    rewrite Z.land_ones, Z.mod_small by lia. apply (read16 [1; 0]); [done|unfold word; lia]. }
  assert (S4 : sub R 4 (4 + len B) = Some B).
  { replace R with (([1] ++ enc24 (len B)) ++ B ++ [])%list by (unfold R; by rewrite app_nil_r, <- !app_assoc). apply read_sub; lens. }
  unfold parseTLSMetadata. rewrite Hlen. destruct (3 <=? 9 + len B) eqn:E; zbool; [|lia]. rewrite R1. cbn [mbind option_bind]. clear E.
  destruct (9 + len B <? 9) eqn:E; zbool; [lia|]. clear E. rewrite R0. cbn [mbind option_bind]. change (negb (22 =? 22)) with false. cbn iota.
  rewrite R3. cbn [mbind option_bind]. destruct (len B + 4 <=? 0) eqn:E; zbool; [lia|]. clear E.
  replace (Z.min (5 + (len B + 4)) (9 + len B)) with (9 + len B) by lia. rewrite R5. cbn [mbind option_bind]. rewrite HR.
  destruct (4 + len B <? 4) eqn:E; zbool; [lia|]. clear E. change (at_ R 0) with (Some 1). cbn [mbind option_bind]. change (negb (1 =? 1)) with false. cbn iota.
  rewrite S1. cbn [mbind option_bind]. rewrite S2. cbn [mbind option_bind]. cbv zeta. change (Z.lor (Z.shiftl 0 16) (len B)) with (len B).
  destruct (len B <=? 0) eqn:E; zbool; [lia|]. clear E. rewrite Z.min_id, S4. cbn [mbind option_bind].
  destruct (len B <? 42) eqn:E; zbool; [lia|]. by apply Hread.
Qed.

Lemma parseTLSSNI_reads host : 0 < len host → len host < 65000 →
  parseTLSSNI (sni_data host) = Some (ToLower (trim_dots (TrimSpace (of_bytes host)))).
Proof.
  intros H0 H1. assert (Hlen : len (sni_data host) = 5 + len host) by (unfold sni_data; lens).
  assert (R0 : be16 (sni_data host) 0 = Some (len host + 3)) by (apply (read16 []); [done|unfold word; lia]).
  assert (R3 : be16 (sni_data host) 3 = Some (len host)).
  { unfold sni_data. rewrite app_assoc. apply (read16 (enc16 (len host + 3) ++ [0])); [lens|unfold word; lia]. }
  assert (R5 : sub (sni_data host) 5 (5 + len host) = Some host).
  { replace (sni_data host) with ((enc16 (len host + 3) ++ [0] ++ enc16 (len host)) ++ host ++ [])%list
      by (unfold sni_data; by rewrite app_nil_r, <- !app_assoc).
    apply read_sub; lens. }
  unfold parseTLSSNI. rewrite Hlen. destruct (5 + len host <? 5) eqn:E; zbool; [lia|]. clear E. rewrite R0. cbn [mbind option_bind]. cbv zeta.
  replace (Z.min (2 + (len host + 3)) (5 + len host)) with (5 + len host) by lia. cbn [sni_loop].
  destruct (negb _) eqn:E; zbool; [lia|]. clear E. change (at_ (sni_data host) 2) with (Some 0). cbn [mbind option_bind].
  change (2 + 1) with 3. rewrite R3. cbn [mbind option_bind]. change (2 + 3) with 5.
  destruct ((len host <=? 0) || _) eqn:E; [exfalso; apply orb_true_iff in E as [E|E]; zbool; lia|]. clear E. by rewrite R5.
Qed.

Lemma ext_step_sni out e : Forall byte_ok e.2 → e.1 ≠ 0 → ∃ out', ext_step out e = Some out' ∧ out' !! "sni"%string = out !! "sni"%string.
Proof.
  intros Hb Ht. unfold ext_step. destruct (e.1 =? 0) eqn:E; zbool; [done|]. destruct (e.1 =? 16); [|by eexists].
  destruct (parseTLSALPN_ok e.2 Hb) as [alpn ->]. cbn. eexists. split; [done|]. destruct (is_empty alpn); [done|by simplify_map_eq].
Qed.

Lemma read_other_extensions exts out : Forall (λ e, Forall byte_ok e.2 ∧ e.1 ≠ 0) exts →
  ∃ out', read_extensions exts out = Some out' ∧ out' !! "sni"%string = out !! "sni"%string.
Proof.
  intros H. revert out. induction H as [|e exts [Hb Ht] _ IH]; intros out; cbn [read_extensions]; [by eexists|].
  destruct (len e.2 =? 0); [by eexists|]. destruct (ext_step_sni out e Hb Ht) as (o1 & -> & H1). cbn [mbind option_bind].
  destruct (IH o1) as (o2 & -> & H2). exists o2. by rewrite H2.
Qed.

(** Whether the loop meets an extension without data in a list. *)
Definition has_empty (exts : list (Z * bytes)) : bool := existsb (λ e, len e.2 =? 0) exts.

Lemma read_before exts rest out : Forall (λ e, Forall byte_ok e.2 ∧ e.1 ≠ 0) exts →
  ∃ out', out' !! "sni"%string = out !! "sni"%string ∧
    read_extensions (exts ++ rest) out = if has_empty exts then Some out' else read_extensions rest out'.
Proof.
  intros H. revert out. induction H as [|e exts [Hb Ht] _ IH]; intros out; [by exists out|].
  cbn [app read_extensions has_empty existsb]. destruct (len e.2 =? 0); [by exists out|]. cbn [orb].
  destruct (ext_step_sni out e Hb Ht) as (o1 & -> & H1). cbn [mbind option_bind].
  destruct (IH o1) as (o2 & H2 & ->). exists o2. by rewrite H2.
Qed.

Definition packet_bytes (pkt : packet) : bytes := match transport pkt with Some (_, _, _, p) => p | None => [] end.


Definition dns_flow : packet :=
  {| pk_ts := 5; pk_capture := None; pk_len := 60; pk_ip4 := Some (Some (IP 32 (8 * 2 ^ 24 + 8)), Some (IP 32 (192 * 2 ^ 24 + 168 * 2 ^ 16 + 5)));
     pk_ip6 := None; pk_arp := None; pk_tcp := None;
     pk_udp := Some {| udp_SrcPort := 53; udp_DstPort := 7000; udp_Payload := [0; 1; 128; 0; 0; 1; 0; 1; 0; 0; 0; 0; 192; 12; 0; 1; 0; 1] |};
     pk_icmp4 := None; pk_icmp6 := None |}.
Definition l7_capturer : PcapL7Capturer :=
  {| c_agentID := "agent"; c_netCtx := example_context; c_buffer := NewBuffer 0 10 0;
     c_opts := applyDefaults {| o_Interface := ""; o_SnapLen := 0; o_Promisc := false; o_ReadTimeout := 0; o_DedupTTL := 0; o_MaxBatchSize := 0;
       o_MaxPayloadBytes := 0; o_IncludePayload := true; o_SkipLoopback := true; o_SkipLinkLocal := true |} |}.


(** C27: the server name of a ClientHello (parseTLSMetadata).  For every well-formed record
    that carries a server name extension, the name is found and normalised unless
    an extension without data comes before it: the loop stops there, although TLS
    has such extensions (extended_master_secret, GREASE). *)
Theorem server_name_extraction version h pre host post :
  word version → hello_fits h → ch_extensions h = (pre ++ (0, sni_data host) :: post)%list →
  Forall (λ e, Forall byte_ok e.2 ∧ e.1 ≠ 0) pre → Forall (λ e, Forall byte_ok e.2 ∧ e.1 ≠ 0) post → 0 < len host < 65000 →
  let name := ToLower (trim_dots (TrimSpace (of_bytes host))) in
  ∃ out, parseTLSMetadata (hello_record version (hello_body h)) = Some out ∧
    out !! "sni"%string = (if has_empty pre || is_empty name then None else Some (JStr name)).
Proof.
  intros Hv Hf Hext Hpre Hpost Hhost name. rewrite parseTLSMetadata_reads, Hext by done.
  set (out0 := <[_ := _]> _). assert (Hno : out0 !! "sni"%string = None) by (unfold out0; by simplify_map_eq).
  destruct (read_before pre ((0, sni_data host) :: post) out0 Hpre) as (o1 & H1 & ->). rewrite Hno in H1.
  destruct (has_empty pre); [by exists o1|]. cbn [read_extensions fst snd].
  destruct (len (sni_data host) =? 0) eqn:E; zbool; [unfold sni_data in E; pose proof (len_nonneg host); exfalso; lens|]. clear E.
  unfold ext_step. cbn [fst snd]. change (0 =? 0) with true. cbn iota. rewrite parseTLSSNI_reads by lia. fold name. cbn [mbind option_bind].
  destruct (read_other_extensions post (if is_empty name then o1 else <["sni" := JStr name]> o1) Hpost) as (o2 & -> & H2).
  exists o2. split; [done|]. rewrite H2. destruct (is_empty name); cbn [orb]; [done|]. by simplify_map_eq.
Qed.

Definition example_hello (exts : list (Z * bytes)) : client_hello :=
  {| ch_version := 771; ch_random := replicate 32 7; ch_session := []; ch_suites := [19; 1]; ch_compression := [0]; ch_extensions := exts |}.
Definition example_host : bytes := map (λ a, Z.of_N (N_of_ascii a)) (to_chars "Example.org.").

Lemma server_name_extraction_witness :
  (∃ out, parseTLSMetadata (hello_record 769 (hello_body (example_hello [(10, [0; 2; 0; 29]); (0, sni_data example_host)]))) = Some out ∧
     out !! "sni"%string = Some (JStr "example.org")) ∧
  (∃ out, parseTLSMetadata (hello_record 769 (hello_body (example_hello [(23, []); (0, sni_data example_host)]))) = Some out ∧ out !! "sni"%string = None).
Proof.
  assert (Hfits : ∀ e, ext_fits e → len (hello_body (example_hello [e; (0, sni_data example_host)])) < 65532 →
                       hello_fits (example_hello [e; (0, sni_data example_host)])).
  { intros e He Hlen. constructor; [split; reflexivity || discriminate|reflexivity|split; reflexivity || discriminate| |exact Hlen].
    constructor; [exact He|]. constructor; [|constructor]. repeat split; reflexivity || discriminate. }
  split.
  - destruct (server_name_extraction 769 (example_hello [(10, [0; 2; 0; 29]); (0, sni_data example_host)]) [(10, [0; 2; 0; 29])] example_host [])
      as (out & -> & Hout); [split; lia|apply Hfits; [repeat split; reflexivity || discriminate|reflexivity]|reflexivity| |constructor|split; reflexivity|].
    + constructor; [|constructor]. split; [apply (bool_decide_unpack _); vm_compute; exact I|done].
    + exists out. split; [reflexivity|]. rewrite Hout. vm_compute. reflexivity.
  - destruct (server_name_extraction 769 (example_hello [(23, []); (0, sni_data example_host)]) [(23, [])] example_host [])
      as (out & -> & Hout); [split; lia|apply Hfits; [repeat split; reflexivity || discriminate|reflexivity]|reflexivity| |constructor|split; reflexivity|].
    + constructor; [|constructor]. split; [constructor|done].
    + exists out. split; [reflexivity|]. rewrite Hout. vm_compute. reflexivity.
Defined.
