(* ===== verification/Scan.v ===== *)
(** * Scan: the scan probe collector (internal/collectors/scan/pcap_scan.go)

    Packets to the agent's own addresses that look like probes become
    [scan_probe] events, deduplicated by Pcapx's buffer.  Opening the capture
    device is not modelled; what gopacket decodes is a [packet]. *)

From S2P Require Import Prelude GoStr GoText GoJson Net GoIP Event Netctx Pcapx.
From Stdlib Require Import Ascii.

Local Open Scope Z_scope.
Local Open Scope go_scope.

Record PcapScanOptions := {
  o_Interface : string; o_SnapLen : Z; o_Promisc : bool; o_ReadTimeout : duration; o_DedupTTL : duration; o_MaxBatchSize : Z;
  o_SkipLoopback : bool; o_SkipLinkLocal : bool; o_DenyCIDRs : list ipnet; o_DenyDstPorts : gset Z; o_DenySrcPorts : gset Z;
  o_DropUDPEphemeral : bool; o_EphemeralPortMin : Z; o_IncludeARP : bool; o_IncludeICMP : bool; o_IncludeICMPv6 : bool; o_IncludeTCPAck : bool }.

Definition default_pos (n d : Z) : Z := if n <=? 0 then d else n.

Definition applyPcapDefaults (o : PcapScanOptions) : PcapScanOptions :=
  let neither := negb (o_IncludeICMP o) && negb (o_IncludeICMPv6 o) in
  {| o_Interface := o_Interface o; o_SnapLen := default_pos (o_SnapLen o) 128; o_Promisc := o_Promisc o;
     o_ReadTimeout := default_pos (o_ReadTimeout o) (500 * millisecond); o_DedupTTL := default_pos (o_DedupTTL o) (2 * second);
     o_MaxBatchSize := default_pos (o_MaxBatchSize o) 2000; o_SkipLoopback := o_SkipLoopback o; o_SkipLinkLocal := o_SkipLinkLocal o;
     o_DenyCIDRs := o_DenyCIDRs o; o_DenyDstPorts := o_DenyDstPorts o; o_DenySrcPorts := o_DenySrcPorts o;
     o_DropUDPEphemeral := if negb (o_DropUDPEphemeral o) then true else o_DropUDPEphemeral o;
     o_EphemeralPortMin := default_pos (o_EphemeralPortMin o) 49152; o_IncludeARP := o_IncludeARP o;
     o_IncludeICMP := if neither then true else o_IncludeICMP o; o_IncludeICMPv6 := if neither then true else o_IncludeICMPv6 o;
     o_IncludeTCPAck := o_IncludeTCPAck o |}.

Record PcapScanCapturer := { c_agentID : string; c_opts : PcapScanOptions; c_netCtx : NetworkContext; c_buffer : Buffer }.

Definition NewPcapScanCapturer (agentID : string) (opts : PcapScanOptions) (collected : option NetworkContext) (now : time) : option PcapScanCapturer :=
  let opts := applyPcapDefaults opts in
  nc ← collected;
  if (size (nc_LocalIPs nc) =? 0)%nat then None else
  Some {| c_agentID := agentID; c_opts := opts; c_netCtx := nc; c_buffer := NewBuffer (o_DedupTTL opts) (o_MaxBatchSize opts) now |}.

Definition buildBPF (o : PcapScanOptions) : string :=
  Join (["tcp"; "udp"] ++ (if o_IncludeICMP o then ["icmp"] else []) ++ (if o_IncludeICMPv6 o then ["icmp6"] else []) ++
        (if o_IncludeARP o then ["arp"] else []))%list%string " or ".

(** ** Classification *)

Definition classifyTCP (t : tcp_layer) (includeAck : bool) : string :=
  let SYN := tcp_SYN t in let ACK := tcp_ACK t in let FIN := tcp_FIN t in let RST := tcp_RST t in let PSH := tcp_PSH t in let URG := tcp_URG t in
  if SYN && negb ACK then "tcp_syn" else
  if FIN && negb SYN && negb RST && negb ACK && negb PSH && negb URG then "tcp_fin" else
  if negb SYN && negb ACK && negb FIN && negb RST && negb PSH && negb URG then "tcp_null" else
  if FIN && PSH && URG then "tcp_xmas" else
  if includeAck && ACK && negb SYN && negb FIN && negb RST && negb PSH && negb URG then "tcp_ack" else "".

Definition scanConfidenceForType (scanType : string) : Z :=
  if str_eqb scanType "tcp_syn" then 85 else
  if str_in scanType ["tcp_fin"; "tcp_null"; "tcp_xmas"]%string then 90 else
  if str_eqb scanType "tcp_ack" then 55 else
  if str_eqb scanType "udp_probe" then 45 else
  if str_in scanType ["icmp_echo"; "icmp6_echo"]%string then 40 else
  if str_eqb scanType "arp_request" then 35 else 30.

Definition port_in (p : Z) (l : list Z) : bool := existsb (Z.eqb p) l.

Definition scanConfidenceForTCP (scanType : string) (srcPort dstPort : Z) : Z :=
  let conf := scanConfidenceForType scanType in
  let conf := if 49152 <=? srcPort then conf + 4 else conf in
  let conf := if port_in dstPort [22; 135; 139; 445; 3389; 5985; 5986] then conf + 6 else conf in
  if 95 <? conf then 95 else conf.

Definition udp_confidence (srcPort dstPort : Z) : Z :=
  let conf := scanConfidenceForType "udp_probe" in
  let conf := if 49152 <=? srcPort then conf + 3 else conf in
  let conf := if port_in dstPort [53; 161; 1900] then conf - 8 else if dstPort =? 123 then conf - 10 else conf in
  if conf <? 20 then 20 else conf.

Definition shouldDrop (o : PcapScanOptions) (srcIP dstIP : string) (srcPort dstPort : Z) : bool :=
  if (0 <? srcPort) && bool_decide (srcPort ∈ o_DenySrcPorts o) then true else
  if (0 <? dstPort) && bool_decide (dstPort ∈ o_DenyDstPorts o) then true else
  DropByIP srcIP dstIP (o_SkipLoopback o) (o_SkipLinkLocal o) false (o_DenyCIDRs o).

(** ** Events *)

Section capturer.
Context (c : PcapScanCapturer).

Let opts := c_opts c.

Definition probe_event (pkt : packet) (src dst : string) (sport dport : Z) (proto scanType iface : string) (version conf : Z)
    (more : list (string * json)) : NetEvent :=
  {| ne_EventID := ""; ne_AgentID := c_agentID c; ne_EventType := "scan_probe"; ne_SchemaVersion := 0; ne_Timestamp := pk_ts pkt;
     ne_SrcIP := src; ne_DstIP := dst; ne_SrcPort := sport; ne_DstPort := dport; ne_Proto := proto; ne_Bytes := pk_len pkt;
     ne_Extra := Some (list_to_map ([("scan_type", JStr scanType); ("iface", JStr iface); ("ip_version", JInt version);
                                     ("collector", JStr "pcap_scan"); ("signal_family", JStr "scan"); ("scan_confidence", JInt conf)] ++ more)%list) |}.

Definition ARPRequest : Z := 1.
Definition ICMPv4TypeEchoRequest : Z := 8.
Definition ICMPv6TypeEchoRequest : Z := 128.

Definition arp_event (pkt : packet) (arp : arp_layer) (iface : string) : option NetEvent :=
  if negb (arp_Operation arp =? ARPRequest) then None else
  let src := IPString_bytes (arp_SourceProtAddress arp) in
  let dst := IPString_bytes (arp_DstProtAddress arp) in
  if negb (is_local (c_netCtx c) dst) then None else
  if shouldDrop opts src dst 0 0 then None else
  Some (probe_event pkt src dst 0 0 "arp" "arp_request" iface 0 (scanConfidenceForType "arp_request") []).

Definition tcp_event (pkt : packet) (tcp : tcp_layer) (srcIP dstIP iface : string) (version : Z) : option NetEvent :=
  let srcPort := tcp_SrcPort tcp in
  let dstPort := tcp_DstPort tcp in
  if shouldDrop opts srcIP dstIP srcPort dstPort then None else
  let scanType := classifyTCP tcp (o_IncludeTCPAck opts) in
  if is_empty scanType then None else
  Some (probe_event pkt srcIP dstIP srcPort dstPort "tcp" scanType iface version (scanConfidenceForTCP scanType srcPort dstPort)
    [("tcp_flags", JStr (TCPFlags tcp)); ("syn_only", JBool (str_eqb scanType "tcp_syn"))]).

Definition udp_event (pkt : packet) (udp : udp_layer) (srcIP dstIP iface : string) (version : Z) : option NetEvent :=
  let srcPort := udp_SrcPort udp in
  let dstPort := udp_DstPort udp in
  if o_DropUDPEphemeral opts && (o_EphemeralPortMin opts <=? dstPort) then None else
  if shouldDrop opts srcIP dstIP srcPort dstPort then None else
  Some (probe_event pkt srcIP dstIP srcPort dstPort "udp" "udp_probe" iface version (udp_confidence srcPort dstPort) []).

(** An echo request; other types end the classification. *)
Definition icmp_event (pkt : packet) (icmp : icmp_layer) (request : Z) (proto scanType srcIP dstIP iface : string) (version : Z) : option NetEvent :=
  if negb (icmp_Type icmp =? request) then None else
  Some (probe_event pkt srcIP dstIP 0 0 proto scanType iface version (scanConfidenceForType scanType)
    [("icmp_type", JInt (icmp_Type icmp)); ("icmp_code", JInt (icmp_Code icmp))]).

Definition packetToEvent (pkt : packet) (iface : string) : option NetEvent :=
  let ips := match pk_ip4 pkt with
    | Some (s, d) => inl (IPString s, IPString d, 4)
    | None => match pk_ip6 pkt with
      | Some (s, d) => inl (IPString s, IPString d, 6)
      | None => inr (if o_IncludeARP opts then pk_arp pkt else None) end end in
  match ips with
  | inr (Some arp) => arp_event pkt arp iface
  | inr None => None
  | inl (srcIP, dstIP, version) =>
    if negb (is_local (c_netCtx c) dstIP) then None else
    if shouldDrop opts srcIP dstIP 0 0 then None else
    match pk_tcp pkt with
    | Some tcp => tcp_event pkt tcp srcIP dstIP iface version
    | None =>
      match pk_udp pkt with
      | Some udp => udp_event pkt udp srcIP dstIP iface version
      | None =>
        match (if o_IncludeICMP opts then pk_icmp4 pkt else None) with
        | Some icmp => icmp_event pkt icmp ICMPv4TypeEchoRequest "icmp" "icmp_echo" srcIP dstIP iface version
        | None =>
          match (if o_IncludeICMPv6 opts then pk_icmp6 pkt else None) with
          | Some icmp => icmp_event pkt icmp ICMPv6TypeEchoRequest "icmp6" "icmp6_echo" srcIP dstIP iface version
          | None => None
          end
        end
      end
    end
  end.
End capturer.

Definition scan_key (ev : NetEvent) : string :=
  Join [ne_Proto ev; ne_SrcIP ev; ne_DstIP ev; Itoa (ne_SrcPort ev); Itoa (ne_DstPort ev); default "" (extra_string ev "scan_type")] "|".

Definition push (c : PcapScanCapturer) (now : time) (ev : NetEvent) : PcapScanCapturer :=
  let extra := EnrichEndpoints (c_netCtx c) (default ∅ (ne_Extra ev)) (ne_SrcIP ev) (ne_DstIP ev) in
  let ev := {| ne_EventID := ne_EventID ev; ne_AgentID := ne_AgentID ev; ne_EventType := ne_EventType ev; ne_SchemaVersion := ne_SchemaVersion ev;
               ne_Timestamp := ne_Timestamp ev; ne_SrcIP := ne_SrcIP ev; ne_DstIP := ne_DstIP ev; ne_SrcPort := ne_SrcPort ev;
               ne_DstPort := ne_DstPort ev; ne_Proto := ne_Proto ev; ne_Bytes := ne_Bytes ev; ne_Extra := Some extra |} in
  {| c_agentID := c_agentID c; c_opts := c_opts c; c_netCtx := c_netCtx c; c_buffer := (Push (c_buffer c) now (scan_key ev) ev).2 |}.

Definition drain (c : PcapScanCapturer) : list NetEvent * PcapScanCapturer :=
  let '(out, b) := Drain (c_buffer c) in
  (out, {| c_agentID := c_agentID c; c_opts := c_opts c; c_netCtx := c_netCtx c; c_buffer := b |}).

(** One round of [Start]'s loop. *)
Definition on_packet (c : PcapScanCapturer) (now : time) (pkt : packet) (iface : string) : PcapScanCapturer :=
  match packetToEvent c pkt iface with Some ev => push c now ev | None => c end.

(** ** Proofs *)

(** The confidence of a probe. *)
Definition confidence (ev : NetEvent) : option Z :=
  extra ← ne_Extra ev; match extra !! "scan_confidence"%string with Some (JInt z) => Some z | _ => None end.

Lemma probe_confidence c pkt src dst sport dport proto scanType iface version conf more :
  confidence (probe_event c pkt src dst sport dport proto scanType iface version conf more) = Some conf.
Proof. unfold confidence, probe_event. cbn. by simplify_map_eq. Qed.

Lemma type_confidence_range s : 30 <= scanConfidenceForType s <= 90.
Proof. unfold scanConfidenceForType. repeat case_match; lia. Qed.

Lemma tcp_confidence_range s sp dp : 30 <= scanConfidenceForTCP s sp dp <= 95.
Proof. unfold scanConfidenceForTCP. pose proof (type_confidence_range s). repeat case_match; zbool; lia. Qed.

Lemma udp_confidence_range sp dp : 35 <= udp_confidence sp dp <= 48.
Proof. unfold udp_confidence. cbn. repeat case_match; zbool; lia. Qed.

(** What the filters ask of two texts and two ports. *)
Definition passes (o : PcapScanOptions) (src dst : string) (sport dport : Z) : Prop :=
  (0 < sport → sport ∉ o_DenySrcPorts o) ∧ (0 < dport → dport ∉ o_DenyDstPorts o) ∧
  ∃ s d, ParseIP src = Some s ∧ ParseIP dst = Some d ∧ (o_SkipLoopback o = true → IsLoopback s = false ∧ IsLoopback d = false) ∧
         (o_SkipLinkLocal o = true → IsLinkLocalUnicast s = false ∧ IsLinkLocalUnicast d = false) ∧
         ∀ n, n ∈ o_DenyCIDRs o → net_Contains n s = false ∧ net_Contains n d = false.

Lemma shouldDrop_passes o src dst sport dport : shouldDrop o src dst sport dport = false → passes o src dst sport dport.
Proof.
  unfold shouldDrop, DropByIP, passes. intros H.
  destruct ((0 <? sport) && _) eqn:E1; [done|]. destruct ((0 <? dport) && _) eqn:E2; [done|].
  destruct (ParseIP src) as [s|]; [|done]. destruct (ParseIP dst) as [d|]; [|done].
  destruct (o_SkipLoopback o && _) eqn:E3; [done|]. destruct (o_SkipLinkLocal o && _) eqn:E4; [done|]. cbn in H.
  split; [|split; [|exists s, d; split_and!; try done]].
  - intros Hs Hin. apply andb_false_iff in E1 as [E1|E1]; zbool; [lia|done].
  - intros Hs Hin. apply andb_false_iff in E2 as [E2|E2]; zbool; [lia|done].
  - intros Hl. rewrite Hl in E3. cbn in E3. by apply orb_false_iff in E3.
  - intros Hl. rewrite Hl in E4. cbn in E4. by apply orb_false_iff in E4.
  - intros n Hn. apply orb_false_iff. destruct (net_Contains n s || net_Contains n d) eqn:E; [|done].
    assert (existsb (λ n, net_Contains n s || net_Contains n d) (o_DenyCIDRs o) = true); [|congruence].
    apply existsb_exists. exists n. split; [by apply list_elem_of_In|done].
Qed.

(** Scan probes (pcap_scan.go).  An event is only made of a packet to one of the agent's own
    addresses that no filter refuses: its ports are not denied, its addresses parse
    and lie in no denied network; and its confidence is between 30 and 95. *)
Theorem probe_events_sound c pkt iface ev :
  packetToEvent c pkt iface = Some ev →
  is_local (c_netCtx c) (ne_DstIP ev) = true ∧ passes (c_opts c) (ne_SrcIP ev) (ne_DstIP ev) (ne_SrcPort ev) (ne_DstPort ev) ∧
  ne_EventType ev = "scan_probe"%string ∧ ne_AgentID ev = c_agentID c ∧ ∃ conf, confidence ev = Some conf ∧ 30 <= conf <= 95.
Proof.
  unfold packetToEvent. intros H.
  destruct (match pk_ip4 pkt with Some _ => _ | None => _ end) as [[[src dst] v]|[arp|]] eqn:Hips; [|unfold arp_event in H|done].
  2: { destruct (negb (_ =? _)); [done|]. destruct (negb _) eqn:Hl; [done|]. destruct (shouldDrop _ _ _ _ _) eqn:Hd; [done|]. injection H as <-.
       zbool. split_and!; try done; [by apply shouldDrop_passes|]. exists 35. split; [apply probe_confidence|lia]. }
  destruct (negb _) eqn:Hl; [done|]. zbool. destruct (shouldDrop _ _ _ _ _) eqn:Hd; [done|]. apply shouldDrop_passes in Hd.
  destruct (pk_tcp pkt) as [tcp|]; [unfold tcp_event in H|].
  { destruct (shouldDrop _ _ _ _ _) eqn:Hd'; [done|]. destruct (is_empty _); [done|]. injection H as <-.
    split_and!; try done; [by apply shouldDrop_passes|]. eexists. split; [apply probe_confidence|apply tcp_confidence_range]. }
  destruct (pk_udp pkt) as [udp|]; [unfold udp_event in H|].
  { destruct (_ && _); [done|]. destruct (shouldDrop _ _ _ _ _) eqn:Hd'; [done|]. injection H as <-.
    split_and!; try done; [by apply shouldDrop_passes|]. eexists. split; [apply probe_confidence|]. pose proof (udp_confidence_range (udp_SrcPort udp) (udp_DstPort udp)). lia. }
  assert (Hicmp : ∀ icmp r proto st, icmp_event c pkt icmp r proto st src dst iface v = Some ev →
    is_local (c_netCtx c) (ne_DstIP ev) = true ∧ passes (c_opts c) (ne_SrcIP ev) (ne_DstIP ev) (ne_SrcPort ev) (ne_DstPort ev) ∧
    ne_EventType ev = "scan_probe"%string ∧ ne_AgentID ev = c_agentID c ∧ ∃ conf, confidence ev = Some conf ∧ 30 <= conf <= 95).
  { intros icmp r proto st He. unfold icmp_event in He. destruct (negb _); [done|]. injection He as <-. split_and!; try done.
    eexists. split; [apply probe_confidence|]. pose proof (type_confidence_range st). lia. }
  destruct (if o_IncludeICMP _ then _ else _); [by eapply Hicmp|]. destruct (if o_IncludeICMPv6 _ then _ else _); [by eapply Hicmp|done].
Qed.

Definition syn_packet : packet :=
  {| pk_ts := 5; pk_capture := None; pk_len := 60; pk_ip4 := Some (Some (IP 32 (8 * 2 ^ 24 + 8)), Some (IP 32 (192 * 2 ^ 24 + 168 * 2 ^ 16 + 5)));
     pk_ip6 := None; pk_arp := None; pk_udp := None; pk_icmp4 := None; pk_icmp6 := None;
     pk_tcp := Some {| tcp_SrcPort := 50000; tcp_DstPort := 22; tcp_SYN := true; tcp_ACK := false; tcp_FIN := false; tcp_RST := false; tcp_PSH := false;
                       tcp_URG := false; tcp_Payload := [] |} |}.
Definition scan_options : PcapScanOptions :=
  {| o_Interface := ""; o_SnapLen := 0; o_Promisc := false; o_ReadTimeout := 0; o_DedupTTL := 0; o_MaxBatchSize := 0; o_SkipLoopback := true;
     o_SkipLinkLocal := true; o_DenyCIDRs := [v4 10 0 0 0 8]; o_DenyDstPorts := {[80]}; o_DenySrcPorts := ∅; o_DropUDPEphemeral := false;
     o_EphemeralPortMin := 0; o_IncludeARP := false; o_IncludeICMP := false; o_IncludeICMPv6 := false; o_IncludeTCPAck := false |}.
Definition scan_capturer : PcapScanCapturer :=
  {| c_agentID := "agent"; c_opts := applyPcapDefaults scan_options; c_netCtx := example_context; c_buffer := NewBuffer (2 * second) 2000 0 |}.

Lemma probe_events_sound_witness :
  ∃ ev, packetToEvent scan_capturer syn_packet "eth0" = Some ev ∧ passes (applyPcapDefaults scan_options) (ne_SrcIP ev) (ne_DstIP ev) (ne_SrcPort ev) (ne_DstPort ev).
Proof.
  destruct (packetToEvent scan_capturer syn_packet "eth0") as [ev|] eqn:He; [|exfalso; revert He; vm_compute; discriminate].
  exists ev. split; [reflexivity|]. exact (proj1 (proj2 (probe_events_sound scan_capturer syn_packet "eth0" ev He))).
Defined.

(** The two switches of the options that cannot be turned off: a collector always drops
    UDP packets to ephemeral ports and, without either kind of ICMP, collects both. *)
Theorem defaults_override_switches o :
  o_DropUDPEphemeral (applyPcapDefaults o) = true ∧ (o_IncludeICMP (applyPcapDefaults o) || o_IncludeICMPv6 (applyPcapDefaults o) = true).
Proof. cbn. destruct (o_DropUDPEphemeral o), (o_IncludeICMP o), (o_IncludeICMPv6 o); done. Qed.
