(* ===== verification/Flows.v ===== *)
(** * Flows: TCP connections from /proc (internal/collectors/proc/proc.go) and
      lateral movement (internal/collectors/lateral)

    The kernel's tables of TCP connections become [flow] events with the remote
    side as the source, deduplicated per connection and state; the lateral
    collectors keep the connections to administration ports, read from the same
    tables or from captured packets. *)

From stdpp Require Import pretty.
From S2P Require Import Prelude GoStr GoText GoJson Net GoIP Event Netctx Pcapx.
From Stdlib Require Import Ascii.

Local Open Scope Z_scope.
Local Open Scope go_scope.

(** ** States *)

Definition tcpStateNames : gmap string string := list_to_map [
  ("01", "established"); ("02", "syn_sent"); ("03", "syn_recv"); ("04", "fin_wait1"); ("05", "fin_wait2"); ("06", "time_wait");
  ("07", "close"); ("08", "close_wait"); ("09", "last_ack"); ("0A", "listen"); ("0B", "closing")].
Definition stateName (stateHex : string) : string := default "unknown" (tcpStateNames !! stateHex).
Definition stateClassAndConfidence (stateHex : string) : string * Z :=
  if str_in stateHex ["02"; "03"] then ("attempt", 82) else
  if str_eqb stateHex "01" then ("session", 60) else
  if str_in stateHex ["06"; "04"; "05"; "08"; "09"; "0B"] then ("teardown", 35) else ("other", 25).

Record Options := {
  o_AllowStates : option (gset string); o_DedupTTL : duration; o_EstablishedTTL : duration;
  o_SkipLoopback : bool; o_SkipLinkLocal : bool; o_SkipPrivateToPrivate : bool; o_DropLikelyOutbound : bool; o_EphemeralPortMin : Z;
  o_DenyCIDRs : list ipnet; o_DenyDstPorts : gset Z; o_DenySrcPorts : gset Z; o_MaxBatchSize : Z; o_IncludeIPv6 : bool }.

Definition positive (n d : Z) : Z := if n <=? 0 then d else n.
Definition default_states : gset string := list_to_set ["01"; "02"; "03"; "04"; "05"; "06"; "08"; "09"; "0B"].
Definition applyDefaults (o : Options) : Options :=
  {| o_AllowStates := Some (default default_states (o_AllowStates o)); o_DedupTTL := positive (o_DedupTTL o) (30 * second);
     o_EstablishedTTL := positive (o_EstablishedTTL o) (10 * minute); o_SkipLoopback := o_SkipLoopback o; o_SkipLinkLocal := o_SkipLinkLocal o;
     o_SkipPrivateToPrivate := o_SkipPrivateToPrivate o; o_DropLikelyOutbound := o_DropLikelyOutbound o;
     o_EphemeralPortMin := positive (o_EphemeralPortMin o) 49152; o_DenyCIDRs := o_DenyCIDRs o; o_DenyDstPorts := o_DenyDstPorts o;
     o_DenySrcPorts := o_DenySrcPorts o; o_MaxBatchSize := positive (o_MaxBatchSize o) 500; o_IncludeIPv6 := o_IncludeIPv6 o |}.

Record dedupEntry := { de_lastState : string; de_lastSent : time }.

(** The tables of the kernel: a file that does not exist, one that cannot be
    opened for another reason, or its text. *)
Inductive table := Missing | Unreadable | Contents (text : string).

(** Errors: of [os.Open], of the scanner, and those wrapped by [fmt.Errorf] with
    [%w].  [os.IsNotExist] looks at the error itself and does not unwrap it. *)
Inductive file_error := NotExist | OtherError | Wrapped (e : file_error).
Definition IsNotExist (e : file_error) : bool := match e with NotExist => true | _ => false end.
Definition open_table (t : table) : file_error + string :=
  match t with Missing => inl NotExist | Unreadable => inl OtherError | Contents text => inr text end.

Record Capturer := { c_agentID : string; c_opts : Options; c_cache : gmap string dedupEntry; c_lastCleanup : time }.
Definition New (agentID : string) (opts : Options) (now : time) : Capturer :=
  {| c_agentID := agentID; c_opts := applyDefaults opts; c_cache := ∅; c_lastCleanup := now |}.

(** ** Parsing *)

Definition parseHexIPPort4 (s : string) : option (string * Z) :=
  match Split s ":"%char with
  | [ipHex; portHex] => v ← hexIPv4LE ipHex; port ← ParseUint16 portHex 16; Some (dotted v, port)
  | _ => None
  end.

(** Four 32-bit words, each with its bytes in reverse order. *)
Definition swap_words (bs : list Z) : list Z :=
  (reverse (slice bs 0 4) ++ reverse (slice bs 4 8) ++ reverse (slice bs 8 12) ++ reverse (slice bs 12 16))%list.
Definition parseHexIPPort6 (s : string) : option (string * Z) :=
  match Split s ":"%char with
  | [ipHex; portHex] =>
    if negb (strlen ipHex =? 32) then None else
    bs ← hex_bytes (to_chars ipHex); port ← ParseUint16 portHex 16; Some (IPString_bytes (swap_words bs), port)
  | _ => None
  end.

Definition shouldDrop (o : Options) (srcIP dstIP : string) (srcPort dstPort : Z) : bool :=
  let ephMin := positive (o_EphemeralPortMin o) 49152 in
  if o_DropLikelyOutbound o && ((ephMin <=? dstPort) && (0 <? srcPort) && (srcPort <? ephMin)) then true else
  if bool_decide (srcPort ∈ o_DenySrcPorts o) then true else
  if bool_decide (dstPort ∈ o_DenyDstPorts o) then true else
  DropByIP srcIP dstIP (o_SkipLoopback o) (o_SkipLinkLocal o) (o_SkipPrivateToPrivate o) (o_DenyCIDRs o).

Section capture.
(** [uuid.NewString], per table and line. *)
Context (uuid : Z → nat → string).

Definition flow_extra (version : Z) (id stateHex localIP remoteIP : string) (localPort remotePort : Z) (fields : list string) : gmap string json :=
  let '(class, confidence) := stateClassAndConfidence stateHex in
  let extra : gmap string json := list_to_map [
    ("flow_id", JStr id); ("tcp_state_hex", JStr stateHex); ("tcp_state_name", JStr (stateName stateHex)); ("ip_version", JInt version);
    ("collector", JStr "proc_net_tcp"); ("signal_family", JStr "flow"); ("flow_direction", JStr "inbound_to_local");
    ("local_ip", JStr localIP); ("local_port", JInt localPort); ("remote_ip", JStr remoteIP); ("remote_port", JInt remotePort);
    ("flow_state_class", JStr class); ("flow_confidence", JInt confidence)] in
  if (9 <? length fields)%nat then
    let extra := match Atoi (field fields 7) with Some uid => <["uid" := JInt uid]> extra | None => extra end in
    match ParseUint10 (field fields 9) with Some inode => <["inode" := JInt inode]> extra | None => extra end
  else extra.

(** One line of a table; [n] is its number. *)
Definition parse_flow (c : Capturer) (ts : time) (version : Z) (n : nat) (line : string) : option NetEvent :=
  let opts := c_opts c in
  let '(parse, none, proto) := if version =? 4 then (parseHexIPPort4, "0.0.0.0", "tcp") else (parseHexIPPort6, "::", "tcp6") in
  let fields := Fields line in
  if (length fields <? 4)%nat then None else
  let stateHex := ToUpper (field fields 3) in
  if negb (bool_decide (stateHex ∈ default ∅ (o_AllowStates opts))) then None else
  '(localIP, localPort) ← parse (field fields 1);
  '(remoteIP, remotePort) ← parse (field fields 2);
  if (remotePort =? 0) || str_eqb remoteIP none then None else
  if shouldDrop opts remoteIP localIP remotePort localPort then None else
  Some {| ne_EventID := ""; ne_AgentID := c_agentID c; ne_EventType := "flow"; ne_SchemaVersion := 0; ne_Timestamp := ts;
          ne_SrcIP := remoteIP; ne_DstIP := localIP; ne_SrcPort := remotePort; ne_DstPort := localPort; ne_Proto := proto; ne_Bytes := 0;
          ne_Extra := Some (flow_extra version (uuid version n) stateHex localIP remoteIP localPort remotePort fields) |}.

(** The lines after the first non-empty one, the header. *)
Definition captureProc (c : Capturer) (ts : time) (version : Z) (t : table) : file_error + list NetEvent :=
  match open_table t with
  | inl err => inl (Wrapped err)
  | inr text =>
    let '(lines, ok) := scan_lines MaxScanTokenSize text in
    let lines := tail (List.filter (λ l, negb (is_empty l)) (map TrimSpace lines)) in
    if ok : bool then inr (omap (λ nl, parse_flow c ts version nl.1 nl.2) (imap pair lines)) else inl (Wrapped OtherError)
  end.
Definition captureProc4 (c : Capturer) (ts : time) (t : table) : file_error + list NetEvent := captureProc c ts 4 t.
Definition captureProc6 (c : Capturer) (ts : time) (t : table) : file_error + list NetEvent := captureProc c ts 6 t.

(** ** Deduplication *)

Definition stateTTL (o : Options) (stateHex : string) : duration := if str_eqb stateHex "01" then o_EstablishedTTL o else o_DedupTTL o.
Definition flow_key (ev : NetEvent) : string := Join [ne_Proto ev; ne_SrcIP ev; Itoa (ne_SrcPort ev); ne_DstIP ev; Itoa (ne_DstPort ev)] "|".
Definition flow_state (ev : NetEvent) : string := default "" (extra_string ev "tcp_state_hex").

Definition seen_lately (o : Options) (cache : gmap string dedupEntry) (now : time) (ev : NetEvent) : bool :=
  match cache !! flow_key ev with
  | Some entry => str_eqb (de_lastState entry) (flow_state ev) && (time_sub now (de_lastSent entry) <? stateTTL o (flow_state ev))
  | None => false
  end.

Fixpoint dedup_loop (o : Options) (now : time) (evs : list NetEvent) (cache : gmap string dedupEntry) (out : list NetEvent) :
    list NetEvent * gmap string dedupEntry :=
  match evs with
  | [] => (out, cache)
  | ev :: evs =>
    if o_MaxBatchSize o <=? Z.of_nat (length out) then (out, cache) else
    if seen_lately o cache now ev then dedup_loop o now evs cache out else
    dedup_loop o now evs (<[flow_key ev := {| de_lastState := flow_state ev; de_lastSent := now |}]> cache) (out ++ [ev])
  end.
Definition set_cache (c : Capturer) (cache : gmap string dedupEntry) : Capturer :=
  {| c_agentID := c_agentID c; c_opts := c_opts c; c_cache := cache; c_lastCleanup := c_lastCleanup c |}.
Definition dedupAndLimit (c : Capturer) (now : time) (evs : list NetEvent) : list NetEvent * Capturer :=
  let '(out, cache) := dedup_loop (c_opts c) now evs (c_cache c) [] in (out, set_cache c cache).

Definition cleanup (c : Capturer) (now : time) : Capturer :=
  if time_sub now (c_lastCleanup c) <? o_DedupTTL (c_opts c) then c else
  let cutoff := now + wrap64 (-2 * o_EstablishedTTL (c_opts c)) in
  {| c_agentID := c_agentID c; c_opts := c_opts c; c_cache := filter (λ kv, ¬ de_lastSent kv.2 < cutoff) (c_cache c); c_lastCleanup := now |}.

(** [Capture]: [None] is an error, which leaves the capturer as it was. *)
Definition Capture (c : Capturer) (now : time) (tcp4 tcp6 : table) : option (list NetEvent) * Capturer :=
  match captureProc4 c now tcp4 with
  | inl _ => (None, c)
  | inr ev4 =>
    let ev6 :=
      if o_IncludeIPv6 (c_opts c) then
        match captureProc6 c now tcp6 with
        | inr ev6 => Some ev6
        | inl err => if negb (IsNotExist err) then None else Some []
        end
      else Some [] in
    match ev6 with
    | None => (None, c)
    | Some ev6 => let '(out, c) := dedupAndLimit c now (ev4 ++ ev6) in (Some out, cleanup c now)
    end
  end.
End capture.

(** ** Lateral movement from the tables (proc_lateral.go) *)

Definition lateralConfidence (kind : string) (dstPort : Z) (stateHex : string) : Z :=
  let conf := if str_eqb kind "attempt" then 72 else 55 in
  let conf := if (dstPort =? 445) || (dstPort =? 3389) then conf + 8 else if (dstPort =? 5985) || (dstPort =? 5986) then conf + 6
              else if (dstPort =? 135) || (dstPort =? 139) then conf + 5 else conf in
  let conf := if str_eqb stateHex "03" then conf + 6 else conf in
  if 95 <? conf then 95 else conf.

Definition serviceForPort (p : Z) : string :=
  if p =? 445 then "smb" else if p =? 3389 then "rdp" else if p =? 5985 then "winrm" else if p =? 5986 then "winrm_tls" else
  if p =? 135 then "rpc" else if p =? 139 then "netbios_ssn" else "admin".

Definition defaultPorts : gset Z := list_to_set [445; 3389; 5985; 5986; 135; 139].

Record LateralOptions := { lo_Ports : gset Z; lo_IncludeEstablished : bool; lo_MaxBatchSize : Z }.
Record ProcLateralCapturer := { pl_inner : Capturer; pl_ports : gset Z; pl_includeEstablished : bool; pl_maxBatch : Z }.

Definition NewProcLateralCapturer (agentID : string) (procOpts : Options) (o : LateralOptions) (now : time) : ProcLateralCapturer :=
  let ports := if (size (lo_Ports o) =? 0)%nat then defaultPorts else lo_Ports o in
  let maxBatch := positive (lo_MaxBatchSize o) 500 in
  let procOpts :=
    {| o_AllowStates := Some (if lo_IncludeEstablished o then {["03"; "01"]} else {["03"]});
       o_DedupTTL := positive (o_DedupTTL procOpts) (5 * second); o_EstablishedTTL := o_EstablishedTTL procOpts;
       o_SkipLoopback := o_SkipLoopback procOpts; o_SkipLinkLocal := o_SkipLinkLocal procOpts; o_SkipPrivateToPrivate := o_SkipPrivateToPrivate procOpts;
       o_DropLikelyOutbound := o_DropLikelyOutbound procOpts; o_EphemeralPortMin := o_EphemeralPortMin procOpts; o_DenyCIDRs := o_DenyCIDRs procOpts;
       o_DenyDstPorts := o_DenyDstPorts procOpts; o_DenySrcPorts := o_DenySrcPorts procOpts;
       o_MaxBatchSize := positive (o_MaxBatchSize procOpts) (wrap64 (maxBatch * 4)); o_IncludeIPv6 := o_IncludeIPv6 procOpts |} in
  {| pl_inner := New agentID procOpts now; pl_ports := ports; pl_includeEstablished := lo_IncludeEstablished o; pl_maxBatch := maxBatch |}.

(** A flow to an administration port as a lateral connection; [None] is [continue]. *)
Definition lateral_event (c : ProcLateralCapturer) (ev : NetEvent) : option NetEvent :=
  if (ne_DstPort ev <=? 0) || negb (bool_decide (ne_DstPort ev ∈ pl_ports c)) then None else
  let state := flow_state ev in
  if str_eqb state "01" && negb (pl_includeEstablished c) then None else
  let kind := if str_eqb state "01" then "session" else "attempt" in
  let extra := <["lateral_confidence" := JInt (lateralConfidence kind (ne_DstPort ev) state)]> (<["signal_family" := JStr "lateral"]>
    (<["collector" := JStr "proc_lateral"]> (<["lateral_service" := JStr (serviceForPort (ne_DstPort ev))]> (<["lateral_kind" := JStr kind]>
    (default ∅ (ne_Extra ev)))))) in
  Some {| ne_EventID := ne_EventID ev; ne_AgentID := ne_AgentID ev; ne_EventType := "lateral_conn"; ne_SchemaVersion := ne_SchemaVersion ev;
          ne_Timestamp := ne_Timestamp ev; ne_SrcIP := ne_SrcIP ev; ne_DstIP := ne_DstIP ev; ne_SrcPort := ne_SrcPort ev; ne_DstPort := ne_DstPort ev;
          ne_Proto := ne_Proto ev; ne_Bytes := ne_Bytes ev; ne_Extra := Some extra |}.

Definition LateralCapture (uuid : Z → nat → string) (c : ProcLateralCapturer) (now : time) (tcp4 tcp6 : table) : option (list NetEvent) * ProcLateralCapturer :=
  let '(evs, inner) := Capture uuid (pl_inner c) now tcp4 tcp6 in
  (take (Z.to_nat (pl_maxBatch c)) ∘ omap (lateral_event c) <$> evs,
   {| pl_inner := inner; pl_ports := pl_ports c; pl_includeEstablished := pl_includeEstablished c; pl_maxBatch := pl_maxBatch c |}).

(** ** Lateral movement from packets (pcap_lateral.go) *)

Record PcapLateralOptions := {
  po_Interface : string; po_SnapLen : Z; po_Promisc : bool; po_ReadTimeout : duration; po_DedupTTL : duration; po_MaxBatchSize : Z;
  po_SkipLoopback : bool; po_SkipLinkLocal : bool; po_DenyCIDRs : list ipnet; po_Ports : gset Z }.
Definition applyPcapLateralDefaults (o : PcapLateralOptions) : PcapLateralOptions :=
  {| po_Interface := po_Interface o; po_SnapLen := positive (po_SnapLen o) 96; po_Promisc := po_Promisc o;
     po_ReadTimeout := positive (po_ReadTimeout o) (500 * millisecond); po_DedupTTL := positive (po_DedupTTL o) (2 * second);
     po_MaxBatchSize := positive (po_MaxBatchSize o) 2000; po_SkipLoopback := po_SkipLoopback o; po_SkipLinkLocal := po_SkipLinkLocal o;
     po_DenyCIDRs := po_DenyCIDRs o; po_Ports := po_Ports o |}.

Record PcapLateralCapturer := { pc_agentID : string; pc_opts : PcapLateralOptions; pc_netCtx : NetworkContext; pc_buffer : Buffer }.
Definition NewPcapLateralCapturer (agentID : string) (opts : PcapLateralOptions) (collected : option NetworkContext) (now : time) : option PcapLateralCapturer :=
  let opts := applyPcapLateralDefaults opts in
  if (size (po_Ports opts) =? 0)%nat then None else
  nc ← collected;
  if (size (nc_LocalIPs nc) =? 0)%nat then None else
  Some {| pc_agentID := agentID; pc_opts := opts; pc_netCtx := nc; pc_buffer := NewBuffer (po_DedupTTL opts) (po_MaxBatchSize opts) now |}.

Definition buildBPF (o : PcapLateralOptions) : string :=
  "tcp and (" +:+ Join (map (λ p, "dst port " +:+ Itoa p) (merge_sort Z.le (elements (po_Ports o)))) " or " +:+
  ") and (tcp[tcpflags] & (tcp-syn|tcp-ack) == tcp-syn)".

Definition packet_confidence (synOnly : bool) (dstPort : Z) : Z :=
  let conf := if synOnly then 78 else 62 in
  let conf := if (dstPort =? 445) || (dstPort =? 3389) then conf + 10 else if (dstPort =? 5985) || (dstPort =? 5986) then conf + 8
              else if (dstPort =? 135) || (dstPort =? 139) then conf + 6 else conf in
  if 95 <? conf then 95 else conf.

Definition lateral_packet (c : PcapLateralCapturer) (pkt : packet) (iface : string) : option NetEvent :=
  let opts := pc_opts c in
  '(srcIP, dstIP, version) ← match pk_ip4 pkt with
    | Some (s, d) => Some (IPString s, IPString d, 4)
    | None => match pk_ip6 pkt with Some (s, d) => Some (IPString s, IPString d, 6) | None => None end end;
  if negb (is_local (pc_netCtx c) dstIP) then None else
  if DropByIP srcIP dstIP (po_SkipLoopback opts) (po_SkipLinkLocal opts) false (po_DenyCIDRs opts) then None else
  tcp ← pk_tcp pkt;
  let dstPort := tcp_DstPort tcp in
  if (dstPort <=? 0) || negb (bool_decide (dstPort ∈ po_Ports opts)) then None else
  let synOnly := tcp_SYN tcp && negb (tcp_ACK tcp) in
  Some {| ne_EventID := ""; ne_AgentID := pc_agentID c; ne_EventType := "lateral_conn"; ne_SchemaVersion := 0; ne_Timestamp := pk_ts pkt;
          ne_SrcIP := srcIP; ne_DstIP := dstIP; ne_SrcPort := tcp_SrcPort tcp; ne_DstPort := dstPort; ne_Proto := "tcp"; ne_Bytes := pk_len pkt;
          ne_Extra := Some (list_to_map [
            ("lateral_kind", JStr "attempt"); ("iface", JStr iface); ("ip_version", JInt version); ("tcp_flags", JStr (TCPFlags tcp));
            ("collector", JStr "pcap_lateral"); ("signal_family", JStr "lateral"); ("syn_only", JBool synOnly);
            ("lateral_confidence", JInt (packet_confidence synOnly dstPort))]) |}.

Definition lateral_key (ev : NetEvent) : string := Join [ne_Proto ev; ne_SrcIP ev; ne_DstIP ev; Itoa (ne_DstPort ev)] "|".
Definition lateral_push (c : PcapLateralCapturer) (now : time) (ev : NetEvent) : PcapLateralCapturer :=
  let extra := EnrichEndpoints (pc_netCtx c) (default ∅ (ne_Extra ev)) (ne_SrcIP ev) (ne_DstIP ev) in
  let ev := {| ne_EventID := ne_EventID ev; ne_AgentID := ne_AgentID ev; ne_EventType := ne_EventType ev; ne_SchemaVersion := ne_SchemaVersion ev;
               ne_Timestamp := ne_Timestamp ev; ne_SrcIP := ne_SrcIP ev; ne_DstIP := ne_DstIP ev; ne_SrcPort := ne_SrcPort ev;
               ne_DstPort := ne_DstPort ev; ne_Proto := ne_Proto ev; ne_Bytes := ne_Bytes ev; ne_Extra := Some extra |} in
  {| pc_agentID := pc_agentID c; pc_opts := pc_opts c; pc_netCtx := pc_netCtx c; pc_buffer := (Push (pc_buffer c) now (lateral_key ev) ev).2 |}.
Definition lateral_drain (c : PcapLateralCapturer) : list NetEvent * PcapLateralCapturer :=
  let '(out, b) := Drain (pc_buffer c) in
  (out, {| pc_agentID := pc_agentID c; pc_opts := pc_opts c; pc_netCtx := pc_netCtx c; pc_buffer := b |}).

(** ** Proofs *)

(** A host without IPv6 has no tcp6 table.  The test for it sees a wrapped error, so a
    collector that includes IPv6 fails altogether, its IPv4 flows included. *)
Theorem missing_tcp6_fails uuid c now tcp4 : o_IncludeIPv6 (c_opts c) = true → Capture uuid c now tcp4 Missing = (None, c).
Proof. intros H6. unfold Capture. destruct (captureProc4 uuid c now tcp4); [done|]. by rewrite H6. Qed.

(** *** Deduplication against a memory without cleanup *)

(** A capture of given events, with and without [cleanup]. *)
Definition round (c : Capturer) (now : time) (evs : list NetEvent) : list NetEvent * Capturer :=
  let '(out, c) := dedupAndLimit c now evs in (out, cleanup c now).
Fixpoint rounds (c : Capturer) (ins : list (time * list NetEvent)) : list (list NetEvent) :=
  match ins with [] => [] | (now, evs) :: ins => let '(out, c) := round c now evs in out :: rounds c ins end.
Fixpoint rounds_remembering (o : Options) (memory : gmap string dedupEntry) (ins : list (time * list NetEvent)) : list (list NetEvent) :=
  match ins with
  | [] => []
  | (now, evs) :: ins => let '(out, memory) := dedup_loop o now evs memory [] in out :: rounds_remembering o memory ins
  end.
Fixpoint clock_ok (t : time) (ins : list (time * list NetEvent)) : Prop :=
  match ins with [] => True | (now, _) :: ins => t <= now ∧ clock_ok now ins end.

Section dedup.
Context (o : Options).
Context (He : 0 < o_EstablishedTTL o < 2 ^ 61) (Hd : 0 < o_DedupTTL o <= 2 * o_EstablishedTTL o).

(** The cache is the memory, but for entries too old to matter. *)
Definition mirrors (now : time) (cache memory : gmap string dedupEntry) : Prop := ∀ k,
  match memory !! k with
  | None => cache !! k = None
  | Some e => de_lastSent e <= now ∧ (cache !! k = Some e ∨ (cache !! k = None ∧ 2 * o_EstablishedTTL o <= now - de_lastSent e))
  end.

Lemma ttl_bound st : 0 < stateTTL o st <= 2 * o_EstablishedTTL o.
Proof using He Hd. unfold stateTTL. case_match; lia. Qed.

Lemma mirrors_later now now' cache memory : now <= now' → mirrors now cache memory → mirrors now' cache memory.
Proof. intros Hle H k. specialize (H k). destruct (memory !! k); [|done]. destruct H as [? [?|[? ?]]]; split; try lia; [by left|right; split; [done|lia]]. Qed.

Lemma mirrors_seen now cache memory ev : mirrors now cache memory → seen_lately o cache now ev = seen_lately o memory now ev.
Proof using He Hd.
  intros H. specialize (H (flow_key ev)). unfold seen_lately. destruct (memory !! flow_key ev) as [e|]; [|by rewrite H].
  destruct H as [Hle [->|[-> Hold]]]; [done|]. pose proof (ttl_bound (flow_state ev)) as Ht.
  rewrite time_sub_ttl by (unfold max_int64; lia). destruct (now - de_lastSent e <? _) eqn:E; zbool; [lia|]. by rewrite andb_false_r.
Qed.

Lemma mirrors_loop now evs cache memory out : mirrors now cache memory →
  (dedup_loop o now evs cache out).1 = (dedup_loop o now evs memory out).1 ∧
  mirrors now (dedup_loop o now evs cache out).2 (dedup_loop o now evs memory out).2.
Proof using He Hd.
  revert cache memory out. induction evs as [|ev evs IH]; intros cache memory out H; [done|]. cbn [dedup_loop].
  destruct (_ <=? _); [done|]. rewrite (mirrors_seen now cache memory ev H). destruct (seen_lately o memory now ev); [by apply IH|].
  apply IH. intros k. specialize (H k). destruct (decide (k = flow_key ev)) as [->|Hne].
  - rewrite !lookup_insert_eq. cbn. split; [lia|by left].
  - by rewrite !lookup_insert_ne.
Qed.

Lemma mirrors_cleanup now c memory : c_opts c = o → mirrors now (c_cache c) memory → mirrors now (c_cache (cleanup c now)) memory.
Proof using He Hd.
  intros Ho H. unfold cleanup. rewrite Ho. destruct (_ <? _); [done|]. cbn.
  assert (Hw : wrap64 (-2 * o_EstablishedTTL o) = -2 * o_EstablishedTTL o) by (unfold wrap64; rewrite Z.mod_small; lia). rewrite Hw.
  intros k. specialize (H k). destruct (memory !! k) as [e|].
  - destruct H as [Hle [Hk|[Hk Hold]]]; (split; [done|]).
    + destruct (decide (de_lastSent e < now + -2 * o_EstablishedTTL o)).
      * right. split; [|lia]. apply map_lookup_filter_None. right. intros e' He'. simplify_eq. cbn. auto.
      * left. by apply map_lookup_filter_Some.
    + right. split; [|done]. apply map_lookup_filter_None. by left.
  - apply map_lookup_filter_None. by left.
Qed.

Lemma rounds_mirror ins : ∀ c memory now, c_opts c = o → mirrors now (c_cache c) memory → clock_ok now ins → rounds c ins = rounds_remembering o memory ins.
Proof using He Hd.
  induction ins as [|[now' evs] ins IH]; intros c memory now Ho Hm Hc; [done|]. destruct Hc as [Hle Hc]. cbn [rounds rounds_remembering].
  unfold round, dedupAndLimit. rewrite Ho. pose proof (mirrors_loop now' evs (c_cache c) memory [] (mirrors_later _ _ _ _ Hle Hm)) as [H1 H2].
  destruct (dedup_loop o now' evs (c_cache c) []) as [out cache]. destruct (dedup_loop o now' evs memory []) as [out' memory']. cbn in H1, H2. subst out'.
  f_equal. apply (IH _ _ now'); [|by apply mirrors_cleanup|done]. unfold cleanup. by case_match.
Qed.
End dedup.

(** Deduplication of flows (proc.go).  As long as the time for a state is at most
    twice that of established connections, forgetting old entries never shows: the
    batches are those of a collector that remembers every connection, so one is
    reported again exactly when its state changed or its period elapsed, batches
    permitting. *)
Theorem flow_dedup_exact agentID o start ins :
  o_EstablishedTTL o < 2 ^ 61 → o_DedupTTL (applyDefaults o) <= 2 * o_EstablishedTTL (applyDefaults o) → clock_ok start ins →
  rounds (New agentID o start) ins = rounds_remembering (applyDefaults o) ∅ ins.
Proof.
  intros He Hd Hc. apply (rounds_mirror (applyDefaults o)) with (now := start); [|split|done| |done].
  - cbn. unfold positive, minute, second. case_match; zbool; lia.
  - cbn. unfold positive, second. case_match; zbool; lia.
  - done.
  - intros k. by rewrite lookup_empty.
Qed.

Definition flow (state : string) : NetEvent :=
  {| ne_EventID := ""; ne_AgentID := "agent"; ne_EventType := "flow"; ne_SchemaVersion := 0; ne_Timestamp := 0; ne_SrcIP := "8.8.8.8"; ne_DstIP := "10.0.0.1";
     ne_SrcPort := 50000; ne_DstPort := 22; ne_Proto := "tcp"; ne_Bytes := 0; ne_Extra := Some {["tcp_state_hex" := JStr state]} |}.
Definition flow_options : Options :=
  {| o_AllowStates := None; o_DedupTTL := 10; o_EstablishedTTL := 20; o_SkipLoopback := false; o_SkipLinkLocal := false; o_SkipPrivateToPrivate := false;
     o_DropLikelyOutbound := false; o_EphemeralPortMin := 0; o_DenyCIDRs := []; o_DenyDstPorts := ∅; o_DenySrcPorts := ∅; o_MaxBatchSize := 0; o_IncludeIPv6 := true |}.

Lemma flow_dedup_exact_witness :
  let ins := [(100, [flow "03"]); (105, [flow "03"]); (106, [flow "01"]); (130, [flow "01"; flow "01"])] in
  rounds (New "agent" flow_options 100) ins = [[flow "03"]; []; [flow "01"]; [flow "01"]].
Proof.
  cbn zeta. rewrite (flow_dedup_exact "agent" flow_options 100 [(100, [flow "03"]); (105, [flow "03"]); (106, [flow "01"]); (130, [flow "01"; flow "01"])]).
  - vm_compute. reflexivity.
  - vm_compute. reflexivity.
  - vm_compute. discriminate.
  - cbn. lia.
Defined.
