(* ===== verification/Regex.v ===== *)
(** * Regex: the regular expressions of package regexp the agent uses

    An expression is matched leftmost-first, as Go's [regexp] does: at the first
    position where it matches at all, preferring the first alternative and the
    longest repetition.  The text is a sequence of runes in UTF-8; a byte that is
    not part of a valid rune counts as one.  A class is a predicate on the bytes
    of a rune. *)

From S2P Require Import Prelude GoStr GoText.
From Stdlib Require Import Ascii NArith.

Local Open Scope Z_scope.
Local Open Scope go_scope.

(** ** Runes *)

(** The rune in front and the rest. *)
Definition next_rune (l : list ascii) : option (list ascii * list ascii) :=
  match l with
  | [] => None
  | _ => let w := Nat.max 1 (rune_width l) in Some (take w l, drop w l)
  end.

(** A position: the byte before it and the text after it. *)
Definition pos : Type := option ascii * list ascii.
Definition advance (s : pos) : option (list ascii * pos) :=
  match next_rune s.2 with Some (r, l) => Some (r, (last r, l)) | None => None end.

(** ** Expressions *)

Inductive re :=
  | Eps
  | Cls (p : list ascii → bool)
  | Rep (lo : nat) (hi : option nat) (p : list ascii → bool)  (** [p{lo,hi}] *)
  | Seq (r1 r2 : re)
  | Alt (r1 r2 : re)
  | Group (n : nat) (r : re)
  | Word                                                      (** [\b] *)
  | Fin.                                                      (** [$] *)

Definition caps : Type := gmap nat string.

Definition word_byte (a : ascii) : bool := is_lower a || is_upper a || is_digit a || N.eqb (code a) 95.
Definition at_word (s : pos) : bool :=
  negb (Bool.eqb (match s.1 with Some a => word_byte a | None => false end)
                 (match s.2 with a :: _ => word_byte a | [] => false end)).

Section run.
Context (k : caps → pos → option caps).

(** At most [n] more runes of a repetition, at least [lo]. *)
Fixpoint rep (p : list ascii → bool) (lo n : nat) (c : caps) (s : pos) : option caps :=
  let stop := if (lo =? 0)%nat then k c s else None in
  match n with
  | O => stop
  | S n =>
    match advance s with
    | Some (r, s') => if p r then match rep p (pred lo) n c s' with Some c' => Some c' | None => stop end else stop
    | None => stop
    end
  end.
End run.

(** The text between two positions. *)
Definition between (s s' : pos) : string := of_chars (take (length s.2 - length s'.2) s.2).

Fixpoint run (r : re) (c : caps) (s : pos) (k : caps → pos → option caps) : option caps :=
  match r with
  | Eps => k c s
  | Cls p => match advance s with Some (r, s') => if p r then k c s' else None | None => None end
  | Rep lo hi p => rep k p lo (match hi with Some n => n | None => length s.2 end) c s
  | Seq r1 r2 => run r1 c s (λ c s, run r2 c s k)
  | Alt r1 r2 => match run r1 c s k with Some c' => Some c' | None => run r2 c s k end
  | Group n r => run r c s (λ c' s', k (<[n := between s s']> c') s')
  | Word => if at_word s then k c s else None
  | Fin => match s.2 with [] => k c s | _ => None end
  end.

(** [FindStringSubmatch]: the first match, without its group 0. *)
Fixpoint find_from (fuel : nat) (r : re) (s : pos) : option caps :=
  match run r ∅ s (λ c _, Some c) with
  | Some c => Some c
  | None =>
    match fuel with
    | O => None
    | S fuel => match advance s with Some (_, s') => find_from fuel r s' | None => None end
    end
  end.
Definition FindStringSubmatch (r : re) (s : string) : option caps := find_from (length (to_chars s)) r (None, to_chars s).
Definition MatchString (r : re) (s : string) : bool := match FindStringSubmatch r s with Some _ => true | None => false end.

Definition group (c : caps) (n : nat) : string := default EmptyString (c !! n).

(** ** Building blocks *)

Definition byte_class (p : ascii → bool) (r : list ascii) : bool := match r with [a] => p a | _ => false end.
Definition not_byte (p : ascii → bool) (r : list ascii) : bool := negb (byte_class p r).
Definition chr (a : ascii) : re := Cls (byte_class (Ascii.eqb a)).
Fixpoint lit_chars (l : list ascii) : re := match l with [] => Eps | [a] => chr a | a :: l => Seq (chr a) (lit_chars l) end.
Definition lit (s : string) : re := lit_chars (to_chars s).
Definition plus (p : list ascii → bool) : re := Rep 1 None p.
Definition star (p : list ascii → bool) : re := Rep 0 None p.
Definition opt (r : re) : re := Alt r Eps.
Fixpoint seq (l : list re) : re := match l with [] => Eps | [r] => r | r :: l => Seq r (seq l) end.
Fixpoint alts (l : list re) : re := match l with [] => Eps | [r] => r | r :: l => Alt r (alts l) end.

(** [\s] of regexp: tab, newline, form feed, carriage return, space. *)
Definition re_space (a : ascii) : bool := N.eqb (code a) 9 || N.eqb (code a) 10 || N.eqb (code a) 12 || N.eqb (code a) 13 || N.eqb (code a) 32.
Definition not_newline (a : ascii) : bool := N.eqb (code a) 10.
Definition space_ := byte_class re_space.
Definition nonspace := not_byte re_space.
Definition digit_ := byte_class is_digit.
Definition dot := not_byte not_newline.

(** [(?i)] on ASCII letters: the runes U+017F and U+212A fold to [s] and [k]. *)
Definition fold_eq (a : ascii) (r : list ascii) : bool :=
  byte_class (λ b, Ascii.eqb (lower1 b) a) r
  || (Ascii.eqb a "s" && match r with [b; c] => rune_017F b c | _ => false end)
  || (Ascii.eqb a "k" && match r with [b; c; d] => rune_212A b c d | _ => false end).
Definition ilit (s : string) : re := seq (map (λ a, Cls (fold_eq a)) (to_chars s)).

(** ** Matching texts of known shape *)

Definition is_ascii (a : ascii) : Prop := (code a < 128)%N.
#[export] Instance is_ascii_dec a : Decision (is_ascii a).
Proof. unfold is_ascii. apply _. Defined.

Definition end_of (prev : option ascii) (l : list ascii) : option ascii := match last l with Some a => Some a | None => prev end.

Lemma advance_ascii prev a l : is_ascii a → advance (prev, a :: l) = Some ([a], (Some a, l)).
Proof. intros Ha. unfold advance, next_rune. cbn. rewrite (proj2 (N.ltb_lt _ _) Ha). by destruct l. Qed.

Lemma end_of_cons prev a l : end_of (Some a) l = end_of prev (a :: l).
Proof. unfold end_of. destruct l as [|b l]; [done|]. rewrite last_cons_cons. by destruct (last (b :: l)) eqn:E; [|by apply last_None in E]. Qed.

Lemma run_chr a c prev l k : is_ascii a → run (chr a) c (prev, a :: l) k = k c (Some a, l).
Proof. intros Ha. unfold chr. cbn [run]. rewrite advance_ascii by done. cbn. by rewrite Ascii.eqb_refl. Qed.

Lemma run_chr_other a b c prev l k : is_ascii b → a ≠ b → run (chr a) c (prev, b :: l) k = None.
Proof. intros Hb Hne. unfold chr. cbn [run]. rewrite advance_ascii by done. cbn. destruct (Ascii.eqb_spec a b); [done|done]. Qed.

Lemma run_lit w c prev l k : Forall is_ascii w → run (lit_chars w) c (prev, w ++ l) k = k c (end_of prev w, l).
Proof.
  intros Hw. revert c prev k. induction Hw as [|a w Ha Hw IH]; intros c prev k; [done|]. destruct w as [|b w].
  - cbn [lit_chars app]. by rewrite run_chr.
  - change (lit_chars (a :: b :: w)) with (Seq (chr a) (lit_chars (b :: w))). cbn [run]. change ((a :: b :: w) ++ l) with (a :: ((b :: w) ++ l)).
    rewrite run_chr by done. by rewrite IH, (end_of_cons prev).
Qed.

(** A repetition that takes the whole of [w], provided that what follows accepts. *)
Definition stops (p : list ascii → bool) (l : list ascii) : Prop := match l with [] => True | a :: _ => is_ascii a ∧ p [a] = false end.

Lemma rep_takes p w : ∀ k lo n c prev l x, Forall (λ a, is_ascii a ∧ p [a] = true) w → (lo <= length w <= n)%nat → stops p l →
  k c (end_of prev w, l) = Some x → rep k p lo n c (prev, w ++ l) = Some x.
Proof.
  induction w as [|a w IH]; intros k lo n c prev l x Hw Hn Hl Hk.
  - cbn in Hn. assert (lo = 0)%nat as -> by lia. cbn [app]. destruct n as [|n]; [exact Hk|]. destruct l as [|b l]; [exact Hk|].
    destruct Hl as [Hb Hp]. cbn [rep]. rewrite advance_ascii, Hp by done. exact Hk.
  - apply Forall_cons in Hw as [[Ha Hp] Hw]. destruct n as [|n]; [cbn in Hn; lia|]. cbn [rep app]. rewrite advance_ascii, Hp by done.
    rewrite (IH k (pred lo) n c (Some a) l x); [done|done|cbn in Hn; lia|done|]. by rewrite (end_of_cons prev).
Qed.

Lemma run_plus p w k c prev l x : Forall (λ a, is_ascii a ∧ p [a] = true) w → w ≠ [] → stops p l →
  k c (end_of prev w, l) = Some x → run (plus p) c (prev, w ++ l) k = Some x.
Proof.
  intros Hw Hne Hl Hk. apply rep_takes; try done. cbn. rewrite length_app. destruct w; [done|]. cbn. lia.
Qed.

Lemma between_app prev prev' w l : between (prev, w ++ l) (prev', l) = of_chars w.
Proof. unfold between. cbn. rewrite length_app, Nat.add_sub. by rewrite take_app_length. Qed.

(** The search skips a prefix at none of whose positions the expression matches. *)
Lemma find_skips r w : ∀ fuel prev l x, Forall is_ascii w → (length w <= fuel)%nat →
  (∀ w1 w2 prev, w = w1 ++ w2 → w2 ≠ [] → run r ∅ (prev, w2 ++ l) (λ c _, Some c) = None) →
  (∀ prev, run r ∅ (prev, l) (λ c _, Some c) = Some x) → find_from fuel r (prev, w ++ l) = Some x.
Proof.
  induction w as [|a w IH]; intros fuel prev l x Hw Hf Hno Hyes; [destruct fuel; cbn [find_from app]; by rewrite Hyes|].
  apply Forall_cons in Hw as [Ha Hw]. destruct fuel as [|fuel]; [cbn in Hf; lia|]. cbn [find_from].
  rewrite (Hno [] (a :: w) prev) by done. cbn [app]. rewrite advance_ascii by done. apply IH; [done|cbn in Hf; lia| |done].
  intros w1 w2 prev' -> Hne. by apply (Hno (a :: w1) w2 prev').
Qed.
