(* ===== verification/AuthLog.v ===== *)
(** * AuthLog: SSH and sudo events from the authentication log
      (internal/collectors/ssh/authlog.go)

    A capture reads the complete lines after the offset, turns those it
    recognises into events, and keeps the state before it until the events are
    committed or rolled back; a commit also writes a checkpoint, from which the
    next start of the agent resumes.  The log is a file another program
    writes: its identity and content are fixed during a capture.  Every
    operating-system call may fail or be the point where the process is killed
    (module Effects).  Parameters: the JSON encoder and scanner, and
    [uuid.NewSHA1].  The world carries two ghosts, the lines read by the
    capture in progress and the lines whose capture was committed. *)

From stdpp Require Import pretty.
From S2P Require Import Prelude GoStr GoText GoJson Effects FileUtil Net GoIP Event Netctx Regex.
From Stdlib Require Import Ascii.

Local Open Scope Z_scope.
Local Open Scope go_scope.

(** ** Patterns *)

Definition not_semicolon := not_byte (λ a, Ascii.eqb a ";").

Definition reFailed : re := seq
  [lit "Failed password for "; opt (Group 1 (lit "invalid user ")); Group 2 (plus nonspace); lit " from "; Group 3 (plus nonspace);
   lit " port "; Group 4 (plus digit_)].
Definition reInvalid : re := seq
  [lit "Invalid user "; Group 1 (plus nonspace); lit " from "; Group 2 (plus nonspace); lit " port "; Group 3 (plus digit_)].
Definition reAccepted : re := seq
  [lit "Accepted "; plus nonspace; lit " for "; Group 1 (plus nonspace); lit " from "; Group 2 (plus nonspace); lit " port "; Group 3 (plus digit_)].
Definition sudo_field (name : string) (n : nat) : re := seq [star space_; lit ";"; star space_; lit name; Group n (plus not_semicolon)].
Definition reSudoCmd : re := seq
  [lit "sudo:"; plus space_; Group 1 (plus nonspace); star space_; lit ":"; plus space_; lit "TTY="; Group 2 (plus not_semicolon);
   sudo_field "PWD=" 3; sudo_field "USER=" 4; star space_; lit ";"; star space_; lit "COMMAND="; Group 5 (plus dot); Fin].

(** ** State *)

Record AuthLogOptions := {
  o_Path : string; o_CheckpointPath : string; o_MaxBatchSize : Z; o_DedupTTL : duration; o_IncludeAccepted : bool }.

Record dedupKey := { dk_srcIP : string; dk_user : string; dk_action : string }.
#[export] Instance dedupKey_eq_dec : EqDecision dedupKey.
Proof. solve_decision. Defined.
#[export] Instance dedupKey_countable : Countable dedupKey.
Proof.
  refine (inj_countable' (λ k, (dk_srcIP k, dk_user k, dk_action k)) (λ '(a, b, c), {| dk_srcIP := a; dk_user := b; dk_action := c |}) _).
  by intros [].
Defined.
Definition no_key : dedupKey := {| dk_srcIP := ""; dk_user := ""; dk_action := "" |}.

(** When a key was last seen ([logDedupEntry]). *)
Abbreviation dedup_cache := (gmap dedupKey time).

Record authLogCheckpoint := {
  cp_Version : Z; cp_AgentID : string; cp_Path : string; cp_Device : Z; cp_Inode : Z; cp_Offset : Z }.

Record authLogCaptureState := { st_offset : Z; st_lastDevice : Z; st_lastInode : Z; st_cache : dedup_cache }.

Record AuthLogCapturer := {
  c_agentID : string; c_opts : AuthLogOptions; c_hostIP : string; c_state : authLogCaptureState;
  c_pending : option authLogCaptureState; c_loadErr : option string }.

Definition set_state (s : authLogCaptureState) (c : AuthLogCapturer) : AuthLogCapturer :=
  {| c_agentID := c_agentID c; c_opts := c_opts c; c_hostIP := c_hostIP c; c_state := s; c_pending := c_pending c; c_loadErr := c_loadErr c |}.
Definition set_pending (p : option authLogCaptureState) (c : AuthLogCapturer) : AuthLogCapturer :=
  {| c_agentID := c_agentID c; c_opts := c_opts c; c_hostIP := c_hostIP c; c_state := c_state c; c_pending := p; c_loadErr := c_loadErr c |}.
Definition set_offset (o : Z) (s : authLogCaptureState) : authLogCaptureState :=
  {| st_offset := o; st_lastDevice := st_lastDevice s; st_lastInode := st_lastInode s; st_cache := st_cache s |}.
Definition set_identity (device inode : Z) (s : authLogCaptureState) : authLogCaptureState :=
  {| st_offset := st_offset s; st_lastDevice := device; st_lastInode := inode; st_cache := st_cache s |}.
Definition set_cache (m : dedup_cache) (s : authLogCaptureState) : authLogCaptureState :=
  {| st_offset := st_offset s; st_lastDevice := st_lastDevice s; st_lastInode := st_lastInode s; st_cache := m |}.

(** ** Recognising a line *)

Definition normalizeIP (s : string) : string := match ParseIP s with None => s | Some ip => IP_String ip end.
Definition splitRemoteEndpoint (s : string) : string * string :=
  let remote := TrimSpace s in
  if is_empty remote then (EmptyString, EmptyString) else
  match ParseIP remote with None => (EmptyString, remote) | Some ip => (IP_String ip, EmptyString) end.

(** [strconv.Atoi] with the error ignored: a number out of range saturates. *)
Definition toInt (s : string) : Z :=
  let s := TrimSpace s in
  match Atoi s with
  | Some n => n
  | None =>
    match parse_dec 0 (to_chars (TrimPrefix (TrimPrefix s "+") "-")) with
    | Some n => if is_empty (TrimPrefix (TrimPrefix s "+") "-") then 0 else if HasPrefix s "-" then min_int64 else max_int64
    | None => 0
    end
  end.

Definition newSSHEndpointEvent (c : AuthLogCapturer) (now : time) (remote : string) (dstPort : Z) (extra : gmap string json) : NetEvent :=
  let extra := <["source" := JStr "auth.log"]> extra in
  let '(srcIP, srcHost) := splitRemoteEndpoint remote in
  let extra := if is_empty srcHost then extra else <["src_host" := JStr srcHost]> extra in
  {| ne_EventID := ""; ne_AgentID := c_agentID c; ne_EventType := "ssh_auth"; ne_SchemaVersion := 0; ne_Timestamp := now;
     ne_SrcIP := srcIP; ne_DstIP := c_hostIP c; ne_SrcPort := 0; ne_DstPort := dstPort; ne_Proto := "ssh"; ne_Bytes := 0; ne_Extra := Some extra |}.

(** The event and key of an SSH message. *)
Definition ssh_event (c : AuthLogCapturer) (now : time) (action user remote port msg : string) : NetEvent * dedupKey :=
  let ip := normalizeIP remote in
  (newSSHEndpointEvent c now ip 22 (list_to_map [("ssh_pid", JInt 0); ("action", JStr action); ("username", JStr user);
     ("src_port", JInt (toInt port)); ("raw_message", JStr msg)]),
   {| dk_srcIP := ip; dk_user := user; dk_action := action |}).

Definition sudo_event (c : AuthLogCapturer) (now : time) (mm : caps) (msg : string) : NetEvent :=
  let field n := JStr (TrimSpace (group mm n)) in
  {| ne_EventID := ""; ne_AgentID := c_agentID c; ne_EventType := "sudo_cmd"; ne_SchemaVersion := 0; ne_Timestamp := now;
     ne_SrcIP := c_hostIP c; ne_DstIP := c_hostIP c; ne_SrcPort := 0; ne_DstPort := 0; ne_Proto := "sudo"; ne_Bytes := 0;
     ne_Extra := Some (list_to_map [("source", JStr "auth.log"); ("action", JStr "sudo"); ("username", field 1%nat); ("target_user", field 4%nat);
       ("tty", field 2%nat); ("pwd", field 3%nat); ("command", field 5%nat); ("raw_message", JStr msg)]) |}.

Definition parseLine (c : AuthLogCapturer) (now : time) (line : string) : option (NetEvent * dedupKey) :=
  let msg := TrimSpace line in
  if is_empty msg then None else
  match FindStringSubmatch reSudoCmd msg with
  | Some mm => Some (sudo_event c now mm msg, no_key)
  | None =>
  match FindStringSubmatch reFailed msg with
  | Some mm => Some (ssh_event c now "failed_password" (group mm 2) (group mm 3) (group mm 4) msg)
  | None =>
  match FindStringSubmatch reInvalid msg with
  | Some mm => Some (ssh_event c now "invalid_user" (group mm 1) (group mm 2) (group mm 3) msg)
  | None =>
    if o_IncludeAccepted (c_opts c) then
      match FindStringSubmatch reAccepted msg with
      | Some mm => Some (ssh_event c now "accepted" (group mm 1) (group mm 2) (group mm 3) msg)
      | None => None
      end
    else None
  end end end.

(** ** Deduplication *)

Definition isDeduped (o : AuthLogOptions) (now : time) (key : dedupKey) (m : dedup_cache) : bool * dedup_cache :=
  if is_empty (dk_srcIP key) then (false, m) else
  match m !! key with
  | Some lastSeen => (time_sub now lastSeen <=? o_DedupTTL o, <[key := now]> m)
  | None => (false, <[key := now]> m)
  end.

Definition pruneDedup (o : AuthLogOptions) (now : time) (m : dedup_cache) : dedup_cache :=
  filter (λ kv, ¬ time_sub now kv.2 > wrap64 (2 * o_DedupTTL o)) m.

(** ** The world *)

Record logfile := { lg_device : Z; lg_inode : Z; lg_data : string }.

Record aworld := {
  aw_files : files; aw_logs : gmap string logfile; aw_cap : AuthLogCapturer;
  aw_read : list (Z * string);    (** ghost: the lines of the capture in progress, with their offsets *)
  aw_done : list (Z * string) }.  (** ghost: the lines of committed captures *)

Definition AM : Type → Type := M aworld string.

Definition set_files (fs : files) (w : aworld) : aworld :=
  {| aw_files := fs; aw_logs := aw_logs w; aw_cap := aw_cap w; aw_read := aw_read w; aw_done := aw_done w |}.
Definition set_cap (c : AuthLogCapturer) (w : aworld) : aworld :=
  {| aw_files := aw_files w; aw_logs := aw_logs w; aw_cap := c; aw_read := aw_read w; aw_done := aw_done w |}.
Definition set_read (r : list (Z * string)) (w : aworld) : aworld :=
  {| aw_files := aw_files w; aw_logs := aw_logs w; aw_cap := aw_cap w; aw_read := r; aw_done := aw_done w |}.
Definition set_done (d : list (Z * string)) (w : aworld) : aworld :=
  {| aw_files := aw_files w; aw_logs := aw_logs w; aw_cap := aw_cap w; aw_read := aw_read w; aw_done := d |}.
Definition on_cap (f : AuthLogCapturer → AuthLogCapturer) (w : aworld) : aworld := set_cap (f (aw_cap w)) w.
Definition onFiles {A} (m : FM A) : AM A := zoom aw_files set_files m.

(** [rollback]; the lines read are forgotten. *)
Definition rollback_cap (c : AuthLogCapturer) : AuthLogCapturer :=
  match c_pending c with Some s => set_pending None (set_state s c) | None => c end.
Definition rollback : AM unit := modify (λ w, set_read [] (on_cap rollback_cap w)).
Definition Rollback : AM unit := rollback.

(** ** Lines *)

(** The lines of a text, each with its newline; an incomplete last line is not one. *)
Fixpoint complete_lines (l : list ascii) : list (list ascii) :=
  match l with
  | [] => []
  | a :: l => if Ascii.eqb a newline then [a] :: complete_lines l else match complete_lines l with [] => [] | w :: ws => (a :: w) :: ws end
  end.

Section capture.
Context (suffix : files → string → string).
(** [json.Marshal] of a checkpoint and the scanner of [json.Unmarshal]. *)
Context (marshal : authLogCheckpoint → option string) (parse : string → option json).
(** [uuid.NewSHA1(uuid.NameSpaceOID, data).String()] *)
Context (sha1_uuid : string → string).

Definition nul : string := String (ascii_of_nat 0) EmptyString.
Definition eventID (c : AuthLogCapturer) (offset : Z) (line : string) : string :=
  sha1_uuid (Join [TrimSpace (c_agentID c); Clean (o_Path (c_opts c)); Itoa (st_lastDevice (c_state c)); Itoa (st_lastInode (c_state c));
                   Itoa offset; line] nul).

(** One turn of the loop of [Capture]: the state after the line and its event, if any. *)
Definition take_line (now : time) (line : string) (c : AuthLogCapturer) : option NetEvent * AuthLogCapturer :=
  let lineOffset := st_offset (c_state c) in
  let c := set_state (set_offset (lineOffset + strlen line) (c_state c)) c in
  match parseLine c now line with
  | None => (None, c)
  | Some (ev, key) =>
    let '(dup, cache) := isDeduped (c_opts c) now key (st_cache (c_state c)) in
    let c := set_state (set_cache cache (c_state c)) c in
    if dup then (None, c) else
    let id := eventID c lineOffset line in
    (Some {| ne_EventID := id; ne_AgentID := ne_AgentID ev; ne_EventType := ne_EventType ev; ne_SchemaVersion := ne_SchemaVersion ev;
             ne_Timestamp := ne_Timestamp ev; ne_SrcIP := ne_SrcIP ev; ne_DstIP := ne_DstIP ev; ne_SrcPort := ne_SrcPort ev;
             ne_DstPort := ne_DstPort ev; ne_Proto := ne_Proto ev; ne_Bytes := ne_Bytes ev;
             ne_Extra := Some (<["event_id" := JStr id]> (default ∅ (ne_Extra ev))) |}, c)
  end.

Fixpoint read_loop (now : time) (lines : list string) (out : list NetEvent) : AM (list NetEvent) :=
  c <- gets aw_cap;;
  if o_MaxBatchSize (c_opts c) <=? Z.of_nat (length out) then retM out else
  ok <- sys id;;
  if negb ok then rollback;;; throw "read authlog" else
  match lines with
  | [] => retM out
  | line :: lines =>
    let '(ev, c') := take_line now line c in
    modify (λ w, set_read (aw_read w ++ [(st_offset (c_state c), line)]) (set_cap c' w));;;
    read_loop now lines (out ++ option_list ev)
  end.

Definition Capture (now : time) : AM (list NetEvent) :=
  c <- gets aw_cap;;
  match c_loadErr c with
  | Some e => throw e
  | None =>
    modify (λ w, if c_pending (aw_cap w) then set_read [] (on_cap rollback_cap w) else w);;;
    let path := o_Path (c_opts c) in
    sys_or ("open authlog " +:+ path) id;;;
    logs <- gets aw_logs;;
    match logs !! path with
    | None => throw ("open authlog " +:+ path)
    | Some lg =>
      sys_or "stat authlog" id;;;
      c <- gets aw_cap;;
      let before := c_state c in
      let moved := negb (st_lastInode before =? 0) && (negb (lg_inode lg =? st_lastInode before) || negb (lg_device lg =? st_lastDevice before)) in
      let offset := if moved then 0 else st_offset before in
      let offset := if strlen (lg_data lg) <? offset then 0 else offset in
      let state := set_offset offset (set_identity (lg_device lg) (lg_inode lg) before) in
      modify (λ w, set_read [] (set_cap (set_pending (Some before) (set_state state c)) w));;;
      (if 0 <? offset then
         ok <- sys id;;
         if negb ok then modify (on_cap (λ c, set_state (set_offset 0 (c_state c)) c)) else retM tt
       else retM tt);;;
      c <- gets aw_cap;;
      let rest := drop (Z.to_nat (st_offset (c_state c))) (to_chars (lg_data lg)) in
      out <- read_loop now (map of_chars (complete_lines rest)) [];;
      modify (on_cap (λ c, set_state (set_cache (pruneDedup (c_opts c) now (st_cache (c_state c))) (c_state c)) c));;;
      retM out
    end
  end.

(** ** The checkpoint *)

Definition checkpoint_of (c : AuthLogCapturer) : authLogCheckpoint :=
  {| cp_Version := 1; cp_AgentID := TrimSpace (c_agentID c); cp_Path := Clean (o_Path (c_opts c)); cp_Device := st_lastDevice (c_state c);
     cp_Inode := st_lastInode (c_state c); cp_Offset := st_offset (c_state c) |}.

Definition newline_text : string := String newline EmptyString.

(** The capture's lines count as committed from the first statement on: the events
    are durable then. *)
Definition Commit : AM unit :=
  c <- gets aw_cap;;
  match c_pending c with
  | None => retM tt
  | Some _ =>
    modify (λ w, set_read [] (set_done (aw_done w ++ aw_read w) (on_cap (set_pending None) w)));;;
    let path := TrimSpace (o_CheckpointPath (c_opts c)) in
    if is_empty path then retM tt else
    match marshal (checkpoint_of c) with
    | None => throw "marshal authlog checkpoint"
    | Some payload => onFiles (wrap "persist authlog checkpoint" (AtomicWriteFile suffix path (payload +:+ newline_text) 384))
    end
  end.

Definition dec_uint64 : decoder Z := λ j n,
  match j with JNull => Some n | JInt z => if (0 <=? z) && (z <=? max_uint64) then Some z else None | _ => None end.

Definition dec_checkpoint : decoder authLogCheckpoint := dec_struct [
  ("version", on_field cp_Version (λ x s, {| cp_Version := x; cp_AgentID := cp_AgentID s; cp_Path := cp_Path s; cp_Device := cp_Device s;
     cp_Inode := cp_Inode s; cp_Offset := cp_Offset s |}) dec_int);
  ("agent_id", on_field cp_AgentID (λ x s, {| cp_Version := cp_Version s; cp_AgentID := x; cp_Path := cp_Path s; cp_Device := cp_Device s;
     cp_Inode := cp_Inode s; cp_Offset := cp_Offset s |}) dec_string);
  ("path", on_field cp_Path (λ x s, {| cp_Version := cp_Version s; cp_AgentID := cp_AgentID s; cp_Path := x; cp_Device := cp_Device s;
     cp_Inode := cp_Inode s; cp_Offset := cp_Offset s |}) dec_string);
  ("device", on_field cp_Device (λ x s, {| cp_Version := cp_Version s; cp_AgentID := cp_AgentID s; cp_Path := cp_Path s; cp_Device := x;
     cp_Inode := cp_Inode s; cp_Offset := cp_Offset s |}) dec_uint64);
  ("inode", on_field cp_Inode (λ x s, {| cp_Version := cp_Version s; cp_AgentID := cp_AgentID s; cp_Path := cp_Path s; cp_Device := cp_Device s;
     cp_Inode := x; cp_Offset := cp_Offset s |}) dec_uint64);
  ("offset", on_field cp_Offset (λ x s, {| cp_Version := cp_Version s; cp_AgentID := cp_AgentID s; cp_Path := cp_Path s; cp_Device := cp_Device s;
     cp_Inode := cp_Inode s; cp_Offset := x |}) dec_int)].
Definition zero_checkpoint : authLogCheckpoint :=
  {| cp_Version := 0; cp_AgentID := ""; cp_Path := ""; cp_Device := 0; cp_Inode := 0; cp_Offset := 0 |}.

(** The content of a checkpoint file: an error, or the state to resume from, if it is
    one of this log. *)
Definition accept_checkpoint (c : AuthLogCapturer) (payload : string) : string + option authLogCheckpoint :=
  match unmarshal parse dec_checkpoint zero_checkpoint payload with
  | None => inl "parse authlog checkpoint"%string
  | Some s =>
    if negb (cp_Version s =? 1) then inl "unsupported authlog checkpoint version"%string else
    if negb (str_eqb (TrimSpace (cp_AgentID s)) (TrimSpace (c_agentID c))) then inl "authlog checkpoint agent ID mismatch"%string else
    if cp_Offset s <? 0 then inl "authlog checkpoint offset is invalid"%string else
    inr (if str_eqb (Clean (cp_Path s)) (Clean (o_Path (c_opts c))) then Some s else None)
  end.

Definition resume (s : authLogCheckpoint) (c : AuthLogCapturer) : AuthLogCapturer :=
  set_state {| st_offset := cp_Offset s; st_lastDevice := cp_Device s; st_lastInode := cp_Inode s; st_cache := st_cache (c_state c) |} c.

Definition loadCheckpoint : AM unit :=
  c <- gets aw_cap;;
  let path := TrimSpace (o_CheckpointPath (c_opts c)) in
  if is_empty path then retM tt else
  r <- onFiles (ReadFile path);;
  match r with
  | NotExist => retM tt
  | ReadFailed => throw "read authlog checkpoint"
  | Read payload =>
    match accept_checkpoint c payload with
    | inl e => throw e
    | inr None => retM tt
    | inr (Some s) => modify (on_cap (resume s))
    end
  end.

(** ** Construction *)

Definition default_options (o : AuthLogOptions) : AuthLogOptions :=
  {| o_Path := if is_empty (o_Path o) then "/var/log/auth.log" else o_Path o; o_CheckpointPath := o_CheckpointPath o;
     o_MaxBatchSize := if o_MaxBatchSize o <=? 0 then 200 else o_MaxBatchSize o;
     o_DedupTTL := if o_DedupTTL o <=? 0 then 30 * second else o_DedupTTL o; o_IncludeAccepted := o_IncludeAccepted o |}.

Definition fresh_capturer (agentID : string) (opts : AuthLogOptions) (hostIP : string) : AuthLogCapturer :=
  {| c_agentID := agentID; c_opts := default_options opts; c_hostIP := hostIP;
     c_state := {| st_offset := 0; st_lastDevice := 0; st_lastInode := 0; st_cache := ∅ |}; c_pending := None; c_loadErr := None |}.

(** [NewAuthLogCapturer]: a new process, so the capture in progress is gone. *)
Definition NewAuthLogCapturer (agentID : string) (opts : AuthLogOptions) (hostIP : string) : AM unit :=
  modify (λ w, set_read [] (set_cap (fresh_capturer agentID opts hostIP) w));;;
  err <- try (E := string) loadCheckpoint;;
  match err with
  | inl e => modify (on_cap (λ c, {| c_agentID := c_agentID c; c_opts := c_opts c; c_hostIP := c_hostIP c; c_state := c_state c;
                                     c_pending := c_pending c; c_loadErr := Some e |}))
  | inr _ => retM tt
  end.
End capture.

(** [detectPrimaryIP]: the local address of a UDP socket to a public address, if
    there is one, else the first address of an interface. *)
Definition detectPrimaryIP (dialed : option ip) (h : host) : string :=
  match dialed with
  | Some ip => if (ip_bits ip =? 32) && negb (IsLoopback ip) then IP_String ip else PrimaryIPv4 h
  | None => PrimaryIPv4 h
  end.

(** ** The path of the log *)

Section resolve.
(** Whether [os.Open] of a path succeeds. *)
Context (readable : string → bool).

Definition ValidateAuthLogReadable (path : string) : option string :=
  let p := TrimSpace path in
  let p := if is_empty p then "/var/log/auth.log"%string else p in
  if readable p then None else Some ("authlog " +:+ p +:+ " unreadable").

Definition add_candidate (l : list string) (p : string) : list string :=
  let p := TrimSpace p in if is_empty p || str_in p l then l else l ++ [p].
Definition candidates (configuredPath : string) : list string :=
  fold_left add_candidate [configuredPath; "/var/log/auth.log"; "/var/log/secure"; "/host/var/log/auth.log"; "/host/var/log/secure"] [].

(** The first readable candidate, else the error of the last. *)
Fixpoint first_readable (l : list string) (lastErr : string) : string + string :=
  match l with
  | [] => inl lastErr
  | p :: l => match ValidateAuthLogReadable p with None => inr p | Some e => first_readable l e end
  end.
Definition ResolveAuthLogPath (configuredPath : string) : string + string :=
  first_readable (candidates configuredPath) "no authlog candidates configured".
End resolve.

(** ** Facts about lines *)

Definition lines_of (d : string) : list string := map of_chars (complete_lines (to_chars d)).

(** Lines with their offsets. *)
Fixpoint number (o : Z) (ls : list string) : list (Z * string) :=
  match ls with [] => [] | l :: ls => (o, l) :: number (o + strlen l) ls end.

Definition size_of (ls : list string) : Z := sumZ strlen ls.

Lemma number_app o ls ls' : number o (ls ++ ls') = number o ls ++ number (o + size_of ls) ls'.
Proof.
  revert o. induction ls as [|l ls IH]; intros o; cbn; [by rewrite Z.add_0_r|]. rewrite IH. unfold size_of. cbn. by rewrite Z.add_assoc.
Qed.

Lemma size_of_app ls ls' : size_of (ls ++ ls') = size_of ls + size_of ls'.
Proof. apply sumZ_app. Qed.

Lemma size_of_nonneg ls : 0 <= size_of ls.
Proof. apply sumZ_nonneg. intros. apply strlen_nonneg. Qed.

Lemma elem_of_number o ls x l : (x, l) ∈ number o ls → o <= x.
Proof.
  revert o. induction ls as [|l' ls IH]; intros o; cbn; [by intros ?%not_elem_of_nil|]. intros [[= -> ->]|H]%elem_of_cons; [done|].
  apply IH in H. pose proof (strlen_nonneg l'). lia.
Qed.

Lemma complete_lines_app l t : complete_lines l `prefix_of` complete_lines (l ++ t).
Proof.
  induction l as [|a l IH]; [apply prefix_nil|]. cbn. destruct (Ascii.eqb a newline); [by apply prefix_cons|].
  destruct IH as [r ->]. destruct (complete_lines l) as [|w ws]; [apply prefix_nil|]. by exists r.
Qed.

Lemma complete_lines_tail l w ws : complete_lines l = w :: ws → w ≠ [] ∧ complete_lines (drop (length w) l) = ws.
Proof.
  revert w ws. induction l as [|a l IH]; [done|]. intros w ws. cbn. destruct (Ascii.eqb a newline).
  - intros [= <- <-]. by destruct l.
  - destruct (complete_lines l) as [|w' ws'] eqn:E; [done|]. intros [= <- <-]. cbn. split; [done|]. by apply (IH w').
Qed.

Lemma complete_lines_drop k : ∀ l, complete_lines (drop (length (concat (take k (complete_lines l)))) l) = drop k (complete_lines l).
Proof.
  induction k as [|k IH]; intros l; [by rewrite drop_0|]. destruct (complete_lines l) as [|w ws] eqn:E; [by rewrite drop_0|].
  cbn. rewrite length_app, <- drop_drop. apply complete_lines_tail in E as [_ <-]. apply IH.
Qed.

Lemma size_of_concat (ws : list (list ascii)) : size_of (map of_chars ws) = Z.of_nat (length (concat ws)).
Proof.
  induction ws as [|w ws IH]; [done|]. change (size_of (map of_chars (w :: ws))) with (strlen (of_chars w) + size_of (map of_chars ws)).
  cbn [concat]. rewrite IH, length_app, strlen_chars, to_of_chars. lia.
Qed.

(** The lines after an offset that is the end of one. *)
Lemma lines_from d k :
  map of_chars (complete_lines (drop (Z.to_nat (size_of (take k (lines_of d)))) (to_chars d))) = drop k (lines_of d).
Proof.
  unfold lines_of. rewrite firstn_map, skipn_map, size_of_concat, Nat2Z.id. by rewrite complete_lines_drop.
Qed.

Lemma lines_of_append d t : lines_of d `prefix_of` lines_of (d +:+ t).
Proof.
  unfold lines_of. rewrite to_chars_app. destruct (complete_lines_app (to_chars d) (to_chars t)) as [r ->].
  exists (map of_chars r). apply map_app.
Qed.

Lemma size_of_lines d : size_of (lines_of d) <= strlen d.
Proof.
  unfold lines_of. rewrite size_of_concat, strlen_chars. generalize (to_chars d) as l. induction l as [|a l IH]; [done|]. cbn.
  destruct (Ascii.eqb a newline); cbn; [lia|]. destruct (complete_lines l); cbn in *; lia.
Qed.

(** ** What a capture reads *)

Section reading.
Context (suffix : files → string → string) (marshal : authLogCheckpoint → option string) (parse : string → option json).
Context (sha1_uuid : string → string).

(** The loop without the batch limit. *)
Fixpoint take_lines (now : time) (lines : list string) (c : AuthLogCapturer) : list NetEvent * AuthLogCapturer :=
  match lines with
  | [] => ([], c)
  | line :: lines =>
    let '(ev, c) := take_line sha1_uuid now line c in
    let '(evs, c) := take_lines now lines c in
    (option_list ev ++ evs, c)
  end.

(** All of a capturer but its place in the log. *)
Definition same_capturer (c c' : AuthLogCapturer) : Prop :=
  c_agentID c' = c_agentID c ∧ c_opts c' = c_opts c ∧ c_hostIP c' = c_hostIP c ∧ c_pending c' = c_pending c ∧ c_loadErr c' = c_loadErr c ∧
  st_lastDevice (c_state c') = st_lastDevice (c_state c) ∧ st_lastInode (c_state c') = st_lastInode (c_state c).

Lemma take_line_same now line c : let c' := (take_line sha1_uuid now line c).2 in
  same_capturer c c' ∧ st_offset (c_state c') = st_offset (c_state c) + strlen line.
Proof. unfold take_line, same_capturer. destruct (parseLine _ _ _) as [[ev key]|]; [|done]. destruct (isDeduped _ _ _ _) as [[] m]; done. Qed.

Lemma take_lines_same now lines c : let c' := (take_lines now lines c).2 in
  same_capturer c c' ∧ st_offset (c_state c') = st_offset (c_state c) + size_of lines.
Proof.
  revert c. induction lines as [|line lines IH]; intros c; [split; [done|symmetry; apply Z.add_0_r]|]. cbn [take_lines].
  pose proof (take_line_same now line c) as [H1 H2]. destruct (take_line _ _ _ _) as [ev c1]. cbn in H1, H2. specialize (IH c1).
  destruct (take_lines now lines c1) as [evs c2]. cbn in *. destruct IH as [H3 H4]. split.
  - unfold same_capturer in *. by destruct_and!; split_and!; etrans.
  - rewrite H4, H2. symmetry. apply Z.add_assoc.
Qed.

(** What the loop makes of a world. *)
Definition after_lines (now : time) (lines : list string) (w : aworld) : aworld :=
  set_read (aw_read w ++ number (st_offset (c_state (aw_cap w))) lines) (set_cap (take_lines now lines (aw_cap w)).2 w).

Lemma after_lines_nil now w : after_lines now [] w = w.
Proof. unfold after_lines. cbn. rewrite app_nil_r. by destruct w. Qed.

Lemma after_lines_cons now line lines w :
  after_lines now (line :: lines) w =
  after_lines now lines (set_read (aw_read w ++ [(st_offset (c_state (aw_cap w)), line)]) (set_cap (take_line sha1_uuid now line (aw_cap w)).2 w)).
Proof.
  unfold after_lines. cbn [take_lines number]. pose proof (take_line_same now line (aw_cap w)) as [_ H].
  destruct (take_line _ _ _ _) as [ev c1]. cbn in *. rewrite H. destruct (take_lines now lines c1). cbn. by rewrite <- app_assoc.
Qed.

Definition rolled_back (w w' : aworld) : Prop := w' = set_read [] (on_cap rollback_cap w).

Lemma rollback_after_lines now lines w : is_Some (c_pending (aw_cap w)) →
  set_read [] (on_cap rollback_cap (after_lines now lines w)) = set_read [] (on_cap rollback_cap w).
Proof.
  intros [p Hp]. unfold after_lines, on_cap, rollback_cap. cbn. pose proof (take_lines_same now lines (aw_cap w)) as [H _].
  destruct (take_lines now lines (aw_cap w)) as [evs c]. cbn in *. destruct H as (? & ? & ? & Hpd & ? & ? & ?). rewrite Hpd, Hp.
  destruct c, (aw_cap w). cbn in *. subst. done.
Qed.

Lemma read_loop_spec now w0 : is_Some (c_pending (aw_cap w0)) → ∀ lines out,
  triple (λ w, w = w0) (read_loop sha1_uuid now lines out)
    (λ out' w, ∃ n, w = after_lines now (take n lines) w0 ∧ out' = out ++ (take_lines now (take n lines) (aw_cap w0)).1 ∧
       ((n < length lines)%nat → o_MaxBatchSize (c_opts (aw_cap w0)) <= Z.of_nat (length out')))
    (λ _ w, rolled_back w0 w)
    (λ w, ∃ n, w = after_lines now (take n lines) w0).
Proof.
  intros Hp lines. revert w0 Hp. induction lines as [|line lines IH]; intros w0 Hp out; cbn [read_loop].
  all: eapply triple_bind with (Q' := λ c w, c = aw_cap w0 ∧ w = w0); [by apply triple_gets; intros w ->|].
  all: intros c; apply triple_pure; intros ->.
  all: destruct (_ <=? _) eqn:Hmax; zbool; [apply triple_ret; intros w ->; exists 0%nat; rewrite take_0, after_lines_nil; cbn; by rewrite app_nil_r|].
  all: eapply triple_bind with (Q' := λ _ w, w = w0); [apply triple_sys; intros w ->; [done..|exists 0%nat; by rewrite take_0, after_lines_nil]|].
  all: intros [|]; cbn [negb]; [|eapply triple_bind with (Q' := λ _, rolled_back w0); [by apply triple_modify; intros w ->|intros _; by apply triple_throw]].
  - apply triple_ret. intros w ->. exists 0%nat. rewrite after_lines_nil. cbn. rewrite app_nil_r. split_and!; [done..|lia].
  - pose proof (take_line_same now line (aw_cap w0)) as [Hs _].
    pose proof (after_lines_cons now line) as Hcons. pose proof (rollback_after_lines now [line] w0 Hp) as Hback. rewrite Hcons, after_lines_nil in Hback.
    specialize (λ ls, Hcons ls w0). cbn [take_lines]. destruct (take_line sha1_uuid now line (aw_cap w0)) as [ev c1] eqn:Hl. cbn [snd] in *.
    set (w1 := set_read _ _) in *. destruct Hs as (_ & Hopts & _ & Hpend & _).
    eapply triple_bind with (Q' := λ _ w, w = w1); [by apply triple_modify; intros w ->|]. intros _.
    eapply triple_conseq; [apply (IH w1 ltac:(unfold w1; cbn; congruence) (out ++ option_list ev))| | | |].
    + done.
    + intros out' w (n & -> & -> & Hn). exists (S n). cbn [take take_lines length]. rewrite Hcons, Hl. cbn [aw_cap set_read set_cap w1] in *.
      destruct (take_lines now (take n lines) c1) as [evs c2]. cbn [fst] in *. rewrite <- app_assoc in *. split_and!; [done..|].
      intros Hlt. rewrite <- Hopts. apply Hn. lia.
    + intros e w Hw. unfold rolled_back in *. by rewrite Hw, Hback.
    + intros w (n & ->). exists (S n). cbn [take]. by rewrite Hcons.
Qed.

Definition durable (w : aworld) : files * gmap string logfile * list (Z * string) := (aw_files w, aw_logs w, aw_done w).

(** The world without the capture in progress. *)
Definition idle (w : aworld) : aworld := if c_pending (aw_cap w) then set_read [] (on_cap rollback_cap w) else w.

(** Where a capture starts in a log. *)
Definition moved (lg : logfile) (s : authLogCaptureState) : bool :=
  negb (st_lastInode s =? 0) && (negb (lg_inode lg =? st_lastInode s) || negb (lg_device lg =? st_lastDevice s)).
Definition start_of (lg : logfile) (s : authLogCaptureState) : Z :=
  let offset := if moved lg s then 0 else st_offset s in if strlen (lg_data lg) <? offset then 0 else offset.

Definition begin_at (b : Z) (lg : logfile) (w : aworld) : aworld :=
  let s := c_state (aw_cap w) in
  set_read [] (set_cap (set_pending (Some s) (set_state (set_offset b (set_identity (lg_device lg) (lg_inode lg) s)) (aw_cap w))) w).

Definition lines_at (b : Z) (lg : logfile) : list string := map of_chars (complete_lines (drop (Z.to_nat b) (to_chars (lg_data lg)))).

Definition pruned (now : time) (w : aworld) : aworld :=
  on_cap (λ c, set_state (set_cache (pruneDedup (c_opts c) now (st_cache (c_state c))) (c_state c)) c) w.

(** A capture that returns its events. *)
Definition captured (now : time) (w0 : aworld) (out : list NetEvent) (w : aworld) : Prop :=
  ∃ lg b n, let w1 := begin_at b lg (idle w0) in let ls := lines_at b lg in
    aw_logs w0 !! o_Path (c_opts (aw_cap w0)) = Some lg ∧ c_loadErr (aw_cap w0) = None ∧
    (b = start_of lg (c_state (aw_cap (idle w0))) ∨ b = 0) ∧
    w = pruned now (after_lines now (take n ls) w1) ∧ out = (take_lines now (take n ls) (aw_cap w1)).1 ∧
    ((n < length ls)%nat → o_MaxBatchSize (c_opts (aw_cap w0)) <= Z.of_nat (length out)).

Lemma idle_pending w : c_pending (aw_cap (idle w)) = None.
Proof. unfold idle. destruct (c_pending (aw_cap w)) eqn:H; [|done]. cbn. unfold rollback_cap. by rewrite H. Qed.

Lemma idle_same w : durable (idle w) = durable w ∧ c_opts (aw_cap (idle w)) = c_opts (aw_cap w) ∧ c_agentID (aw_cap (idle w)) = c_agentID (aw_cap w) ∧
  c_loadErr (aw_cap (idle w)) = c_loadErr (aw_cap w) ∧ c_hostIP (aw_cap (idle w)) = c_hostIP (aw_cap w).
Proof. unfold idle. destruct (c_pending (aw_cap w)) eqn:H; [|done]. cbn. unfold rollback_cap. by rewrite H. Qed.

Lemma rolled_back_begin b lg w w' : c_pending (aw_cap w) = None → rolled_back (begin_at b lg w) w' → w' = set_read [] w.
Proof. intros Hp ->. destruct w as [fs lgs [] r d]. cbn in *. by subst. Qed.

Lemma begin_again b b' lg w : on_cap (λ c, set_state (set_offset b' (c_state c)) c) (begin_at b lg w) = begin_at b' lg w.
Proof. done. Qed.

Lemma Capture_spec now w0 :
  triple (λ w, w = w0) (Capture sha1_uuid now) (captured now w0) (λ _ w, w = w0 ∨ w = idle w0 ∨ w = set_read [] (idle w0)) (λ w, durable w = durable w0).
Proof.
  unfold Capture. pose proof (idle_same w0) as (Hdur & Hopt & _ & Hload & _).
  eapply triple_bind with (Q' := λ c w, c = aw_cap w0 ∧ w = w0); [by apply triple_gets; intros w ->|]. intros c. apply triple_pure. intros ->.
  destruct (c_loadErr (aw_cap w0)) eqn:Hle; [apply triple_throw; intros w ->; by left|].
  eapply triple_bind with (Q' := λ _ w, w = idle w0); [by apply triple_modify; intros w ->|]. intros _. cbv zeta.
  eapply triple_bind with (Q' := λ _ w, w = idle w0); [apply triple_sys_or; intros w ->; [done|by right; left|done]|]. intros _.
  eapply triple_bind with (Q' := λ logs w, logs = aw_logs w0 ∧ w = idle w0).
  { apply triple_gets. intros w ->. split; [|done]. by injection Hdur. }
  intros logs. apply triple_pure. intros ->.
  destruct (aw_logs w0 !! o_Path (c_opts (aw_cap w0))) as [lg|] eqn:Hlg; [|apply triple_throw; intros w ->; by right; left].
  eapply triple_bind with (Q' := λ _ w, w = idle w0); [apply triple_sys_or; intros w ->; [done|by right; left|done]|]. intros _.
  eapply triple_bind with (Q' := λ c w, c = aw_cap (idle w0) ∧ w = idle w0); [by apply triple_gets; intros w ->|]. intros c. apply triple_pure. intros ->.
  fold (moved lg (c_state (aw_cap (idle w0)))). fold (start_of lg (c_state (aw_cap (idle w0)))). set (b0 := start_of _ _).
  eapply triple_bind with (Q' := λ _ w, w = begin_at b0 lg (idle w0)); [by apply triple_modify; intros w ->|]. intros _.
  eapply triple_bind with (Q' := λ _ w, ∃ b, (b = b0 ∨ b = 0) ∧ w = begin_at b lg (idle w0)).
  { destruct (0 <? b0); [|apply triple_ret; intros w ->; exists b0; by auto].
    eapply triple_bind with (Q' := λ _ w, w = begin_at b0 lg (idle w0)); [by apply triple_sys; intros w ->|].
    intros [|]; cbn [negb]; [apply triple_ret; intros w ->; exists b0; by auto|]. apply triple_modify. intros w ->. exists 0. by rewrite begin_again; auto. }
  intros _. apply triple_start. intros w1 (b & Hb & ->).
  eapply triple_bind with (Q' := λ c w, c = aw_cap (begin_at b lg (idle w0)) ∧ w = begin_at b lg (idle w0)); [by apply triple_gets; intros w ->|].
  intros c. apply triple_pure. intros ->. change (st_offset (c_state (aw_cap (begin_at b lg (idle w0))))) with b. fold (lines_at b lg).
  eapply triple_bind.
  - eapply triple_conseq; [apply (read_loop_spec now (begin_at b lg (idle w0)) ltac:(by eexists) (lines_at b lg) [])|done|intros a w H; exact H| |].
    + intros e w Hw. right. right. eapply rolled_back_begin; [apply idle_pending|exact Hw].
    + intros w (n & ->). by rewrite <- Hdur.
  - intros out. cbn beta. eapply triple_bind with (Q' := λ _ w, captured now w0 out w); [|intros _; by apply triple_ret].
    apply triple_modify. intros w (n & -> & -> & Hn). exists lg, b, n. cbn zeta. rewrite app_nil_l in *. split_and!; try done.
    intros Hlt. rewrite <- Hopt. by apply Hn.
Qed.

(** ** The life of a capturer

    The steps between which the agent may be killed: text is appended to the log,
    a cycle captures, commits or rolls back, and the agent starts again. *)

Context (agentID hostIP : string) (opts : AuthLogOptions).

Definition log_path : string := o_Path (default_options opts).
Definition checkpoint_path : string := TrimSpace (o_CheckpointPath opts).

Definition start : AM unit := NewAuthLogCapturer parse agentID opts hostIP.

Definition append_log (t : string) (w : aworld) : aworld :=
  {| aw_files := aw_files w; aw_logs := alter (λ lg, {| lg_device := lg_device lg; lg_inode := lg_inode lg; lg_data := lg_data lg +:+ t |}) log_path (aw_logs w);
     aw_cap := aw_cap w; aw_read := aw_read w; aw_done := aw_done w |}.

(** The world after a method of the capturer: when it killed the agent, after the next start. *)
Inductive survives {A} (r : outcome string A * env * aworld) (w' : aworld) : Prop :=
  | returns : r.1.1 ≠ Crashed → w' = r.2 → survives r w'
  | restarts v : r.1.1 = Crashed → (start v r.2).1.1 ≠ Crashed → w' = (start v r.2).2 → survives r w'.

Inductive astep (w : aworld) : aworld → Prop :=
  | step_append t : astep w (append_log t w)
  | step_capture now v w' : survives (Capture sha1_uuid now v w) w' → astep w w'
  | step_commit v w' : survives (Commit suffix marshal v w) w' → astep w w'
  | step_rollback v w' : survives (Rollback v w) w' → astep w w'
  | step_restart v w' : survives (start v w) w' → astep w w'.

(** ** No line is lost *)

Context (suffix_fresh : ∀ fs path, fs !! temp_path suffix fs path = None).
Context (marshal_parse : ∀ s b, marshal s = Some b → unmarshal parse dec_checkpoint zero_checkpoint (b +:+ newline_text) = Some s).
Context (Hplain : plain_path checkpoint_path = true) (Hvisible : no_temp [checkpoint_path] = true).

(** [o] is the end of a line of [d], and the lines up to it are in [done]. *)
Definition covered (d : string) (done : list (Z * string)) (o : Z) : Prop :=
  ∃ k, o = size_of (take k (lines_of d)) ∧ ∀ e, e ∈ number 0 (take k (lines_of d)) → e ∈ done.

Definition identity_ok (lg : logfile) (device inode : Z) : Prop := inode = 0 ∨ (inode = lg_inode lg ∧ device = lg_device lg).
Definition state_ok (lg : logfile) (done : list (Z * string)) (s : authLogCaptureState) : Prop :=
  covered (lg_data lg) done (st_offset s) ∧ identity_ok lg (st_lastDevice s) (st_lastInode s).
Definition disk_ok (lg : logfile) (done : list (Z * string)) (fs : files) : Prop :=
  ∀ f s, fs !! checkpoint_path = Some f → unmarshal parse dec_checkpoint zero_checkpoint (f_data f) = Some s →
  covered (lg_data lg) done (cp_Offset s) ∧ identity_ok lg (cp_Device s) (cp_Inode s).

Record ainv (w : aworld) : Prop := {
  inv_log : is_Some (aw_logs w !! log_path);
  inv_real : ∀ lg, aw_logs w !! log_path = Some lg → ∀ e, e ∈ aw_done w ++ aw_read w → e ∈ number 0 (lines_of (lg_data lg));
  inv_disk : ∀ lg, aw_logs w !! log_path = Some lg → disk_ok lg (aw_done w) (aw_files w);
  inv_cap : c_agentID (aw_cap w) = agentID ∧ c_opts (aw_cap w) = default_options opts;
  inv_state : ∀ lg, aw_logs w !! log_path = Some lg → state_ok lg (aw_done w ++ aw_read w) (c_state (aw_cap w));
  inv_pending : ∀ lg, aw_logs w !! log_path = Some lg → match c_pending (aw_cap w) with Some s => state_ok lg (aw_done w) s | None => aw_read w = [] end }.

Lemma covered_mono d done done' o : (∀ e, e ∈ done → e ∈ done') → covered d done o → covered d done' o.
Proof. intros H (k & -> & Hk). exists k. eauto. Qed.

Lemma covered_append d t done o : covered d done o → covered (d +:+ t) done o.
Proof.
  intros (k & -> & Hk). destruct (lines_of_append d t) as [r Hr]. exists (k `min` length (lines_of d))%nat.
  rewrite Hr, take_app_le by lia. assert (take (k `min` length (lines_of d)) (lines_of d) = take k (lines_of d)) as ->; [|done].
  destruct (decide (k <= length (lines_of d))%nat); [by rewrite Nat.min_l|]. rewrite Nat.min_r by lia. by rewrite !take_ge by lia.
Qed.

Lemma covered_zero d done : covered d done 0.
Proof. exists 0%nat. rewrite take_0. split; [done|]. intros e He. by apply not_elem_of_nil in He. Qed.

Lemma take_more {A} (l : list A) k n : take k l ++ take n (drop k l) = take (length (take k l) + n) l.
Proof.
  rewrite length_take. destruct (decide (k <= length l)%nat).
  - by rewrite Nat.min_l, take_take_drop.
  - rewrite (drop_ge l k), take_nil, app_nil_r by lia. by rewrite !take_ge by lia.
Qed.

(** Reading on from a covered offset covers what was read. *)
Lemma covered_read d done b n : covered d done b →
  let ls := take n (map of_chars (complete_lines (drop (Z.to_nat b) (to_chars d)))) in
  covered d (done ++ number b ls) (b + size_of ls) ∧ ∀ e, e ∈ number b ls → e ∈ number 0 (lines_of d).
Proof.
  intros (k & -> & Hk). rewrite lines_from. cbn zeta.
  assert (Hnum : number 0 (take k (lines_of d)) ++ number (size_of (take k (lines_of d))) (take n (drop k (lines_of d))) =
                 number 0 (take (length (take k (lines_of d)) + n) (lines_of d))).
  { by rewrite <- (Z.add_0_l (size_of _)), <- number_app, take_more. }
  split.
  - exists (length (take k (lines_of d)) + n)%nat. split.
    + by rewrite <- size_of_app, take_more.
    + intros e. rewrite <- Hnum, !elem_of_app. naive_solver.
  - intros e He. assert (Hin : e ∈ number 0 (take (length (take k (lines_of d)) + n) (lines_of d))) by (rewrite <- Hnum; apply elem_of_app; by right).
    rewrite <- (take_drop (length (take k (lines_of d)) + n) (lines_of d)), number_app. apply elem_of_app. by left.
Qed.

(** What survives the death of the agent. *)
Record dinv (w : aworld) : Prop := {
  d_log : is_Some (aw_logs w !! log_path);
  d_real : ∀ lg, aw_logs w !! log_path = Some lg → ∀ e, e ∈ aw_done w → e ∈ number 0 (lines_of (lg_data lg));
  d_disk : ∀ lg, aw_logs w !! log_path = Some lg → disk_ok lg (aw_done w) (aw_files w) }.

Lemma ainv_dinv w : ainv w → dinv w.
Proof. intros [? Hr ? ? ? ?]. split; [done| |done]. intros lg Hlg e He. apply (Hr lg Hlg), elem_of_app. by left. Qed.

Lemma dinv_durable w w' : durable w' = durable w → dinv w → dinv w'.
Proof. intros [= H1 H2 H3] [? ? ?]. split; by rewrite ?H1, ?H2, ?H3. Qed.

Lemma ainv_idle w : ainv w → ainv (idle w).
Proof.
  intros Hi. unfold idle. destruct (c_pending (aw_cap w)) as [s|] eqn:Hp; [|done]. destruct (ainv_dinv w Hi) as [? ? ?].
  destruct Hi as [_ _ _ Hc _ Hpd]. split; cbn; unfold rollback_cap; rewrite ?Hp; cbn; rewrite ?app_nil_r; try done.
  intros lg Hlg. specialize (Hpd lg Hlg). by rewrite Hp in Hpd.
Qed.

Lemma idle_read w : ainv w → set_read [] (idle w) = idle w.
Proof.
  intros Hi. destruct (inv_log w Hi) as [lg Hlg]. pose proof (inv_pending w Hi lg Hlg) as Hpd. unfold idle.
  destruct (c_pending (aw_cap w)); [done|]. destruct w. cbn in *. by subst.
Qed.

Lemma start_covered lg s done : state_ok lg done s → covered (lg_data lg) done (start_of lg s).
Proof. intros [Hc _]. unfold start_of. destruct (strlen (lg_data lg) <? _); [apply covered_zero|]. destruct (moved lg s); [apply covered_zero|done]. Qed.

Lemma captured_inv now w0 out w : ainv w0 → captured now w0 out w → ainv w.
Proof.
  intros Hi0 (lg & b & n & Hlg & _ & Hb & -> & _ & _). pose proof (ainv_idle w0 Hi0) as Hi. pose proof (idle_same w0) as ([= Hf Hl Hd] & Hopt & _ & _ & _).
  pose proof (idle_read w0 Hi0) as Hread. destruct (inv_cap w0 Hi0) as [_ Hc0]. rewrite Hc0 in Hlg. change (o_Path (default_options opts)) with log_path in Hlg.
  set (w1 := idle w0) in *. rewrite <- Hl in Hlg. assert (Hr : aw_read w1 = []) by (rewrite <- Hread; done).
  destruct (ainv_dinv w1 Hi) as [H1 H2 H3]. destruct (inv_cap w1 Hi) as [Ha Hc]. pose proof (inv_state w1 Hi lg Hlg) as Hs. rewrite Hr, app_nil_r in Hs.
  assert (Hcov : covered (lg_data lg) (aw_done w1) b) by (destruct Hb as [->| ->]; [by apply start_covered|apply covered_zero]).
  pose proof (covered_read (lg_data lg) (aw_done w1) b n Hcov) as [Hcr Hin]. fold (lines_at b lg) in Hcr, Hin. clear Hb.
  pose proof (take_lines_same now (take n (lines_at b lg)) (aw_cap (begin_at b lg w1))) as [Hsame Hoff].
  split; unfold pruned, on_cap, after_lines, begin_at in *; cbn in *.
  - done.
  - intros lg' Hlg' e. assert (lg' = lg) as -> by congruence. rewrite elem_of_app. intros [He|He]; [by apply (H2 lg)|by apply Hin].
  - done.
  - destruct Hsame as (-> & -> & _). done.
  - intros lg' Hlg'. assert (lg' = lg) as -> by congruence. destruct Hsame as (_ & _ & _ & _ & _ & Hdv & Hin'). split; cbn; [by rewrite Hoff|]. by right.
  - intros lg' Hlg'. assert (lg' = lg) as -> by congruence. destruct Hsame as (_ & _ & _ & -> & _). done.
Qed.

Lemma rollback_inv w : ainv w → ainv (set_read [] (on_cap rollback_cap w)).
Proof.
  intros Hi. pose proof (idle_read w Hi) as Hr. pose proof (ainv_idle w Hi) as H. unfold idle in *. destruct (c_pending (aw_cap w)) eqn:Hp; [done|].
  unfold on_cap, rollback_cap. rewrite Hp. assert (set_cap (aw_cap w) w = w) as -> by by destruct w. by rewrite Hr.
Qed.

Lemma append_inv t w : ainv w → ainv (append_log t w).
Proof.
  intros Hi. destruct (inv_log w Hi) as [lg Hlg]. set (lg' := {| lg_device := lg_device lg; lg_inode := lg_inode lg; lg_data := lg_data lg +:+ t |}).
  assert (Hnew : aw_logs (append_log t w) !! log_path = Some lg') by (unfold append_log; cbn [aw_logs]; by rewrite lookup_alter_eq, Hlg).
  pose proof (inv_real w Hi lg Hlg) as H2. pose proof (inv_disk w Hi lg Hlg) as H3. pose proof (inv_state w Hi lg Hlg) as H5. pose proof (inv_pending w Hi lg Hlg) as H6.
  assert (Hst : ∀ d s, state_ok lg d s → state_ok lg' d s) by (intros d s [? ?]; split; [by apply covered_append|done]).
  split; [by eexists|idtac|idtac|exact (inv_cap w Hi)|idtac|idtac].
  all: intros l Hl; assert (l = lg') as -> by congruence; clear Hl; cbn [append_log aw_done aw_read aw_files aw_cap].
  - intros e He. specialize (H2 e He). destruct (lines_of_append (lg_data lg) t) as [r Hr].
    change (lg_data lg') with (lg_data lg +:+ t). rewrite Hr, number_app. apply elem_of_app. by left.
  - intros f s Hf Hu. destruct (H3 f s Hf Hu) as [? ?]. split; [by apply covered_append|done].
  - by apply Hst.
  - destruct (c_pending (aw_cap w)); [by apply Hst|done].
Qed.

(** [Commit]: the lines read are done, and the file is the old or the new checkpoint. *)
Lemma Commit_inv w0 : ainv w0 → triple (λ w, w = w0) (Commit suffix marshal) (λ _, ainv) (λ _, ainv) dinv.
Proof.
  intros Hi. unfold Commit. eapply triple_bind with (Q' := λ c w, c = aw_cap w0 ∧ w = w0); [by apply triple_gets; intros w ->|].
  intros c. apply triple_pure. intros ->. destruct (c_pending (aw_cap w0)) as [s|] eqn:Hp; [|by apply triple_ret; intros w ->].
  destruct (inv_cap w0 Hi) as [Ha Hc]. set (w1 := set_read [] (set_done (aw_done w0 ++ aw_read w0) (on_cap (set_pending None) w0))).
  assert (Hi1 : ainv w1).
  { destruct Hi as [H1 H2 H3 H4 H5 H6]. unfold w1. split; cbn; rewrite ?app_nil_r; try done. intros lg Hlg f st Hf Hu.
    destruct (H3 lg Hlg f st Hf Hu) as [Hcv Hid]. split; [|done]. eapply covered_mono, Hcv. intros e He. apply elem_of_app. by left. }
  eapply triple_bind with (Q' := λ _ w, w = w1); [by apply triple_modify; intros w ->|]. intros _. cbv zeta.
  change (TrimSpace (o_CheckpointPath (c_opts (aw_cap w0)))) with (TrimSpace (o_CheckpointPath (c_opts (aw_cap w0)))).
  rewrite Hc. change (TrimSpace (o_CheckpointPath (default_options opts))) with checkpoint_path.
  destruct (is_empty checkpoint_path); [by apply triple_ret; intros w ->|].
  destruct (marshal (checkpoint_of (aw_cap w0))) as [payload|] eqn:Hm; [|by apply triple_throw; intros w ->].
  set (half fs := agree [checkpoint_path] fs (aw_files w1) ∨ replaced [checkpoint_path] checkpoint_path (payload +:+ newline_text) 384 (aw_files w1) fs).
  assert (Hhalf : ∀ fs, half fs → ainv (set_files fs w1)).
  { intros fs Hfs. destruct Hi1 as [H1 H2 H3 H4 H5 H6]. split; try done. intros lg Hlg f st Hf Hu. cbn in Hf. destruct Hfs as [Hag|Hrep].
    - rewrite (Hag checkpoint_path) in Hf by by left. by apply (H3 lg Hlg f).
    - rewrite (Hrep checkpoint_path), lookup_insert_eq in Hf by by left. injection Hf as <-. cbn in Hu.
      rewrite (marshal_parse _ _ Hm) in Hu. injection Hu as <-. specialize (H5 lg Hlg). cbn in H5. by rewrite app_nil_r in H5. }
  eapply triple_conseq; [apply (triple_zoom aw_files set_files w1); eapply triple_wrap;
    apply (AtomicWriteFile_spec suffix suffix_fresh [checkpoint_path] Hvisible); [by left|exact Hplain]|done|..].
  - intros _ w (fs & -> & Hfs). apply Hhalf. by right.
  - intros _ w (fs & -> & Hfs). by apply Hhalf.
  - intros w (fs & -> & Hfs). by apply ainv_dinv, Hhalf.
Qed.

(** A start of the agent resumes from the checkpoint. *)
Lemma restart_inv w0 : dinv w0 → triple (λ w, w = w0) start (λ _, ainv) (λ _ _, False) dinv.
Proof.
  intros Hd. unfold start, NewAuthLogCapturer. set (w1 := set_read [] (set_cap (fresh_capturer agentID opts hostIP) w0)).
  destruct Hd as [H1 H2 H3].
  assert (Hi1 : ainv w1).
  { split; cbn; rewrite ?app_nil_r; try done. intros lg Hlg. split; [apply covered_zero|by left]. }
  eapply triple_bind with (Q' := λ _ w, w = w1); [by apply triple_modify; intros w ->|]. intros _.
  eapply triple_bind with (Q' := λ _, ainv).
  - apply triple_try. unfold loadCheckpoint.
    eapply triple_bind with (Q' := λ c w, c = aw_cap w1 ∧ w = w1); [by apply triple_gets; intros w ->|]. intros c. apply triple_pure. intros ->. cbv zeta.
    change (TrimSpace (o_CheckpointPath (c_opts (aw_cap w1)))) with checkpoint_path. destruct (is_empty checkpoint_path); [by apply triple_ret; intros w ->|].
    eapply triple_bind with (Q' := λ r w, w = w1 ∧ match r with Read d => f_data <$> aw_files w1 !! checkpoint_path = Some d | _ => True end).
    { eapply triple_conseq; [apply (triple_zoom aw_files set_files w1), (ReadFile_reads checkpoint_path (aw_files w1))|done|..].
      - intros r w (fs & -> & -> & Hr). split; [by destruct w1|]. by destruct r.
      - intros e w (fs & -> & ->). by destruct w1.
      - intros w (fs & -> & ->). apply ainv_dinv. by destruct w1. }
    intros r. destruct r as [payload| |]; [|by apply triple_ret; intros w [-> _]|by apply triple_throw; intros w [-> _]].
    apply triple_pure_r. intros Hr. apply fmap_Some in Hr as (f & Hf & ->).
    destruct (accept_checkpoint _ _ _) as [e|[s|]] eqn:Hacc; [by apply triple_throw; intros w ->| |by apply triple_ret; intros w ->].
    apply triple_modify. intros w ->. unfold accept_checkpoint in Hacc. destruct (unmarshal _ _ _ _) as [s'|] eqn:Hu; [|done].
    destruct (negb _); [done|]. destruct (negb _); [done|]. destruct (cp_Offset s' <? 0); [done|]. injection Hacc as Hacc.
    assert (s' = s) as -> by (destruct (str_eqb _ _); congruence).
    destruct Hi1 as [I1 I2 I3 I4 I5 I6]. split; try done. intros lg Hlg. destruct (I3 lg Hlg f s Hf Hu). cbn. rewrite app_nil_r. by split.
  - intros [e|[]]; [|by apply triple_ret]. apply triple_modify. intros w Hi. destruct Hi. by split.
Qed.

Lemma survives_inv {A} (m : AM A) w0 v w' (Q : A → aworld → Prop) (R : string → aworld → Prop) :
  triple (λ w, w = w0) m Q R dinv → (∀ a w, Q a w → ainv w) → (∀ e w, R e w → ainv w) → survives (m v w0) w' → ainv w'.
Proof.
  intros Hm HQ HR Hs. specialize (Hm v w0 eq_refl). destruct (m v w0) as [[[a|e|] v'] w1]; destruct Hs as [Hne ->|v2 Hcr Hne ->]; cbn [fst snd] in *; try done; [by eapply HQ|by eapply HR|].
  pose proof (restart_inv w1 Hm v2 w1 eq_refl) as H. by destruct (start v2 w1) as [[[[]|e|] v3] w2].
Qed.

Lemma astep_inv w w' : ainv w → astep w w' → ainv w'.
Proof.
  intros Hi Hs. destruct Hs as [t|now v w' Hs|v w' Hs|v w' Hs|v w' Hs].
  - by apply append_inv.
  - eapply (survives_inv (Capture sha1_uuid now) w v w' (captured now w) (λ _ x, x = w ∨ x = idle w ∨ x = set_read [] (idle w))); [| | |exact Hs].
    + intros v0 x Hx. pose proof (Capture_spec now w v0 x Hx) as H. destruct (Capture sha1_uuid now v0 x) as [[[out|e|] v1] y]; try done.
      eapply dinv_durable; [exact H|by apply ainv_dinv].
    + intros out x Hx. by eapply captured_inv.
    + intros _ x [->|[->| ->]]; [done|by apply ainv_idle|]. rewrite idle_read by done. by apply ainv_idle.
  - eapply (survives_inv _ w v w' (λ _, ainv) (λ _, ainv)); [by apply Commit_inv|done..].
  - eapply (survives_inv Rollback w v w' (λ _, ainv) (λ _, ainv)); [|done..]. apply triple_modify. intros x ->. by apply rollback_inv.
  - eapply (survives_inv start w v w' (λ _, ainv) (λ _ _, False)); [by apply restart_inv, ainv_dinv|done..].
Qed.

(** A first start without a checkpoint. *)
Definition first_world (fs : files) (lg : logfile) (c : AuthLogCapturer) : aworld :=
  {| aw_files := fs; aw_logs := {[log_path := lg]}; aw_cap := c; aw_read := []; aw_done := [] |}.

Lemma first_dinv fs lg c : fs !! checkpoint_path = None → dinv (first_world fs lg c).
Proof.
  intros Hno. split.
  - exists lg. apply lookup_singleton_eq.
  - intros lg' _ e He. by apply not_elem_of_nil in He.
  - intros lg' _ f s Hf. cbn in Hf. congruence.
Qed.

Definition reachable (fs : files) (lg : logfile) (c : AuthLogCapturer) (w : aworld) : Prop :=
  ∃ v w1, survives (start v (first_world fs lg c)) w1 ∧ rtc astep w1 w.

Lemma log_reachable_inv fs lg c w : fs !! checkpoint_path = None → reachable fs lg c w → ainv w.
Proof.
  intros Hno (v & w1 & Hs & Hsteps). assert (Hi : ainv w1) by (eapply survives_inv, Hs; [by apply restart_inv, first_dinv|done..]).
  clear Hs. induction Hsteps; [done|]. eauto using astep_inv.
Qed.

(** ** Exactly once *)

(** A capture whose third call, the seek, does not fail reads on where it was. *)
Definition seek_ok (v : env) : Prop := e_faults v !! 2%nat ≠ Some FErr.

Definition read_on (now : time) (w0 w : aworld) : Prop :=
  ∃ lg n, let b := start_of lg (c_state (aw_cap (idle w0))) in
    aw_logs w0 !! o_Path (c_opts (aw_cap w0)) = Some lg ∧ c_loadErr (aw_cap w0) = None ∧
    w = pruned now (after_lines now (take n (lines_at b lg)) (begin_at b lg (idle w0))).

Lemma Capture_seeks now v w0 : seek_ok v →
  match Capture sha1_uuid now v w0 with (Ok _, _, w) => read_on now w0 w | _ => True end.
Proof.
  intros Hseek. unfold Capture, bindM at 1, gets at 1. destruct (c_loadErr (aw_cap w0)) eqn:Hle; [done|].
  pose proof (idle_same w0) as ([= Hf Hl Hd] & _). unfold bindM at 1, modify at 1. fold (idle w0). cbv zeta.
  destruct v as [fl clk]. unfold seek_ok in Hseek. cbn [e_faults] in Hseek.
  assert (Hend : ∀ v' lg, aw_logs w0 !! o_Path (c_opts (aw_cap w0)) = Some lg →
    match (c <- gets aw_cap;; let rest := drop (Z.to_nat (st_offset (c_state c))) (to_chars (lg_data lg)) in
           out <- read_loop sha1_uuid now (map of_chars (complete_lines rest)) [];;
           modify (on_cap (λ c, set_state (set_cache (pruneDedup (c_opts c) now (st_cache (c_state c))) (c_state c)) c));;;
           retM (E := string) out) v' (begin_at (start_of lg (c_state (aw_cap (idle w0)))) lg (idle w0)) with
    | (Ok _, _, w) => read_on now w0 w | _ => True end).
  { intros v' lg Hlg. set (b := start_of _ _). unfold bindM at 1, gets at 1.
    change (st_offset (c_state (aw_cap (begin_at b lg (idle w0))))) with b. cbv zeta. fold (lines_at b lg).
    pose proof (read_loop_spec now (begin_at b lg (idle w0)) ltac:(by eexists) (lines_at b lg) [] v' _ eq_refl) as H. unfold bindM at 1.
    destruct (read_loop _ _ _ _ _ _) as [[[out|e|] v1] w1]; [|done..]. destruct H as (n & -> & _). by exists lg, n. }
  assert (Hlk : ∀ v', gets (E := string) aw_logs v' (idle w0) = (Ok (aw_logs w0), v', idle w0)) by (intros; unfold gets; by rewrite Hl).
  destruct fl as [|[] fl]; unfold bindM at 1, sys_or at 1, bindM at 1, sys at 1, retM at 1, throw at 1; cbn [e_faults e_clock]; try done.
  all: unfold id at 1; unfold bindM at 1; rewrite Hlk; destruct (aw_logs w0 !! _) as [lg|] eqn:Hlg; [|done].
  2: destruct fl as [|[] fl].
  all: unfold bindM at 1, sys_or at 1, bindM at 1, sys at 1, retM at 1, throw at 1; cbn [e_faults e_clock]; try done.
  all: unfold id at 1; unfold bindM at 1, gets at 1; fold (moved lg (c_state (aw_cap (idle w0)))); fold (start_of lg (c_state (aw_cap (idle w0))));
    unfold bindM at 1, modify at 1; fold (begin_at (start_of lg (c_state (aw_cap (idle w0)))) lg (idle w0));
    unfold bindM at 1; destruct (0 <? _); try (unfold retM at 1; by apply Hend).
  destruct fl as [|[] fl]; cbn in Hseek; try done.
  all: unfold bindM at 1, sys at 1; cbn [e_faults e_clock negb]; unfold retM at 1; try done; by apply Hend.
Qed.

(** Steps in which commits succeed: the agent may still be killed during a capture and
    start again at any time. *)
Inductive calm (w : aworld) : aworld → Prop :=
  | calm_append t : calm w (append_log t w)
  | calm_capture now v w' : seek_ok v → survives (Capture sha1_uuid now v w) w' → calm w w'
  | calm_commit v v' w' : Commit suffix marshal v w = (Ok tt, v', w') → calm w w'
  | calm_rollback v w' : survives (Rollback v w) w' → calm w w'
  | calm_restart v w' : survives (start v w) w' → calm w w'.

Context (Hclean : Clean (Clean log_path) = Clean log_path).

(** The first [k] lines are done. *)
Definition upto (lg : logfile) (k : nat) : Z := size_of (take k (lines_of (lg_data lg))).

Definition disk_at (lg : logfile) (k : nat) (fs : files) : Prop :=
  match fs !! checkpoint_path with
  | None => k = 0%nat
  | Some f => ∃ s, unmarshal parse dec_checkpoint zero_checkpoint (f_data f) = Some s ∧ cp_Version s = 1 ∧ TrimSpace (cp_AgentID s) = TrimSpace agentID ∧
      Clean (cp_Path s) = Clean log_path ∧ cp_Offset s = upto lg k ∧ identity_ok lg (cp_Device s) (cp_Inode s)
  end.

Definition place (lg : logfile) (o : Z) (s : authLogCaptureState) : Prop :=
  st_offset s = o ∧ identity_ok lg (st_lastDevice s) (st_lastInode s).

(** The durable half and the capturer's half. *)
Definition kept (lg : logfile) (k : nat) (w : aworld) : Prop :=
  aw_logs w !! log_path = Some lg ∧ (k <= length (lines_of (lg_data lg)))%nat ∧ aw_done w = number 0 (take k (lines_of (lg_data lg))) ∧
  disk_at lg k (aw_files w).
Definition in_step (lg : logfile) (k : nat) (w : aworld) : Prop :=
  let c := aw_cap w in
  c_agentID c = agentID ∧ c_opts c = default_options opts ∧
  match c_pending c with
  | None => aw_read w = [] ∧ (c_loadErr c = None → place lg (upto lg k) (c_state c))
  | Some s => c_loadErr c = None ∧ place lg (upto lg k) s ∧ ∃ n, let ls := take n (drop k (lines_of (lg_data lg))) in
      aw_read w = number (upto lg k) ls ∧ place lg (upto lg k + size_of ls) (c_state c)
  end.
Definition cinv (w : aworld) : Prop := ∃ lg k, kept lg k w ∧ in_step lg k w.

Lemma start_at lg k s : place lg (upto lg k) s → start_of lg s = upto lg k.
Proof.
  intros [Ho Hid]. unfold start_of. assert (moved lg s = false) as ->.
  { unfold moved. destruct Hid as [->|[-> ->]]; [done|]. rewrite !Z.eqb_refl. by rewrite andb_false_r. }
  rewrite Ho. destruct (strlen (lg_data lg) <? upto lg k) eqn:E; [|done]. zbool. exfalso. unfold upto in E.
  pose proof (size_of_lines (lg_data lg)). rewrite <- (take_drop k (lines_of (lg_data lg))), size_of_app in H.
  pose proof (size_of_nonneg (drop k (lines_of (lg_data lg)))). lia.
Qed.

Lemma idle_in_step lg k w : kept lg k w → in_step lg k w → kept lg k (idle w) ∧ in_step lg k (idle w).
Proof.
  intros Hk (Ha & Hc & Hs). unfold idle. destruct (c_pending (aw_cap w)) as [s|] eqn:Hp.
  - split; [done|]. destruct Hs as (_ & Hpl & _). unfold in_step. cbn. unfold rollback_cap. rewrite Hp. by cbn.
  - split; [done|]. unfold in_step. by rewrite Hp.
Qed.

Lemma read_on_inv now w0 w : cinv w0 → read_on now w0 w → cinv w.
Proof.
  intros (lg & k & Hk & Hs) (lg' & n & Hlg & Hle & ->). destruct (idle_in_step lg k w0 Hk Hs) as [Hk1 (Ha & Hc & Hs1)].
  destruct Hs as (_ & Hc0 & _). rewrite Hc0 in Hlg. change (o_Path (default_options opts)) with log_path in Hlg.
  assert (lg' = lg) as -> by (destruct Hk; congruence). clear Hlg. rewrite idle_pending in Hs1. destruct Hs1 as [Hr Hs1].
  pose proof (idle_same w0) as (_ & _ & _ & Hle1 & _). rewrite Hle in Hle1. specialize (Hs1 Hle1). rewrite (start_at lg k) by done.
  set (w1 := idle w0) in *. assert (lines_at (upto lg k) lg = drop k (lines_of (lg_data lg))) as -> by apply lines_from.
  set (ls := take n (drop k (lines_of (lg_data lg)))). exists lg, k. split; [exact Hk1|].
  pose proof (take_lines_same now ls (aw_cap (begin_at (upto lg k) lg w1))) as [(H1 & H2 & _ & H4 & H5 & H6 & H7) Hoff].
  unfold in_step, pruned, on_cap, after_lines. cbn [aw_cap aw_read set_cap set_read c_pending set_state c_agentID c_opts c_loadErr c_state].
  rewrite H1, H2, H4, H5. split; [exact Ha|]. split; [exact Hc|]. cbn [begin_at set_read aw_cap set_cap set_pending c_pending set_state].
  split; [exact Hle1|]. split; [exact Hs1|]. exists n. cbn zeta. fold ls. split; [done|]. split; [exact Hoff|].
  right. split; [exact H7|exact H6].
Qed.

Lemma cinv_append t w : cinv w → cinv (append_log t w).
Proof.
  intros (lg & k & (Hlg & Hk & Hd & Hf) & (Ha & Hc & Hs)). set (lg' := {| lg_device := lg_device lg; lg_inode := lg_inode lg; lg_data := lg_data lg +:+ t |}).
  destruct (lines_of_append (lg_data lg) t) as [r Hr]. assert (HL : lines_of (lg_data lg') = lines_of (lg_data lg) ++ r) by done.
  assert (Hup : upto lg' k = upto lg k) by (unfold upto; by rewrite HL, take_app_le).
  exists lg', k. unfold kept, in_step, disk_at. rewrite Hup, HL. split.
  - split; [unfold append_log; cbn [aw_logs]; by rewrite lookup_alter_eq, Hlg|]. rewrite length_app, take_app_le by done. split; [lia|]. by split.
  - split; [done|]. split; [done|]. cbn [append_log aw_cap aw_read]. destruct (c_pending (aw_cap w)); [|exact Hs].
    destruct Hs as (? & ? & n & Hread & Hst). split; [done|]. split; [done|]. rewrite drop_app_le by done.
    exists (n `min` length (drop k (lines_of (lg_data lg))))%nat. cbn zeta in *. rewrite take_app_le by lia.
    assert (take (n `min` length (drop k (lines_of (lg_data lg)))) (drop k (lines_of (lg_data lg))) = take n (drop k (lines_of (lg_data lg)))) as ->; [|done].
    destruct (decide (n <= length (drop k (lines_of (lg_data lg))))%nat); [by rewrite Nat.min_l|]. rewrite Nat.min_r by lia. by rewrite !take_ge by lia.
Qed.

Lemma checkpoint_path_nonempty : is_empty checkpoint_path = false.
Proof using Hplain. apply andb_true_iff in Hplain as [H _]. by apply negb_true_iff in H. Qed.

Lemma Commit_calm v w0 v' w : cinv w0 → Commit suffix marshal v w0 = (Ok tt, v', w) → cinv w.
Proof.
  intros (lg & k & Hk & Hs) Hrun. pose proof Hk as (Hlg & Hle & Hd & Hf). destruct Hs as (Ha & Hc & Hs). revert Hrun.
  unfold Commit, bindM at 1, gets at 1. destruct (c_pending (aw_cap w0)) as [s|] eqn:Hp.
  2: { intros [= <- <-]. exists lg, k. split; [done|]. unfold in_step. by rewrite Hp. }
  destruct Hs as (Hload & Hpl & n & Hread & Hst). set (ls := take n (drop k (lines_of (lg_data lg)))) in *. cbv zeta.
  unfold bindM at 1, modify at 1. set (w1 := set_read [] _). rewrite Hc. change (TrimSpace (o_CheckpointPath (default_options opts))) with checkpoint_path.
  rewrite checkpoint_path_nonempty. destruct (marshal _) as [payload|] eqn:Hm; [|done]. intros Hrun.
  pose proof (triple_zoom aw_files set_files w1 _ _ _ _ (triple_wrap "persist authlog checkpoint" _ _ _ _ _
    (AtomicWriteFile_spec suffix suffix_fresh [checkpoint_path] Hvisible checkpoint_path (payload +:+ newline_text) 384 (aw_files w1) ltac:(by left) Hplain)) v w1 eq_refl) as H.
  unfold onFiles in Hrun. rewrite Hrun in H. destruct H as (fs & -> & Hrep).
  set (k' := (length (take k (lines_of (lg_data lg))) + n)%nat).
  assert (Htake : take k (lines_of (lg_data lg)) ++ ls = take k' (lines_of (lg_data lg))) by apply take_more.
  exists lg, (k' `min` length (lines_of (lg_data lg)))%nat. set (k'' := (_ `min` _)%nat).
  assert (Hk'' : take k'' (lines_of (lg_data lg)) = take k' (lines_of (lg_data lg))).
  { unfold k''. destruct (decide (k' <= length (lines_of (lg_data lg)))%nat); [by rewrite Nat.min_l|]. rewrite Nat.min_r by lia. by rewrite !take_ge by lia. }
  assert (Hup : upto lg k'' = upto lg k + size_of ls) by (unfold upto; by rewrite Hk'', <- Htake, size_of_app).
  split; [|split; [exact Ha|]; split; [exact Hc|]; cbn; split; [done|]; intros _; by rewrite Hup].
  split; [exact Hlg|]. split; [lia|]. split.
  - cbn. by rewrite Hk'', <- Htake, number_app, Hd, Hread.
  - unfold disk_at. cbn [set_files aw_files]. rewrite (Hrep checkpoint_path), lookup_insert_eq by by left. cbn [f_data].
    exists (checkpoint_of (aw_cap w0)). split; [by apply marshal_parse|]. unfold checkpoint_of. cbn. rewrite Ha, Hc, Hup. destruct Hst as [Ho Hid].
    split_and!; [done|apply TrimSpace_idem|exact Hclean|exact Ho|exact Hid].
Qed.

Lemma start_calm lg k w0 : kept lg k w0 → triple (λ w, w = w0) start (λ _, cinv) (λ _ _, False) (kept lg k).
Proof.
  intros Hk. unfold start, NewAuthLogCapturer. set (w1 := set_read [] (set_cap (fresh_capturer agentID opts hostIP) w0)).
  eapply triple_bind with (Q' := λ _ w, w = w1); [by apply triple_modify; intros w ->|]. intros _.
  eapply triple_bind with (Q' := λ r w, kept lg k w ∧ match r with inl _ => w = w1 | inr _ => in_step lg k w end).
  - apply triple_try. unfold loadCheckpoint.
    eapply triple_bind with (Q' := λ c w, c = aw_cap w1 ∧ w = w1); [by apply triple_gets; intros w ->|]. intros c. apply triple_pure. intros ->. cbv zeta.
    change (TrimSpace (o_CheckpointPath (c_opts (aw_cap w1)))) with checkpoint_path. rewrite checkpoint_path_nonempty.
    eapply triple_bind with (Q' := λ r w, w = w1 ∧ match r with Read d => f_data <$> aw_files w1 !! checkpoint_path = Some d
        | NotExist => aw_files w1 !! checkpoint_path = None | _ => True end).
    { eapply triple_conseq; [apply (triple_zoom aw_files set_files w1), (ReadFile_reads checkpoint_path (aw_files w1))|done|..].
      - intros r w (fs & -> & -> & Hr). split; [by destruct w1|]. by destruct r.
      - intros e w (fs & -> & ->). by split.
      - by intros w (fs & -> & ->). }
    intros r. apply triple_start. intros w [-> Hr]. destruct Hk as (H1 & H2 & H3 & H4).
    assert (Hk1 : kept lg k w1) by done. unfold disk_at in H4. change (aw_files w1) with (aw_files w0) in Hr. destruct r as [payload| |].
    + apply fmap_Some in Hr as (f & Hf & ->). rewrite Hf in H4. destruct H4 as (s & Hu & Hv & Hag & Hpath & Ho & Hid). unfold accept_checkpoint.
      rewrite Hu, Hv. change (negb (1 =? 1)) with false. cbn iota. change (c_agentID (aw_cap w1)) with agentID.
      rewrite (proj2 (str_eqb_eq _ _) Hag). cbn [negb]. destruct (cp_Offset s <? 0) eqn:E; [apply triple_throw; intros w ->; by split|].
      change (o_Path (c_opts (aw_cap w1))) with log_path. rewrite (proj2 (str_eqb_eq _ _) Hpath). apply triple_modify. intros w ->.
      split; [exact Hk1|]. split; [done|]. split; [done|]. cbn. split; [done|]. intros _. by split.
    + apply triple_ret. intros w ->. split; [exact Hk1|]. split; [done|]. split; [done|]. cbn. split; [done|]. intros _.
      rewrite Hr in H4. subst k. unfold upto. rewrite take_0. split; [done|by left].
    + apply triple_throw. intros w ->. by split.
  - intros [e|[]]; [|apply triple_ret; intros w [H1 H2]; by exists lg, k]. apply triple_modify. intros w [H1 ->]. exists lg, k.
    split; [exact H1|]. split; [done|]. split; [done|]. cbn. by split.
Qed.

Lemma kept_durable lg k w w' : durable w' = durable w → kept lg k w → kept lg k w'.
Proof. intros [= H1 H2 H3] (? & ? & ? & ?). unfold kept. by rewrite H1, H2, H3. Qed.

(** A method that keeps the invariant, or leaves the durable half to the next start. *)
Lemma survives_calm {A} (m : AM A) v w w' lg k :
  match m v w with (Crashed, _, x) => kept lg k x | (_, _, x) => cinv x end → survives (m v w) w' → cinv w'.
Proof.
  intros Hm Hs. destruct (m v w) as [[[a|e|] v'] x]; destruct Hs as [Hne ->|v2 Hcr Hne ->]; cbn [fst snd] in *; try done.
  pose proof (start_calm lg k x Hm v2 x eq_refl) as H. by destruct (start v2 x) as [[[[]|e|] v3] y].
Qed.

Lemma calm_inv w w' : cinv w → calm w w' → cinv w'.
Proof.
  intros Hi Hs. pose proof Hi as (lg & k & Hk & Hst). destruct Hs as [t|now v w' Hseek Hs|v v' w' Hs|v w' Hs|v w' Hs].
  - by apply cinv_append.
  - eapply (survives_calm _ v w w' lg k), Hs. pose proof (Capture_spec now w v w eq_refl) as H. pose proof (Capture_seeks now v w Hseek) as H'.
    destruct (idle_in_step lg k w Hk Hst) as [H1 H2].
    destruct (Capture sha1_uuid now v w) as [[[out|e|] v1] x]; [by eapply read_on_inv| |by eapply kept_durable].
    assert (set_read [] (idle w) = idle w) as Hr.
    { destruct H2 as (_ & _ & H2). rewrite idle_pending in H2. destruct H2 as [H2 _]. destruct (idle w). cbn in *. by subst. }
    rewrite Hr in H. destruct H as [->|[->| ->]]; [done|by exists lg, k..].
  - by eapply Commit_calm.
  - eapply (survives_calm _ v w w' lg k), Hs. cbn. destruct (idle_in_step lg k w Hk Hst) as [H1 H2]. unfold idle in *.
    destruct (c_pending (aw_cap w)) as [s|] eqn:Hp; [by exists lg, k|]. exists lg, k. split; [exact Hk|]. unfold in_step in *. cbn. unfold rollback_cap.
    rewrite Hp in *. cbn. rewrite Hp in *. destruct Hst as (? & ? & ? & ?). by split_and!.
  - eapply (survives_calm _ v w w' lg k), Hs. pose proof (start_calm lg k w Hk v w eq_refl) as H. by destruct (start v w) as [[[[]|e|] v3] y].
Qed.

Definition calm_reachable (fs : files) (lg : logfile) (c : AuthLogCapturer) (w : aworld) : Prop :=
  ∃ v w1, survives (start v (first_world fs lg c)) w1 ∧ rtc calm w1 w.

Lemma calm_reachable_inv fs lg c w : fs !! checkpoint_path = None → calm_reachable fs lg c w → cinv w.
Proof.
  intros Hno (v & w1 & Hs & Hsteps). assert (Hi : cinv w1).
  { assert (Hk : kept lg 0 (first_world fs lg c)).
    { split; [apply lookup_singleton_eq|]. split; [lia|]. split; [done|]. unfold disk_at. cbn. by rewrite Hno. }
    eapply (survives_calm _ v _ w1 lg 0), Hs. pose proof (start_calm lg 0 _ Hk v _ eq_refl) as H. by destruct (start v _) as [[[[]|e|] v3] y]. }
  clear Hs. induction Hsteps; [done|]. eauto using calm_inv.
Qed.
End reading.

(** ** Failed passwords *)

(** A word without white space, and a decimal number. *)
Definition token (s : string) : Prop := to_chars s ≠ [] ∧ Forall (λ a, is_ascii a ∧ nonspace [a] = true) (to_chars s).
Definition decimal (s : string) : Prop := to_chars s ≠ [] ∧ Forall (λ a, is_ascii a ∧ digit_ [a] = true) (to_chars s).
#[export] Instance token_dec s : Decision (token s).
Proof. unfold token. apply _. Defined.
#[export] Instance decimal_dec s : Decision (decimal s).
Proof. unfold decimal. apply _. Defined.

Lemma run_reFailed user ip port (l : list ascii) : token user → token ip → decimal port → stops digit_ l →
  ∃ mm, (∀ prev, run reFailed ∅ (prev, to_chars "Failed password for invalid user " ++ to_chars user ++ to_chars " from " ++ to_chars ip ++
                              to_chars " port " ++ to_chars port ++ l) (λ c _, Some c) = Some mm) ∧
    group mm 2 = user ∧ group mm 3 = ip ∧ group mm 4 = port.
Proof.
  intros [Hu1 Hu2] [Hi1 Hi2] [Hp1 Hp2] Hl. eexists. split.
  - intros prev. change (to_chars "Failed password for invalid user ") with (to_chars "Failed password for " ++ to_chars "invalid user ").
    rewrite <- (app_assoc (to_chars "Failed password for ")). unfold reFailed, lit. cbn [seq run].
    rewrite run_lit by (apply (bool_decide_unpack _); vm_compute; exact I). unfold opt. cbn [run].
    rewrite run_lit by (apply (bool_decide_unpack _); vm_compute; exact I). rewrite between_app.
    assert (Hsp : ∀ s l, stops nonspace (to_chars (" " +:+ s) ++ l)) by (intros; split; [|done]; by apply (bool_decide_unpack _)).
    erewrite (run_plus nonspace (to_chars user)); [reflexivity|done|done|apply (Hsp "from ")|].
    rewrite run_lit by (apply (bool_decide_unpack _); vm_compute; exact I).
    erewrite (run_plus nonspace (to_chars ip)); [reflexivity|done|done|apply (Hsp "port ")|].
    rewrite run_lit by (apply (bool_decide_unpack _); vm_compute; exact I).
    erewrite (run_plus digit_ (to_chars port)); [reflexivity|done|done|done|]. rewrite !between_app, !of_to_chars. reflexivity.
  - unfold group. by simplify_map_eq.
Qed.

(** The name a client asks for in an SSH login may contain spaces; sshd logs it as it is. *)
Definition sshd_failed (prefix name peer port : string) : string :=
  prefix +:+ "Failed password for invalid user " +:+ name +:+ " from " +:+ peer +:+ " port " +:+ port +:+ " ssh2".

(** The source of a failed login (parseLine).  When the name the client asked for has
    the form "user from address port number", the event carries the user, the address
    and the port the client wrote into it; the address of the connection, which sshd
    appends, is not seen. *)
Theorem failed_login_source_is_forgeable c now prefix user address number peer port :
  Forall (λ a, is_ascii a ∧ a ≠ "F"%char) (to_chars prefix) → token user → token address → decimal number →
  let line := sshd_failed prefix (user +:+ " from " +:+ address +:+ " port " +:+ number) peer port in
  TrimSpace line = line → MatchString reSudoCmd line = false →
  parseLine c now line = Some (ssh_event c now "failed_password" user address number line).
Proof.
  intros Hpre Hu Ha Hn line Htrim Hsudo. unfold parseLine. rewrite Htrim.
  set (rest := " from " +:+ peer +:+ " port " +:+ port +:+ " ssh2").
  assert (Hline : to_chars line = to_chars prefix ++ (to_chars "Failed password for invalid user " ++ to_chars user ++ to_chars " from " ++
                                   to_chars address ++ to_chars " port " ++ to_chars number ++ to_chars rest)).
  { unfold line, sshd_failed, rest. rewrite !to_chars_app, <- !app_assoc. done. }
  assert (is_empty line = false) as ->.
  { apply is_empty_false. intros He. rewrite He in Hline. apply (f_equal length) in Hline. rewrite !length_app in Hline. cbn in Hline. lia. }
  unfold MatchString in Hsudo. destruct (FindStringSubmatch reSudoCmd line); [done|].
  assert (Hm : ∃ mm, FindStringSubmatch reFailed line = Some mm ∧ group mm 2 = user ∧ group mm 3 = address ∧ group mm 4 = number).
  { assert (Hrest : stops digit_ (to_chars rest)) by (split; [|done]; by apply (bool_decide_unpack _)).
    destruct (run_reFailed user address number (to_chars rest) Hu Ha Hn Hrest) as (mm & Hrun & Hg). exists mm. split; [|exact Hg].
    unfold FindStringSubmatch. rewrite Hline. apply find_skips; [|rewrite length_app; lia| |exact Hrun].
    - eapply Forall_impl; [exact Hpre|]. by intros a [??].
    - intros w1 w2 prev Hw Hne. destruct w2 as [|b w2]; [done|]. rewrite Hw in Hpre. apply Forall_app in Hpre as [_ Hpre].
      apply Forall_cons in Hpre as [[Hb HbF] _]. by apply run_chr_other. }
  destruct Hm as (mm & -> & -> & -> & ->). done.
Qed.

Lemma failed_login_source_is_forgeable_witness :
  let c := fresh_capturer "agent" {| o_Path := ""; o_CheckpointPath := ""; o_MaxBatchSize := 0; o_DedupTTL := 0; o_IncludeAccepted := false |} "10.0.0.5" in
  let line := sshd_failed "sshd[7]: " ("root" +:+ " from " +:+ "192.0.2.1" +:+ " port " +:+ "22") "203.0.113.9" "50000" in
  parseLine c 7 line = Some (ssh_event c 7 "failed_password" "root" "192.0.2.1" "22" line) ∧
  ne_SrcIP (ssh_event c 7 "failed_password" "root" "192.0.2.1" "22" line).1 = "192.0.2.1".
Proof.
  split; [|vm_compute; reflexivity].
  apply (failed_login_source_is_forgeable _ 7 "sshd[7]: " "root" "192.0.2.1" "22" "203.0.113.9" "50000").
  all: first [apply (bool_decide_unpack _); vm_compute; exact I|vm_compute; reflexivity].
Defined.

(** ** Checkpoints *)

(** No line of the log is lost.  Whatever calls fail and wherever the agent is killed
    and starts again, as long as the log only grows: the lines counted as committed
    are lines of the log, the capturer's place is the end of a line, and every line
    before it was committed or belongs to the capture in progress. *)
Theorem no_line_lost suffix marshal parse sha1_uuid agentID hostIP opts fs lg c w :
  (∀ fs path, fs !! temp_path suffix fs path = None) →
  (∀ s b, marshal s = Some b → unmarshal parse dec_checkpoint zero_checkpoint (b +:+ newline_text) = Some s) →
  plain_path (checkpoint_path opts) = true → no_temp [checkpoint_path opts] = true → fs !! checkpoint_path opts = None →
  reachable suffix marshal parse sha1_uuid agentID hostIP opts fs lg c w →
  ∃ lg', aw_logs w !! log_path opts = Some lg' ∧
    (∀ e, e ∈ aw_done w → e ∈ number 0 (lines_of (lg_data lg'))) ∧
    ∃ k, st_offset (c_state (aw_cap w)) = size_of (take k (lines_of (lg_data lg'))) ∧
      ∀ e, e ∈ number 0 (take k (lines_of (lg_data lg'))) → e ∈ aw_done w ∨ (c_pending (aw_cap w) ≠ None ∧ e ∈ aw_read w).
Proof.
  intros Hsuf Hmp Hpl Hvis Hno Hr.
  pose proof (log_reachable_inv suffix marshal parse sha1_uuid agentID hostIP opts Hsuf Hmp Hpl Hvis fs lg c w Hno Hr) as [[lg' Hlg] Hreal _ _ Hst Hpd].
  exists lg'. split; [done|]. split; [intros e He; apply (Hreal lg' Hlg), elem_of_app; by left|].
  destruct (Hst lg' Hlg) as [(k & Hk & Hin) _]. exists k. split; [done|]. intros e He. specialize (Hpd lg' Hlg).
  apply Hin, elem_of_app in He as [He|He]; [by left|right]. split; [|done]. intros Hp. rewrite Hp in Hpd. rewrite Hpd in He. by apply not_elem_of_nil in He.
Qed.


(** ** Examples *)

Definition demo_opts : AuthLogOptions :=
  {| o_Path := "/var/log/auth.log"; o_CheckpointPath := "/var/lib/agent/authlog.json"; o_MaxBatchSize := 10; o_DedupTTL := 0; o_IncludeAccepted := false |}.
Definition demo_line (user : string) : string := "sudo: " +:+ user +:+ " : TTY=pts/0 ; PWD=/ ; USER=root ; COMMAND=/bin/id" +:+ newline_text.
Definition demo_log : logfile := {| lg_device := 1; lg_inode := 9; lg_data := demo_line "alice" +:+ demo_line "bob" |}.
Definition demo_cp : authLogCheckpoint :=
  {| cp_Version := 1; cp_AgentID := "agent"; cp_Path := "/var/log/auth.log"; cp_Device := 1; cp_Inode := 9; cp_Offset := strlen (lg_data demo_log) |}.
#[export] Instance authLogCheckpoint_eq_dec : EqDecision authLogCheckpoint.
Proof. solve_decision. Defined.
Definition demo_marshal (s : authLogCheckpoint) : option string := if decide (s = demo_cp) then Some "checkpoint"%string else None.
Definition demo_parse (s : string) : option json :=
  if str_eqb s ("checkpoint" +:+ newline_text) then
    Some (JObj [("version", JInt 1); ("agent_id", JStr "agent"); ("path", JStr "/var/log/auth.log"); ("device", JInt 1); ("inode", JInt 9);
                ("offset", JInt (strlen (lg_data demo_log)))])
  else None.

Lemma demo_marshal_parse s b : demo_marshal s = Some b → unmarshal demo_parse dec_checkpoint zero_checkpoint (b +:+ newline_text) = Some s.
Proof. unfold demo_marshal. destruct (decide (s = demo_cp)) as [->|]; [|done]. intros [= <-]. vm_compute. reflexivity. Qed.

(** The first start, a capture of two lines, its commit, and a restart. *)
Definition demo_start (w : aworld) : aworld := (start demo_parse "agent" "10.0.0.5" demo_opts (quiet 0) w).2.
Definition demo_w0 : aworld := first_world demo_opts ∅ demo_log (fresh_capturer "agent" demo_opts "").
Definition demo_w1 : aworld := demo_start demo_w0.
Definition demo_w2 : aworld := (Capture (λ s, s) 100 (quiet 0) demo_w1).2.
Definition demo_w3 : aworld := (Commit long_suffix demo_marshal (quiet 0) demo_w2).2.
Definition demo_w4 : aworld := demo_start demo_w3.

Lemma demo_survives {A} (m : AM A) v w w' : w' = (m v w).2 → (m v w).1.1 ≠ Crashed → survives demo_parse "agent" "10.0.0.5" demo_opts (m v w) w'.
Proof. intros -> H. by constructor. Qed.

Lemma no_line_lost_witness :
  reachable long_suffix demo_marshal demo_parse (λ s, s) "agent" "10.0.0.5" demo_opts ∅ demo_log (fresh_capturer "agent" demo_opts "") demo_w4 ∧
  map fst (aw_done demo_w4) = [0; 62] ∧
  ∃ lg', aw_logs demo_w4 !! log_path demo_opts = Some lg' ∧ (∀ e, e ∈ aw_done demo_w4 → e ∈ number 0 (lines_of (lg_data lg'))).
Proof.
  assert (Hr : reachable long_suffix demo_marshal demo_parse (λ s, s) "agent" "10.0.0.5" demo_opts ∅ demo_log (fresh_capturer "agent" demo_opts "") demo_w4).
  { exists (quiet 0), demo_w1. split; [apply demo_survives; [reflexivity|vm_compute; discriminate]|].
    eapply rtc_l; [apply (step_capture _ _ _ _ _ _ _ _ 100 (quiet 0) demo_w2), demo_survives; [reflexivity|vm_compute; discriminate]|].
    eapply rtc_l; [apply (step_commit _ _ _ _ _ _ _ _ (quiet 0) demo_w3), demo_survives; [reflexivity|vm_compute; discriminate]|].
    eapply rtc_l; [apply (step_restart _ _ _ _ _ _ _ _ (quiet 0) demo_w4), demo_survives; [reflexivity|vm_compute; discriminate]|]. apply rtc_refl. }
  split; [exact Hr|]. split; [vm_compute; reflexivity|].
  destruct (no_line_lost long_suffix demo_marshal demo_parse (λ s, s) "agent" "10.0.0.5" demo_opts ∅ demo_log (fresh_capturer "agent" demo_opts "") demo_w4)
    as (lg' & H1 & H2 & _); [exact long_suffix_fresh|exact demo_marshal_parse|vm_compute; reflexivity|vm_compute; reflexivity|reflexivity|exact Hr|].
  exists lg'. split; [exact H1|exact H2].
Defined.


(** The log is rotated between two captures: what was appended to the old file after the
    first is never read. *)
Definition rotated (w : aworld) : aworld :=
  {| aw_files := aw_files w; aw_logs := <["/var/log/auth.log" := {| lg_device := 1; lg_inode := 10; lg_data := demo_line "dave" |}]> (aw_logs w);
     aw_cap := aw_cap w; aw_read := aw_read w; aw_done := aw_done w |}.
Definition demo_w5 : aworld := rotated (append_log demo_opts (demo_line "carol") demo_w3).
Definition users (o : outcome string (list NetEvent)) : list (option string) :=
  match o with Ok evs => map (λ e, extra_string e "username") evs | _ => [] end.

Lemma rotation_loses_tail :
  users (Capture (λ s, s) 100 (quiet 0) demo_w1).1.1 = [Some "alice"; Some "bob"] ∧
  users (Capture (λ s, s) 200 (quiet 0) (append_log demo_opts (demo_line "carol") demo_w3)).1.1 = [Some "carol"] ∧
  users (Capture (λ s, s) 200 (quiet 0) demo_w5).1.1 = [Some "dave"].
Proof. vm_compute. done. Qed.
