(* ===== verification/Settings.v ===== *)
(** * Settings: the agent's configuration (internal/config/config.go,
      validation.go, log.go)

    [LoadConfig] reads the environment, validates what must hold before the
    agent starts and fills in defaults for the rest.  The fields of [Config] are
    grouped in records, in the order of the Go struct.  A fatal log message is
    an error.  Parameters: the environment and the files it names,
    [time.ParseDuration], [strconv.ParseFloat], [net.ParseCIDR], [url.Parse], what
    [Enroll.LoadIdentityState] returns, and what the file system says of the
    executables of the allowlist. *)

From S2P Require Import Prelude GoStr GoText FileUtil Net GoJson Float Protocol RuntimeConfig Enroll.
From Stdlib Require Import Ascii.

Local Open Scope Z_scope.
Local Open Scope go_scope.

(** ** Constants *)

Definition defaultL7Sources : string := "authlog,proc,proc_exec,fim,scan,ddos,l7".
Definition DefaultL7DedupTTL : duration := 20 * second.
Definition DefaultL7MaxBatch : Z := 400.
Definition DefaultL7MaxPayloadBytes : Z := 512.
Definition MaxL7MaxBatch : Z := 2000.
Definition MaxL7MaxPayloadBytes : Z := 4096.

Inductive LogLevel := LevelDebug | LevelInfo | LevelWarn | LevelError.

(** ** The configuration *)

Record CoreSettings := {
  cfg_AgentID : string; cfg_APIURL : string; cfg_EnrollURL : string; cfg_Sources : list string; cfg_AllowedSources : option (list string);
  cfg_Interval : duration; cfg_HTTPTimeout : duration; cfg_SenderMaxBatch : Z; cfg_Profile : string }.

Record SpoolSettings := {
  cfg_SpoolDir : string; cfg_SpoolMaxBytes : Z; cfg_SpoolMaxAge : duration; cfg_SpoolMaxItems : Z }.

Record IdentitySettings := {
  cfg_AgentConfigFile : string; cfg_AgentIdentityStateFile : string; cfg_BootstrapToken : string; cfg_BootstrapTokenFile : string;
  cfg_AgentCredential : string; cfg_AgentCredentialExpiresAt : string; cfg_CredentialFile : string; cfg_RenewalToken : string;
  cfg_RenewalTokenExpiresAt : string; cfg_PreviousRenewalToken : string; cfg_PreviousRenewalTokenExpiresAt : string;
  cfg_BootstrapTokenConsumed : bool }.

Record TLSSettings := {
  cfg_TLSCAFile : string; cfg_TLSCertFile : string; cfg_TLSKeyFile : string; cfg_TLSServerName : string }.

Record ControlSettings := {
  cfg_ControlHeartbeatEvery : duration; cfg_ControlHeartbeatJitter : duration; cfg_ControlConfigEvery : duration; cfg_ControlConfigJitter : duration;
  cfg_ControlResponsePollEvery : duration; cfg_ControlResponsePollJitter : duration; cfg_ControlEnrollTimeout : duration;
  cfg_ForceEnrollOnStart : bool; cfg_CredentialRotateEvery : duration; cfg_CredentialRotateBefore : duration; cfg_CertRotateEvery : duration;
  cfg_CertRotateBefore : duration; cfg_ResponseActionStageMax : Z; cfg_ResponseActionJournalDir : string; cfg_ResponseActionJournalMax : Z;
  cfg_ResponseActionJournalSize : Z; cfg_ResponseQuarantineDir : string; cfg_AllowShellExec : bool; cfg_ShellExecAllowlist : list string }.

Record SyscollectSettings := {
  cfg_SyscollectEvery : duration; cfg_SyscollectStartupJitter : duration; cfg_SyscollectCmdTimeout : duration; cfg_SyscollectMaxOutputBytes : Z;
  cfg_SyscollectMaxPackages : Z; cfg_SyscollectHostRoot : string }.

Record VulnSettings := {
  cfg_VulnScanEvery : duration; cfg_VulnStartupJitter : duration; cfg_VulnOSVURL : string; cfg_VulnMinSeverity : string;
  cfg_VulnAnalysisProfile : string; cfg_VulnExposureEnabled : bool; cfg_VulnQueryBatchSize : Z; cfg_VulnCmdTimeout : duration;
  cfg_VulnHTTPTimeout : duration; cfg_VulnMaxOutputBytes : Z; cfg_VulnMaxPackages : Z; cfg_VulnHostRoot : string; cfg_VulnEmitSummaryEvent : bool }.

Record AuthSettings := {
  cfg_AuthLogPath : string; cfg_AuthCheckpointFile : string; cfg_AuthIncludeAccepted : bool; cfg_AuthDedupTTL : duration }.

Record ProcSettings := {
  cfg_ProcTCP4Path : string; cfg_ProcTCP6Path : string; cfg_SkipLoopback : bool; cfg_SkipLinkLocal : bool; cfg_SkipPrivateToPrivate : bool;
  cfg_ProcDropLikelyOutbound : bool; cfg_EphemeralPortMin : Z; cfg_DedupTTL : duration; cfg_EstablishedTTL : duration; cfg_DenyCIDRs : list ipnet;
  cfg_DenyDstPorts : gset Z; cfg_DenySrcPorts : gset Z }.

Record ProcExecSettings := {
  cfg_ProcExecEvery : duration; cfg_ProcExecMaxBatch : Z; cfg_ProcExecHashEnabled : bool; cfg_ProcExecHashMaxBytes : Z;
  cfg_ProcExecEmitInitial : bool; cfg_ProcExecIgnoreExeNames : gmap string bool; cfg_ProcExecIgnoreCmdContains : list string }.

Record FIMSettings := {
  cfg_FIMEvery : duration; cfg_FIMMaxBatch : Z; cfg_FIMMaxDepth : Z; cfg_FIMHashEnabled : bool; cfg_FIMHashMaxBytes : Z; cfg_FIMEmitInitial : bool;
  cfg_FIMWatchPaths : list string; cfg_FIMExcludePaths : list string }.

Record L7Settings := {
  cfg_L7Iface : string; cfg_L7DedupTTL : duration; cfg_L7MaxBatch : Z; cfg_L7MaxPayloadBytes : Z; cfg_L7IncludePayload : bool }.

Record LateralSettings := {
  cfg_LateralMode : string; cfg_LateralIface : string; cfg_LateralPorts : gset Z; cfg_LateralIncludeEstablished : bool;
  cfg_LateralDedupTTL : duration; cfg_LateralMaxBatch : Z }.

Record ScanSettings := {
  cfg_ScanIface : string; cfg_ScanDedupTTL : duration; cfg_ScanMaxBatch : Z; cfg_ScanMode : string }.

Record DDoSSettings := {
  cfg_DDoSIface : string; cfg_DDoSWindow : duration; cfg_DDoSEvalEvery : duration; cfg_DDoSCooldown : duration; cfg_DDoSSustainWindows : Z;
  cfg_DDoSBaselineWarmupWindows : Z; cfg_DDoSBaselineAlpha : float64; cfg_DDoSBaselineFactor : float64; cfg_DDoSMinPPS : float64;
  cfg_DDoSMinBPS : float64; cfg_DDoSMinPackets : Z; cfg_DDoSMinRequests : Z; cfg_DDoSMinConfidence : Z; cfg_DDoSMinSynRatio : float64;
  cfg_DDoSMinSrcIPs : Z; cfg_DDoSMinSrcEntropyNorm : float64; cfg_DDoSEnableL7 : bool; cfg_DDoSMinHTTPRPS : float64; cfg_DDoSMinTLSHSRPS : float64;
  cfg_DDoSMinL7Ratio : float64; cfg_DDoSEnableEntropy : bool; cfg_DDoSMinSrcEntropyNormSignal : float64; cfg_DDoSMinPortEntropyNorm : float64;
  cfg_DDoSPortEntropyTopN : Z; cfg_DDoSCardinalityMode : string; cfg_DDoSHLLPrecision : Z; cfg_DDoSBloomBits : Z; cfg_DDoSMaxUniqueSrc : Z;
  cfg_DDoSTopSrc : Z; cfg_DDoSMaxBatch : Z; cfg_DDoSBackpressureHighWM : Z; cfg_DDoSBackpressureSampleEvery : Z }.

Record NetCtxSettings := {
  cfg_NetCtxMaxInterfaces : Z; cfg_NetCtxMaxNeighbors : Z; cfg_NetCtxMaxRoutes : Z; cfg_NetCtxMaxResolvers : Z }.

Record TopologySettings := {
  cfg_TopologyActiveDiscoveryEnabled : bool; cfg_TopologyActiveDiscoveryCIDRs : list ipnet; cfg_TopologyActiveDiscoveryAllowPublic : bool;
  cfg_TopologyActiveDiscoveryInterval : duration; cfg_TopologyActiveDiscoveryMaxHosts : Z; cfg_TopologyActiveDiscoveryRateLimit : Z;
  cfg_TopologyActiveDiscoveryTimeout : duration }.

Record LogSettings := {
  cfg_LogLevel : LogLevel; cfg_LogSummaryEvery : duration; cfg_LogHeartbeatEvery : duration; cfg_LogMinEvents : Z }.

Record Config := {
  c_Core : CoreSettings; c_Spool : SpoolSettings; c_Identity : IdentitySettings; c_TLS : TLSSettings; c_Control : ControlSettings;
  c_Syscollect : SyscollectSettings; c_Vuln : VulnSettings; c_Auth : AuthSettings; c_Proc : ProcSettings; c_ProcExec : ProcExecSettings;
  c_FIM : FIMSettings; c_L7 : L7Settings; c_Lateral : LateralSettings; c_Scan : ScanSettings; c_DDoS : DDoSSettings; c_NetCtx : NetCtxSettings;
  c_Topology : TopologySettings; c_Log : LogSettings }.

(** ** Values of variables *)

Definition splitCSV (s : string) : list string := List.filter (negb ∘ is_empty) (map TrimSpace (Split s ","%char)).

(** The first occurrences of the non-empty parts, in lower case. *)
Fixpoint distinct (seen : list string) (parts : list string) : list string :=
  match parts with
  | [] => []
  | p :: parts => let p := norm p in if is_empty p || str_in p seen then distinct seen parts else p :: distinct (p :: seen) parts
  end.
Definition splitCSVLower (s : string) : list string := distinct [] (Split s ","%char).

Definition parseIntSet (csv : string) : gset Z :=
  list_to_set (omap (λ p, let p := TrimSpace p in if is_empty p then None else n ← Atoi p; if 0 <? n then Some n else None) (Split csv ","%char)).
Definition parseStringSet (csv : string) : gmap string bool :=
  list_to_map (omap (λ p, let p := norm p in if is_empty p then None else Some (p, true)) (Split csv ","%char)).

Definition parseInt (s : string) (def : Z) : Z := match Atoi (TrimSpace s) with Some v => if v <=? 0 then def else v | None => def end.

(** The words for true and false. *)
Definition bool_word (s : string) : option bool :=
  if str_in s ["1"; "true"; "yes"; "y"; "on"] then Some true else
  if str_in s ["0"; "false"; "no"; "n"; "off"] then Some false else None.
Definition parseBool (s : string) (def : bool) : bool := default def (bool_word (norm s)).

Definition clampInt (v minValue maxValue : Z) : Z := if v <? minValue then minValue else if maxValue <? v then maxValue else v.

Definition ParseLogLevel (s : string) : LogLevel :=
  let s := norm s in
  if str_eqb s "debug" then LevelDebug else if str_in s ["warn"; "warning"] then LevelWarn else
  if str_eqb s "error" then LevelError else LevelInfo.
Definition LevelString (l : LogLevel) : string :=
  match l with LevelDebug => "debug" | LevelWarn => "warn" | LevelError => "error" | LevelInfo => "info" end.

Definition NormalizeScanMode (s : string) : string := if str_in (norm s) ["raw"; "both"; "summary"] then norm s else "summary".

(** ** Validation *)

Definition supportedSources : list string :=
  ["authlog"; "proc"; "proc_exec"; "fim"; "scan"; "ddos"; "l7"; "lateral"; "syscollector"; "vuln"].

Definition alnum (a : ascii) : bool := is_lower a || is_upper a || is_digit a.
Definition agent_id_byte (a : ascii) : bool := alnum a || Ascii.eqb a "." || Ascii.eqb a "_" || Ascii.eqb a "-".
(** [^[A-Za-z0-9][A-Za-z0-9._-]{0,63}$] *)
Definition agentIDPattern (s : string) : bool :=
  match to_chars s with a :: l => alnum a && forallb agent_id_byte l && (length l <=? 63)%nat | [] => false end.

Definition ValidateAgentID (value : string) : option string := if agentIDPattern (TrimSpace value) then None else Some "agent ID must match"%string.

(** What [url.Parse] finds. *)
Record url := {
  u_Scheme : string; u_Hostname : string; u_User : bool; u_RawQuery : string; u_Fragment : string; u_Opaque : string }.

Fixpoint validate_sources (seen : list string) (values : list string) : option string :=
  match values with
  | [] => None
  | value :: values =>
    let value := norm value in
    if negb (str_in value supportedSources) then Some ("unsupported telemetry source " +:+ quoted value) else
    if str_in value seen then Some ("duplicate telemetry source " +:+ quoted value) else
    validate_sources (value :: seen) values
  end.
Definition ValidateSources (values : list string) : option string :=
  match values with [] => Some "at least one telemetry source is required"%string | _ => validate_sources [] values end.

Definition ValidateProfile (value : string) : option string :=
  if str_in (norm value) [ProfileSensor; ProfileManaged] then None else Some ("unsupported agent profile " +:+ quoted value).

Definition sanitizeL7Config (c : L7Settings) : L7Settings := {|
  cfg_L7Iface := if is_empty (TrimSpace (cfg_L7Iface c)) then "any" else cfg_L7Iface c;
  cfg_L7DedupTTL := if cfg_L7DedupTTL c <=? 0 then DefaultL7DedupTTL else cfg_L7DedupTTL c;
  cfg_L7MaxBatch := clampInt (cfg_L7MaxBatch c) 1 MaxL7MaxBatch;
  cfg_L7MaxPayloadBytes := clampInt (cfg_L7MaxPayloadBytes c) 1 MaxL7MaxPayloadBytes;
  cfg_L7IncludePayload := cfg_L7IncludePayload c |}.

Section load.
(** [os.LookupEnv] and [os.ReadFile]. *)
Context (LookupEnv : string → option string) (file : string → read_result).
Context (ParseDuration : string → option duration) (ParseFloat : string → option float64) (ParseCIDR : string → option ipnet).
Context (url_Parse : string → option url).
(** [LoadIdentityState] of a path and an agent: [None] when it fails. *)
Context (LoadIdentityState : string → string → option PersistedIdentityState).
(** [filepath.EvalSymlinks], and whether [os.Stat] finds an executable regular file. *)
Context (EvalSymlinks : string → option string) (stat_executable : string → option bool).

Definition ValidateEndpointURL (name value : string) : option string :=
  match url_Parse (TrimSpace value) with
  | None => Some (name +:+ " is invalid")
  | Some u =>
    if negb (str_eqb (u_Scheme u) "https") then Some (name +:+ " must use https") else
    if is_empty (u_Hostname u) || u_User u || negb (is_empty (u_RawQuery u)) || negb (is_empty (u_Fragment u)) || negb (is_empty (u_Opaque u))
    then Some (name +:+ " is invalid") else None
  end.

Fixpoint validate_allowlist (seen : list string) (allowlist : list string) : option string :=
  match allowlist with
  | [] => None
  | entry :: allowlist =>
    let entry := TrimSpace entry in
    if negb (IsAbs entry) then Some ("shell executable allowlist entry must be absolute: " +:+ quoted entry) else
    match EvalSymlinks (Clean entry) with
    | None => Some ("resolve shell executable allowlist entry " +:+ quoted entry)
    | Some resolved =>
      match stat_executable resolved with
      | None => Some ("stat shell executable allowlist entry " +:+ quoted entry)
      | Some false => Some ("shell executable allowlist entry is not an executable regular file: " +:+ quoted entry)
      | Some true =>
        if str_in resolved seen then Some ("duplicate shell executable allowlist entry " +:+ quoted entry)
        else validate_allowlist (resolved :: seen) allowlist
      end
    end
  end.
Definition ValidateShellExec (profile : string) (enabled : bool) (allowlist : list string) : option string :=
  if negb enabled then None else
  if negb (str_eqb (NormalizeProfile profile) ProfileManaged) then Some "shell execution requires the managed agent profile"%string else
  match allowlist with
  | [] => Some "shell execution requires an executable allowlist"%string
  | _ => validate_allowlist [] allowlist
  end.

(** ** The environment *)

(** A variable that is set to more than white space. *)
Definition set_var (k : string) : option string :=
  match LookupEnv k with Some v => if is_empty (TrimSpace v) then None else Some v | None => None end.
Definition legacy (k : string) : option string := if HasPrefix k "SEAGULL_" then Some ("NETWATCH_" +:+ TrimPrefix k "SEAGULL_") else None.

Definition getEnv (k def : string) : string :=
  match set_var k with
  | Some v => v
  | None => match legacy k with Some l => default def (set_var l) | None => def end
  end.

Fixpoint first_alias (aliases : list string) (def : string) : string :=
  match aliases with
  | [] => def
  | a :: aliases => let v := getEnv a "" in if is_empty (TrimSpace v) then first_alias aliases def else TrimSpace v
  end.
Definition getEnvAlias (k def : string) (aliases : list string) : string :=
  match set_var k with
  | Some v => TrimSpace v
  | None =>
    match (match legacy k with Some l => set_var l | None => None end) with
    | Some v => TrimSpace v
    | None => first_alias aliases def
    end
  end.

Definition text_file (path : string) : string :=
  let path := TrimSpace path in
  if is_empty path then "" else match file path with Read b => TrimSpace b | _ => "" end.

Definition getSecretEnv (k def : string) : string :=
  let of_key k rest := match set_var k with
                       | Some v => TrimSpace v
                       | None => match set_var (k +:+ "_FILE") with Some path => text_file path | None => rest end
                       end in
  of_key k (match legacy k with Some l => of_key l def | None => def end).

Definition parseDuration (s : string) (def : duration) : duration :=
  match ParseDuration (TrimSpace s) with Some d => if d <=? 0 then def else d | None => def end.
Definition parseFloat (s : string) (def : float64) : float64 :=
  match ParseFloat (TrimSpace s) with Some v => if fle v f0 then def else v | None => def end.
Definition parseCIDRs (csv : string) : list ipnet :=
  omap (λ p, let p := TrimSpace p in if is_empty p then None else ParseCIDR p) (Split csv ","%char).

(** ** The groups of settings *)

(** Values that several settings are derived from. *)
Definition scanIface : string := getEnv "SEAGULL_PCAP_IFACE" "any".
Definition syscollectMaxPackages : Z := parseInt (getEnv "SEAGULL_SYSCOLLECT_MAX_PACKAGES" "50000") 50000.
Definition syscollectHostRoot : string := TrimSpace (getEnv "SEAGULL_HOST_ROOT" "").
Definition profileValue : string := ToLower (TrimSpace (getEnv "SEAGULL_AGENT_PROFILE" ProfileSensor)).
Definition spool_enabled : bool := parseBool (getEnv "SEAGULL_AGENT_SPOOL_ENABLED" "true") true.

Definition load_Core : CoreSettings := {|
  cfg_AgentID := TrimSpace (getEnv "SEAGULL_AGENT_ID" "");
  cfg_APIURL := TrimSpace (getEnv "SEAGULL_API_URL" "");
  cfg_EnrollURL := TrimSpace (getEnv "SEAGULL_ENROLL_URL" "");
  cfg_Sources := splitCSVLower (getEnv "SEAGULL_SOURCES" defaultL7Sources);
  cfg_AllowedSources := Some (splitCSVLower (getEnv "SEAGULL_SOURCES" defaultL7Sources));
  cfg_Interval := parseDuration (getEnv "SEAGULL_POLL_INTERVAL" "1s") (1 * second);
  cfg_HTTPTimeout := parseDuration (getEnv "SEAGULL_HTTP_TIMEOUT" "10s") (10 * second);
  cfg_SenderMaxBatch := parseInt (getEnv "SEAGULL_SENDER_MAX_BATCH" "300") 300;
  cfg_Profile := NormalizeProfile profileValue |}.

Definition load_Spool : SpoolSettings := {|
  cfg_SpoolDir := if spool_enabled then TrimSpace (getEnv "SEAGULL_AGENT_SPOOL_DIR" "/var/lib/seagull/spool") else "";
  cfg_SpoolMaxBytes := parseInt (getEnv "SEAGULL_AGENT_SPOOL_MAX_BYTES" "268435456") 268435456;
  cfg_SpoolMaxAge := parseDuration (getEnv "SEAGULL_AGENT_SPOOL_MAX_AGE" "24h") (24 * hour);
  cfg_SpoolMaxItems := parseInt (getEnv "SEAGULL_AGENT_SPOOL_MAX_ITEMS" "10000") 10000 |}.

Definition load_TLS : TLSSettings := {|
  cfg_TLSCAFile := TrimSpace (getEnv "SEAGULL_TLS_CA_FILE" "");
  cfg_TLSCertFile := TrimSpace (getEnv "SEAGULL_TLS_CERT_FILE" "");
  cfg_TLSKeyFile := TrimSpace (getEnv "SEAGULL_TLS_KEY_FILE" "");
  cfg_TLSServerName := TrimSpace (getEnv "SEAGULL_TLS_SERVER_NAME" "") |}.

Definition load_Control : ControlSettings := {|
  cfg_ControlHeartbeatEvery := parseDuration (getEnv "SEAGULL_CONTROL_HEARTBEAT_EVERY" "30s") (30 * second);
  cfg_ControlHeartbeatJitter := parseDuration (getEnv "SEAGULL_CONTROL_HEARTBEAT_JITTER" "5s") (5 * second);
  cfg_ControlConfigEvery := parseDuration (getEnv "SEAGULL_CONTROL_CONFIG_EVERY" "5m") (5 * minute);
  cfg_ControlConfigJitter := parseDuration (getEnv "SEAGULL_CONTROL_CONFIG_JITTER" "30s") (30 * second);
  cfg_ControlResponsePollEvery := parseDuration (getEnv "SEAGULL_CONTROL_RESPONSE_ACTIONS_POLL_EVERY" "15s") (15 * second);
  cfg_ControlResponsePollJitter := parseDuration (getEnv "SEAGULL_CONTROL_RESPONSE_ACTIONS_POLL_JITTER" "5s") (5 * second);
  cfg_ControlEnrollTimeout := parseDuration (getEnv "SEAGULL_CONTROL_ENROLL_TIMEOUT" "10s") (10 * second);
  cfg_ForceEnrollOnStart := parseBool (getEnv "SEAGULL_FORCE_ENROLL_ON_START" "true") true;
  cfg_CredentialRotateEvery := parseDuration (getEnv "SEAGULL_CONTROL_CREDENTIAL_ROTATE_EVERY" "5m") (5 * minute);
  cfg_CredentialRotateBefore := parseDuration (getEnv "SEAGULL_CONTROL_CREDENTIAL_ROTATE_BEFORE" "24h") (24 * hour);
  cfg_CertRotateEvery := parseDuration (getEnv "SEAGULL_CONTROL_CERT_ROTATE_EVERY" "1h") hour;
  cfg_CertRotateBefore := parseDuration (getEnv "SEAGULL_CONTROL_CERT_ROTATE_BEFORE" "720h") (720 * hour);
  cfg_ResponseActionStageMax := parseInt (getEnv "SEAGULL_RESPONSE_ACTION_STAGE_MAX" "512") 512;
  cfg_ResponseActionJournalDir := TrimSpace (getEnv "SEAGULL_RESPONSE_ACTION_JOURNAL_DIR" "/var/lib/seagull/response-actions");
  cfg_ResponseActionJournalMax := clampInt (parseInt (getEnv "SEAGULL_RESPONSE_ACTION_JOURNAL_MAX_ITEMS" "2048") 2048) 64 10000;
  cfg_ResponseActionJournalSize := clampInt (parseInt (getEnv "SEAGULL_RESPONSE_ACTION_JOURNAL_MAX_BYTES" "67108864") 67108864) 8388608 1073741824;
  cfg_ResponseQuarantineDir := Clean (TrimSpace (getEnv "SEAGULL_RESPONSE_QUARANTINE_DIR" "/var/lib/seagull/quarantine"));
  cfg_AllowShellExec := parseBool (getEnv "SEAGULL_RESPONSE_ALLOW_SHELL_EXEC" "false") false;
  cfg_ShellExecAllowlist := splitCSV (getEnv "SEAGULL_RESPONSE_SHELL_EXEC_ALLOWLIST" "") |}.

Definition load_Syscollect : SyscollectSettings := {|
  cfg_SyscollectEvery := parseDuration (getEnv "SEAGULL_SYSCOLLECT_EVERY" "5m") (5 * minute);
  cfg_SyscollectStartupJitter := parseDuration (getEnv "SEAGULL_SYSCOLLECT_STARTUP_JITTER" "45s") (45 * second);
  cfg_SyscollectCmdTimeout := parseDuration (getEnv "SEAGULL_SYSCOLLECT_CMD_TIMEOUT" "10s") (10 * second);
  cfg_SyscollectMaxOutputBytes := parseInt (getEnv "SEAGULL_SYSCOLLECT_MAX_OUTPUT_BYTES" "8388608") 8388608;
  cfg_SyscollectMaxPackages := syscollectMaxPackages;
  cfg_SyscollectHostRoot := syscollectHostRoot |}.

Definition load_Vuln : VulnSettings := {|
  cfg_VulnScanEvery := parseDuration (getEnv "SEAGULL_VULN_SCAN_EVERY" "12h") (12 * hour);
  cfg_VulnStartupJitter := parseDuration (getEnv "SEAGULL_VULN_STARTUP_JITTER" "2m") (2 * minute);
  cfg_VulnOSVURL := TrimSpace (getEnv "SEAGULL_VULN_OSV_URL" "https://api.osv.dev");
  cfg_VulnMinSeverity := ToLower (TrimSpace (getEnv "SEAGULL_VULN_MIN_SEVERITY" "medium"));
  cfg_VulnAnalysisProfile := TrimSpace (getEnv "SEAGULL_VULN_ANALYSIS_PROFILE" "wazuh_like_v1");
  cfg_VulnExposureEnabled := parseBool (getEnv "SEAGULL_VULN_EXPOSURE_ENABLED" "true") true;
  cfg_VulnQueryBatchSize := parseInt (getEnv "SEAGULL_VULN_QUERY_BATCH_SIZE" "200") 200;
  cfg_VulnCmdTimeout := parseDuration (getEnv "SEAGULL_VULN_CMD_TIMEOUT" "15s") (15 * second);
  cfg_VulnHTTPTimeout := parseDuration (getEnv "SEAGULL_VULN_HTTP_TIMEOUT" "60s") (60 * second);
  cfg_VulnMaxOutputBytes := parseInt (getEnv "SEAGULL_VULN_MAX_OUTPUT_BYTES" "8388608") 8388608;
  cfg_VulnMaxPackages := parseInt (getEnv "SEAGULL_VULN_MAX_PACKAGES" (Itoa syscollectMaxPackages)) syscollectMaxPackages;
  cfg_VulnHostRoot := TrimSpace (getEnv "SEAGULL_VULN_HOST_ROOT" syscollectHostRoot);
  cfg_VulnEmitSummaryEvent := parseBool (getEnv "SEAGULL_VULN_EMIT_SUMMARY_EVENT" "true") true |}.

Definition load_Auth : AuthSettings := {|
  cfg_AuthLogPath := getEnv "SEAGULL_AUTHLOG_PATH" "/var/log/auth.log";
  cfg_AuthCheckpointFile := getEnv "SEAGULL_AUTHLOG_CHECKPOINT_FILE" "/var/lib/seagull/checkpoints/authlog.json";
  cfg_AuthIncludeAccepted := parseBool (getEnv "SEAGULL_AUTHLOG_INCLUDE_ACCEPTED" "false") false;
  cfg_AuthDedupTTL := parseDuration (getEnv "SEAGULL_AUTHLOG_DEDUP_TTL" "30s") (30 * second) |}.

Definition load_Proc : ProcSettings := {|
  cfg_ProcTCP4Path := getEnv "SEAGULL_PROC_TCP4_PATH" "/proc/net/tcp";
  cfg_ProcTCP6Path := getEnv "SEAGULL_PROC_TCP6_PATH" "/proc/net/tcp6";
  cfg_SkipLoopback := parseBool (getEnv "SEAGULL_SKIP_LOOPBACK" "true") true;
  cfg_SkipLinkLocal := parseBool (getEnv "SEAGULL_SKIP_LINK_LOCAL" "true") true;
  cfg_SkipPrivateToPrivate := parseBool (getEnv "SEAGULL_SKIP_PRIVATE_TO_PRIVATE" "false") false;
  cfg_ProcDropLikelyOutbound := parseBool (getEnv "SEAGULL_PROC_DROP_LIKELY_OUTBOUND" "true") true;
  cfg_EphemeralPortMin := parseInt (getEnv "SEAGULL_EPHEMERAL_PORT_MIN" "49152") 49152;
  cfg_DedupTTL := parseDuration (getEnv "SEAGULL_DEDUP_TTL" "30s") (30 * second);
  cfg_EstablishedTTL := parseDuration (getEnv "SEAGULL_ESTABLISHED_TTL" "10m") (10 * minute);
  cfg_DenyCIDRs := parseCIDRs (getEnv "SEAGULL_DENY_CIDRS" "");
  cfg_DenyDstPorts := parseIntSet (getEnv "SEAGULL_DENY_DST_PORTS" "");
  cfg_DenySrcPorts := parseIntSet (getEnv "SEAGULL_DENY_SRC_PORTS" "") |}.

Definition load_ProcExec : ProcExecSettings := {|
  cfg_ProcExecEvery := parseDuration (getEnv "SEAGULL_PROC_EXEC_EVERY" "2s") (2 * second);
  cfg_ProcExecMaxBatch := parseInt (getEnv "SEAGULL_PROC_EXEC_MAX_BATCH" "200") 200;
  cfg_ProcExecHashEnabled := parseBool (getEnv "SEAGULL_PROC_EXEC_HASH_ENABLED" "true") true;
  cfg_ProcExecHashMaxBytes := parseInt (getEnv "SEAGULL_PROC_EXEC_HASH_MAX_BYTES" "26214400") 26214400;
  cfg_ProcExecEmitInitial := parseBool (getEnv "SEAGULL_PROC_EXEC_EMIT_INITIAL" "false") false;
  cfg_ProcExecIgnoreExeNames := parseStringSet (getEnv "SEAGULL_PROC_EXEC_IGNORE_EXE" "sleep");
  cfg_ProcExecIgnoreCmdContains := splitCSVLower (getEnv "SEAGULL_PROC_EXEC_IGNORE_CMD_CONTAINS" "systemd --user") |}.

Definition load_FIM : FIMSettings := {|
  cfg_FIMEvery := parseDuration (getEnv "SEAGULL_FIM_EVERY" "30s") (30 * second);
  cfg_FIMMaxBatch := parseInt (getEnv "SEAGULL_FIM_MAX_BATCH" "200") 200;
  cfg_FIMMaxDepth := parseInt (getEnv "SEAGULL_FIM_MAX_DEPTH" "4") 4;
  cfg_FIMHashEnabled := parseBool (getEnv "SEAGULL_FIM_HASH_ENABLED" "true") true;
  cfg_FIMHashMaxBytes := parseInt (getEnv "SEAGULL_FIM_HASH_MAX_BYTES" "2097152") 2097152;
  cfg_FIMEmitInitial := parseBool (getEnv "SEAGULL_FIM_EMIT_INITIAL" "false") false;
  cfg_FIMWatchPaths := splitCSV (getEnv "SEAGULL_FIM_PATHS" "");
  cfg_FIMExcludePaths := splitCSV (getEnv "SEAGULL_FIM_EXCLUDE_PATHS" "") |}.

Definition load_L7 : L7Settings := {|
  cfg_L7Iface := getEnvAlias "SEAGULL_L7_PCAP_IFACE" scanIface ["SEAGULL_L7_IFACE"];
  cfg_L7DedupTTL := parseDuration (getEnvAlias "SEAGULL_L7_DEDUP_TTL" "20s" []) DefaultL7DedupTTL;
  cfg_L7MaxBatch := parseInt (getEnvAlias "SEAGULL_L7_MAX_BATCH" (Itoa DefaultL7MaxBatch) ["SEAGULL_L7_BATCH_SIZE"]) DefaultL7MaxBatch;
  cfg_L7MaxPayloadBytes := parseInt (getEnvAlias "SEAGULL_L7_MAX_PAYLOAD_BYTES" (Itoa DefaultL7MaxPayloadBytes) ["SEAGULL_L7_PAYLOAD_BYTES"]) DefaultL7MaxPayloadBytes;
  cfg_L7IncludePayload := parseBool (getEnvAlias "SEAGULL_L7_INCLUDE_PAYLOAD" "false" []) false |}.

Definition load_Lateral : LateralSettings := {|
  cfg_LateralMode := ToLower (TrimSpace (getEnv "SEAGULL_LATERAL_MODE" "pcap"));
  cfg_LateralIface := getEnv "SEAGULL_LATERAL_PCAP_IFACE" scanIface;
  cfg_LateralPorts := parseIntSet (getEnv "SEAGULL_LATERAL_PORTS" "22,445,3389,5985,5986,135,139");
  cfg_LateralIncludeEstablished := parseBool (getEnv "SEAGULL_LATERAL_INCLUDE_ESTABLISHED" "true") true;
  cfg_LateralDedupTTL := parseDuration (getEnv "SEAGULL_LATERAL_DEDUP_TTL" "5s") (5 * second);
  cfg_LateralMaxBatch := parseInt (getEnv "SEAGULL_LATERAL_MAX_BATCH" "500") 500 |}.

Definition load_Scan : ScanSettings := {|
  cfg_ScanIface := scanIface;
  cfg_ScanDedupTTL := parseDuration (getEnv "SEAGULL_SCAN_DEDUP_TTL" "2s") (2 * second);
  cfg_ScanMaxBatch := parseInt (getEnv "SEAGULL_SCAN_MAX_BATCH" "5000") 5000;
  cfg_ScanMode := getEnv "SEAGULL_SCAN_MODE" "summary" |}.

Definition load_DDoS : DDoSSettings := {|
  cfg_DDoSIface := getEnv "SEAGULL_DDOS_PCAP_IFACE" scanIface;
  cfg_DDoSWindow := parseDuration (getEnv "SEAGULL_DDOS_WINDOW" "1s") (1 * second);
  cfg_DDoSEvalEvery := parseDuration (getEnv "SEAGULL_DDOS_EVAL_EVERY" "1s") (1 * second);
  cfg_DDoSCooldown := parseDuration (getEnv "SEAGULL_DDOS_COOLDOWN" "30s") (30 * second);
  cfg_DDoSSustainWindows := parseInt (getEnv "SEAGULL_DDOS_SUSTAIN_WINDOWS" "3") 3;
  cfg_DDoSBaselineWarmupWindows := parseInt (getEnv "SEAGULL_DDOS_BASELINE_WARMUP_WINDOWS" "20") 20;
  cfg_DDoSBaselineAlpha := parseFloat (getEnv "SEAGULL_DDOS_BASELINE_ALPHA" "0.08") (lit 8 2);
  cfg_DDoSBaselineFactor := parseFloat (getEnv "SEAGULL_DDOS_BASELINE_FACTOR" "4.0") (lit 4 0);
  cfg_DDoSMinPPS := parseFloat (getEnv "SEAGULL_DDOS_MIN_PPS" "3000") (lit 3000 0);
  cfg_DDoSMinBPS := parseFloat (getEnv "SEAGULL_DDOS_MIN_BPS" "500000") (lit 500000 0);
  cfg_DDoSMinPackets := parseInt (getEnv "SEAGULL_DDOS_MIN_PACKETS" "0") 0;
  cfg_DDoSMinRequests := parseInt (getEnv "SEAGULL_DDOS_MIN_REQUESTS" "0") 0;
  cfg_DDoSMinConfidence := parseInt (getEnv "SEAGULL_DDOS_MIN_CONFIDENCE" "70") 70;
  cfg_DDoSMinSynRatio := parseFloat (getEnv "SEAGULL_DDOS_MIN_SYN_RATIO" "0.70") (lit 7 1);
  cfg_DDoSMinSrcIPs := parseInt (getEnv "SEAGULL_DDOS_MIN_SRC_IPS" "30") 30;
  cfg_DDoSMinSrcEntropyNorm := parseFloat (getEnv "SEAGULL_DDOS_MIN_SRC_ENTROPY_NORM" "0.70") (lit 7 1);
  cfg_DDoSEnableL7 := parseBool (getEnv "SEAGULL_DDOS_ENABLE_L7" "true") true;
  cfg_DDoSMinHTTPRPS := parseFloat (getEnv "SEAGULL_DDOS_MIN_HTTP_RPS" "200") (lit 200 0);
  cfg_DDoSMinTLSHSRPS := parseFloat (getEnv "SEAGULL_DDOS_MIN_TLS_HS_RPS" "200") (lit 200 0);
  cfg_DDoSMinL7Ratio := parseFloat (getEnv "SEAGULL_DDOS_MIN_L7_RATIO" "0.15") (lit 15 2);
  cfg_DDoSEnableEntropy := parseBool (getEnv "SEAGULL_DDOS_ENABLE_ENTROPY" "true") true;
  cfg_DDoSMinSrcEntropyNormSignal := parseFloat (getEnv "SEAGULL_DDOS_MIN_SRC_ENTROPY_NORM_SIGNAL" "0.75") (lit 75 2);
  cfg_DDoSMinPortEntropyNorm := parseFloat (getEnv "SEAGULL_DDOS_MIN_PORT_ENTROPY_NORM" "0.35") (lit 35 2);
  cfg_DDoSPortEntropyTopN := parseInt (getEnv "SEAGULL_DDOS_PORT_ENTROPY_TOPN" "16") 16;
  cfg_DDoSCardinalityMode := ToLower (TrimSpace (getEnv "SEAGULL_DDOS_CARDINALITY_MODE" "hll"));
  cfg_DDoSHLLPrecision := parseInt (getEnv "SEAGULL_DDOS_HLL_PRECISION" "14") 14;
  cfg_DDoSBloomBits := parseInt (getEnv "SEAGULL_DDOS_BLOOM_BITS" "1048576") 1048576;
  cfg_DDoSMaxUniqueSrc := parseInt (getEnv "SEAGULL_DDOS_MAX_UNIQUE_SRC" "500000") 500000;
  cfg_DDoSTopSrc := parseInt (getEnv "SEAGULL_DDOS_TOP_SRC" "20") 20;
  cfg_DDoSMaxBatch := parseInt (getEnv "SEAGULL_DDOS_MAX_BATCH" "200") 200;
  cfg_DDoSBackpressureHighWM := parseInt (getEnv "SEAGULL_DDOS_BACKPRESSURE_HIGH_WATERMARK" "160") 160;
  cfg_DDoSBackpressureSampleEvery := parseInt (getEnv "SEAGULL_DDOS_BACKPRESSURE_SAMPLE_EVERY" "4") 4 |}.

Definition load_NetCtx : NetCtxSettings := {|
  cfg_NetCtxMaxInterfaces := parseInt (getEnv "SEAGULL_NETCTX_MAX_INTERFACES" "64") 64;
  cfg_NetCtxMaxNeighbors := parseInt (getEnv "SEAGULL_NETCTX_MAX_NEIGHBORS" "512") 512;
  cfg_NetCtxMaxRoutes := parseInt (getEnv "SEAGULL_NETCTX_MAX_ROUTES" "256") 256;
  cfg_NetCtxMaxResolvers := parseInt (getEnv "SEAGULL_NETCTX_MAX_RESOLVERS" "8") 8 |}.

Definition load_Log : LogSettings := {|
  cfg_LogLevel := ParseLogLevel (getEnv "SEAGULL_LOG_LEVEL" "info");
  cfg_LogSummaryEvery := parseDuration (getEnv "SEAGULL_LOG_SUMMARY_EVERY" "10s") (10 * second);
  cfg_LogHeartbeatEvery := parseDuration (getEnv "SEAGULL_LOG_HEARTBEAT_EVERY" "60s") (60 * second);
  cfg_LogMinEvents := parseInt (getEnv "SEAGULL_LOG_MIN_EVENTS" "50") 50 |}.

(** [sum] as the result of a statement that may be fatal. *)
Definition fatal_or {A} (err : option string) (rest : string + A) : string + A := match err with Some e => inl e | None => rest end.

(** The token, and the file it comes from. *)
Definition LoadBootstrapTokenValue (hasExistingIdentity : bool) : string + string * string :=
  let token := TrimSpace (getSecretEnv "SEAGULL_AGENT_BOOTSTRAP_TOKEN" "") in
  let tokenFile := TrimSpace (getEnv "SEAGULL_AGENT_BOOTSTRAP_TOKEN_FILE" "") in
  if is_empty tokenFile then inr (token, ""%string) else
  match file tokenFile with
  | NotExist => if hasExistingIdentity then inr (token, tokenFile) else inl "SEAGULL_AGENT_BOOTSTRAP_TOKEN_FILE"%string
  | ReadFailed => inl "SEAGULL_AGENT_BOOTSTRAP_TOKEN_FILE"%string
  | Read data =>
    let fileToken := TrimSpace data in
    if is_empty fileToken then
      if hasExistingIdentity then inr (token, tokenFile) else inl "SEAGULL_AGENT_BOOTSTRAP_TOKEN_FILE: file is empty"%string
    else inr (fileToken, tokenFile)
  end.

(** The identity state and the credential, then the bootstrap token. *)
Definition load_Identity (agentID : string) : string + IdentitySettings :=
  let stateFile := getEnv "SEAGULL_AGENT_IDENTITY_STATE_FILE" "/var/lib/seagull/agent.identity.json" in
  let credentialFile := TrimSpace (getEnv "SEAGULL_AGENT_CREDENTIAL_FILE" "/var/lib/seagull/agent.credential") in
  let credential := TrimSpace (getSecretEnv "SEAGULL_AGENT_CREDENTIAL" "") in
  let state := default zero_state (LoadIdentityState stateFile agentID) in
  let credential := if is_empty credential then TrimSpace (is_Credential state) else credential in
  let credential := if is_empty credential && negb (is_empty credentialFile) then TrimSpace (text_file credentialFile) else credential in
  let renewalToken := TrimSpace (is_RenewalToken state) in
  let previousRenewalToken := TrimSpace (is_PreviousRenewalToken state) in
  let hasExistingIdentity := negb (is_empty credential) || negb (is_empty renewalToken) || negb (is_empty previousRenewalToken) in
  match LoadBootstrapTokenValue hasExistingIdentity with
  | inl e => inl ("bootstrap token config error: " +:+ e)
  | inr (bootstrapToken, bootstrapTokenFile) => inr {|
      cfg_AgentConfigFile := getEnv "SEAGULL_AGENT_CONFIG_FILE" "/var/lib/seagull/agent.config.json";
      cfg_AgentIdentityStateFile := stateFile; cfg_BootstrapToken := bootstrapToken; cfg_BootstrapTokenFile := bootstrapTokenFile;
      cfg_AgentCredential := credential; cfg_AgentCredentialExpiresAt := TrimSpace (is_CredentialExpiresAt state);
      cfg_CredentialFile := credentialFile; cfg_RenewalToken := renewalToken;
      cfg_RenewalTokenExpiresAt := TrimSpace (is_RenewalTokenExpiresAt state); cfg_PreviousRenewalToken := previousRenewalToken;
      cfg_PreviousRenewalTokenExpiresAt := TrimSpace (is_PreviousRenewalTokenExpiresAt state);
      cfg_BootstrapTokenConsumed := is_BootstrapTokenConsumed state |}
  end.

Definition load_Topology : string + TopologySettings :=
  let allowPublic := parseBool (getEnv "SEAGULL_TOPOLOGY_ACTIVE_DISCOVERY_ALLOW_PUBLIC" "false") false in
  match ValidateActiveDiscoveryCIDRs ParseCIDR (getEnv "SEAGULL_TOPOLOGY_ACTIVE_DISCOVERY_CIDRS" "") allowPublic with
  | inl e => inl ("topology active discovery config error: " +:+ e)
  | inr cidrs => inr {|
      cfg_TopologyActiveDiscoveryEnabled := parseBool (getEnv "SEAGULL_TOPOLOGY_ACTIVE_DISCOVERY_ENABLED" "false") false;
      cfg_TopologyActiveDiscoveryCIDRs := cidrs; cfg_TopologyActiveDiscoveryAllowPublic := allowPublic;
      cfg_TopologyActiveDiscoveryInterval := parseDuration (getEnv "SEAGULL_TOPOLOGY_ACTIVE_DISCOVERY_INTERVAL" "30m") (30 * minute);
      cfg_TopologyActiveDiscoveryMaxHosts := clampInt (parseInt (getEnv "SEAGULL_TOPOLOGY_ACTIVE_DISCOVERY_MAX_HOSTS" "256") 256) 1 4096;
      cfg_TopologyActiveDiscoveryRateLimit := clampInt (parseInt (getEnv "SEAGULL_TOPOLOGY_ACTIVE_DISCOVERY_RATE_LIMIT" "20") 20) 1 512;
      cfg_TopologyActiveDiscoveryTimeout := parseDuration (getEnv "SEAGULL_TOPOLOGY_ACTIVE_DISCOVERY_TIMEOUT" "30s") (30 * second) |}
  end.

(** The struct literal. *)
Definition assembled (core : CoreSettings) (identity : IdentitySettings) (tls : TLSSettings) (control : ControlSettings) (topology : TopologySettings) : Config := {|
  c_Core := core; c_Spool := load_Spool; c_Identity := identity; c_TLS := tls; c_Control := control; c_Syscollect := load_Syscollect;
  c_Vuln := load_Vuln; c_Auth := load_Auth; c_Proc := load_Proc; c_ProcExec := load_ProcExec; c_FIM := load_FIM;
  c_L7 := sanitizeL7Config load_L7; c_Lateral := load_Lateral; c_Scan := load_Scan; c_DDoS := load_DDoS; c_NetCtx := load_NetCtx;
  c_Topology := topology; c_Log := load_Log |}.

(** The settings, or the message of the fatal error; the checks in the order of the code. *)
Definition LoadConfig : string + Config :=
  let core := load_Core in
  fatal_or (ValidateAgentID (cfg_AgentID core)) (
  if is_empty (cfg_APIURL core) then inl "SEAGULL_API_URL is required"%string else
  fatal_or (ValidateEndpointURL "SEAGULL_API_URL" (cfg_APIURL core)) (
  fatal_or (if is_empty (cfg_EnrollURL core) then None else ValidateEndpointURL "SEAGULL_ENROLL_URL" (cfg_EnrollURL core)) (
  fatal_or (ValidateSources (cfg_Sources core)) (
  fatal_or (ValidateProfile profileValue) (
  match load_Identity (cfg_AgentID core) with
  | inl e => inl e
  | inr identity =>
    let tls := load_TLS in
    if negb (Bool.eqb (is_empty (cfg_TLSCertFile tls)) (is_empty (cfg_TLSKeyFile tls)))
    then inl "SEAGULL_TLS_CERT_FILE and SEAGULL_TLS_KEY_FILE must be set together"%string else
    let control := load_Control in
    if negb (IsAbs (cfg_ResponseQuarantineDir control)) then inl "SEAGULL_RESPONSE_QUARANTINE_DIR must be absolute"%string else
    fatal_or (ValidateShellExec (cfg_Profile core) (cfg_AllowShellExec control) (cfg_ShellExecAllowlist control)) (
    match load_Topology with
    | inl e => inl e
    | inr topology => inr (assembled core identity tls control topology)
    end)
  end))))).
End load.

(** ** Well-formed settings *)

Definition durations (c : Config) : list duration :=
  [cfg_Interval (c_Core c); cfg_HTTPTimeout (c_Core c); cfg_SpoolMaxAge (c_Spool c);
   cfg_ControlHeartbeatEvery (c_Control c); cfg_ControlHeartbeatJitter (c_Control c); cfg_ControlConfigEvery (c_Control c);
   cfg_ControlConfigJitter (c_Control c); cfg_ControlResponsePollEvery (c_Control c); cfg_ControlResponsePollJitter (c_Control c);
   cfg_ControlEnrollTimeout (c_Control c); cfg_CredentialRotateEvery (c_Control c); cfg_CredentialRotateBefore (c_Control c);
   cfg_CertRotateEvery (c_Control c); cfg_CertRotateBefore (c_Control c); cfg_SyscollectEvery (c_Syscollect c);
   cfg_SyscollectStartupJitter (c_Syscollect c); cfg_SyscollectCmdTimeout (c_Syscollect c); cfg_VulnScanEvery (c_Vuln c);
   cfg_VulnStartupJitter (c_Vuln c); cfg_VulnCmdTimeout (c_Vuln c); cfg_VulnHTTPTimeout (c_Vuln c); cfg_AuthDedupTTL (c_Auth c);
   cfg_DedupTTL (c_Proc c); cfg_EstablishedTTL (c_Proc c); cfg_ProcExecEvery (c_ProcExec c); cfg_FIMEvery (c_FIM c); cfg_L7DedupTTL (c_L7 c);
   cfg_LateralDedupTTL (c_Lateral c); cfg_ScanDedupTTL (c_Scan c); cfg_DDoSWindow (c_DDoS c); cfg_DDoSEvalEvery (c_DDoS c); cfg_DDoSCooldown (c_DDoS c);
   cfg_TopologyActiveDiscoveryInterval (c_Topology c); cfg_TopologyActiveDiscoveryTimeout (c_Topology c); cfg_LogSummaryEvery (c_Log c);
   cfg_LogHeartbeatEvery (c_Log c)].

(** The settings the remote configuration can change. *)
Definition module_counts (c : Config) : list Z :=
  [cfg_ProcExecMaxBatch (c_ProcExec c); cfg_ProcExecHashMaxBytes (c_ProcExec c); cfg_FIMMaxBatch (c_FIM c); cfg_FIMMaxDepth (c_FIM c);
   cfg_FIMHashMaxBytes (c_FIM c); cfg_DDoSSustainWindows (c_DDoS c); cfg_DDoSBaselineWarmupWindows (c_DDoS c); cfg_DDoSMinConfidence (c_DDoS c);
   cfg_DDoSMinSrcIPs (c_DDoS c); cfg_DDoSPortEntropyTopN (c_DDoS c); cfg_DDoSHLLPrecision (c_DDoS c); cfg_DDoSBloomBits (c_DDoS c);
   cfg_DDoSMaxUniqueSrc (c_DDoS c); cfg_DDoSTopSrc (c_DDoS c); cfg_DDoSMaxBatch (c_DDoS c); cfg_DDoSBackpressureHighWM (c_DDoS c);
   cfg_DDoSBackpressureSampleEvery (c_DDoS c)].
Definition counts (c : Config) : list Z :=
  [cfg_SenderMaxBatch (c_Core c); cfg_SpoolMaxBytes (c_Spool c); cfg_SpoolMaxItems (c_Spool c); cfg_ResponseActionStageMax (c_Control c);
   cfg_SyscollectMaxOutputBytes (c_Syscollect c); cfg_SyscollectMaxPackages (c_Syscollect c); cfg_VulnQueryBatchSize (c_Vuln c);
   cfg_VulnMaxOutputBytes (c_Vuln c); cfg_VulnMaxPackages (c_Vuln c); cfg_EphemeralPortMin (c_Proc c); cfg_LateralMaxBatch (c_Lateral c);
   cfg_ScanMaxBatch (c_Scan c); cfg_NetCtxMaxInterfaces (c_NetCtx c); cfg_NetCtxMaxNeighbors (c_NetCtx c); cfg_NetCtxMaxRoutes (c_NetCtx c);
   cfg_NetCtxMaxResolvers (c_NetCtx c); cfg_LogMinEvents (c_Log c)] ++ module_counts c.

Definition in_bounds (lo hi v : Z) : Prop := lo <= v <= hi.

(** The bounds of L7 sampling. *)
Definition l7_bounded (c : L7Settings) : Prop :=
  0 < cfg_L7DedupTTL c ∧ in_bounds 1 MaxL7MaxBatch (cfg_L7MaxBatch c) ∧ in_bounds 1 MaxL7MaxPayloadBytes (cfg_L7MaxPayloadBytes c).

Record config_ok (EvalSymlinks : string → option string) (stat_executable : string → option bool) (c : Config) : Prop := {
  ok_agent : agentIDPattern (cfg_AgentID (c_Core c)) = true;
  ok_sources : cfg_Sources (c_Core c) ≠ [] ∧ NoDup (cfg_Sources (c_Core c)) ∧ Forall (λ s, s ∈ supportedSources) (cfg_Sources (c_Core c)) ∧
    cfg_AllowedSources (c_Core c) = Some (cfg_Sources (c_Core c));
  ok_profile : cfg_Profile (c_Core c) ∈ [ProfileSensor; ProfileManaged];
  ok_shell : cfg_AllowShellExec (c_Control c) = true → cfg_Profile (c_Core c) = ProfileManaged ∧ cfg_ShellExecAllowlist (c_Control c) ≠ [] ∧
    Forall (λ e, IsAbs e = true ∧ ∃ r, EvalSymlinks (Clean e) = Some r ∧ stat_executable r = Some true) (cfg_ShellExecAllowlist (c_Control c));
  ok_tls : cfg_TLSCertFile (c_TLS c) = "" ↔ cfg_TLSKeyFile (c_TLS c) = "";
  ok_quarantine : IsAbs (cfg_ResponseQuarantineDir (c_Control c)) = true;
  ok_journal : in_bounds 64 10000 (cfg_ResponseActionJournalMax (c_Control c)) ∧ in_bounds 8388608 1073741824 (cfg_ResponseActionJournalSize (c_Control c));
  ok_discovery : cfg_TopologyActiveDiscoveryAllowPublic (c_Topology c) = true ∨
    Forall (λ n, isPrivateOrInternalCIDR n = true) (cfg_TopologyActiveDiscoveryCIDRs (c_Topology c));
  ok_discovery_rate : in_bounds 1 4096 (cfg_TopologyActiveDiscoveryMaxHosts (c_Topology c)) ∧ in_bounds 1 512 (cfg_TopologyActiveDiscoveryRateLimit (c_Topology c));
  ok_l7 : l7_bounded (c_L7 c);
  ok_durations : Forall (λ d, 0 < d) (durations c);
  ok_counts : Forall (λ n, 0 < n) (counts c) }.

Lemma clampInt_in_bounds lo hi v : lo <= hi → in_bounds lo hi (clampInt v lo hi).
Proof. unfold clampInt, in_bounds. go_cases; lia. Qed.

Lemma sanitize_bounded c : l7_bounded (sanitizeL7Config c).
Proof.
  split; [|split; by apply clampInt_in_bounds]. cbn. unfold DefaultL7DedupTTL, second. go_cases; lia.
Qed.

Lemma parseInt_pos s def : 0 < def → 0 < parseInt s def.
Proof. unfold parseInt. go_cases; lia. Qed.

Lemma parseDuration_pos pd s def : 0 < def → 0 < parseDuration pd s def.
Proof. unfold parseDuration. go_cases; lia. Qed.

Lemma distinct_spec seen l : NoDup (distinct seen l) ∧ ∀ s, s ∈ distinct seen l → s ∉ seen ∧ s ≠ "" ∧ norm s = s.
Proof.
  revert seen. induction l as [|p l IH]; intros seen; cbn; [split; [constructor|by intros s ?%not_elem_of_nil]|].
  destruct (is_empty (norm p) || str_in (norm p) seen) eqn:E; [apply IH|]. apply orb_false_iff in E as [E1 E2].
  destruct (IH (norm p :: seen)) as [Hnd Hs]. split.
  - constructor; [|done]. intros Hin%Hs. destruct Hin as [Hin _]. apply Hin. by left.
  - intros s [->|Hin]%elem_of_cons.
    + split; [intros H%str_in_elem; congruence|]. split; [by apply is_empty_false|apply norm_idem].
    + apply Hs in Hin as (Hin & ? & ?). split; [|done]. intros ?. apply Hin. by right.
Qed.

Lemma validate_sources_ok seen l : validate_sources seen l = None → Forall (λ s, norm s ∈ supportedSources) l.
Proof.
  revert seen. induction l as [|v l IH]; intros seen; cbn [validate_sources]; [by constructor|].
  destruct (str_in (norm v) supportedSources) eqn:E; cbn [negb]; [|done]. destruct (str_in (norm v) seen); [done|]. intros H. constructor; [by apply str_in_elem|by eapply IH].
Qed.

Lemma validate_allowlist_ok es st seen l : validate_allowlist es st seen l = None →
  Forall (λ e, IsAbs (TrimSpace e) = true ∧ ∃ r, es (Clean (TrimSpace e)) = Some r ∧ st r = Some true) l.
Proof.
  revert seen. induction l as [|e l IH]; intros seen; cbn; [by constructor|].
  destruct (IsAbs (TrimSpace e)) eqn:Ea; cbn; [|done]. destruct (es _) as [r|] eqn:Er; [|done]. destruct (st r) as [[|]|] eqn:Es; [|done..].
  destruct (str_in r seen); [done|]. intros H. constructor; [|by eapply IH]. split; [done|]. by exists r.
Qed.

Lemma splitCSV_trimmed s : Forall (λ e, TrimSpace e = e ∧ e ≠ "") (splitCSV s).
Proof.
  unfold splitCSV. apply Forall_forall. intros e He. apply list_elem_of_In, filter_In in He as [He Hne].
  apply in_map_iff in He as (p & <- & _). cbn in Hne. apply negb_true_iff in Hne. split; [apply TrimSpace_idem|by apply is_empty_false].
Qed.

Section loaded.
Context (LookupEnv : string → option string) (file : string → read_result).
Context (ParseDuration : string → option duration) (ParseFloat : string → option float64) (ParseCIDR : string → option ipnet).
Context (url_Parse : string → option url) (LoadIdentityState : string → string → option PersistedIdentityState).
Context (EvalSymlinks : string → option string) (stat_executable : string → option bool).

Abbreviation LoadConfig' := (LoadConfig LookupEnv file ParseDuration ParseFloat ParseCIDR url_Parse LoadIdentityState EvalSymlinks stat_executable).

(** The checks a configuration has passed. *)
Lemma LoadConfig_checks c : LoadConfig' = inr c →
  let core := load_Core LookupEnv ParseDuration in let control := load_Control LookupEnv ParseDuration in let tls := load_TLS LookupEnv in
  ValidateAgentID (cfg_AgentID core) = None ∧ ValidateSources (cfg_Sources core) = None ∧
  Bool.eqb (is_empty (cfg_TLSCertFile tls)) (is_empty (cfg_TLSKeyFile tls)) = true ∧ IsAbs (cfg_ResponseQuarantineDir control) = true ∧
  ValidateShellExec EvalSymlinks stat_executable (cfg_Profile core) (cfg_AllowShellExec control) (cfg_ShellExecAllowlist control) = None ∧
  ∃ identity topology, load_Topology LookupEnv ParseDuration ParseCIDR = inr topology ∧ c = {|
    c_Core := core; c_Spool := load_Spool LookupEnv ParseDuration; c_Identity := identity; c_TLS := tls; c_Control := control;
    c_Syscollect := load_Syscollect LookupEnv ParseDuration; c_Vuln := load_Vuln LookupEnv ParseDuration; c_Auth := load_Auth LookupEnv ParseDuration;
    c_Proc := load_Proc LookupEnv ParseDuration ParseCIDR; c_ProcExec := load_ProcExec LookupEnv ParseDuration; c_FIM := load_FIM LookupEnv ParseDuration;
    c_L7 := sanitizeL7Config (load_L7 LookupEnv ParseDuration); c_Lateral := load_Lateral LookupEnv ParseDuration; c_Scan := load_Scan LookupEnv ParseDuration;
    c_DDoS := load_DDoS LookupEnv ParseDuration ParseFloat; c_NetCtx := load_NetCtx LookupEnv; c_Topology := topology; c_Log := load_Log LookupEnv ParseDuration |}.
Proof.
  unfold LoadConfig, fatal_or. set (core := load_Core _ _). set (control := load_Control _ _). set (tls := load_TLS _).
  destruct (ValidateAgentID _) eqn:H1; [done|]. destruct (is_empty (cfg_APIURL core)); [done|]. destruct (ValidateEndpointURL _ _ (cfg_APIURL core)); [done|].
  destruct (if is_empty _ then _ else _) eqn:He; [done|]. destruct (ValidateSources _) eqn:H2; [done|]. destruct (ValidateProfile _); [done|].
  destruct (load_Identity _ _ _ _) as [|identity]; [done|]. destruct (Bool.eqb _ _) eqn:H3; cbn [negb]; [|done].
  destruct (IsAbs _) eqn:H4; cbn [negb]; [|done]. destruct (ValidateShellExec _ _ _ _ _) eqn:H5; [done|].
  destruct (load_Topology _ _ _) as [|topology] eqn:H6; [done|]. intros [= <-]. split_and!; try done. by exists identity, topology.
Qed.

Lemma NormalizeProfile_cases s : NormalizeProfile s ∈ [ProfileSensor; ProfileManaged].
Proof. unfold NormalizeProfile. destruct (str_eqb _ _); [right; left|left]. Qed.

Lemma NormalizeProfile_idem s : NormalizeProfile (NormalizeProfile s) = NormalizeProfile s.
Proof. unfold NormalizeProfile at 2 3. by destruct (str_eqb (norm s) ProfileManaged). Qed.

Lemma discovery_policy topology : load_Topology LookupEnv ParseDuration ParseCIDR = inr topology →
  (cfg_TopologyActiveDiscoveryAllowPublic topology = true ∨ Forall (λ n, isPrivateOrInternalCIDR n = true) (cfg_TopologyActiveDiscoveryCIDRs topology)) ∧
  in_bounds 1 4096 (cfg_TopologyActiveDiscoveryMaxHosts topology) ∧ in_bounds 1 512 (cfg_TopologyActiveDiscoveryRateLimit topology) ∧
  0 < cfg_TopologyActiveDiscoveryInterval topology ∧ 0 < cfg_TopologyActiveDiscoveryTimeout topology.
Proof.
  unfold load_Topology. set (allow := parseBool _ _). destruct (ValidateActiveDiscoveryCIDRs _ _ _) as [|cidrs] eqn:E; [done|]. intros [= <-]. cbn -[isPrivateOrInternalCIDR].
  split; [|split; [by apply clampInt_in_bounds|]; split; [by apply clampInt_in_bounds|]; split; by apply parseDuration_pos].
  destruct allow; [by left|right]. unfold ValidateActiveDiscoveryCIDRs in E. destruct (ParseStrictCIDRs _ _) as [|l]; [done|].
  destruct (forallb _ l) eqn:F; [|done]. injection E as <-. apply Forall_forall. intros n Hn. rewrite forallb_forall in F. by apply F, list_elem_of_In.
Qed.

(** C30: an accepted configuration is well formed.  Whatever the environment holds, when
    [LoadConfig] does not stop the agent: the agent identifier has the required form,
    the sources are distinct supported ones and are those allowed, shell execution is only
    on for the managed profile with a list of absolute paths that resolve to executable
    files, certificate and key come together, discovery stays in private networks
    unless public ones are allowed, and every interval, batch and bound is positive and within
    its limits. *)
Theorem LoadConfig_wellformed c : LoadConfig' = inr c → config_ok EvalSymlinks stat_executable c.
Proof.
  intros (H1 & H2 & H3 & H4 & H5 & identity & topology & Ht & ->)%LoadConfig_checks. destruct (discovery_policy _ Ht) as (Hd & Hmax & Hrate & Hint & Hto).
  split; cbn [c_Core c_Control c_TLS c_Topology c_L7].
  - unfold ValidateAgentID in H1. cbn [cfg_AgentID load_Core] in *. rewrite TrimSpace_idem in H1. by destruct (agentIDPattern _).
  - cbn [cfg_Sources cfg_AllowedSources load_Core] in *. set (l := splitCSVLower _) in *. destruct (distinct_spec [] (Split (getEnv LookupEnv "SEAGULL_SOURCES" defaultL7Sources) ","%char)) as [Hnd Hs].
    unfold ValidateSources in H2. split; [by destruct l|]. split; [exact Hnd|]. split; [|done]. destruct l as [|v vs] eqn:E; [done|].
    rewrite <- E in *. apply validate_sources_ok in H2. apply Forall_forall. intros s Hin. rewrite Forall_forall in H2. specialize (H2 s Hin).
    destruct (Hs s Hin) as (_ & _ & Hnorm). by rewrite Hnorm in H2.
  - apply NormalizeProfile_cases.
  - intros Hen. unfold ValidateShellExec in H5. rewrite Hen in H5. cbn [negb] in H5. cbn [cfg_Profile load_Core] in *. rewrite NormalizeProfile_idem in H5.
    destruct (str_eqb _ _) eqn:Ep; cbn [negb] in H5; [|done]. apply str_eqb_eq in Ep. split; [done|].
    destruct (cfg_ShellExecAllowlist _) as [|e l] eqn:El; [done|]. split; [done|]. apply validate_allowlist_ok in H5.
    pose proof (splitCSV_trimmed (getEnv LookupEnv "SEAGULL_RESPONSE_SHELL_EXEC_ALLOWLIST" "")) as Htr. cbn [cfg_ShellExecAllowlist load_Control] in El. rewrite El in Htr.
    rewrite !Forall_forall in *. intros x Hx. destruct (Htr x Hx) as [Hx' _]. specialize (H5 x Hx). by rewrite Hx' in H5.
  - apply Bool.eqb_prop in H3. rewrite <- !is_empty_true. by rewrite H3.
  - done.
  - split; by apply clampInt_in_bounds.
  - done.
  - done.
  - apply sanitize_bounded.
  - repeat (apply Forall_cons; split); try (by apply parseDuration_pos); try done; try apply sanitize_bounded.
  - repeat (apply Forall_cons; split); try (by apply parseInt_pos); try done. by apply parseInt_pos, parseInt_pos.
Qed.
End loaded.

(** ** Example *)

Definition demo_env (k : string) : option string :=
  if str_eqb k "SEAGULL_AGENT_ID" then Some " web-1 "%string else
  if str_eqb k "NETWATCH_API_URL" then Some "https://api.example"%string else
  if str_eqb k "SEAGULL_SOURCES" then Some "L7, authlog,,l7"%string else
  if str_eqb k "SEAGULL_L7_MAX_BATCH" then Some "100000"%string else
  if str_eqb k "SEAGULL_FIM_MAX_BATCH" then Some "-3"%string else None.
Definition demo_url (s : string) : option url :=
  Some {| u_Scheme := "https"; u_Hostname := TrimPrefix s "https://"; u_User := false; u_RawQuery := ""; u_Fragment := ""; u_Opaque := "" |}.
Definition demo_load : string + Config :=
  LoadConfig demo_env (λ _, NotExist) (λ _, None) (λ _, None) (λ _, None) demo_url (λ _ _, None) (λ p, Some p) (λ _, Some true).

Lemma LoadConfig_wellformed_witness :
  ∃ c, demo_load = inr c ∧ config_ok (λ p, Some p) (λ _, Some true) c ∧
    (cfg_AgentID (c_Core c), cfg_Sources (c_Core c), cfg_L7MaxBatch (c_L7 c), cfg_FIMMaxBatch (c_FIM c)) = ("web-1"%string, ["l7"; "authlog"]%string, 2000, 200).
Proof.
  destruct demo_load as [e|c] eqn:E; [by vm_compute in E|]. exists c. split; [done|]. split.
  - apply (LoadConfig_wellformed demo_env (λ _, NotExist) (λ _, None) (λ _, None) (λ _, None) demo_url (λ _ _, None) (λ p, Some p) (λ _, Some true) c). exact E.
  - assert (match demo_load with inr c => (cfg_AgentID (c_Core c), cfg_Sources (c_Core c), cfg_L7MaxBatch (c_L7 c), cfg_FIMMaxBatch (c_FIM c)) | inl _ => ("", [], 0, 0) end
      = ("web-1"%string, ["l7"; "authlog"]%string, 2000, 200)) as H by (vm_compute; reflexivity). by rewrite E in H.
Defined.
