(* ===== verification/Overrides.v ===== *)
(** * Overrides: the module settings of the remote configuration
      (internal/config/overrides.go)

    [ApplyAgentRuntimeOverrides] merges the [modules] of the remote
    configuration, a decoded JSON object in canonical form, into the local
    settings.  Numbers are float64.  Parameters: [time.ParseDuration],
    [strconv.ParseFloat] and [fmt.Sprintf("%v")]. *)

From S2P Require Import Prelude GoStr GoText FileUtil Net GoJson Float Protocol RuntimeConfig Enroll Settings.
From Stdlib Require Import Ascii.

Local Open Scope Z_scope.
Local Open Scope go_scope.

(** ** Sources *)

Definition ensureSource (sources : list string) (source : string) : list string := if str_in source sources then sources else sources ++ [source].
Definition removeSource (sources : list string) (source : string) : list string := List.filter (λ s, negb (str_eqb s source)) sources.

Definition set_sources (sources : list string) (c : CoreSettings) : CoreSettings := {|
  cfg_AgentID := cfg_AgentID c; cfg_APIURL := cfg_APIURL c; cfg_EnrollURL := cfg_EnrollURL c; cfg_Sources := sources;
  cfg_AllowedSources := cfg_AllowedSources c; cfg_Interval := cfg_Interval c; cfg_HTTPTimeout := cfg_HTTPTimeout c;
  cfg_SenderMaxBatch := cfg_SenderMaxBatch c; cfg_Profile := cfg_Profile c |}.

(** The allowed sources; a nil list is filled in first. *)
Definition allow_sources (c : CoreSettings) : CoreSettings := {|
  cfg_AgentID := cfg_AgentID c; cfg_APIURL := cfg_APIURL c; cfg_EnrollURL := cfg_EnrollURL c; cfg_Sources := cfg_Sources c;
  cfg_AllowedSources := Some (default (cfg_Sources c) (cfg_AllowedSources c)); cfg_Interval := cfg_Interval c;
  cfg_HTTPTimeout := cfg_HTTPTimeout c; cfg_SenderMaxBatch := cfg_SenderMaxBatch c; cfg_Profile := cfg_Profile c |}.

Definition applySourceState (c : CoreSettings) (source : string) (enabled : bool) : CoreSettings :=
  if enabled && str_in source (default [] (cfg_AllowedSources c)) then set_sources (ensureSource (cfg_Sources c) source) c
  else set_sources (removeSource (cfg_Sources c) source) c.

(** ** Values *)

Definition asMap (v : option json) : option json := match v with Some (JObj kvs) => Some (JObj kvs) | _ => None end.

Definition asString (v : option json) : option string :=
  match v with Some (JStr s) => let s := TrimSpace s in if is_empty s then None else Some s | _ => None end.

Definition asBool (v : option json) : option bool :=
  match v with Some (JBool b) => Some b | Some (JStr s) => bool_word (TrimSpace (ToLower s)) | _ => None end.

(** A value that satisfies a test replaces the present one. *)
Definition over {A} (test : A → bool) (v : option A) (def : A) : A := match v with Some x => if test x then x else def | None => def end.
Definition default_of {A} (v : option A) (def : A) : A := default def v.
(** A switch that can only be turned off. *)
Definition restrict (v : option bool) (def : bool) : bool := match v with Some b => def && b | None => def end.

Section overrides.
Context (ParseDuration : string → option duration) (ParseFloat : string → option float64) (sprint : json → string).

(** The float64 of a number. *)
Definition number (v : json) : option float64 :=
  match v with JInt z => Some (of_int z) | JFrac l => ParseFloat l | _ => None end.

Definition asInt (v : option json) : option Z :=
  match v with
  | Some (JStr s) => let s := TrimSpace s in if is_empty s then None else Atoi s
  | Some v => to_int <$> number v
  | None => None
  end.
Definition asFloat (v : option json) : option float64 :=
  match v with
  | Some (JStr s) => let s := TrimSpace s in if is_empty s then None else ParseFloat s
  | Some v => number v
  | None => None
  end.
Definition asDuration (v : option json) (def : duration) : duration :=
  match v with
  | Some (JStr s) => match ParseDuration (TrimSpace s) with Some d => if 0 <? d then d else def | None => def end
  | Some v => match number v with Some f => if fgt f f0 then to_int (fmul f (of_int second)) else def | None => def end
  | None => def
  end.
Definition asStringSlice (v : option json) : list string :=
  match v with
  | Some (JArr l) => List.filter (λ s, negb (is_empty s) && negb (str_eqb s "<nil>")) (map (TrimSpace ∘ sprint) l)
  | Some (JStr s) => splitCSV s
  | _ => []
  end.

(** ** The modules *)

Definition nonempty_or {A} (l : list A) {B} (f : list A → B) (def : B) : B := match l with [] => def | _ => f l end.

Definition override_DDoS (m : json) (c : DDoSSettings) : DDoSSettings := {|
  cfg_DDoSIface := default_of (asString (member m "iface")) (cfg_DDoSIface c);
  cfg_DDoSWindow := asDuration (member m "window") (cfg_DDoSWindow c);
  cfg_DDoSEvalEvery := asDuration (member m "eval_every") (cfg_DDoSEvalEvery c);
  cfg_DDoSCooldown := asDuration (member m "cooldown") (cfg_DDoSCooldown c);
  cfg_DDoSSustainWindows := over (λ n, 0 <? n) (asInt (member m "sustain_windows")) (cfg_DDoSSustainWindows c);
  cfg_DDoSBaselineWarmupWindows := over (λ n, 0 <? n) (asInt (member m "baseline_warmup_windows")) (cfg_DDoSBaselineWarmupWindows c);
  cfg_DDoSBaselineAlpha := over (λ f, fgt f f0) (asFloat (member m "baseline_alpha")) (cfg_DDoSBaselineAlpha c);
  cfg_DDoSBaselineFactor := over (λ f, fgt f (of_int 1)) (asFloat (member m "baseline_factor")) (cfg_DDoSBaselineFactor c);
  cfg_DDoSMinPPS := over (λ f, fgt f f0) (asFloat (member m "min_pps")) (cfg_DDoSMinPPS c);
  cfg_DDoSMinBPS := over (λ f, fgt f f0) (asFloat (member m "min_bps")) (cfg_DDoSMinBPS c);
  cfg_DDoSMinPackets := over (λ n, 0 <=? n) (asInt (member m "min_packets")) (cfg_DDoSMinPackets c);
  cfg_DDoSMinRequests := over (λ n, 0 <=? n) (asInt (member m "min_requests")) (cfg_DDoSMinRequests c);
  cfg_DDoSMinConfidence := over (λ n, 0 <? n) (asInt (member m "min_confidence")) (cfg_DDoSMinConfidence c);
  cfg_DDoSMinSynRatio := over (λ f, fgt f f0) (asFloat (member m "min_syn_ratio")) (cfg_DDoSMinSynRatio c);
  cfg_DDoSMinSrcIPs := over (λ n, 0 <? n) (asInt (member m "min_src_ips")) (cfg_DDoSMinSrcIPs c);
  cfg_DDoSMinSrcEntropyNorm := over (λ f, fgt f f0) (asFloat (member m "min_src_entropy_norm")) (cfg_DDoSMinSrcEntropyNorm c);
  cfg_DDoSEnableL7 := default_of (asBool (member m "enable_l7")) (cfg_DDoSEnableL7 c);
  cfg_DDoSMinHTTPRPS := over (λ f, fgt f f0) (asFloat (member m "min_http_rps")) (cfg_DDoSMinHTTPRPS c);
  cfg_DDoSMinTLSHSRPS := over (λ f, fgt f f0) (asFloat (member m "min_tls_hs_rps")) (cfg_DDoSMinTLSHSRPS c);
  cfg_DDoSMinL7Ratio := over (λ f, fgt f f0) (asFloat (member m "min_l7_ratio")) (cfg_DDoSMinL7Ratio c);
  cfg_DDoSEnableEntropy := default_of (asBool (member m "enable_entropy")) (cfg_DDoSEnableEntropy c);
  cfg_DDoSMinSrcEntropyNormSignal := over (λ f, fgt f f0) (asFloat (member m "min_src_entropy_norm_signal")) (cfg_DDoSMinSrcEntropyNormSignal c);
  cfg_DDoSMinPortEntropyNorm := over (λ f, fgt f f0) (asFloat (member m "min_port_entropy_norm")) (cfg_DDoSMinPortEntropyNorm c);
  cfg_DDoSPortEntropyTopN := over (λ n, 0 <? n) (asInt (member m "port_entropy_topn")) (cfg_DDoSPortEntropyTopN c);
  cfg_DDoSCardinalityMode := default_of (ToLower <$> asString (member m "cardinality_mode")) (cfg_DDoSCardinalityMode c);
  cfg_DDoSHLLPrecision := over (λ n, 0 <? n) (asInt (member m "hll_precision")) (cfg_DDoSHLLPrecision c);
  cfg_DDoSBloomBits := over (λ n, 0 <? n) (asInt (member m "bloom_bits")) (cfg_DDoSBloomBits c);
  cfg_DDoSMaxUniqueSrc := over (λ n, 0 <? n) (asInt (member m "max_unique_src")) (cfg_DDoSMaxUniqueSrc c);
  cfg_DDoSTopSrc := over (λ n, 0 <? n) (asInt (member m "top_src")) (cfg_DDoSTopSrc c);
  cfg_DDoSMaxBatch := over (λ n, 0 <? n) (asInt (member m "max_batch")) (cfg_DDoSMaxBatch c);
  cfg_DDoSBackpressureHighWM := over (λ n, 0 <? n) (asInt (member m "backpressure_high_watermark")) (cfg_DDoSBackpressureHighWM c);
  cfg_DDoSBackpressureSampleEvery := over (λ n, 0 <? n) (asInt (member m "backpressure_sample_every")) (cfg_DDoSBackpressureSampleEvery c) |}.

Definition override_ProcExec (m : json) (c : ProcExecSettings) : ProcExecSettings := {|
  cfg_ProcExecEvery := asDuration (member m "every") (cfg_ProcExecEvery c);
  cfg_ProcExecMaxBatch := over (λ n, 0 <? n) (asInt (member m "max_batch")) (cfg_ProcExecMaxBatch c);
  cfg_ProcExecHashEnabled := default_of (asBool (member m "hash_enabled")) (cfg_ProcExecHashEnabled c);
  cfg_ProcExecHashMaxBytes := over (λ n, 0 <? n) (asInt (member m "hash_max_bytes")) (cfg_ProcExecHashMaxBytes c);
  cfg_ProcExecEmitInitial := default_of (asBool (member m "emit_initial")) (cfg_ProcExecEmitInitial c);
  cfg_ProcExecIgnoreExeNames := nonempty_or (asStringSlice (member m "ignore_exe"))
    (λ l, list_to_map (omap (λ v, let kv := norm v in if is_empty kv then None else Some (kv, true)) l)) (cfg_ProcExecIgnoreExeNames c);
  cfg_ProcExecIgnoreCmdContains := nonempty_or (asStringSlice (member m "ignore_cmd_contains")) (distinct []) (cfg_ProcExecIgnoreCmdContains c) |}.

Definition override_FIM (m : json) (c : FIMSettings) : FIMSettings := {|
  cfg_FIMEvery := asDuration (member m "every") (cfg_FIMEvery c);
  cfg_FIMMaxBatch := over (λ n, 0 <? n) (asInt (member m "max_batch")) (cfg_FIMMaxBatch c);
  cfg_FIMMaxDepth := over (λ n, 0 <? n) (asInt (member m "max_depth")) (cfg_FIMMaxDepth c);
  cfg_FIMHashEnabled := default_of (asBool (member m "hash_enabled")) (cfg_FIMHashEnabled c);
  cfg_FIMHashMaxBytes := over (λ n, 0 <? n) (asInt (member m "hash_max_bytes")) (cfg_FIMHashMaxBytes c);
  cfg_FIMEmitInitial := default_of (asBool (member m "emit_initial")) (cfg_FIMEmitInitial c);
  cfg_FIMWatchPaths := nonempty_or (asStringSlice (member m "paths")) id (cfg_FIMWatchPaths c);
  cfg_FIMExcludePaths := nonempty_or (asStringSlice (member m "exclude_paths")) id (cfg_FIMExcludePaths c) |}.

Definition override_L7 (m : json) (c : L7Settings) : L7Settings := {|
  cfg_L7Iface := default_of (asString (member m "iface")) (cfg_L7Iface c);
  cfg_L7DedupTTL := asDuration (member m "dedup_ttl") (cfg_L7DedupTTL c);
  cfg_L7MaxBatch := over (λ n, 0 <? n) (asInt (member m "max_batch")) (cfg_L7MaxBatch c);
  cfg_L7MaxPayloadBytes := over (λ n, 0 <? n) (asInt (member m "max_payload_bytes")) (cfg_L7MaxPayloadBytes c);
  cfg_L7IncludePayload := restrict (asBool (member m "include_payload")) (cfg_L7IncludePayload c) |}.

(** The state a module asks for its source. *)
Definition source_state (m : option json) (source : string) (c : CoreSettings) : CoreSettings :=
  match m with
  | Some m => match asBool (member m "enabled") with Some enabled => applySourceState c source enabled | None => c end
  | None => c
  end.
Definition overridden {A} (f : json → A → A) (m : option json) (c : A) : A := match m with Some m => f m c | None => c end.

Definition ApplyAgentRuntimeOverrides (cfg : Config) (raw : json) : Config :=
  let core := allow_sources (c_Core cfg) in
  match asMap (member raw "modules") with
  | None => {| c_Core := core; c_Spool := c_Spool cfg; c_Identity := c_Identity cfg; c_TLS := c_TLS cfg; c_Control := c_Control cfg;
               c_Syscollect := c_Syscollect cfg; c_Vuln := c_Vuln cfg; c_Auth := c_Auth cfg; c_Proc := c_Proc cfg; c_ProcExec := c_ProcExec cfg;
               c_FIM := c_FIM cfg; c_L7 := c_L7 cfg; c_Lateral := c_Lateral cfg; c_Scan := c_Scan cfg; c_DDoS := c_DDoS cfg;
               c_NetCtx := c_NetCtx cfg; c_Topology := c_Topology cfg; c_Log := c_Log cfg |}
  | Some modules =>
    let dd := asMap (member modules "ddos") in
    let pe := asMap (member modules "proc_exec") in
    let fm := asMap (member modules "fim") in
    let l7m := asMap (member modules "l7") in
    let core := source_state dd "ddos" core in
    let core := source_state pe "proc_exec" core in
    let core := source_state fm "fim" core in
    let core := source_state l7m "l7" core in
    {| c_Core := core; c_Spool := c_Spool cfg; c_Identity := c_Identity cfg; c_TLS := c_TLS cfg; c_Control := c_Control cfg;
       c_Syscollect := c_Syscollect cfg; c_Vuln := c_Vuln cfg; c_Auth := c_Auth cfg; c_Proc := c_Proc cfg;
       c_ProcExec := overridden override_ProcExec pe (c_ProcExec cfg); c_FIM := overridden override_FIM fm (c_FIM cfg);
       c_L7 := sanitizeL7Config (overridden override_L7 l7m (c_L7 cfg)); c_Lateral := c_Lateral cfg; c_Scan := c_Scan cfg;
       c_DDoS := overridden override_DDoS dd (c_DDoS cfg); c_NetCtx := c_NetCtx cfg; c_Topology := c_Topology cfg; c_Log := c_Log cfg |}
  end.
End overrides.

(** ** Sources that were switched *)

Lemma ensureSource_elem l s x : x ∈ ensureSource l s ↔ x ∈ l ∨ x = s.
Proof.
  unfold ensureSource. destruct (str_in s l) eqn:E.
  - apply str_in_elem in E. split; [by left|]. by intros [?| ->].
  - by rewrite elem_of_app, list_elem_of_singleton.
Qed.

Lemma removeSource_elem l s x : x ∈ removeSource l s ↔ x ∈ l ∧ x ≠ s.
Proof. unfold removeSource. rewrite !list_elem_of_In, filter_In, negb_true_iff, str_eqb_neq. done. Qed.

Lemma ensureSource_id l s : s ∈ l → ensureSource l s = l.
Proof. intros H. unfold ensureSource. by rewrite (proj2 (str_in_elem _ _) H). Qed.

Lemma removeSource_id l s : s ∉ l → removeSource l s = l.
Proof.
  unfold removeSource. induction l as [|x l IH]; [done|]. intros [Hne Hl]%not_elem_of_cons. cbn.
  rewrite (proj2 (str_eqb_neq x s)) by congruence. cbn. by rewrite IH.
Qed.

(** What a module asks of its source, and whether the sources agree with it. *)
Definition wanted (m : option json) (source : string) (c : CoreSettings) : option bool :=
  m ← m; enabled ← asBool (member m "enabled"); Some (enabled && str_in source (default [] (cfg_AllowedSources c))).

Definition agrees (w : option bool) (source : string) (c : CoreSettings) : Prop :=
  match w with Some true => source ∈ cfg_Sources c | Some false => source ∉ cfg_Sources c | None => True end.

(** Everything but the sources. *)
Definition same_core (c c' : CoreSettings) : Prop := set_sources (cfg_Sources c) c' = c.

Lemma source_state_core m s c : same_core c (source_state m s c).
Proof. unfold source_state, applySourceState, same_core. destruct c. go_cases; done. Qed.

Lemma same_core_allowed c c' : same_core c c' → cfg_AllowedSources c' = cfg_AllowedSources c.
Proof. intros H. by rewrite <- H. Qed.

Lemma same_core_trans c1 c2 c3 : same_core c1 c2 → same_core c2 c3 → same_core c1 c3.
Proof. unfold same_core. destruct c1, c2, c3. cbn. intros [=] [=]. subst. done. Qed.

Lemma same_core_refl c : same_core c c.
Proof. by destruct c. Qed.
Lemma same_core_step m s c c' : same_core c c' → same_core c (source_state m s c').
Proof. intros H. eapply same_core_trans; [done|apply source_state_core]. Qed.
#[local] Hint Resolve same_core_refl same_core_step : core.

Lemma source_state_elem m s c x : x ∈ cfg_Sources (source_state m s c) ↔
  match wanted m s c with Some true => x ∈ cfg_Sources c ∨ x = s | Some false => x ∈ cfg_Sources c ∧ x ≠ s | None => x ∈ cfg_Sources c end.
Proof.
  unfold source_state, wanted, applySourceState. destruct m as [m|]; [|done]. cbn [mbind option_bind]. destruct (asBool _) as [e|]; [|done]. cbn [mbind option_bind].
  destruct (e && str_in s (default [] (cfg_AllowedSources c))); cbn [cfg_Sources set_sources]; [apply ensureSource_elem|apply removeSource_elem].
Qed.

Lemma source_state_agrees m s c : agrees (wanted m s c) s (source_state m s c).
Proof.
  unfold agrees. destruct (wanted m s c) as [[|]|] eqn:E; [..|done]; rewrite source_state_elem, E; [by right|]. by intros [_ ?].
Qed.

Lemma source_state_other m s c s' w : s' ≠ s → agrees w s' c → agrees w s' (source_state m s c).
Proof.
  intros Hne. unfold agrees. destruct w as [[|]|]; [..|done]; rewrite source_state_elem; destruct (wanted m s c) as [[|]|]; naive_solver.
Qed.

Lemma source_state_settled m s c : agrees (wanted m s c) s c → source_state m s c = c.
Proof.
  unfold agrees, wanted, source_state, applySourceState. destruct m as [m|]; [|done]. cbn [mbind option_bind]. destruct (asBool _) as [e|]; [|done]. cbn [mbind option_bind].
  destruct (e && _); intros H; [rewrite ensureSource_id by done|rewrite removeSource_id by done]; by destruct c.
Qed.

Lemma wanted_same m s c c' : same_core c c' → wanted m s c' = wanted m s c.
Proof. intros H. unfold wanted. by rewrite (same_core_allowed _ _ H). Qed.

(** The four switches, one after the other. *)
Definition switches (dd pe fm l7m : option json) (c : CoreSettings) : CoreSettings :=
  source_state l7m "l7" (source_state fm "fim" (source_state pe "proc_exec" (source_state dd "ddos" c))).

Lemma switches_core dd pe fm l7m c : same_core c (switches dd pe fm l7m c).
Proof. unfold switches. auto 10. Qed.

Lemma switches_idem dd pe fm l7m c : switches dd pe fm l7m (switches dd pe fm l7m c) = switches dd pe fm l7m c.
Proof.
  set (c1 := source_state dd "ddos" c). set (c2 := source_state pe "proc_exec" c1). set (c3 := source_state fm "fim" c2). set (c4 := source_state l7m "l7" c3).
  assert (same_core c c1) as H1 by (unfold c1; auto). assert (same_core c c2) as H2 by (unfold c2; auto).
  assert (same_core c c3) as H3 by (unfold c3; auto). assert (same_core c c4) as H4 by (unfold c4; auto).
  assert (agrees (wanted dd "ddos" c) "ddos" c4) as A1 by (repeat (apply source_state_other; [done|]); apply source_state_agrees).
  assert (agrees (wanted pe "proc_exec" c1) "proc_exec" c4) as A2 by (repeat (apply source_state_other; [done|]); apply source_state_agrees).
  assert (agrees (wanted fm "fim" c2) "fim" c4) as A3 by (repeat (apply source_state_other; [done|]); apply source_state_agrees).
  assert (agrees (wanted l7m "l7" c3) "l7" c4) as A4 by apply source_state_agrees.
  change (switches dd pe fm l7m c4 = c4). unfold switches.
  rewrite <- (wanted_same dd _ _ _ H4) in A1. rewrite (wanted_same pe _ _ _ H1), <- (wanted_same pe _ _ _ H4) in A2.
  rewrite (wanted_same fm _ _ _ H2), <- (wanted_same fm _ _ _ H4) in A3. rewrite (wanted_same l7m _ _ _ H3), <- (wanted_same l7m _ _ _ H4) in A4.
  rewrite (source_state_settled dd) by done. rewrite (source_state_settled pe) by done. rewrite (source_state_settled fm) by done. by apply source_state_settled.
Qed.

Lemma switches_within dd pe fm l7m c s : s ∈ cfg_Sources (switches dd pe fm l7m c) → s ∈ cfg_Sources c ∨ s ∈ default [] (cfg_AllowedSources c).
Proof.
  assert (∀ m n c' x, same_core c c' → (x ∈ cfg_Sources c' → x ∈ cfg_Sources c ∨ x ∈ default [] (cfg_AllowedSources c)) →
    x ∈ cfg_Sources (source_state m n c') → x ∈ cfg_Sources c ∨ x ∈ default [] (cfg_AllowedSources c)) as Hstep.
  { intros m n c' x Hc Hx. rewrite source_state_elem, (wanted_same _ _ _ _ Hc). destruct (wanted m n c) as [[|]|] eqn:E; [|naive_solver..].
    intros [?| ->]; [by apply Hx|right]. unfold wanted in E. destruct m as [m|]; [|done]. cbn in E. destruct (asBool _); [|done]. cbn in E.
    injection E as [_ E]%andb_true_iff. by apply str_in_elem. }
  unfold switches. repeat (apply Hstep; [by auto 10|]). by left.
Qed.

(** ** Settings that were merged *)

(** A merge of one setting: it keeps what is there, or puts one value in its place. *)
Definition merge {A} (f : A → A) : Prop := (∀ d, f d = d) ∨ ∃ x, ∀ d, f d = x.

Lemma merge_idem {A} (f : A → A) d : merge f → f (f d) = f d.
Proof. intros [H|[x H]]; by rewrite !H. Qed.

Lemma merge_through {A} (f g : A → A) d : merge f → (∀ d, g (g d) = g d) → g (f (g (f d))) = g (f d).
Proof. intros [H|[x H]] Hg; rewrite !H; [apply Hg|done]. Qed.

Lemma merge_over {A} test (v : option A) : merge (over test v).
Proof. unfold over. destruct v as [x|]; [|by left]. destruct (test x); [right; by exists x|by left]. Qed.
Lemma merge_default {A} (v : option A) : merge (default_of v).
Proof. unfold default_of. destruct v as [x|]; [right; by exists x|by left]. Qed.
Lemma merge_nonempty {A B} (l : list A) (f : list A → B) : merge (nonempty_or l f).
Proof. unfold nonempty_or. destruct l as [|x l]; [by left|right; by exists (f (x :: l))]. Qed.

Lemma clampInt_idem lo hi v : lo <= hi → clampInt (clampInt v lo hi) lo hi = clampInt v lo hi.
Proof. unfold clampInt. go_cases; lia. Qed.

Section merged.
Context (ParseDuration : string → option duration) (ParseFloat : string → option float64) (sprint : json → string).

Abbreviation Apply' := (ApplyAgentRuntimeOverrides ParseDuration ParseFloat sprint).

Lemma merge_duration v : merge (asDuration ParseDuration ParseFloat v).
Proof.
  unfold asDuration. destruct v as [v|]; [|by left].
  assert (merge (λ def, match number ParseFloat v with Some f => if fgt f f0 then to_int (fmul f (of_int second)) else def | None => def end)) as H.
  { destruct (number ParseFloat v) as [f|]; [|by left]. destruct (fgt f f0); [right; by eexists|by left]. }
  destruct v as [| | | |s| |]; try exact H. destruct (ParseDuration (TrimSpace s)) as [d|]; [|by left]. destruct (0 <? d); [right; by exists d|by left].
Qed.

Lemma override_DDoS_idem m c : override_DDoS ParseDuration ParseFloat m (override_DDoS ParseDuration ParseFloat m c) = override_DDoS ParseDuration ParseFloat m c.
Proof. unfold override_DDoS. f_equal; cbn; apply merge_idem; first [apply merge_over|apply merge_default|apply merge_duration]. Qed.
Lemma override_ProcExec_idem m c :
  override_ProcExec ParseDuration ParseFloat sprint m (override_ProcExec ParseDuration ParseFloat sprint m c) = override_ProcExec ParseDuration ParseFloat sprint m c.
Proof. unfold override_ProcExec. f_equal; cbn; apply merge_idem; first [apply merge_over|apply merge_default|apply merge_duration|apply merge_nonempty]. Qed.
Lemma override_FIM_idem m c :
  override_FIM ParseDuration ParseFloat sprint m (override_FIM ParseDuration ParseFloat sprint m c) = override_FIM ParseDuration ParseFloat sprint m c.
Proof. unfold override_FIM. f_equal; cbn; apply merge_idem; first [apply merge_over|apply merge_default|apply merge_duration|apply merge_nonempty]. Qed.

Lemma overridden_idem {A} (f : json → A → A) m c : (∀ m c, f m (f m c) = f m c) → overridden f m (overridden f m c) = overridden f m c.
Proof. intros H. destruct m as [m|]; [apply H|done]. Qed.

Lemma sanitize_idem c : sanitizeL7Config (sanitizeL7Config c) = sanitizeL7Config c.
Proof.
  unfold sanitizeL7Config. cbn -[TrimSpace clampInt Z.leb]. f_equal; [by destruct (is_empty (TrimSpace (cfg_L7Iface c))) eqn:E; rewrite ?E| |by apply clampInt_idem..].
  destruct (cfg_L7DedupTTL c <=? 0) eqn:E; by rewrite ?E.
Qed.

Lemma override_L7_settles m c :
  let f c := sanitizeL7Config (overridden (override_L7 ParseDuration ParseFloat) m c) in f (f c) = f c.
Proof.
  destruct m as [m|]; [|apply sanitize_idem]. cbn [overridden]. unfold sanitizeL7Config, override_L7. cbn -[TrimSpace clampInt asDuration over default_of restrict Z.leb]. f_equal.
  - apply (merge_through (default_of _) (λ s, if is_empty (TrimSpace s) then "any" else s)%string); [apply merge_default|]. intros s.
    by destruct (is_empty (TrimSpace s)) eqn:E; rewrite ?E.
  - apply (merge_through (asDuration _ _ _) (λ d, if d <=? 0 then DefaultL7DedupTTL else d)); [apply merge_duration|]. intros d.
    by destruct (d <=? 0) eqn:E; rewrite ?E.
  - apply (merge_through (over _ _) (λ n, clampInt n 1 MaxL7MaxBatch)); [apply merge_over|]. intros n. by apply clampInt_idem.
  - apply (merge_through (over _ _) (λ n, clampInt n 1 MaxL7MaxPayloadBytes)); [apply merge_over|]. intros n. by apply clampInt_idem.
  - unfold restrict. destruct (asBool _) as [[|]|], (cfg_L7IncludePayload c); done.
Qed.

Lemma allow_sources_id c l : cfg_AllowedSources c = Some l → allow_sources c = c.
Proof. unfold allow_sources. intros E. rewrite E. cbn. rewrite <- E. by destruct c. Qed.

Lemma switches_allowed dd pe fm l7m c : allow_sources (switches dd pe fm l7m (allow_sources c)) = switches dd pe fm l7m (allow_sources c).
Proof. apply (allow_sources_id _ (default (cfg_Sources c) (cfg_AllowedSources c))). by rewrite (same_core_allowed _ _ (switches_core _ _ _ _ _)). Qed.

Lemma switches_local dd pe fm l7m c : set_sources [] (allow_sources (switches dd pe fm l7m (allow_sources c))) = set_sources [] (allow_sources c).
Proof. rewrite switches_allowed. pose proof (switches_core dd pe fm l7m (allow_sources c)) as H. apply (f_equal (set_sources [])) in H. exact H. Qed.

(** The remote configuration can be applied again.  Applying it to settings it was
    already applied to changes nothing. *)
Theorem overrides_idempotent cfg raw : Apply' (Apply' cfg raw) raw = Apply' cfg raw.
Proof.
  unfold ApplyAgentRuntimeOverrides. destruct (asMap (member raw "modules")) as [modules|]; cbn; [|done].
  set (dd := asMap (member modules "ddos")). set (pe := asMap (member modules "proc_exec")). set (fm := asMap (member modules "fim")). set (l7m := asMap (member modules "l7")).
  fold (switches dd pe fm l7m (allow_sources (c_Core cfg))).
  rewrite switches_allowed.
  fold (switches dd pe fm l7m (switches dd pe fm l7m (allow_sources (c_Core cfg)))). rewrite switches_idem, override_L7_settles, !overridden_idem; try done.
  - apply override_DDoS_idem.
  - apply override_FIM_idem.
  - apply override_ProcExec_idem.
Qed.

(** The settings the remote configuration has no access to. *)
Definition local_settings (c : Config) := (set_sources [] (allow_sources (c_Core c)), c_Spool c, c_Identity c, c_TLS c, c_Control c, c_Syscollect c, c_Vuln c, c_Auth c,
  c_Proc c, c_Lateral c, c_Scan c, c_NetCtx c, c_Topology c, c_Log c).

Lemma over_pos v n : 0 < n → 0 < over (λ n, 0 <? n) v n.
Proof. unfold over. go_cases; lia. Qed.

(** C31: the remote configuration cannot widen what the agent may do.  Whatever it contains: no
    source is started that is not allowed locally, payloads are not collected
    unless they were, the L7 bounds hold, counts stay positive, and the settings
    outside the four modules, those for identity, TLS, response actions, shell execution
    and discovery among them, stay as they are. *)
Theorem overrides_only_restrict cfg raw :
  let allowed := default (cfg_Sources (c_Core cfg)) (cfg_AllowedSources (c_Core cfg)) in
  l7_bounded (c_L7 cfg) → Forall (λ n, 0 < n) (module_counts cfg) →
  (∀ s, s ∈ cfg_Sources (c_Core (Apply' cfg raw)) → s ∈ cfg_Sources (c_Core cfg) ∨ s ∈ allowed) ∧
  (cfg_L7IncludePayload (c_L7 (Apply' cfg raw)) = true → cfg_L7IncludePayload (c_L7 cfg) = true) ∧
  l7_bounded (c_L7 (Apply' cfg raw)) ∧ Forall (λ n, 0 < n) (module_counts (Apply' cfg raw)) ∧
  local_settings (Apply' cfg raw) = local_settings cfg.
Proof.
  intros allowed Hl7 Hcounts. unfold ApplyAgentRuntimeOverrides. destruct (asMap (member raw "modules")) as [modules|]; cbn [c_Core c_L7].
  2: { split; [by left|]. split; [done|]. split; [done|]. by split; [exact Hcounts|]. }
  set (dd := asMap (member modules "ddos")). set (pe := asMap (member modules "proc_exec")). set (fm := asMap (member modules "fim")). set (l7m := asMap (member modules "l7")).
  fold (switches dd pe fm l7m (allow_sources (c_Core cfg))). split; [|split; [|split; [apply sanitize_bounded|split]]].
  - intros s Hs. by apply switches_within in Hs.
  - cbn. destruct l7m as [m|]; cbn; [|done]. unfold restrict. destruct (asBool _); [|done]. by intros [? _]%andb_true_iff.
  - unfold module_counts in *. cbn [c_ProcExec c_FIM c_DDoS]. repeat (apply Forall_cons in Hcounts as [? Hcounts]).
    destruct dd, pe, fm; cbn [overridden]; repeat (apply Forall_cons; split); try (by apply over_pos); try done; by constructor.
  - unfold local_settings. cbn [c_Core c_Spool c_Identity c_TLS c_Control c_Syscollect c_Vuln c_Auth c_Proc c_Lateral c_Scan c_NetCtx c_Topology c_Log]. by rewrite switches_local.
Qed.
End merged.

(** ** Examples *)

(** A number of seconds is tested before it becomes a duration, which may then be zero or negative. *)
Lemma number_durations_unchecked :
  asDuration (λ _, None) (λ _, Some (lit 1 10)) (Some (JFrac "1e-10")) second = 0 ∧
  asDuration (λ _, None) (λ _, None) (Some (JInt (10 ^ 10))) second = min_int64.
Proof. vm_compute. by split. Qed.

Definition demo_raw : json := JObj [("modules"%string, JObj
  [("ddos"%string, JObj [("enabled"%string, JStr "on"); ("min_packets"%string, JInt 7)]);
   ("fim"%string, JObj [("enabled"%string, JBool true)]);
   ("l7"%string, JObj [("include_payload"%string, JBool true); ("max_batch"%string, JInt 5000)])])].
Definition demo_cfg : Config :=
  match demo_load with
  | inr c => c
  | inl _ => {| c_Core := load_Core (λ _, None) (λ _, None); c_Spool := load_Spool (λ _, None) (λ _, None);
                c_Identity := Build_IdentitySettings "" "" "" "" "" "" "" "" "" "" "" false;
                c_TLS := load_TLS (λ _, None); c_Control := load_Control (λ _, None) (λ _, None); c_Syscollect := load_Syscollect (λ _, None) (λ _, None);
                c_Vuln := load_Vuln (λ _, None) (λ _, None); c_Auth := load_Auth (λ _, None) (λ _, None); c_Proc := load_Proc (λ _, None) (λ _, None) (λ _, None);
                c_ProcExec := load_ProcExec (λ _, None) (λ _, None); c_FIM := load_FIM (λ _, None) (λ _, None); c_L7 := load_L7 (λ _, None) (λ _, None);
                c_Lateral := load_Lateral (λ _, None) (λ _, None); c_Scan := load_Scan (λ _, None) (λ _, None);
                c_DDoS := load_DDoS (λ _, None) (λ _, None) (λ _, None); c_NetCtx := load_NetCtx (λ _, None);
                c_Topology := Build_TopologySettings false [] false 1 1 1 1; c_Log := load_Log (λ _, None) (λ _, None) |}
  end.
Definition demo_applied : Config := ApplyAgentRuntimeOverrides (λ _, None) (λ _, None) (λ _, "")%string demo_cfg demo_raw.

Lemma overrides_only_restrict_witness :
  (cfg_Sources (c_Core demo_applied), cfg_L7IncludePayload (c_L7 demo_applied), cfg_L7MaxBatch (c_L7 demo_applied), cfg_DDoSMinPackets (c_DDoS demo_applied)) =
    (["l7"; "authlog"]%string, false, 2000, 7) ∧
  local_settings demo_applied = local_settings demo_cfg.
Proof.
  split; [vm_compute; reflexivity|].
  destruct (overrides_only_restrict (λ _, None) (λ _, None) (λ _, "")%string demo_cfg demo_raw) as (_ & _ & _ & _ & H).
  - vm_compute. repeat split; discriminate.
  - vm_compute. repeat constructor.
  - exact H.
Defined.
