(* ===== verification/ScanStats.v ===== *)
(** * ScanStats: what a cycle says about the scan probes it drained
      (internal/sources/scan.go)

    Counts over all probes, a class and a score, and one summary event per
    source, destination and protocol.  Go's iteration order over the map of
    aggregates and the text of a float64 are parameters. *)

From S2P Require Import Prelude GoStr GoText GoJson Event Float.

Local Open Scope Z_scope.
Local Open Scope go_scope.

Record ScanStats := {
  ss_Total : Z; ss_Effective : Z; ss_UniqueSrcs : Z; ss_UniqueDstPorts : Z; ss_SSHPortHits : Z; ss_Class : string; ss_Score : Z }.

Definition zsize `{Countable A} (s : gset A) : Z := Z.of_nat (size s).

(** ** Class and score *)

Definition ssh_ratio (total sshHits : Z) : float64 := fdiv (of_int sshHits) (of_int (Z.max 1 total)).

Definition classifyScan (total uniquePorts sshHits : Z) : string :=
  if total <=? 0 then "none" else
  if (20 <=? uniquePorts) && (60 <=? total) then "scan" else
  if (uniquePorts <=? 2) && (20 <=? total) && fge (ssh_ratio total sshHits) (lit 80 2) then "service_noise" else
  if (8 <=? uniquePorts) && (80 <=? total) then "suspicious" else "low".

Definition computeScanScore (total uniquePorts sshHits : Z) : Z :=
  let score := uniquePorts * 12 + Z.quot (Z.min total 800) 8 in
  let score := if (uniquePorts <=? 2) && fge (ssh_ratio total sshHits) (lit 80 2) then Z.quot score 4 else score in
  if score <? 0 then 0 else score.

(** ** The counts *)

Record counts := { ct_srcs : gset string; ct_ports : gset Z; ct_sshHits : Z; ct_total : Z }.

Definition is_probe (ev : NetEvent) : bool := str_eqb (ne_EventType ev) "scan_probe".

(** The ports an event adds, and whether it hits the SSH port. *)
Definition ports_of (ev : NetEvent) : gset Z := if 0 <? ne_DstPort ev then {[ne_DstPort ev]} else ∅.
Definition hits_of (ev : NetEvent) : Z := if (0 <? ne_DstPort ev) && (ne_DstPort ev =? 22) then 1 else 0.

Definition count_probe (c : counts) (ev : NetEvent) : counts :=
  if negb (is_probe ev) then c else
  {| ct_srcs := if is_empty (ne_SrcIP ev) then ct_srcs c else {[ne_SrcIP ev]} ∪ ct_srcs c;
     ct_ports := ports_of ev ∪ ct_ports c; ct_sshHits := ct_sshHits c + hits_of ev; ct_total := ct_total c + 1 |}.

Definition computeScanStats (scanEvents : list NetEvent) : ScanStats :=
  match scanEvents with
  | [] => {| ss_Total := 0; ss_Effective := 0; ss_UniqueSrcs := 0; ss_UniqueDstPorts := 0; ss_SSHPortHits := 0; ss_Class := "none"; ss_Score := 0 |}
  | _ =>
    let c := fold_left count_probe scanEvents {| ct_srcs := ∅; ct_ports := ∅; ct_sshHits := 0; ct_total := 0 |} in
    let uniquePorts := zsize (ct_ports c) in
    let class := classifyScan (ct_total c) uniquePorts (ct_sshHits c) in
    {| ss_Total := ct_total c; ss_Effective := if str_eqb class "service_noise" then 0 else ct_total c;
       ss_UniqueSrcs := zsize (ct_srcs c); ss_UniqueDstPorts := uniquePorts; ss_SSHPortHits := ct_sshHits c; ss_Class := class;
       ss_Score := computeScanScore (ct_total c) uniquePorts (ct_sshHits c) |}
  end.

(** ** Summaries *)

(** Source, destination and protocol. *)
Definition scanKey : Type := (string * string * string)%type.
Definition key_of (ev : NetEvent) : scanKey := (ne_SrcIP ev, ne_DstIP ev, ne_Proto ev).

Record scanAgg := {
  sa_src : string; sa_dst : string; sa_proto : string; sa_total : Z; sa_sshHits : Z; sa_dstPorts : gset Z; sa_scanTypes : gset string }.

Definition new_agg (ev : NetEvent) : scanAgg :=
  {| sa_src := ne_SrcIP ev; sa_dst := ne_DstIP ev; sa_proto := ne_Proto ev; sa_total := 0; sa_sshHits := 0; sa_dstPorts := ∅; sa_scanTypes := ∅ |}.
Definition types_of (ev : NetEvent) : gset string :=
  match extra_string ev "scan_type" with Some st => if is_empty st then ∅ else {[st]} | None => ∅ end.
Definition add_probe (a : scanAgg) (ev : NetEvent) : scanAgg :=
  {| sa_src := sa_src a; sa_dst := sa_dst a; sa_proto := sa_proto a; sa_total := sa_total a + 1; sa_sshHits := sa_sshHits a + hits_of ev;
     sa_dstPorts := ports_of ev ∪ sa_dstPorts a; sa_scanTypes := types_of ev ∪ sa_scanTypes a |}.
Definition aggregate (m : gmap scanKey scanAgg) (ev : NetEvent) : gmap scanKey scanAgg :=
  if negb (is_probe ev) then m else
  <[key_of ev := add_probe (default (new_agg ev) (m !! key_of ev)) ev]> m.

Section summaries.
Context (number : float64 → string) (order : gmap scanKey scanAgg → list (scanKey * scanAgg)).

Definition summary_event (agentID : string) (now : time) (windowSec : Z) (a : scanAgg) : NetEvent :=
  let uniquePorts := zsize (sa_dstPorts a) in
  let class := classifyScan (sa_total a) uniquePorts (sa_sshHits a) in
  let sshRatio := if 0 <? sa_total a then fdiv (of_int (sa_sshHits a)) (of_int (sa_total a)) else f0 in
  {| ne_EventID := ""; ne_AgentID := agentID; ne_EventType := "scan_summary"; ne_SchemaVersion := 0; ne_Timestamp := now;
     ne_SrcIP := sa_src a; ne_DstIP := sa_dst a; ne_SrcPort := 0; ne_DstPort := 0; ne_Proto := sa_proto a; ne_Bytes := 0;
     ne_Extra := Some (list_to_map [
       ("window_seconds", JInt windowSec); ("total_probes", JInt (sa_total a)); ("unique_dst_ports", JInt uniquePorts);
       ("ssh_port_hits", JInt (sa_sshHits a)); ("ssh_ratio", JFrac (number (Round2 sshRatio)));
       ("unique_scan_types", JInt (zsize (sa_scanTypes a))); ("scan_class", JStr class);
       ("scan_score", JInt (computeScanScore (sa_total a) uniquePorts (sa_sshHits a)));
       ("effective", JBool (negb (str_eqb class "service_noise")))]) |}.

Definition window_seconds (window : duration) : Z :=
  let windowSec := to_int (Seconds window) in if windowSec <=? 0 then 1 else windowSec.

Definition buildScanSummaries (agentID : string) (scanEvents : list NetEvent) (window : duration) (now : time) : list NetEvent :=
  match scanEvents with
  | [] => []
  | _ => map (λ ka, summary_event agentID now (window_seconds window) ka.2) (order (fold_left aggregate scanEvents ∅))
  end.
End summaries.

(** ** The summaries against a grouping of the probes *)

Definition probes_of (k : scanKey) (evs : list NetEvent) : list NetEvent := filter (λ ev, is_probe ev = true ∧ key_of ev = k) evs.
Definition keys_of (evs : list NetEvent) : list scanKey := remove_dups (key_of <$> filter (λ ev, is_probe ev = true) evs).
Definition agg_of (k : scanKey) (evs : list NetEvent) : scanAgg :=
  let ps := probes_of k evs in
  {| sa_src := k.1.1; sa_dst := k.1.2; sa_proto := k.2; sa_total := Z.of_nat (length ps); sa_sshHits := sumZ hits_of ps;
     sa_dstPorts := ⋃ (ports_of <$> ps); sa_scanTypes := ⋃ (types_of <$> ps) |}.

Lemma probes_snoc k evs ev :
  probes_of k (evs ++ [ev]) = probes_of k evs ++ (if decide (is_probe ev = true ∧ key_of ev = k) then [ev] else []).
Proof. unfold probes_of. rewrite filter_app. f_equal. Qed.

Lemma agg_snoc k evs ev : is_probe ev = true → key_of ev = k → agg_of k (evs ++ [ev]) = add_probe (agg_of k evs) ev.
Proof.
  intros Hp Hk. unfold agg_of, add_probe. rewrite probes_snoc, decide_True by done. cbn. rewrite length_app, sumZ_app, !fmap_app, !union_list_app_L. cbn.
  f_equal; [lia|lia|set_solver..].
Qed.

Lemma agg_other k evs ev : ¬ (is_probe ev = true ∧ key_of ev = k) → agg_of k (evs ++ [ev]) = agg_of k evs.
Proof. intros Hn. unfold agg_of. by rewrite probes_snoc, decide_False, app_nil_r by done. Qed.

Lemma agg_empty ev : agg_of (key_of ev) [] = new_agg ev.
Proof. done. Qed.

Lemma aggregate_groups evs k :
  fold_left aggregate evs ∅ !! k = if decide (probes_of k evs = []) then None else Some (agg_of k evs).
Proof.
  induction evs as [|ev evs IH] using rev_ind; [by rewrite decide_True|]. rewrite fold_left_app. cbn [fold_left]. unfold aggregate at 1.
  rewrite probes_snoc. destruct (is_probe ev) eqn:Hp; cbn [negb].
  2:{ rewrite IH. rewrite (decide_False (P := false = true ∧ _)), app_nil_r by naive_solver. case_decide; [done|]. rewrite agg_other; [done|]. rewrite Hp. by intros []. }
  destruct (decide (key_of ev = k)) as [Hk|Hk].
  - subst k. rewrite lookup_insert_eq, IH. rewrite (decide_True (P := true = true ∧ _)) by done. rewrite (decide_False (P := _ ++ [ev] = [])) by (by destruct (probes_of (key_of ev) evs)).
    rewrite agg_snoc by done. f_equal. f_equal. case_decide as He; [|done]. cbn [default]. rewrite <- agg_empty. unfold agg_of. by rewrite He.
  - rewrite lookup_insert_ne, IH by done. rewrite (decide_False (P := true = true ∧ _)), app_nil_r by naive_solver. case_decide; [done|]. rewrite agg_other; [done|]. by intros [].
Qed.

Lemma elem_of_keys k evs : k ∈ keys_of evs ↔ probes_of k evs ≠ [].
Proof.
  unfold keys_of. rewrite elem_of_remove_dups, list_elem_of_fmap. split.
  - intros (ev & -> & Hev). apply list_elem_of_filter in Hev as [Hp Hin]. intros Hnil.
    assert (H : ev ∈ probes_of (key_of ev) evs) by (apply list_elem_of_filter; done). rewrite Hnil in H. by apply not_elem_of_nil in H.
  - intros Hne. destruct (probes_of k evs) as [|ev l] eqn:He; [done|]. assert (H : ev ∈ probes_of k evs) by (rewrite He; by left).
    apply list_elem_of_filter in H as [[Hp <-] Hin]. exists ev. split; [done|]. by apply list_elem_of_filter.
Qed.

Lemma aggregates_list evs : map_to_list (fold_left aggregate evs ∅) ≡ₚ (λ k, (k, agg_of k evs)) <$> keys_of evs.
Proof.
  apply NoDup_Permutation.
  - apply NoDup_map_to_list.
  - apply NoDup_fmap_2; [by intros ?? [=]|]. apply NoDup_remove_dups.
  - intros [k a]. rewrite elem_of_map_to_list, aggregate_groups, list_elem_of_fmap. case_decide as He.
    + split; [done|]. intros (k' & [= -> ->] & Hk). by apply elem_of_keys in Hk.
    + split; [intros [= <-]; exists k; split; [done|by apply elem_of_keys]|]. by intros (k' & [= -> ->] & _).
Qed.

(** Grouping by key loses no probe. *)
Lemma groups_partition evs : sumZ (λ k, Z.of_nat (length (probes_of k evs))) (keys_of evs) = Z.of_nat (length (filter (λ ev, is_probe ev = true) evs)).
Proof.
  unfold keys_of. set (ps := filter (λ ev, is_probe ev = true) evs).
  assert (Hps : ∀ k, probes_of k evs = filter (λ ev, key_of ev = k) ps).
  { intros k. unfold probes_of, ps. rewrite list_filter_filter. apply list_filter_iff. naive_solver. }
  rewrite (sumZ_ext _ (λ k, Z.of_nat (length (filter (λ ev, key_of ev = k) ps)))) by (intros k _; by rewrite Hps). clear Hps. clearbody ps. clear evs.
  assert (H : ∀ ks, NoDup ks → (∀ ev, ev ∈ ps → key_of ev ∈ ks) → sumZ (λ k, Z.of_nat (length (filter (λ ev, key_of ev = k) ps))) ks = Z.of_nat (length ps)).
  2:{ apply H; [apply NoDup_remove_dups|]. intros ev Hev. apply elem_of_remove_dups, list_elem_of_fmap. by exists ev. }
  intros ks Hnd. induction ps as [|ev ps IH]; intros Hin.
  - clear. induction ks as [|k ks IH]; [done|]. unfold sumZ in *. cbn [foldr]. rewrite IH. done.
  - assert (Hk : key_of ev ∈ ks) by (apply Hin; by left). specialize (IH (λ e He, Hin e (list_elem_of_further _ _ _ He))). cbn [length].
    rewrite Nat2Z.inj_succ, <- IH. clear IH Hin. induction Hnd as [|k ks Hnk Hnd IH]; [by apply not_elem_of_nil in Hk|].
    cbn [sumZ foldr]. fold (sumZ (λ k, Z.of_nat (length (filter (λ ev, key_of ev = k) (ev :: ps)))) ks).
    fold (sumZ (λ k, Z.of_nat (length (filter (λ ev, key_of ev = k) ps))) ks). rewrite filter_cons. case_decide as He.
    + subst k. cbn [length]. rewrite (sumZ_ext _ (λ k, Z.of_nat (length (filter (λ ev, key_of ev = k) ps))) ks); [lia|].
      intros k Hk'. rewrite filter_cons, decide_False; [done|]. by intros <-.
    + apply elem_of_cons in Hk as [<-|Hk]; [done|]. rewrite (IH Hk). lia.
Qed.

Lemma count_total c evs : ct_total (fold_left count_probe evs c) = ct_total c + Z.of_nat (length (filter (λ ev, is_probe ev = true) evs)).
Proof.
  revert c. induction evs as [|ev evs IH]; intros c; cbn [fold_left]; [cbn; lia|]. rewrite IH, filter_cons. unfold count_probe.
  destruct (is_probe ev); cbn; [rewrite decide_True by done; cbn; lia|]. rewrite decide_False by done. lia.
Qed.

Lemma stats_total evs : ss_Total (computeScanStats evs) = Z.of_nat (length (filter (λ ev, is_probe ev = true) evs)).
Proof. destruct evs; [done|]. unfold computeScanStats. cbn [ss_Total]. rewrite count_total. cbn. lia. Qed.

(** Scan summaries (buildScanSummaries).  In whatever order the map of aggregates is
    visited, there is exactly one summary for each source, destination and protocol
    that a probe has, made of the counts of exactly those probes, and the summaries
    together account for every probe counted by computeScanStats. *)
Theorem summaries_account_for_probes number order agentID evs window now :
  (∀ m, order m ≡ₚ map_to_list m) →
  buildScanSummaries number order agentID evs window now ≡ₚ
    map (λ k, summary_event number agentID now (window_seconds window) (agg_of k evs)) (keys_of evs) ∧
  NoDup (keys_of evs) ∧ (∀ ev, ev ∈ evs → is_probe ev = true → key_of ev ∈ keys_of evs) ∧
  sumZ (λ k, sa_total (agg_of k evs)) (keys_of evs) = ss_Total (computeScanStats evs).
Proof.
  intros Ho. split_and!.
  - unfold buildScanSummaries. destruct evs as [|ev evs]; [done|]. rewrite Ho, aggregates_list. change ((λ k, (k, agg_of k (ev :: evs))) <$> keys_of (ev :: evs)) with (map (λ k, (k, agg_of k (ev :: evs))) (keys_of (ev :: evs))). by rewrite map_map.
  - apply NoDup_remove_dups.
  - intros ev Hin Hp. apply elem_of_keys. intros Hnil. assert (H : ev ∈ probes_of (key_of ev) evs) by by apply list_elem_of_filter.
    rewrite Hnil in H. by apply not_elem_of_nil in H.
  - rewrite stats_total, <- groups_partition. by apply sumZ_ext.
Qed.

(** ** Examples *)

Definition demo_probe (src : string) (port : Z) : NetEvent :=
  {| ne_EventID := ""; ne_AgentID := "a"; ne_EventType := "scan_probe"; ne_SchemaVersion := 0; ne_Timestamp := 5; ne_SrcIP := src; ne_DstIP := "10.0.0.1";
     ne_SrcPort := 40000; ne_DstPort := port; ne_Proto := "tcp"; ne_Bytes := 60; ne_Extra := Some {["scan_type" := JStr "tcp_syn"]} |}.

Definition ssh_burst : list NetEvent := repeat (demo_probe "192.0.2.7" 22) 24.
Definition sweep : list NetEvent := map (λ n, demo_probe "192.0.2.8" (Z.of_nat n + 1)) (seq 0 70).

Lemma summaries_account_for_probes_witness :
  (buildScanSummaries (λ _, "1") map_to_list "a" (sweep ++ ssh_burst) second 9 ≡ₚ
    map (λ k, summary_event (λ _, "1"%string) "a" 9 (window_seconds second) (agg_of k (sweep ++ ssh_burst))) (keys_of (sweep ++ ssh_burst))) ∧
  map (λ k, (k.1.1, sa_total (agg_of k (sweep ++ ssh_burst)))) (keys_of (sweep ++ ssh_burst)) = [("192.0.2.8"%string, 70); ("192.0.2.7"%string, 24)].
Proof.
  split; [|vm_compute; reflexivity].
  destruct (summaries_account_for_probes (λ _, "1"%string) map_to_list "a" (sweep ++ ssh_burst) second 9 (λ m, Permutation_refl _)) as [H _]. exact H.
Defined.

Example classes :
  map (λ evs, (ss_Class (computeScanStats evs), ss_Effective (computeScanStats evs), ss_Score (computeScanStats evs))) [[]; ssh_burst; sweep] =
  [("none"%string, 0, 0); ("service_noise"%string, 0, 3); ("scan"%string, 70, 848)].
Proof. vm_compute. reflexivity. Qed.
