(* ===== verification/Manager.v ===== *)
(** * Manager: the collectors an agent runs (internal/sources/manager.go)

    [NewManager] builds, from the settings, the capturers of the selected
    sources; [cworld] is the world of a polling cycle: the manager with the
    capturers' states, the authentication log with its files (AuthLog) and the
    sender with its queue (Sender).  The goroutines that feed the packet
    capturers are the packet steps of their components. *)

From S2P Require Import Prelude GoStr Effects GoText GoJson Event FileUtil Net Float GoIP Netctx Pcapx Spool Queue Sender.
From S2P Require Import Settings Flows ProcExec Fim L7 Scan Ddos AuthLog.

Local Open Scope Z_scope.
Local Open Scope go_scope.

Record Manager := {
  mg_cfg : Settings.Config; mg_sender : Sender.Sender;
  mg_proc : option Flows.Capturer; mg_procExec : option ProcExec.Capturer; mg_fim : option Fim.Capturer; mg_l7 : option L7.PcapL7Capturer;
  mg_auth : bool;   (** whether there is a capturer of the authentication log; its state is in the world *)
  mg_lateralProc : option Flows.ProcLateralCapturer; mg_lateralPcap : option Flows.PcapLateralCapturer;
  mg_scan : option Scan.PcapScanCapturer; mg_ddos : option (Ddos.config * Ddos.state) }.

Record cworld := { cw_mgr : Manager; cw_auth : aworld; cw_send : sworld }.

Definition set_mgr (m : Manager) (w : cworld) : cworld := {| cw_mgr := m; cw_auth := cw_auth w; cw_send := cw_send w |}.
Definition set_auth (a : aworld) (w : cworld) : cworld := {| cw_mgr := cw_mgr w; cw_auth := a; cw_send := cw_send w |}.
Definition set_send (s : sworld) (w : cworld) : cworld := {| cw_mgr := cw_mgr w; cw_auth := cw_auth w; cw_send := s |}.

(** ** Options from the settings *)

Definition Contains (l : list string) (v : string) : bool := existsb (str_eqb v) l.

Definition flow_options (p : ProcSettings) (dedupTTL : duration) (maxBatch : Z) : Flows.Options :=
  {| Flows.o_AllowStates := None; Flows.o_DedupTTL := dedupTTL; Flows.o_EstablishedTTL := cfg_EstablishedTTL p;
     Flows.o_SkipLoopback := cfg_SkipLoopback p; Flows.o_SkipLinkLocal := cfg_SkipLinkLocal p;
     Flows.o_SkipPrivateToPrivate := cfg_SkipPrivateToPrivate p; Flows.o_DropLikelyOutbound := cfg_ProcDropLikelyOutbound p;
     Flows.o_EphemeralPortMin := cfg_EphemeralPortMin p; Flows.o_DenyCIDRs := cfg_DenyCIDRs p; Flows.o_DenyDstPorts := cfg_DenyDstPorts p;
     Flows.o_DenySrcPorts := cfg_DenySrcPorts p; Flows.o_MaxBatchSize := maxBatch; Flows.o_IncludeIPv6 := true |}.

Definition proc_exec_options (p : ProcExecSettings) : ProcExec.Options :=
  {| ProcExec.o_ProcRoot := "/proc"; ProcExec.o_MinInterval := cfg_ProcExecEvery p; ProcExec.o_EmitInitialState := cfg_ProcExecEmitInitial p;
     ProcExec.o_MaxBatchSize := cfg_ProcExecMaxBatch p; ProcExec.o_CmdlineMaxBytes := 2048;
     ProcExec.o_IgnoreExeNames := cfg_ProcExecIgnoreExeNames p; ProcExec.o_IgnoreCmdContains := cfg_ProcExecIgnoreCmdContains p;
     ProcExec.o_HashExecutables := cfg_ProcExecHashEnabled p; ProcExec.o_HashMaxBytes := cfg_ProcExecHashMaxBytes p;
     ProcExec.o_HashCacheTTL := 6 * hour; ProcExec.o_HashCacheMaxItems := 4096; ProcExec.o_UsernameCacheTTL := 10 * minute |}.

Definition fim_options (f : FIMSettings) : Fim.Options :=
  {| Fim.o_WatchPaths := cfg_FIMWatchPaths f; Fim.o_Exclude := cfg_FIMExcludePaths f; Fim.o_MinInterval := cfg_FIMEvery f;
     Fim.o_MaxBatchSize := cfg_FIMMaxBatch f; Fim.o_MaxDepth := cfg_FIMMaxDepth f; Fim.o_EmitInitialState := cfg_FIMEmitInitial f;
     Fim.o_HashEnabled := cfg_FIMHashEnabled f; Fim.o_HashMaxBytes := cfg_FIMHashMaxBytes f; Fim.o_HashCacheTTL := 6 * hour;
     Fim.o_HashCacheMaxItems := 4096 |}.

Definition authlog_options (a : AuthSettings) (resolvedPath : string) : AuthLog.AuthLogOptions :=
  {| AuthLog.o_Path := resolvedPath; AuthLog.o_CheckpointPath := cfg_AuthCheckpointFile a; AuthLog.o_MaxBatchSize := 200;
     AuthLog.o_DedupTTL := cfg_AuthDedupTTL a; AuthLog.o_IncludeAccepted := cfg_AuthIncludeAccepted a |}.

Definition lateral_options (l : LateralSettings) : Flows.LateralOptions :=
  {| Flows.lo_Ports := cfg_LateralPorts l; Flows.lo_IncludeEstablished := cfg_LateralIncludeEstablished l; Flows.lo_MaxBatchSize := cfg_LateralMaxBatch l |}.

(** Fields the code leaves out are zero. *)
Definition lateral_pcap_options (l : LateralSettings) (p : ProcSettings) : Flows.PcapLateralOptions :=
  {| Flows.po_Interface := cfg_LateralIface l; Flows.po_SnapLen := 0; Flows.po_Promisc := false; Flows.po_ReadTimeout := 0;
     Flows.po_DedupTTL := cfg_LateralDedupTTL l; Flows.po_MaxBatchSize := cfg_LateralMaxBatch l; Flows.po_SkipLoopback := cfg_SkipLoopback p;
     Flows.po_SkipLinkLocal := cfg_SkipLinkLocal p; Flows.po_DenyCIDRs := cfg_DenyCIDRs p; Flows.po_Ports := cfg_LateralPorts l |}.

Definition scan_options (s : ScanSettings) (p : ProcSettings) : Scan.PcapScanOptions :=
  {| Scan.o_Interface := cfg_ScanIface s; Scan.o_SnapLen := 0; Scan.o_Promisc := false; Scan.o_ReadTimeout := 0;
     Scan.o_DedupTTL := cfg_ScanDedupTTL s; Scan.o_MaxBatchSize := cfg_ScanMaxBatch s; Scan.o_SkipLoopback := cfg_SkipLoopback p;
     Scan.o_SkipLinkLocal := cfg_SkipLinkLocal p; Scan.o_DenyCIDRs := cfg_DenyCIDRs p; Scan.o_DenyDstPorts := cfg_DenyDstPorts p;
     Scan.o_DenySrcPorts := cfg_DenySrcPorts p; Scan.o_DropUDPEphemeral := false; Scan.o_EphemeralPortMin := cfg_EphemeralPortMin p;
     Scan.o_IncludeARP := false; Scan.o_IncludeICMP := false; Scan.o_IncludeICMPv6 := false; Scan.o_IncludeTCPAck := false |}.

Definition l7_options (l : L7Settings) (p : ProcSettings) : L7.PcapL7Options :=
  {| L7.o_Interface := cfg_L7Iface l; L7.o_SnapLen := 0; L7.o_Promisc := false; L7.o_ReadTimeout := 0; L7.o_DedupTTL := cfg_L7DedupTTL l;
     L7.o_MaxBatchSize := cfg_L7MaxBatch l; L7.o_MaxPayloadBytes := cfg_L7MaxPayloadBytes l; L7.o_IncludePayload := cfg_L7IncludePayload l;
     L7.o_SkipLoopback := cfg_SkipLoopback p; L7.o_SkipLinkLocal := cfg_SkipLinkLocal p |}.

Definition ddos_options (d : DDoSSettings) (p : ProcSettings) : Ddos.PcapDDoSOptions :=
  {| Ddos.o_Interface := cfg_DDoSIface d; Ddos.o_SnapLen := 0; Ddos.o_Promisc := false; Ddos.o_ReadTimeout := 0;
     Ddos.o_Window := cfg_DDoSWindow d; Ddos.o_EvalEvery := cfg_DDoSEvalEvery d; Ddos.o_Cooldown := cfg_DDoSCooldown d;
     Ddos.o_SustainWindows := cfg_DDoSSustainWindows d; Ddos.o_BaselineWarmupWindows := cfg_DDoSBaselineWarmupWindows d;
     Ddos.o_BaselineAlpha := cfg_DDoSBaselineAlpha d; Ddos.o_BaselineFactor := cfg_DDoSBaselineFactor d; Ddos.o_MinPPS := cfg_DDoSMinPPS d;
     Ddos.o_MinBPS := cfg_DDoSMinBPS d; Ddos.o_MinPackets := cfg_DDoSMinPackets d; Ddos.o_MinRequests := cfg_DDoSMinRequests d;
     Ddos.o_MinConfidence := cfg_DDoSMinConfidence d; Ddos.o_MinSynRatio := cfg_DDoSMinSynRatio d; Ddos.o_DDoSMinSrcIPs := cfg_DDoSMinSrcIPs d;
     Ddos.o_DDoSMinSrcEntropyNorm := cfg_DDoSMinSrcEntropyNorm d; Ddos.o_EnableL7 := cfg_DDoSEnableL7 d; Ddos.o_MinHTTPRPS := cfg_DDoSMinHTTPRPS d;
     Ddos.o_MinTLSHSRPS := cfg_DDoSMinTLSHSRPS d; Ddos.o_MinL7Ratio := cfg_DDoSMinL7Ratio d; Ddos.o_EnableEntropy := cfg_DDoSEnableEntropy d;
     Ddos.o_MinSrcEntropyNorm := cfg_DDoSMinSrcEntropyNormSignal d; Ddos.o_MinPortEntropyNorm := cfg_DDoSMinPortEntropyNorm d;
     Ddos.o_PortEntropyTopN := cfg_DDoSPortEntropyTopN d; Ddos.o_CardinalityMode := cfg_DDoSCardinalityMode d;
     Ddos.o_HLLPrecision := cfg_DDoSHLLPrecision d; Ddos.o_BloomBits := cfg_DDoSBloomBits d; Ddos.o_MaxUniqueSrc := cfg_DDoSMaxUniqueSrc d;
     Ddos.o_TopSrc := cfg_DDoSTopSrc d; Ddos.o_MaxBatchSize := cfg_DDoSMaxBatch d; Ddos.o_BackpressureHighWatermark := cfg_DDoSBackpressureHighWM d;
     Ddos.o_BackpressureSampleEvery := cfg_DDoSBackpressureSampleEvery d; Ddos.o_DropLikelyOutbound := cfg_ProcDropLikelyOutbound p;
     Ddos.o_EphemeralPortMin := cfg_EphemeralPortMin p; Ddos.o_SkipLoopback := cfg_SkipLoopback p; Ddos.o_SkipLinkLocal := cfg_SkipLinkLocal p;
     Ddos.o_DenyCIDRs := cfg_DenyCIDRs p; Ddos.o_DenyDstPorts := cfg_DenyDstPorts p; Ddos.o_DenySrcPorts := cfg_DenySrcPorts p |}.

Definition lateral_mode (l : LateralSettings) : string :=
  let mode := ToLower (TrimSpace (cfg_LateralMode l)) in
  if is_empty mode then "pcap" else if negb (str_in mode ["pcap"; "proc"; "both"]) then "pcap" else mode.

(** ** Building the collectors *)

(** What the capturers' constructors find on the machine: the readable logs, the
    address of a dialed socket, the host, and for each packet collector what
    [netcontext.Collect] returns ([None]: an error). *)
Record machine := {
  ma_readable : string → bool; ma_dialed : option ip; ma_host : host;
  ma_lateral : option NetworkContext; ma_scan : option NetworkContext; ma_l7 : option NetworkContext; ma_ddos : option NetworkContext }.

Section manager.
Context (parse : string → option json) (ma : machine).

(** The authentication log of a path, when one is readable. *)
Definition new_auth (cfg : Settings.Config) : M cworld string bool :=
  match ResolveAuthLogPath (ma_readable ma) (cfg_AuthLogPath (c_Auth cfg)) with
  | inl _ => retM false
  | inr path =>
    zoom cw_auth set_auth (NewAuthLogCapturer parse (cfg_AgentID (c_Core cfg)) (authlog_options (c_Auth cfg) path)
                             (detectPrimaryIP (ma_dialed ma) (ma_host ma)));;;
    retM true
  end.

(** A capturer of a selected source, made at the present time. *)
Definition selected {A} (on : bool) (make : time → option A) : M cworld string (option A) :=
  if on then t <- now;; retM (make t) else retM None.
(** One whose failure is an error of [NewManager]. *)
Definition required {A} (on : bool) (make : time → option A) : M cworld string (option A) :=
  if on then t <- now;; match make t with Some a => retM (Some a) | None => throw "capturer" end else retM None.

Definition NewManager (cfg : Settings.Config) (sender : Sender.Sender) : M cworld string Manager :=
  let agentID := cfg_AgentID (c_Core cfg) in
  let on := Contains (cfg_Sources (c_Core cfg)) in
  let p := c_Proc cfg in
  let l := c_Lateral cfg in
  let mode := lateral_mode l in
  proc <- selected (on "proc") (λ t, Some (Flows.New agentID (flow_options p (cfg_DedupTTL p) 300) t));;
  let procExec := if on "proc_exec" then Some (ProcExec.New agentID (proc_exec_options (c_ProcExec cfg))) else None in
  let fim := if on "fim" then Some (Fim.New agentID (fim_options (c_FIM cfg))) else None in
  auth <- (if on "authlog" then new_auth cfg else retM false);;
  lateralProc <- selected (on "lateral" && str_in mode ["proc"; "both"])
    (λ t, Some (Flows.NewProcLateralCapturer agentID (flow_options p (cfg_LateralDedupTTL l) 0) (lateral_options l) t));;
  lateralPcap <- required (on "lateral" && str_in mode ["pcap"; "both"])
    (Flows.NewPcapLateralCapturer agentID (lateral_pcap_options l p) (ma_lateral ma));;
  scan <- required (on "scan") (Scan.NewPcapScanCapturer agentID (scan_options (c_Scan cfg) p) (ma_scan ma));;
  l7 <- selected (on "l7") (L7.NewPcapL7Capturer agentID (l7_options (c_L7 cfg) p) (ma_l7 ma));;
  ddos <- required (on "ddos") (Ddos.NewPcapDDoSCapturer agentID (ddos_options (c_DDoS cfg) p) (ma_ddos ma));;
  retM {| mg_cfg := cfg; mg_sender := sender; mg_proc := proc; mg_procExec := procExec; mg_fim := fim; mg_l7 := l7; mg_auth := auth;
          mg_lateralProc := lateralProc; mg_lateralPcap := lateralPcap; mg_scan := scan; mg_ddos := ddos |}.
End manager.

(** ** Which collectors run *)

Definition started {A} (x : option A) : bool := match x with Some _ => true | None => false end.

(** Whether a packet collector finds an address to watch. *)
Definition usable (collected : option NetworkContext) : bool :=
  match collected with Some nc => negb (size (nc_LocalIPs nc) =? 0)%nat | None => false end.

Lemma new_lateral_started agentID o nc t :
  started (Flows.NewPcapLateralCapturer agentID o nc t) = negb (size (Flows.po_Ports o) =? 0)%nat && usable nc.
Proof. unfold Flows.NewPcapLateralCapturer. cbn. destruct (_ =? _)%nat; [done|]. destruct nc as [nc|]; [|done]. cbn. by destruct (_ =? _)%nat. Qed.
Lemma new_scan_started agentID o nc t : started (Scan.NewPcapScanCapturer agentID o nc t) = usable nc.
Proof. unfold Scan.NewPcapScanCapturer. destruct nc as [nc|]; [|done]. cbn. by destruct (_ =? _)%nat. Qed.
Lemma new_l7_started agentID o nc t : started (L7.NewPcapL7Capturer agentID o nc t) = usable nc.
Proof. unfold L7.NewPcapL7Capturer. destruct nc as [nc|]; [|done]. cbn. by destruct (_ =? _)%nat. Qed.
Lemma new_ddos_started agentID o nc t : started (Ddos.NewPcapDDoSCapturer agentID o nc t) = usable nc.
Proof. unfold Ddos.NewPcapDDoSCapturer. destruct nc as [nc|]; [|done]. cbn. by destruct (_ =? _)%nat. Qed.

Lemma selected_spec {A} P on (make : time → option A) b R C : (∀ t, started (make t) = b) →
  triple P (selected on make) (λ x w, P w ∧ started x = on && b) R C.
Proof.
  intros Hb. unfold selected. destruct on; [|by apply triple_ret].
  eapply triple_bind with (Q' := λ _, P); [by apply triple_now|]. intros t. apply triple_ret. intros w Hw. split; [done|]. cbn. apply Hb.
Qed.

Lemma required_spec {A} P on (make : time → option A) b (R : string → cworld → Prop) C : (∀ t, started (make t) = b) →
  (∀ e w, on = true → b = false → R e w) → triple P (required on make) (λ x w, P w ∧ started x = on) R C.
Proof.
  intros Hb HR. unfold required. destruct on; [|by apply triple_ret].
  eapply triple_bind with (Q' := λ _, P); [by apply triple_now|]. intros t. specialize (Hb t).
  destruct (make t); cbn in Hb; [by apply triple_ret|by apply triple_throw; eauto].
Qed.

Lemma new_auth_spec parse ma cfg P :
  (∀ w a, P w → P (set_auth a w)) →
  triple P (new_auth parse ma cfg) (λ b w, P w ∧ b = match ResolveAuthLogPath (ma_readable ma) (cfg_AuthLogPath (c_Auth cfg)) with inr _ => true | inl _ => false end)
    (λ _ _, False) P.
Proof.
  intros HP. unfold new_auth. destruct (ResolveAuthLogPath _ _) as [e|path]; [by apply triple_ret|].
  eapply triple_bind with (Q' := λ _, P); [|intros ?; by apply triple_ret].
  intros v w Hw. unfold zoom. assert (Hn : nothrow (NewAuthLogCapturer parse (cfg_AgentID (c_Core cfg)) (authlog_options (c_Auth cfg) path) (detectPrimaryIP (ma_dialed ma) (ma_host ma)))).
  { unfold NewAuthLogCapturer. nothrow_tac. }
  specialize (Hn v (cw_auth w)). destruct (NewAuthLogCapturer _ _ _ _ v (cw_auth w)) as [[[]?]?]; auto.
Qed.

(** A path of the authentication log that can be read. *)
Definition readable_log (ma : machine) (cfg : Settings.Config) : bool :=
  match ResolveAuthLogPath (ma_readable ma) (cfg_AuthLogPath (c_Auth cfg)) with inr _ => true | inl _ => false end.

(** A collector runs exactly if its source is selected. *)
Definition runs_selected (ma : machine) (cfg : Settings.Config) (sender : Sender.Sender) (m : Manager) : Prop :=
  let on := Contains (cfg_Sources (c_Core cfg)) in
  let mode := lateral_mode (c_Lateral cfg) in
  mg_cfg m = cfg ∧ mg_sender m = sender ∧
  started (mg_proc m) = on "proc" ∧ started (mg_procExec m) = on "proc_exec" ∧ started (mg_fim m) = on "fim" ∧
  mg_auth m = on "authlog" && readable_log ma cfg ∧
  started (mg_lateralProc m) = on "lateral" && str_in mode ["proc"; "both"] ∧
  started (mg_lateralPcap m) = on "lateral" && str_in mode ["pcap"; "both"] ∧ started (mg_scan m) = on "scan" ∧
  started (mg_l7 m) = on "l7" && usable (ma_l7 ma) ∧ started (mg_ddos m) = on "ddos".

(** A selected collector that is not optional has nothing to watch. *)
Definition nothing_to_watch (ma : machine) (cfg : Settings.Config) : Prop :=
  let on := Contains (cfg_Sources (c_Core cfg)) in
  let ports := negb (size (cfg_LateralPorts (c_Lateral cfg)) =? 0)%nat in
  on "lateral" && str_in (lateral_mode (c_Lateral cfg)) ["pcap"; "both"] && negb (ports && usable (ma_lateral ma)) = true ∨
  on "scan" && negb (usable (ma_scan ma)) = true ∨ on "ddos" && negb (usable (ma_ddos ma)) = true.

Lemma NewManager_spec parse ma cfg sender :
  triple (λ _, True) (NewManager parse ma cfg sender) (λ m _, runs_selected ma cfg sender m) (λ _ _, nothing_to_watch ma cfg) (λ _, True).
Proof.
  set (good := runs_selected ma cfg sender). set (failed := nothing_to_watch ma cfg).
  unfold NewManager. cbv zeta. set (on := Contains _). set (mode := lateral_mode _).
  eapply triple_bind; [by apply selected_spec with (b := true)|]. intros proc. rewrite andb_true_r. apply triple_pure_r. intros Hproc.
  eapply triple_bind with (Q' := λ auth _, auth = on "authlog" && readable_log ma cfg).
  { destruct (on "authlog"); [|by apply triple_ret]. eapply triple_conseq; [by apply (new_auth_spec parse ma cfg (λ _, True))|done| |done|done]. by intros b x [_ ->]. }
  intros auth. apply triple_start. intros w1 ->. apply (triple_weaken (λ _, True)); [done|].
  eapply triple_bind; [by apply selected_spec with (b := true)|]. intros lp. rewrite andb_true_r. apply triple_pure_r. intros Hlp.
  eapply triple_bind; [eapply required_spec; [intros t; apply new_lateral_started|]|].
  { intros e x Hon Hb. left. cbn in Hb. fold on mode. by rewrite Hon, Hb. }
  intros lc. apply triple_pure_r. intros Hlc.
  eapply triple_bind; [eapply required_spec; [intros t; apply new_scan_started|]|].
  { intros e x Hon Hb. right. left. fold on. by rewrite Hon, Hb. }
  intros sc. apply triple_pure_r. intros Hsc.
  eapply triple_bind; [apply selected_spec; intros t; apply new_l7_started|]. intros l7. apply triple_pure_r. intros Hl7.
  eapply triple_bind; [eapply required_spec; [intros t; apply new_ddos_started|]|].
  { intros e x Hon Hb. right. right. fold on. by rewrite Hon, Hb. }
  intros dc. apply triple_pure_r. intros Hdc. apply triple_ret. intros x _.
  unfold good, runs_selected. fold on mode. cbn. split_and!; try done; by case_match.
Qed.

