(* ===== verification/Cycle.v ===== *)
(** * Cycle: one polling cycle (internal/sources/cycle.go)

    [RunOnce] drains every capturer, sends the events in a fixed order, those of
    the authentication log first, and commits or rolls back the log's place by
    what the sender says it made durable. *)

From S2P Require Import Prelude GoStr Effects GoText GoJson Event FileUtil Net Float GoIP Netctx Pcapx Spool Queue Sender.
From S2P Require Import Settings Overrides Flows ProcExec Fim L7 Scan Ddos AuthLog ScanStats Manager.

Local Open Scope Z_scope.
Local Open Scope go_scope.

Record CycleResult := {
  cr_Sent : Z; cr_Attempted : Z; cr_Durable : Z; cr_Status : Z; cr_DurationMS : Z; cr_Error : string; cr_SendAttempted : bool;
  cr_SSHAuthEvents : Z; cr_Scan : ScanStats.ScanStats; cr_Mode : string }.

Definition CM : Type → Type := M cworld serror.

(** What the collectors that poll find: the tables of connections, the process
    table, the watched files, and fresh identifiers of flows. *)
Record observed := {
  ob_tcp4 : Flows.table; ob_tcp6 : Flows.table; ob_lateral4 : Flows.table; ob_lateral6 : Flows.table; ob_uuid : Z → nat → string; ob_lateral_uuid : Z → nat → string;
  ob_exec : ProcExec.view; ob_fim : Fim.view }.

(** ** The manager's fields *)

Definition with_proc (x : option Flows.Capturer) (m : Manager) : Manager :=
  {| mg_cfg := mg_cfg m; mg_sender := mg_sender m; mg_proc := x; mg_procExec := mg_procExec m; mg_fim := mg_fim m; mg_l7 := mg_l7 m;
     mg_auth := mg_auth m; mg_lateralProc := mg_lateralProc m; mg_lateralPcap := mg_lateralPcap m; mg_scan := mg_scan m; mg_ddos := mg_ddos m |}.
Definition with_procExec (x : option ProcExec.Capturer) (m : Manager) : Manager :=
  {| mg_cfg := mg_cfg m; mg_sender := mg_sender m; mg_proc := mg_proc m; mg_procExec := x; mg_fim := mg_fim m; mg_l7 := mg_l7 m;
     mg_auth := mg_auth m; mg_lateralProc := mg_lateralProc m; mg_lateralPcap := mg_lateralPcap m; mg_scan := mg_scan m; mg_ddos := mg_ddos m |}.
Definition with_fim (x : option Fim.Capturer) (m : Manager) : Manager :=
  {| mg_cfg := mg_cfg m; mg_sender := mg_sender m; mg_proc := mg_proc m; mg_procExec := mg_procExec m; mg_fim := x; mg_l7 := mg_l7 m;
     mg_auth := mg_auth m; mg_lateralProc := mg_lateralProc m; mg_lateralPcap := mg_lateralPcap m; mg_scan := mg_scan m; mg_ddos := mg_ddos m |}.
Definition with_lateralProc (x : option Flows.ProcLateralCapturer) (m : Manager) : Manager :=
  {| mg_cfg := mg_cfg m; mg_sender := mg_sender m; mg_proc := mg_proc m; mg_procExec := mg_procExec m; mg_fim := mg_fim m; mg_l7 := mg_l7 m;
     mg_auth := mg_auth m; mg_lateralProc := x; mg_lateralPcap := mg_lateralPcap m; mg_scan := mg_scan m; mg_ddos := mg_ddos m |}.
(** The four packet collectors, which [Drain] empties. *)
Definition with_pcap (lateral : option Flows.PcapLateralCapturer) (scan : option Scan.PcapScanCapturer) (l7 : option L7.PcapL7Capturer)
    (ddos : option (Ddos.config * Ddos.state)) (m : Manager) : Manager :=
  {| mg_cfg := mg_cfg m; mg_sender := mg_sender m; mg_proc := mg_proc m; mg_procExec := mg_procExec m; mg_fim := mg_fim m; mg_l7 := l7;
     mg_auth := mg_auth m; mg_lateralProc := mg_lateralProc m; mg_lateralPcap := lateral; mg_scan := scan; mg_ddos := ddos |}.

Definition scan_drain (c : Scan.PcapScanCapturer) : list NetEvent * Scan.PcapScanCapturer :=
  let '(out, b) := Pcapx.Drain (Scan.c_buffer c) in
  (out, {| Scan.c_agentID := Scan.c_agentID c; Scan.c_opts := Scan.c_opts c; Scan.c_netCtx := Scan.c_netCtx c; Scan.c_buffer := b |}).
Definition l7_drain (c : L7.PcapL7Capturer) : list NetEvent * L7.PcapL7Capturer :=
  let '(out, b) := Pcapx.Drain (L7.c_buffer c) in
  (out, {| L7.c_agentID := L7.c_agentID c; L7.c_opts := L7.c_opts c; L7.c_netCtx := L7.c_netCtx c; L7.c_buffer := b |}).
Definition ddos_drain (c : Ddos.config * Ddos.state) : list NetEvent * (Ddos.config * Ddos.state) :=
  let '(out, s) := Ddos.Drain c.2 in (out, (c.1, s)).
(** The events of a collector that may not run. *)
Definition drained {A} (drain : A → list NetEvent * A) (x : option A) : list NetEvent * option A :=
  match x with Some c => let '(out, c) := drain c in (out, Some c) | None => ([], None) end.

(** ** Events *)

Definition normalize_event (fallbackAgentID : string) (now : time) (ev : NetEvent) : NetEvent :=
  {| ne_EventID := ne_EventID ev; ne_AgentID := if is_empty (TrimSpace (ne_AgentID ev)) then fallbackAgentID else ne_AgentID ev;
     ne_EventType := ne_EventType ev; ne_SchemaVersion := if ne_SchemaVersion ev <=? 0 then 1 else ne_SchemaVersion ev;
     ne_Timestamp := if is_zero_time (ne_Timestamp ev) then now else ne_Timestamp ev; ne_SrcIP := ne_SrcIP ev; ne_DstIP := ne_DstIP ev;
     ne_SrcPort := ne_SrcPort ev; ne_DstPort := ne_DstPort ev; ne_Proto := ne_Proto ev; ne_Bytes := ne_Bytes ev;
     ne_Extra := Some (default ∅ (ne_Extra ev)) |}.
Definition normalizeEvents (events : list NetEvent) (fallbackAgentID : string) (now : time) : list NetEvent :=
  map (normalize_event fallbackAgentID now) events.

Definition is_ssh_auth (ev : NetEvent) : bool := str_eqb (ne_EventType ev) "ssh_auth".

(** [errors.Join] and [Error]. *)
Definition join_errors (e1 e2 : option string) : option string :=
  match e1, e2 with
  | Some e1, Some e2 => Some (e1 +:+ newline_text +:+ e2)
  | Some e, None | None, Some e => Some e
  | None, None => None
  end.

(** ** The cycle *)

Section cycle.
(** Parameters of the components: the JSON scanner and encoders, identifiers and
    digests, the server, the queue. *)
Context (suffix : files → string → string) (marshal_cp : authLogCheckpoint → option string) (sha1_uuid : string → string).
Context (parse : string → option json) (marshal_events : list NetEvent → option string).
Context (uuid_parse : string → option string) (valid_url : string → bool) (server : list request → request → net_reply) (q : queue_ops).
Context (sha256_hex : string → string) (fmt_nano : time → string) (ParseFloat : string → option float64).
Context (exec_by_age : gmap string ProcExec.hashEntry → list (string * ProcExec.hashEntry)).
Context (fim_order : gmap string Fim.fileState → list (string * Fim.fileState)).
Context (fim_by_age : gmap string Fim.hashEntry → list (string * Fim.hashEntry)).
Context (number : float64 → string) (scan_order : gmap scanKey scanAgg → list (scanKey * scanAgg)).
(** The text of the errors of the sender. *)
Context (send_error_text : send_error → string).

Definition on_mgr (f : Manager → Manager) : CM unit := modify (λ w, set_mgr (f (cw_mgr w)) w).
Definition onAuth {E A} (m : AM A) : M cworld E (string + A) := zoom cw_auth set_auth (try m).

(** The events of the authentication log; [None]: there is no capture in progress. *)
Definition capture_auth : CM (option (list NetEvent)) :=
  m <- gets cw_mgr;;
  if mg_auth m then
    t <- now;;
    r <- onAuth (AuthLog.Capture sha1_uuid t);;
    match r with inl _ => retM None | inr evs => retM (Some evs) end
  else retM None.

Definition capture_proc (ob : observed) : CM (list NetEvent) :=
  m <- gets cw_mgr;;
  match mg_proc m with
  | None => retM []
  | Some c =>
    t <- now;;
    let '(evs, c) := Flows.Capture (ob_uuid ob) c t (ob_tcp4 ob) (ob_tcp6 ob) in
    on_mgr (with_proc (Some c));;; retM (default [] evs)
  end.

Definition capture_procExec (ob : observed) : CM (list NetEvent) :=
  m <- gets cw_mgr;;
  match mg_procExec m with
  | None => retM []
  | Some c =>
    t <- now;;
    let '(evs, c) := ProcExec.Capture sha256_hex fmt_nano ParseFloat exec_by_age c (ob_exec ob) t t in
    on_mgr (with_procExec (Some c));;; retM (default [] evs)
  end.

Definition capture_fim (ob : observed) : CM (list NetEvent) :=
  m <- gets cw_mgr;;
  match mg_fim m with
  | None => retM []
  | Some c =>
    t <- now;;
    let '(evs, c) := Fim.Capture sha256_hex fim_order fim_by_age c (ob_fim ob) t t in
    on_mgr (with_fim (Some c));;; retM evs
  end.

Definition capture_lateral (ob : observed) : CM (list NetEvent) :=
  m <- gets cw_mgr;;
  match mg_lateralProc m with
  | None => retM []
  | Some c =>
    t <- now;;
    let '(evs, c) := Flows.LateralCapture (ob_lateral_uuid ob) c t (ob_lateral4 ob) (ob_lateral6 ob) in
    on_mgr (with_lateralProc (Some c));;; retM (default [] evs)
  end.

(** What the four packet collectors hold: lateral, scan, flood, application. *)
Definition drain_pcap : CM (list NetEvent * list NetEvent * list NetEvent * list NetEvent) :=
  m <- gets cw_mgr;;
  let '(lateral, lc) := drained Flows.lateral_drain (mg_lateralPcap m) in
  let '(scanRaw, sc) := drained scan_drain (mg_scan m) in
  let '(ddosEvs, dc) := drained ddos_drain (mg_ddos m) in
  let '(l7, l7c) := drained l7_drain (mg_l7 m) in
  on_mgr (with_pcap lc sc l7c dc);;; retM (lateral, scanRaw, ddosEvs, l7).

Definition commit_auth : CM (option string) :=
  r <- onAuth (AuthLog.Commit suffix marshal_cp);;
  retM match r with inl e => Some e | inr _ => None end.
Definition rollback_auth : CM unit := onAuth AuthLog.Rollback;;; retM tt.

Definition duration_ms (start stop : time) : Z := Z.quot (time_sub stop start) millisecond.

(** The end of a cycle without events. *)
Definition finish_idle (start : time) (auth : bool) (sshAuthEvents : Z) (scanStats : ScanStats.ScanStats) (mode : string) : CM CycleResult :=
  checkpointError <- (if auth then commit_auth else retM None);;
  stop <- now;;
  retM {| cr_Sent := 0; cr_Attempted := 0; cr_Durable := 0; cr_Status := 0; cr_DurationMS := duration_ms start stop;
          cr_Error := default EmptyString checkpointError; cr_SendAttempted := false; cr_SSHAuthEvents := sshAuthEvents; cr_Scan := scanStats; cr_Mode := mode |}.

Definition finish_sent (start : time) (auth : option Z) (events : list NetEvent) (sshAuthEvents : Z) (scanStats : ScanStats.ScanStats) (mode : string) :
    CM CycleResult :=
  m <- gets cw_mgr;;
  t <- now;;
  let events := normalizeEvents events (cfg_AgentID (c_Core (mg_cfg m))) t in
  ' (delivery, err, _) <- zoom cw_send set_send (SendEvents parse marshal_events uuid_parse valid_url server q (mg_sender m) events);;
  let err := send_error_text <$> err in
  err <- match auth with
         | Some authCaptured =>
           if authCaptured <=? er_Durable delivery then e <- commit_auth;; retM (join_errors err e)
           else rollback_auth;;; retM err
         | None => retM err
         end;;
  stop <- now;;
  retM {| cr_Sent := er_Delivered delivery; cr_Attempted := Z.of_nat (length events); cr_Durable := er_Durable delivery; cr_Status := er_Status delivery;
          cr_DurationMS := duration_ms start stop; cr_Error := default EmptyString err; cr_SendAttempted := true; cr_SSHAuthEvents := sshAuthEvents;
          cr_Scan := scanStats; cr_Mode := mode |}.

Definition RunOnce (ob : observed) : CM CycleResult :=
  start <- now;;
  auth <- capture_auth;;
  proc <- capture_proc ob;;
  procExec <- capture_procExec ob;;
  fim <- capture_fim ob;;
  lateralProc <- capture_lateral ob;;
  ' (lateralPcap, scanRaw, ddosEvs, l7) <- drain_pcap;;
  let events := default [] auth ++ proc ++ procExec ++ fim ++ lateralProc ++ lateralPcap ++ l7 in
  let sshAuthEvents := Z.of_nat (length (List.filter is_ssh_auth events)) in
  let scanStats := computeScanStats scanRaw in
  m <- gets cw_mgr;;
  let mode := NormalizeScanMode (cfg_ScanMode (c_Scan (mg_cfg m))) in
  let scanStats := if str_eqb (ss_Class scanStats) "service_noise"
    then {| ss_Total := ss_Total scanStats; ss_Effective := 0; ss_UniqueSrcs := ss_UniqueSrcs scanStats; ss_UniqueDstPorts := ss_UniqueDstPorts scanStats;
            ss_SSHPortHits := ss_SSHPortHits scanStats; ss_Class := ss_Class scanStats; ss_Score := ss_Score scanStats |}
    else scanStats in
  let events := if str_in mode ["raw"; "both"] then events ++ scanRaw else events in
  let core := c_Core (mg_cfg m) in
  events <- (if str_in mode ["summary"; "both"]
             then t <- now;; retM (events ++ buildScanSummaries number scan_order (cfg_AgentID core) scanRaw (cfg_Interval core) t)
             else retM events);;
  let events := events ++ ddosEvs in
  if (length events =? 0)%nat then finish_idle start (bool_decide (is_Some auth)) sshAuthEvents scanStats mode
  else finish_sent start ((λ evs, Z.of_nat (length evs)) <$> auth) events sshAuthEvents scanStats mode.
End cycle.

(** ** Commits of the authentication log *)

(** What [Commit] does to the lines that count as committed, wherever it fails. *)
Lemma Commit_done suffix marshal_cp w0 :
  let post w := aw_done w = aw_done w0 ∨ aw_done w = aw_done w0 ++ aw_read w0 in
  triple (λ w, w = w0) (AuthLog.Commit suffix marshal_cp) (λ _, post) (λ _, post) post.
Proof.
  intros post. unfold AuthLog.Commit. eapply triple_bind with (Q' := λ c w, c = aw_cap w0 ∧ w = w0); [by apply triple_gets; intros w ->|].
  intros c. apply triple_pure. intros ->. destruct (AuthLog.c_pending (aw_cap w0)); [|by apply triple_ret; intros w ->; left].
  set (w1 := set_read [] (set_done (aw_done w0 ++ aw_read w0) (on_cap (set_pending None) w0))).
  eapply triple_bind with (Q' := λ _ w, w = w1); [by apply triple_modify; intros w ->|]. intros _. cbv zeta.
  assert (H1 : post w1) by by right.
  destruct (is_empty _); [by apply triple_ret; intros w ->|]. destruct (marshal_cp _) as [payload|]; [|by apply triple_throw; intros w ->].
  eapply triple_conseq; [apply (triple_zoom aw_files set_files w1) with (Q := λ _ _, True) (R := λ _ _, True) (C := λ _, True)|done|..].
  - intros v x _. by destruct (wrap _ _ _ _) as [[[]?]?].
  - intros _ w (fs & -> & _). done.
  - intros _ w (fs & -> & _). done.
  - intros w (fs & -> & _). done.
Qed.

Lemma idle_done w : aw_done (AuthLog.idle w) = aw_done w.
Proof. unfold AuthLog.idle. by destruct (AuthLog.c_pending (aw_cap w)). Qed.

Lemma captured_done sha1_uuid now w0 out w : captured sha1_uuid now w0 out w → aw_done w = aw_done w0.
Proof. intros (lg & b & n & _ & _ & _ & -> & _). apply idle_done. Qed.

Section commits.
Context (suffix : files → string → string) (marshal_cp : authLogCheckpoint → option string) (sha1_uuid : string → string).
Context (parse : string → option json) (marshal_events : list NetEvent → option string).
Context (uuid_parse : string → option string) (valid_url : string → bool) (server : list request → request → net_reply).
Context (opts : Spool.Options) (q : queue_ops) `{!QueueLaws opts q}.
Context (send_error_text : send_error → string).

(** The [i]-th event was acknowledged, or the queue holds its batch. *)
Definition durable_event (s : Sender.Sender) (events : list NetEvent) (w : sworld) (i : nat) : Prop :=
  let k := Z.of_nat i / s_maxBatch s in
  batch_confirmed parse marshal_events server s events (sw_net w) k ∨ batch_queued marshal_events s events w k.

(** [SendEvents] from the side of a caller: the first [er_Durable] events are durable. *)
Definition sent_durably (s : Sender.Sender) (events0 : list NetEvent)
    (r : EventDeliveryResult * option send_error * list NetEvent) (w : sworld) : Prop :=
  Forall2 same_event events0 r.2 ∧ ∀ i, Z.of_nat i < er_Durable r.1.1 → durable_event s r.2 w i.

Lemma send_post_durable s events0 net0 r w : 0 < s_maxBatch s →
  send_post parse marshal_events server s events0 net0 r w → sent_durably s events0 r w.
Proof.
  destruct r as [[res err] events]. intros Hmb (_ & Hsame & k & Hk & Hat & Hdel & Hconf & Herr). split; [done|]. cbn [fst snd] in *. intros i Hi.
  unfold durable_event. pose proof (Z.div_mod (Z.of_nat i) (s_maxBatch s)) as Hdm.
  pose proof (Z.mod_pos_bound (Z.of_nat i) (s_maxBatch s) Hmb) as Hm. set (j := Z.of_nat i / s_maxBatch s) in *.
  assert (Hj : 0 <= j) by (apply Z.div_pos; lia).
  assert (Hlt : ∀ b, Z.of_nat i < b * s_maxBatch s → j < b) by (intros b Hb; nia).
  destruct err as [e|].
  - destruct Herr as [Hlt' Hd]. destruct (IsDurablyQueued e).
    + destruct Hd as [Hd Hq]. specialize (Hlt (k + 1)). destruct (decide (j = k)) as [->|]; [by right|]. left. apply Hconf. lia.
    + left. apply Hconf. specialize (Hlt k). lia.
  - left. apply Hconf. specialize (Hlt k). lia.
Qed.

Lemma same_refl l : Forall2 same_event l l.
Proof. by induction l; constructor. Qed.

Lemma SendEvents_durable s events w0 : 0 < s_maxBatch s → 0 <= s_retries s →
  triple (λ w, w = w0) (SendEvents parse marshal_events uuid_parse valid_url server q s events) (sent_durably s events) (λ _ _, False) (λ _, True).
Proof using QueueLaws0.
  intros Hmb Hret. destruct (decide (s_baseURL s = EmptyString)) as [Hu|Hu].
  - unfold SendEvents. rewrite Hu. apply triple_ret. intros w ->. split; [apply same_refl|]. cbn. lia.
  - eapply triple_conseq; [by apply (SendEvents_spec _ _ _ _ _ opts q s events w0)|done| |done|by intros].
    intros r w Hr. by eapply send_post_durable.
Qed.

(** What happened to the capture in progress between [w0] and [w]. *)
Definition commit_justified (w0 w : cworld) : Prop :=
  aw_done (cw_auth w) = aw_done (cw_auth w0) ∨
  ∃ now t out a events, captured sha1_uuid now (cw_auth w0) out a ∧ aw_done (cw_auth w) = aw_done (cw_auth w0) ++ aw_read a ∧
    Forall2 same_event (normalizeEvents out (cfg_AgentID (c_Core (mg_cfg (cw_mgr w0)))) t) (take (length out) events) ∧
    ∀ i, (i < length out)%nat → durable_event (mg_sender (cw_mgr w0)) events (cw_send w) i.

(** The cycle has captured [auth] and done nothing else to the log. *)
Definition gathered (w0 : cworld) (auth : option (list NetEvent)) (w : cworld) : Prop :=
  mg_sender (cw_mgr w) = mg_sender (cw_mgr w0) ∧ mg_cfg (cw_mgr w) = mg_cfg (cw_mgr w0) ∧
  aw_done (cw_auth w) = aw_done (cw_auth w0) ∧
  match auth with Some out => ∃ now, captured sha1_uuid now (cw_auth w0) out (cw_auth w) | None => True end.

Lemma gathered_justified w0 auth w : gathered w0 auth w → commit_justified w0 w.
Proof. intros (_ & _ & H & _). by left. Qed.

Lemma capture_auth_gathers w0 :
  triple (λ w, w = w0) (capture_auth sha1_uuid) (gathered w0) (λ _ _, False) (commit_justified w0).
Proof.
  unfold capture_auth. eapply triple_bind with (Q' := λ m w, m = cw_mgr w0 ∧ w = w0); [by apply triple_gets; intros w ->|]. intros m. apply triple_pure. intros ->.
  destruct (mg_auth (cw_mgr w0)); [|by apply triple_ret; intros w ->].
  eapply triple_bind with (Q' := λ _ w, w = w0); [by apply triple_now; intros ? w ->|]. intros t.
  eapply triple_bind with (Q' := λ r w, gathered w0 (match r with inl _ => None | inr evs => Some evs end) w).
  - eapply triple_conseq; [apply (triple_zoom cw_auth set_auth w0), triple_try with (Q := λ r x, match r with
        | inl _ => aw_done x = aw_done (cw_auth w0) | inr out => captured sha1_uuid t (cw_auth w0) out x end) (R := λ _ _, False)|done| | |].
    { eapply triple_conseq; [apply (Capture_spec sha1_uuid t (cw_auth w0))|done|done| |intros x H; exact H].
      intros _ x [->|[->| ->]]; [done|apply idle_done|apply idle_done]. }
    + intros [e|out] w (a & -> & Ha); (split_and!; [done..| |]); cbn in *; [done|done|by eapply captured_done|by exists t].
    + by intros e w (a & -> & Ha).
    + intros w (a & -> & Ha). left. cbn. by injection Ha.
  - intros [e|evs]; by apply triple_ret.
Qed.

(** The other captures leave the log and the sender alone. *)
Lemma preserves_on_mgr w0 auth f : (∀ m, mg_sender (f m) = mg_sender m ∧ mg_cfg (f m) = mg_cfg m) →
  preserves (gathered w0 auth) (on_mgr f).
Proof.
  intros Hf. apply preserves_modify. intros w (H2 & H3 & H4 & H5). destruct (Hf (cw_mgr w)) as [Hs Hc].
  split_and!; cbn; [by rewrite Hs|by rewrite Hc|done|done].
Qed.

Ltac frame_capture :=
  repeat first
    [ apply preserves_bind; [|intros ?]
    | apply preserves_gets | apply preserves_now | apply preserves_ret
    | apply preserves_on_mgr; done
    | case_match ].

(** A step that keeps what was gathered and returns. *)
Definition framed {A} (w0 : cworld) (auth : option (list NetEvent)) (m : CM A) : Prop :=
  triple (gathered w0 auth) m (λ _, gathered w0 auth) (λ _ _, False) (commit_justified w0).

Lemma framed_of {A} w0 auth (m : CM A) : preserves (gathered w0 auth) m → nothrow m → framed w0 auth m.
Proof.
  intros Hp Hn. eapply triple_nothrow; [exact Hn|]. eapply triple_conseq; [exact Hp|done|done|intros e x H; exact H|].
  intros x Hx. by eapply gathered_justified.
Qed.

Lemma capture_proc_frame w0 auth ob : framed w0 auth (capture_proc ob).
Proof. apply framed_of; unfold capture_proc; [frame_capture|unfold on_mgr; nothrow_tac]. Qed.
Lemma capture_procExec_frame sha fmt pf age w0 auth ob : framed w0 auth (capture_procExec sha fmt pf age ob).
Proof. apply framed_of; unfold capture_procExec; [frame_capture|unfold on_mgr; nothrow_tac]. Qed.
Lemma capture_fim_frame sha order age w0 auth ob : framed w0 auth (capture_fim sha order age ob).
Proof. apply framed_of; unfold capture_fim; [frame_capture|unfold on_mgr; nothrow_tac]. Qed.
Lemma capture_lateral_frame w0 auth ob : framed w0 auth (capture_lateral ob).
Proof. apply framed_of; unfold capture_lateral; [frame_capture|unfold on_mgr; nothrow_tac]. Qed.
Lemma drain_pcap_frame w0 auth : framed w0 auth drain_pcap.
Proof. apply framed_of; unfold drain_pcap; [frame_capture|unfold on_mgr; nothrow_tac]. Qed.

(** A commit, once the events captured are durable. *)
Lemma commit_auth_justified w0 out events t w1 : gathered w0 (Some out) w1 →
  Forall2 same_event (normalizeEvents out (cfg_AgentID (c_Core (mg_cfg (cw_mgr w0)))) t) (take (length out) events) →
  (∀ i, (i < length out)%nat → durable_event (mg_sender (cw_mgr w0)) events (cw_send w1) i) →
  triple (λ w, w = w1) (commit_auth suffix marshal_cp) (λ _, commit_justified w0) (λ _ _, False) (commit_justified w0).
Proof.
  intros (Hs & Hc & Hd & now & Hcap) Hsame Hdur. unfold commit_auth.
  set (post a := aw_done a = aw_done (cw_auth w1) ∨ aw_done a = aw_done (cw_auth w1) ++ aw_read (cw_auth w1)).
  assert (Hj : ∀ a, post a → commit_justified w0 (set_auth a w1)).
  { intros a [Ha|Ha]; [left; cbn; congruence|]. right. exists now, t, out, (cw_auth w1), events. split_and!; [done|cbn; congruence|done|done]. }
  assert (Hm : triple (λ a, a = cw_auth w1) (try (E' := serror) (AuthLog.Commit suffix marshal_cp)) (λ _, post) (λ _ _, False) post)
    by apply triple_try, (Commit_done suffix marshal_cp (cw_auth w1)).
  eapply triple_bind with (Q' := λ _, commit_justified w0); [|intros r; by apply triple_ret].
  eapply triple_conseq; [apply (triple_zoom cw_auth set_auth w1 _ _ _ _ Hm)|done| | |].
  - intros r w (a & -> & Ha). by apply Hj.
  - by intros ? ? (? & _ & ?).
  - intros w (a & -> & Ha). by apply Hj.
Qed.

Lemma rollback_auth_justified w0 auth w1 : gathered w0 auth w1 →
  triple (λ w, w = w1) rollback_auth (λ _, commit_justified w0) (λ _ _, False) (commit_justified w0).
Proof.
  intros (_ & _ & Hd & _). unfold rollback_auth. eapply triple_bind with (Q' := λ _, commit_justified w0); [|by intros ?; apply triple_ret].
  set (post a := aw_done a = aw_done (cw_auth w1)).
  assert (Hm : triple (λ a, a = cw_auth w1) (try (E' := serror) AuthLog.Rollback) (λ _, post) (λ _ _, False) post)
    by (apply triple_try, triple_modify; by intros x ->).
  eapply triple_conseq; [apply (triple_zoom cw_auth set_auth w1 _ _ _ _ Hm)|done| | |].
  - intros _ w (a & -> & Ha). left. cbn. unfold post in Ha. congruence.
  - by intros ? ? (? & _ & ?).
  - intros w (a & -> & Ha). left. cbn. unfold post in Ha. congruence.
Qed.

Lemma finish_idle_justified w0 auth start n st mode : default [] auth = [] →
  triple (gathered w0 auth) (finish_idle suffix marshal_cp start (bool_decide (is_Some auth)) n st mode)
    (λ _, commit_justified w0) (λ _ _, False) (commit_justified w0).
Proof.
  intros Hnil. unfold finish_idle. eapply triple_bind with (Q' := λ _, commit_justified w0).
  2:{ intros e. eapply triple_bind with (Q' := λ _, commit_justified w0); [by apply triple_now|]. intros ?. by apply triple_ret. }
  destruct auth as [out|]; cbn.
  - cbn in Hnil. subst out. apply triple_start. intros w1 Hw1. eapply (commit_auth_justified w0 [] [] 0); [done|constructor|cbn; lia].
  - apply triple_ret. intros w Hw. by eapply gathered_justified.
Qed.

Lemma normalize_prefix out rest agentID t events :
  Forall2 same_event (normalizeEvents (out ++ rest) agentID t) events →
  Forall2 same_event (normalizeEvents out agentID t) (take (length out) events).
Proof.
  intros H. unfold normalizeEvents in *. rewrite map_app in H. apply (Forall2_take _ _ _ (length out)) in H.
  by rewrite take_app_length' in H by by rewrite length_map.
Qed.

Lemma finish_sent_justified w0 auth rest start n st mode :
  0 < s_maxBatch (mg_sender (cw_mgr w0)) → 0 <= s_retries (mg_sender (cw_mgr w0)) →
  triple (gathered w0 auth)
    (finish_sent suffix marshal_cp parse marshal_events uuid_parse valid_url server q send_error_text start
       ((λ evs, Z.of_nat (length evs)) <$> auth) (default [] auth ++ rest) n st mode)
    (λ _, commit_justified w0) (λ _ _, False) (commit_justified w0).
Proof using QueueLaws0.
  intros Hmb Hret. unfold finish_sent. apply triple_start. intros w1 Hw1. pose proof Hw1 as (Hs & Hc & Hd & _).
  eapply triple_bind with (Q' := λ m w, m = cw_mgr w1 ∧ w = w1); [by apply triple_gets; intros w ->|]. intros m. apply triple_pure. intros ->.
  eapply triple_bind with (Q' := λ _ w, w = w1); [by apply triple_now; intros ? w ->|]. intros t. rewrite Hs, Hc.
  set (evs := normalizeEvents _ _ _).
  eapply triple_bind with (Q' := λ r w, gathered w0 auth w ∧ sent_durably (mg_sender (cw_mgr w0)) evs r (cw_send w)).
  { eapply triple_conseq; [apply (triple_zoom cw_send set_send w1 _ _ _ _ (SendEvents_durable _ evs (cw_send w1) Hmb Hret))|done| | |].
    - intros r w (x & -> & Hx). by split.
    - by intros ? ? (? & _ & ?).
    - intros w (x & -> & _). by left. }
  intros [[res err] events]. apply triple_start. intros w2 [Hw2 [Hsame Hdur]]. cbn [fst snd] in *.
  eapply triple_bind with (Q' := λ _, commit_justified w0).
  2:{ intros e. eapply triple_bind with (Q' := λ _, commit_justified w0); [by apply triple_now|]. intros ?. by apply triple_ret. }
  destruct auth as [out|]; cbn [fmap option_fmap option_map default] in *; [|by apply triple_ret; intros w ->; eapply gathered_justified].
  prog_if E; zbool.
  - eapply triple_bind with (Q' := λ _, commit_justified w0); [|intros ?; by apply triple_ret].
    eapply commit_auth_justified; [exact Hw2|by eapply normalize_prefix|]. intros i Hi. apply Hdur. lia.
  - eapply triple_bind with (Q' := λ _, commit_justified w0); [|intros ?; by apply triple_ret]. by eapply rollback_auth_justified.
Qed.

(** C33: the lines of the authentication log are given up only once their events are
    safe (RunOnce).  In a cycle with any collectors, whatever calls fail and wherever
    the agent is killed: either no line of the log becomes committed, or the
    cycle captured those lines, and each event it made of them, normalised, was
    sent and was either acknowledged by the server or is held by the durable queue. *)
Theorem commits_only_durable sha fmt pf age forder fage number sorder ob v w :
  0 < s_maxBatch (mg_sender (cw_mgr w)) → 0 <= s_retries (mg_sender (cw_mgr w)) →
  match RunOnce suffix marshal_cp sha1_uuid parse marshal_events uuid_parse valid_url server q sha fmt pf age forder fage number sorder send_error_text ob v w with
  | (Err _, _, _) => False
  | (_, _, w') => commit_justified w w'
  end.
Proof using QueueLaws0.
  intros Hmb Hret.
  assert (H : triple (λ x, x = w) (RunOnce suffix marshal_cp sha1_uuid parse marshal_events uuid_parse valid_url server q sha fmt pf age forder fage number sorder send_error_text ob)
    (λ _, commit_justified w) (λ _ _, False) (commit_justified w)).
  2:{ specialize (H v w eq_refl). by destruct (RunOnce _ _ _ _ _ _ _ _ _ _ _ _ _ _ _ _ _ _ _ v w) as [[[]?]?]. }
  unfold RunOnce. eapply triple_bind with (Q' := λ _ x, x = w); [by apply triple_now; intros ? x ->|]. intros start.
  eapply triple_bind; [apply capture_auth_gathers|]. intros auth.
  eapply triple_bind; [apply capture_proc_frame|]. intros proc.
  eapply triple_bind; [apply capture_procExec_frame|]. intros procExec.
  eapply triple_bind; [apply capture_fim_frame|]. intros fim.
  eapply triple_bind; [apply capture_lateral_frame|]. intros lateralProc.
  eapply triple_bind; [apply drain_pcap_frame|]. intros [[[lateralPcap scanRaw] ddosEvs] l7]. cbv zeta.
  eapply triple_bind with (Q' := λ _, gathered w auth); [by apply triple_gets|]. intros m.
  set (gathered_events := default [] auth ++ _).
  eapply triple_bind with (Q' := λ events x, gathered w auth x ∧ ∃ rest, events = default [] auth ++ rest).
  { assert (Hraw : ∃ rest, (if str_in (NormalizeScanMode (cfg_ScanMode (c_Scan (mg_cfg m)))) ["raw"; "both"] then gathered_events ++ scanRaw else gathered_events) =
                   default [] auth ++ rest) by (unfold gathered_events; case_match; rewrite <- ?app_assoc; by eexists).
    destruct Hraw as [rest ->]. case_match; [|by apply triple_ret; eauto].
    eapply triple_bind with (Q' := λ _, gathered w auth); [by apply triple_now|]. intros t. apply triple_ret. intros x Hx. rewrite <- app_assoc. eauto. }
  intros events. apply triple_pure_r. intros [rest ->]. rewrite <- app_assoc.
  prog_if E.
  - apply finish_idle_justified. apply Nat.eqb_eq in E. by destruct (default [] auth).
  - by apply finish_sent_justified.
Qed.
End commits.

(** ** An example: two lines of the log, sent and committed *)

Definition demo_manager : Manager.Manager :=
  {| mg_cfg := Overrides.demo_cfg; mg_sender := Sender.demo_sender; mg_proc := None; mg_procExec := None; mg_fim := None; mg_l7 := None; mg_auth := true;
     mg_lateralProc := None; mg_lateralPcap := None; mg_scan := None; mg_ddos := None |}.
Definition demo_world : cworld :=
  {| cw_mgr := demo_manager; cw_auth := AuthLog.demo_w1; cw_send := empty_spool ["a"; "b"; "c"; "d"; "e"; "f"] |}.
Definition demo_observed : observed :=
  {| ob_tcp4 := Flows.Missing; ob_tcp6 := Flows.Missing; ob_lateral4 := Flows.Missing; ob_lateral6 := Flows.Missing;
     ob_uuid := λ _ _, EmptyString; ob_lateral_uuid := λ _ _, EmptyString;
     ob_exec := {| ProcExec.v_entries := None; ProcExec.v_file := λ _, None; ProcExec.v_link := λ _, None; ProcExec.v_stat := λ _, None; ProcExec.v_user := λ _, None |};
     ob_fim := {| Fim.v_tree := λ _, None; Fim.v_glob := λ _, []; Fim.v_read := λ _, None |} |}.
Definition demo_cycle (reply : list request → request → net_reply) :=
  RunOnce long_suffix AuthLog.demo_marshal (λ s, s) Sender.demo_parse demo_events demo_uuid any_url reply demo_queue (λ s, s) (λ _, EmptyString) (λ _, None)
    map_to_list map_to_list map_to_list (λ _, EmptyString) map_to_list (λ _, "send"%string) demo_observed (quiet 100) demo_world.

Definition committed_lines {E A} (r : outcome E A * env * cworld) : list Z := map fst (aw_done (cw_auth r.2)).

Lemma commits_only_durable_witness :
  committed_lines (demo_cycle acking) = [0; 62] ∧
  commit_justified (λ s, s) Sender.demo_parse demo_events acking demo_world (demo_cycle acking).2.
Proof.
  split; [vm_compute; reflexivity|].
  pose proof (commits_only_durable long_suffix AuthLog.demo_marshal (λ s, s) Sender.demo_parse demo_events demo_uuid any_url acking
    (Spool.Build_Options "/spool" 1000 hour 10) demo_queue (λ _, "send"%string) (λ s, s) (λ _, EmptyString) (λ _, None) map_to_list map_to_list map_to_list
    (λ _, EmptyString) map_to_list demo_observed (quiet 100) demo_world ltac:(vm_compute; reflexivity) ltac:(vm_compute; discriminate)) as H.
  change (RunOnce _ _ _ _ _ _ _ _ _ _ _ _ _ _ _ _ _ _ _ _ _) with (demo_cycle acking) in H.
  by destruct (demo_cycle acking) as [[[]?]?].
Defined.

(** A server that answers without acknowledging, and no queue to keep the events: nothing
    is committed. *)
Example unconfirmed_rolls_back :
  committed_lines (RunOnce long_suffix AuthLog.demo_marshal (λ s, s) Sender.demo_parse demo_events demo_uuid any_url (λ _ _, Response 401 EmptyString) demo_queue
    (λ s, s) (λ _, EmptyString) (λ _, None) map_to_list map_to_list map_to_list (λ _, EmptyString) map_to_list (λ _, "send"%string) demo_observed (quiet 100)
    (set_mgr {| mg_cfg := Overrides.demo_cfg; mg_sender := Sender.New "https://s" 1 "agent"; mg_proc := None; mg_procExec := None; mg_fim := None; mg_l7 := None;
                mg_auth := true; mg_lateralProc := None; mg_lateralPcap := None; mg_scan := None; mg_ddos := None |} demo_world)) = [].
Proof. vm_compute. reflexivity. Qed.
