(* ===== verification/Cvss.v ===== *)
(** * Cvss: CVSS v3 base scores (internal/collectors/vuln/cvss.go)

    The score of a vector string in float64 arithmetic, without fused operations,
    and the exact score of the specification as the reference. *)

From S2P Require Import Prelude GoStr GoText Float.
From Stdlib Require Import Ascii QArith Qround.

Local Open Scope Z_scope.
Local Open Scope go_scope.

(** ** Values of the metrics *)

(** A value, or [false]. *)
Definition cvssAV (v : string) : option float64 :=
  if str_eqb v "N" then Some (lit 85 2) else if str_eqb v "A" then Some (lit 62 2) else
  if str_eqb v "L" then Some (lit 55 2) else if str_eqb v "P" then Some (lit 20 2) else None.
Definition cvssAC (v : string) : option float64 :=
  if str_eqb v "L" then Some (lit 77 2) else if str_eqb v "H" then Some (lit 44 2) else None.
Definition cvssPR (v scope : string) : option float64 :=
  if str_eqb scope "U" then
    if str_eqb v "N" then Some (lit 85 2) else if str_eqb v "L" then Some (lit 62 2) else if str_eqb v "H" then Some (lit 27 2) else None
  else if str_eqb scope "C" then
    if str_eqb v "N" then Some (lit 85 2) else if str_eqb v "L" then Some (lit 68 2) else if str_eqb v "H" then Some (lit 50 2) else None
  else None.
Definition cvssUI (v : string) : option float64 :=
  if str_eqb v "N" then Some (lit 85 2) else if str_eqb v "R" then Some (lit 62 2) else None.
Definition cvssCIA (v : string) : option float64 :=
  if str_eqb v "H" then Some (lit 56 2) else if str_eqb v "L" then Some (lit 22 2) else if str_eqb v "N" then Some f0 else None.

(** ** The score *)

Definition roundUp1Decimal (x : float64) : float64 := fdiv (Ceil (fmul x (of_int 10))) (of_int 10).

(** [strings.Cut(p, ":")] *)
Definition cut_colon (p : string) : option (string * string) :=
  k ← before_byte p ":"%char; Some (k, str_drop (S (String.length k)) p).

Definition add_metric (metrics : gmap string string) (p : string) : gmap string string :=
  match cut_colon p with
  | None => metrics
  | Some (k, val) =>
    let k := ToUpper (TrimSpace k) in
    let val := ToUpper (TrimSpace val) in
    if negb (is_empty k) && negb (is_empty val) then <[k := val]> metrics else metrics
  end.

(** The metrics of a vector; [None] when it is no CVSS v3 vector. *)
Definition vector_metrics (vector : string) : option (gmap string string) :=
  let v := TrimSpace vector in
  if negb (HasPrefix (ToUpper v) "CVSS:3.") then None else
  match Split v "/"%char with
  | _ :: ((_ :: _) as parts) => Some (fold_left add_metric parts ∅)
  | _ => None
  end.

(** A metric that is absent reads as the empty string. *)
Definition metric (metrics : gmap string string) (k : string) : string := default EmptyString (metrics !! k).

Definition impact_of (changed : bool) (c i a : float64) : float64 :=
  let one := of_int 1 in
  let iss := fsub one (fmul (fmul (fsub one c) (fsub one i)) (fsub one a)) in
  if changed then fsub (fmul (lit 752 2) (fsub iss (lit 29 3))) (fmul (lit 325 2) (PowInt (fsub iss (lit 2 2)) 15))
  else fmul (lit 642 2) iss.
Definition exploitability_of (av ac pr ui : float64) : float64 := fmul (fmul (fmul (fmul (lit 822 2) av) ac) pr) ui.
Definition base_of (changed : bool) (impact exploitability : float64) : float64 :=
  let base := if changed then fmul (lit 108 2) (fadd impact exploitability) else fadd impact exploitability in
  if fgt base (of_int 10) then of_int 10 else base.

Definition base_score (changed : bool) (av ac ui pr c i a : float64) : float64 :=
  let impact := impact_of changed c i a in
  if fle impact f0 then f0 else roundUp1Decimal (base_of changed impact (exploitability_of av ac pr ui)).

Definition CVSSv3BaseScore (vector : string) : option float64 :=
  metrics ← vector_metrics vector;
  av ← cvssAV (metric metrics "AV");
  ac ← cvssAC (metric metrics "AC");
  ui ← cvssUI (metric metrics "UI");
  let scope := metric metrics "S" in
  if negb (str_eqb scope "U") && negb (str_eqb scope "C") then None else
  pr ← cvssPR (metric metrics "PR") scope;
  c ← cvssCIA (metric metrics "C");
  i ← cvssCIA (metric metrics "I");
  a ← cvssCIA (metric metrics "A");
  Some (base_score (str_eqb scope "C") av ac ui pr c i a).

(** ** The specification *)

Inductive attack_vector := Network | Adjacent | Local_ | Physical.
Inductive complexity := LowComplexity | HighComplexity.
Inductive privileges := NoPrivileges | LowPrivileges | HighPrivileges.
Inductive interaction := NoInteraction | RequiredInteraction.
Inductive impact_level := HighImpact | LowImpact | NoImpact.

Record metrics := {
  m_AV : attack_vector; m_AC : complexity; m_PR : privileges; m_UI : interaction; m_changed : bool;
  m_C : impact_level; m_I : impact_level; m_A : impact_level }.

(** The letters of the metrics. *)
Definition read_AV (v : string) : option attack_vector :=
  if str_eqb v "N" then Some Network else if str_eqb v "A" then Some Adjacent else
  if str_eqb v "L" then Some Local_ else if str_eqb v "P" then Some Physical else None.
Definition read_AC (v : string) : option complexity :=
  if str_eqb v "L" then Some LowComplexity else if str_eqb v "H" then Some HighComplexity else None.
Definition read_PR (v : string) : option privileges :=
  if str_eqb v "N" then Some NoPrivileges else if str_eqb v "L" then Some LowPrivileges else if str_eqb v "H" then Some HighPrivileges else None.
Definition read_UI (v : string) : option interaction :=
  if str_eqb v "N" then Some NoInteraction else if str_eqb v "R" then Some RequiredInteraction else None.
Definition read_S (v : string) : option bool := if str_eqb v "U" then Some false else if str_eqb v "C" then Some true else None.
Definition read_CIA (v : string) : option impact_level :=
  if str_eqb v "H" then Some HighImpact else if str_eqb v "L" then Some LowImpact else if str_eqb v "N" then Some NoImpact else None.

Definition read_metrics (ms : gmap string string) : option metrics :=
  av ← read_AV (metric ms "AV"); ac ← read_AC (metric ms "AC"); ui ← read_UI (metric ms "UI"); s ← read_S (metric ms "S");
  pr ← read_PR (metric ms "PR"); c ← read_CIA (metric ms "C"); i ← read_CIA (metric ms "I"); a ← read_CIA (metric ms "A");
  Some {| m_AV := av; m_AC := ac; m_PR := pr; m_UI := ui; m_changed := s; m_C := c; m_I := i; m_A := a |}.

Section exact.
Local Open Scope Q_scope.

Definition q_AV (x : attack_vector) : Q := match x with Network => 85 # 100 | Adjacent => 62 # 100 | Local_ => 55 # 100 | Physical => 20 # 100 end.
Definition q_AC (x : complexity) : Q := match x with LowComplexity => 77 # 100 | HighComplexity => 44 # 100 end.
Definition q_PR (changed : bool) (x : privileges) : Q :=
  match x with NoPrivileges => 85 # 100 | LowPrivileges => if changed then 68 # 100 else 62 # 100 | HighPrivileges => if changed then 50 # 100 else 27 # 100 end.
Definition q_UI (x : interaction) : Q := match x with NoInteraction => 85 # 100 | RequiredInteraction => 62 # 100 end.
Definition q_CIA (x : impact_level) : Q := match x with HighImpact => 56 # 100 | LowImpact => 22 # 100 | NoImpact => 0 end.

(** The base equations, without rounding. *)
Definition exact_impact (changed : bool) (c i a : impact_level) : Q :=
  let iss := 1 - (1 - q_CIA c) * (1 - q_CIA i) * (1 - q_CIA a) in
  if changed then (752 # 100) * (iss - (29 # 1000)) - (325 # 100) * (iss - (2 # 100)) ^ 15 else (642 # 100) * iss.
Definition exact_exploitability (changed : bool) (av : attack_vector) (ac : complexity) (pr : privileges) (ui : interaction) : Q :=
  (822 # 100) * q_AV av * q_AC ac * q_PR changed pr * q_UI ui.
Definition exact_base (m : metrics) : Q :=
  let impact := exact_impact (m_changed m) (m_C m) (m_I m) (m_A m) in
  let exploitability := exact_exploitability (m_changed m) (m_AV m) (m_AC m) (m_PR m) (m_UI m) in
  if Qle_bool impact 0 then 0 else
  let base := if m_changed m then (108 # 100) * (impact + exploitability) else impact + exploitability in
  if Qle_bool base 10 then base else 10.

(** The score in tenths: the least number of tenths that is not below the base. *)
Definition exact_score (m : metrics) : Z := Qceiling (exact_base m * 10).
End exact.

(** The float64 nearest to [n] tenths. *)
Definition tenths (n : Z) : float64 := lit n 1.

(** ** Checking all metrics

    The parts of the score are tabulated, in float64 and as multiples of [10^-92],
    so that the 2592 combinations are cheap to check. *)

Definition f_AV (x : attack_vector) : float64 := match x with Network => lit 85 2 | Adjacent => lit 62 2 | Local_ => lit 55 2 | Physical => lit 20 2 end.
Definition f_AC (x : complexity) : float64 := match x with LowComplexity => lit 77 2 | HighComplexity => lit 44 2 end.
Definition f_PR (changed : bool) (x : privileges) : float64 :=
  match x with NoPrivileges => lit 85 2 | LowPrivileges => if changed then lit 68 2 else lit 62 2 | HighPrivileges => if changed then lit 50 2 else lit 27 2 end.
Definition f_UI (x : interaction) : float64 := match x with NoInteraction => lit 85 2 | RequiredInteraction => lit 62 2 end.
Definition f_CIA (x : impact_level) : float64 := match x with HighImpact => lit 56 2 | LowImpact => lit 22 2 | NoImpact => f0 end.

Definition scale : positive := (10 ^ 92)%positive.
Definition scaled (q : Q) : Z := (Qnum q * Zpos scale) / QDen q.

Definition impacts (changed : bool) : list (float64 * Z) :=
  c ← [HighImpact; LowImpact; NoImpact]; i ← [HighImpact; LowImpact; NoImpact]; a ← [HighImpact; LowImpact; NoImpact];
  [(impact_of changed (f_CIA c) (f_CIA i) (f_CIA a), scaled (exact_impact changed c i a))].
Definition exploitabilities (changed : bool) : list (float64 * Z) :=
  av ← [Network; Adjacent; Local_; Physical]; ac ← [LowComplexity; HighComplexity]; pr ← [NoPrivileges; LowPrivileges; HighPrivileges];
  ui ← [NoInteraction; RequiredInteraction];
  [(exploitability_of (f_AV av) (f_AC ac) (f_PR changed pr) (f_UI ui), scaled (exact_exploitability changed av ac pr ui))].
Definition impact_table (changed : bool) : list (float64 * Z) :=
  Eval vm_compute in if changed then impacts true else impacts false.
Definition exploitability_table (changed : bool) : list (float64 * Z) :=
  Eval vm_compute in if changed then exploitabilities true else exploitabilities false.
Definition f108 : float64 := Eval vm_compute in lit 108 2.
Definition f10 : float64 := Eval vm_compute in of_int 10.

Lemma impacts_tabulated changed : impacts changed = impact_table changed.
Proof. destruct changed; vm_compute; reflexivity. Qed.
Lemma exploitabilities_tabulated changed : exploitabilities changed = exploitability_table changed.
Proof. destruct changed; vm_compute; reflexivity. Qed.

Lemma impact_scaled changed c i a : (exact_impact changed c i a == scaled (exact_impact changed c i a) # scale)%Q.
Proof. apply Qeq_bool_iff. destruct changed, c, i, a; vm_compute; reflexivity. Qed.
Lemma exploitability_scaled changed av ac pr ui :
  (exact_exploitability changed av ac pr ui == scaled (exact_exploitability changed av ac pr ui) # scale)%Q.
Proof. apply Qeq_bool_iff. destruct changed, av, ac, pr, ui; vm_compute; reflexivity. Qed.

(** The unrounded base of two entries, as a multiple of [10^-94]. *)
Definition scaled_base (changed : bool) (zi ze : Z) : Z := (if changed then 108 else 100) * (zi + ze).
Definition full : Z := Eval vm_compute in 10 ^ 94.

#[local] Instance spec_float_eq_dec : EqDecision spec_float.
Proof. solve_decision. Defined.

(** What is checked of two entries: the signs agree, and the float64 rounds up to the
    tenth [n] that the exact base does. *)
Definition pair_ok (changed : bool) (i e : float64 * Z) : bool :=
  let '(fi, zi) := i in
  let '(fe, ze) := e in
  if zi <=? 0 then fle fi f0 else
  negb (fle fi f0) &&
  (let sum := fadd fi fe in
   let base := if changed then fmul f108 sum else sum in
   let v := Ceil (fmul (if fgt base f10 then f10 else base) f10) in
   let n := to_int v in
   let b := scaled_base changed zi ze in
   bool_decide (v = of_int n) && (if 10 * full <? b then n =? 100 else ((n - 1) * full <? 10 * b) && (10 * b <=? n * full))).

Definition pairs_ok (changed : bool) : bool :=
  forallb (λ i, forallb (pair_ok changed i) (remove_dups (exploitability_table changed))) (remove_dups (impact_table changed)).

Lemma pairs_checked changed : pairs_ok changed = true.
Proof. destruct changed; vm_compute; reflexivity. Qed.

(** ** The theorems *)

Ltac pick x := apply list_elem_of_bind; exists x; split; [|destruct x; repeat constructor].

Lemma impacts_elem changed c i a : (impact_of changed (f_CIA c) (f_CIA i) (f_CIA a), scaled (exact_impact changed c i a)) ∈ impact_table changed.
Proof. rewrite <- impacts_tabulated. unfold impacts. pick c. pick i. pick a. by apply list_elem_of_singleton. Qed.
Lemma exploitabilities_elem changed av ac pr ui :
  (exploitability_of (f_AV av) (f_AC ac) (f_PR changed pr) (f_UI ui), scaled (exact_exploitability changed av ac pr ui)) ∈ exploitability_table changed.
Proof. rewrite <- exploitabilities_tabulated. unfold exploitabilities. pick av. pick ac. pick pr. pick ui. by apply list_elem_of_singleton. Qed.

Lemma pair_checked changed c i a av ac pr ui :
  pair_ok changed (impact_of changed (f_CIA c) (f_CIA i) (f_CIA a), scaled (exact_impact changed c i a))
    (exploitability_of (f_AV av) (f_AC ac) (f_PR changed pr) (f_UI ui), scaled (exact_exploitability changed av ac pr ui)) = true.
Proof.
  pose proof (pairs_checked changed) as H. unfold pairs_ok in H. rewrite forallb_forall in H.
  specialize (H _ (proj1 (list_elem_of_In _ _) (proj2 (elem_of_remove_dups _ _) (impacts_elem changed c i a)))). cbv beta in H. rewrite forallb_forall in H.
  by apply (H _ (proj1 (list_elem_of_In _ _) (proj2 (elem_of_remove_dups _ _) (exploitabilities_elem changed av ac pr ui)))).
Qed.

(** The least integer that is not below [b / full]. *)
Lemma ceiling_between b n : (n - 1) * full < b → b <= n * full → Qceiling (b # (10 ^ 94)) = n.
Proof.
  intros H1 H2. change full with (Zpos (10 ^ 94)) in *. set (d := (10 ^ 94)%positive) in *. clearbody d.
  unfold Qceiling, Qfloor, Qopp. cbn [Qnum Qden]. apply Z.eq_opp_l. symmetry. apply (Z.div_unique_pos _ _ _ (n * Zpos d - b)); lia.
Qed.

Definition float_score (m : metrics) : float64 :=
  base_score (m_changed m) (f_AV (m_AV m)) (f_AC (m_AC m)) (f_UI (m_UI m)) (f_PR (m_changed m) (m_PR m)) (f_CIA (m_C m)) (f_CIA (m_I m)) (f_CIA (m_A m)).

Lemma Qle_bool_scaled q z n d : (q == z # d)%Q → Qle_bool q (n # 1) = (z <=? n * Zpos d).
Proof.
  intros Hq. apply eq_bool_prop_intro. split.
  - intros H%Is_true_true%Qle_bool_iff. rewrite Hq in H. unfold Qle in H. cbn [Qnum Qden] in H. apply Is_true_true, Z.leb_le. lia.
  - intros H%Is_true_true%Z.leb_le. apply Is_true_true, Qle_bool_iff. rewrite Hq. unfold Qle. cbn [Qnum Qden]. lia.
Qed.

Lemma base_scaled (changed : bool) qi qe zi ze : (qi == zi # scale)%Q → (qe == ze # scale)%Q →
  ((if changed then (108 # 100) * (qi + qe) else qi + qe) == scaled_base changed zi ze # (10 ^ 94))%Q.
Proof.
  intros Hi He. assert (H94 : (10 ^ 94 = 100 * scale)%positive) by reflexivity. rewrite H94. clear H94.
  unfold scaled_base. generalize dependent scale. intros s Hi He. destruct changed; rewrite Hi, He; unfold Qeq; cbn [Qnum Qden Qplus Qmult]; lia.
Qed.

(** The table's verdict gives the exact score. *)
Lemma exact_score_checked m n v :
  let zi := scaled (exact_impact (m_changed m) (m_C m) (m_I m) (m_A m)) in
  let ze := scaled (exact_exploitability (m_changed m) (m_AV m) (m_AC m) (m_PR m) (m_UI m)) in
  let b := scaled_base (m_changed m) zi ze in
  (zi <=? 0) = false → (if 10 * full <? b then n =? 100 else ((n - 1) * full <? 10 * b) && (10 * b <=? n * full)) = true →
  v = n → exact_score m = v.
Proof.
  intros zi ze b Hzi Hn ->. unfold exact_score, exact_base.
  pose proof (impact_scaled (m_changed m) (m_C m) (m_I m) (m_A m)) as Hi. fold zi in Hi.
  pose proof (exploitability_scaled (m_changed m) (m_AV m) (m_AC m) (m_PR m) (m_UI m)) as He. fold ze in He.
  set (qi := exact_impact _ _ _ _) in *. set (qe := exact_exploitability _ _ _ _ _) in *.
  pose proof (base_scaled (m_changed m) qi qe zi ze Hi He) as Hb. fold b in Hb.
  change 0%Q with (0 # 1)%Q. rewrite (Qle_bool_scaled _ _ 0 _ Hi), Z.mul_0_l, Hzi. cbv zeta.
  set (base := if m_changed m then _ else _) in *. clearbody base qi qe b.
  change 10%Q with (10 # 1)%Q. rewrite (Qle_bool_scaled _ _ 10 _ Hb). change (Zpos (10 ^ 94)) with full.
  destruct (10 * full <? b) eqn:E; zbool.
  - rewrite (proj2 (Z.leb_gt _ _)) by lia. subst n. reflexivity.
  - rewrite (proj2 (Z.leb_le _ _)) by lia. rewrite <- (ceiling_between (10 * b) n) by lia. apply Qceiling_comp.
    rewrite Hb. unfold Qeq. cbn [Qnum Qden Qmult]. lia.
Qed.

Lemma base_of_tabulated changed fi fe :
  base_of changed fi fe = let sum := fadd fi fe in let base := if changed then fmul f108 sum else sum in if fgt base f10 then f10 else base.
Proof. reflexivity. Qed.

(** The float64 score is the exact one. *)
Lemma float_score_exact m : float_score m = tenths (exact_score m).
Proof.
  pose proof (pair_checked (m_changed m) (m_C m) (m_I m) (m_A m) (m_AV m) (m_AC m) (m_PR m) (m_UI m)) as H.
  unfold float_score, base_score. unfold pair_ok in H. rewrite base_of_tabulated.
  set (fi := impact_of _ _ _ _) in *. set (fe := exploitability_of _ _ _ _) in *.
  destruct (scaled (exact_impact _ _ _ _) <=? 0) eqn:Hz.
  - rewrite H. unfold exact_score, exact_base.
    pose proof (impact_scaled (m_changed m) (m_C m) (m_I m) (m_A m)) as Hi.
    change 0%Q with (0 # 1)%Q. rewrite (Qle_bool_scaled _ _ 0 _ Hi), Z.mul_0_l, Hz. vm_compute. reflexivity.
  - apply andb_true_iff in H as [Hf H]. apply negb_true_iff in Hf. rewrite Hf. cbv zeta in H. apply andb_true_iff in H as [Hv Hn].
    apply bool_decide_eq_true in Hv. rewrite (exact_score_checked m _ _ Hz Hn eq_refl).
    unfold roundUp1Decimal, tenths, lit. change (of_int 10) with f10. cbv zeta. rewrite Hv at 1. done.
Qed.

Lemma cvssAV_read s : cvssAV s = f_AV <$> read_AV s.
Proof. unfold cvssAV, read_AV. by repeat case_match. Qed.
Lemma cvssAC_read s : cvssAC s = f_AC <$> read_AC s.
Proof. unfold cvssAC, read_AC. by repeat case_match. Qed.
Lemma cvssUI_read s : cvssUI s = f_UI <$> read_UI s.
Proof. unfold cvssUI, read_UI. by repeat case_match. Qed.
Lemma cvssCIA_read s : cvssCIA s = f_CIA <$> read_CIA s.
Proof. unfold cvssCIA, read_CIA. by repeat case_match. Qed.
Lemma cvssPR_read s (changed : bool) : cvssPR s (if changed then "C" else "U") = f_PR changed <$> read_PR s.
Proof. unfold cvssPR, read_PR. destruct changed; cbn; by repeat case_match. Qed.
Lemma scope_read s : read_S s = if str_eqb s "U" then Some false else if str_eqb s "C" then Some true else None.
Proof. done. Qed.

(** C34: CVSS v3 base scores are exact (CVSSv3BaseScore).  A vector has a score exactly
    when it begins like a CVSS v3 vector and gives every base metric one of its
    values, in any order; the score computed in float64 is then the float64 nearest
    to the score of the specification's equations in exact arithmetic, the base
    rounded up to a tenth: no rounding error ever changes a score. *)
Theorem CVSSv3BaseScore_exact vector :
  CVSSv3BaseScore vector = (ms ← vector_metrics vector; m ← read_metrics ms; Some (tenths (exact_score m))).
Proof.
  unfold CVSSv3BaseScore. destruct (vector_metrics vector) as [ms|]; [|done]. cbn [mbind option_bind]. unfold read_metrics.
  rewrite cvssAV_read, cvssAC_read, cvssUI_read, !cvssCIA_read, scope_read.
  destruct (read_AV _) as [av|]; [|done]. destruct (read_AC _) as [ac|]; [|done]. destruct (read_UI _) as [ui|]; [|done]. cbn [fmap option_fmap option_map mbind option_bind].
  destruct (str_eqb (metric ms "S") "U") eqn:HU; [|destruct (str_eqb (metric ms "S") "C") eqn:HC; [|done]].
  1: apply str_eqb_eq in HU as ->; pose proof (cvssPR_read (metric ms "PR") false) as Hpr.
  2: apply str_eqb_eq in HC as ->; pose proof (cvssPR_read (metric ms "PR") true) as Hpr.
  all: cbn [negb andb mbind option_bind]; cbv beta iota in Hpr; rewrite Hpr.
  all: destruct (read_PR _) as [pr|]; [|done]; cbn [fmap option_fmap option_map mbind option_bind].
  all: destruct (read_CIA (metric ms "C")) as [c|]; [|done]; destruct (read_CIA (metric ms "I")) as [i|]; [|done].
  all: destruct (read_CIA (metric ms "A")) as [a|]; [|done]; cbn [fmap option_fmap option_map mbind option_bind].
  all: rewrite <- float_score_exact; reflexivity.
Qed.

(** ** Examples *)

Example critical_score : CVSSv3BaseScore "cvss:3.1/ac:l/av:n/PR:N/UI:N/S:U/C:H/I:H/A:H" = Some (tenths 98).
Proof. vm_compute. reflexivity. Qed.
Example zero_score : CVSSv3BaseScore "CVSS:3.0/AV:N/AC:L/PR:N/UI:N/S:C/C:N/I:N/A:N" = Some (tenths 0).
Proof. vm_compute. reflexivity. Qed.
Example missing_metric : CVSSv3BaseScore "CVSS:3.1/AV:N/AC:L/PR:N/UI:N/C:H/I:H/A:H" = None.
Proof. vm_compute. reflexivity. Qed.
