(* ===== verification/Inventory.v ===== *)
(** * Inventory: the packages of a host (internal/collectors/syscollector)

    [Collect] reads the package database of a mounted host root, or the output of
    a package manager, and makes the inventory snapshot.  The files of the host
    and the results of commands are an input; SHA-256 is a parameter. *)

From S2P Require Import Prelude GoStr GoText GoFields GoJson Net GoIP Netctx Event Effects FileUtil Spool Queue Sender.
From Stdlib Require Import Ascii.

Local Open Scope Z_scope.
Local Open Scope go_scope.

Record Options := {
  o_CmdTimeout : duration; o_MaxOutputBytes : Z; o_MaxPackages : Z; o_HostRoot : string; o_NetCtxCaps : Caps }.

Record Result := { r_Snapshot : InventorySnapshot; r_Warnings : list string }.

(** How a command ends: it cannot be started; its output cannot be read; it
    exits with success, with an error or at its deadline.  The output is what the
    command wrote before its end. *)
Inductive ending := Exited | FailedExit | DeadlineExceeded.
Inductive cmd_result := NotStarted | Unread | Ran (output : string) (e : ending).

Record view := {
  v_file : string → option string;                   (** the content of a file that can be opened *)
  v_regular : string → bool;
  v_isdir : string → bool;
  v_dir : string → option (list (string * bool));    (** entries, and whether they are directories *)
  v_path : string → bool;                            (** whether a command is found *)
  v_run : list string → cmd_result;
  v_host : host }.

(** ** Text *)

Definition tab : ascii := ascii_of_nat 9.
Definition squote : ascii := "'"%char.
Definition quote_byte (a : ascii) : bool := Ascii.eqb a dquote || Ascii.eqb a squote.
Fixpoint drop_quotes (l : list ascii) : list ascii := match l with a :: l' => if quote_byte a then drop_quotes l' else l | [] => [] end.
(** [strings.Trim] of both kinds of quotes. *)
Definition trim_quotes (s : string) : string := of_chars (reverse (drop_quotes (reverse (drop_quotes (to_chars s))))).

(** [strings.Cut] at a byte. *)
Definition Cut (s : string) (c : ascii) : option (string * string) := k ← before_byte s c; Some (k, str_drop (S (String.length k)) s).

Definition filepathJoinClean (root p : string) : string :=
  let root := TrimSpace root in if is_empty root then p else Clean (JoinPath root (TrimPrefix p "/")).

(** The first [max] bytes ([io.LimitReader]). *)
Definition limited (max : Z) (s : string) : string := str_take (Z.to_nat max) s.

Definition MaxLine : nat := 512 * 1024.
Definition splitLines (s : string) : list string := List.filter (negb ∘ is_empty) (map TrimSpace (scan_lines MaxLine s).1).

Definition runLimitedLines (v : view) (cmd : list string) (maxBytes : Z) : string + list string * bool :=
  match v_run v cmd with
  | NotStarted => inl "start command"%string
  | Unread => inl "read command output"%string
  | Ran output Exited => let b := limited maxBytes output in inr (splitLines b, maxBytes <=? strlen b)
  | Ran _ DeadlineExceeded => inl "command timeout"%string
  | Ran _ FailedExit => inl "command failed"%string
  end.

(** ** The operating system *)

Definition release_line (m : gmap string string) (line : string) : gmap string string :=
  let line := TrimSpace line in
  if is_empty line || HasPrefix line "#" then m else
  match Cut line "="%char with
  | None => m
  | Some (k, v) =>
    let k := TrimSpace k in
    let v := trim_quotes (TrimSpace v) in
    if is_empty k then m else <[ToLower k := v]> m
  end.
Definition parseOSRelease (s : string) : gmap string string := fold_left release_line (scan_lines MaxScanTokenSize s).1 ∅.

(** The pairs of one map written over another. *)
Definition merged (info : gmap string json) (m : gmap string string) : gmap string json := (JStr <$> m) ∪ info.

Definition uname (v : view) (flag key : string) (info : gmap string json) : gmap string json :=
  match v_run v ["uname"%string; flag] with Ran out Exited => <[key := JStr (TrimSpace out)]> info | _ => info end.

Definition collectOS (goos goarch : string) (v : view) : gmap string json :=
  let info : gmap string json := list_to_map [("goos"%string, JStr goos); ("goarch"%string, JStr goarch)] in
  let info := match v_file v "/etc/os-release" with Some b => merged info (parseOSRelease b) | None => info end in
  uname v "-m" "machine" (uname v "-r" "kernel_release" info).

(** ** Package managers *)

Definition capped (opts : Options) (pkgs : list PackageEntry) : list PackageEntry := take (Z.to_nat (o_MaxPackages opts)) pkgs.
Definition list_warnings (opts : Options) (lines : list string) (truncated : bool) : list string :=
  (if truncated then ["package_list_truncated"%string] else []) ++
  (if o_MaxPackages opts <? Z.of_nat (length lines) then ["package_list_capped"%string] else []).

(** The loop over the lines of a command, which stops at [MaxPackages] packages. *)
Definition run_lines (v : view) (opts : Options) (cmd : list string) (entry : string → option PackageEntry) : string + list PackageEntry * list string :=
  match runLimitedLines v cmd (o_MaxOutputBytes opts) with
  | inl e => inl e
  | inr (lines, truncated) => inr (capped opts (omap entry lines), list_warnings opts lines truncated)
  end.

(** Name, version and architecture between tabs (dpkg-query, rpm). *)
Definition tabbed (ln : string) : option PackageEntry :=
  match Split ln tab with
  | name :: version :: rest =>
    if is_empty name || is_empty version then None else Some {| pe_Name := name; pe_Version := version; pe_Arch := default EmptyString (head rest) |}
  | _ => None
  end.
Definition runDpkg (v : view) (opts : Options) : string + list PackageEntry * list string :=
  run_lines v opts ["dpkg-query"%string; "-W"%string; "-f=${Package}\t${Version}\t${Architecture}\n"%string] tabbed.
Definition runRPM (v : view) (opts : Options) : string + list PackageEntry * list string :=
  run_lines v opts ["rpm"%string; "-qa"%string; "--qf"%string; "%{NAME}\t%{VERSION}-%{RELEASE}\t%{ARCH}\n"%string] tabbed.
Definition runRPMWithDBPath (v : view) (opts : Options) (dbPath : string) : string + list PackageEntry * list string :=
  run_lines v opts ["rpm"%string; "--dbpath"%string; dbPath; "-qa"%string; "--qf"%string; "%{NAME}\t%{VERSION}-%{RELEASE}\t%{ARCH}\n"%string] tabbed.

Definition pacman_line (ln : string) : option PackageEntry :=
  match Fields ln with name :: version :: _ => Some {| pe_Name := name; pe_Version := version; pe_Arch := "" |} | _ => None end.
Definition runPacman (v : view) (opts : Options) : string + list PackageEntry * list string := run_lines v opts ["pacman"%string; "-Q"%string] pacman_line.

(** [nameVer[:idx]] and [nameVer[idx+1:]] at the last hyphen, when both are not empty. *)
Definition split_last_hyphen (nameVer : string) : option (string * string) :=
  match last_index_byte "-"%char (to_chars nameVer) with
  | Some idx =>
    let name := str_take idx nameVer in
    let ver := str_drop (S idx) nameVer in
    if is_empty name || is_empty ver then None else Some (name, ver)
  | None => None
  end.
Definition apk_line (ln : string) : option PackageEntry :=
  match Fields ln with
  | nameVer :: _ => '(name, ver) ← split_last_hyphen nameVer; Some {| pe_Name := name; pe_Version := ver; pe_Arch := "" |}
  | [] => None
  end.
Definition runAPK (v : view) (opts : Options) : string + list PackageEntry * list string := run_lines v opts ["apk"%string; "info"%string; "-vv"%string] apk_line.

(** ** Package databases of a mounted root (hostdb.go) *)

Definition defaultMaxOutputBytes : Z := 8 * 2 ^ 20.
Definition defaultMaxPackages : Z := 50000.
Definition default_to (d n : Z) : Z := if n <=? 0 then d else n.

(** A parser of stanzas: what a line that is not blank does to the current
    stanza, and the package the stanza makes at a blank line or at the end. *)
Record stanza_parser := { sp_state : Type; sp_empty : sp_state; sp_line : sp_state → string → sp_state; sp_flush : sp_state → option PackageEntry }.

Section stanzas.
Context (P : stanza_parser) (maxPkgs : Z).

(** The loop over the lines: the packages, the last stanza, and whether the cap
    ended the loop. *)
Fixpoint stanza_lines (lines : list string) (cur : sp_state P) (pkgs : list PackageEntry) : list PackageEntry * sp_state P * bool :=
  match lines with
  | [] => (pkgs, cur, false)
  | ln :: lines =>
    if is_empty (TrimSpace ln) then
      let pkgs := (pkgs ++ option_list (sp_flush P cur))%list in
      if maxPkgs <=? Z.of_nat (length pkgs) then (pkgs, sp_empty P, true) else stanza_lines lines (sp_empty P) pkgs
    else stanza_lines lines (sp_line P cur ln) pkgs
  end.

Definition parse_stanzas (content : string) : string + list PackageEntry * list string :=
  let '(lines, ok) := scan_lines MaxLine content in
  match stanza_lines lines (sp_empty P) [] with
  | (pkgs, _, true) => inr (pkgs, ["package_list_capped"%string])
  | (pkgs, cur, false) => if ok then inr ((pkgs ++ option_list (sp_flush P cur))%list, []) else inl "bufio.Scanner: token too long"%string
  end.
End stanzas.

Definition dpkg_line (cur : gmap string string) (ln : string) : gmap string string :=
  match Cut ln ":"%char with
  | None => cur
  | Some (k, v) =>
    let k := ToLower (TrimSpace k) in
    let v := TrimSpace v in
    if is_empty k then cur else <[k := v]> cur
  end.
Definition field (cur : gmap string string) (k : string) : string := TrimSpace (default EmptyString (cur !! k)).
Definition dpkg_flush (cur : gmap string string) : option PackageEntry :=
  let name := field cur "package" in
  let ver := field cur "version" in
  let status := field cur "status" in
  if is_empty name || is_empty ver then None else
  if negb (Contains status "install") || negb (Contains status "installed") then None else
  Some {| pe_Name := name; pe_Version := ver; pe_Arch := field cur "architecture" |}.
Definition dpkg_parser : stanza_parser := {| sp_empty := ∅; sp_line := dpkg_line; sp_flush := dpkg_flush |}.

(** [pkgs] is nil until a package is appended. *)
Definition nil_slice {A} (l : list A) : option (list A) := match l with [] => None | _ => Some l end.

Definition parseDpkgStatus (v : view) (path : string) (maxBytes maxPkgs : Z) : string + option (list PackageEntry) * list string :=
  let maxBytes := default_to defaultMaxOutputBytes maxBytes in
  let maxPkgs := default_to defaultMaxPackages maxPkgs in
  match v_file v path with
  | None => inl "open"%string
  | Some content =>
    match parse_stanzas dpkg_parser maxPkgs (limited maxBytes content) with
    | inl e => inl e
    | inr (pkgs, warns) => inr (nil_slice pkgs, warns)
    end
  end.

Definition apk_entry_line (cur : PackageEntry) (ln : string) : PackageEntry :=
  match to_chars (TrimSpace ln) with
  | k :: ":"%char :: rest =>
    let value := TrimSpace (of_chars rest) in
    if Ascii.eqb k "P" then {| pe_Name := value; pe_Version := pe_Version cur; pe_Arch := pe_Arch cur |}
    else if Ascii.eqb k "V" then {| pe_Name := pe_Name cur; pe_Version := value; pe_Arch := pe_Arch cur |}
    else if Ascii.eqb k "A" then {| pe_Name := pe_Name cur; pe_Version := pe_Version cur; pe_Arch := value |}
    else cur
  | _ => cur
  end.
Definition apk_flush (cur : PackageEntry) : option PackageEntry := if is_empty (pe_Name cur) || is_empty (pe_Version cur) then None else Some cur.
Definition apk_parser : stanza_parser :=
  {| sp_empty := {| pe_Name := ""; pe_Version := ""; pe_Arch := "" |}; sp_line := apk_entry_line; sp_flush := apk_flush |}.

Definition parseApkInstalled (v : view) (path : string) (maxBytes maxPkgs : Z) : string + option (list PackageEntry) * list string :=
  let maxBytes := default_to defaultMaxOutputBytes maxBytes in
  let maxPkgs := default_to defaultMaxPackages maxPkgs in
  match v_file v path with
  | None => inl "open"%string
  | Some content =>
    match parse_stanzas apk_parser maxPkgs (limited maxBytes content) with
    | inl e => inl e
    | inr (pkgs, warns) => inr (Some pkgs, warns)
    end
  end.

(** The value after each heading; the last one of a heading counts. *)
Fixpoint desc_lines (lines : list string) (cur : PackageEntry) : PackageEntry :=
  match lines with
  | [] => cur
  | ln :: rest =>
    let ln := TrimSpace ln in
    desc_lines rest
      match rest with
      | [] => cur
      | next :: _ =>
        let value := TrimSpace next in
        if str_eqb ln "%NAME%" then {| pe_Name := value; pe_Version := pe_Version cur; pe_Arch := pe_Arch cur |}
        else if str_eqb ln "%VERSION%" then {| pe_Name := pe_Name cur; pe_Version := value; pe_Arch := pe_Arch cur |}
        else if str_eqb ln "%ARCH%" then {| pe_Name := pe_Name cur; pe_Version := pe_Version cur; pe_Arch := value |}
        else cur
      end
  end.
Definition parsePacmanDesc (s : string) : PackageEntry := desc_lines (Split s newline) {| pe_Name := ""; pe_Version := ""; pe_Arch := "" |}.

Definition pacman_entry (v : view) (dir : string) (e : string * bool) : option PackageEntry :=
  let '(name, isdir) := e in
  if negb isdir then None else
  content ← v_file v (JoinPath (JoinPath dir name) "desc");
  let p := parsePacmanDesc content in
  if is_empty (pe_Name p) || is_empty (pe_Version p) then None else Some p.
Definition parsePacmanLocal (v : view) (dir : string) (maxPkgs : Z) : string + option (list PackageEntry) * list string :=
  let maxPkgs := default_to defaultMaxPackages maxPkgs in
  match v_dir v dir with
  | None => inl "open"%string
  | Some entries =>
    let pkgs := omap (pacman_entry v dir) entries in
    inr (Some (take (Z.to_nat maxPkgs) pkgs), if maxPkgs <=? Z.of_nat (length pkgs) then ["package_list_capped"%string] else [])
  end.

(** ** Collection *)

(** The result of a source of packages, under the name of its manager. *)
Definition managed (manager : string) (warns : list string) (r : string + option (list PackageEntry) * list string) : string + option (list PackageEntry) * string * list string :=
  match r with inl e => inl e | inr (pkgs, w) => inr (pkgs, manager, (warns ++ w)%list) end.
Definition listed (r : string + list PackageEntry * list string) : string + option (list PackageEntry) * list string :=
  match r with inl e => inl e | inr (pkgs, w) => inr (Some pkgs, w) end.

Definition native_packages (v : view) (opts : Options) (warns : list string) : string + option (list PackageEntry) * string * list string :=
  if v_path v "dpkg-query" then managed "dpkg" warns (listed (runDpkg v opts))
  else if v_path v "rpm" then managed "rpm" warns (listed (runRPM v opts))
  else if v_path v "pacman" then managed "pacman" warns (listed (runPacman v opts))
  else if v_path v "apk" then managed "apk" warns (listed (runAPK v opts))
  else inr (Some [], "unknown"%string, ["no_package_manager_detected"%string]).

Definition collectPackages (v : view) (opts : Options) : string + option (list PackageEntry) * string * list string :=
  let hr := TrimSpace (o_HostRoot opts) in
  if is_empty hr then native_packages v opts [] else
  let dpkg := filepathJoinClean hr "/var/lib/dpkg/status" in
  let apk := filepathJoinClean hr "/lib/apk/db/installed" in
  let pacman := filepathJoinClean hr "/var/lib/pacman/local" in
  let rpm := filepathJoinClean hr "/var/lib/rpm" in
  if v_regular v dpkg then managed "dpkg" [] (parseDpkgStatus v dpkg (o_MaxOutputBytes opts) (o_MaxPackages opts))
  else if v_regular v apk then managed "apk" [] (parseApkInstalled v apk (o_MaxOutputBytes opts) (o_MaxPackages opts))
  else if v_isdir v pacman then managed "pacman" [] (parsePacmanLocal v pacman (o_MaxPackages opts))
  else if v_isdir v rpm then
    if v_path v "rpm" then managed "rpm" [] (listed (runRPMWithDBPath v opts rpm))
    else native_packages v opts ["rpm_db_found_but_rpm_binary_missing"%string]
  else native_packages v opts [].

Definition row (p : PackageEntry) : string := pe_Name p +:+ String tab (pe_Version p +:+ String tab (pe_Arch p)).
(** What is hashed: the sorted rows, each ended by a newline. *)
Definition hashed_text (pkgs : list PackageEntry) : string :=
  String.concat "" (map (λ r, r +:+ String newline "") (merge_sort String.le (map row pkgs))).

Section collect.
Context (sha256_hex : string → string) (goos goarch : string).

Definition hashPackages (pkgs : list PackageEntry) : string := sha256_hex (hashed_text pkgs).

Definition with_defaults (opts : Options) : Options := {|
  o_CmdTimeout := default_to (10 * second) (o_CmdTimeout opts);
  o_MaxOutputBytes := default_to defaultMaxOutputBytes (o_MaxOutputBytes opts);
  o_MaxPackages := default_to defaultMaxPackages (o_MaxPackages opts);
  o_HostRoot := o_HostRoot opts; o_NetCtxCaps := o_NetCtxCaps opts |}.

Definition host_os (v : view) (hostRoot : string) : gmap string json :=
  let osInfo := collectOS goos goarch v in
  let hr := TrimSpace hostRoot in
  if is_empty hr then osInfo else
  match v_file v (filepathJoinClean hr "/etc/os-release") with
  | Some b => <["host_root" := JStr hr]> (merged osInfo (parseOSRelease b))
  | None => osInfo
  end.

Definition extra_of (v : view) (opts : Options) (warns : list string) : gmap string json :=
  let extra : gmap string json := match warns with [] => ∅ | _ => {["warnings" := JArr (map JStr warns)]} end in
  match Netctx.Collect (v_host v) (o_NetCtxCaps opts) with
  | Some nc => <["network_context" := ToInventoryMap nc]> extra
  | None => extra
  end.

Definition Collect (now : time) (v : view) (opts : Options) : string + Result :=
  let opts := with_defaults opts in
  match collectPackages v opts with
  | inl e => inl e
  | inr (pkgs, manager, warns) =>
    let l := default [] pkgs in
    inr {| r_Snapshot := {| is_SchemaVersion := 1; is_CollectedAt := Some now; is_OS := Some (host_os v (o_HostRoot opts));
             is_Packages := pkgs; is_PackagesHash := hashPackages l; is_PackagesCount := Z.of_nat (length l);
             is_Manager := manager; is_Extra := Some (extra_of v opts warns) |};
           r_Warnings := warns |}
  end.
End collect.

(** ** Proofs: the hash *)

Lemma concat_cons r rs : String.concat "" (r :: rs) = r +:+ String.concat "" rs.
Proof. destruct rs; cbn; [|done]. apply string_eq. rewrite to_chars_app. cbn. by rewrite app_nil_r. Qed.

Lemma ended_rows_inj rs rs' : Forall (λ r, newline ∉ to_chars r) rs → Forall (λ r, newline ∉ to_chars r) rs' →
  String.concat "" (map (λ r, r +:+ String newline "") rs) = String.concat "" (map (λ r, r +:+ String newline "") rs') → rs = rs'.
Proof.
  intros Hrs. revert rs'. induction Hrs as [|r rs Hr Hrs IH]; intros rs' Hrs' E; destruct Hrs' as [|r' rs' Hr' Hrs'];
    cbn [map] in E; rewrite ?concat_cons in E; apply (f_equal to_chars) in E; rewrite ?to_chars_app in E; cbn in E; rewrite <- ?app_assoc in E.
  - done.
  - by apply app_cons_not_nil in E.
  - by apply eq_sym, app_cons_not_nil in E.
  - apply ended_app_inj in E as [E1 E2]; [|done|done]. apply string_eq in E1 as ->. f_equal. apply IH; [done|]. by apply string_eq.
Qed.

(** A package whose fields hold neither of the two separators of a row. *)
Definition plain_field (s : string) : Prop := tab ∉ to_chars s ∧ newline ∉ to_chars s.
Definition plain_entry (p : PackageEntry) : Prop := plain_field (pe_Name p) ∧ plain_field (pe_Version p) ∧ plain_field (pe_Arch p).
#[export] Instance plain_entry_dec p : Decision (plain_entry p).
Proof. unfold plain_entry, plain_field. apply _. Defined.

Lemma row_chars p : to_chars (row p) = to_chars (pe_Name p) ++ tab :: to_chars (pe_Version p) ++ tab :: to_chars (pe_Arch p).
Proof. unfold row. rewrite to_chars_app. cbn. by rewrite to_chars_app. Qed.

Lemma row_inj p q : plain_entry p → plain_entry q → row p = row q → p = q.
Proof.
  intros ([? ?] & [? ?] & [? ?]) ([? ?] & [? ?] & [? ?]) E. apply (f_equal to_chars) in E. rewrite !row_chars in E.
  apply ended_app_inj in E as [En E]; [|done|done]. apply ended_app_inj in E as [Ev Ea]; [|done|done].
  apply string_eq in En, Ev, Ea. destruct p, q; cbn in *; congruence.
Qed.

Lemma row_one_line p : plain_entry p → newline ∉ to_chars (row p).
Proof.
  intros ([? ?] & [? ?] & [? ?]). rewrite row_chars, !not_elem_of_app, !not_elem_of_cons, !not_elem_of_app, !not_elem_of_cons. naive_solver.
Qed.

Lemma rows_inj ps qs : Forall plain_entry ps → Forall plain_entry qs → map row ps ≡ₚ map row qs → ps ≡ₚ qs.
Proof.
  revert qs. induction ps as [|p ps IH]; intros qs Hp Hq E; cbn in E.
  { apply Permutation_nil, map_eq_nil in E as ->. done. }
  apply Forall_cons in Hp as [Hp Hps]. assert (row p ∈ map row qs) as Hin by (rewrite <- E; apply list_elem_of_here).
  apply list_elem_of_fmap in Hin as (q & Er & Hq'). apply row_inj in Er as ->; [|done|by eapply Forall_forall in Hq].
  apply elem_of_Permutation in Hq' as [qs' E']. rewrite E' in E |- *. cbn in E. constructor. apply IH; [done| |by apply Permutation_cons_inv in E].
  rewrite E' in Hq. by apply Forall_cons in Hq as [_ ?].
Qed.

Lemma hashed_text_inj ps qs : Forall plain_entry ps → Forall plain_entry qs → hashed_text ps = hashed_text qs → ps ≡ₚ qs.
Proof.
  intros Hp Hq E. apply rows_inj; [done|done|]. rewrite <- (merge_sort_Permutation String.le (map row ps)), <- (merge_sort_Permutation String.le (map row qs)).
  assert (∀ l, Forall plain_entry l → Forall (λ r, newline ∉ to_chars r) (merge_sort String.le (map row l))) as H.
  { intros l Hl. rewrite merge_sort_Permutation. apply Forall_fmap. eapply Forall_impl; [exact Hl|]. exact row_one_line. }
  by rewrite (ended_rows_inj _ _ (H _ Hp) (H _ Hq) E).
Qed.

Lemma hashed_text_perm ps qs : ps ≡ₚ qs → hashed_text ps = hashed_text qs.
Proof.
  intros E. unfold hashed_text. do 2 f_equal. apply (StronglySorted_unique String.le); [apply (StronglySorted_merge_sort _)|apply (StronglySorted_merge_sort _)|].
  rewrite !merge_sort_Permutation. by apply fmap_Permutation.
Qed.

(** The hash of an inventory stands for the inventory.  As long as SHA-256 does not
    collide on the two texts, two lists of packages whose fields hold no tab and no line
    end have the same hash exactly when they list the same packages, each as often, in
    whatever order the package manager printed them. *)
Theorem hash_is_order_free sha256_hex ps qs : Forall plain_entry ps → Forall plain_entry qs →
  (sha256_hex (hashed_text ps) = sha256_hex (hashed_text qs) → hashed_text ps = hashed_text qs) →
  hashPackages sha256_hex ps = hashPackages sha256_hex qs ↔ ps ≡ₚ qs.
Proof.
  intros Hp Hq Hinj. unfold hashPackages. split; [intros E; by apply hashed_text_inj, Hinj|].
  intros E. by rewrite (hashed_text_perm ps qs E).
Qed.

(** ** Proofs: the database of dpkg *)

Lemma TrimSpace_space s : TrimSpace (String " " s) = TrimSpace s.
Proof. unfold TrimSpace, trim_chars, strip_left. cbn [to_chars]. by change (to_chars (String " " s)) with ([" "%char] ++ to_chars s); rewrite strip_spaces by repeat constructor. Qed.

Lemma strip_rev_keeps l a : plain a → strip_rev (l ++ [a]) ≠ [].
Proof.
  intros Ha. induction l as [l IH] using (induction_ltof1 _ length). unfold ltof in IH.
  destruct l as [|x [|y [|z l]]]; cbn -[space1 space2 space3].
  - by rewrite (proj2 Ha).
  - rewrite (proj2 Ha), plain_space2 by done. by destruct (space1 x).
  - rewrite plain_space3 by done. specialize (IH [y]). rewrite (proj2 Ha), plain_space2 by done.
    destruct (space1 x); [by destruct (space1 y)|]. by destruct (space2 y x).
  - pose proof (IH (y :: z :: l)) as H1. pose proof (IH (z :: l)) as H2. pose proof (IH l) as H3. cbn [length] in *.
    destruct (space1 x); [apply H1; lia|]. destruct (space2 y x); [apply H2; lia|]. destruct (space3 z y x); [apply H3; lia|done].
Qed.

Lemma TrimSpace_starts a s : plain a → is_empty (TrimSpace (String a s)) = false.
Proof.
  intros Ha. apply is_empty_false. intros E. apply (f_equal to_chars) in E. unfold TrimSpace in E. rewrite to_of_chars in E. unfold trim_chars, strip_left in E.
  change (to_chars (String a s)) with (a :: to_chars s) in E. rewrite strip_id in E by by apply head_plain. rewrite reverse_cons in E.
  apply (f_equal reverse) in E. rewrite reverse_involutive in E. by apply strip_rev_keeps in E.
Qed.

(** A text of lines, each ended by a newline. *)
Definition text_of (lines : list string) : string := String.concat "" (map (λ r, r +:+ String newline "") lines).
Definition line_ok (s : string) : Prop := newline ∉ to_chars s ∧ carriage_return ∉ to_chars s ∧ (length (to_chars s) < MaxLine)%nat.

Lemma split_line l rest : newline ∉ l → split_chars newline (l ++ newline :: rest) = l :: split_chars newline rest.
Proof.
  induction l as [|a l IH]; intros Hl; [done|]. apply not_elem_of_cons in Hl as [Ha Hl]. cbn [app split_chars].
  destruct (Ascii.eqb_spec a newline); [congruence|]. by rewrite IH.
Qed.

Lemma drop_cr_none l : carriage_return ∉ l → drop_cr l = l.
Proof.
  intros Hl. unfold drop_cr. destruct (reverse l) as [|a r] eqn:E.
  { apply (f_equal reverse) in E. by rewrite reverse_involutive in E. }
  destruct (Ascii.eqb_spec a carriage_return) as [->|?]; [|done].
  exfalso. apply Hl. apply elem_of_reverse. rewrite E. apply list_elem_of_here.
Qed.

Lemma scan_pieces_line max l rest : l ≠ [] ∨ rest ≠ [] → (length l < max)%nat →
  scan_pieces max (l :: rest) = let '(out, ok) := scan_pieces max rest in (of_chars (drop_cr l) :: out, ok).
Proof. intros H Hl. cbn [scan_pieces]. rewrite (proj2 (Nat.leb_gt _ _)) by done. destruct l, rest; naive_solver. Qed.

Lemma split_nonempty c l : split_chars c l ≠ [].
Proof. destruct l as [|a l]; [done|]. cbn. destruct (Ascii.eqb a c); [done|]. by destruct (split_chars c l). Qed.

Lemma scan_text lines : Forall line_ok lines → scan_lines MaxLine (text_of lines) = (lines, true).
Proof.
  unfold scan_lines, text_of. induction 1 as [|l lines (Hn & Hc & Hlen) Hls IH]; [done|].
  cbn [map]. rewrite concat_cons, to_chars_app, to_chars_app. change (to_chars (String newline "")) with [newline]. rewrite <- app_assoc.
  cbn [app]. rewrite split_line, scan_pieces_line, IH, drop_cr_none, of_to_chars by (done || (right; apply split_nonempty)). done.
Qed.

(** A stanza of the database: a package and what it says of its status. *)
Definition dpkg_stanza (s : PackageEntry * string) : list string :=
  let '(p, status) := s in
  ["Package: " +:+ pe_Name p; "Status: " +:+ status; "Architecture: " +:+ pe_Arch p; "Version: " +:+ pe_Version p; ""%string].
Definition dpkg_database (l : list (PackageEntry * string)) : string := text_of (l ≫= dpkg_stanza).
Definition field_ok (s : string) : Prop := TrimSpace s = s ∧ newline ∉ to_chars s ∧ carriage_return ∉ to_chars s ∧ strlen s < 500000.
Definition stanza_ok (s : PackageEntry * string) : Prop :=
  field_ok (pe_Name s.1) ∧ field_ok (pe_Version s.1) ∧ field_ok (pe_Arch s.1) ∧ field_ok s.2 ∧ pe_Name s.1 ≠ "" ∧ pe_Version s.1 ≠ "".
Definition is_installed (s : PackageEntry * string) : bool := Contains s.2 "installed".

Lemma prefix_shorter p q s : String.prefix (p +:+ q) s = true → String.prefix p s = true.
Proof.
  revert s. induction p as [|a p IH]; intros s H; [by destruct s|]. destruct s as [|b s]; [done|]. unfold String.app in H. cbn in H |- *.
  destruct (ascii_dec a b); [|done]. by apply IH.
Qed.
Lemma Contains_shorter p q s : Contains s (p +:+ q) = true → Contains s p = true.
Proof.
  induction s as [|a s IH]; cbn [Contains]; rewrite !orb_true_iff; intros [H|H]; [left; by eapply prefix_shorter|done|left; by eapply prefix_shorter|right; by apply IH].
Qed.

Lemma prefixed_ok (p s : string) : field_ok s → newline ∉ to_chars p → carriage_return ∉ to_chars p → (length (to_chars p) < 100)%nat → line_ok (p +:+ s).
Proof.
  intros (_ & Hn & Hc & Hl) Hpn Hpc Hp. unfold line_ok. rewrite to_chars_app, !not_elem_of_app, length_app. split_and!; try done.
  rewrite strlen_chars in Hl. apply Nat2Z.inj_lt. unfold MaxLine. lia.
Qed.

Lemma before_byte_app k c s : c ∉ to_chars k → before_byte (k +:+ String c s) c = Some k.
Proof.
  unfold String.app. induction k as [|a k IH]; intros Hk; cbn; [by rewrite Ascii.eqb_refl|]. apply not_elem_of_cons in Hk as [Ha Hk].
  destruct (Ascii.eqb_spec a c); [congruence|]. by rewrite IH.
Qed.
Lemma length_chars k : String.length k = length (to_chars k).
Proof. pose proof (strlen_chars k). unfold strlen in *. lia. Qed.
Lemma str_drop_app k a s : str_drop (S (String.length k)) (k +:+ String a s) = s.
Proof.
  apply string_eq. unfold str_drop. rewrite to_of_chars, to_chars_app, length_chars. change (to_chars (String a s)) with ([a] ++ to_chars s).
  rewrite app_assoc. apply drop_app_length'. rewrite length_app. cbn. lia.
Qed.

(** One line of a stanza: it is not blank, and sets one field. *)
Lemma dpkg_line_read k s : match k with String a _ => plain a | EmptyString => False end → ":"%char ∉ to_chars k → TrimSpace k = k → ToLower k ≠ "" → TrimSpace s = s →
  is_empty (TrimSpace (k +:+ ": " +:+ s)) = false ∧ ∀ cur, dpkg_line cur (k +:+ ": " +:+ s) = <[ToLower k := s]> cur.
Proof.
  intros Hk Hc Ht He Hs. split; [destruct k; [done|by apply TrimSpace_starts]|]. intros cur. unfold dpkg_line, Cut.
  change (": " +:+ s) with (String ":" (String " " s)). rewrite before_byte_app by done. cbn [mbind option_bind].
  rewrite str_drop_app, TrimSpace_space, Hs, Ht. by rewrite (proj2 (is_empty_false _) He).
Qed.

Definition installed_of (s : PackageEntry * string) : list PackageEntry := if is_installed s then [s.1] else [].

Lemma dpkg_flush_stanza s : stanza_ok s →
  option_list (dpkg_flush (<["version" := pe_Version s.1]> (<["architecture" := pe_Arch s.1]> (<["status" := s.2]> (<["package" := pe_Name s.1]> ∅))))) = installed_of s.
Proof.
  destruct s as [[name ver arch] status]. intros ([Hn _] & [Hv _] & [Ha _] & [Hs _] & Hne & Hve). cbn [fst snd pe_Name pe_Version pe_Arch] in *.
  unfold dpkg_flush, field. rewrite !lookup_insert. repeat case_decide; try done. cbn [default from_option]. unfold id. rewrite Hn, Hv, Ha, Hs.
  rewrite (proj2 (is_empty_false _) Hne), (proj2 (is_empty_false _) Hve). cbn [orb]. unfold installed_of, is_installed. cbn [snd fst].
  destruct (Contains status "installed") eqn:E; [|by rewrite orb_true_r].
  by rewrite (Contains_shorter "install" "ed" status E).
Qed.

Lemma dpkg_stanza_read maxPkgs s rest pkgs : stanza_ok s → Z.of_nat (length (pkgs ++ installed_of s)) < maxPkgs →
  stanza_lines dpkg_parser maxPkgs (dpkg_stanza s ++ rest) ∅ pkgs = stanza_lines dpkg_parser maxPkgs rest ∅ (pkgs ++ installed_of s).
Proof.
  intros Hok Hlen. pose proof (dpkg_flush_stanza s Hok) as Hf. destruct s as [p status]. destruct Hok as ([Hn _] & [Hv _] & [Ha _] & [Hs _] & _ & _). cbn [fst snd] in *.
  assert (∀ k, bool_decide (":"%char ∉ to_chars k) = true → ":"%char ∉ to_chars k) as Hcol by (intros k; apply bool_decide_eq_true).
  assert (∀ a, bool_decide (plain a) = true → plain a) as Hpl by (intros a; apply bool_decide_eq_true).
  destruct (dpkg_line_read "Package" (pe_Name p)) as [Bn Rn]; [by apply Hpl|by apply Hcol|done..|].
  destruct (dpkg_line_read "Status" status) as [Bs Rs]; [by apply Hpl|by apply Hcol|done..|].
  destruct (dpkg_line_read "Architecture" (pe_Arch p)) as [Ba Ra]; [by apply Hpl|by apply Hcol|done..|].
  destruct (dpkg_line_read "Version" (pe_Version p)) as [Bv Rv]; [by apply Hpl|by apply Hcol|done..|].
  change (dpkg_stanza (p, status)) with ["Package" +:+ ": " +:+ pe_Name p; "Status" +:+ ": " +:+ status; "Architecture" +:+ ": " +:+ pe_Arch p; "Version" +:+ ": " +:+ pe_Version p; ""]%string.
  cbn [app stanza_lines]. rewrite Bn, Bs, Ba, Bv. change (is_empty (TrimSpace "")) with true. cbn [dpkg_parser sp_line sp_flush sp_empty sp_state].
  rewrite Rn, Rs, Ra, Rv. change (ToLower "Package") with "package"%string. change (ToLower "Status") with "status"%string.
  change (ToLower "Architecture") with "architecture"%string. change (ToLower "Version") with "version"%string.
  rewrite Hf. by rewrite (proj2 (Z.leb_gt _ _)).
Qed.

Lemma dpkg_stanzas_read maxPkgs l pkgs : Forall stanza_ok l → Z.of_nat (length (pkgs ++ l ≫= installed_of)) < maxPkgs →
  stanza_lines dpkg_parser maxPkgs (l ≫= dpkg_stanza) ∅ pkgs = (pkgs ++ l ≫= installed_of, ∅, false).
Proof.
  intros Hl. revert pkgs. induction Hl as [|s l Hs Hl IH]; intros pkgs Hlen; cbn [mbind list_bind]; [by rewrite app_nil_r|].
  cbn [mbind list_bind] in Hlen. rewrite app_assoc in Hlen |- *. rewrite dpkg_stanza_read; [by apply IH|done|]. rewrite length_app in Hlen. lia.
Qed.

Lemma stanza_lines_ok l : Forall stanza_ok l → Forall line_ok (l ≫= dpkg_stanza).
Proof.
  assert (∀ p, bool_decide (newline ∉ to_chars p ∧ carriage_return ∉ to_chars p ∧ (length (to_chars p) < 100)%nat) = true → ∀ s, field_ok s → line_ok (p +:+ s)) as H.
  { intros p Hp%bool_decide_eq_true s Hs. apply prefixed_ok; tauto. }
  induction 1 as [|[p status] l (Hn & Hv & Ha & Hs & _) Hl IH]; [done|]. cbn [fst snd] in *. cbn [mbind list_bind]. apply Forall_app. split; [|done].
  cbn [dpkg_stanza]. repeat (constructor; [by (apply H; [done|])|]). constructor; [|done].
  split; [by apply not_elem_of_nil|]. split; [by apply not_elem_of_nil|]. apply Nat2Z.inj_lt. unfold MaxLine. rewrite Nat2Z.inj_mul. done.
Qed.

Lemma installed_packages l : l ≫= installed_of = map fst (List.filter is_installed l).
Proof. induction l as [|s l IH]; [done|]. rewrite bind_cons, IH. cbn [List.filter]. unfold installed_of. by destruct (is_installed s). Qed.

Lemma limited_all max s : strlen s <= max → limited max s = s.
Proof. rewrite strlen_chars. intros H. apply string_eq. unfold limited. rewrite to_chars_str_take. apply take_ge. lia. Qed.


(** ** Proofs: collection *)

Lemma omap_take_le {A B} (f : A → option B) n l : (length (take n (omap f l)) <= n)%nat.
Proof. rewrite length_take. lia. Qed.

Lemma stanza_lines_bound P max lines cur pkgs : 0 < max → Z.of_nat (length pkgs) < max →
  let '(out, _, capped) := stanza_lines P max lines cur pkgs in if capped : bool then Z.of_nat (length out) <= max else Z.of_nat (length out) < max.
Proof.
  intros Hmax. revert cur pkgs. induction lines as [|ln lines IH]; intros cur pkgs Hp; [done|]. cbn [stanza_lines].
  destruct (is_empty (TrimSpace ln)); [|by apply IH]. destruct (Z.leb_spec max (Z.of_nat (length (pkgs ++ option_list (sp_flush P cur))))); [|by apply IH].
  rewrite length_app. destruct (sp_flush P cur); cbn; lia.
Qed.

Lemma parse_stanzas_bound P max s pkgs w : 0 < max → parse_stanzas P max s = inr (pkgs, w) → Z.of_nat (length pkgs) <= max.
Proof.
  intros Hmax. unfold parse_stanzas. destruct (scan_lines MaxLine s) as [lines ok].
  pose proof (stanza_lines_bound P max lines (sp_empty P) [] Hmax Hmax) as H. destruct (stanza_lines P max lines (sp_empty P) []) as [[out cur] [|]]; [congruence|].
  destruct ok; [|done]. intros [= <- _]. rewrite length_app. destruct (sp_flush P cur); cbn; lia.
Qed.

(** The packages a source of packages can return. *)
Definition at_most (max : Z) (r : string + option (list PackageEntry) * list string) : Prop :=
  match r with inl _ => True | inr (pkgs, _) => Z.of_nat (length (default [] pkgs)) <= max end.
Definition at_most_managed (max : Z) (r : string + option (list PackageEntry) * string * list string) : Prop :=
  match r with inl _ => True | inr (pkgs, _, _) => Z.of_nat (length (default [] pkgs)) <= max end.

Lemma managed_bound max manager warns r : at_most max r → at_most_managed max (managed manager warns r).
Proof. by destruct r as [?|[? ?]]. Qed.
Lemma listed_bound opts v cmd entry : 0 < o_MaxPackages opts → at_most (o_MaxPackages opts) (listed (run_lines v opts cmd entry)).
Proof.
  intros Hmax. unfold run_lines. destruct (runLimitedLines v cmd (o_MaxOutputBytes opts)) as [?|[lines tr]]; [done|]. cbn.
  unfold capped. rewrite length_take. lia.
Qed.
Lemma default_to_pos d n : 0 < d → 0 < default_to d n.
Proof. intros Hd. unfold default_to. destruct (Z.leb_spec n 0); lia. Qed.
Lemma default_to_id d n : 0 < n → default_to d n = n.
Proof. intros Hn. unfold default_to. by rewrite (proj2 (Z.leb_gt _ _)). Qed.

Lemma default_nil_slice {A} (l : list A) : default [] (nil_slice l) = l.
Proof. by destruct l. Qed.

Lemma dpkg_bound v path b max : 0 < max → at_most max (parseDpkgStatus v path b max).
Proof.
  intros Hmax. unfold parseDpkgStatus. rewrite (default_to_id _ max) by done. destruct (v_file v path); [|done].
  destruct (parse_stanzas dpkg_parser max _) as [?|[pkgs w]] eqn:E; [done|]. cbn. rewrite default_nil_slice. by eapply parse_stanzas_bound.
Qed.
Lemma apk_bound v path b max : 0 < max → at_most max (parseApkInstalled v path b max).
Proof.
  intros Hmax. unfold parseApkInstalled. rewrite (default_to_id _ max) by done. destruct (v_file v path); [|done].
  destruct (parse_stanzas apk_parser max _) as [?|[pkgs w]] eqn:E; [done|]. by eapply parse_stanzas_bound.
Qed.
Lemma pacman_bound v dir max : 0 < max → at_most max (parsePacmanLocal v dir max).
Proof.
  intros Hmax. unfold parsePacmanLocal. rewrite (default_to_id _ max) by done. destruct (v_dir v dir); [|done]. cbn. rewrite length_take. lia.
Qed.

Lemma native_bound v opts w : 0 < o_MaxPackages opts → at_most_managed (o_MaxPackages opts) (native_packages v opts w).
Proof.
  intros Hmax. unfold native_packages. repeat (case_match; [apply managed_bound, listed_bound, Hmax|]). cbn. lia.
Qed.
Lemma collectPackages_bound v opts : 0 < o_MaxPackages opts → at_most_managed (o_MaxPackages opts) (collectPackages v opts).
Proof.
  intros Hmax. unfold collectPackages. destruct (is_empty _); [by apply native_bound|].
  destruct (v_regular v _); [by apply managed_bound, dpkg_bound|]. destruct (v_regular v _); [by apply managed_bound, apk_bound|].
  destruct (v_isdir v _); [by apply managed_bound, pacman_bound|]. destruct (v_isdir v _); [|by apply native_bound].
  destruct (v_path v _); [by apply managed_bound, listed_bound|by apply native_bound].
Qed.

(** The hash of a snapshot is that of its packages. *)
Lemma Collect_hash sha256_hex goos goarch now v opts r : Collect sha256_hex goos goarch now v opts = inr r →
  is_PackagesHash (r_Snapshot r) = hashPackages sha256_hex (default [] (is_Packages (r_Snapshot r))).
Proof. unfold Collect. destruct (collectPackages v (with_defaults opts)) as [?|[[pkgs manager] warns]]; [done|]. by intros [= <-]. Qed.

(** An inventory is bounded and describes itself.  Whatever the package databases and
    the commands hold, a snapshot lists at most the configured number of packages
    (50000 when it is not positive), its count is their number, its hash is the hash of
    what it lists, and its [warnings] are those the caller gets. *)
Theorem inventory_bounded sha256_hex goos goarch now v opts r : Collect sha256_hex goos goarch now v opts = inr r →
  let snap := r_Snapshot r in
  let pkgs := default [] (is_Packages snap) in
  Z.of_nat (length pkgs) <= default_to 50000 (o_MaxPackages opts) ∧ is_PackagesCount snap = Z.of_nat (length pkgs) ∧
  is_PackagesHash snap = hashPackages sha256_hex pkgs ∧
  (is_Extra snap ≫= (.!! "warnings"%string)) = match r_Warnings r with [] => None | w => Some (JArr (map JStr w)) end.
Proof.
  unfold Collect. pose proof (collectPackages_bound v (with_defaults opts)) as Hb. cbn [with_defaults o_MaxPackages] in Hb.
  specialize (Hb (default_to_pos defaultMaxPackages _ eq_refl)). destruct (collectPackages v (with_defaults opts)) as [?|[[pkgs manager] warns]]; [done|].
  intros [= <-]. cbn [r_Snapshot r_Warnings is_Packages is_PackagesCount is_PackagesHash is_Extra mbind option_bind]. split_and!; [exact Hb|done..|].
  unfold extra_of. set (base := match warns with [] => _ | _ => _ end).
  assert (base !! "warnings"%string = match warns with [] => None | w => Some (JArr (map JStr w)) end) as Hw by (subst base; destruct warns; [apply lookup_empty|by simplify_map_eq]).
  transitivity (base !! "warnings"%string); [destruct (Netctx.Collect _ _); [by rewrite lookup_insert_ne|done]|]. rewrite Hw. by destruct warns.
Qed.

(** ** Examples *)

Definition demo_host : host := {| h_ifaces := None; h_dockerenv := false; h_cgroup := None; h_arp := None; h_route := None; h_ipv6_route := None; h_resolv := None; h_hostname := None |}.
Definition demo_pkg (n v a : string) : PackageEntry := {| pe_Name := n; pe_Version := v; pe_Arch := a |}.
Definition demo_db : list (PackageEntry * string) :=
  [(demo_pkg "bash" "5.2-1" "amd64", "install ok installed"); (demo_pkg "vim" "9.1" "amd64", "deinstall ok config-files"); (demo_pkg "zlib1g" "1:1.3" "", "hold ok installed")]%string.
Definition demo_view : view := {|
  v_file := λ p, if str_eqb p "/host/var/lib/dpkg/status" then Some (dpkg_database demo_db) else if str_eqb p "/host/etc/os-release" then Some (text_of ["ID=debian"; "# x"; "VERSION='12'"]%string) else None;
  v_regular := λ p, str_eqb p "/host/var/lib/dpkg/status"; v_isdir := λ _, false; v_dir := λ _, None;
  v_path := λ p, str_eqb p "apk"; v_run := λ _, Ran (text_of ["musl-1.2.4-r2 - the musl c library"; "bad"]%string) Exited; v_host := demo_host |}.
Definition demo_opts (max : Z) (root : string) : Options :=
  {| o_CmdTimeout := 0; o_MaxOutputBytes := 0; o_MaxPackages := max; o_HostRoot := root; o_NetCtxCaps := {| cp_MaxInterfaces := 0; cp_MaxNeighbors := 0; cp_MaxRoutes := 0; cp_MaxResolvers := 0 |} |}.
Definition packages_of (r : string + Result) : option (list PackageEntry * list string) :=
  match r with inr r => Some (default [] (is_Packages (r_Snapshot r)), r_Warnings r) | inl _ => None end.

Example dpkg_root : packages_of (Collect id "linux" "amd64" 0 demo_view (demo_opts 0 "/host")) = Some ([demo_pkg "bash" "5.2-1" "amd64"; demo_pkg "zlib1g" "1:1.3" ""], []).
Proof. vm_compute. reflexivity. Qed.
Example dpkg_capped : packages_of (Collect id "linux" "amd64" 0 demo_view (demo_opts 1 "/host")) = Some ([demo_pkg "bash" "5.2-1" "amd64"], ["package_list_capped"%string]).
Proof. vm_compute. reflexivity. Qed.
(** The release of an Alpine package is taken for its version when [apk] lists it. *)
Example apk_version_split : packages_of (Collect id "linux" "amd64" 0 demo_view (demo_opts 5 "")) = Some ([demo_pkg "musl-1.2.4" "r2" ""], []).
Proof. vm_compute. reflexivity. Qed.
(** A package that is not installed is listed, and a line that continues a field sets one. *)
Example not_installed_listed : parse_stanzas dpkg_parser 10 (text_of ["Package: a"; "Status: deinstall ok not-installed"; "Version: 1"; "Description: x"; " Version: 2"]%string) = inr ([demo_pkg "a" "2" ""], []).
Proof. vm_compute. reflexivity. Qed.

(** ** Witnesses *)

Lemma hash_is_order_free_witness : hashPackages id [demo_pkg "a" "1" ""; demo_pkg "b" "2" "x"] = hashPackages id [demo_pkg "b" "2" "x"; demo_pkg "a" "1" ""].
Proof.
  apply (hash_is_order_free id); [by apply (bool_decide_unpack _)..|done|]. apply Permutation_swap.
Defined.

#[export] Instance stanza_ok_dec s : Decision (stanza_ok s).
Proof. unfold stanza_ok, field_ok. apply _. Defined.

Lemma inventory_bounded_witness : ∃ r, Collect id "linux" "amd64" 0 demo_view (demo_opts 1 "/host") = inr r ∧ is_PackagesCount (r_Snapshot r) = 1.
Proof.
  eexists. split; [reflexivity|]. destruct (inventory_bounded id "linux" "amd64" 0 demo_view (demo_opts 1 "/host") _ eq_refl) as (_ & -> & _).
  vm_compute. reflexivity.
Defined.
