(* ===== verification/Exposure.v ===== *)
(** * Exposure: the network surface of a host (internal/collectors/vuln/exposure.go)

    [CollectHostExposure] reads the socket tables of the kernel and the open files
    of the processes, and summarises which ports listen, which of them can be reached
    from outside and which services are behind them.  The files of the host are an
    input; the order [sort.Slice] gives to equal elements is a parameter. *)

From stdpp Require Import pretty.
From S2P Require Import Prelude GoStr GoText GoFields GoJson Net GoIP Netctx Effects Flows.
From Stdlib Require Import Ascii.

Local Open Scope Z_scope.
Local Open Scope go_scope.

Record ExposureOptions := { eo_HostRoot : string; eo_MaxPorts : Z }.

Record PortService := {
  sv_Proto : string; sv_Port : Z; sv_Process : string; sv_PID : Z; sv_Exe : string; sv_Cmdline : string }.

Record HostExposure := {
  he_CollectedAt : time; he_ListeningPorts : list Z; he_ExposedPorts : list Z; he_HighRiskPorts : list Z;
  he_ServiceHints : list string; he_PortServices : list PortService; he_ListeningTCP : Z; he_ListeningUDP : Z;
  he_HasExposedPorts : bool; he_SurfaceScore : Z }.

Record procPort := { pp_Port : Z; pp_Proto : string; pp_IsLoopback : bool; pp_Inode : Z }.
Record procInfo := { pr_PID : Z; pr_Process : string; pr_Exe : string; pr_Cmdline : string }.

(** The host: files that can be opened, whether a path is a directory, the entries of
    a directory and whether they are directories, and the targets of links. *)
Record view := {
  v_file : string → option string; v_isdir : string → bool;
  v_dir : string → option (list (string * bool)); v_link : string → option string }.

(** ** Tables of known ports and names *)

Definition highRiskPorts : gset Z := list_to_set [22; 80; 443; 445; 3389; 5432; 3306; 6379; 9200; 5601; 6443; 2375; 2376].

Definition genericServerKeywords : list string :=
  ["server"; "daemon"; "proxy"; "http"; "nginx"; "apache"; "httpd"; "caddy"; "traefik";
   "haproxy"; "openssh"; "sshd"; "samba"; "xrdp"; "mysql"; "mariadb"; "postgres";
   "redis"; "mongodb"; "elastic"; "kibana"; "docker"; "containerd"; "kube"]%string.

Definition web_servers : list string := ["nginx"; "apache"; "httpd"; "caddy"; "traefik"; "haproxy"]%string.
Definition packageKeywordsByPort : gmap Z (list string) := list_to_map
  [(22, ["ssh"; "openssh"]); (53, ["bind"; "dns"; "dnsmasq"; "unbound"]); (80, web_servers); (443, web_servers);
   (445, ["samba"; "smb"]); (3389, ["xrdp"; "rdp"]); (3306, ["mysql"; "mariadb"]); (5432, ["postgres"]); (6379, ["redis"]);
   (9200, ["elasticsearch"; "opensearch"]); (5601, ["kibana"]); (2375, ["docker"]); (2376, ["docker"]); (6443, ["kube"; "kubernetes"])]%string.

(** ** Text *)

Definition containsAny (s : string) (patterns : list string) : bool := existsb (Contains s) patterns.

Definition normalizeText (s : string) (max : Z) : string :=
  let s := TrimSpace s in
  if (0 <? max) && (max <? strlen s) then str_take (Z.to_nat max) s else s.

Definition firstToken (s : string) : string :=
  let s := TrimSpace s in
  if is_empty s then "" else default EmptyString (head (Fields s)).

Definition TrimSuffix (s p : string) : string :=
  if HasSuffix s p then str_take (String.length s - String.length p) s else s.

(** The first candidate that names something. *)
Fixpoint service_of (candidates : list string) : string :=
  match candidates with
  | [] => ""
  | c :: candidates =>
    let c := TrimSuffix (norm c) ".bin" in
    if is_empty c || str_eqb c "-" || str_eqb c "." then service_of candidates else normalizeText c 64
  end.
Definition normalizeServiceName (process exe cmdline : string) : string :=
  service_of [process; Base exe; Base (firstToken cmdline)].

(** The number [strconv.ParseUint] returns with or without an error: 0 for a text
    that is not a number, the greatest value for one that is too large. *)
Fixpoint uint_value (acc : Z) (l : list ascii) : Z :=
  match l with
  | [] => acc
  | a :: l =>
    if negb (is_digit a) then 0 else
    let n := 10 * acc + Z.of_N (code a - 48) in
    if max_uint64 <? n then max_uint64 else uint_value n l
  end.

Definition splitAddr (v : string) : option (string * Z) :=
  i ← last_index_byte ":"%char (to_chars v);
  if (i =? 0)%nat || (String.length v <=? S i)%nat then None else
  let ipHex := TrimSpace (str_take i v) in
  let portHex := TrimSpace (str_drop (S i) v) in
  p ← ParseInt32 (parse_hex 0) portHex;
  Some (ipHex, p).

Definition isIPv4LoopbackHex (ipHex : string) : bool :=
  match hexIPv4LE ipHex with Some v => IsLoopback (IP 32 v) | None => false end.
Definition isIPv6LoopbackHex (ipHex : string) : bool :=
  if negb (strlen ipHex =? 32) then false else
  match hex_bytes (to_chars ipHex) with
  | Some bs => IsLoopback (norm_v6 (fold_left (λ v b, v * 256 + b) (swap_words bs) 0))
  | None => false
  end.

(** ** The socket tables *)

(** One row after the header. *)
Definition socket_row (tcp ipv6 : bool) (line : string) : option procPort :=
  let fields := Fields line in
  if (length fields <? 10)%nat then None else
  let st := TrimSpace (field fields 3) in
  if (if tcp then negb (str_eqb st "0A") else negb (str_eqb st "07") && negb (str_eqb st "0A")) then None else
  '(ipHex, port) ← splitAddr (field fields 1);
  if (port <=? 0) || (65535 <? port) then None else
  Some {| pp_Port := port; pp_Proto := if tcp then "tcp" else "udp";
          pp_IsLoopback := if ipv6 then isIPv6LoopbackHex ipHex else isIPv4LoopbackHex ipHex;
          pp_Inode := uint_value 0 (to_chars (TrimSpace (field fields 9))) |}.

(** The rows of a table: the header is the first line that is not blank.  A line that
    is too long ends the table with an error, the rows before it being returned. *)
Definition table_rows (tcp ipv6 : bool) (text : string) : list procPort :=
  omap (socket_row tcp ipv6) (drop 1 (List.filter (negb ∘ is_empty) (map TrimSpace (scan_lines MaxScanTokenSize text).1))).
Definition readProcPorts (v : view) (path : string) (tcp ipv6 : bool) : list procPort * bool :=
  match v_file v path with
  | None => ([], false)
  | Some text => (table_rows tcp ipv6 text, (scan_lines MaxScanTokenSize text).2)
  end.

(** ** The processes behind the sockets *)

Definition parseSocketInode (link : string) : option Z :=
  let s := TrimSpace link in
  if negb (HasPrefix s "socket:[") || negb (HasSuffix s "]") then None else
  let n := TrimSuffix (TrimPrefix s "socket:[") "]" in
  v ← ParseUint10 (TrimSpace n); if v =? 0 then None else Some v.

Definition readFirstLine (v : view) (path : string) : string :=
  match v_file v path with
  | None => ""
  | Some b => let s := TrimSpace b in default s (before_byte s newline)
  end.
Definition nul_to_space (a : ascii) : ascii := if N.eqb (code a) 0 then " "%char else a.
Definition readCmdline (v : view) (path : string) : string :=
  match v_file v path with None => "" | Some b => TrimSpace (of_chars (map nul_to_space (to_chars b))) end.
Definition readLinkTrim (v : view) (path : string) : string := match v_link v path with Some s => TrimSpace s | None => "" end.

Definition process_info (v : view) (procRoot name : string) (pid : Z) : procInfo := {|
  pr_PID := pid; pr_Process := readFirstLine v (JoinPath (JoinPath procRoot name) "comm");
  pr_Exe := readLinkTrim v (JoinPath (JoinPath procRoot name) "exe");
  pr_Cmdline := readCmdline v (JoinPath (JoinPath procRoot name) "cmdline") |}.

(** The open files of one process; a socket belongs to the first process that has it. *)
Definition fd_step (v : view) (fdDir : string) (target : gset Z) (info : procInfo) (out : gmap Z procInfo) (fd : string * bool) : gmap Z procInfo :=
  match (link ← v_link v (JoinPath fdDir fd.1); parseSocketInode link) with
  | Some inode => if bool_decide (inode ∈ target) && negb (bool_decide (is_Some (out !! inode))) then <[inode := info]> out else out
  | None => out
  end.

Definition process_fds (v : view) (procRoot : string) (target : gset Z) (out : gmap Z procInfo) (de : string * bool) : option (gmap Z procInfo) :=
  if negb de.2 then None else
  pid ← Atoi de.1;
  if pid <=? 0 then None else
  let fdDir := JoinPath (JoinPath procRoot de.1) "fd" in
  fds ← v_dir v fdDir;
  Some (fold_left (fd_step v fdDir target (process_info v procRoot de.1 pid)) fds out).

(** The loop over the processes; it ends when every socket has been found. *)
Fixpoint process_loop (v : view) (procRoot : string) (target : gset Z) (entries : list (string * bool)) (out : gmap Z procInfo) : gmap Z procInfo :=
  match entries with
  | [] => out
  | de :: entries =>
    match process_fds v procRoot target out de with
    | None => process_loop v procRoot target entries out
    | Some out => if (size target <=? size out)%nat then out else process_loop v procRoot target entries out
    end
  end.
Definition findProcessByInode (v : view) (procRoot : string) (target : gset Z) : gmap Z procInfo :=
  if (size target =? 0)%nat then ∅ else
  match v_dir v procRoot with None => ∅ | Some entries => process_loop v procRoot target entries ∅ end.

(** ** Services *)

Definition no_process : procInfo := {| pr_PID := 0; pr_Process := ""; pr_Exe := ""; pr_Cmdline := "" |}.
Definition process_of (procs : gmap Z procInfo) (s : procPort) : procInfo := default no_process (procs !! pp_Inode s).
Definition service_key (s : procPort) (p : procInfo) : string :=
  pp_Proto s +:+ ":" +:+ Itoa (pp_Port s) +:+ ":" +:+ Itoa (pr_PID p) +:+ ":" +:+ pr_Process p.
Definition port_service (s : procPort) (p : procInfo) : PortService := {|
  sv_Proto := pp_Proto s; sv_Port := pp_Port s; sv_Process := normalizeText (pr_Process p) 64; sv_PID := pr_PID p;
  sv_Exe := normalizeText (pr_Exe p) 256; sv_Cmdline := normalizeText (pr_Cmdline p) 512 |}.

Fixpoint port_services (procs : gmap Z procInfo) (sockets : list procPort) (seen : gset string) : list PortService :=
  match sockets with
  | [] => []
  | s :: sockets =>
    if pp_IsLoopback s then port_services procs sockets seen else
    let p := process_of procs s in
    let key := service_key s p in
    if bool_decide (key ∈ seen) then port_services procs sockets seen
    else port_service s p :: port_services procs sockets ({[key]} ∪ seen)
  end.

Fixpoint service_hints (l : list PortService) (seen : gset string) : list string :=
  match l with
  | [] => []
  | ps :: l =>
    let svc := normalizeServiceName (sv_Process ps) (sv_Exe ps) (sv_Cmdline ps) in
    if is_empty svc || bool_decide (svc ∈ seen) then service_hints l seen else svc :: service_hints l ({[svc]} ∪ seen)
  end.
Definition inferServiceHints (l : list PortService) : list string := merge_sort String.le (service_hints l ∅).

(** ** The summary *)

Definition sortedKeysInt (m : gset Z) (max : Z) : list Z :=
  let out := merge_sort Z.le (elements m) in
  if (0 <? max) && (max <? Z.of_nat (length out)) then take (Z.to_nat max) out else out.

Definition computeSurfaceScore (exposed highRisk : list Z) (hints : list string) (hasExposed : bool) : Z :=
  let score := Z.min (Z.of_nat (length exposed) * 6) 36 in
  let score := score + Z.min (Z.of_nat (length highRisk) * 10) 40 in
  let score := if (0 <? length hints)%nat then score + Z.min (Z.of_nat (length hints) * 4) 16 else score in
  let score := if hasExposed then score + 8 else score in
  if 100 <? score then 100 else score.

Definition is_tcp (s : procPort) : bool := str_eqb (pp_Proto s) "tcp".
Definition is_exposed (s : procPort) : bool := negb (pp_IsLoopback s).
Definition is_high_risk (s : procPort) : bool := is_exposed s && bool_decide (pp_Port s ∈ highRiskPorts).
Definition ports_with (f : procPort → bool) (sockets : list procPort) : gset Z := list_to_set (map pp_Port (List.filter f sockets)).
Definition count (f : procPort → bool) (sockets : list procPort) : Z := Z.of_nat (length (List.filter f sockets)).
Definition inodes_of (sockets : list procPort) : gset Z := list_to_set (List.filter (Z.ltb 0) (map pp_Inode sockets)).

Definition proc_root (v : view) (hostRoot : string) : string :=
  let hr := TrimSpace hostRoot in
  if is_empty hr then "/proc" else
  let cand := JoinPath hr "proc" in
  if v_isdir v cand then cand else "/proc".

(** What the four tables list; [None] when none can be read to its end. *)
Definition read_sockets (v : view) (procRoot : string) : option (list procPort) :=
  let '(tcp4, ok1) := readProcPorts v (JoinPath procRoot "net/tcp") true false in
  let '(tcp6, ok2) := readProcPorts v (JoinPath procRoot "net/tcp6") true true in
  let '(udp4, ok3) := readProcPorts v (JoinPath procRoot "net/udp") false false in
  let '(udp6, ok4) := readProcPorts v (JoinPath procRoot "net/udp6") false true in
  if negb ok1 && negb ok2 && negb ok3 && negb ok4 then None else Some ((tcp4 ++ tcp6) ++ (udp4 ++ udp6))%list.

Definition MatchesPackage (h : HostExposure) (pkgName : string) : bool :=
  let name := norm pkgName in
  if is_empty name || negb (he_HasExposedPorts h) then false else
  containsAny name genericServerKeywords ||
  existsb (λ s, Contains name s || Contains s name) (he_ServiceHints h) ||
  existsb (λ p, containsAny name (default [] (packageKeywordsByPort !! p))) (he_ExposedPorts h).

Section exposure.
(** [sort.Slice] by port, protocol and process. *)
Context (by_port : list PortService → list PortService).

Definition inferPortServices (sockets : list procPort) (procs : gmap Z procInfo) : list PortService := by_port (port_services procs sockets ∅).

Definition CollectHostExposure (now : time) (v : view) (opts : ExposureOptions) : string + HostExposure :=
  let maxPorts := if eo_MaxPorts opts <=? 0 then 512 else eo_MaxPorts opts in
  let procRoot := proc_root v (eo_HostRoot opts) in
  match read_sockets v procRoot with
  | None => inl "failed to read proc net sockets"%string
  | Some sockets =>
    let exposed := sortedKeysInt (ports_with is_exposed sockets) maxPorts in
    let highRisk := sortedKeysInt (ports_with is_high_risk sockets) maxPorts in
    let services := inferPortServices sockets (findProcessByInode v procRoot (inodes_of sockets)) in
    let hints := inferServiceHints services in
    inr {| he_CollectedAt := now; he_ListeningPorts := sortedKeysInt (ports_with (λ _, true) sockets) maxPorts;
           he_ExposedPorts := exposed; he_HighRiskPorts := highRisk; he_ServiceHints := hints; he_PortServices := services;
           he_ListeningTCP := count is_tcp sockets; he_ListeningUDP := count (negb ∘ is_tcp) sockets;
           he_HasExposedPorts := (0 <? length exposed)%nat;
           he_SurfaceScore := computeSurfaceScore exposed highRisk hints (0 <? length exposed)%nat |}
  end.
End exposure.

(** ** Proofs *)

(** [l] is the least [max] of the numbers that satisfy [P], in order and once each. *)
Definition least (max : Z) (P : Z → Prop) (l : list Z) : Prop :=
  ∃ all, StronglySorted Z.le all ∧ NoDup all ∧ (∀ p, p ∈ all ↔ P p) ∧ l = take (Z.to_nat max) all.

Lemma sortedKeysInt_least m max : 0 < max → least max (.∈ m) (sortedKeysInt m max).
Proof.
  intros Hmax. exists (merge_sort Z.le (elements m)). split_and!.
  - apply (StronglySorted_merge_sort _).
  - rewrite merge_sort_Permutation. apply NoDup_elements.
  - intros p. rewrite merge_sort_Permutation. apply elem_of_elements.
  - unfold sortedKeysInt. rewrite (proj2 (Z.ltb_lt 0 max)) by done. cbn [andb].
    destruct (Z.ltb_spec max (Z.of_nat (length (merge_sort Z.le (elements m))))); [done|]. rewrite take_ge by lia. done.
Qed.

Lemma least_iff max P Q l : (∀ p, P p ↔ Q p) → least max P l → least max Q l.
Proof. intros H (all & ? & ? & Hall & ?). exists all. split_and!; try done. intros p. by rewrite Hall. Qed.

Lemma elem_of_ports_with f sockets p : p ∈ ports_with f sockets ↔ ∃ s, s ∈ sockets ∧ f s = true ∧ pp_Port s = p.
Proof.
  unfold ports_with. rewrite elem_of_list_to_set, list_elem_of_fmap. split; intros (s & H).
  - destruct H as [-> Hs]. apply list_elem_of_In, filter_In in Hs as [Hs Hf]. exists s. by rewrite list_elem_of_In.
  - destruct H as (Hs & Hf & <-). exists s. split; [done|]. apply list_elem_of_In, filter_In. by rewrite <- list_elem_of_In.
Qed.

Lemma ports_least f sockets max : 0 < max → least max (λ p, ∃ s, s ∈ sockets ∧ f s = true ∧ pp_Port s = p) (sortedKeysInt (ports_with f sockets) max).
Proof. intros Hmax. eapply least_iff; [apply elem_of_ports_with|by apply sortedKeysInt_least]. Qed.

Lemma least_nonempty max P l : 0 < max → least max P l → (0 <? length l)%nat = true ↔ ∃ p, P p.
Proof.
  intros Hmax (all & _ & _ & Hall & ->). rewrite Nat.ltb_lt, length_take. split.
  - intros H. destruct all as [|p all]; cbn in H; [lia|]. exists p. apply Hall, list_elem_of_here.
  - intros [p Hp]. apply Hall in Hp. destruct all; [by apply elem_of_nil in Hp|]. cbn. lia.
Qed.

Lemma count_partition f sockets : count f sockets + count (negb ∘ f) sockets = Z.of_nat (length sockets).
Proof.
  unfold count. induction sockets as [|s sockets IH]; [done|]. cbn [List.filter compose]. destruct (f s); cbn [negb length] in *; lia.
Qed.

Lemma surface_score_range e r h x : 0 <= computeSurfaceScore e r h x <= 100.
Proof. unfold computeSurfaceScore. destruct (0 <? length h)%nat, x; case_match; lia. Qed.

(** The key of a service tells its protocol and its port. *)
Definition proto_ok (s : procPort) : Prop := ":"%char ∉ to_chars (pp_Proto s).
Lemma service_key_inj s p s' p' : proto_ok s → proto_ok s' → service_key s p = service_key s' p' →
  pp_Proto s = pp_Proto s' ∧ pp_Port s = pp_Port s' ∧ pr_PID p = pr_PID p' ∧ pr_Process p = pr_Process p'.
Proof.
  intros Hs Hs' E. apply (f_equal to_chars) in E. unfold service_key in E. rewrite !to_chars_app in E. change (to_chars ":") with [":"%char] in E. cbn [app] in E.
  assert (∀ z, ":"%char ∉ to_chars (Itoa z)) as Hi by (intros z; by apply not_elem_of_Itoa).
  assert (∀ x y, to_chars (Itoa x) = to_chars (Itoa y) → x = y) as Hinj by (intros x y H; apply string_eq in H; unfold Itoa in H; by apply (inj pretty) in H).
  apply ended_app_inj in E as [E1 E]; [|done|done]. apply ended_app_inj in E as [E2 E]; [|done|done]. apply ended_app_inj in E as [E3 E4]; [|done|done].
  apply string_eq in E1, E4. apply Hinj in E2, E3. done.
Qed.

(** Every socket that can be reached has an entry of its protocol, port and process. *)
Lemma port_services_complete procs sockets : ∀ seen, Forall proto_ok sockets →
  ∀ s, s ∈ sockets → is_exposed s = true → service_key s (process_of procs s) ∉ seen →
  ∃ s', s' ∈ sockets ∧ service_key s' (process_of procs s') = service_key s (process_of procs s) ∧ port_service s' (process_of procs s') ∈ port_services procs sockets seen.
Proof.
  induction sockets as [|s0 sockets IH]; intros seen Hok s Hin He Hseen; [by apply elem_of_nil in Hin|].
  apply Forall_cons in Hok as [H0 Hok]. cbn [port_services]. unfold is_exposed in He. apply elem_of_cons in Hin as [->|Hin].
  - apply negb_true_iff in He. rewrite He. rewrite bool_decide_eq_false_2 by done. exists s0. split_and!; [apply list_elem_of_here|done|apply list_elem_of_here].
  - assert (∀ seen', service_key s (process_of procs s) ∉ seen' → ∃ s', s' ∈ s0 :: sockets ∧ service_key s' (process_of procs s') = service_key s (process_of procs s) ∧
      port_service s' (process_of procs s') ∈ port_services procs sockets seen') as Hrest.
    { intros seen' H'. destruct (IH seen' Hok s Hin He H') as (s' & ? & ? & ?). exists s'. split_and!; [by apply list_elem_of_further|done|done]. }
    destruct (pp_IsLoopback s0) eqn:Hl; [by apply Hrest|]. case_bool_decide as Hs0; [by apply Hrest|].
    destruct (decide (service_key s (process_of procs s) = service_key s0 (process_of procs s0))) as [E|Hne].
    + exists s0. split_and!; [apply list_elem_of_here|done|apply list_elem_of_here].
    + destruct (Hrest ({[service_key s0 (process_of procs s0)]} ∪ seen)) as (s' & ? & ? & ?); [set_solver|]. exists s'. split_and!; [done|done|by apply list_elem_of_further].
Qed.

Lemma port_services_sound procs sockets : ∀ seen ps, ps ∈ port_services procs sockets seen →
  ∃ s, s ∈ sockets ∧ is_exposed s = true ∧ ps = port_service s (process_of procs s).
Proof.
  induction sockets as [|s0 sockets IH]; intros seen ps Hin; [by apply elem_of_nil in Hin|]. cbn [port_services] in Hin.
  assert (∀ seen', ps ∈ port_services procs sockets seen' → ∃ s, s ∈ s0 :: sockets ∧ is_exposed s = true ∧ ps = port_service s (process_of procs s)) as Hrest.
  { intros seen' H. destruct (IH _ _ H) as (s & ? & ?). exists s. split; [by apply list_elem_of_further|done]. }
  destruct (pp_IsLoopback s0) eqn:Hl; [by eapply Hrest|]. case_bool_decide; [by eapply Hrest|].
  apply elem_of_cons in Hin as [->|Hin]; [|by eapply Hrest]. exists s0. split_and!; [apply list_elem_of_here|unfold is_exposed; by rewrite Hl|done].
Qed.

Lemma socket_row_proto tcp ipv6 line s : socket_row tcp ipv6 line = Some s → proto_ok s.
Proof.
  unfold socket_row. destruct (length (Fields line) <? 10)%nat; [done|]. cbv zeta. case_match; [done|].
  intros E. apply bind_Some in E as ([ipHex port] & _ & E). case_match; [done|].
  injection E as <-. unfold proto_ok. cbn [pp_Proto]. destruct tcp; by apply (bool_decide_unpack _).
Qed.
Lemma table_rows_proto v path tcp ipv6 : Forall proto_ok (readProcPorts v path tcp ipv6).1.
Proof.
  unfold readProcPorts. destruct (v_file v path) as [text|]; [|done]. cbn [fst]. unfold table_rows. apply Forall_forall. intros s Hs.
  apply list_elem_of_omap in Hs as (line & _ & E). by apply socket_row_proto in E.
Qed.
Lemma read_sockets_proto v root sockets : read_sockets v root = Some sockets → Forall proto_ok sockets.
Proof.
  unfold read_sockets.
  pose proof (table_rows_proto v (JoinPath root "net/tcp") true false) as H1. pose proof (table_rows_proto v (JoinPath root "net/tcp6") true true) as H2.
  pose proof (table_rows_proto v (JoinPath root "net/udp") false false) as H3. pose proof (table_rows_proto v (JoinPath root "net/udp6") false true) as H4.
  repeat destruct (readProcPorts v _ _ _). cbn [fst] in *. case_match; [done|]. intros [= <-]. by rewrite !Forall_app.
Qed.

(** A port of a socket that satisfies [f]. *)
Definition port_of (sockets : list procPort) (f : procPort → bool) (p : Z) : Prop := ∃ s, s ∈ sockets ∧ f s = true ∧ pp_Port s = p.
Definition max_ports (opts : ExposureOptions) : Z := if eo_MaxPorts opts <=? 0 then 512 else eo_MaxPorts opts.

(** C36: the summary of the exposure of a host is exact.  When a table can be read, the
    listening, exposed and high-risk ports are the least [MaxPorts] ports, in order and
    once each, of the sockets listed, of those not bound to a loopback address, and of
    the latter on a high-risk port; a socket is exposed exactly when the flag says so;
    the services are exactly those of exposed sockets, every exposed socket having one
    of its protocol and port; TCP and UDP sockets are all counted, and the score lies
    between 0 and 100. *)
Theorem exposure_exact by_port now v opts h : (∀ l, by_port l ≡ₚ l) → CollectHostExposure by_port now v opts = inr h →
  ∃ sockets, read_sockets v (proc_root v (eo_HostRoot opts)) = Some sockets ∧
    least (max_ports opts) (port_of sockets (λ _, true)) (he_ListeningPorts h) ∧
    least (max_ports opts) (port_of sockets is_exposed) (he_ExposedPorts h) ∧
    least (max_ports opts) (port_of sockets is_high_risk) (he_HighRiskPorts h) ∧
    (he_HasExposedPorts h = true ↔ ∃ s, s ∈ sockets ∧ is_exposed s = true) ∧
    (∀ ps, ps ∈ he_PortServices h → ∃ s p, s ∈ sockets ∧ is_exposed s = true ∧ ps = port_service s p) ∧
    (∀ s, s ∈ sockets → is_exposed s = true → ∃ ps, ps ∈ he_PortServices h ∧ sv_Proto ps = pp_Proto s ∧ sv_Port ps = pp_Port s) ∧
    he_ListeningTCP h + he_ListeningUDP h = Z.of_nat (length sockets) ∧
    0 <= he_SurfaceScore h <= 100.
Proof.
  intros Hperm. unfold CollectHostExposure. fold (max_ports opts). set (max := max_ports opts).
  assert (0 < max) as Hmax by (subst max; unfold max_ports; destruct (Z.leb_spec (eo_MaxPorts opts) 0); lia).
  destruct (read_sockets v (proc_root v (eo_HostRoot opts))) as [sockets|] eqn:E; [|done]. pose proof (read_sockets_proto _ _ _ E) as Hok.
  intros [= <-]. exists sockets. split; [done|]. cbn [he_ListeningPorts he_ExposedPorts he_HighRiskPorts he_HasExposedPorts he_PortServices he_ListeningTCP he_ListeningUDP he_SurfaceScore].
  split; [by apply ports_least|]. split; [by apply ports_least|]. split; [by apply ports_least|].
  split; [|split; [|split; [|split; [apply count_partition|apply surface_score_range]]]].
  - rewrite (least_nonempty max (port_of sockets is_exposed)) by (done || by apply ports_least). unfold port_of. naive_solver.
  - intros ps Hps. unfold inferPortServices in Hps. rewrite Hperm in Hps. apply port_services_sound in Hps as (s & ? & ? & ->). by exists s, (process_of (findProcessByInode v (proc_root v (eo_HostRoot opts)) (inodes_of sockets)) s).
  - intros s Hs He. unfold inferPortServices. set (procs := findProcessByInode _ _ _).
    destruct (port_services_complete procs sockets ∅ Hok s Hs He) as (s' & Hs' & Hkey & Hin); [set_solver|].
    rewrite Forall_forall in Hok. apply service_key_inj in Hkey as (Hpr & Hpo & _); [|by apply Hok..].
    exists (port_service s' (process_of procs s')). by rewrite Hperm.
Qed.

(** ** Examples *)

Definition demo_rows (l : list string) : string := String.concat "" (map (λ r, r +:+ String newline "") ("  sl  local_address"%string :: l)).
Definition demo_view : view := {|
  v_file := λ p,
    if str_eqb p "/proc/net/tcp" then Some (demo_rows
      ["   0: 0100007F:0CEA 00000000:0000 0A 00000000:00000000 00:00000000 00000000 0 0 70 1"; "   1: 00000000:0016 00000000:0000 0A 00000000:00000000 00:00000000 00000000 0 0 71 1";
       "   2: 0A00000A:C350 0B00000A:01BB 01 00000000:00000000 00:00000000 00000000 0 0 72 1"]%string)
    else if str_eqb p "/proc/net/tcp6" then Some (demo_rows ["   0: 0000000000000000FFFF00000100007F:1F90 00000000000000000000000000000000:0000 0A 0:0 00:0 0 0 0 73 1"]%string)
    else if str_eqb p "/proc/7/comm" then Some "sshd"%string else None;
  v_isdir := λ _, false;
  v_dir := λ p, if str_eqb p "/proc" then Some [("self", false); ("7", true)]%string else if str_eqb p "/proc/7/fd" then Some [("3", false)]%string else None;
  v_link := λ p, if str_eqb p "/proc/7/fd/3" then Some "socket:[71]"%string else None |}.
Definition demo_exposure : HostExposure := match CollectHostExposure id 0 demo_view {| eo_HostRoot := ""; eo_MaxPorts := 0 |} with inr h => h | inl _ => {| he_CollectedAt := 0; he_ListeningPorts := []; he_ExposedPorts := []; he_HighRiskPorts := []; he_ServiceHints := []; he_PortServices := []; he_ListeningTCP := 0; he_ListeningUDP := 0; he_HasExposedPorts := false; he_SurfaceScore := 0 |} end.

(** The mapped loopback address of the third socket is one. *)
Example exposure_read : (he_ListeningPorts demo_exposure, he_ExposedPorts demo_exposure, he_HighRiskPorts demo_exposure, he_ServiceHints demo_exposure, he_SurfaceScore demo_exposure) = ([22; 3306; 8080], [22], [22], ["sshd"%string], 28).
Proof. vm_compute. reflexivity. Qed.
(** A package whose name is part of the name of a service matches it. *)
Example package_matched : map (MatchesPackage demo_exposure) ["openssh-server"; "d"; "bash"; "nginx"]%string = [true; true; false; true].
Proof. vm_compute. reflexivity. Qed.

Lemma exposure_exact_witness : he_HasExposedPorts demo_exposure = true ∧ 0 <= he_SurfaceScore demo_exposure <= 100.
Proof.
  destruct (exposure_exact id 0 demo_view {| eo_HostRoot := ""; eo_MaxPorts := 0 |} demo_exposure) as (sockets & _ & _ & _ & _ & _ & _ & _ & _ & Hs); [done|vm_compute; reflexivity|].
  split; [vm_compute; reflexivity|exact Hs].
Defined.
