(* ===== verification/Osv.v ===== *)
(** * Osv: vulnerabilities of the installed packages (internal/collectors/vuln)

    [InferEcosystem] (ecosystem.go) and [QueryOSV] (osv.go): the packages are asked
    for in batches, and every vulnerability of the answers that is severe enough
    becomes a finding.  The OSV server is a function of the number of the request and
    of its queries; SHA-256, the scanner of JSON, the order [sort.Slice] gives to
    equal elements and the clock are parameters. *)

From S2P Require Import Prelude GoStr GoText GoFields GoJson Float Cvss Effects Event Spool Queue Sender Exposure.
From Stdlib Require Import Ascii.

Local Open Scope Z_scope.
Local Open Scope go_scope.

(** ** ecosystem.go *)

Definition toString (v : option json) : string := match v with Some (JStr s) => s | _ => "" end.

Definition rpm_ecosystem (osID osLike : string) : string :=
  if str_eqb osID "fedora" then "Fedora"
  else if str_in osID ["rhel"; "redhat"] then "Red Hat"
  else if str_eqb osID "centos" then "CentOS"
  else if str_eqb osID "rocky" then "Rocky Linux"
  else if str_eqb osID "almalinux" then "AlmaLinux"
  else if str_eqb osID "ol" then "Oracle Linux"
  else if str_in osID ["opensuse"; "sles"; "suse"] then "SUSE"
  else if Contains osLike "rhel" || Contains osLike "fedora" then "Red Hat" else "".

Definition InferEcosystem (manager : string) (osInfo : gmap string json) : string :=
  let m := norm manager in
  let osID := norm (toString (osInfo !! "id"%string)) in
  let osName := norm (toString (osInfo !! "name"%string)) in
  let osLike := norm (toString (osInfo !! "id_like"%string)) in
  if str_eqb m "apk" then "Alpine"
  else if str_eqb m "pacman" then "Arch Linux"
  else if str_eqb m "dpkg" then
    if str_eqb osID "ubuntu" || Contains osName "ubuntu" then "Ubuntu"
    else if str_eqb osID "debian" || Contains osLike "debian" then "Debian" else "Debian"
  else if str_eqb m "rpm" then rpm_ecosystem osID osLike
  else "".

(** ** osv.go: requests and answers *)

Record OSVOptions := {
  oo_BaseURL : string; oo_Ecosystem : string; oo_MinSeverity : string; oo_AnalysisProfile : string;
  oo_Exposure : option HostExposure; oo_BatchSize : Z; oo_HTTPTimeout : duration; oo_AssetKey : string;
  oo_AssetAgentID : string; oo_TargetLabel : string; oo_OS : gmap string json; oo_PackageManager : string }.

Record OSVStats := { os_QueriedPackages : Z; os_ReceivedVulns : Z; os_EmittedFindings : Z }.
Definition no_stats : OSVStats := {| os_QueriedPackages := 0; os_ReceivedVulns := 0; os_EmittedFindings := 0 |}.

Record osvPackage := { op_Name : string; op_Ecosystem : string; op_Purl : string }.
Record osvQuery := { oq_Package : osvPackage; oq_Version : string }.

Record osvEvent := { oe_Introduced : string; oe_Fixed : string; oe_LastAffected : string }.
Record osvRange := { or_Type : string; or_Events : list osvEvent; or_Repo : string; or_DBSpec : option json }.
Record osvAffected := { of_Package : osvPackage; of_Ranges : list osvRange }.
Record osvSeverity := { oy_Type : string; oy_Score : string }.
Record osvVuln := {
  ov_ID : string; ov_Summary : string; ov_Details : string; ov_Aliases : list string;
  ov_Severity : list osvSeverity; ov_Affected : list osvAffected }.

(** protocol/vulnerability.go *)
Record VulnerabilityFinding := {
  vf_AssetKey : string; vf_AssetAgentID : string; vf_Target : string; vf_Asset : gmap string json;
  vf_Source : string; vf_ExternalID : string; vf_Fingerprint : string; vf_Severity : string; vf_Confidence : Z;
  vf_Title : string; vf_Description : string; vf_Remediation : string; vf_CVE : string; vf_CWE : string; vf_CVSS : string;
  vf_Location : string; vf_Tags : list string; vf_Evidence : gmap string json; vf_LastSeenAt : option time }.

(** *** Decoding *)

Definition fields_package : fields osvPackage := [
  ("name", on_field op_Name (λ v '(Build_osvPackage _ b c), Build_osvPackage v b c) dec_string);
  ("ecosystem", on_field op_Ecosystem (λ v '(Build_osvPackage a _ c), Build_osvPackage a v c) dec_string);
  ("purl", on_field op_Purl (λ v '(Build_osvPackage a b _), Build_osvPackage a b v) dec_string)].
Definition fields_event : fields osvEvent := [
  ("introduced", on_field oe_Introduced (λ v '(Build_osvEvent _ b c), Build_osvEvent v b c) dec_string);
  ("fixed", on_field oe_Fixed (λ v '(Build_osvEvent a _ c), Build_osvEvent a v c) dec_string);
  ("last_affected", on_field oe_LastAffected (λ v '(Build_osvEvent a b _), Build_osvEvent a b v) dec_string)].
(** A member of type [interface{}] takes any value. *)
Definition dec_any : decoder (option json) := λ j _, Some (match j with JNull => None | _ => Some j end).
Definition fields_range : fields osvRange := [
  ("type", on_field or_Type (λ v '(Build_osvRange _ b c d), Build_osvRange v b c d) dec_string);
  ("events", on_field or_Events (λ v '(Build_osvRange a _ c d), Build_osvRange a v c d) (dec_slice (Build_osvEvent "" "" "") (dec_struct fields_event)));
  ("repo", on_field or_Repo (λ v '(Build_osvRange a b _ d), Build_osvRange a b v d) dec_string);
  ("database_specific", on_field or_DBSpec (λ v '(Build_osvRange a b c _), Build_osvRange a b c v) dec_any)].
Definition no_package : osvPackage := Build_osvPackage "" "" "".
Definition fields_affected : fields osvAffected := [
  ("package", on_field of_Package (λ v '(Build_osvAffected _ b), Build_osvAffected v b) (dec_struct fields_package));
  ("ranges", on_field of_Ranges (λ v '(Build_osvAffected a _), Build_osvAffected a v) (dec_slice (Build_osvRange "" [] "" None) (dec_struct fields_range)))].
Definition fields_severity : fields osvSeverity := [
  ("type", on_field oy_Type (λ v '(Build_osvSeverity _ b), Build_osvSeverity v b) dec_string);
  ("score", on_field oy_Score (λ v '(Build_osvSeverity a _), Build_osvSeverity a v) dec_string)].
Definition fields_vuln : fields osvVuln := [
  ("id", on_field ov_ID (λ v '(Build_osvVuln _ b c d e f), Build_osvVuln v b c d e f) dec_string);
  ("summary", on_field ov_Summary (λ v '(Build_osvVuln a _ c d e f), Build_osvVuln a v c d e f) dec_string);
  ("details", on_field ov_Details (λ v '(Build_osvVuln a b _ d e f), Build_osvVuln a b v d e f) dec_string);
  ("aliases", on_field ov_Aliases (λ v '(Build_osvVuln a b c _ e f), Build_osvVuln a b c v e f) (dec_slice ""%string dec_string));
  ("severity", on_field ov_Severity (λ v '(Build_osvVuln a b c d _ f), Build_osvVuln a b c d v f) (dec_slice (Build_osvSeverity "" "") (dec_struct fields_severity)));
  ("affected", on_field ov_Affected (λ v '(Build_osvVuln a b c d e _), Build_osvVuln a b c d e v) (dec_slice (Build_osvAffected no_package []) (dec_struct fields_affected)))].
(** A result holds its vulnerabilities, and a response its results. *)
Definition fields_result : fields (list osvVuln) := [("vulns", dec_slice (Build_osvVuln "" "" "" [] [] []) (dec_struct fields_vuln))].
Definition fields_response : fields (list (list osvVuln)) := [("results", dec_slice [] (dec_struct fields_result))].

(** *** Severity *)

Definition severityRank (sev : string) : Z :=
  let s := norm sev in
  if str_eqb s "critical" then 4 else if str_eqb s "high" then 3 else if str_eqb s "medium" then 2 else if str_eqb s "low" then 1 else 0.

Fixpoint pickCVE (aliases : list string) : string :=
  match aliases with
  | [] => ""
  | a :: aliases => let a := ToUpper (TrimSpace a) in if HasPrefix a "CVE-" then a else pickCVE aliases
  end.

Definition severityFromScore (score : float64) : string :=
  if fge score (of_int 9) then "critical" else if fge score (of_int 7) then "high" else
  if fge score (of_int 4) then "medium" else if fgt score f0 then "low" else "unknown".

(** The first CVSS entry that is not blank. *)
Fixpoint first_cvss (l : list osvSeverity) : option string :=
  match l with
  | [] => None
  | s :: l =>
    let vec := TrimSpace (oy_Score s) in
    if Contains (ToUpper (oy_Type s)) "CVSS" && negb (is_empty vec) then Some vec else first_cvss l
  end.
Definition deriveSeverity (v : osvVuln) : string * string :=
  match first_cvss (ov_Severity v) with
  | Some vec => (match CVSSv3BaseScore vec with Some score => severityFromScore score | None => "unknown" end, vec)
  | None => (if is_empty (pickCVE (ov_Aliases v)) then "unknown" else "high", ""%string)
  end.

Definition bumpSeverity (sev : string) : string :=
  let s := norm sev in
  if str_eqb s "low" then "medium" else if str_eqb s "medium" then "high" else if str_eqb s "high" then "critical" else sev.

(** *** Parts of a finding *)

Fixpoint uniq_tags (l : list string) (seen : gset string) : list string :=
  match l with
  | [] => []
  | t :: l =>
    let t2 := norm t in
    if is_empty t2 then uniq_tags l seen else
    let t2 := if 64 <? strlen t2 then str_take 64 t2 else t2 in
    if bool_decide (t2 ∈ seen) then uniq_tags l seen else t2 :: uniq_tags l ({[t2]} ∪ seen)
  end.
Definition uniqTags (l : list string) : list string := uniq_tags l ∅.

Definition firstFixedVersion (v : osvVuln) : string :=
  default EmptyString (head (List.filter (negb ∘ is_empty)
    (map (λ ev, TrimSpace (oe_Fixed ev)) (ov_Affected v ≫= λ aff, of_Ranges aff ≫= or_Events)))).

Definition buildRemediation (pkg : PackageEntry) (v : osvVuln) : string :=
  let fixed := firstFixedVersion v in
  if is_empty fixed then "Upgrade " +:+ pe_Name pkg +:+ " to a non-vulnerable version"
  else "Upgrade " +:+ pe_Name pkg +:+ " to >= " +:+ fixed.

Definition buildEvidence (pkg : PackageEntry) (v : osvVuln) : gmap string json :=
  let s := TrimSpace (ov_Summary v) in
  let fix_ := firstFixedVersion v in
  list_to_map [
    ("package", JObj [("name", JStr (pe_Name pkg)); ("version", JStr (pe_Version pkg)); ("arch", JStr (pe_Arch pkg))]);
    ("osv", JObj ([("id", JStr (ov_ID v)); ("aliases", JArr (map JStr (ov_Aliases v)))] ++
                  (if is_empty s then [] else [("summary", JStr s)]) ++
                  (if is_empty fix_ then [] else [("fixed", JStr fix_)]))%list)]%string.

Definition service_json (s : PortService) : json := JObj
  [("Proto", JStr (sv_Proto s)); ("Port", JInt (sv_Port s)); ("Process", JStr (sv_Process s)); ("PID", JInt (sv_PID s));
   ("Exe", JStr (sv_Exe s)); ("Cmdline", JStr (sv_Cmdline s))]%string.

Section osv.
Context (parse : string → option json) (sha256_hex : string → string) (fmt_nano : time → string).
(** [sort.Slice] by name and version. *)
Context (by_name : list PackageEntry → list PackageEntry).
(** The clock, by the number of findings already made. *)
Context (clock : Z → time).

(** [HostExposure.ToEvidence] *)
Definition ToEvidence (h : HostExposure) : json := JObj
  [("collected_at", JStr (fmt_nano (he_CollectedAt h))); ("listening_ports", JArr (map JInt (he_ListeningPorts h)));
   ("exposed_ports", JArr (map JInt (he_ExposedPorts h))); ("high_risk_ports", JArr (map JInt (he_HighRiskPorts h)));
   ("service_hints", JArr (map JStr (he_ServiceHints h))); ("port_services", JArr (map service_json (he_PortServices h)));
   ("listening_tcp", JInt (he_ListeningTCP h)); ("listening_udp", JInt (he_ListeningUDP h));
   ("has_exposed_ports", JBool (he_HasExposedPorts h)); ("surface_score", JInt (he_SurfaceScore h))]%string.

Definition stableFingerprint (parts : list string) : string := sha256_hex (Join (map norm parts) "|").

(** *** Enrichment *)

Definition network_vector (cvss : string) : bool := Contains (ToUpper (TrimSpace cvss)) "/AV:N/".
Definition profile_of (opts : OSVOptions) : string :=
  let profile := TrimSpace (oo_AnalysisProfile opts) in if is_empty profile then "wazuh_like_v1" else profile.

Definition enriched_severity (h : HostExposure) (packageFacing : bool) (sev : string) : string :=
  if packageFacing && he_HasExposedPorts h && (2 <=? severityRank sev) then bumpSeverity sev else sev.
Definition enriched_confidence (h : HostExposure) (packageFacing networkVector : bool) (cve : string) (conf : Z) : Z :=
  let conf := if is_empty (TrimSpace cve) then conf else conf + 3 in
  let conf := if networkVector then conf + 4 else conf in
  let conf := if he_HasExposedPorts h then conf + 5 else conf in
  let conf := if packageFacing then conf + 8 else conf in
  let conf := if 60 <=? he_SurfaceScore h then conf + 5 else conf in
  if 99 <? conf then 99 else conf.

Definition applyWazuhLikeEnrichment (f : VulnerabilityFinding) (pkg : PackageEntry) (opts : OSVOptions) : VulnerabilityFinding :=
  let profile := profile_of opts in
  let networkVector := network_vector (vf_CVSS f) in
  let packageFacing := match oo_Exposure opts with Some h => MatchesPackage h (pe_Name pkg) | None => false end in
  let '(sev, conf) := match oo_Exposure opts with
    | Some h => (enriched_severity h packageFacing (vf_Severity f), enriched_confidence h packageFacing networkVector (vf_CVE f) (vf_Confidence f))
    | None => (vf_Severity f, vf_Confidence f)
    end in
  let tags := (["wazuh_like"; profile; "host_inventory"]%string ++
    (if networkVector then ["cvss_av_n"%string] else []) ++
    (if packageFacing then ["service_package"%string] else []) ++
    (if match oo_Exposure opts with Some h => he_HasExposedPorts h | None => false end then ["internet_surface"%string] else []))%list in
  let analysis := ([("profile", JStr profile); ("package_network_facing", JBool packageFacing); ("network_attack_vector", JBool networkVector); ("confidence", JInt conf)]%string ++
    match oo_Exposure opts with
    | Some h => [("exposure_score", JInt (he_SurfaceScore h)); ("exposed_ports", JArr (map JInt (he_ExposedPorts h)))]%string
    | None => []
    end)%list in
  {| vf_AssetKey := vf_AssetKey f; vf_AssetAgentID := vf_AssetAgentID f; vf_Target := vf_Target f; vf_Asset := vf_Asset f;
     vf_Source := vf_Source f; vf_ExternalID := vf_ExternalID f; vf_Fingerprint := vf_Fingerprint f;
     vf_Severity := sev; vf_Confidence := conf; vf_Title := vf_Title f; vf_Description := vf_Description f;
     vf_Remediation := vf_Remediation f; vf_CVE := vf_CVE f; vf_CWE := vf_CWE f; vf_CVSS := vf_CVSS f; vf_Location := vf_Location f;
     vf_Tags := uniqTags (vf_Tags f ++ tags); vf_Evidence := <["analysis"%string := JObj analysis]> (vf_Evidence f); vf_LastSeenAt := vf_LastSeenAt f |}.

(** *** A finding *)

Definition title_of (v : osvVuln) : string :=
  let title := TrimSpace (ov_Summary v) in
  let title := if is_empty title then TrimSpace (pickCVE (ov_Aliases v)) else title in
  if is_empty title then "vulnerability detected" else title.
Definition details_of (v : osvVuln) : string :=
  let details := TrimSpace (ov_Details v) in if 16000 <? strlen details then str_take (Z.to_nat 16000) details else details.
Definition asset_of (opts : OSVOptions) (pkg : PackageEntry) : gmap string json :=
  let asset := <["package"%string := JObj
    [("name", JStr (pe_Name pkg)); ("version", JStr (pe_Version pkg)); ("arch", JStr (pe_Arch pkg));
     ("manager", JStr (oo_PackageManager opts)); ("ecosystem", JStr (TrimSpace (oo_Ecosystem opts)))]%string]> (oo_OS opts) in
  match oo_Exposure opts with Some h => <["exposure"%string := ToEvidence h]> asset | None => asset end.

Definition base_finding (opts : OSVOptions) (pkg : PackageEntry) (v : osvVuln) (now : time) : VulnerabilityFinding :=
  let '(sev, cvssStr) := deriveSeverity v in
  {| vf_AssetKey := oo_AssetKey opts; vf_AssetAgentID := oo_AssetAgentID opts; vf_Target := oo_TargetLabel opts;
     vf_Asset := asset_of opts pkg; vf_Source := "osv"; vf_ExternalID := TrimSpace (ov_ID v);
     vf_Fingerprint := stableFingerprint [oo_AssetKey opts; "osv"%string; ov_ID v; TrimSpace (oo_Ecosystem opts); pe_Name pkg];
     vf_Severity := sev; vf_Confidence := 90; vf_Title := title_of v; vf_Description := details_of v;
     vf_Remediation := buildRemediation pkg v; vf_CVE := pickCVE (ov_Aliases v); vf_CWE := ""; vf_CVSS := cvssStr;
     vf_Location := "pkg:" +:+ pe_Name pkg;
     vf_Tags := uniqTags ["package"; "osv"; oo_PackageManager opts; norm (oo_Ecosystem opts)]%string;
     vf_Evidence := buildEvidence pkg v; vf_LastSeenAt := Some now |}.
Definition finding_of (opts : OSVOptions) (pkg : PackageEntry) (v : osvVuln) (now : time) : VulnerabilityFinding :=
  applyWazuhLikeEnrichment (base_finding opts pkg v now) pkg opts.

(** *** The queries *)

Inductive osv_reply := NoRequest | RequestFailed | Answered (status : Z) (body : string).
(** The [n]-th request of a scan: its URL and its queries. *)
Context (server : nat → string → list osvQuery → osv_reply).

Inductive osv_error := ErrNewOSVRequest | ErrOSVRequest | ErrOSVStatus (status : Z) | ErrOSVResponse.

Definition valid_package (p : PackageEntry) : option PackageEntry :=
  let name := TrimSpace (pe_Name p) in
  let ver := TrimSpace (pe_Version p) in
  if is_empty name || is_empty ver then None else Some {| pe_Name := name; pe_Version := ver; pe_Arch := TrimSpace (pe_Arch p) |}.
Definition packages_to_query (pkgs : list PackageEntry) : list PackageEntry := by_name (omap valid_package pkgs).

Definition query_of (opts : OSVOptions) (p : PackageEntry) : osvQuery :=
  {| oq_Package := {| op_Name := pe_Name p; op_Ecosystem := TrimSpace (oo_Ecosystem opts); op_Purl := "" |}; oq_Version := pe_Version p |}.
Definition endpoint_of (opts : OSVOptions) : string :=
  let baseURL := TrimRightSlash (TrimSpace (oo_BaseURL opts)) in
  (if is_empty baseURL then "https://api.osv.dev" else baseURL) +:+ "/v1/querybatch".

Definition ask (n : nat) (opts : OSVOptions) (batch : list PackageEntry) : osv_error + list (list osvVuln) :=
  match server n (endpoint_of opts) (map (query_of opts) batch) with
  | NoRequest => inl ErrNewOSVRequest
  | RequestFailed => inl ErrOSVRequest
  | Answered status body =>
    if (status <? 200) || (300 <=? status) then inl (ErrOSVStatus status) else
    match unmarshal parse (dec_struct fields_response) [] (limit_reader (16 * 2 ^ 20) body) with
    | None => inl ErrOSVResponse
    | Some results => inr results
    end
  end.

(** The vulnerabilities of one package. *)
Fixpoint add_vulns (opts : OSVOptions) (pkg : PackageEntry) (vulns : list osvVuln) (acc : list VulnerabilityFinding * OSVStats) : list VulnerabilityFinding * OSVStats :=
  match vulns with
  | [] => acc
  | v :: vulns =>
    let '(findings, stats) := acc in
    let stats := {| os_QueriedPackages := os_QueriedPackages stats; os_ReceivedVulns := os_ReceivedVulns stats + 1; os_EmittedFindings := os_EmittedFindings stats |} in
    if severityRank (deriveSeverity v).1 <? severityRank (TrimSpace (oo_MinSeverity opts)) then add_vulns opts pkg vulns (findings, stats) else
    add_vulns opts pkg vulns ((findings ++ [finding_of opts pkg v (clock (os_EmittedFindings stats))])%list,
      {| os_QueriedPackages := os_QueriedPackages stats; os_ReceivedVulns := os_ReceivedVulns stats; os_EmittedFindings := os_EmittedFindings stats + 1 |})
  end.

(** The results in the order of the queries; those beyond the queries are ignored. *)
Fixpoint add_results (opts : OSVOptions) (batch : list PackageEntry) (results : list (list osvVuln)) (acc : list VulnerabilityFinding * OSVStats) : list VulnerabilityFinding * OSVStats :=
  match batch, results with
  | pkg :: batch, vulns :: results => add_results opts batch results (add_vulns opts pkg vulns acc)
  | _, _ => acc
  end.

(** The loop over the batches: [n] is the number of requests made. *)
Fixpoint query_loop (fuel n : nat) (opts : OSVOptions) (size : nat) (pkgs : list PackageEntry) (acc : list VulnerabilityFinding * OSVStats)
    : list VulnerabilityFinding * OSVStats * option osv_error :=
  match fuel, pkgs with
  | O, _ | _, [] => (acc, None)
  | S fuel, _ =>
    let batch := take size pkgs in
    let '(findings, stats) := acc in
    let stats := {| os_QueriedPackages := os_QueriedPackages stats + Z.of_nat (length batch); os_ReceivedVulns := os_ReceivedVulns stats; os_EmittedFindings := os_EmittedFindings stats |} in
    match ask n opts batch with
    | inl e => ((findings, stats), Some e)
    | inr results => query_loop fuel (S n) opts size (drop size pkgs) (add_results opts batch results (findings, stats))
    end
  end.

Definition batch_size (opts : OSVOptions) : nat := Z.to_nat (if oo_BatchSize opts <=? 0 then 200 else oo_BatchSize opts).
Definition QueryOSV (pkgs : list PackageEntry) (opts : OSVOptions) : list VulnerabilityFinding * OSVStats * option osv_error :=
  let pkgs2 := packages_to_query pkgs in
  query_loop (length pkgs2) 0 opts (batch_size opts) pkgs2 ([], no_stats).
End osv.

(** ** Proofs *)

(** The vulnerabilities a batch of answers lists, with the package each is about. *)
Definition batch_pairs (batch : list PackageEntry) (results : list (list osvVuln)) : list (PackageEntry * osvVuln) :=
  zip batch results ≫= λ '(pkg, vulns), map (pair pkg) vulns.
(** Those of successive batches of [size] packages. *)
Fixpoint answered_pairs (size : nat) (pkgs : list PackageEntry) (answers : list (list (list osvVuln))) : list (PackageEntry * osvVuln) :=
  match answers with
  | [] => []
  | results :: answers => (batch_pairs (take size pkgs) results ++ answered_pairs size (drop size pkgs) answers)%list
  end.
(** Severe enough for the configured minimum. *)
Definition severe (opts : OSVOptions) (pv : PackageEntry * osvVuln) : bool :=
  severityRank (TrimSpace (oo_MinSeverity opts)) <=? severityRank (deriveSeverity pv.2).1.

Section proofs.
Context (parse : string → option json) (sha256_hex : string → string) (fmt_nano : time → string).
Context (by_name : list PackageEntry → list PackageEntry) (clock : Z → time).
Context (server : nat → string → list osvQuery → osv_reply) (opts : OSVOptions).

Notation finding := (finding_of sha256_hex fmt_nano opts).
Notation ask_osv := (ask parse server).

(** The findings made of pairs, each with the time it is made at. *)
Definition findings_of (pvs : list (PackageEntry * osvVuln)) : list VulnerabilityFinding :=
  imap (λ k pv, finding pv.1 pv.2 (clock (Z.of_nat k))) pvs.

Lemma findings_of_snoc pvs pv : findings_of (pvs ++ [pv]) = (findings_of pvs ++ [finding pv.1 pv.2 (clock (Z.of_nat (length pvs)))])%list.
Proof. unfold findings_of. rewrite imap_app. cbn. by rewrite Nat.add_0_r. Qed.

(** The accumulator of the loop after [all] pairs. *)
Definition acc_of (queried : Z) (all : list (PackageEntry * osvVuln)) : list VulnerabilityFinding * OSVStats :=
  (findings_of (List.filter (severe opts) all),
   {| os_QueriedPackages := queried; os_ReceivedVulns := Z.of_nat (length all); os_EmittedFindings := Z.of_nat (length (List.filter (severe opts) all)) |}).

Lemma add_vulns_acc queried pkg vulns : ∀ all,
  add_vulns sha256_hex fmt_nano clock opts pkg vulns (acc_of queried all) = acc_of queried (all ++ map (pair pkg) vulns).
Proof.
  induction vulns as [|v vulns IH]; intros all; [cbn; by rewrite app_nil_r|]. cbn [map]. rewrite (cons_middle (pkg, v)), app_assoc, <- IH.
  unfold acc_of at 1. cbn [add_vulns os_QueriedPackages os_ReceivedVulns os_EmittedFindings].
  assert (List.filter (severe opts) (all ++ [(pkg, v)]) = List.filter (severe opts) all ++
    if severityRank (deriveSeverity v).1 <? severityRank (TrimSpace (oo_MinSeverity opts)) then [] else [(pkg, v)])%list as E.
  { rewrite List.filter_app. cbn [List.filter].
    assert (severe opts (pkg, v) = negb (severityRank (deriveSeverity v).1 <? severityRank (TrimSpace (oo_MinSeverity opts)))) as -> by apply Z.leb_antisym.
    by destruct (_ <? _). }
  unfold acc_of at 1. rewrite E, length_app. replace (Z.of_nat (length all + length [(pkg, v)])) with (Z.of_nat (length all) + 1) by (cbn; lia).
  case_match; [by rewrite app_nil_r|]. rewrite findings_of_snoc, length_app. cbn [length]. by rewrite Nat2Z.inj_add.
Qed.

Lemma batch_pairs_cons pkg batch vulns results : batch_pairs (pkg :: batch) (vulns :: results) = (map (pair pkg) vulns ++ batch_pairs batch results)%list.
Proof. done. Qed.

Lemma add_results_acc queried batch results : ∀ all,
  add_results sha256_hex fmt_nano clock opts batch results (acc_of queried all) = acc_of queried (all ++ batch_pairs batch results).
Proof.
  revert results. induction batch as [|pkg batch IH]; intros [|vulns results] all; try (cbn; by rewrite app_nil_r).
  cbn [add_results]. by rewrite add_vulns_acc, IH, batch_pairs_cons, app_assoc.
Qed.

(** What a run of the loop from request [n] on has asked and got. *)
Record run (n size : nat) (pkgs : list PackageEntry) (answers : list (list (list osvVuln))) (err : option osv_error) : Prop := {
  run_answered : ∀ i results, answers !! i = Some results → ask_osv (n + i) opts (take size (drop (i * size) pkgs)) = inr results;
  run_needed : ∀ i, (i < length answers)%nat → drop (i * size) pkgs ≠ [];
  run_ended : match err with
    | None => drop (length answers * size) pkgs = []
    | Some e => ask_osv (n + length answers) opts (take size (drop (length answers * size) pkgs)) = inl e ∧ drop (length answers * size) pkgs ≠ []
    end }.

(** The packages of the batches that were sent. *)
Definition asked (size : nat) (pkgs : list PackageEntry) (answers : list (list (list osvVuln))) (err : option osv_error) : Z :=
  Z.of_nat (length (take ((length answers + match err with Some _ => 1 | None => 0 end) * size) pkgs)).

Lemma run_done n size : run n size [] [] None.
Proof. constructor; [intros i r H; by rewrite lookup_nil in H|intros i Hi; cbn in Hi; lia|done]. Qed.
Lemma query_loop_done fuel n size queried all :
  query_loop parse sha256_hex fmt_nano clock server fuel n opts size [] (acc_of queried all) = (acc_of (queried + asked size [] [] None) (all ++ answered_pairs size [] []), None).
Proof. unfold asked. rewrite take_nil. cbn [length answered_pairs]. rewrite app_nil_r, Z.add_0_r. by destruct fuel. Qed.

Lemma query_loop_step fuel n size pkg pkgs queried all :
  let batch := take size (pkg :: pkgs) in
  query_loop parse sha256_hex fmt_nano clock server (S fuel) n opts size (pkg :: pkgs) (acc_of queried all) =
  match ask_osv n opts batch with
  | inl e => (acc_of (queried + Z.of_nat (length batch)) all, Some e)
  | inr results => query_loop parse sha256_hex fmt_nano clock server fuel (S n) opts size (drop size (pkg :: pkgs))
      (acc_of (queried + Z.of_nat (length batch)) (all ++ batch_pairs batch results))
  end.
Proof. cbn [query_loop acc_of os_QueriedPackages os_ReceivedVulns os_EmittedFindings]. destruct (ask_osv _ _ _); [done|]. by rewrite <- add_results_acc. Qed.

Lemma query_loop_run size : (0 < size)%nat → ∀ fuel n pkgs queried all, (length pkgs <= fuel)%nat →
  ∃ answers err, query_loop parse sha256_hex fmt_nano clock server fuel n opts size pkgs (acc_of queried all) =
    (acc_of (queried + asked size pkgs answers err) (all ++ answered_pairs size pkgs answers), err) ∧ run n size pkgs answers err.
Proof.
  intros Hsize fuel. induction fuel as [|fuel IH]; intros n pkgs queried all Hf.
  { destruct pkgs; cbn in Hf; [|lia]. exists [], None. split; [by rewrite query_loop_done|apply run_done]. }
  destruct pkgs as [|pkg pkgs]. { exists [], None. split; [by rewrite query_loop_done|apply run_done]. }
  rewrite query_loop_step. set (l := pkg :: pkgs) in *. destruct (ask_osv n opts (take size l)) as [e|results] eqn:Ha.
  { exists [], (Some e). unfold asked. cbn [length answered_pairs Nat.add]. rewrite app_nil_r, Nat.mul_1_l. split; [done|]. constructor; cbn [length Nat.mul].
    - intros i r H. by rewrite lookup_nil in H.
    - intros i Hi. lia.
    - by rewrite Nat.add_0_r. }
  destruct (IH (S n) (drop size l) (queried + Z.of_nat (length (take size l))) (all ++ batch_pairs (take size l) results)%list) as (answers & err & E & [Hans Hneed Hend]).
  { rewrite length_drop. subst l. cbn [length] in *. lia. }
  exists (results :: answers), err. rewrite E. cbn [answered_pairs]. rewrite app_assoc. split.
  - f_equal. f_equal. unfold asked. cbn [length Nat.add]. rewrite Nat.mul_succ_l, !length_take, length_drop. lia.
  - assert (∀ i, drop (S i * size) l = drop (i * size) (drop size l)) as Hd by (intros i; by rewrite drop_drop).
    constructor.
    + intros [|i] r Hr; cbn [lookup list_lookup] in Hr; [by injection Hr as <-; rewrite Nat.add_0_r|]. rewrite Hd, <- Nat.add_succ_comm. by apply Hans.
    + intros [|i] Hi; [done|]. rewrite Hd. apply Hneed. cbn [length] in Hi. lia.
    + cbn [length]. rewrite Hd, <- Nat.add_succ_comm. done.
Qed.

(** C37: a vulnerability query is complete and exact.  The loop ends; its requests ask for
    the valid packages in order, [BatchSize] at a time, each package once; it stops at
    the first request that is not answered, and otherwise when every package was asked
    for; and whatever ended it, the findings are those of exactly the answered
    vulnerabilities that reach the minimal severity, in their order, the answers beyond
    the queries being ignored, and the three counters count packages asked for,
    vulnerabilities received and findings. *)
Theorem QueryOSV_exact pkgs :
  let l := packages_to_query by_name pkgs in
  let size := batch_size opts in
  let '(findings, stats, err) := QueryOSV parse sha256_hex fmt_nano by_name clock server pkgs opts in
  ∃ answers, run 0 size l answers err ∧
    findings = findings_of (List.filter (severe opts) (answered_pairs size l answers)) ∧
    os_QueriedPackages stats = asked size l answers err ∧
    os_ReceivedVulns stats = Z.of_nat (length (answered_pairs size l answers)) ∧
    os_EmittedFindings stats = Z.of_nat (length findings).
Proof.
  cbv zeta. unfold QueryOSV. assert (0 < batch_size opts)%nat as Hs by (unfold batch_size; case_match; lia).
  change ([], no_stats) with (acc_of 0 []).
  destruct (query_loop_run (batch_size opts) Hs (length (packages_to_query by_name pkgs)) 0 (packages_to_query by_name pkgs) 0 []) as (answers & err & -> & Hrun); [done|].
  unfold acc_of. cbn [app os_QueriedPackages os_ReceivedVulns os_EmittedFindings]. exists answers.
  split; [done|]. split; [done|]. split; [done|]. split; [done|]. unfold findings_of. by rewrite length_imap.
Qed.

(** The severity of a vulnerability is one of five. *)
Lemma deriveSeverity_known v : (deriveSeverity v).1 ∈ ["critical"; "high"; "medium"; "low"; "unknown"]%string.
Proof.
  unfold deriveSeverity, severityFromScore. repeat case_match; cbn [fst]; by apply (bool_decide_unpack _).
Qed.

Lemma confidence_range h facing net cve : 90 <= enriched_confidence h facing net cve 90 <= 99.
Proof. unfold enriched_confidence. destruct (is_empty (TrimSpace cve)), net, (he_HasExposedPorts h), facing, (60 <=? he_SurfaceScore h); by vm_compute. Qed.

Lemma bump_range sev : sev ∈ ["critical"; "high"; "medium"; "low"; "unknown"]%string → 2 <= severityRank sev →
  severityRank sev <= severityRank (bumpSeverity sev) <= severityRank sev + 1.
Proof. intros H. repeat (apply elem_of_cons in H as [->|H]; [vm_compute; intuition congruence|]). by apply elem_of_nil in H. Qed.

(** The exposure of the host raises a finding, and never lowers it.  The severity of a
    finding is that of its vulnerability or the next one, the next one only for a
    package that faces an exposed port and a severity of at least medium; its confidence
    lies between 90 and 99. *)
Theorem enrichment_bounded pkg v now :
  let f := finding pkg v now in
  let rank := severityRank (deriveSeverity v).1 in
  rank <= severityRank (vf_Severity f) <= rank + 1 ∧ 90 <= vf_Confidence f <= 99 ∧
  (vf_Severity f ≠ (deriveSeverity v).1 → 2 <= rank ∧ ∃ h, oo_Exposure opts = Some h ∧ he_HasExposedPorts h = true ∧ MatchesPackage h (pe_Name pkg) = true).
Proof.
  cbv zeta. pose proof (deriveSeverity_known v) as Hk. unfold finding_of, applyWazuhLikeEnrichment, base_finding.
  destruct (deriveSeverity v) as [sev cvss]. cbn [fst] in *. destruct (oo_Exposure opts) as [h|]; cbn [vf_Severity vf_Confidence vf_CVSS vf_CVE]; [|split_and!; lia || done].
  unfold enriched_severity. destruct (MatchesPackage h (pe_Name pkg) && he_HasExposedPorts h && (2 <=? severityRank sev)) eqn:E.
  - apply andb_true_iff in E as [[Hm He]%andb_true_iff Hr%Z.leb_le]. split; [by apply bump_range|]. split; [apply confidence_range|].
    intros _. split; [done|]. by exists h.
  - split; [lia|]. split; [apply confidence_range|]. done.
Qed.
End proofs.

(** ** Examples *)

Definition demo_vuln (sev : list osvSeverity) (aliases : list string) : osvVuln :=
  {| ov_ID := "GHSA-1"; ov_Summary := "x"; ov_Details := ""; ov_Aliases := aliases; ov_Severity := sev; ov_Affected := [] |}.
Definition v3_critical : osvSeverity := Build_osvSeverity "CVSS_V3" "CVSS:3.1/AV:N/AC:L/PR:N/UI:N/S:U/C:H/I:H/A:H".
Definition v4_score : osvSeverity := Build_osvSeverity "CVSS_V4" "CVSS:4.0/AV:N/AC:L/AT:N/PR:N/UI:N/VC:H/VI:H/VA:H/SC:N/SI:N/SA:N".
(** A version 4 vector in front hides the version 3 vector that could be scored. *)
Example first_vector_decides : map (fst ∘ deriveSeverity)
  [demo_vuln [v3_critical] []; demo_vuln [v3_critical; v4_score] []; demo_vuln [v4_score; v3_critical] ["CVE-2024-1"%string]; demo_vuln [] ["cve-2024-1"%string]] =
  ["critical"; "critical"; "unknown"; "high"]%string.
Proof. vm_compute. reflexivity. Qed.

Definition demo_parse (s : string) : option json := if str_eqb s "ok" then
  Some (JObj [("results", JArr [JObj [("vulns", JArr [JObj [("id", JStr "A"); ("aliases", JArr [JStr "CVE-1"])]; JObj [("id", JStr "B")]])]; JObj []])]%string) else None.
Definition demo_osv (min : string) (size : Z) : OSVOptions := {|
  oo_BaseURL := ""; oo_Ecosystem := "Debian"; oo_MinSeverity := min; oo_AnalysisProfile := ""; oo_Exposure := None; oo_BatchSize := size; oo_HTTPTimeout := 0;
  oo_AssetKey := "self"; oo_AssetAgentID := ""; oo_TargetLabel := ""; oo_OS := ∅; oo_PackageManager := "dpkg" |}.
Definition demo_pkgs : list PackageEntry := map (λ n, {| pe_Name := n; pe_Version := "1"; pe_Arch := "" |}) ["a"; " "; "b"; "c"]%string.
Definition demo_query (min : string) : list (string * string) * OSVStats * option osv_error :=
  let '(fs, st, e) := QueryOSV demo_parse id (λ _, ""%string) id id (λ n _ qs, if (n =? 0)%nat then Answered 200 "ok" else Answered 503 "") demo_pkgs (demo_osv min 2) in
  (map (λ f, (vf_ExternalID f, vf_Location f)) fs, st, e).
Example query_keeps_answers : map demo_query [""; "high"]%string =
  [([("A", "pkg:a"); ("B", "pkg:a")]%string, {| os_QueriedPackages := 3; os_ReceivedVulns := 2; os_EmittedFindings := 2 |}, Some (ErrOSVStatus 503));
   ([("A", "pkg:a")]%string, {| os_QueriedPackages := 3; os_ReceivedVulns := 2; os_EmittedFindings := 1 |}, Some (ErrOSVStatus 503))].
Proof. vm_compute. reflexivity. Qed.
