(* ===== verification/Pollers.v ===== *)
(** * Pollers: inventory and vulnerability scans (internal/sources)

    [runSyscollectorOnce] (syscollector.go) and [runVulnOnce] (vuln.go): one run of each
    poller over its collectors and the event sender, with the status each keeps from one
    run to the next.  The timers that start the runs are [next_inventory] and
    [next_scan].  The host and the OSV server of a run are inputs. *)

From S2P Require Import Prelude GoStr GoText GoFields GoJson Float Effects Event Net GoIP Netctx Spool Queue Sender RuntimeConfig Inventory Exposure Osv.
From Stdlib Require Import Ascii.

Local Open Scope Z_scope.
Local Open Scope go_scope.

(** ** When the next run starts *)

(** [cfg.Every - time.Since(lastRun)], not below zero. *)
Definition remaining (every : duration) (lastRun t : time) : duration :=
  let d := every - time_sub t lastRun in if d <? 0 then 0 else d.
(** The first run of a poller waits for its startup jitter once. *)
Definition next_inventory (cfg : SyscollectorConfig) (lastRun t : time) (startupDelayed : bool) (jitter : duration) : duration * bool :=
  if negb (sc_Enabled cfg) then (30 * second, startupDelayed) else
  if is_zero_time lastRun then (if startupDelayed then 0 else jitter, true) else (remaining (sc_Every cfg) lastRun t, startupDelayed).

(** The scan that is due, and whether a new token asks for it. *)
Definition next_scan (cfg : VulnScannerConfig) (lastRun t : time) (lastTriggerToken : string) (startupDelayed : bool) (jitter : duration)
    : duration * bool * string * bool :=
  let triggerToken := TrimSpace (vs_ScanNowToken cfg) in
  let force := negb (is_empty triggerToken) && negb (str_eqb triggerToken lastTriggerToken) in
  let lastTriggerToken := if force then triggerToken else lastTriggerToken in
  if negb (vs_Enabled cfg) then (30 * second, force, lastTriggerToken, startupDelayed) else
  if force then (0, force, lastTriggerToken, startupDelayed) else
  if is_zero_time lastRun then (if startupDelayed then 0 else jitter, force, lastTriggerToken, true)
  else (remaining (vs_Every cfg) lastRun t, force, lastTriggerToken, startupDelayed).

(** ** Records *)

Record SyscollectorStatus := { ss_LastRunAt : time; ss_LastSentAt : time; ss_LastError : string; ss_LastHash : string; ss_LastPkgCount : Z }.

Record VulnScannerStatus := {
  vt_LastRunAt : time; vt_LastSentAt : time; vt_LastError : string; vt_LastPackagesHash : string;
  vt_LastFindingCount : Z; vt_LastStoredCount : Z; vt_LastScanUUID : string }.

(** protocol/vulnerability.go *)
Record VulnerabilityScan := {
  vn_ScanUUID : string; vn_Target : string; vn_Tool : string; vn_ToolVersion : string; vn_Status : string;
  vn_LifecycleState : string; vn_CurrentPhase : string; vn_QueuedAt : option time; vn_AcknowledgedAt : option time;
  vn_StartedAt : option time; vn_FinishedAt : option time; vn_LastProgressAt : option time; vn_TriggerSource : string;
  vn_ErrorSummary : string; vn_Scope : gmap string json; vn_Config : gmap string json; vn_Stats : gmap string json;
  vn_PhaseTimestamps : gmap string string }.
Record VulnerabilityBatch := { vb_Scan : option VulnerabilityScan; vb_Findings : list VulnerabilityFinding }.

(** What a run sees of the world: the packages, the sockets, the OSV server, the clock
    of the findings, the name of the host and a fresh identifier. *)
Record scan_input := {
  si_host : Inventory.view; si_sockets : Exposure.view; si_osv : nat → string → list osvQuery → osv_reply;
  si_clock : Z → time; si_hostname : option string; si_uuid : string }.

(** What the run records for its updates. *)
Record scan_log := { sl_phases : gmap string string; sl_scope : gmap string json; sl_config : gmap string json; sl_stats : gmap string json }.
(** What stays the same during a run. *)
Record scan_id := { sd_uuid : string; sd_target : string; sd_queuedAt : time; sd_trigger : string; sd_ack : option time; sd_started : option time }.

Definition hostnameOrFallback (h : option string) : string :=
  match h with Some h => let h := TrimSpace h in if is_empty h then "host" else h | None => "host" end.

Definition with_scope (k : string) (j : json) (l : scan_log) : scan_log :=
  {| sl_phases := sl_phases l; sl_scope := <[k := j]> (sl_scope l); sl_config := sl_config l; sl_stats := sl_stats l |}.
Definition with_stats (k : string) (j : json) (l : scan_log) : scan_log :=
  {| sl_phases := sl_phases l; sl_scope := sl_scope l; sl_config := sl_config l; sl_stats := <[k := j]> (sl_stats l) |}.
Definition with_url (url : string) (l : scan_log) : scan_log :=
  {| sl_phases := sl_phases l; sl_scope := sl_scope l; sl_config := <["osv_url"%string := JStr url]> (sl_config l); sl_stats := sl_stats l |}.

Section pollers.
Context (parse : string → option json) (marshal_events : list NetEvent → option string) (marshal_snapshot : InventorySnapshot → option string).
Context (marshal_batch : VulnerabilityBatch → option string).
Context (uuid_parse : string → option string) (valid_url : string → bool) (server : list request → request → net_reply) (q : queue_ops).
Context (sha256_hex : string → string) (goos goarch : string) (fmt_nano : time → string).
Context (by_name : list PackageEntry → list PackageEntry) (by_port : list PortService → list PortService).
(** The texts of errors, and [int(t)] of the float64 that a number is decoded to. *)
Context (send_error_text : send_error → string) (osv_error_text : osv_error → string) (float_int : json → Z).

Notation send_vuln := (SendVulnIngest parse valid_url server q).

(** ** The inventory *)

Definition inventory_options (cfg : SyscollectorConfig) (hostRoot : string) (caps : Caps) : Inventory.Options :=
  {| Inventory.o_CmdTimeout := sc_CmdTimeout cfg; Inventory.o_MaxOutputBytes := sc_MaxOutputBytes cfg; Inventory.o_MaxPackages := sc_MaxPackages cfg;
     Inventory.o_HostRoot := hostRoot; Inventory.o_NetCtxCaps := caps |}.

Definition inventory_status (lastRun lastSent : time) (err : string) (st : SyscollectorStatus) : SyscollectorStatus :=
  {| ss_LastRunAt := lastRun; ss_LastSentAt := lastSent; ss_LastError := err; ss_LastHash := ss_LastHash st; ss_LastPkgCount := ss_LastPkgCount st |}.

(** The root of the host and the limits of the network context are those of the
    configuration; no remote value changes them. *)
Definition runSyscollectorOnce (s : Sender.Sender) (cfg : SyscollectorConfig) (hostRoot : string) (caps : Caps) (host : Inventory.view)
    (st : SyscollectorStatus) : SM SyscollectorStatus :=
  collectedAt <- now;;
  let res := Inventory.Collect sha256_hex goos goarch collectedAt host (inventory_options cfg hostRoot caps) in
  lastRun <- now;;
  match res with
  | inl e => retM (inventory_status lastRun (ss_LastSentAt st) e st)
  | inr res =>
    let snap := r_Snapshot res in
    if negb (is_empty (is_PackagesHash snap)) && str_eqb (is_PackagesHash snap) (ss_LastHash st) then
      retM (inventory_status lastRun (ss_LastSentAt st) "" st)
    else
      ' (_, sendErr) <- SendInventorySnapshot parse marshal_snapshot valid_url server q s snap;;
      match sendErr with
      | Some e => retM (inventory_status lastRun 0 (send_error_text e) st)
      | None =>
        t <- now;;
        retM {| ss_LastRunAt := lastRun; ss_LastSentAt := t; ss_LastError := ""; ss_LastHash := is_PackagesHash snap; ss_LastPkgCount := is_PackagesCount snap |}
      end
  end.

(** ** Updates of a scan *)

(** The first time of a phase counts. *)
Definition recordScanPhaseTimestamp (phase : string) (at_ : time) (l : scan_log) : scan_log :=
  let phase := TrimSpace (ToLower phase) in
  if is_empty phase || is_zero_time at_ || bool_decide (is_Some (sl_phases l !! phase)) then l else
  {| sl_phases := <[phase := fmt_nano at_]> (sl_phases l); sl_scope := sl_scope l; sl_config := sl_config l; sl_stats := sl_stats l |}.

Definition buildMeta (d : scan_id) (l : scan_log) (state phase : string) (progressAt : time) (finishedAt : option time) (errSummary : string) : VulnerabilityScan := {|
  vn_ScanUUID := sd_uuid d; vn_Target := sd_target d; vn_Tool := "osv-wazuh-like"; vn_ToolVersion := "1"; vn_Status := state;
  vn_LifecycleState := state; vn_CurrentPhase := phase; vn_QueuedAt := Some (sd_queuedAt d); vn_AcknowledgedAt := sd_ack d;
  vn_StartedAt := sd_started d; vn_FinishedAt := finishedAt; vn_LastProgressAt := Some progressAt; vn_TriggerSource := sd_trigger d;
  vn_ErrorSummary := errSummary; vn_Scope := sl_scope l; vn_Config := sl_config l; vn_Stats := sl_stats l; vn_PhaseTimestamps := sl_phases l |}.

(** The callers ignore the result. *)
Definition sendVulnScanUpdate (s : Sender.Sender) (meta : VulnerabilityScan) : SM unit :=
  match marshal_batch {| vb_Scan := Some meta; vb_Findings := [] |} with
  | None => retM tt
  | Some payload => send_vuln s payload;;; retM tt
  end.

(** A phase of the running scan, at [t]. *)
Definition enter_phase (s : Sender.Sender) (d : scan_id) (phase : string) (t : time) (l : scan_log) : SM scan_log :=
  let l := recordScanPhaseTimestamp phase t l in
  sendVulnScanUpdate s (buildMeta d l "running" phase t None "");;; retM l.

Definition failed_status (err uuid : string) (st : VulnScannerStatus) : VulnScannerStatus :=
  {| vt_LastRunAt := vt_LastRunAt st; vt_LastSentAt := vt_LastSentAt st; vt_LastError := err; vt_LastPackagesHash := vt_LastPackagesHash st;
     vt_LastFindingCount := vt_LastFindingCount st; vt_LastStoredCount := vt_LastStoredCount st; vt_LastScanUUID := uuid |}.
Definition unsent (st : VulnScannerStatus) : VulnScannerStatus :=
  {| vt_LastRunAt := vt_LastRunAt st; vt_LastSentAt := 0; vt_LastError := vt_LastError st; vt_LastPackagesHash := vt_LastPackagesHash st;
     vt_LastFindingCount := vt_LastFindingCount st; vt_LastStoredCount := vt_LastStoredCount st; vt_LastScanUUID := vt_LastScanUUID st |}.
Definition started_status (t : time) (st : VulnScannerStatus) : VulnScannerStatus :=
  {| vt_LastRunAt := t; vt_LastSentAt := vt_LastSentAt st; vt_LastError := vt_LastError st; vt_LastPackagesHash := vt_LastPackagesHash st;
     vt_LastFindingCount := vt_LastFindingCount st; vt_LastStoredCount := vt_LastStoredCount st; vt_LastScanUUID := vt_LastScanUUID st |}.

(** The end of a run that failed. *)
Definition scan_failed (s : Sender.Sender) (d : scan_id) (l : scan_log) (err : string) (st : VulnScannerStatus) : SM VulnScannerStatus :=
  t <- now;;
  let l := recordScanPhaseTimestamp "failed" t l in
  sendVulnScanUpdate s (buildMeta d l "failed" "failed" t (Some t) err);;;
  retM (failed_status err (sd_uuid d) st).

(** ** The parts of a scan *)

Definition scan_options (cfg : VulnScannerConfig) (hostRoot : string) : Inventory.Options :=
  {| Inventory.o_CmdTimeout := vs_CmdTimeout cfg; Inventory.o_MaxOutputBytes := vs_MaxOutputBytes cfg; Inventory.o_MaxPackages := vs_MaxPackages cfg;
     Inventory.o_HostRoot := hostRoot; Inventory.o_NetCtxCaps := {| cp_MaxInterfaces := 0; cp_MaxNeighbors := 0; cp_MaxRoutes := 0; cp_MaxResolvers := 0 |} |}.

(** Whether the packages are asked for again. *)
Definition query_needed (forceScan : bool) (hash : string) (st : VulnScannerStatus) : bool :=
  negb (negb forceScan && negb (is_empty hash) && str_eqb hash (vt_LastPackagesHash st) && negb (is_zero_time (vt_LastSentAt st))).

Definition scan_exposure (s : Sender.Sender) (d : scan_id) (cfg : VulnScannerConfig) (hostRoot : string) (input : scan_input) (l : scan_log)
    : SM (scan_log * option HostExposure) :=
  t <- now;;
  if negb (vs_ExposureEnabled cfg) then retM (l, None) else
  l <- enter_phase s d "analyzing_exposure" t l;;
  t <- now;;
  match CollectHostExposure by_port t (si_sockets input) {| eo_HostRoot := hostRoot; eo_MaxPorts := 512 |} with
  | inl e => retM (with_stats "exposure_collection_error" (JStr e) l, None)
  | inr h =>
    retM (with_stats "exposed_ports" (JInt (Z.of_nat (length (he_ExposedPorts h))))
           (with_stats "exposure_surface_score" (JInt (he_SurfaceScore h)) (with_scope "exposure" (ToEvidence fmt_nano h) l)), Some h)
  end.

Definition osv_options (cfg : VulnScannerConfig) (agentID ecosystem target : string) (snap : InventorySnapshot) (exposure : option HostExposure) : OSVOptions := {|
  oo_BaseURL := vs_OSVURL cfg; oo_Ecosystem := ecosystem; oo_MinSeverity := vs_MinSeverity cfg; oo_AnalysisProfile := vs_AnalysisProfile cfg;
  oo_Exposure := exposure; oo_BatchSize := vs_QueryBatchSize cfg; oo_HTTPTimeout := if vs_HTTPTimeout cfg <=? 0 then 60 * second else vs_HTTPTimeout cfg; oo_AssetKey := "self"; oo_AssetAgentID := agentID;
  oo_TargetLabel := target; oo_OS := default ∅ (is_OS snap); oo_PackageManager := is_Manager snap |}.

Definition query_stats (st : OSVStats) (l : scan_log) : scan_log :=
  with_stats "emitted_findings" (JInt (os_EmittedFindings st)) (with_stats "received_vulns" (JInt (os_ReceivedVulns st)) (with_stats "queried_packages" (JInt (os_QueriedPackages st)) l)).
Definition skipped_stats (l : scan_log) : scan_log :=
  query_stats no_stats (with_stats "query_skip_reason" (JStr "packages_unchanged") (with_stats "query_skipped" (JBool true) (with_stats "inventory_unchanged" (JBool true) l))).

(** The findings; an error when a request was not answered. *)
Definition scan_query (s : Sender.Sender) (d : scan_id) (o : OSVOptions) (pkgs : list PackageEntry) (input : scan_input) (doPkg : bool) (l : scan_log)
    : SM (scan_log * (string + list VulnerabilityFinding)) :=
  if negb doPkg then retM (skipped_stats l, inr []) else
  t <- now;;
  l <- enter_phase s d "querying_source" t l;;
  let '(findings, stats, err) := QueryOSV parse sha256_hex fmt_nano by_name (si_clock input) (si_osv input) pkgs o in
  match err with
  | Some e => retM (l, inl (osv_error_text e))
  | None => retM (query_stats stats l, inr findings)
  end.

Definition last_member (k : string) (kvs : list (string * json)) : option json := snd <$> last (List.filter (λ kv, str_eqb kv.1 k) kvs).
Definition parseStoredFindings (resp : string) : Z :=
  match parse resp with
  | Some (JObj kvs) => match last_member "stored_findings" kvs with Some ((JInt _ | JFrac _) as j) => float_int j | _ => 0 end
  | _ => 0
  end.

Definition summary_event (agentID : string) (d : scan_id) (cfg : VulnScannerConfig) (forceScan doPkg : bool) (manager ecosystem : string) (stored : Z)
    (exposure : option HostExposure) (l : scan_log) (start finishedAt stop : time) : NetEvent :=
  Build_NetEvent "" agentID "vuln_scan" 1 finishedAt "" "" 0 0 "" 0 (Some (list_to_map
    [("scan_uuid", JStr (sd_uuid d)); ("tool", JStr "osv"); ("package_manager", JStr manager); ("ecosystem", JStr ecosystem);
     ("queried_packages", default JNull (sl_stats l !! "queried_packages")); ("emitted_findings", default JNull (sl_stats l !! "emitted_findings"));
     ("stored_findings", JInt stored); ("analysis_profile", JStr (vs_AnalysisProfile cfg)); ("exposure_enabled", JBool (vs_ExposureEnabled cfg));
     ("exposure_score", JInt (match exposure with Some h => he_SurfaceScore h | None => 0 end)); ("manual_trigger", JBool forceScan);
     ("inventory_unchanged", JBool (negb doPkg)); ("duration_ms", JInt (Z.quot (time_sub stop start) millisecond))]%string)).

Definition scan_uuid (forceScan : bool) (token uuid : string) : string :=
  let tok := TrimSpace token in if forceScan && (8 <=? strlen tok) && (strlen tok <=? 36) then tok else uuid.

Definition base_log (cfg : VulnScannerConfig) (hostRoot : string) (forceScan : bool) (start : time) : scan_log :=
  recordScanPhaseTimestamp "queued" start {|
    sl_phases := ∅; sl_stats := ∅;
    sl_scope := list_to_map [("type", JStr "host_packages_inventory"); ("host_root", JStr (TrimSpace hostRoot)); ("analysis_profile", JStr (vs_AnalysisProfile cfg));
                 ("manual_trigger", JBool forceScan); ("scan_now_token", JStr (TrimSpace (vs_ScanNowToken cfg)))]%string;
    sl_config := list_to_map [("min_severity", JStr (vs_MinSeverity cfg)); ("query_batch_size", JInt (vs_QueryBatchSize cfg)); ("osv_url", JStr (vs_OSVURL cfg));
                 ("analysis_profile", JStr (vs_AnalysisProfile cfg)); ("exposure_enabled", JBool (vs_ExposureEnabled cfg)); ("manual_trigger", JBool forceScan)]%string |}.

Definition effective_url (cfg : VulnScannerConfig) : VulnScannerConfig :=
  if is_empty (TrimSpace (vs_OSVURL cfg)) then
    {| vs_Enabled := vs_Enabled cfg; vs_Every := vs_Every cfg; vs_OSVURL := "https://api.osv.dev"; vs_MinSeverity := vs_MinSeverity cfg;
       vs_AnalysisProfile := vs_AnalysisProfile cfg; vs_ExposureEnabled := vs_ExposureEnabled cfg; vs_ScanNowToken := vs_ScanNowToken cfg;
       vs_QueryBatchSize := vs_QueryBatchSize cfg; vs_MaxPackages := vs_MaxPackages cfg; vs_CmdTimeout := vs_CmdTimeout cfg;
       vs_HTTPTimeout := vs_HTTPTimeout cfg; vs_MaxOutputBytes := vs_MaxOutputBytes cfg |}
  else cfg.
Definition inventory_log (cfg : VulnScannerConfig) (snap : InventorySnapshot) (ecosystem : string) (l : scan_log) : scan_log :=
  let l := if is_empty (TrimSpace (vs_OSVURL cfg)) then with_url "https://api.osv.dev" l else l in
  with_stats "inventory_packages" (JInt (Z.of_nat (length (default [] (is_Packages snap)))))
    (with_scope "packages_hash" (JStr (is_PackagesHash snap)) (with_scope "ecosystem" (JStr ecosystem) (with_scope "package_manager" (JStr (is_Manager snap)) l))).

(** The delivery of the findings and what it leaves in the status. *)
Definition scan_ingest (s : Sender.Sender) (d : scan_id) (l : scan_log) (hash : string) (findings : list VulnerabilityFinding) (st : VulnScannerStatus)
    : SM (VulnScannerStatus * option (Z * scan_log * time)) :=
  finishedAt <- now;;
  let l := recordScanPhaseTimestamp "completed" finishedAt l in
  match marshal_batch {| vb_Scan := Some (buildMeta d l "completed" "completed" finishedAt (Some finishedAt) ""); vb_Findings := findings |} with
  | None => st <- scan_failed s d l "marshal ingest" st;; retM (st, None)
  | Some payload =>
    ' (_, respBody, sendErr) <- send_vuln s payload;;
    let stored := parseStoredFindings respBody in
    match sendErr with
    | Some e => st <- scan_failed s d l (send_error_text e) st;; retM (unsent st, None)
    | None =>
      t <- now;;
      retM ({| vt_LastRunAt := vt_LastRunAt st; vt_LastSentAt := t; vt_LastError := ""; vt_LastPackagesHash := hash;
               vt_LastFindingCount := Z.of_nat (length findings); vt_LastStoredCount := stored; vt_LastScanUUID := sd_uuid d |}, Some (stored, l, finishedAt))
    end
  end.

(** From the collected inventory on. *)
Definition scan_inventory (s : Sender.Sender) (agentID : string) (emitSummary : bool) (cfg : VulnScannerConfig) (hostRoot : string) (input : scan_input)
    (forceScan : bool) (start : time) (d : scan_id) (l : scan_log) (snap : InventorySnapshot) (st : VulnScannerStatus) : SM VulnScannerStatus :=
  let doPkg := query_needed forceScan (is_PackagesHash snap) st in
  let ecosystem := InferEcosystem (is_Manager snap) (default ∅ (is_OS snap)) in
  let l := inventory_log cfg snap ecosystem l in
  let cfg := effective_url cfg in
  ' (l, exposure) <- scan_exposure s d cfg hostRoot input l;;
  ' (l, r) <- scan_query s d (osv_options cfg agentID ecosystem (sd_target d) snap exposure) (default [] (is_Packages snap)) input doPkg l;;
  match r with
  | inl e => scan_failed s d l e st
  | inr findings =>
    t <- now;; l <- enter_phase s d "normalizing_findings" t l;;
    t <- now;; l <- enter_phase s d "ingesting_results" t l;;
    ' (st, sent) <- scan_ingest s d l (is_PackagesHash snap) findings st;;
    match sent with
    | Some (stored, l, finishedAt) =>
      if emitSummary then
        stop <- now;;
        SendEvents parse marshal_events uuid_parse valid_url server q s
          [summary_event agentID d cfg forceScan doPkg (is_Manager snap) ecosystem stored exposure l start finishedAt stop];;; retM st
      else retM st
    | None => retM st
    end
  end.

Definition runVulnOnce (s : Sender.Sender) (agentID : string) (emitSummary : bool) (cfg : VulnScannerConfig) (hostRoot : string) (input : scan_input)
    (forceScan : bool) (st : VulnScannerStatus) : SM VulnScannerStatus :=
  start <- now;;
  let d := {| sd_uuid := scan_uuid forceScan (vs_ScanNowToken cfg) (si_uuid input); sd_target := hostnameOrFallback (si_hostname input); sd_queuedAt := start;
              sd_trigger := if forceScan then "manual" else "scheduled"; sd_ack := None; sd_started := None |} in
  let l := base_log cfg hostRoot forceScan start in
  ' (d, l) <- (if forceScan then
      ack <- now;;
      let d := {| sd_uuid := sd_uuid d; sd_target := sd_target d; sd_queuedAt := start; sd_trigger := sd_trigger d; sd_ack := Some ack; sd_started := None |} in
      let l := recordScanPhaseTimestamp "acknowledged" ack l in
      sendVulnScanUpdate s (buildMeta d l "acknowledged" "acknowledged" ack None "");;; retM (d, l)
    else retM (d, l));;
  startedAt <- now;;
  let d := {| sd_uuid := sd_uuid d; sd_target := sd_target d; sd_queuedAt := start; sd_trigger := sd_trigger d; sd_ack := sd_ack d; sd_started := Some startedAt |} in
  l <- enter_phase s d "collecting_inventory" startedAt (recordScanPhaseTimestamp "running" startedAt l);;
  let st := started_status startedAt st in
  collectedAt <- now;;
  match Inventory.Collect sha256_hex goos goarch collectedAt (si_host input) (scan_options cfg hostRoot) with
  | inl e => scan_failed s d l e st
  | inr res => scan_inventory s agentID emitSummary cfg hostRoot input forceScan start d l (r_Snapshot res) st
  end.
End pollers.

(** ** What was delivered *)

Section delivered.
Context (parse : string → option json) (marshal_events : list NetEvent → option string) (marshal_snapshot : InventorySnapshot → option string).
Context (marshal_batch : VulnerabilityBatch → option string).
Context (uuid_parse : string → option string) (valid_url : string → bool) (server : list request → request → net_reply).
Context (opts : Spool.Options) (q : queue_ops) `{!QueueLaws opts q}.
Context (sha256_hex : string → string) (goos goarch : string) (fmt_nano : time → string).
Context (by_name : list PackageEntry → list PackageEntry) (by_port : list PortService → list PortService).
Context (send_error_text : send_error → string) (osv_error_text : osv_error → string) (float_int : json → Z).
Context (s : Sender.Sender).
Hypothesis Hretries : 0 <= s_retries s.
Hypothesis Hbatch : 0 < s_maxBatch s.
Hypothesis Hurl : s_baseURL s ≠ "".
(** The encoding of a batch is a document. *)
Hypothesis Hmarshal : ∀ b, marshal_batch b ≠ Some EmptyString.
#[local] Set Default Proof Using "Type".

(** The server acknowledged the payload. *)
Definition acknowledged (kind payload : string) (net : list request) : Prop :=
  ∃ batch st, replied parse server kind (endpointFor s kind) batch payload net st None.

Lemma acknowledged_mono kind payload net net' : net `prefix_of` net' → acknowledged kind payload net → acknowledged kind payload net'.
Proof. intros [l ->] (b & st & H). exists b, st. by apply replied_mono. Qed.

(** A property of the requests made that more requests do not falsify. *)
Definition lasting (K : list request → Prop) : Prop := ∀ net net', net `prefix_of` net' → K net → K net'.

Lemma deliver_acknowledges K kind payload : lasting K →
  triple (λ w, K (sw_net w)) (deliver parse valid_url server q s kind "" payload)
    (λ r w, K (sw_net w) ∧ (r.2 = None → acknowledged kind payload (sw_net w))) (λ _ _, False) (λ _, True).
Proof using QueueLaws0 Hretries.
  intros HK. apply triple_start. intros w0 H0. eapply triple_conseq; [by apply (deliver_spec parse valid_url server opts q s kind "" payload (sw_net w0))|by intros w ->|..|done|done].
  intros r w (batch & l & Hnet & _ & _ & Hr). split; [eapply HK; [|exact H0]; by exists l|].
  intros E. rewrite E in Hr. by exists batch, r.1.1.
Qed.

Lemma send_vuln_acknowledges K payload : lasting K → payload ≠ "" →
  triple (λ w, K (sw_net w)) (SendVulnIngest parse valid_url server q s payload)
    (λ r w, K (sw_net w) ∧ (r.2 = None → acknowledged KindVuln payload (sw_net w))) (λ _ _, False) (λ _, True).
Proof using QueueLaws0 Hretries Hurl.
  intros HK Hp. unfold SendVulnIngest. rewrite (proj2 (is_empty_false _) Hurl), (proj2 (is_empty_false _) Hp). by apply deliver_acknowledges.
Qed.

Lemma update_lasting K meta : lasting K →
  triple (λ w, K (sw_net w)) (sendVulnScanUpdate parse marshal_batch valid_url server q s meta) (λ _ w, K (sw_net w)) (λ _ _, False) (λ _, True).
Proof using QueueLaws0 Hretries Hurl Hmarshal.
  intros HK. unfold sendVulnScanUpdate. destruct (marshal_batch _) as [payload|] eqn:E; [|by apply triple_ret].
  eapply triple_bind with (Q' := λ _ w, K (sw_net w)).
  - eapply triple_conseq; [apply (send_vuln_acknowledges K payload HK)|done|by intros r w [? _]|done|done]. intros ->. by eapply Hmarshal.
  - intros _. by apply triple_ret.
Qed.

Lemma enter_phase_lasting K d phase t l : lasting K →
  triple (λ w, K (sw_net w)) (enter_phase parse marshal_batch valid_url server q fmt_nano s d phase t l) (λ _ w, K (sw_net w)) (λ _ _, False) (λ _, True).
Proof using QueueLaws0 Hretries Hurl Hmarshal.
  intros HK. unfold enter_phase. eapply triple_bind; [by apply update_lasting|]. intros ?. by apply triple_ret.
Qed.

Lemma scan_failed_lasting K d l err st : lasting K →
  triple (λ w, K (sw_net w)) (scan_failed parse marshal_batch valid_url server q fmt_nano s d l err st)
    (λ st' w, st' = failed_status err (sd_uuid d) st ∧ K (sw_net w)) (λ _ _, False) (λ _, True).
Proof using QueueLaws0 Hretries Hurl Hmarshal.
  intros HK. unfold scan_failed. eapply triple_bind with (Q' := λ _ w, K (sw_net w)); [by apply triple_now|]. intros t.
  eapply triple_bind; [by apply update_lasting|]. intros ?. by apply triple_ret.
Qed.

Lemma send_events_lasting K events : lasting K →
  triple (λ w, K (sw_net w)) (SendEvents parse marshal_events uuid_parse valid_url server q s events) (λ _ w, K (sw_net w)) (λ _ _, False) (λ _, True).
Proof using QueueLaws0 Hretries Hurl Hbatch.
  intros HK. apply triple_start. intros w0 H0.
  eapply triple_conseq; [by apply (SendEvents_spec parse marshal_events uuid_parse valid_url server opts q s events w0)|done| |done|done].
  intros [[res err] evs] w (Hp & _). by eapply HK.
Qed.

(** *** Scans *)

Notation query := (QueryOSV parse sha256_hex fmt_nano by_name).

(** The batch of a finished scan of the packages with this hash, with every finding of a
    query that was answered to its end. *)
Definition complete_batch (hash : string) (findings : list VulnerabilityFinding) : Prop :=
  ∃ clock osv o pkgs stats, hashPackages sha256_hex pkgs = hash ∧ query clock osv pkgs o = (findings, stats, None).
Definition scanned (hash : string) (net : list request) : Prop :=
  ∃ b m payload, marshal_batch b = Some payload ∧ vb_Scan b = Some m ∧ vn_Status m = "completed" ∧
    vn_Scope m !! "packages_hash"%string = Some (JStr hash) ∧ complete_batch hash (vb_Findings b) ∧ acknowledged KindVuln payload net.
(** When the status says that findings were sent, they were, for its hash. *)
Definition scan_inv (st : VulnScannerStatus) (net : list request) : Prop :=
  is_zero_time (vt_LastSentAt st) = true ∨ scanned (vt_LastPackagesHash st) net.

Lemma scanned_lasting hash : lasting (scanned hash).
Proof.
  intros net net' Hp (b & m & payload & ? & ? & ? & ? & ? & ?). exists b, m, payload. split_and!; try done. by eapply acknowledged_mono.
Qed.
Lemma scan_inv_lasting st : lasting (scan_inv st).
Proof. intros net net' Hp [?|?]; [by left|right]. by eapply scanned_lasting. Qed.

(** What is known before the findings are delivered. *)
Definition ready (st : VulnScannerStatus) (hash : string) (findings : list VulnerabilityFinding) (net : list request) : Prop :=
  scan_inv st net ∧ (complete_batch hash findings ∨ scanned hash net).
Lemma ready_lasting st hash findings : lasting (ready st hash findings).
Proof. intros net net' Hp [H1 [H2|H2]]; (split; [by eapply scan_inv_lasting|]); [by left|right; by eapply scanned_lasting]. Qed.

(** The log names the hash of the packages. *)
Definition names_hash (hash : string) (l : scan_log) : Prop := sl_scope l !! "packages_hash"%string = Some (JStr hash).
Lemma names_hash_phase hash phase t l : names_hash hash l → names_hash hash (recordScanPhaseTimestamp fmt_nano phase t l).
Proof. intros H. unfold recordScanPhaseTimestamp. by case_match. Qed.
Lemma names_hash_stats hash k j l : names_hash hash l → names_hash hash (with_stats k j l).
Proof. done. Qed.

Lemma ingest_spec d l hash findings st : names_hash hash l →
  triple (λ w, ready st hash findings (sw_net w)) (scan_ingest parse marshal_batch valid_url server q fmt_nano send_error_text float_int s d l hash findings st)
    (λ r w, scan_inv r.1 (sw_net w)) (λ _ _, False) (λ _, True).
Proof using QueueLaws0 Hretries Hurl Hmarshal.
  intros Hl. unfold scan_ingest. eapply triple_bind with (Q' := λ _ w, ready st hash findings (sw_net w)); [by apply triple_now|]. intros t. cbv zeta.
  set (l' := recordScanPhaseTimestamp fmt_nano "completed" t l). set (b := {| vb_Scan := _; vb_Findings := _ |}).
  assert (∀ l0 err, triple (λ w, ready st hash findings (sw_net w)) (scan_failed parse marshal_batch valid_url server q fmt_nano s d l0 err st)
    (λ st' w, st' = failed_status err (sd_uuid d) st ∧ ready st hash findings (sw_net w)) (λ _ _, False) (λ _, True)) as Hfail by (intros; apply scan_failed_lasting, ready_lasting).
  destruct (marshal_batch b) as [payload|] eqn:E.
  2:{ eapply triple_bind; [apply Hfail|]. intros st'. apply triple_ret. by intros w [-> [? _]]. }
  eapply triple_bind; [apply (send_vuln_acknowledges (ready st hash findings) payload); [apply ready_lasting|intros ->; by eapply Hmarshal]|].
  intros [[status body] [e|]]; cbn [snd].
  - eapply triple_bind with (Q' := λ st' w, st' = failed_status (send_error_text e) (sd_uuid d) st ∧ ready st hash findings (sw_net w)).
    { eapply triple_conseq; [apply (Hfail l' (send_error_text e))|by intros w [? _]|done..]. }
    intros st'. apply triple_ret. intros w [-> _]. by left.
  - eapply triple_bind with (Q' := λ _ w, ready st hash findings (sw_net w) ∧ acknowledged KindVuln payload (sw_net w)).
    { apply triple_now. intros _ w [? H]. split; [done|by apply H]. }
    intros t'. apply triple_ret. intros w [[_ [Hc|Hs]] Ha]; right; [|done].
    exists b, (buildMeta d l' "completed" "completed" t (Some t) ""), payload. split_and!; try done. by apply names_hash_phase.
Qed.

Lemma enter_phase_spec K d phase t l hash : lasting K → names_hash hash l →
  triple (λ w, K (sw_net w)) (enter_phase parse marshal_batch valid_url server q fmt_nano s d phase t l) (λ l' w, K (sw_net w) ∧ names_hash hash l') (λ _ _, False) (λ _, True).
Proof using QueueLaws0 Hretries Hurl Hmarshal.
  intros HK Hl. unfold enter_phase. eapply triple_bind; [by apply update_lasting|]. intros ?. apply triple_ret. intros w Hw. split; [done|]. by apply names_hash_phase.
Qed.

Lemma exposure_spec K d cfg hostRoot input l hash : lasting K → names_hash hash l →
  triple (λ w, K (sw_net w)) (scan_exposure parse marshal_batch valid_url server q fmt_nano by_port s d cfg hostRoot input l)
    (λ r w, K (sw_net w) ∧ names_hash hash r.1) (λ _ _, False) (λ _, True).
Proof using QueueLaws0 Hretries Hurl Hmarshal.
  intros HK Hl. unfold scan_exposure. eapply triple_bind with (Q' := λ _ w, K (sw_net w)); [by apply triple_now|]. intros t.
  destruct (negb (vs_ExposureEnabled cfg)); [by apply triple_ret|].
  eapply triple_bind; [by apply (enter_phase_spec K _ _ _ _ hash)|]. intros l1. apply triple_pure_r. intros Hl1.
  eapply triple_bind with (Q' := λ _ w, K (sw_net w)); [by apply triple_now|]. intros t1.
  destruct (CollectHostExposure _ _ _ _); apply triple_ret; intros w Hw; (split; [done|]); [done|]. unfold names_hash. cbn. by rewrite lookup_insert_ne.
Qed.

Lemma query_spec d o pkgs input doPkg l hash st : names_hash hash l → hashPackages sha256_hex pkgs = hash →
  (doPkg = false → ∀ net, scan_inv st net → scanned hash net) →
  triple (λ w, scan_inv st (sw_net w)) (scan_query parse marshal_batch valid_url server q sha256_hex fmt_nano by_name osv_error_text s d o pkgs input doPkg l)
    (λ r w, scan_inv st (sw_net w) ∧ names_hash hash r.1 ∧ match r.2 with inl _ => True | inr findings => ready st hash findings (sw_net w) end) (λ _ _, False) (λ _, True).
Proof using QueueLaws0 Hretries Hurl Hmarshal.
  intros Hl Hh Hskip. unfold scan_query. destruct doPkg; cbn [negb].
  - eapply triple_bind with (Q' := λ _ w, scan_inv st (sw_net w)); [by apply triple_now|]. intros t.
    eapply triple_bind; [by apply (enter_phase_spec _ _ _ _ _ hash); [apply scan_inv_lasting|]|]. intros l1. apply triple_pure_r. intros Hl1.
    destruct (QueryOSV _ _ _ _ _ _ _ _) as [[findings stats] [e|]] eqn:E; apply triple_ret; intros w Hw; (split; [done|]); (split; [done|]); [done|].
    split; [done|]. left. by exists (si_clock input), (si_osv input), o, pkgs, stats.
  - apply triple_ret. intros w Hw. split; [done|]. split; [done|]. split; [done|]. right. by apply Hskip.
Qed.

(** A query that is not needed was answered and delivered before. *)
Lemma query_not_needed force hash st net : query_needed force hash st = false → scan_inv st net → scanned hash net.
Proof.
  unfold query_needed. intros H%negb_false_iff. rewrite !andb_true_iff in H. destruct H as [[[_ _] Heq%str_eqb_eq] Hz%negb_true_iff].
  intros [Hz'|Hs]; [congruence|]. by rewrite Heq.
Qed.

Lemma names_hash_inventory cfg snap ecosystem l : names_hash (is_PackagesHash snap) (inventory_log cfg snap ecosystem l).
Proof. unfold names_hash, inventory_log. cbn. by rewrite lookup_insert_eq. Qed.

Lemma inventory_spec agentID emit cfg hostRoot input force start d l snap st :
  is_PackagesHash snap = hashPackages sha256_hex (default [] (is_Packages snap)) →
  triple (λ w, scan_inv st (sw_net w))
    (scan_inventory parse marshal_events marshal_batch uuid_parse valid_url server q sha256_hex fmt_nano by_name by_port send_error_text osv_error_text float_int
       s agentID emit cfg hostRoot input force start d l snap st)
    (λ st' w, scan_inv st' (sw_net w)) (λ _ _, False) (λ _, True).
Proof using QueueLaws0 Hretries Hurl Hmarshal Hbatch.
  intros Hh. unfold scan_inventory. set (hash := is_PackagesHash snap) in *. cbv zeta.
  eapply triple_bind; [apply (exposure_spec (scan_inv st) _ _ _ _ _ hash); [apply scan_inv_lasting|apply names_hash_inventory]|].
  intros [l1 exposure]. apply triple_pure_r. cbn [fst]. intros Hl1.
  eapply triple_bind; [apply (query_spec _ _ _ _ _ _ hash st Hl1); [done|intros H net; by apply (query_not_needed force)]|].
  intros [l2 [e|findings]]; cbn [fst snd].
  - eapply triple_conseq; [apply (scan_failed_lasting (scan_inv st)), scan_inv_lasting|by intros w (? & _)|by intros ? w [-> ?]|done..].
  - eapply triple_weaken with (P' := λ w, names_hash hash l2 ∧ ready st hash findings (sw_net w)); [by intros w (_ & ? & ?)|]. apply triple_pure. intros Hl2.
    eapply triple_bind with (Q' := λ _ w, ready st hash findings (sw_net w)); [by apply triple_now|]. intros t1.
    eapply triple_bind; [apply (enter_phase_spec (ready st hash findings) _ _ _ _ hash); [apply ready_lasting|done]|]. intros l3. apply triple_pure_r. intros Hl3.
    eapply triple_bind with (Q' := λ _ w, ready st hash findings (sw_net w)); [by apply triple_now|]. intros t2.
    eapply triple_bind; [apply (enter_phase_spec (ready st hash findings) _ _ _ _ hash); [apply ready_lasting|done]|]. intros l4. apply triple_pure_r. intros Hl4.
    eapply triple_bind; [by apply ingest_spec|]. intros [st' [[[stored l5] fin]|]]; cbn [fst]; [|by apply triple_ret].
    destruct emit; [|by apply triple_ret].
    eapply triple_bind with (Q' := λ _ w, scan_inv st' (sw_net w)); [by apply triple_now|]. intros stop.
    eapply triple_bind; [apply (send_events_lasting (scan_inv st')), scan_inv_lasting|]. intros ?. by apply triple_ret.
Qed.

Definition scan_once := runVulnOnce parse marshal_events marshal_batch uuid_parse valid_url server q sha256_hex goos goarch fmt_nano by_name by_port
  send_error_text osv_error_text float_int s.

Lemma started_inv t st net : scan_inv st net → scan_inv (started_status t st) net.
Proof. done. Qed.

Lemma run_spec agentID emit cfg hostRoot input force st :
  triple (λ w, scan_inv st (sw_net w)) (scan_once agentID emit cfg hostRoot input force st) (λ st' w, scan_inv st' (sw_net w)) (λ _ _, False) (λ _, True).
Proof using QueueLaws0 Hretries Hurl Hmarshal Hbatch.
  unfold scan_once, runVulnOnce. eapply triple_bind with (Q' := λ _ w, scan_inv st (sw_net w)); [by apply triple_now|]. intros start. cbv zeta.
  eapply triple_bind with (Q' := λ _ w, scan_inv st (sw_net w)).
  { destruct force; [|by apply triple_ret]. eapply triple_bind with (Q' := λ _ w, scan_inv st (sw_net w)); [by apply triple_now|]. intros ack.
    eapply triple_bind; [apply (update_lasting (scan_inv st)), scan_inv_lasting|]. intros ?. by apply triple_ret. }
  intros [d l]. eapply triple_bind with (Q' := λ _ w, scan_inv st (sw_net w)); [by apply triple_now|]. intros startedAt.
  eapply triple_bind; [apply (enter_phase_lasting (scan_inv st)), scan_inv_lasting|]. intros l1.
  eapply triple_bind with (Q' := λ _ w, scan_inv (started_status startedAt st) (sw_net w)); [by apply triple_now|]. intros t.
  destruct (Inventory.Collect _ _ _ _ _ _) as [e|res] eqn:E.
  - eapply triple_conseq; [apply (scan_failed_lasting (scan_inv (started_status startedAt st))), scan_inv_lasting|done|by intros ? w [-> ?]|done..].
  - apply inventory_spec. by eapply Collect_hash.
Qed.

(** Runs one after the other, each with its own configuration and world. *)
Record scan_run := { rn_cfg : VulnScannerConfig; rn_hostRoot : string; rn_input : scan_input; rn_force : bool }.
Fixpoint scans (agentID : string) (emit : bool) (runs : list scan_run) (st : VulnScannerStatus) : SM VulnScannerStatus :=
  match runs with
  | [] => retM st
  | r :: runs => st <- scan_once agentID emit (rn_cfg r) (rn_hostRoot r) (rn_input r) (rn_force r) st;; scans agentID emit runs st
  end.

Lemma scans_spec agentID emit runs : ∀ st,
  triple (λ w, scan_inv st (sw_net w)) (scans agentID emit runs st) (λ st' w, scan_inv st' (sw_net w)) (λ _ _, False) (λ _, True).
Proof using QueueLaws0 Hretries Hurl Hmarshal Hbatch.
  induction runs as [|r runs IH]; intros st; [by apply triple_ret|]. cbn [scans]. eapply triple_bind; [apply run_spec|]. intros st'. apply IH.
Qed.
End delivered.

Definition no_scan : VulnScannerStatus :=
  {| vt_LastRunAt := 0; vt_LastSentAt := 0; vt_LastError := ""; vt_LastPackagesHash := ""; vt_LastFindingCount := 0; vt_LastStoredCount := 0; vt_LastScanUUID := "" |}.


(** ** Inventories *)

Section inventories.
Context (parse : string → option json) (marshal_snapshot : InventorySnapshot → option string).
Context (valid_url : string → bool) (server : list request → request → net_reply).
Context (opts : Spool.Options) (q : queue_ops) `{!QueueLaws opts q}.
Context (sha256_hex : string → string) (goos goarch : string) (send_error_text : send_error → string).
Context (s : Sender.Sender).
Hypothesis Hretries : 0 <= s_retries s.
#[local] Set Default Proof Using "Type".

(** The server acknowledged a snapshot with this hash. *)
Definition stored_inventory (hash : string) (net : list request) : Prop :=
  ∃ snap payload, marshal_snapshot snap = Some payload ∧ is_PackagesHash snap = hash ∧ acknowledged parse server s KindInventory payload net.
Definition inventory_inv (st : SyscollectorStatus) (net : list request) : Prop := ss_LastHash st = "" ∨ stored_inventory (ss_LastHash st) net.

Lemma inventory_inv_lasting st : lasting (inventory_inv st).
Proof.
  intros net net' Hp [?|(snap & payload & ? & ? & ?)]; [by left|right]. exists snap, payload. split_and!; try done. by eapply acknowledged_mono.
Qed.

(** The server acknowledged this snapshot, with an absent map or list written as an empty one. *)
Definition stored_snapshot (snap : InventorySnapshot) (net : list request) : Prop :=
  ∃ snap' payload, marshal_snapshot snap' = Some payload ∧ is_PackagesHash snap' = is_PackagesHash snap ∧ is_Extra snap' = Some (default ∅ (is_Extra snap)) ∧
    is_Packages snap' = Some (default [] (is_Packages snap)) ∧ acknowledged parse server s KindInventory payload net.

Lemma send_snapshot_spec K snap : lasting K →
  triple (λ w, K (sw_net w)) (SendInventorySnapshot parse marshal_snapshot valid_url server q s snap)
    (λ r w, K (sw_net w) ∧ (r.2 = None → stored_snapshot snap (sw_net w))) (λ _ _, False) (λ _, True).
Proof using QueueLaws0 Hretries.
  intros HK. unfold SendInventorySnapshot. destruct (is_empty (s_baseURL s)); [by apply triple_ret|]. cbv zeta. set (snap' := {| is_SchemaVersion := _ |}).
  destruct (marshal_snapshot snap') as [payload|] eqn:E; [|by apply triple_ret].
  eapply triple_bind; [by apply (deliver_acknowledges parse valid_url server opts q s Hretries K)|].
  intros [[status body] err]. apply triple_ret. cbn [snd]. intros w [Hi Ha]. split; [done|]. intros He. exists snap', payload. split_and!; [done..|by apply Ha].
Qed.

Lemma send_inventory_spec snap st :
  triple (λ w, inventory_inv st (sw_net w)) (SendInventorySnapshot parse marshal_snapshot valid_url server q s snap)
    (λ r w, inventory_inv st (sw_net w) ∧ (r.2 = None → stored_inventory (is_PackagesHash snap) (sw_net w))) (λ _ _, False) (λ _, True).
Proof using QueueLaws0 Hretries.
  eapply triple_conseq; [apply (send_snapshot_spec (inventory_inv st)), inventory_inv_lasting|done| |done|done].
  intros r w [? H]. split; [done|]. intros Hr. destruct (H Hr) as (snap' & payload & ? & Hh & _ & _ & ?). by exists snap', payload.
Qed.

Definition inventory_once := runSyscollectorOnce parse marshal_snapshot valid_url server q sha256_hex goos goarch send_error_text s.

Lemma inventory_run_spec cfg hostRoot caps host st :
  triple (λ w, inventory_inv st (sw_net w)) (inventory_once cfg hostRoot caps host st) (λ st' w, inventory_inv st' (sw_net w)) (λ _ _, False) (λ _, True).
Proof using QueueLaws0 Hretries.
  unfold inventory_once, runSyscollectorOnce. eapply triple_bind with (Q' := λ _ w, inventory_inv st (sw_net w)); [by apply triple_now|]. intros t.
  eapply triple_bind with (Q' := λ _ w, inventory_inv st (sw_net w)); [by apply triple_now|]. intros lastRun.
  destruct (Inventory.Collect _ _ _ _ _ _) as [e|res]; [by apply triple_ret|]. cbv zeta.
  destruct (negb (is_empty (is_PackagesHash (r_Snapshot res))) && str_eqb (is_PackagesHash (r_Snapshot res)) (ss_LastHash st)); [by apply triple_ret|].
  eapply triple_bind; [apply send_inventory_spec|]. intros [status [e|]]; cbn [snd]; [by apply triple_ret; intros w [? _]|].
  eapply triple_bind with (Q' := λ _ w, stored_inventory (is_PackagesHash (r_Snapshot res)) (sw_net w)); [by apply triple_now; intros ? w [_ H]; apply H|].
  intros t'. apply triple_ret. intros w Hw. by right.
Qed.

Record inventory_run := { iv_cfg : SyscollectorConfig; iv_hostRoot : string; iv_caps : Caps; iv_host : Inventory.view }.
Fixpoint inventories (runs : list inventory_run) (st : SyscollectorStatus) : SM SyscollectorStatus :=
  match runs with
  | [] => retM st
  | r :: runs => st <- inventory_once (iv_cfg r) (iv_hostRoot r) (iv_caps r) (iv_host r) st;; inventories runs st
  end.
Lemma inventories_spec runs : ∀ st,
  triple (λ w, inventory_inv st (sw_net w)) (inventories runs st) (λ st' w, inventory_inv st' (sw_net w)) (λ _ _, False) (λ _, True).
Proof using QueueLaws0 Hretries.
  induction runs as [|r runs IH]; intros st; [by apply triple_ret|]. cbn [inventories]. eapply triple_bind; [apply inventory_run_spec|]. intros st'. apply IH.
Qed.
End inventories.

Definition no_inventory : SyscollectorStatus := {| ss_LastRunAt := 0; ss_LastSentAt := 0; ss_LastError := ""; ss_LastHash := ""; ss_LastPkgCount := 0 |}.

(** An inventory that is not sent again was stored.  Take any runs of the inventory poller
    since the agent started, whatever the control plane answers, whatever calls fail.  When
    a further run finds packages with the hash of the status they leave and so sends
    nothing, the server has acknowledged a snapshot with that hash. *)
Theorem unsent_inventory_was_stored parse marshal_snapshot valid_url server opts q `{!QueueLaws opts q} sha256_hex goos goarch send_error_text s runs v w :
  0 <= s_retries s →
  match inventories parse marshal_snapshot valid_url server q sha256_hex goos goarch send_error_text s runs no_inventory v w with
  | (Ok st, _, w') => ∀ hash, hash ≠ "" → hash = ss_LastHash st → stored_inventory parse marshal_snapshot server s hash (sw_net w')
  | (Err _, _, _) => False
  | (Crashed, _, _) => True
  end.
Proof.
  intros Hr.
  pose proof (inventories_spec parse marshal_snapshot valid_url server opts q sha256_hex goos goarch send_error_text s Hr runs no_inventory v w (or_introl eq_refl)) as H.
  destruct (inventories _ _ _ _ _ _ _ _ _ _ _ _ v w) as [[[st|e|] v'] w']; [|done..].
  intros hash Hne ->. by destruct H.
Qed.

(** ** Concrete runs *)

Definition demo_parse (text : string) : option json := if str_eqb text "ack" then Some (JObj [("accepted", JBool true); ("durable", JBool true); ("received_findings", JInt 0)]%string) else Some (JObj []).
Definition demo_snapshot (snap : InventorySnapshot) : option string := Some ("inventory " +:+ is_PackagesHash snap).
Definition demo_inventory (names : list string) : inventory_run := {|
  iv_cfg := {| sc_Enabled := true; sc_Every := hour; sc_CmdTimeout := minute; sc_MaxOutputBytes := 0; sc_MaxPackages := 0 |};
  iv_hostRoot := ""; iv_caps := {| cp_MaxInterfaces := 0; cp_MaxNeighbors := 0; cp_MaxRoutes := 0; cp_MaxResolvers := 0 |};
  iv_host := {| Inventory.v_file := λ _, None; Inventory.v_regular := λ _, false; Inventory.v_isdir := λ _, false; Inventory.v_dir := λ _, None;
                Inventory.v_path := λ p, str_eqb p "pacman"; Inventory.v_run := λ _, Ran (text_of (map (λ n, n +:+ " 1") names)) Exited; Inventory.v_host := demo_host |} |}.
Definition acking_all (seen : list request) (r : request) : net_reply := Response 200 "ack".
(** The second request fails; all others are acknowledged. *)
Definition second_fails (seen : list request) (r : request) : net_reply := if (length seen =? 1)%nat then Response 403 "" else Response 200 "ack".
Definition demo_inventories (runs : list inventory_run) :=
  inventories demo_parse demo_snapshot any_url second_fails demo_queue id "linux" "amd64" (λ _, "send"%string) demo_sender runs no_inventory (quiet hour) (empty_spool ["a"; "b"; "c"; "d"]).
Definition inventory_outcome {E} (r : outcome E SyscollectorStatus * env * sworld) : option string * list string * nat :=
  (match r.1.1 with Ok st => Some (ss_LastHash st) | _ => None end, map rq_payload (sw_net r.2), size (sw_dir r.2)).

(** An inventory waits in the queue while the host goes back to the one before: the poller
    sends nothing, and the queue will later deliver the inventory that is out of date as
    the last word. *)
Example stale_inventory_wins :
  inventory_outcome (demo_inventories (map demo_inventory [["x"]; ["y"]; ["x"]]%string)) =
    (Some (hashed_text [Build_PackageEntry "x" "1" ""]),
     map (λ n, "inventory " +:+ hashed_text [Build_PackageEntry n "1" ""]) ["x"; "y"]%string, 1%nat).
Proof. vm_compute. reflexivity. Qed.

Lemma unsent_inventory_was_stored_witness :
  stored_inventory demo_parse demo_snapshot second_fails demo_sender (hashed_text [Build_PackageEntry "x" "1" ""]) (sw_net (demo_inventories [demo_inventory ["x"%string]]).2).
Proof.
  pose proof (unsent_inventory_was_stored demo_parse demo_snapshot any_url second_fails (Spool.Build_Options "/spool" 1000 hour 10) demo_queue id "linux" "amd64"
    (λ _, "send"%string) demo_sender [demo_inventory ["x"%string]] (quiet hour) (empty_spool ["a"; "b"; "c"; "d"]) ltac:(vm_compute; discriminate)) as H.
  fold (demo_inventories [demo_inventory ["x"%string]]) in H.
  destruct (demo_inventories [demo_inventory ["x"%string]]) as [[r v] w] eqn:E.
  assert (inventory_outcome (demo_inventories [demo_inventory ["x"%string]]) = inventory_outcome (r, v, w)) as Ho by by rewrite E.
  vm_compute in Ho. destruct r as [st|e|]; [|by destruct H|discriminate]. apply H; [done|]. vm_compute. congruence.
Defined.

Definition demo_scan_cfg : VulnScannerConfig := {|
  vs_Enabled := true; vs_Every := hour; vs_OSVURL := ""; vs_MinSeverity := "low"; vs_AnalysisProfile := ""; vs_ExposureEnabled := false; vs_ScanNowToken := "scan-now-1";
  vs_QueryBatchSize := 10; vs_MaxPackages := 10; vs_CmdTimeout := minute; vs_HTTPTimeout := minute; vs_MaxOutputBytes := 0 |}.
Definition demo_scan (names : list string) : scan_run := {|
  rn_cfg := demo_scan_cfg; rn_hostRoot := ""; rn_force := false;
  rn_input := {| si_host := iv_host (demo_inventory names); si_sockets := Exposure.demo_view; si_osv := λ _ _ _, Answered 200 ""; si_clock := λ _, hour; si_hostname := None; si_uuid := "u" |} |}.
Definition demo_batch (b : VulnerabilityBatch) : option string := Some ("scan " +:+ match vb_Scan b with Some m => vn_CurrentPhase m | None => ""%string end).
Definition demo_scans (reply : list request → request → net_reply) (runs : list scan_run) :=
  scans demo_parse demo_events demo_batch demo_uuid any_url reply demo_queue id "linux" "amd64" (λ _, "t"%string) id id (λ _, "send"%string) (λ _, "osv"%string) (λ _, 0)
    demo_sender "agent" false runs no_scan (quiet hour) (empty_spool ["a"; "b"; "c"; "d"; "e"; "f"; "g"; "h"; "i"; "j"; "k"; "l"; "m"; "n"]).

(** The second run finds the same packages and does not query. *)
Example second_scan_skips : map rq_payload (sw_net (demo_scans acking_all (map demo_scan [["x"]; ["x"]]%string)).2) =
  map (String.app "scan ") ["collecting_inventory"; "querying_source"; "normalizing_findings"; "ingesting_results"; "completed";
   "collecting_inventory"; "normalizing_findings"; "ingesting_results"; "completed"]%string.
Proof. vm_compute. reflexivity. Qed.

(** A token that comes while the scanner is switched off is used up: the scanner that is
    switched on later waits for its period. *)
Example manual_scan_is_lost :
  let off := {| vs_Enabled := false; vs_Every := hour; vs_OSVURL := ""; vs_MinSeverity := ""; vs_AnalysisProfile := ""; vs_ExposureEnabled := false; vs_ScanNowToken := "scan-now-1";
    vs_QueryBatchSize := 10; vs_MaxPackages := 10; vs_CmdTimeout := 0; vs_HTTPTimeout := 0; vs_MaxOutputBytes := 0 |} in
  let '(_, _, token, delayed) := next_scan off hour (2 * hour) "" true 0 in
  next_scan demo_scan_cfg hour hour token delayed 0 = (hour, false, "scan-now-1"%string, true).
Proof. reflexivity. Qed.

