(* ===== verification/Discovery.v ===== *)
(** * Discovery: runs of active topology discovery (internal/sources/topology_discovery.go)

    [runTopologyDiscoveryOnce] over the network context before and after the probes, the
    plan (Topology), the inventory and the sender, with the status it keeps; and the
    timer that starts it.  The host before, after and during the inventory, and the
    outcomes of the probes, are inputs. *)

From stdpp Require Import pretty.
From S2P Require Import Prelude GoStr GoText GoFields GoJson Effects Event Net Netctx Topology Spool Queue Sender RuntimeConfig Inventory Pollers.
From Stdlib Require Import Ascii.

Local Open Scope Z_scope.
Local Open Scope go_scope.

Record TopologyDiscoveryStatus := {
  ts_LastRunAt : time; ts_LastSentAt : time; ts_LastError : string; ts_LastWarnings : list string; ts_LastAllowedCIDRs : list string;
  ts_LastDiscoveredIPs : list string; ts_LastObservedIPs : list string; ts_LastTargetCount : Z; ts_LastAttemptedHosts : Z; ts_LastTrigger : string }.

(** The part of the agent's configuration that a run reads. *)
Record discovery_env := {
  de_caps : Caps; de_deny : list (option ipnet); de_cmdTimeout : duration; de_maxOutput : Z; de_maxPackages : Z; de_hostRoot : string }.

(** The host as the run meets it: twice for the network context, once for the inventory;
    whether [ping] is found; how each probe ends. *)
Record discovery_input := { di_before : host; di_after : host; di_inventory : Inventory.view; di_ping : bool; di_probes : list probe_env }.

Definition minDuration (a b : duration) : duration := if a <=? 0 then b else if b <=? 0 then a else if a <? b then a else b.
Definition capStrings (values : list string) (max : Z) : list string :=
  if (max <=? 0) || (Z.of_nat (length values) <=? max) then values else take (Z.to_nat max) values.
Definition toDiscoveryNeighbors (entries : list NeighborEntry) : list string := map nb_IP entries.

Definition TopologyDiscoveryMode (enabled : bool) : string := if enabled then "active_enabled" else "passive_only".
Definition TopologyDiscoveryWarningText (warnings : list string) : string := Join warnings "; ".

(** When the next run starts; [None] is an error of the configuration. *)
Definition next_discovery (cfg : option TopologyDiscoveryConfig) (lastRun t : time) : duration :=
  match cfg with
  | Some cfg => if negb (td_Enabled cfg) then 30 * second else if is_zero_time lastRun then td_Every cfg else remaining (td_Every cfg) lastRun t
  | None => 30 * second
  end.

Section discovery.
Context (ip_String : Z → string) (ipnet_String : ipnet → string).
Context (parse : string → option json) (marshal_snapshot : InventorySnapshot → option string).
Context (valid_url : string → bool) (server : list request → request → net_reply) (q : queue_ops).
Context (sha256_hex : string → string) (goos goarch : string) (fmt_rfc3339 : time → string).
(** The texts of the errors of the interfaces of the host and of the sender. *)
Context (interfaces_error : string) (send_error_text : send_error → string).

Definition plan_options (env : discovery_env) (cfg : TopologyDiscoveryConfig) (nc : NetworkContext) : PlanOptions := {|
  po_ConfiguredCIDRs := td_CIDRs cfg; po_LocalCIDRs := map Some (nc_LocalCIDRs nc); po_LocalIPs := gset_to_gmap true (nc_LocalIPs nc);
  po_DenyCIDRs := de_deny env; po_MaxHosts := td_MaxHosts cfg; po_AllowPublic := td_AllowPublic cfg |}.

Definition no_probes : ProbeStats := {| st_Attempted := 0; st_Succeeded := 0; st_Failed := 0 |}.
(** The probes of a plan: their statistics, the tool and the warnings. *)
Definition probe (cfg : TopologyDiscoveryConfig) (input : discovery_input) (plan : Plan) : ProbeStats * string * list string :=
  if di_ping input then (RunProbes (p_Targets plan) (td_RateLimit cfg) (di_probes input), "ping"%string, p_Warnings plan)
  else (no_probes, ""%string, (p_Warnings plan ++ ["ping command unavailable; passive neighbor observation only"%string])%list).

Definition discovery_fields (trigger : string) (plan : Plan) (stats : ProbeStats) (discovered observed : list string) (tool : string) (warnings : list string)
    : list (string * json) :=
  [("trigger", JStr trigger); ("allowed_cidrs", JArr (map JStr (p_AllowedCIDRs plan))); ("target_count", JInt (Z.of_nat (length (p_Targets plan))));
   ("attempted_hosts", JInt (st_Attempted stats)); ("successful_probes", JInt (st_Succeeded stats)); ("failed_probes", JInt (st_Failed stats));
   ("discovered_hosts", JArr (map JStr discovered)); ("observed_hosts", JArr (map JStr observed)); ("skipped_denied", JInt (p_SkippedDenied plan));
   ("skipped_local", JInt (p_SkippedLocal plan)); ("probe_tool", JStr tool); ("warnings", JArr (map JStr warnings)); ("deny_ports_enforced", JBool true)]%string.

Definition with_extra (kvs : list (string * json)) (snap : InventorySnapshot) : InventorySnapshot := {|
  is_SchemaVersion := is_SchemaVersion snap; is_CollectedAt := is_CollectedAt snap; is_OS := is_OS snap; is_Packages := is_Packages snap;
  is_PackagesHash := is_PackagesHash snap; is_PackagesCount := is_PackagesCount snap; is_Manager := is_Manager snap;
  is_Extra := Some (list_to_map kvs ∪ default ∅ (is_Extra snap)) |}.

Definition discovery_inventory_options (env : discovery_env) (cfg : TopologyDiscoveryConfig) : Inventory.Options := {|
  Inventory.o_CmdTimeout := minDuration (td_Timeout cfg) (de_cmdTimeout env); Inventory.o_MaxOutputBytes := de_maxOutput env;
  Inventory.o_MaxPackages := de_maxPackages env; Inventory.o_HostRoot := de_hostRoot env; Inventory.o_NetCtxCaps := de_caps env |}.

Definition recordTopologyDiscoveryFailure (startedAt : time) (trigger err : string) (st : TopologyDiscoveryStatus) : TopologyDiscoveryStatus := {|
  ts_LastRunAt := startedAt; ts_LastSentAt := ts_LastSentAt st; ts_LastError := err; ts_LastWarnings := ts_LastWarnings st;
  ts_LastAllowedCIDRs := ts_LastAllowedCIDRs st; ts_LastDiscoveredIPs := ts_LastDiscoveredIPs st; ts_LastObservedIPs := ts_LastObservedIPs st;
  ts_LastTargetCount := ts_LastTargetCount st; ts_LastAttemptedHosts := ts_LastAttemptedHosts st; ts_LastTrigger := trigger |}.

(** What a run found and will report, before the inventory is collected. *)
Record probed := { pb_plan : Plan; pb_stats : ProbeStats; pb_tool : string; pb_warnings : list string; pb_discovered : list string; pb_observed : list string; pb_after : NetworkContext }.

Definition run_probes (env : discovery_env) (cfg : TopologyDiscoveryConfig) (input : discovery_input) : string + probed :=
  match Netctx.Collect (di_before input) (de_caps env) with
  | None => inl interfaces_error
  | Some beforeNC =>
    match BuildPlan ip_String ipnet_String (plan_options env cfg beforeNC) with
    | None => inl ""%string
    | Some (inl e) => inl e
    | Some (inr plan) =>
      let '(stats, tool, warnings) := probe cfg input plan in
      match Netctx.Collect (di_after input) (de_caps env) with
      | None => inl interfaces_error
      | Some afterNC =>
        let before := toDiscoveryNeighbors (nc_Neighbors beforeNC) in
        let after := toDiscoveryNeighbors (nc_Neighbors afterNC) in
        inr {| pb_plan := plan; pb_stats := stats; pb_tool := tool; pb_warnings := warnings; pb_discovered := capStrings (NewNeighborIPs before after) 50;
               pb_observed := capStrings (NeighborIPs after) 50; pb_after := afterNC |}
      end
    end
  end.

Definition fields_of (trigger : string) (p : probed) : list (string * json) :=
  discovery_fields trigger (pb_plan p) (pb_stats p) (pb_discovered p) (pb_observed p) (pb_tool p) (pb_warnings p).
Definition discovery_snapshot (trigger : string) (p : probed) (snap : InventorySnapshot) : InventorySnapshot :=
  with_extra [("network_context", ToInventoryMap (pb_after p)); ("topology_active_discovery", JObj (fields_of trigger p))]%string snap.
Definition reported_status (startedAt sentAt : time) (trigger : string) (p : probed) : TopologyDiscoveryStatus := {|
  ts_LastRunAt := startedAt; ts_LastSentAt := sentAt; ts_LastError := ""; ts_LastWarnings := pb_warnings p;
  ts_LastAllowedCIDRs := p_AllowedCIDRs (pb_plan p); ts_LastDiscoveredIPs := pb_discovered p; ts_LastObservedIPs := pb_observed p;
  ts_LastTargetCount := Z.of_nat (length (p_Targets (pb_plan p))); ts_LastAttemptedHosts := st_Attempted (pb_stats p); ts_LastTrigger := trigger |}.

Definition runTopologyDiscoveryOnce (s : Sender.Sender) (env : discovery_env) (cfg : TopologyDiscoveryConfig) (input : discovery_input) (trigger : string)
    (st : TopologyDiscoveryStatus) : SM (TopologyDiscoveryStatus * (string + json)) :=
  startedAt <- now;;
  let failed e := retM (recordTopologyDiscoveryFailure startedAt trigger e st, inl e) in
  match run_probes env cfg input with
  | inl e => failed e
  | inr p =>
    t <- now;;
    match Inventory.Collect sha256_hex goos goarch t (di_inventory input) (discovery_inventory_options env cfg) with
    | inl e => failed e
    | inr res =>
      ' (_, sendErr) <- SendInventorySnapshot parse marshal_snapshot valid_url server q s (discovery_snapshot trigger p (r_Snapshot res));;
      match sendErr with
      | Some e => failed (send_error_text e)
      | None =>
        sentAt <- now;;
        completedAt <- now;;
        retM (reported_status startedAt sentAt trigger p,
          inr (JObj ([("schema_version", JStr "v1"); ("mode", JStr "active_discovery")]%string ++ fields_of trigger p ++ [("completed_at"%string, JStr (fmt_rfc3339 completedAt))])%list))
      end
    end
  end.

(** A run that an operator asks for; [cfg] is what the runtime configuration gives. *)
Definition RunTopologyDiscoveryNow (s : Sender.Sender) (env : discovery_env) (cfg : TopologyDiscoveryConfig * option string) (input : discovery_input)
    (st : TopologyDiscoveryStatus) : SM (TopologyDiscoveryStatus * (string + json)) :=
  match cfg with
  | (_, Some e) => retM (st, inl e)
  | (cfg, None) =>
    if negb (td_Enabled cfg) then retM (st, inl "topology active discovery is disabled"%string)
    else runTopologyDiscoveryOnce s env cfg input "manual" st
  end.
End discovery.

(** ** What a run may probe *)

Section allowed.
Context (ip_String : Z → string) (ipnet_String : ipnet → string) `{!Inj (=) (=) ip_String} (interfaces_error : string).
Context (env : discovery_env) (cfg : TopologyDiscoveryConfig).

(** The addresses probed: the first targets of the plan, as many as were attempted. *)
Definition probed_addresses (p : probed) : list Z := take (Z.to_nat (st_Attempted (pb_stats p))) (p_Targets (pb_plan p)).

(** The policy of a run on a host with this network context. *)
Definition may_probe (nc : NetworkContext) (v : Z) : Prop :=
  ip_String v ∉ nc_LocalIPs nc ∧ denied v (de_deny env) = false ∧
  ∃ c, (Some c ∈ td_CIDRs cfg ∨ td_CIDRs cfg = [] ∧ c ∈ nc_LocalCIDRs nc) ∧ is_v4 c = true ∧ is_host c v ∧
    (td_AllowPublic cfg = true ∨ isPrivateOrInternalCIDR c = true).

Lemma selected_scope nc c : Some c ∈ selected_cidrs ipnet_String (plan_options env cfg nc) → Some c ∈ td_CIDRs cfg ∨ td_CIDRs cfg = [] ∧ c ∈ nc_LocalCIDRs nc.
Proof.
  unfold selected_cidrs. cbn [plan_options po_ConfiguredCIDRs po_LocalCIDRs]. destruct (td_CIDRs cfg) as [|x l] eqn:E; [|by left].
  intros (d & [= ->] & Hd)%list_elem_of_fmap. apply private_local_sub in Hd as [Hd _]. apply list_elem_of_fmap in Hd as (d' & [= ->] & Hd). by right.
Qed.

Lemma local_or_not nc v : is_local ip_String (plan_options env cfg nc) v = false → ip_String v ∉ nc_LocalIPs nc.
Proof.
  unfold is_local. cbn [plan_options po_LocalIPs]. rewrite lookup_gset_to_gmap. intros H Hin. by rewrite option_guard_True in H.
Qed.

Lemma probe_attempts input plan : let '(stats, _, _) := probe cfg input plan in 0 <= st_Attempted stats <= Z.of_nat (length (p_Targets plan)).
Proof.
  unfold probe. destruct (di_ping input); [|cbn; lia].
  pose proof (RunProbes_accounts (p_Targets plan) (td_RateLimit cfg) (di_probes input)) as H. cbv zeta in H. lia.
Qed.

(** What is known of the probes of a run. *)
Definition probes_ok (input : discovery_input) (p : probed) : Prop :=
  ∃ nc, Netctx.Collect (di_before input) (de_caps env) = Some nc ∧
    NoDup (probed_addresses p) ∧ Z.of_nat (length (probed_addresses p)) = st_Attempted (pb_stats p) ∧
    st_Attempted (pb_stats p) <= (if td_MaxHosts cfg <=? 0 then 256 else td_MaxHosts cfg) ∧
    ∀ v, v ∈ probed_addresses p → may_probe nc v.

Lemma run_probes_spec input p :
  (∀ nc c, Netctx.Collect (di_before input) (de_caps env) = Some nc → Some c ∈ td_CIDRs cfg ∨ c ∈ nc_LocalCIDRs nc → net_wf c) →
  run_probes ip_String ipnet_String interfaces_error env cfg input = inr p → probes_ok input p.
Proof using Inj0.
  intros Hwf. unfold run_probes. destruct (Netctx.Collect (di_before input) (de_caps env)) as [nc|] eqn:Enc; [|done].
  assert (∀ c, Some c ∈ po_ConfiguredCIDRs (plan_options env cfg nc) ∨ Some c ∈ po_LocalCIDRs (plan_options env cfg nc) → net_wf c) as Hwf'.
  { cbn. intros c [?|Hc]; apply (Hwf nc); [done|by left|done|right]. by apply list_elem_of_fmap in Hc as (d & [= ->] & ?). }
  destruct (BuildPlan_spec ip_String ipnet_String (plan_options env cfg nc) Hwf') as (r & -> & Hr). destruct r as [e|plan]; [done|].
  pose proof (probe_attempts input plan) as Hp. destruct (probe cfg input plan) as [[stats tool] warnings].
  destruct (Netctx.Collect (di_after input) (de_caps env)) as [after|]; [|done]. cbv zeta. intros [= <-]. destruct Hr as (Hnd & Hlen & Hall & _).
  exists nc. split; [done|]. unfold probed_addresses. cbn [pb_plan pb_stats]. split_and!.
  - rewrite <- (take_drop (Z.to_nat (st_Attempted stats)) (p_Targets plan)) in Hnd. by apply NoDup_app in Hnd as [? _].
  - rewrite length_take. lia.
  - change (effective_max (plan_options env cfg nc)) with (if td_MaxHosts cfg <=? 0 then 256 else td_MaxHosts cfg) in Hlen. lia.
  - intros v Hv. destruct (Hall v) as (Hl & Hd & c & Hc & ? & ? & ?); [by eapply subseteq_take|]. split; [by eapply local_or_not|]. split; [done|].
    exists c. split; [by apply selected_scope|done].
Qed.
End allowed.


(** ** A run *)

Definition demo_net (neighbors : list string) : host := {|
  h_ifaces := Some [{| hf_name := "eth0"; hf_hw := []; hf_mtu := 1500; hf_flags := 1; hf_addrs := Some [AddrIPNet (Some (IPNet (ip_val (net_addr (v4 192 168 1 1 29))) 29 32))] |}];
  h_dockerenv := false; h_cgroup := None; h_arp := Some (text_of ("IP address"%string :: map (λ n, n +:+ " 0x1 0x2 02:00:00:00:00:01 * eth0") neighbors));
  h_route := None; h_ipv6_route := None; h_resolv := None; h_hostname := None |}.
Definition demo_env : discovery_env := {|
  de_caps := {| cp_MaxInterfaces := 0; cp_MaxNeighbors := 0; cp_MaxRoutes := 0; cp_MaxResolvers := 0 |}; de_deny := [Some (v4 192 168 1 4 31)];
  de_cmdTimeout := 0; de_maxOutput := 0; de_maxPackages := 0; de_hostRoot := "" |}.
Definition demo_discovery : TopologyDiscoveryConfig :=
  {| td_Enabled := true; td_CIDRs := []; td_AllowPublic := false; td_Every := hour; td_MaxHosts := 2; td_RateLimit := 10; td_Timeout := 5 * second |}.
Definition demo_di : discovery_input := {|
  di_before := demo_net ["192.168.1.2"%string]; di_after := demo_net ["192.168.1.2"; "192.168.1.3"]%string; di_inventory := iv_host (demo_inventory ["x"%string]); di_ping := true;
  di_probes := [{| pe_sleep := true; pe_done := false; pe_ok := true |}; {| pe_sleep := true; pe_done := false; pe_ok := false |}] |}.
Definition demo_run := runTopologyDiscoveryOnce pretty (λ _, "net"%string) Pollers.demo_parse demo_snapshot any_url acking_all demo_queue id "linux" "amd64" (λ _, "t"%string)
  "no interfaces" (λ _, "send"%string) demo_sender demo_env demo_discovery demo_di "manual"
  {| ts_LastRunAt := 0; ts_LastSentAt := 0; ts_LastError := ""; ts_LastWarnings := []; ts_LastAllowedCIDRs := []; ts_LastDiscoveredIPs := []; ts_LastObservedIPs := [];
     ts_LastTargetCount := 0; ts_LastAttemptedHosts := 0; ts_LastTrigger := "" |} (quiet hour) (empty_spool ["a"%string]).
Example run_discovers : match demo_run.1.1 with
  Ok (st, inr _) => Some (ts_LastAttemptedHosts st, ts_LastDiscoveredIPs st, ts_LastWarnings st) | _ => None end =
  Some (2, ["192.168.1.3"%string], ["target list capped by max_hosts"%string]).
Proof. vm_compute. reflexivity. Qed.

