(* ===== verification/Summary.v ===== *)
(** * Summary: what the agent counts and logs about itself
      (internal/runtime/loop.go, the state of internal/runtime/service.go)

    [SummaryState] is a flat struct in the code; here its fields are grouped by the
    function that changes them.  Every method runs under [stateMu] and is one step;
    the lines given to [LogJSON], which writes lines of every level, are returned in
    order.  Counters are Go's [int], with its wrap-around. *)

From S2P Require Import Prelude GoStr Effects GoText Float Settings ScanStats Cycle.
From Stdlib Require Import Lia.

Local Open Scope Z_scope.
Local Open Scope go_scope.

(** ** The state *)

(** What [applyToSummary] changes. *)
Record CycleTotals := {
  Cycles : Z; EventsSentTotal : Z; EventsAttemptedTotal : Z; EventsDurableTotal : Z; SSHAuthEventsTotal : Z; ScanProbesTotal : Z;
  ScanProbesEffective : Z; MaxSentCycle : Z; MaxScanCycle : Z; MaxPortsCycle : Z; SendAttemptsTotal : Z; SendErrorsTotal : Z;
  LastHTTPStatus : Z; LastError : string }.
Record ActionTotals := {
  ResponseActionPollErrorsTotal : Z; ResponseActionsStagedTotal : Z; ResponseActionsExecutedTotal : Z;
  ResponseActionResultsDeliveredTotal : Z; ResponseActionReportErrorsTotal : Z }.
Record CertTotals := { CertRenewalsTotal : Z; CertRenewErrorsTotal : Z; CertLastRenewError : string }.
Record SpoolTotals := { SpoolDeliveredTotal : Z; SpoolLastError : string }.
(** What the last summary reported. *)
Record SummaryMarks := {
  LastSummaryAt : time; LastSummaryEventsSent : Z; LastSummaryScanTotal : Z; LastSummaryScanEffective : Z }.

Record SummaryState := {
  StartedAt : time; s_cycles : CycleTotals; s_actions : ActionTotals; s_cert : CertTotals; s_spool : SpoolTotals;
  s_marks : SummaryMarks; LastHeartbeatAt : time }.

(** The state [New] builds. *)
Definition no_cycles : CycleTotals := Build_CycleTotals 0 0 0 0 0 0 0 0 0 0 0 0 0 "".
Definition initial (now : time) : SummaryState := {|
  StartedAt := now; s_cycles := no_cycles; s_actions := Build_ActionTotals 0 0 0 0 0; s_cert := Build_CertTotals 0 0 "";
  s_spool := Build_SpoolTotals 0 ""; s_marks := Build_SummaryMarks now 0 0 0; LastHeartbeatAt := now |}.

Definition on_cycles (f : CycleTotals → CycleTotals) (s : SummaryState) : SummaryState :=
  Build_SummaryState (StartedAt s) (f (s_cycles s)) (s_actions s) (s_cert s) (s_spool s) (s_marks s) (LastHeartbeatAt s).
Definition on_actions (f : ActionTotals → ActionTotals) (s : SummaryState) : SummaryState :=
  Build_SummaryState (StartedAt s) (s_cycles s) (f (s_actions s)) (s_cert s) (s_spool s) (s_marks s) (LastHeartbeatAt s).
Definition on_cert (f : CertTotals → CertTotals) (s : SummaryState) : SummaryState :=
  Build_SummaryState (StartedAt s) (s_cycles s) (s_actions s) (f (s_cert s)) (s_spool s) (s_marks s) (LastHeartbeatAt s).
Definition on_spool (f : SpoolTotals → SpoolTotals) (s : SummaryState) : SummaryState :=
  Build_SummaryState (StartedAt s) (s_cycles s) (s_actions s) (s_cert s) (f (s_spool s)) (s_marks s) (LastHeartbeatAt s).
Definition set_marks (m : SummaryMarks) (s : SummaryState) : SummaryState :=
  Build_SummaryState (StartedAt s) (s_cycles s) (s_actions s) (s_cert s) (s_spool s) m (LastHeartbeatAt s).
Definition set_heartbeat (t : time) (s : SummaryState) : SummaryState :=
  Build_SummaryState (StartedAt s) (s_cycles s) (s_actions s) (s_cert s) (s_spool s) (s_marks s) t.

(** [x += n] on an [int]. *)
Definition add (x n : Z) : Z := wrap64 (x + n).

(** ** Counting *)

Definition apply_cycle (res : CycleResult) (c : CycleTotals) : CycleTotals :=
  let failed := cr_SendAttempted res && negb (is_empty (cr_Error res)) in
  {| Cycles := add (Cycles c) 1;
     EventsSentTotal := add (EventsSentTotal c) (cr_Sent res);
     EventsAttemptedTotal := add (EventsAttemptedTotal c) (cr_Attempted res);
     EventsDurableTotal := add (EventsDurableTotal c) (cr_Durable res);
     SSHAuthEventsTotal := add (SSHAuthEventsTotal c) (cr_SSHAuthEvents res);
     ScanProbesTotal := add (ScanProbesTotal c) (ss_Total (cr_Scan res));
     ScanProbesEffective := add (ScanProbesEffective c) (ss_Effective (cr_Scan res));
     MaxSentCycle := if MaxSentCycle c <? cr_Sent res then cr_Sent res else MaxSentCycle c;
     MaxScanCycle := if MaxScanCycle c <? ss_Total (cr_Scan res) then ss_Total (cr_Scan res) else MaxScanCycle c;
     MaxPortsCycle := if MaxPortsCycle c <? ss_UniqueDstPorts (cr_Scan res) then ss_UniqueDstPorts (cr_Scan res) else MaxPortsCycle c;
     SendAttemptsTotal := if cr_SendAttempted res then add (SendAttemptsTotal c) 1 else SendAttemptsTotal c;
     SendErrorsTotal := if failed then add (SendErrorsTotal c) 1 else SendErrorsTotal c;
     LastHTTPStatus := if cr_SendAttempted res && negb (cr_Status res =? 0) then cr_Status res else LastHTTPStatus c;
     LastError := if cr_SendAttempted res then cr_Error res else LastError c |}.
Definition applyToSummary (res : CycleResult) : SummaryState → SummaryState := on_cycles (apply_cycle res).

(** The updates of [updateState]. *)
Definition action_poll_failed : SummaryState → SummaryState := on_actions (λ a,
  Build_ActionTotals (add (ResponseActionPollErrorsTotal a) 1) (ResponseActionsStagedTotal a) (ResponseActionsExecutedTotal a)
    (ResponseActionResultsDeliveredTotal a) (ResponseActionReportErrorsTotal a)).
Definition action_report_failed : SummaryState → SummaryState := on_actions (λ a,
  Build_ActionTotals (ResponseActionPollErrorsTotal a) (ResponseActionsStagedTotal a) (ResponseActionsExecutedTotal a)
    (ResponseActionResultsDeliveredTotal a) (add (ResponseActionReportErrorsTotal a) 1)).
Definition cert_renewed : SummaryState → SummaryState := on_cert (λ c,
  Build_CertTotals (add (CertRenewalsTotal c) 1) (CertRenewErrorsTotal c) "").
Definition cert_failed (err : string) : SummaryState → SummaryState := on_cert (λ c,
  Build_CertTotals (CertRenewalsTotal c) (add (CertRenewErrorsTotal c) 1) err).

(** The state after [drainSpool], for what [Flush] returned. *)
Definition spool_drained (delivered : Z) (err : option string) : SummaryState → SummaryState := on_spool (λ s,
  Build_SpoolTotals (if 0 <? delivered then add (SpoolDeliveredTotal s) delivered else SpoolDeliveredTotal s) (default "" err)).

(** ** Log lines *)

Record summary_line := {
  sl_Mode : string; sl_UptimeSec : Z; sl_Cycles : CycleTotals; sl_Actions : ActionTotals; sl_PeriodSec : Z;
  sl_SentDelta : Z; sl_ScanDelta : Z; sl_ScanEffDelta : Z;
  sl_SentPerSec : float64; sl_ScanPerSec : float64; sl_ScanEffPerSec : float64; sl_AvgSentPerSec : float64 }.

Inductive line :=
  | LCycle (level : LogLevel) (res : CycleResult)
  | LSummary (l : summary_line)
  | LHeartbeat (uptimeSec cycles status : Z)
  | LSpoolDrained (delivered : Z)
  | LText (level : LogLevel) (msg err : string).

Definition is_debug (cfg : LogSettings) : bool := match cfg_LogLevel cfg with LevelDebug => true | _ => false end.

Definition shouldLogCycle (cfg : LogSettings) (res : CycleResult) : bool :=
  if is_debug cfg then (0 <? cr_Sent res) || negb (is_empty (cr_Error res)) else
  if negb (is_empty (cr_Error res)) then true else
  if cfg_LogMinEvents cfg <=? cr_Sent res then true else
  if 0 <? cr_SSHAuthEvents res then true else
  str_eqb (ss_Class (cr_Scan res)) "scan" || str_eqb (ss_Class (cr_Scan res)) "suspicious".

(** The lines of [runAndLog] for a finished cycle. *)
Definition logCycle (cfg : LogSettings) (res : CycleResult) : list line :=
  if shouldLogCycle cfg res then
    let level := if negb (is_empty (cr_Error res)) then LevelWarn else LevelInfo in
    let level := if is_debug cfg then LevelDebug else level in
    [LCycle level res]
  else [].

(** The period of a summary, and a count per second over a duration. *)
Definition summary_period (cfg : LogSettings) (now last : time) : duration :=
  let period := time_sub now last in
  if period <=? 0 then
    let period := cfg_LogSummaryEvery cfg in if period <=? 0 then 10 * second else period
  else period.
Definition per_second (count : Z) (d : duration) : float64 :=
  if fgt (Seconds d) f0 then fdiv (of_int count) (Seconds d) else f0.

(** [flushSummary], with its two readings of the clock. *)
Definition flushSummary (cfg : LogSettings) (mode : string) (now now2 : time) (s : SummaryState) : SummaryState * line :=
  let uptime := time_sub now2 (StartedAt s) in
  let c := s_cycles s in
  let m := s_marks s in
  let period := summary_period cfg now (LastSummaryAt m) in
  let sentDelta := wrap64 (EventsSentTotal c - LastSummaryEventsSent m) in
  let scanDelta := wrap64 (ScanProbesTotal c - LastSummaryScanTotal m) in
  let scanEffDelta := wrap64 (ScanProbesEffective c - LastSummaryScanEffective m) in
  (set_marks (Build_SummaryMarks now (EventsSentTotal c) (ScanProbesTotal c) (ScanProbesEffective c)) s,
   LSummary {|
     sl_Mode := NormalizeScanMode mode; sl_UptimeSec := to_int (Seconds uptime); sl_Cycles := c; sl_Actions := s_actions s;
     sl_PeriodSec := to_int (Seconds period); sl_SentDelta := sentDelta; sl_ScanDelta := scanDelta; sl_ScanEffDelta := scanEffDelta;
     sl_SentPerSec := Round2 (per_second sentDelta period); sl_ScanPerSec := Round2 (per_second scanDelta period);
     sl_ScanEffPerSec := Round2 (per_second scanEffDelta period);
     sl_AvgSentPerSec := Round2 (per_second (EventsSentTotal c) uptime) |}).

(** [maybeHeartbeat], with its three readings. *)
Definition maybeHeartbeat (cfg : LogSettings) (now now2 now3 : time) (s : SummaryState) : SummaryState * list line :=
  if time_sub now (LastHeartbeatAt s) <? cfg_LogHeartbeatEvery cfg then (s, []) else
  (set_heartbeat now3 s,
   [LHeartbeat (to_int (Seconds (time_sub now2 (StartedAt s)))) (Cycles (s_cycles s)) (LastHTTPStatus (s_cycles s))]).

(** ** Histories *)

Inductive input :=
  | ICycle (res : CycleResult)
  | ISummary (now now2 : time)
  | IHeartbeat (now now2 now3 : time)
  | ISpool (delivered : Z) (err : option string)
  | IUpdate (actions : ActionTotals) (cert : CertTotals).

Definition handle (cfg : LogSettings) (mode : string) (s : SummaryState) (i : input) : SummaryState * list line :=
  match i with
  | ICycle res => (applyToSummary res s, logCycle cfg res)
  | ISummary now now2 => let '(s, l) := flushSummary cfg mode now now2 s in (s, [l])
  | IHeartbeat now now2 now3 => maybeHeartbeat cfg now now2 now3 s
  | ISpool delivered err => (spool_drained delivered err s, [])
  | IUpdate actions cert => (on_actions (λ _, actions) (on_cert (λ _, cert) s), [])
  end.

Fixpoint history (cfg : LogSettings) (mode : string) (s : SummaryState) (h : list input) : SummaryState * list line :=
  match h with
  | [] => (s, [])
  | i :: h =>
    let '(s, out) := handle cfg mode s i in
    let '(s, rest) := history cfg mode s h in (s, out ++ rest)
  end.

(** ** The accounts *)

Definition total (f : CycleResult → Z) (cs : list CycleResult) : Z := foldr (λ c n, f c + n) 0 cs.
Definition highest (f : CycleResult → Z) (cs : list CycleResult) : Z := foldr (λ c n, Z.max (f c) n) 0 cs.
Definition number_of (p : CycleResult → bool) (cs : list CycleResult) : Z := Z.of_nat (length (List.filter p cs)).
Definition sent_with_error (c : CycleResult) : bool := cr_SendAttempted c && negb (is_empty (cr_Error c)).
Definition answered (c : CycleResult) : bool := cr_SendAttempted c && negb (cr_Status c =? 0).
Definition latest {A} (p : CycleResult → bool) (f : CycleResult → A) (def : A) (cs : list CycleResult) : A :=
  default def (f <$> last (List.filter p cs)).

(** The totals of a list of cycles, each counter on its own. *)
Definition counted (cs : list CycleResult) : CycleTotals := {|
  Cycles := wrap64 (Z.of_nat (length cs));
  EventsSentTotal := wrap64 (total cr_Sent cs);
  EventsAttemptedTotal := wrap64 (total cr_Attempted cs);
  EventsDurableTotal := wrap64 (total cr_Durable cs);
  SSHAuthEventsTotal := wrap64 (total cr_SSHAuthEvents cs);
  ScanProbesTotal := wrap64 (total (ss_Total ∘ cr_Scan) cs);
  ScanProbesEffective := wrap64 (total (ss_Effective ∘ cr_Scan) cs);
  MaxSentCycle := highest cr_Sent cs;
  MaxScanCycle := highest (ss_Total ∘ cr_Scan) cs;
  MaxPortsCycle := highest (ss_UniqueDstPorts ∘ cr_Scan) cs;
  SendAttemptsTotal := wrap64 (number_of cr_SendAttempted cs);
  SendErrorsTotal := wrap64 (number_of sent_with_error cs);
  LastHTTPStatus := latest answered cr_Status 0 cs;
  LastError := latest cr_SendAttempted cr_Error "" cs |}.

Definition cycles_of (h : list input) : list CycleResult := omap (λ i, match i with ICycle c => Some c | _ => None end) h.
Definition summaries (out : list line) : list summary_line := omap (λ l, match l with LSummary l => Some l | _ => None end) out.

(** What the summaries of a history should say: the totals of all cycles before each
    one, and the sums over the cycles since the one before. *)
Fixpoint reports (before since : list CycleResult) (h : list input) : list (CycleTotals * Z * Z * Z) :=
  match h with
  | [] => []
  | ICycle c :: h => reports (before ++ [c]) (since ++ [c]) h
  | ISummary _ _ :: h =>
    (counted before, wrap64 (total cr_Sent since), wrap64 (total (ss_Total ∘ cr_Scan) since), wrap64 (total (ss_Effective ∘ cr_Scan) since))
    :: reports before [] h
  | _ :: h => reports before since h
  end.

Lemma wrap64_mod a b : a mod 2 ^ 64 = b mod 2 ^ 64 → wrap64 a = wrap64 b.
Proof. intros H. unfold wrap64. by rewrite Z.add_mod, H, <- Z.add_mod by lia. Qed.
Lemma wrap64_same a : wrap64 a mod 2 ^ 64 = a mod 2 ^ 64.
Proof.
  unfold wrap64. rewrite Zminus_mod_idemp_l. f_equal. lia.
Qed.
Lemma add_wrap a b : add (wrap64 a) b = wrap64 (a + b).
Proof. apply wrap64_mod. by rewrite <- Zplus_mod_idemp_l, wrap64_same, Zplus_mod_idemp_l. Qed.
Lemma sub_wrap a b : wrap64 (wrap64 a - wrap64 b) = wrap64 (a - b).
Proof. apply wrap64_mod. by rewrite Zminus_mod, !wrap64_same, <- Zminus_mod. Qed.

Lemma total_app f cs cs' : total f (cs ++ cs') = total f cs + total f cs'.
Proof. unfold total. induction cs as [|c cs IH]; cbn in *; lia. Qed.
Lemma total_snoc f cs c : total f (cs ++ [c]) = total f cs + f c.
Proof. rewrite total_app. unfold total at 2. cbn. lia. Qed.
Lemma highest_snoc f cs c : highest f (cs ++ [c]) = if highest f cs <? f c then f c else highest f cs.
Proof.
  assert (highest f (cs ++ [c]) = Z.max (highest f cs) (f c) ∧ 0 <= highest f cs) as [-> H].
  { unfold highest. induction cs as [|a cs [IH ?]]; cbn in *; lia. }
  destruct (Z.ltb_spec (highest f cs) (f c)); lia.
Qed.
Lemma number_snoc p cs c : number_of p (cs ++ [c]) = number_of p cs + (if p c then 1 else 0).
Proof. unfold number_of. rewrite List.filter_app, length_app. cbn. destruct (p c); cbn; lia. Qed.
Lemma latest_snoc {A} p (f : CycleResult → A) def cs c : latest p f def (cs ++ [c]) = if p c then f c else latest p f def cs.
Proof. unfold latest. rewrite List.filter_app. cbn. destruct (p c); [by rewrite last_snoc|by rewrite app_nil_r]. Qed.

(** Counting one more cycle. *)
Lemma counted_snoc cs c : apply_cycle c (counted cs) = counted (cs ++ [c]).
Proof.
  unfold apply_cycle, counted. cbn [Cycles EventsSentTotal EventsAttemptedTotal EventsDurableTotal SSHAuthEventsTotal ScanProbesTotal
    ScanProbesEffective MaxSentCycle MaxScanCycle MaxPortsCycle SendAttemptsTotal SendErrorsTotal LastHTTPStatus LastError].
  rewrite !add_wrap, !total_snoc, !highest_snoc, !number_snoc, !latest_snoc, length_app. unfold sent_with_error, answered. cbn [length compose].
  rewrite Nat2Z.inj_add.
  f_equal; by repeat (case_match || rewrite Z.add_0_r).
Qed.

(** The state after the cycles [before], the last [since] of which no summary has reported. *)
Definition accounted (before since : list CycleResult) (s : SummaryState) : Prop :=
  s_cycles s = counted before ∧ ∃ old, before = old ++ since ∧
    LastSummaryEventsSent (s_marks s) = wrap64 (total cr_Sent old) ∧
    LastSummaryScanTotal (s_marks s) = wrap64 (total (ss_Total ∘ cr_Scan) old) ∧
    LastSummaryScanEffective (s_marks s) = wrap64 (total (ss_Effective ∘ cr_Scan) old).

Lemma accounted_summary cfg mode now now2 before since s : accounted before since s →
  accounted before [] (flushSummary cfg mode now now2 s).1 ∧
  match (flushSummary cfg mode now now2 s).2 with
  | LSummary l => (sl_Cycles l, sl_SentDelta l, sl_ScanDelta l, sl_ScanEffDelta l) =
      (counted before, wrap64 (total cr_Sent since), wrap64 (total (ss_Total ∘ cr_Scan) since), wrap64 (total (ss_Effective ∘ cr_Scan) since))
  | _ => False
  end.
Proof.
  intros (Hc & old & -> & H1 & H2 & H3). unfold flushSummary. cbn. rewrite Hc, H1, H2, H3. cbn.
  rewrite !sub_wrap, !total_app. repeat rewrite (Z.add_comm (total _ old)), Z.add_simpl_r. split; [|done].
  split; [done|]. exists (old ++ since). cbn. rewrite app_nil_r, !total_app. repeat rewrite (Z.add_comm (total _ since)). done.
Qed.

Lemma handle_accounted cfg mode i before since s h :
  accounted before since s →
  ∃ before' since', accounted before' since' (handle cfg mode s i).1 ∧
    before' = before ++ cycles_of [i] ∧
    reports before since (i :: h) =
      map (λ l, (sl_Cycles l, sl_SentDelta l, sl_ScanDelta l, sl_ScanEffDelta l)) (summaries (handle cfg mode s i).2) ++ reports before' since' h.
Proof.
  intros Hs. destruct i as [c|now now2|now now2 now3|n e|a k].
  - exists (before ++ [c]), (since ++ [c]). destruct Hs as (Hc & old & -> & H). split_and!; [|done|].
    + split; [cbn; by rewrite Hc, counted_snoc|]. exists old. by rewrite app_assoc.
    + cbn. unfold logCycle. by case_match.
  - exists before, []. destruct (accounted_summary cfg mode now now2 before since s Hs) as [H1 H2].
    cbn [handle]. destruct (flushSummary _ _ _ _ _) as [s' l]. cbn in *. destruct l; try done. split_and!; [done|by rewrite app_nil_r|].
    cbn. by rewrite H2.
  - exists before, since. cbn. unfold maybeHeartbeat. case_match; (split_and!; [done|by rewrite app_nil_r|done]).
  - exists before, since. by rewrite app_nil_r.
  - exists before, since. by rewrite app_nil_r.
Qed.

Lemma history_accounted cfg mode h : ∀ before since s, accounted before since s →
  s_cycles (history cfg mode s h).1 = counted (before ++ cycles_of h) ∧
  map (λ l, (sl_Cycles l, sl_SentDelta l, sl_ScanDelta l, sl_ScanEffDelta l)) (summaries (history cfg mode s h).2) = reports before since h.
Proof.
  induction h as [|i h IH]; intros before since s Hs; [cbn; by rewrite app_nil_r; destruct Hs|].
  destruct (handle_accounted cfg mode i before since s h Hs) as (b & n & Hs' & -> & ->). cbn [history].
  destruct (handle cfg mode s i) as [s' out]. cbn in Hs'. specialize (IH _ _ _ Hs'). destruct (history cfg mode s' h) as [s2 rest]. cbn in *.
  destruct IH as [IH1 IH2]. split.
  - rewrite IH1, <- app_assoc. by destruct i.
  - unfold summaries. by rewrite omap_app, map_app, IH2.
Qed.

Lemma history_logs cfg mode h c : cr_Error c ≠ "" → ∀ s, c ∈ cycles_of h → ∃ level, LCycle level c ∈ (history cfg mode s h).2.
Proof.
  intros He. assert (∀ i s, ICycle c = i → ∃ level, LCycle level c ∈ (handle cfg mode s i).2) as Hi.
  { intros i s <-. cbn. unfold logCycle, shouldLogCycle. apply is_empty_false in He. rewrite He. cbn. rewrite orb_true_r.
    destruct (is_debug cfg); eexists; by left. }
  induction h as [|i h IH]; intros s Hin; [by apply elem_of_nil in Hin|]. unfold cycles_of in *. cbn in Hin. cbn [history].
  destruct (handle cfg mode s i) as [s' out] eqn:E. destruct (history cfg mode s' h) as [s2 rest] eqn:E2. cbn.
  assert (ICycle c = i ∨ c ∈ omap (λ i, match i with ICycle c => Some c | _ => None end) h) as [Hc|Hh].
  { destruct i; [apply elem_of_cons in Hin as [->|]; auto|auto..]. }
  - destruct (Hi _ s Hc) as [level Hl]. rewrite E in Hl. exists level. apply elem_of_app. by left.
  - destruct (IH s' Hh) as [level Hl]. rewrite E2 in Hl. exists level. apply elem_of_app. by right.
Qed.

(** What the agent reports about itself adds up.  After any sequence of cycles,
    summaries, heartbeats and other updates, the totals are the sums, maxima and latest
    values over all the cycles run; the k-th summary line has the totals of the cycles
    before it and, as its deltas, the sums over exactly the cycles since the summary
    before (modulo 2^64, even when the totals have wrapped), so that no event is reported
    twice or left out; and every cycle with an error leaves a line in the log. *)
Theorem summaries_account cfg mode t0 h :
  let '(s, out) := history cfg mode (initial t0) h in
  s_cycles s = counted (cycles_of h) ∧
  map (λ l, (sl_Cycles l, sl_SentDelta l, sl_ScanDelta l, sl_ScanEffDelta l)) (summaries out) = reports [] [] h ∧
  ∀ c, c ∈ cycles_of h → cr_Error c ≠ "" → ∃ level, LCycle level c ∈ out.
Proof.
  assert (accounted [] [] (initial t0)) as H0 by (split; [done|by exists []]).
  destruct (history_accounted cfg mode h _ _ _ H0) as [H1 H2]. pose proof (history_logs cfg mode h) as H3.
  specialize (λ c He, H3 c He (initial t0)). destruct (history _ _ _ h) as [s out]. cbn in *. eauto.
Qed.
