(* ===== verification/Report.v ===== *)
(** * Report: what the agent tells the control plane about itself
      (internal/runtime/controlplane.go buildHeartbeatRequest, effectiveCapabilities,
       internal/buildinfo, internal/sources/topology_discovery.go TopologyDiscoveryCIDRs)

    A heartbeat is built from snapshots of the components, each taken under its lock;
    the snapshots are arguments, in the order the code takes them. *)

From S2P Require Import Prelude GoStr GoText GoJson Effects Net Float Protocol Settings.
From S2P Require RuntimeConfig CertPair Enroll Spool Sender Pollers Discovery Manager.
From S2P Require Import ExecPayload ExecCollect Executor Summary.

Local Open Scope Z_scope.
Local Open Scope go_scope.

(** ** internal/buildinfo *)

Record build := { b_Version : string; b_Commit : string; b_BuildDate : string; b_Channel : string; b_GOOS : string; b_GOARCH : string }.

(** [vcsStamp]: the settings of the build, if there are any. *)
Definition vcs_setting (acc : string * bool) (s : string * string) : string * bool :=
  if str_eqb s.1 "vcs.revision" then (s.2, acc.2) else
  if str_eqb s.1 "vcs.modified" then (acc.1, str_eqb s.2 "true") else acc.
Definition vcsStamp (info : option (list (string * string))) : string * bool :=
  match info with
  | None => ("", false)
  | Some settings =>
    let '(revision, modified) := fold_left vcs_setting settings ("", false) in
    (if 12 <? strlen revision then str_take 12 revision else revision, modified)
  end.

(** [resolve]: what the linker left empty gets its default. *)
Definition resolve (info : option (list (string * string))) (b : build) : build :=
  let '(revision, modified) := vcsStamp info in
  let commit := if is_empty (TrimSpace (b_Commit b)) then revision else b_Commit b in
  {| b_Version := if is_empty (TrimSpace (b_Version b)) then (if modified then "0.0.0-dev+dirty" else "0.0.0-dev") else b_Version b;
     b_Commit := if is_empty (TrimSpace commit) then "unknown" else commit;
     b_BuildDate := b_BuildDate b;
     b_Channel := if is_empty (TrimSpace (b_Channel b)) then "dev" else b_Channel b;
     b_GOOS := b_GOOS b; b_GOARCH := b_GOARCH b |}.

(** [Summary], of a resolved build. *)
Definition build_summary (b : build) : gmapv := [
  ("version", VStr (b_Version b)); ("commit", VStr (b_Commit b)); ("build_date", VStr (b_BuildDate b)); ("channel", VStr (b_Channel b));
  ("os", VStr (b_GOOS b)); ("arch", VStr (b_GOARCH b)); ("protocol_version", VInt Version); ("min_server_protocol", VInt MinSupportedServer);
  ("max_server_protocol", VInt MaxSupportedServer); ("event_schema_version", VInt EventSchemaVersion);
  ("min_event_schema", VInt MinEventSchema); ("max_event_schema", VInt MaxEventSchema)]%string.

(** ** Capabilities *)

Definition shell_enabled (c : ControlSettings) : bool := cfg_AllowShellExec c && negb (length (cfg_ShellExecAllowlist c) =? 0)%nat.

Definition effectiveCapabilities (b : build) (cfg : Config) (firewallTool : string) : gmapv :=
  let profile := NormalizeProfile (cfg_Profile (c_Core cfg)) in
  let ctl := c_Control cfg in
  fold_left (λ m kv, vset kv.1 kv.2 m) [
    ("sources", VStrs (cfg_Sources (c_Core cfg))); ("profile", VStr profile);
    ("response_actions", VBool (ProfileAllowsResponseActions profile));
    ("response_action_types", VStrs (responseActionTypes profile (cfg_AllowShellExec ctl) (cfg_ShellExecAllowlist ctl) firewallTool));
    ("shell_exec", VBool (ProfileAllowsResponseActions profile && shell_enabled ctl))]%string (build_summary b).

(** ** The heartbeat *)

Record HeartbeatRequest := {
  hb_Status : string; hb_UptimeSeconds : Z; hb_AgentVersion : string; hb_ProtocolVersion : Z; hb_Profile : string;
  hb_Capabilities : gmapv; hb_Modules : gmapv; hb_Metrics : gmapv }.

(** The snapshots, and the readings of the clock for the times that remain. *)
Record snapshots := {
  sn_state : SummaryState;
  sn_auth : Enroll.Manager;
  sn_cert : option CertPair.CertStatus;
  sn_pending : Z;
  sn_spool : Spool.Stats;
  (** [None] before the collectors are built *)
  sn_sources : option (Pollers.SyscollectorStatus * Discovery.TopologyDiscoveryStatus);
  sn_now_cred : time; sn_now_renewal : time; sn_now_cert : time; sn_now : time }.

Section report.
(** [RFC3339] and the encoding of a [time.Time]; the texts of addresses; the parameters
    of the runtime configuration. *)
Context (fmt_time fmt_nano : time → string) (ipnet_String : ipnet → string).
Context (number_int64 : json → option Z) (ParseDuration : string → option duration) (ParseCIDR : string → option ipnet) (sprint : json → string).

Definition CIDRStrings (cidrs : list (option ipnet)) : list string := omap (fmap ipnet_String) cidrs.

Definition TopologyDiscoveryCIDRs (cfg : RuntimeConfig.TopologyDiscoveryConfig) (status : Discovery.TopologyDiscoveryStatus) : list string :=
  if (0 <? length (RuntimeConfig.td_CIDRs cfg))%nat then CIDRStrings (RuntimeConfig.td_CIDRs cfg) else Discovery.ts_LastAllowedCIDRs status.

Definition seconds_until (t now : time) : Z := to_int (Seconds (time_sub t now)).
Definition expiry (prefix : string) (t now : time) : gmapv :=
  if is_zero_time t then [] else
  [(prefix +:+ "_expires_at", VStr (fmt_time t)); (prefix +:+ "_seconds_remaining", VInt (seconds_until t now))]%string.

Definition event_metrics (c : CycleTotals) : gmapv := [
  ("events_sent_total", VInt (EventsSentTotal c)); ("events_attempted_total", VInt (EventsAttemptedTotal c));
  ("events_durable_total", VInt (EventsDurableTotal c)); ("send_errors_total", VInt (SendErrorsTotal c));
  ("last_http_status", VInt (LastHTTPStatus c)); ("last_error", VStr (LastError c)); ("send_attempts_total", VInt (SendAttemptsTotal c))]%string.

Definition has_text (s : string) : bool := negb (is_empty (TrimSpace s)).

Definition auth_metrics (cfg : Config) (sn : snapshots) : gmapv :=
  let '(credExp, renewalExp, recoveryMethod, recoveryFailures, nextRetryAt) := Enroll.AuthStateSnapshot (sn_auth sn) in
  let '(currentRenewal, _, previousRenewal, _) := Enroll.RecoveryTokenSnapshot (sn_auth sn) in
  [("auth_identity_state_file", VStr (cfg_AgentIdentityStateFile (c_Identity cfg)));
   ("auth_has_credential", VBool (has_text (Enroll.CurrentCredential (sn_auth sn))));
   ("auth_has_renewal_token", VBool (has_text currentRenewal)); ("auth_has_previous_renewal_token", VBool (has_text previousRenewal));
   ("auth_last_recovery_method", VStr recoveryMethod); ("auth_recovery_failures", VInt recoveryFailures)]%string ++
  expiry "auth_credential" credExp (sn_now_cred sn) ++ expiry "auth_renewal" renewalExp (sn_now_renewal sn) ++
  (if is_zero_time nextRetryAt then [] else [("auth_next_recovery_retry_at", VStr (fmt_time nextRetryAt))]%string).

Definition cert_metrics (cfg : Config) (sn : snapshots) : gmapv :=
  if negb (has_text (cfg_TLSCertFile (c_TLS cfg))) then [] else
  let c := s_cert (sn_state sn) in
  [("tls_client_cert_renewals_total", VInt (CertRenewalsTotal c)); ("tls_client_cert_renew_errors_total", VInt (CertRenewErrorsTotal c))]%string ++
  (if is_empty (CertLastRenewError c) then [] else [("tls_client_cert_last_renew_error", VStr (CertLastRenewError c))]%string) ++
  match sn_cert sn with
  | None => []
  | Some cs => [
      ("tls_client_cert_serial", VStr (CertPair.cs_SerialHex cs)); ("tls_client_cert_not_after", VStr (fmt_time (CertPair.cs_NotAfter cs)));
      ("tls_client_cert_seconds_remaining", VInt (seconds_until (CertPair.cs_NotAfter cs) (sn_now_cert sn)))]%string
  end.

Definition action_metrics (sn : snapshots) : gmapv :=
  let a := s_actions (sn_state sn) in [
  ("response_actions_pending", VInt (sn_pending sn)); ("response_actions_poll_errors_total", VInt (ResponseActionPollErrorsTotal a));
  ("response_actions_executed_total", VInt (ResponseActionsExecutedTotal a));
  ("response_action_results_delivered_total", VInt (ResponseActionResultsDeliveredTotal a));
  ("response_action_report_errors_total", VInt (ResponseActionReportErrorsTotal a))]%string.

Definition spool_metrics (sn : snapshots) : gmapv :=
  let s := sn_spool sn in [
  ("spool_pending", VInt (Spool.st_Pending s)); ("spool_bytes", VInt (Spool.st_Bytes s)); ("spool_enqueued_total", VInt (Spool.st_EnqueuedTotal s));
  ("spool_delivered_total", VInt (Spool.st_DeliveredTotal s)); ("spool_dropped_total", VInt (Spool.st_DroppedTotal s));
  ("spool_expired_total", VInt (Spool.st_ExpiredTotal s)); ("spool_capacity_total", VInt (Spool.st_CapacityTotal s));
  ("spool_corrupt_total", VInt (Spool.st_CorruptTotal s)); ("spool_permanent_total", VInt (Spool.st_PermanentTotal s));
  ("spool_retry_total", VInt (Spool.st_RetryTotal s)); ("spool_enqueue_errors_total", VInt (Spool.st_EnqueueErrorsTotal s))]%string ++
  (if is_empty (SpoolLastError (s_spool (sn_state sn))) then [] else [("spool_last_error", VStr (SpoolLastError (s_spool (sn_state sn))))]%string).

Definition syscollector_metrics (cfg : Config) (rc : option RuntimeConfig.RuntimeConfig) (sn : snapshots) : gmapv :=
  match sn_sources sn, rc with
  | Some (st, _), Some rc =>
    if Manager.Contains (cfg_Sources (c_Core cfg)) "syscollector" then [
      ("syscollector_enabled", VBool (RuntimeConfig.sc_Enabled (RuntimeConfig.Syscollector number_int64 ParseDuration rc)));
      ("syscollector_last_run_at", VStr (fmt_nano (Pollers.ss_LastRunAt st))); ("syscollector_last_sent_at", VStr (fmt_nano (Pollers.ss_LastSentAt st)));
      ("syscollector_last_error", VStr (Pollers.ss_LastError st)); ("syscollector_last_hash", VStr (Pollers.ss_LastHash st));
      ("syscollector_last_packages_count", VInt (Pollers.ss_LastPkgCount st))]%string
    else []
  | _, _ => []
  end.

Definition discovery_metrics (rc : option RuntimeConfig.RuntimeConfig) (sn : snapshots) : gmapv :=
  match sn_sources sn, rc with
  | Some (_, st), Some rc =>
    let '(cfg, err) := RuntimeConfig.TopologyDiscovery number_int64 ParseDuration ParseCIDR sprint rc in
    match err with
    | Some e => [("topology_active_discovery_mode", VStr "passive_only"); ("topology_active_discovery_enabled", VBool false);
                 ("topology_active_discovery_config_error", VStr e)]%string
    | None => [("topology_active_discovery_mode", VStr (Discovery.TopologyDiscoveryMode (RuntimeConfig.td_Enabled cfg)));
               ("topology_active_discovery_enabled", VBool (RuntimeConfig.td_Enabled cfg));
               ("topology_active_discovery_allowed_cidrs", VStrs (TopologyDiscoveryCIDRs cfg st))]%string
    end ++ [
    ("topology_active_discovery_last_run_at", VStr (fmt_nano (Discovery.ts_LastRunAt st)));
    ("topology_active_discovery_last_sent_at", VStr (fmt_nano (Discovery.ts_LastSentAt st)));
    ("topology_active_discovery_last_error", VStr (Discovery.ts_LastError st));
    ("topology_active_discovery_last_warnings", VStrs (Discovery.ts_LastWarnings st));
    ("topology_active_discovery_last_warning_text", VStr (Discovery.TopologyDiscoveryWarningText (Discovery.ts_LastWarnings st)));
    ("topology_active_discovery_last_discovered_hosts", VStrs (Discovery.ts_LastDiscoveredIPs st));
    ("topology_active_discovery_last_observed_hosts", VStrs (Discovery.ts_LastObservedIPs st));
    ("topology_active_discovery_last_target_count", VInt (Discovery.ts_LastTargetCount st));
    ("topology_active_discovery_last_attempted_hosts", VInt (Discovery.ts_LastAttemptedHosts st));
    ("topology_active_discovery_last_trigger", VStr (Discovery.ts_LastTrigger st))]%string
  | _, _ => []
  end.

Definition buildHeartbeatRequest (b : build) (cfg : Config) (firewallTool : string) (rc : option RuntimeConfig.RuntimeConfig)
    (sn : snapshots) : HeartbeatRequest := {|
  hb_Status := "ok"; hb_UptimeSeconds := to_int (Seconds (time_sub (sn_now sn) (StartedAt (sn_state sn))));
  hb_AgentVersion := b_Version b; hb_ProtocolVersion := Version; hb_Profile := NormalizeProfile (cfg_Profile (c_Core cfg));
  hb_Capabilities := effectiveCapabilities b cfg firewallTool;
  hb_Modules := [("sources"%string, VStrs (cfg_Sources (c_Core cfg)))];
  hb_Metrics :=
    event_metrics (s_cycles (sn_state sn)) ++ auth_metrics cfg sn ++ cert_metrics cfg sn ++
    (match rc with Some rc => [("config_hash"%string, VStr (RuntimeConfig.rc_hash rc))] | None => [] end) ++
    action_metrics sn ++ spool_metrics sn ++ syscollector_metrics cfg rc sn ++ discovery_metrics rc sn |}.
End report.

(** ** What is not advertised is not done *)

(** The options the service executes actions with (executeAcceptedResponseAction). *)
Definition executes_for (cfg : Config) (firewallTool : string) (opts : ExecuteOptions) : Prop :=
  eo_Profile opts = cfg_Profile (c_Core cfg) ∧ eo_FirewallTool opts = firewallTool ∧
  eo_AllowShellExec opts = cfg_AllowShellExec (c_Control cfg) ∧ eo_ShellExecAllowlist opts = cfg_ShellExecAllowlist (c_Control cfg).

(** What an action has done to the host. *)
Definition effects (w : xworld) := (x_files w, x_signals w, x_commands w, x_shell w, x_removed w).

(** A result that only describes the rule it would have changed. *)
Definition only_preview (r : ExecuteResult) : Prop := ∃ m, xr_Result r = Some m ∧ vget "dry_run" m = Some (VBool true).

Section execution.
Context (parse : string → option json) (ParseIP : string → option (string * bool)) (sha256_hex : string → string).
Context (marshal_strings : list string → string) (fmt_time : time → string) (self ppid : Z) (goos goarch hostname : string) (runtimeMeta : gmapv).
Context (interfaces : list iface) (read : string → option string) (kill_errno : list (Z * Z) → Z * Z → option string).
Context (run_output : list (string * list string) → string * list string → string * option string).
Context (in_path : string → bool) (look_path : string → option string) (eval_symlinks : string → option string).
Context (executable_file : string → bool) (run_shell : list shell_call → shell_call → shell_run).
Context (interfere1 interfere2 : gmap string xfile → gmap string xfile) (fresh_id : gmap string xfile → Z).

Abbreviation Execute' := (Execute parse ParseIP sha256_hex marshal_strings fmt_time self ppid goos goarch hostname runtimeMeta interfaces read
  kill_errno run_output in_path look_path eval_symlinks executable_file run_shell interfere1 interfere2 fresh_id).
Abbreviation dispatch' := (dispatch parse ParseIP sha256_hex marshal_strings fmt_time self ppid goos goarch hostname runtimeMeta interfaces read
  kill_errno run_output in_path look_path eval_symlinks executable_file run_shell interfere1 interfere2 fresh_id).
Abbreviation tool := (DetectFirewallTool in_path).

(** A step that fails or previews, and has no effect. *)
Definition harmless {A} (good : A → Prop) (m : XM A) : Prop :=
  ∀ v w, match m v w with
  | (Ok r, _, w') => effects w' = effects w ∧ good r
  | (Err _, _, w') => effects w' = effects w
  | (Crashed, _, _) => False
  end.

Lemma harmless_ok {A} (good : A → Prop) (m : XM A) v w : nothrow m → harmless good m →
  match m v w with (Ok r, _, w') => effects w' = effects w ∧ good r | _ => False end.
Proof. intros Hn H. specialize (Hn v w). specialize (H v w). destruct (m v w) as [[[r|e|] v'] w']; done. Qed.

Lemma shell_disabled a opts now :
  eo_AllowShellExec opts = false ∨ eo_ShellExecAllowlist opts = [] →
  harmless (λ r, is_Some r.2) (runShellCommand parse marshal_strings fmt_time look_path eval_symlinks executable_file run_shell a opts now).
Proof.
  intros H v w. unfold runShellCommand. destruct (parseShellCommandPayload _ _ _) as [e|p]; [done|]. cbv zeta.
  destruct (eo_AllowShellExec opts); cbn [negb]; [|done]. destruct H as [|H]; [done|].
  destruct (resolveShellExecutable _ _ _ _) as [e|exe]; [done|]. by rewrite H.
Qed.

Lemma tool_absent opts : tool = EmptyString → eo_FirewallTool opts = tool → firewall_tool in_path opts = EmptyString.
Proof. intros H1 H2. unfold firewall_tool. by rewrite H2, H1. Qed.

Lemma block_disabled a opts now : firewall_tool in_path opts = EmptyString →
  harmless (λ m, vget "dry_run" m = Some (VBool true)) (runBlockOutboundIP parse ParseIP sha256_hex fmt_time run_output in_path a opts now).
Proof.
  intros H v w. unfold runBlockOutboundIP. destruct (parseFirewallPayload _ _ _ _) as [e|p]; [done|].
  unfold bindM at 1. cbn [opt_throw retM]. rewrite H. cbv zeta. cbn [is_empty andb]. destruct (fw_dryRun p) eqn:Hd; cbn [negb]; [|done]. done.
Qed.
Lemma unblock_disabled a opts now : firewall_tool in_path opts = EmptyString →
  harmless (λ m, vget "dry_run" m = Some (VBool true)) (runUnblockOutboundIP parse ParseIP sha256_hex fmt_time run_output in_path a opts now).
Proof.
  intros H v w. unfold runUnblockOutboundIP. destruct (parseFirewallPayload _ _ _ _) as [e|p]; [done|].
  unfold bindM at 1. cbn [opt_throw retM]. rewrite H. cbv zeta. cbn [is_empty andb]. destruct (fw_dryRun p) eqn:Hd; cbn [negb]; [|done]. done.
Qed.

Lemma finish_harmless now m : harmless (λ m, vget "dry_run" m = Some (VBool true)) m →
  harmless (λ r, xr_Status r = "failed"%string ∨ only_preview r) (finish now m).
Proof.
  intros H v w. specialize (H v w). unfold finish, try, bindM, retM. destruct (m v w) as [[[r|e|] v'] w']; [|by auto|done].
  destruct H as [He Hr]. split; [done|]. right. by exists r.
Qed.

(** The types an agent of a profile does not advertise. *)
Lemma not_advertised profile allow allowlist t :
  t ∉ responseActionTypes profile allow allowlist tool →
  ProfileAllowsResponseActions profile = false ∨ t ∉ AllActions ∨
  t = "run_shell_command"%string ∧ (allow = false ∨ allowlist = []) ∨
  t ∈ ["block_outbound_ip"; "unblock_outbound_ip"]%string ∧ tool = EmptyString.
Proof.
  unfold responseActionTypes, SupportedActions. intros H.
  assert (ProfileAllowsResponseActions (NormalizeProfile profile) = ProfileAllowsResponseActions profile) as Hp
    by (unfold ProfileAllowsResponseActions; by rewrite NormalizeProfile_idem).
  rewrite Hp in H. destruct (ProfileAllowsResponseActions profile); [|by left]. right. cbn [negb] in H.
  destruct (decide (t ∈ AllActions)) as [Hin|]; [right|by left].
  rewrite list_elem_of_In, filter_In, <- list_elem_of_In in H. apply Decidable.not_and in H as [H|H]; [done| |by destruct (decide (t ∈ AllActions)); [left|right]].
  destruct (str_eqb t "run_shell_command") eqn:Es.
  - left. apply str_eqb_eq in Es. split; [done|]. destruct allow; [right|by left]. by destruct allowlist.
  - destruct (str_in t _) eqn:Ef; [|done]. right. split; [by apply str_in_elem|].
    unfold DetectFirewallTool in *. destruct (in_path "iptables"); [done|]. by destruct (in_path "nft").
Qed.

Definition refused_or_preview (r : ExecuteResult) : Prop := xr_Status r = "failed"%string ∨ only_preview r.

Lemma dispatch_unknown a opts now : norm (ra_ActionType a) ∉ AllActions → harmless refused_or_preview (dispatch' a opts now).
Proof.
  intros H v w. unfold dispatch. cbv zeta.
  repeat match goal with |- context [if str_eqb ?t ?x then _ else _] =>
    destruct (str_eqb t x) eqn:?; [exfalso; apply H; rewrite (proj1 (str_eqb_eq _ _) ltac:(eassumption)); vm_compute; set_solver|] end.
  split; [done|by left].
Qed.

Lemma dispatch_shell a opts now : norm (ra_ActionType a) = "run_shell_command"%string →
  eo_AllowShellExec opts = false ∨ eo_ShellExecAllowlist opts = [] → harmless refused_or_preview (dispatch' a opts now).
Proof.
  intros Ht H v w. unfold dispatch. rewrite Ht. cbn -[runShellCommand]. unfold bindM.
  pose proof (shell_disabled a opts now H v w) as Hs. destruct (runShellCommand _ _ _ _ _ _ _ a opts now v w) as [[[[r e]|e|] v'] w']; [|done|done].
  destruct Hs as [He [err [= ->]]]. split; [done|by left].
Qed.

Lemma dispatch_firewall a opts now : norm (ra_ActionType a) ∈ ["block_outbound_ip"; "unblock_outbound_ip"]%string →
  firewall_tool in_path opts = EmptyString → harmless refused_or_preview (dispatch' a opts now).
Proof.
  intros [Ht|[Ht|Ht%elem_of_nil]%elem_of_cons]%elem_of_cons Htool; [..|done]; unfold dispatch; rewrite Ht; cbn -[finish runBlockOutboundIP runUnblockOutboundIP];
    apply finish_harmless; [by apply block_disabled|by apply unblock_disabled].
Qed.

End execution.

(** ** A sensor, and a managed agent without a shell policy *)

Definition demo_build : build := Build_build "1.0" "" "" "" "linux" "amd64".
Example dev_build : resolve (Some [("vcs.revision", "0123456789abcdef"); ("vcs.modified", "true")]%string) (Build_build "" " " "" "" "linux" "amd64") =
  Build_build "0.0.0-dev+dirty" "0123456789ab" "" "dev" "linux" "amd64".
Proof. reflexivity. Qed.

Definition demo_config (profile : string) : Config :=
  let c := Overrides.demo_cfg in
  let core := c_Core c in
  {| c_Core := {| cfg_AgentID := "host-1"; cfg_APIURL := cfg_APIURL core; cfg_EnrollURL := cfg_EnrollURL core; cfg_Sources := cfg_Sources core;
       cfg_AllowedSources := cfg_AllowedSources core; cfg_Interval := cfg_Interval core; cfg_HTTPTimeout := cfg_HTTPTimeout core;
       cfg_SenderMaxBatch := cfg_SenderMaxBatch core; cfg_Profile := profile |};
     c_Spool := c_Spool c; c_Identity := c_Identity c; c_TLS := c_TLS c; c_Control := c_Control c; c_Syscollect := c_Syscollect c; c_Vuln := c_Vuln c;
     c_Auth := c_Auth c; c_Proc := c_Proc c; c_ProcExec := c_ProcExec c; c_FIM := c_FIM c; c_L7 := c_L7 c; c_Lateral := c_Lateral c; c_Scan := c_Scan c;
     c_DDoS := c_DDoS c; c_NetCtx := c_NetCtx c; c_Topology := c_Topology c; c_Log := c_Log c |}.

(** A managed agent with [nft] and no shell policy advertises everything but the shell. *)
Example managed_types : vget "response_action_types" (effectiveCapabilities demo_build (demo_config "managed") "nft") =
  Some (VStrs ["block_outbound_ip"; "collect_triage_bundle"; "kill_process"; "quarantine_file"; "refresh_runtime_config"; "trigger_inventory_snapshot";
               "trigger_topology_discovery"; "unblock_outbound_ip"]%string).
Proof. vm_compute. reflexivity. Qed.

Definition demo_noshell : ExecuteOptions := Build_ExecuteOptions "host-1" "host-1" "managed" "1.0" [] [] None None 0 hour "nft" "" false [].
Definition demo_exec : ResponseAction → ExecuteOptions → XM ExecuteResult :=
  Execute payload_parse any_ip zeros64 first_arg (λ _, "t"%string) 50 1 "linux" "amd64" "h" [] [] (λ _, None)
    (λ _ _, None) (λ _ _, (""%string, None)) (λ t, str_eqb t "nft") Some Some (λ _, true)
    (λ _ _, Build_shell_run ["out"%string] [] (Some 0) false 3) same_files same_files id_zero.

