(* ===== verification/Service.v ===== *)
(** * Service: the agent's life (internal/runtime service.go, loop.go, controlplane.go,
      certrotate.go, with internal/heartbeat and internal/jitter)

    The service owns the identity, the collectors with their sender, the runtime
    configuration and the counters of Summary.  Each goroutine is a loop around one
    handler, and a handler is a computation here.  What the handlers share under locks
    is the world; a failure raised by one of them is in the channel [fatal], which has
    room for one error.  Everything outside the repository is in [externals]. *)

From S2P Require Import Prelude GoStr GoText Effects GoJson FileUtil Net GoIP Float Event Protocol Client.
From S2P Require RuntimeConfig Topology CertPair Enroll Spool Queue Sender AuthLog ScanStats ProcExec Fim Settings Overrides Manager Cycle Pollers Discovery.
From S2P Require Import Summary Report.

Local Open Scope Z_scope.
Local Open Scope go_scope.

(** ** What the service is given *)

Record externals := {
  (** names of temporary files, the scanner and encoders of [encoding/json] *)
  x_suffix : files → string → string; x_parse : string → option json; x_marshal : json → option string;
  x_marshal_enroll : EnrollRequest → option string; x_marshal_pending : Enroll.pendingEnrollment → option string;
  x_decode_pending : string → option Enroll.pendingEnrollment; x_marshal_state : Enroll.PersistedIdentityState → option string;
  x_marshal_csr : string → option string; x_marshal_heartbeat : HeartbeatRequest → option string; x_marshal_events : list NetEvent → option string;
  x_marshal_cp : AuthLog.authLogCheckpoint → option string; x_number_int64 : json → option Z; x_number : float64 → string;
  (** the standard library's parsers and formats *)
  x_valid_url : string → bool; x_uuid_Parse : string → bool; x_uuid_parse : string → option string; x_parse_time : string → option time;
  x_format_time : time → string; x_format_nano : time → string; x_ParseDuration : string → option duration;
  x_ParseFloat : string → option float64; x_ParseCIDR : string → option ipnet; x_ipnet_String : ipnet → string; x_sprint : json → string;
  x_sha256_hex : string → string; x_sha1_uuid : string → string;
  (** X.509 *)
  x_pem_decode : string → option (string * string * string); x_parse_certificate : string → option CertPair.certificate;
  x_x509_key_pair : string → string → option (list string);
  (** the host and the build *)
  x_Hostname : string; x_build : build; x_firewallTool : string; x_machine : Manager.machine;
  (** the server of the sender, its queue, the orders of maps *)
  x_server : list Spool.request → Spool.request → Sender.net_reply; x_queue : Queue.queue_ops;
  x_exec_by_age : gmap string ProcExec.hashEntry → list (string * ProcExec.hashEntry);
  x_fim_order : gmap string Fim.fileState → list (string * Fim.fileState);
  x_fim_by_age : gmap string Fim.hashEntry → list (string * Fim.hashEntry);
  x_scan_order : gmap ScanStats.scanKey ScanStats.scanAgg → list (ScanStats.scanKey * ScanStats.scanAgg);
  (** the texts of errors *)
  x_send_text : Sender.send_error → string; x_spool_text : Spool.serror → string; x_config_text : RuntimeConfig.rerror → string }.

(** What other parts of the agent answer while a heartbeat is built: the actions that
    wait, the counters of the queue, the states of the pollers. *)
Record answers := {
  an_pending : Z; an_spool : Spool.Stats; an_status : Pollers.SyscollectorStatus * Discovery.TopologyDiscoveryStatus }.

(** ** The world *)

Record world := W {
  w_cfg : Settings.Config;
  w_ident : Enroll.eworld;
  w_cycle : Manager.cworld;
  (** [s.sources] is not nil *)
  w_sources : bool;
  w_state : SummaryState;
  w_log : list line;
  (** the channel, [failOnce], and whether the context is done *)
  w_fatal : option cerror;
  w_failed : bool;
  w_done : bool }.

Definition set_cfg (c : Settings.Config) (w : world) : world :=
  W c (w_ident w) (w_cycle w) (w_sources w) (w_state w) (w_log w) (w_fatal w) (w_failed w) (w_done w).
Definition set_ident (e : Enroll.eworld) (w : world) : world :=
  W (w_cfg w) e (w_cycle w) (w_sources w) (w_state w) (w_log w) (w_fatal w) (w_failed w) (w_done w).
Definition set_cycle (c : Manager.cworld) (w : world) : world :=
  W (w_cfg w) (w_ident w) c (w_sources w) (w_state w) (w_log w) (w_fatal w) (w_failed w) (w_done w).
Definition set_sources (w : world) : world :=
  W (w_cfg w) (w_ident w) (w_cycle w) true (w_state w) (w_log w) (w_fatal w) (w_failed w) (w_done w).
Definition set_state (f : SummaryState → SummaryState) (w : world) : world :=
  W (w_cfg w) (w_ident w) (w_cycle w) (w_sources w) (f (w_state w)) (w_log w) (w_fatal w) (w_failed w) (w_done w).
Definition add_lines (l : list line) (w : world) : world :=
  W (w_cfg w) (w_ident w) (w_cycle w) (w_sources w) (w_state w) (w_log w ++ l) (w_fatal w) (w_failed w) (w_done w).
Definition set_failure (fatal : option cerror) (failed stopped : bool) (w : world) : world :=
  W (w_cfg w) (w_ident w) (w_cycle w) (w_sources w) (w_state w) (w_log w) fatal failed stopped.

Definition WM : Type → Type := M world cerror.

Definition updateState (f : SummaryState → SummaryState) : WM unit := modify (set_state f).
Definition log (l : list line) : WM unit := modify (add_lines l).
Definition warn (msg err : string) : WM unit := log [LText Settings.LevelWarn msg err].
Definition info (msg : string) : WM unit := log [LText Settings.LevelInfo msg ""].

Definition onIdent {A} (m : Enroll.EM A) : WM A := zoom w_ident set_ident m.
(** A call of the sender, with what it returns and its error. *)
Definition onSend {A} (m : Spool.SM A) : WM (Spool.serror + A) :=
  zoom w_cycle set_cycle (zoom Manager.cw_send Manager.set_send (try m)).

(** ** internal/jitter *)

Definition fnv_offset : Z := 14695981039346656037.
(** [jitter.Stable], with [fnv.New64a]. *)
Definition Stable (agentID scope : string) (max : duration) : duration :=
  if max <=? 0 then 0 else fold_left Enroll.fnv_step (to_chars (agentID +:+ "|" +:+ scope)) fnv_offset mod max.

(** The periods of [heartbeat.Start]. *)
Definition heartbeat_every (every : duration) : duration := if every <=? 0 then 30 * second else every.
Definition heartbeat_timeout (timeout : duration) : duration := if timeout <=? 0 then 10 * second else timeout.

(** The settings [enrollment.NewManager] keeps. *)
Definition identity_config (c : Settings.Config) : Enroll.Config :=
  let core := Settings.c_Core c in let i := Settings.c_Identity c in let t := Settings.c_TLS c in {|
  Enroll.cf_AgentID := Settings.cfg_AgentID core; Enroll.cf_Profile := Settings.cfg_Profile core;
  Enroll.cf_AgentIdentityStateFile := Settings.cfg_AgentIdentityStateFile i; Enroll.cf_CredentialFile := Settings.cfg_CredentialFile i;
  Enroll.cf_BootstrapToken := Settings.cfg_BootstrapToken i; Enroll.cf_BootstrapTokenFile := Settings.cfg_BootstrapTokenFile i;
  Enroll.cf_ForceEnrollOnStart := Settings.cfg_ForceEnrollOnStart (Settings.c_Control c);
  Enroll.cf_TLSCAFile := Settings.cfg_TLSCAFile t; Enroll.cf_TLSCertFile := Settings.cfg_TLSCertFile t; Enroll.cf_TLSKeyFile := Settings.cfg_TLSKeyFile t;
  Enroll.cf_AgentCredential := Settings.cfg_AgentCredential i; Enroll.cf_AgentCredentialExpiresAt := Settings.cfg_AgentCredentialExpiresAt i;
  Enroll.cf_RenewalToken := Settings.cfg_RenewalToken i; Enroll.cf_RenewalTokenExpiresAt := Settings.cfg_RenewalTokenExpiresAt i;
  Enroll.cf_PreviousRenewalToken := Settings.cfg_PreviousRenewalToken i;
  Enroll.cf_PreviousRenewalTokenExpiresAt := Settings.cfg_PreviousRenewalTokenExpiresAt i;
  Enroll.cf_BootstrapTokenConsumed := Settings.cfg_BootstrapTokenConsumed i |}.

Section service.
Context (x : externals).
(** The configuration [New] was given, whose identity settings nothing changes, and the
    client made from it. *)
Context (cfg0 : Settings.Config).

Definition cp : Client :=
  SetEnrollBaseURL (Settings.cfg_EnrollURL (Settings.c_Core cfg0)) (Client.New (Settings.cfg_APIURL (Settings.c_Core cfg0)) (Settings.cfg_AgentID (Settings.c_Core cfg0))).
Definition agentID : string := Settings.cfg_AgentID (Settings.c_Core cfg0).
Definition certFile : string := Settings.cfg_TLSCertFile (Settings.c_TLS cfg0).
Definition keyFile : string := Settings.cfg_TLSKeyFile (Settings.c_TLS cfg0).
Definition caFile : string := Settings.cfg_TLSCAFile (Settings.c_TLS cfg0).

(** ** New *)

Definition syscollector_defaults : RuntimeConfig.SyscollectorConfig :=
  let s := Settings.c_Syscollect cfg0 in {|
  RuntimeConfig.sc_Enabled := true; RuntimeConfig.sc_Every := Settings.cfg_SyscollectEvery s; RuntimeConfig.sc_CmdTimeout := Settings.cfg_SyscollectCmdTimeout s;
  RuntimeConfig.sc_MaxOutputBytes := Settings.cfg_SyscollectMaxOutputBytes s; RuntimeConfig.sc_MaxPackages := Settings.cfg_SyscollectMaxPackages s |}.
Definition vuln_defaults : RuntimeConfig.VulnScannerConfig :=
  let v := Settings.c_Vuln cfg0 in {|
  RuntimeConfig.vs_Enabled := Manager.Contains (Settings.cfg_Sources (Settings.c_Core cfg0)) "vuln"; RuntimeConfig.vs_Every := Settings.cfg_VulnScanEvery v;
  RuntimeConfig.vs_OSVURL := Settings.cfg_VulnOSVURL v; RuntimeConfig.vs_MinSeverity := Settings.cfg_VulnMinSeverity v;
  RuntimeConfig.vs_AnalysisProfile := Settings.cfg_VulnAnalysisProfile v; RuntimeConfig.vs_ExposureEnabled := Settings.cfg_VulnExposureEnabled v;
  RuntimeConfig.vs_ScanNowToken := ""; RuntimeConfig.vs_QueryBatchSize := Settings.cfg_VulnQueryBatchSize v;
  RuntimeConfig.vs_MaxPackages := Settings.cfg_VulnMaxPackages v; RuntimeConfig.vs_CmdTimeout := Settings.cfg_VulnCmdTimeout v;
  RuntimeConfig.vs_HTTPTimeout := Settings.cfg_VulnHTTPTimeout v; RuntimeConfig.vs_MaxOutputBytes := Settings.cfg_VulnMaxOutputBytes v |}.
Definition topology_defaults : RuntimeConfig.TopologyDiscoveryConfig :=
  let t := Settings.c_Topology cfg0 in {|
  RuntimeConfig.td_Enabled := Settings.cfg_TopologyActiveDiscoveryEnabled t; RuntimeConfig.td_CIDRs := Some <$> Settings.cfg_TopologyActiveDiscoveryCIDRs t;
  RuntimeConfig.td_AllowPublic := Settings.cfg_TopologyActiveDiscoveryAllowPublic t; RuntimeConfig.td_Every := Settings.cfg_TopologyActiveDiscoveryInterval t;
  RuntimeConfig.td_MaxHosts := Settings.cfg_TopologyActiveDiscoveryMaxHosts t; RuntimeConfig.td_RateLimit := Settings.cfg_TopologyActiveDiscoveryRateLimit t;
  RuntimeConfig.td_Timeout := Settings.cfg_TopologyActiveDiscoveryTimeout t |}.

Definition event_sender : Sender.Sender :=
  let core := Settings.c_Core cfg0 in
  Sender.SetSpool (negb (is_empty (TrimSpace (Settings.cfg_SpoolDir (Settings.c_Spool cfg0)))))
    (Sender.New (Settings.cfg_APIURL core) (Settings.cfg_SenderMaxBatch core) (Settings.cfg_AgentID core)).

Definition overridden (cfg : Settings.Config) (raw : json) : Settings.Config :=
  Overrides.ApplyAgentRuntimeOverrides (x_ParseDuration x) (x_ParseFloat x) (x_sprint x) cfg raw.

(** [New], without the queue of events ([Spool.New]) and the queue and journal of
    response actions ([ResponseLoop.start]).  The arguments are the answers and supplies
    to come, the authentication log and the queue. *)
Definition New (client : cworld) (ids : list string) (keys : list (option (string * string))) (auth : AuthLog.aworld) (queue : Spool.sworld) : FM world :=
  t <- now;;
  rc <- RuntimeConfig.NewRuntimeConfig (x_marshal x) (x_parse x) (x_sha256_hex x) (x_number_int64 x)
          (Settings.cfg_AgentConfigFile (Settings.c_Identity cfg0)) syscollector_defaults vuln_defaults topology_defaults;;
  fs <- gets id;;
  retM (W (overridden cfg0 (RuntimeConfig.rc_raw rc))
    (Enroll.EW fs (Enroll.NewManager (identity_config cfg0) (x_parse_time x)) (Some rc) client ids keys [])
    {| Manager.cw_mgr := {| Manager.mg_cfg := cfg0; Manager.mg_sender := event_sender; Manager.mg_proc := None; Manager.mg_procExec := None;
         Manager.mg_fim := None; Manager.mg_l7 := None; Manager.mg_auth := false; Manager.mg_lateralProc := None; Manager.mg_lateralPcap := None;
         Manager.mg_scan := None; Manager.mg_ddos := None |}; Manager.cw_auth := auth; Manager.cw_send := queue |}
    false (initial t)
    (match RuntimeConfig.rc_loadErr rc with Some e => [LText Settings.LevelWarn "persisted_runtime_config_rejected" (x_config_text x e)] | None => [] end)
    None false false).

(** ** Calls of the components *)

Definition Apply : option json → RuntimeConfig.RM bool :=
  RuntimeConfig.Apply (x_suffix x) (x_marshal x) (x_parse x) (x_sha256_hex x) (x_number_int64 x).

Definition CurrentCredential : WM string := gets (λ w, Enroll.CurrentCredential (Enroll.ew_m (w_ident w))).
Definition onCP {A} (m : Client → string → CM A) : WM A :=
  credential <- CurrentCredential;; onIdent (Enroll.onClient (m cp credential)).

Definition MaybeRecoverIdentity (errText : string) (status : Z) : WM unit :=
  onIdent (Enroll.MaybeRecoverIdentity (identity_config cfg0) (Some cp) (x_suffix x) (x_parse x) (x_marshal_enroll x) (x_marshal_pending x)
    (x_decode_pending x) (x_marshal_state x) (x_valid_url x) (x_uuid_Parse x) (x_parse_time x) (x_format_time x) (x_format_nano x)
    (x_pem_decode x) (x_parse_certificate x) (x_x509_key_pair x) Apply (x_Hostname x) (b_GOOS (x_build x)) (b_GOARCH (x_build x))
    (b_Version (x_build x)) errText status).
Definition RecoverIdentity (force : bool) : WM unit :=
  onIdent (Enroll.RecoverIdentity (identity_config cfg0) (Some cp) (x_suffix x) (x_parse x) (x_marshal_enroll x) (x_marshal_pending x)
    (x_decode_pending x) (x_marshal_state x) (x_valid_url x) (x_uuid_Parse x) (x_parse_time x) (x_format_time x) (x_format_nano x)
    (x_pem_decode x) (x_parse_certificate x) (x_x509_key_pair x) Apply (x_Hostname x) (b_GOOS (x_build x)) (b_GOARCH (x_build x))
    (b_Version (x_build x)) force).
Definition EnsureInitialIdentity : WM unit :=
  onIdent (Enroll.EnsureInitialIdentity (identity_config cfg0) (Some cp) (x_suffix x) (x_parse x) (x_marshal_enroll x) (x_marshal_pending x)
    (x_decode_pending x) (x_marshal_state x) (x_valid_url x) (x_uuid_Parse x) (x_parse_time x) (x_format_time x) (x_format_nano x)
    (x_pem_decode x) (x_parse_certificate x) (x_x509_key_pair x) Apply (x_Hostname x) (b_GOOS (x_build x)) (b_GOARCH (x_build x))
    (b_Version (x_build x))).
Definition HasUsableIdentity : WM bool :=
  onIdent (Enroll.HasUsableIdentity (identity_config cfg0) (x_suffix x) (x_parse_certificate x) (x_x509_key_pair x)).
Definition ApplyCredentialUpdate (rot : Credential) (method : string) : WM unit :=
  onIdent (Enroll.ApplyCredentialUpdate (identity_config cfg0) (x_suffix x) (x_marshal_state x) (x_parse_time x) (x_format_time x) rot method).

Definition GetConfig : WM json := onCP (Client.GetConfig (x_parse x) (x_valid_url x)).
Definition RotateCredential : WM Credential := onCP (Client.RotateCredential (x_parse x) (x_valid_url x)).
Definition RenewCertificate (csrPEM : string) : WM CertificateRenewal :=
  onCP (λ c cred, Client.RenewCertificate (x_parse x) (x_marshal_csr x) (x_valid_url x) c cred csrPEM).

(** [s.runtimeConfig.Apply]: its error, or whether something changed. *)
Definition apply_config (raw : json) : WM (RuntimeConfig.rerror + bool) := λ v w,
  let e := w_ident w in
  match Enroll.ew_rc e with
  | None => (Ok (inr false), v, w)
  | Some rc =>
    let put w' := set_ident (Enroll.EW (RuntimeConfig.rw_files w') (Enroll.ew_m e) (Some (RuntimeConfig.rw_rc w')) (Enroll.ew_client e)
                               (Enroll.ew_ids e) (Enroll.ew_keys e) (Enroll.ew_audit e)) w in
    match Apply (Some raw) v (RuntimeConfig.RW (Enroll.ew_files e) rc) with
    | (Ok b, v', w') => (Ok (inr b), v', put w')
    | (Err er, v', w') => (Ok (inl er), v', put w')
    | (Crashed, v', w') => (Crashed, v', put w')
    end
  end.

(** ** Failure *)

(** [fail]: the first failure is put in the channel and stops the agent. *)
Definition fail (err : cerror) : WM unit :=
  modify (λ w, if w_failed w then w else set_failure (Some err) true true w).

(** ** Heartbeats *)

Definition buildHeartbeat (an : answers) : WM HeartbeatRequest :=
  w <- gets id;;
  let m := Enroll.ew_m (w_ident w) in
  let '(credExp, renewalExp, _, _, _) := Enroll.AuthStateSnapshot m in
  t1 <- (if is_zero_time credExp then retM 0 else now);;
  t2 <- (if is_zero_time renewalExp then retM 0 else now);;
  cert <- (if has_text (Settings.cfg_TLSCertFile (Settings.c_TLS (w_cfg w)))
           then r <- try (onIdent (Enroll.onFiles (CertPair.Inspect (x_pem_decode x) (x_parse_certificate x) (Settings.cfg_TLSCertFile (Settings.c_TLS (w_cfg w))))));;
                retM match r with inr cs => Some cs | inl _ => None end
           else retM None);;
  t3 <- (match cert with Some _ => now | None => retM 0 end);;
  t4 <- now;;
  retM (buildHeartbeatRequest (x_format_time x) (x_format_nano x) (x_ipnet_String x) (x_number_int64 x) (x_ParseDuration x) (x_ParseCIDR x) (x_sprint x)
    (x_build x) (w_cfg w) (x_firewallTool x) (Enroll.ew_rc (w_ident w))
    {| sn_state := w_state w; sn_auth := m; sn_cert := cert; sn_pending := an_pending an; sn_spool := an_spool an;
       sn_sources := if w_sources w then Some (an_status an) else None;
       sn_now_cred := t1; sn_now_renewal := t2; sn_now_cert := t3; sn_now := t4 |}).

Definition send_heartbeat (an : answers) : WM Negotiation :=
  hb <- buildHeartbeat an;; onCP (λ c cred, Client.Heartbeat (x_parse x) (x_valid_url x) c cred (x_marshal_heartbeat x hb)).

(** One tick of [heartbeat.Start], with the service's [OnError]. *)
Definition heartbeat_turn (an : answers) : WM unit :=
  r <- try (send_heartbeat an);;
  match r with
  | inr _ => retM tt
  | inl err =>
    warn "controlplane_heartbeat_error" (cerror_text err);;;
    match err with
    | CIncompatible i => fail (CIncompatible i)
    | _ => MaybeRecoverIdentity (cerror_text err) 0
    end
  end.

(** ** Remote configuration *)

(** One tick of the configuration poller. *)
Definition config_turn : WM unit :=
  r <- try GetConfig;;
  match r with
  | inl err => warn "controlplane_config_error" (cerror_text err);;; MaybeRecoverIdentity (cerror_text err) 0
  | inr cfg =>
    if (0 <? RuntimeConfig.object_size cfg)%nat then
      applied <- apply_config cfg;;
      match applied with
      | inl e => warn "controlplane_config_rejected" (x_config_text x e)
      | inr true => info "controlplane_config_applied"
      | inr false => retM tt
      end
    else retM tt
  end.

(** [refreshRuntimeConfig]: whether it changed, the members received, the hash. *)
Definition refreshRuntimeConfig : WM (bool * nat * string * option string) :=
  cfg <- GetConfig;;
  applied <- apply_config cfg;;
  hash <- gets (λ w, match Enroll.ew_rc (w_ident w) with Some rc => RuntimeConfig.rc_hash rc | None => "" end);;
  retM match applied with
       | inl e => (false, RuntimeConfig.object_size cfg, hash, Some (x_config_text x e))
       | inr changed => (changed, RuntimeConfig.object_size cfg, hash, None)
       end.

(** ** Credentials *)

(** [RotateCredential] and [ApplyCredentialUpdate], as the startup refresh and the
    rotation use them. *)
Definition rotate (what method : string) : WM unit :=
  r <- try RotateCredential;;
  match r with
  | inl err => warn (what +:+ "_failed") (cerror_text err);;; MaybeRecoverIdentity (cerror_text err) 0
  | inr rot =>
    r <- try (ApplyCredentialUpdate rot method);;
    match r with
    | inl err => warn (what +:+ "_persist_failed") (cerror_text err)
    | inr _ => info (what +:+ "d")
    end
  end.

(** The startup refresh of [startControlPlane], after its delay. *)
Definition identity_refresh : WM unit :=
  credential <- CurrentCredential;;
  if is_empty (TrimSpace credential) then retM tt else
  m <- gets (Enroll.ew_m ∘ w_ident);;
  let '(credExp, renewalExp, _, _, _) := Enroll.AuthStateSnapshot m in
  if negb (is_zero_time credExp) && negb (is_zero_time renewalExp) then retM tt else
  rotate "agent_identity_refresh" "startup_refresh".

(** One tick of the rotation. *)
Definition rotation_turn : WM unit :=
  w <- gets id;;
  let '(credExp, renewalExp, _, _, _) := Enroll.AuthStateSnapshot (Enroll.ew_m (w_ident w)) in
  let before := Settings.cfg_CredentialRotateBefore (Settings.c_Control (w_cfg w)) in
  let renewalRotateBefore := if before <? 12 * hour then 12 * hour else before in
  cred_due <- (if is_zero_time credExp then retM false else t <- now;; retM (time_sub credExp t <=? before));;
  renewal_due <- (if is_zero_time renewalExp then retM false else t <- now;; retM (time_sub renewalExp t <=? renewalRotateBefore));;
  if negb (cred_due || renewal_due) then retM tt else
  credential <- CurrentCredential;;
  if is_empty (TrimSpace credential) then _ <- try (E' := cerror) (RecoverIdentity false);; retM tt
  else rotate "agent_credential_rotate" "credential_rotation".

(** ** The client certificate *)

Definition recordCertificateRenewError (err : string) : WM unit := updateState (cert_failed err).

(** What a failed step of the renewal leaves behind. *)
Definition renew_failed (what err : string) : WM unit :=
  recordCertificateRenewError err;;; warn what err.

(** The steps after the server has answered. *)
Definition install_certificate (renewed : CertificateRenewal) (keyPEM : string) : WM unit :=
  t <- now;;
  match CertPair.ValidateIssuedPair (x_parse_certificate x) (x_x509_key_pair x) (cn_CertificatePEM renewed) keyPEM agentID t with
  | inl e => renew_failed "agent_certificate_validation_failed" e
  | inr _ =>
    r <- try (onIdent (Enroll.onFiles (CertPair.PersistServerCA (x_suffix x) (x_pem_decode x) (x_parse_certificate x) (cn_ServerCAPEM renewed) caFile)));;
    match r with
    | inl e => renew_failed "agent_server_ca_persist_failed" (cerror_text e)
    | inr changed =>
      (if changed : bool then info "agent_server_ca_rotated" else retM tt);;;
      r <- try (onIdent (Enroll.onFiles (CertPair.PersistPair (x_suffix x) (x_parse_certificate x) (x_x509_key_pair x) (x_format_nano x)
             (cn_CertificatePEM renewed) keyPEM agentID certFile keyFile)));;
      match r with
      | inl e => renew_failed "agent_certificate_persist_failed" (cerror_text e)
      | inr _ => updateState cert_renewed;;; info "agent_certificate_renewed"
      end
    end
  end.

Definition maybeRenewCertificate : WM unit :=
  t <- now;;
  r <- try (onIdent (Enroll.onFiles (CertPair.NeedsRenewal (x_pem_decode x) (x_parse_certificate x) certFile
         (Settings.cfg_CertRotateBefore (Settings.c_Control cfg0)) t)));;
  match r with
  | inl e => renew_failed "agent_certificate_inspect_failed" (cerror_text e)
  | inr (false, _) => retM tt
  | inr (true, _) =>
    r <- try (onIdent Enroll.NewKeyAndCSR);;
    match r with
    | inl _ => renew_failed "agent_certificate_csr_failed" "generate key"
    | inr (keyPEM, csrPEM) =>
      r <- try (RenewCertificate csrPEM);;
      match r with
      | inl e => renew_failed "agent_certificate_renew_failed" (cerror_text e);;; MaybeRecoverIdentity (cerror_text e) 0
      | inr renewed => install_certificate renewed keyPEM
      end
    end
  end.

(** [startCertificateRotation] runs only when both files are configured. *)
Definition rotates_certificate : bool := has_text certFile && has_text keyFile.

(** ** The start *)

Definition verifyCompatibility (an : answers) : WM unit :=
  before <- CurrentCredential;;
  r <- try (send_heartbeat an);;
  match r with
  | inr _ => info "protocol_compatibility_verified"
  | inl (CIncompatible i) => throw (CIncompatible i)
  | inl err =>
    MaybeRecoverIdentity (cerror_text err) 0;;;
    after <- CurrentCredential;;
    if negb (is_empty (TrimSpace after)) && negb (str_eqb (TrimSpace after) (TrimSpace before)) then
      r <- try (send_heartbeat an);;
      match r with
      | inr _ => info "protocol_compatibility_verified"
      | inl (CIncompatible i) => throw (CIncompatible i)
      | inl err => warn "protocol_compatibility_unverified" (cerror_text err)
      end
    else warn "protocol_compatibility_unverified" (cerror_text err)
  end.

Definition new_sender (w : world) : Sender.Sender := Manager.mg_sender (Manager.cw_mgr (w_cycle w)).

Definition initializeSources : WM unit :=
  r <- try GetConfig;;
  (match r with
   | inl err => warn "startup_config_unavailable" (cerror_text err)
   | inr remoteConfig =>
     if (0 <? RuntimeConfig.object_size remoteConfig)%nat then
       applied <- apply_config remoteConfig;;
       match applied with
       | inl e => warn "startup_config_rejected" (x_config_text x e)
       | inr true => info "startup_config_applied"
       | inr false => retM tt
       end
     else retM tt
   end);;;
  w <- gets id;;
  let raw := match Enroll.ew_rc (w_ident w) with Some rc => RuntimeConfig.rc_raw rc | None => JObj [] end in
  let cfg := overridden (w_cfg w) raw in
  modify (set_cfg cfg);;;
  r <- zoom w_cycle set_cycle (try (Manager.NewManager (x_parse x) (x_machine x) cfg (new_sender w)));;
  match r with
  | inl e => throw (CText ("initialize collectors: " +:+ e))
  | inr manager => modify (λ w, set_sources (set_cycle (Manager.set_mgr manager (w_cycle w)) w))
  end.

(** [Run] up to the start of the goroutines.  [health]: the error of [WaitForHealth]. *)
Definition start (health : option string) (an : answers) : WM unit :=
  usable <- HasUsableIdentity;;
  (if usable : bool then match health with Some e => warn "backend_not_ready" e | None => retM tt end else retM tt);;;
  r <- try EnsureInitialIdentity;;
  match r with
  | inl e => throw (Enroll.wrap_text "establish agent identity" e)
  | inr _ => verifyCompatibility an;;; initializeSources
  end.

(** ** The loop *)

Definition drainSpool (ctx : list bool) : WM unit :=
  w <- gets id;;
  r <- onSend (Sender.Flush (x_parse x) (x_valid_url x) (x_server x) (x_queue x) (new_sender w) ctx);;
  let '(delivered, err) := match r with
    | inl e => (0, Some (x_spool_text x e))
    | inr (delivered, err) => (delivered, x_spool_text x <$> err)
    end in
  updateState (spool_drained delivered err);;;
  if 0 <? delivered then log [LSpoolDrained delivered] else retM tt.

(** [s.sources.RunOnce]; the model of it has no error of its own. *)
Definition RunOnce (ob : Cycle.observed) : WM (Spool.serror + Cycle.CycleResult) :=
  zoom w_cycle set_cycle (try (Cycle.RunOnce (x_suffix x) (x_marshal_cp x) (x_sha1_uuid x) (x_parse x) (x_marshal_events x) (x_uuid_parse x) (x_valid_url x)
    (x_server x) (x_queue x) (x_sha256_hex x) (x_format_nano x) (x_ParseFloat x) (x_exec_by_age x) (x_fim_order x) (x_fim_by_age x) (x_number x)
    (x_scan_order x) (x_send_text x) ob)).

Definition runAndLog (ctx : list bool) (ob : Cycle.observed) : WM unit :=
  drainSpool ctx;;;
  r <- RunOnce ob;;
  match r with
  | inl _ => retM tt
  | inr res =>
    (if Cycle.cr_SendAttempted res then MaybeRecoverIdentity (Cycle.cr_Error res) (Cycle.cr_Status res) else retM tt);;;
    updateState (applyToSummary res);;;
    w <- gets id;;
    log (logCycle (Settings.c_Log (w_cfg w)) res)
  end.

Definition beat : WM unit :=
  t1 <- now;;
  w <- gets id;;
  if time_sub t1 (LastHeartbeatAt (w_state w)) <? Settings.cfg_LogHeartbeatEvery (Settings.c_Log (w_cfg w)) then retM tt else
  t2 <- now;; t3 <- now;;
  modify (λ w, let '(s, out) := maybeHeartbeat (Settings.c_Log (w_cfg w)) t1 t2 t3 (w_state w) in add_lines out (set_state (λ _, s) w)).
Definition summarize : WM unit :=
  t1 <- now;; t2 <- now;;
  modify (λ w, let '(s, l) := flushSummary (Settings.c_Log (w_cfg w)) (Settings.cfg_ScanMode (Settings.c_Scan (w_cfg w))) t1 t2 (w_state w) in
    add_lines [l] (set_state (λ _, s) w)).

(** One pass of the [select].  Before it other goroutines may have failed and the parent
    context may be done; [tn_case] is the case taken among those that are ready. *)
Inductive select_case := CaseFatal | CaseDone | CasePoll (ctx : list bool) (ob : Cycle.observed) | CaseSummary.
Record turn := { tn_failures : list cerror; tn_cancel : bool; tn_case : select_case }.

Fixpoint fail_all (errs : list cerror) : WM unit :=
  match errs with [] => retM tt | e :: errs => fail e;;; fail_all errs end.

Definition cancel (b : bool) : WM unit :=
  modify (λ w, set_failure (w_fatal w) (w_failed w) (w_done w || b) w).

(** [loop]: the error it returned, if it has returned, and the turns that are left. *)
Fixpoint loop (turns : list turn) : WM (option (option cerror) * list turn) :=
  match turns with
  | [] => retM (None, [])
  | t :: turns =>
    fail_all (tn_failures t);;; cancel (tn_cancel t);;;
    w <- gets id;;
    match tn_case t with
    | CaseFatal =>
      match w_fatal w with
      | Some err => modify (set_failure None (w_failed w) (w_done w));;; retM (Some (Some err), turns)
      | None => loop turns
      end
    | CaseDone =>
      if w_done w then
        info "shutdown";;;
        modify (set_failure None (w_failed w) (w_done w));;; retM (Some (w_fatal w), turns)
      else loop turns
    | CasePoll ctx ob => runAndLog ctx ob;;; beat;;; loop turns
    | CaseSummary => summarize;;; loop turns
    end
  end.

(** [Run]: the error it returned, if it has returned. *)
Definition Run (health : option string) (an : answers) (ctx : list bool) (ob : Cycle.observed) (turns : list turn) : WM (option (option cerror) * list turn) :=
  r <- try (start health an);;
  match r with
  | inl e => retM (Some (Some e), turns)
  | inr _ => runAndLog ctx ob;;; loop turns
  end.
End service.

(** ** Failures stop the agent *)

(** The channel, [failOnce] and the context. *)
Definition failure (w : world) : option cerror * bool * bool := (w_fatal w, w_failed w, w_done w).

(** The state after the failures raised so far, the first of them [first]. *)
Definition failed_with (first : option cerror) (stopped : bool) (w : world) : Prop :=
  failure w = (first, bool_decide (is_Some first), stopped || bool_decide (is_Some first)).

Lemma preserves_zoom {W V E A} (get : W → V) (set : V → W → W) (I : W → Prop) (m : M V E A) :
  (∀ v w, I w → I (set v w)) → preserves I (zoom get set m).
Proof. intros H v w Hw. unfold zoom. destruct (m v (get w)) as [[[a|e|] v'] x]; by apply H. Qed.

Definition first_of (first : option cerror) (errs : list cerror) : option cerror :=
  match first with Some e => Some e | None => head errs end.

Lemma first_of_app first l l' : first_of (first_of first l) l' = first_of first (l ++ l').
Proof. destruct first; [done|]. by destruct l. Qed.

Lemma fail_all_spec errs : ∀ first d,
  triple (failed_with first d) (fail_all errs) (λ _, failed_with (first_of first errs) d) (λ _ _, False) (λ _, False).
Proof.
  induction errs as [|e errs IH]; intros first d; cbn [fail_all].
  - apply triple_ret. by destruct first.
  - eapply triple_bind with (Q' := λ _, failed_with (first_of first [e]) d).
    + apply triple_modify. unfold failed_with, failure. intros w [= H1 H2 H3]. rewrite H2.
      destruct first; cbn in *; [by rewrite H1, H2, H3|]. by rewrite orb_true_r.
    + intros _. eapply triple_conseq; [apply IH|done| |done..]. intros a w. by rewrite first_of_app.
Qed.

Section running.
Context (x : externals) (cfg0 : Settings.Config).

Ltac frame := repeat first
  [ apply preserves_bind; [|intros ?] | apply preserves_gets | apply preserves_now | apply preserves_ret
  | apply preserves_zoom; done | apply preserves_modify; intros ? ? | progress cbv beta | case_match ].

Lemma runAndLog_keeps ctx ob k : preserves (λ w, failure w = k) (runAndLog x cfg0 ctx ob).
Proof. unfold runAndLog, drainSpool, onSend, RunOnce, MaybeRecoverIdentity, onIdent, updateState, log. frame; done. Qed.
Lemma beat_keeps k : preserves (λ w, failure w = k) beat.
Proof. unfold beat. frame. by destruct (maybeHeartbeat _ _ _ _ _). Qed.
Lemma summarize_keeps k : preserves (λ w, failure w = k) summarize.
Proof. unfold summarize. frame. by destruct (flushSummary _ _ _ _ _). Qed.

Definition failures (ts : list turn) : list cerror := ts ≫= tn_failures.
(** The turn takes one of the two cases that end the loop. *)
Definition exits (t : turn) : bool := match tn_case t with CaseFatal | CaseDone => true | _ => false end.
(** No turn that took one of them came after a failure. *)
Definition passed (first : option cerror) (ts : list turn) : Prop :=
  ∀ l t r, ts = l ++ t :: r → exits t = true → first_of first (failures (l ++ [t])) = None.

Definition loop_post (first : option cerror) (stopped : bool) (ts : list turn) (out : option (option cerror) * list turn) : Prop :=
  match out with
  | (Some r, rest) => ∃ l t, ts = l ++ t :: rest ∧ exits t = true ∧ passed first l ∧ r = first_of first (failures (l ++ [t])) ∧
      (r = None → stopped || existsb tn_cancel (l ++ [t]) = true)
  | (None, rest) => rest = [] ∧ passed first ts
  end.

Lemma passed_cons first t ts : (exits t = true → first_of first (tn_failures t) = None) →
  passed (first_of first (tn_failures t)) ts → passed first (t :: ts).
Proof.
  intros Ht Hts [|t' l] u r [= <- ->] Hu; unfold failures; cbn [app mbind list_bind]; rewrite ?app_nil_r; [by apply Ht|].
  rewrite <- first_of_app. by eapply Hts.
Qed.

Lemma loop_post_cons first d t ts out : (exits t = true → first_of first (tn_failures t) = None) →
  loop_post (first_of first (tn_failures t)) (d || tn_cancel t) ts out → loop_post first d (t :: ts) out.
Proof.
  intros Ht. destruct out as [[r|] rest]; cbn [loop_post].
  - intros (l & u & -> & Hu & Hp & -> & Hs). exists (t :: l), u. split_and!; [done|done|by apply passed_cons|by rewrite first_of_app|].
    intros Hn. specialize (Hs Hn). cbn [app existsb]. by rewrite orb_assoc.
  - intros [-> Hp]. split; [done|by apply passed_cons].
Qed.

(** The loop ends at this turn. *)
Lemma loop_post_here first d t ts : exits t = true → (first_of first (tn_failures t) = None → d || tn_cancel t = true) →
  loop_post first d (t :: ts) (Some (first_of first (tn_failures t)), ts).
Proof.
  intros Ht Hs. exists [], t. split_and!; [done|done|by intros []|by cbn; rewrite app_nil_r|]. cbn. by rewrite orb_false_r.
Qed.

Lemma loop_spec ts : ∀ first d,
  triple (failed_with first d) (loop x cfg0 ts) (λ out _, loop_post first d ts out) (λ _ _, True) (λ _, True).
Proof.
  induction ts as [|t ts IH]; intros first d; cbn [loop].
  { apply triple_ret. intros w _. split; [done|]. by intros []. }
  set (first' := first_of first (tn_failures t)). set (d' := d || tn_cancel t).
  eapply triple_bind with (Q' := λ _, failed_with first' d).
  { eapply triple_conseq; [apply (fail_all_spec (tn_failures t) first d)|done..]. }
  intros _. eapply triple_bind with (Q' := λ _, failed_with first' d').
  { apply triple_modify. unfold failed_with, failure. intros w [= H1 H2 H3]. cbn. rewrite H1, H2, H3. subst d'. f_equal.
    by rewrite <- !orb_assoc, (orb_comm (tn_cancel t)). }
  intros _. eapply triple_bind with (Q' := λ w' w, w' = w ∧ failed_with first' d' w); [by apply triple_gets|].
  intros w. apply (triple_weaken (λ w', failed_with first' d' w ∧ failed_with first' d' w')); [by intros ? [-> ?]|].
  apply triple_pure. intros Hw.
  assert (triple (failed_with first' d') (loop x cfg0 ts) (λ out _, loop_post first' d' ts out) (λ _ _, True) (λ _, True)) as Hrest by apply IH.
  assert ((exits t = true → first' = None) → triple (failed_with first' d') (loop x cfg0 ts) (λ out _, loop_post first d (t :: ts) out) (λ _ _, True) (λ _, True)) as Hgo.
  { intros He. eapply triple_conseq; [exact Hrest|done| |done..]. intros out w'. by apply loop_post_cons. }
  pose proof Hw as [= Hf _ Hd]. unfold exits in Hgo. destruct (tn_case t) eqn:Ec.
  - rewrite Hf. destruct first' as [e|] eqn:E; [|by apply Hgo]. eapply triple_bind with (Q' := λ _ _, True); [by apply triple_modify|].
    intros _. apply triple_ret. intros _ _. rewrite <- E. apply loop_post_here; [unfold exits; by rewrite Ec|]. subst first'. by rewrite E.
  - rewrite Hd. destruct (d' || _) eqn:E.
    + eapply triple_bind with (Q' := λ _ _, True); [by apply triple_modify|]. intros _.
      eapply triple_bind with (Q' := λ _ _, True); [by apply triple_modify|]. intros _. apply triple_ret. intros _ _. rewrite Hf.
      apply loop_post_here; [unfold exits; by rewrite Ec|]. fold first' d'. intros Hn. rewrite Hn in E. by rewrite orb_false_r in E.
    + apply Hgo. intros _. apply orb_false_iff in E as [_ E]. by destruct first'.
  - eapply triple_bind with (Q' := λ _, failed_with first' d').
    { eapply triple_conseq; [apply runAndLog_keeps|done..]. }
    intros _. eapply triple_bind with (Q' := λ _, failed_with first' d').
    { eapply triple_conseq; [apply beat_keeps|done..]. }
    intros _. by apply Hgo.
  - eapply triple_bind with (Q' := λ _, failed_with first' d').
    { eapply triple_conseq; [apply summarize_keeps|done..]. }
    intros _. by apply Hgo.
Qed.

(** C16: a fatal error of any goroutine ends the agent, and is the error [Run] reports.
    The loop returns only at a turn that takes the [fatal] or the [Done] case; what it
    returns is the first failure raised by then, also when the shutdown that the failure
    started is noticed first and when more failures follow, and it returns without an
    error only when nothing failed and the context was done.  Once something has failed,
    the first turn that takes either case ends the loop. *)
Theorem loop_returns_first_failure ts v w :
  w_fatal w = None → w_failed w = false →
  match loop x cfg0 ts v w with
  | (Ok (Some r, rest), _, _) => ∃ l t, ts = l ++ t :: rest ∧ exits t = true ∧ passed None l ∧ r = head (failures (l ++ [t])) ∧
      (r = None → w_done w || existsb tn_cancel (l ++ [t]) = true)
  | (Ok (None, rest), _, _) => rest = [] ∧ passed None ts
  | _ => True
  end.
Proof.
  intros Hf Hb. pose proof (loop_spec ts None (w_done w) v w) as H. unfold failed_with, failure in H. rewrite Hf, Hb, orb_false_r in H.
  specialize (H eq_refl). by destruct (loop x cfg0 ts v w) as [[[[[r|] rest]|e|] v'] w'].
Qed.
End running.

(** ** Renewing the certificate *)

Section renewal.
Context (x : externals) (cfg0 : Settings.Config).
Abbreviation cert := (certFile cfg0).
Abbreviation key := (keyFile cfg0).
Abbreviation recoverable := (CertPair.recoverable (x_x509_key_pair x) cert key).

Definition w_files (w : world) : files := Enroll.ew_files (w_ident w).
Definition put_files (fs : files) (w : world) : world :=
  let e := w_ident w in
  set_ident (Enroll.EW fs (Enroll.ew_m e) (Enroll.ew_rc e) (Enroll.ew_client e) (Enroll.ew_ids e) (Enroll.ew_keys e) (Enroll.ew_audit e)) w.

(** A call that only works on files. *)
Lemma on_files_spec {A} w0 (m : FM A) Q R C :
  triple (λ fs, fs = w_files w0) m Q R C →
  triple (λ w, w = w0) (onIdent (Enroll.onFiles m))
    (λ a w, ∃ fs, w = put_files fs w0 ∧ Q a fs) (λ e w, ∃ fs t, w = put_files fs w0 ∧ e = CText t ∧ R t fs) (λ w, ∃ fs, w = put_files fs w0 ∧ C fs).
Proof.
  intros Hm v w ->. specialize (Hm v (w_files w0) eq_refl). unfold onIdent, zoom, Enroll.onFiles. unfold w_files in Hm.
  destruct (m v (Enroll.ew_files (w_ident w0))) as [[[a|e|] v'] fs]; eexists _; [|eexists _|]; by split_and?.
Qed.

(** The certificate a file holds. *)
Definition certificate_of (fs : files) (path : string) : option CertPair.certificate :=
  f ← fs !! path; '(typ, bytes, _) ← x_pem_decode x (f_data f);
  if str_eqb typ "CERTIFICATE" then x_parse_certificate x bytes else None.

Definition due (before : duration) (now : time) (c : CertPair.certificate) : bool :=
  negb (now + (if before <=? 0 then 30 * 24 * hour else before) <? CertPair.x_NotAfter c).

Lemma NeedsRenewal_spec path before now fs0 :
  triple (λ fs, fs = fs0) (CertPair.NeedsRenewal (x_pem_decode x) (x_parse_certificate x) path before now)
    (λ r fs, fs = fs0 ∧ ∃ c, certificate_of fs0 path = Some c ∧ r.1 = due before now c) (λ _ fs, fs = fs0) (λ fs, fs = fs0).
Proof.
  unfold CertPair.NeedsRenewal, CertPair.Inspect.
  eapply triple_bind with (Q' := λ st fs, fs = fs0 ∧ ∃ c, certificate_of fs0 path = Some c ∧ st = CertPair.status_of c).
  - eapply triple_bind with (Q' := λ r fs, fs = fs0 ∧ ∀ d, r = Read d → f_data <$> fs0 !! path = Some d).
    { unfold ReadFile. eapply triple_bind with (Q' := λ _ fs, fs = fs0); [by apply triple_sys|]. intros ok.
      eapply triple_bind with (Q' := λ fs' fs, fs' = fs0 ∧ fs = fs0); [by apply triple_gets; intros w ->|]. intros fs'. apply triple_pure. intros ->.
      apply triple_ret. intros fs ->. split; [done|]. intros d. destruct ok; cbn; [|done]. case_match eqn:E; [|done]. intros [= <-]. apply fmap_Some. by eexists. }
    intros [d| |]; apply triple_pure_r; intros H; [|by apply triple_throw..]. specialize (H d eq_refl).
    apply fmap_Some in H as (f & Hf & ->). destruct (x_pem_decode x (f_data f)) as [[[typ bytes] rest]|] eqn:Ep; [|by apply triple_throw].
    destruct (str_eqb typ "CERTIFICATE") eqn:Et; cbn [negb]; [|by apply triple_throw].
    destruct (x_parse_certificate x bytes) as [c|] eqn:Ec; [|by apply triple_throw]. apply triple_ret. intros fs ->. split; [done|].
    exists c. split; [|done]. unfold certificate_of. rewrite Hf. cbn -[str_eqb]. rewrite Ep. cbn -[str_eqb]. by rewrite Et.
  - intros st. apply triple_ret. intros fs [-> (c & Hc & ->)]. split; [done|]. by exists c.
Qed.

Section with_paths.
Context (suffix_fresh : ∀ fs path, fs !! temp_path (x_suffix x) fs path = None).
Context (pair_nonempty : ∀ c k, CertPair.is_pair (x_x509_key_pair x) c k = true → c ≠ EmptyString ∧ k ≠ EmptyString).
Context (Hpaths : CertPair.pair_paths_ok cert key = true).
(** The bundle of the server has a file of its own, or none. *)
Context (Hca : is_empty (TrimSpace (caFile cfg0)) = true ∨
  plain_path (caFile cfg0) = true ∧ caFile cfg0 ∉ CertPair.watched cert key ∧ no_temp (caFile cfg0 :: CertPair.watched cert key) = true).

Abbreviation current := (CertPair.current (x_x509_key_pair x) cert key).

Lemma current_recoverable fs : current fs → recoverable fs = true.
Proof using All. by apply CertPair.current_J. Qed.

Lemma current_agree fs fs' : agree (CertPair.watched cert key) fs fs' → current fs' → current fs.
Proof using All.
  intros Ha H. unfold CertPair.current, CertPair.content in *. rewrite !Ha; [done|by right; left|by left].
Qed.

(** Writing the bundle leaves the pair alone. *)
Lemma PersistServerCA_keeps bundle fs0 : current fs0 →
  triple (λ fs, fs = fs0) (CertPair.PersistServerCA (x_suffix x) (x_pem_decode x) (x_parse_certificate x) bundle (caFile cfg0))
    (λ _, current) (λ _, current) current.
Proof using All.
  intros H0. assert (∀ A (m : FM A), triple (λ fs, fs = fs0) m (λ _ fs, fs = fs0) (λ _ fs, fs = fs0) (λ fs, fs = fs0) →
    triple (λ fs, fs = fs0) m (λ _, current) (λ _, current) current) as Hid.
  { intros A m Hm. eapply triple_conseq; [exact Hm|done|by intros _ ? ->|by intros _ ? ->|by intros ? ->]. }
  unfold CertPair.PersistServerCA. cbv zeta. destruct (is_empty (TrimSpace bundle) || is_empty (TrimSpace (caFile cfg0))) eqn:E.
  { by apply triple_ret; intros ? ->. }
  apply orb_false_iff in E as [_ E]. destruct Hca as [Hca'|(Hplain & Hout & Hv)]; [congruence|].
  eapply triple_bind with (Q' := λ _ fs, fs = fs0).
  { unfold CertPair.lift_err. destruct (CertPair.ValidateServerCA _ _ _); [by apply triple_throw; intros ? ->|by apply triple_ret]. }
  intros _. eapply triple_bind with (Q' := λ _ fs, fs = fs0).
  { unfold ReadFile. eapply triple_bind with (Q' := λ _ fs, fs = fs0); [apply triple_sys; by intros ? ->|]. intros ok.
    eapply triple_bind with (Q' := λ _ fs, fs = fs0); [by apply triple_gets|]. intros fs'. by apply triple_ret. }
  intros existing. destruct (match existing with Read _ => _ | _ => _ end); [by apply triple_ret; intros ? ->|].
  pose proof Hplain as [_ Ht%str_eqb_eq]%andb_true_iff. rewrite Ht.
  set (data := TrimSpace bundle +:+ CertPair.newline).
  pose proof (AtomicWriteFile_spec (x_suffix x) suffix_fresh (caFile cfg0 :: CertPair.watched cert key) Hv (caFile cfg0) data 420 fs0
    ltac:(by left) Hplain) as Hw. cbv zeta in Hw.
  assert (∀ fs, agree (caFile cfg0 :: CertPair.watched cert key) fs fs0 ∨
    replaced (caFile cfg0 :: CertPair.watched cert key) (caFile cfg0) data 420 fs0 fs → current fs) as Hkeep.
  { intros fs [Ha|Ha]; apply (current_agree fs fs0); try done; intros q Hq; [apply Ha; by right|].
    rewrite (Ha q) by (by right). rewrite lookup_insert_ne; [done|]. by intros <-. }
  eapply triple_bind with (Q' := λ _, current); [|by intros _; apply triple_ret].
  apply triple_wrap. eapply triple_conseq; [exact Hw|done|..]; intros; apply Hkeep; auto.
Qed.

(** Files and counters are those of [w0]. *)
Definition same (w0 w : world) : Prop := w_files w = w_files w0 ∧ w_state w = w_state w0.

Lemma onCP_same {A} (m : Client → string → CM A) w0 :
  triple (same w0) (onCP cfg0 m) (λ _, same w0) (λ _, same w0) (same w0).
Proof using Type.
  unfold onCP. eapply triple_bind with (Q' := λ _, same w0); [by apply triple_gets|]. intros cred v w Hw.
  unfold onIdent, zoom, Enroll.onClient. destruct (m _ _ v _) as [[[a|e|] v'] c]; exact Hw.
Qed.

Definition attempts_recovery (err : string) : bool := Enroll.shouldAttemptIdentityRecovery (identity_config cfg0) err 0.

(** A recovery is attempted, or nothing happens. *)
Lemma MaybeRecover_keeps err w0 :
  let post w := w_state w = w_state w0 ∧ (attempts_recovery err = true ∨ w_files w = w_files w0) in
  triple (λ w, w = w0) (MaybeRecoverIdentity x cfg0 err 0) (λ _, post) (λ _ _, False) post.
Proof using Type.
  intros post v w ->. unfold MaybeRecoverIdentity, Enroll.MaybeRecoverIdentity, onIdent, zoom. fold (attempts_recovery err).
  unfold post. destruct (attempts_recovery err); cbn [negb]; [|split; [done|by right]].
  unfold bindM, try. destruct (Enroll.RecoverIdentity _ _ _ _ _ _ _ _ _ _ _ _ _ _ _ _ _ _ _ _ _ _ v _) as [[[a|e|] v'] e']; (split; [done|by left]).
Qed.

Lemma state_keeps P f msg err : (∀ w, P w → P (add_lines [LText Settings.LevelWarn msg err] w)) →
  triple (λ w, P (set_state f w)) (updateState f;;; warn msg err) (λ _, P) (λ _ _, False) (λ _, False).
Proof using Type.
  intros HP. eapply triple_bind with (Q' := λ _, P); [by apply triple_modify|]. intros _. by apply triple_modify.
Qed.

Definition failed_totals (err : string) (c : CertTotals) : CertTotals :=
  Build_CertTotals (CertRenewalsTotal c) (add (CertRenewErrorsTotal c) 1) err.

(** The attempt failed with [err]; the pair can still be recovered, unless the failure
    made the agent recover its identity, which replaces the certificate itself. *)
Definition renewal_failed (c0 : CertTotals) (w : world) : Prop :=
  ∃ err, s_cert (w_state w) = failed_totals err c0 ∧ (recoverable (w_files w) = true ∨ attempts_recovery err = true).

(** The certificate [c] with the key [k] was issued to this agent and is installed. *)
Definition renewal_done (k : string) (c0 : CertTotals) (w : world) : Prop :=
  s_cert (w_state w) = Build_CertTotals (add (CertRenewalsTotal c0) 1) (CertRenewErrorsTotal c0) EmptyString ∧
  ∃ c t st, CertPair.ValidateIssuedPair (x_parse_certificate x) (x_x509_key_pair x) c k (agentID cfg0) t = inr st ∧
    CertPair.live cert key c k (w_files w) ∧ CertPair.absent (CertPair.artifacts cert key) (w_files w).

Lemma renew_failed_spec what err c0 :
  triple (λ w, s_cert (w_state w) = c0 ∧ recoverable (w_files w) = true) (renew_failed what err)
    (λ _ w, s_cert (w_state w) = failed_totals err c0 ∧ recoverable (w_files w) = true) (λ _ _, False) (λ _, False).
Proof using Type.
  unfold renew_failed, recordCertificateRenewError.
  eapply triple_conseq; [apply state_keeps with (P := λ w, s_cert (w_state w) = failed_totals err c0 ∧ recoverable (w_files w) = true)|..]; [done| |done..].
  intros w [<- Hr]. split; [|done]. done.
Qed.

Lemma failed_end what err c0 (K : world → Prop) C :
  triple (λ w, s_cert (w_state w) = c0 ∧ recoverable (w_files w) = true) (renew_failed what err)
    (λ _ w, renewal_failed c0 w ∨ K w) (λ _ _, False) C.
Proof using Type.
  eapply triple_conseq; [apply (renew_failed_spec what err c0)|done| |done..]. intros _ w [Hc Hr]. left. exists err. by auto.
Qed.

(** A file call of the renewal. *)
Lemma file_step {A} (m : FM A) c0 (I : files → Prop) (Q : A → files → Prop) :
  (∀ fs, I fs → recoverable fs = true) →
  (∀ fs0, I fs0 → triple (λ fs, fs = fs0) m Q (λ _ fs, recoverable fs = true) (λ fs, recoverable fs = true)) →
  triple (λ w, s_cert (w_state w) = c0 ∧ I (w_files w)) (try (E' := cerror) (onIdent (Enroll.onFiles m)))
    (λ r w, s_cert (w_state w) = c0 ∧ match r with inr a => Q a (w_files w) | inl _ => recoverable (w_files w) = true end)
    (λ _ _, False) (λ w, recoverable (w_files w) = true).
Proof using Type.
  intros HI Hm. apply triple_start. intros w0 [Hc H0]. apply triple_try.
  eapply triple_conseq; [apply (on_files_spec w0 m), Hm, H0|done|..].
  - intros a w (fs & -> & Ha). done.
  - intros e w (fs & t & -> & _ & He). done.
  - intros w (fs & -> & Hr). done.
Qed.

Lemma install_spec renewed k c0 :
  triple (λ w, s_cert (w_state w) = c0 ∧ current (w_files w)) (install_certificate x cfg0 renewed k)
    (λ _ w, renewal_failed c0 w ∨ renewal_done k c0 w) (λ _ _, False) (λ w, recoverable (w_files w) = true).
Proof using All.
  pose proof (λ fs, current_recoverable fs) as Hcr. unfold install_certificate.
  eapply triple_bind with (Q' := λ _ w, s_cert (w_state w) = c0 ∧ current (w_files w)); [by apply triple_now|]. intros t.
  destruct (CertPair.ValidateIssuedPair _ _ _ _ _ _) as [e|st] eqn:Hv.
  { eapply triple_weaken; [|apply failed_end]. intros w [? ?]. auto. }
  eapply triple_bind; [apply (file_step _ c0 current (λ _, current) Hcr)|].
  { intros fs0 H0. eapply triple_conseq; [apply (PersistServerCA_keeps _ fs0 H0)|done|done|intros; by apply Hcr|intros; by apply Hcr]. }
  intros [e|changed]; [apply failed_end|].
  eapply triple_bind with (Q' := λ _ w, s_cert (w_state w) = c0 ∧ current (w_files w)).
  { destruct changed; [by apply triple_modify|by apply triple_ret]. }
  intros _. eapply triple_bind; [apply (file_step _ c0 current) with (Q := λ _ fs,
    CertPair.live cert key (cn_CertificatePEM renewed) k fs ∧ CertPair.absent (CertPair.artifacts cert key) fs); [exact Hcr|]|].
  { intros fs0 H0. eapply triple_conseq; [apply (CertPair.PersistPair_spec (x_suffix x) (x_parse_certificate x) (x_x509_key_pair x)
      (x_format_nano x) suffix_fresh pair_nonempty cert key Hpaths)|by intros ? ->|by intros _ fs (_ & ?)|done..]. }
  intros [e|[]]; [apply failed_end|].
  eapply triple_bind with (Q' := λ _ w, renewal_done k c0 w).
  { apply triple_modify. intros w [<- Hl]. split; [done|]. exists (cn_CertificatePEM renewed), t, st. by destruct Hl. }
  intros _. apply triple_modify. intros w H. by right.
Qed.

(** The renewal came up for a certificate that is due, and [k] is the key just made. *)
Definition renewal_due (w0 : world) (k : string) : Prop :=
  ∃ csr t c, head (Enroll.ew_keys (w_ident w0)) = Some (Some (k, csr)) ∧ certificate_of (w_files w0) cert = Some c ∧
    due (Settings.cfg_CertRotateBefore (Settings.c_Control cfg0)) t c = true.
(** The certificate is not due, and nothing has been done. *)
Definition renewal_idle (w0 w : world) : Prop :=
  same w0 w ∧ ∃ t c, certificate_of (w_files w0) cert = Some c ∧ due (Settings.cfg_CertRotateBefore (Settings.c_Control cfg0)) t c = false.

(** A pair that can be recovered, or an identity recovery in progress. *)
Definition renewal_killed (w : world) : Prop :=
  recoverable (w_files w) = true ∨ attempts_recovery (CertLastRenewError (s_cert (w_state w))) = true.

(** The request and what follows it. *)
Lemma request_spec k csr w0 : current (w_files w0) →
  triple (same w0)
    (r <- try (E' := cerror) (RenewCertificate x cfg0 csr);;
     match r with
     | inl e => renew_failed "agent_certificate_renew_failed" (cerror_text e);;; MaybeRecoverIdentity x cfg0 (cerror_text e) 0
     | inr renewed => install_certificate x cfg0 renewed k
     end)
    (λ _ w, renewal_failed (s_cert (w_state w0)) w ∨ renewal_done k (s_cert (w_state w0)) w) (λ _ _, False) renewal_killed.
Proof using All.
  intros H0. pose proof (current_recoverable _ H0) as Hr0. eapply triple_bind with (Q' := λ _, same w0).
  { apply triple_try. eapply triple_conseq; [apply (onCP_same _ w0)|done..|]. intros w [Hf _]. left. by rewrite Hf. }
  assert (∀ w, same w0 w → s_cert (w_state w) = s_cert (w_state w0) ∧ current (w_files w)) as Hsame by (by intros w [-> ->]).
  intros [e|renewed].
  - eapply triple_bind.
    { eapply triple_weaken; [|eapply triple_conseq; [apply (renew_failed_spec _ (cerror_text e) (s_cert (w_state w0)))|done|intros ? ? H; exact H|done|done]].
      intros w [-> Hc]%Hsame. split; [done|by apply current_recoverable]. }
    intros []. apply triple_start. intros w1 [Hc Hr].
    assert (∀ w, w_state w = w_state w1 ∧ (attempts_recovery (cerror_text e) = true ∨ w_files w = w_files w1) →
      s_cert (w_state w) = failed_totals (cerror_text e) (s_cert (w_state w0)) ∧ (recoverable (w_files w) = true ∨ attempts_recovery (cerror_text e) = true)) as Hpost.
    { intros w [-> [?| ->]]; auto. }
    eapply triple_conseq; [apply (MaybeRecover_keeps (cerror_text e) w1)|done|..].
    + intros _ w Hw%Hpost. left. by exists (cerror_text e).
    + by intros.
    + intros w [Hcw Hw]%Hpost. unfold renewal_killed. by rewrite Hcw.
  - eapply triple_weaken; [exact Hsame|]. eapply triple_conseq; [apply (install_spec renewed k (s_cert (w_state w0)))|done|done|done|by left].
Qed.

End with_paths.
End renewal.

(** ** The start *)

Section startup.
Context (x : externals) (cfg0 : Settings.Config).

(** Nothing has been sent to the server of events, nor queued for it. *)
Definition unsent (s : Spool.sworld) (w : world) : Prop := Manager.cw_send (w_cycle w) = s.

(** The errors the start may end with. *)
Inductive startup_error : cerror → Prop :=
  | no_identity e : startup_error (Enroll.wrap_text "establish agent identity" e)
  | incompatible i : startup_error (CIncompatible i)
  | no_collectors e : startup_error (CText ("initialize collectors: " +:+ e)).

Ltac frame := repeat first
  [ apply preserves_bind; [|intros ?] | apply preserves_gets | apply preserves_now | apply preserves_ret | apply preserves_throw
  | apply preserves_modify; intros ? ?; done | apply preserves_zoom; done | apply preserves_try | progress cbv beta | case_match ].

Lemma onCP_unsent {A} (m : Client → string → CM A) s : preserves (unsent s) (onCP cfg0 m).
Proof. unfold onCP, CurrentCredential, onIdent. frame. Qed.
Lemma send_heartbeat_unsent an s : preserves (unsent s) (send_heartbeat x cfg0 an).
Proof. unfold send_heartbeat, buildHeartbeat, onIdent. apply preserves_bind; [frame|intros ?; apply onCP_unsent]. Qed.
Lemma apply_config_unsent raw s : preserves (unsent s) (apply_config x raw).
Proof. intros v w Hw. unfold apply_config. destruct (Enroll.ew_rc _); [|done]. by destruct (Apply _ _ _ _) as [[[a|e|] v'] w']. Qed.
#[local] Hint Resolve onCP_unsent send_heartbeat_unsent apply_config_unsent : core.

(** A handler that ends with no error of its own. *)
Definition calm {A} (m : WM A) : Prop := ∀ s, triple (unsent s) m (λ _, unsent s) (λ _ _, False) (unsent s).

Lemma calm_of {A} (m : WM A) : (∀ s, preserves (unsent s) m) → nothrow m → calm m.
Proof. intros Hp Hn s. eapply triple_nothrow; [done|apply Hp]. Qed.

Lemma nothrow_zoom {W V E A} (get : W → V) (set : V → W → W) (m : M V E A) : nothrow m → nothrow (zoom get set m).
Proof. intros H v w. specialize (H v (get w)). unfold zoom. by destruct (m v (get w)) as [[[a|e|] v'] y]. Qed.

Lemma recover_nothrow err st : nothrow (MaybeRecoverIdentity x cfg0 err st).
Proof.
  apply nothrow_zoom. unfold Enroll.MaybeRecoverIdentity. destruct (negb _); [apply nothrow_ret|].
  apply nothrow_bind; [apply nothrow_try|intros ?; apply nothrow_ret].
Qed.

Lemma verify_spec an s :
  triple (unsent s) (verifyCompatibility x cfg0 an) (λ _, unsent s) (λ e w, (∃ i, e = CIncompatible i) ∧ unsent s w) (unsent s).
Proof.
  assert (∀ A (m : WM A), (∀ s, preserves (unsent s) m) → nothrow m → ∀ R : cerror → world → Prop, triple (unsent s) m (λ _, unsent s) R (unsent s)) as Hcalm.
  { intros A m Hp Hn R. eapply triple_nothrow; [exact Hn|apply Hp]. }
  assert (∀ msg err, triple (unsent s) (warn msg err) (λ _, unsent s) (λ e w, (∃ i, e = CIncompatible i) ∧ unsent s w) (unsent s)) as Hwarn by (intros; by apply triple_modify).
  assert (∀ msg, triple (unsent s) (info msg) (λ _, unsent s) (λ e w, (∃ i, e = CIncompatible i) ∧ unsent s w) (unsent s)) as Hinfo by (intros; by apply triple_modify).
  assert (∀ i, triple (unsent s) (throw (A := unit) (CIncompatible i)) (λ _, unsent s) (λ e w, (∃ i, e = CIncompatible i) ∧ unsent s w) (unsent s)) as Hthrow
    by (intros i; apply triple_throw; eauto).
  unfold verifyCompatibility. eapply triple_bind with (Q' := λ _, unsent s); [by apply triple_gets|]. intros before.
  eapply triple_bind with (Q' := λ _, unsent s); [apply Hcalm; [intros; apply preserves_try; auto|apply nothrow_try]|].
  intros [err|n]; [|apply Hinfo].
  assert (triple (unsent s) (MaybeRecoverIdentity x cfg0 (cerror_text err) 0;;; after <- CurrentCredential;;
    if negb (is_empty (TrimSpace after)) && negb (str_eqb (TrimSpace after) (TrimSpace before)) then
      r <- try (send_heartbeat x cfg0 an);;
      match r with
      | inr _ => info "protocol_compatibility_verified"
      | inl (CIncompatible i) => throw (CIncompatible i)
      | inl err => warn "protocol_compatibility_unverified" (cerror_text err)
      end
    else warn "protocol_compatibility_unverified" (cerror_text err)) (λ _, unsent s) (λ e w, (∃ i, e = CIncompatible i) ∧ unsent s w) (unsent s)) as Hretry.
  { eapply triple_bind with (Q' := λ _, unsent s); [apply Hcalm; [intros; by apply preserves_zoom|apply recover_nothrow]|]. intros _.
    eapply triple_bind with (Q' := λ _, unsent s); [by apply triple_gets|]. intros after. destruct (_ && _); [|apply Hwarn].
    eapply triple_bind with (Q' := λ _, unsent s); [apply Hcalm; [intros; apply preserves_try; auto|apply nothrow_try]|].
    intros [[t|e|i]|n']; [apply Hwarn..|apply Hthrow|apply Hinfo]. }
  destruct err as [t|e|i]; [exact Hretry..|apply Hthrow].
Qed.

Lemma usable_nothrow : nothrow (HasUsableIdentity x cfg0).
Proof.
  apply nothrow_zoom. unfold Enroll.HasUsableIdentity. apply nothrow_bind; [apply nothrow_gets|intros m]. destruct (is_empty _); [apply nothrow_ret|].
  assert (nothrow (Enroll.certificateIdentityUsable (identity_config cfg0) (x_suffix x) (x_parse_certificate x) (x_x509_key_pair x))) as H
    by (unfold Enroll.certificateIdentityUsable, ReadFile; cbv zeta; nothrow_tac).
  intros v w. specialize (H v (Enroll.ew_files w)). unfold Enroll.onFiles. by destruct (Enroll.certificateIdentityUsable _ _ _ _ v _) as [[[a|e|] v'] fs].
Qed.

Lemma NewManager_unsent parse ma cfg sender s : preserves (λ w, Manager.cw_send w = s) (Manager.NewManager parse ma cfg sender).
Proof. unfold Manager.NewManager, Manager.new_auth, Manager.selected, Manager.required. cbv zeta. frame. Qed.

Lemma initialize_spec s :
  triple (unsent s) (initializeSources x cfg0) (λ _ w, unsent s w ∧ w_sources w = true) (λ e w, startup_error e ∧ unsent s w) (unsent s).
Proof.
  unfold initializeSources. eapply triple_bind with (Q' := λ _, unsent s).
  { eapply triple_nothrow; [apply nothrow_try|]. apply preserves_try. apply (onCP_unsent _ s). }
  intros r. eapply triple_bind with (Q' := λ _, unsent s).
  { destruct r as [e|cfg]; [by apply triple_modify|]. case_match; [|by apply triple_ret]. eapply triple_bind with (Q' := λ _, unsent s).
    - eapply triple_nothrow; [|apply (apply_config_unsent cfg s)]. intros v w. unfold apply_config. destruct (Enroll.ew_rc _); [|done].
      by destruct (Apply _ _ _ _) as [[[a|e|] v'] w'].
    - intros [e|[]]; [by apply triple_modify..|by apply triple_ret]. }
  intros _. eapply triple_bind with (Q' := λ _, unsent s); [by apply triple_gets|]. intros w.
  eapply triple_bind with (Q' := λ _, unsent s); [by apply triple_modify|]. intros _.
  eapply triple_bind with (Q' := λ _, unsent s).
  { eapply triple_nothrow with (R := λ _ _, True); [apply nothrow_zoom, nothrow_try|]. intros v w1 Hw1. unfold zoom, try.
    pose proof (NewManager_unsent (x_parse x) (x_machine x) (overridden x (w_cfg w)
      match Enroll.ew_rc (w_ident w) with Some rc => RuntimeConfig.rc_raw rc | None => JObj [] end) (new_sender w) s v (w_cycle w1) Hw1) as H.
    by destruct (Manager.NewManager _ _ _ _ v _) as [[[a|e|] v'] c]. }
  intros [e|m]; [apply triple_throw; intros ? ?; split; [constructor|done]|]. apply triple_modify. intros w1 Hw1. done.
Qed.

End startup.

(** ** Examples *)

Definition demo_externals : externals := {|
  x_suffix := long_suffix; x_parse := λ s, if str_eqb s "renewed" then Some (JObj [("certificate_pem", JStr "CERT2")]%string) else None;
  x_marshal := λ _, None; x_marshal_enroll := λ _, None; x_marshal_pending := λ _, None; x_decode_pending := λ _, None; x_marshal_state := λ _, None;
  x_marshal_csr := Some; x_marshal_heartbeat := λ _, Some "hb"%string; x_marshal_events := λ _, None; x_marshal_cp := λ _, None;
  x_number_int64 := λ _, None; x_number := λ _, EmptyString; x_valid_url := λ _, true; x_uuid_Parse := λ _, true; x_uuid_parse := Some;
  x_parse_time := λ _, None; x_format_time := λ _, "t"%string; x_format_nano := λ _, "now"%string; x_ParseDuration := λ _, None;
  x_ParseFloat := λ _, None; x_ParseCIDR := λ _, None; x_ipnet_String := λ _, EmptyString; x_sprint := λ _, EmptyString; x_sha256_hex := id; x_sha1_uuid := id;
  x_pem_decode := λ s, Some ("CERTIFICATE", s, "")%string; x_parse_certificate := CertPair.demo_parse; x_x509_key_pair := CertPair.demo_key_pair;
  x_Hostname := "host"; x_build := demo_build; x_firewallTool := "";
  x_machine := {| Manager.ma_readable := λ _, false; Manager.ma_dialed := None; Manager.ma_host := Discovery.demo_net [];
    Manager.ma_lateral := None; Manager.ma_scan := None; Manager.ma_l7 := None; Manager.ma_ddos := None |};
  x_server := Sender.acking; x_queue := Sender.demo_queue; x_exec_by_age := map_to_list; x_fim_order := map_to_list; x_fim_by_age := map_to_list;
  x_scan_order := map_to_list; x_send_text := λ _, "send"%string; x_spool_text := λ _, "spool"%string; x_config_text := λ _, "config"%string |}.

Definition demo_cfg : Settings.Config :=
  let c := demo_config "managed" in let core := Settings.c_Core c in
  {| Settings.c_Core := Settings.Build_CoreSettings "agent-1" "https://cp" "" [] None second second 1 "managed"; Settings.c_Spool := Settings.c_Spool c;
     Settings.c_Identity := Settings.c_Identity c; Settings.c_TLS := Settings.Build_TLSSettings "" CertPair.demo_cert CertPair.demo_key "";
     Settings.c_Control := Settings.c_Control c; Settings.c_Syscollect := Settings.c_Syscollect c; Settings.c_Vuln := Settings.c_Vuln c;
     Settings.c_Auth := Settings.c_Auth c; Settings.c_Proc := Settings.c_Proc c; Settings.c_ProcExec := Settings.c_ProcExec c; Settings.c_FIM := Settings.c_FIM c;
     Settings.c_L7 := Settings.c_L7 c; Settings.c_Lateral := Settings.c_Lateral c; Settings.c_Scan := Settings.c_Scan c; Settings.c_DDoS := Settings.c_DDoS c;
     Settings.c_NetCtx := Settings.c_NetCtx c; Settings.c_Topology := Settings.c_Topology c; Settings.c_Log := Settings.c_Log c |}.

Definition demo_service (a : list answer) : world := W demo_cfg
  (Enroll.EW CertPair.demo_start (Enroll.NewManager (identity_config demo_cfg) (λ _, None)) None (CW [] a) [] [Some ("KEY_2", "CSR")%string] [])
  Cycle.demo_world false (initial 0) [] None false false.

Definition demo_renewal := maybeRenewCertificate demo_externals demo_cfg (quiet 50) (demo_service [Answer 200 "renewed"]).
Example renewal_installs :
  (CertPair.content (w_files demo_renewal.2) CertPair.demo_cert, CertPair.content (w_files demo_renewal.2) CertPair.demo_key, s_cert (w_state demo_renewal.2)) =
  ("CERT2", "KEY_2", Build_CertTotals 1 0 "")%string.
Proof. vm_compute. reflexivity. Qed.


(** Two heartbeats are refused, and the shutdown is noticed before the channel is read. *)
Definition demo_refusal (d : string) : cerror := CText d.
Definition demo_turns : list turn := [
  Build_turn [] false CaseSummary; Build_turn [demo_refusal "first"; demo_refusal "second"] false CaseSummary;
  Build_turn [demo_refusal "third"] true CaseDone; Build_turn [] false CaseFatal].

Lemma loop_returns_first_failure_witness :
  ∃ v w, loop demo_externals demo_cfg demo_turns (quiet 1) (demo_service []) = (Ok (Some (Some (demo_refusal "first")), [Build_turn [] false CaseFatal]), v, w).
Proof.
  pose proof (loop_returns_first_failure demo_externals demo_cfg demo_turns (quiet 1) (demo_service []) eq_refl eq_refl) as H.
  assert (match loop demo_externals demo_cfg demo_turns (quiet 1) (demo_service []) with (Ok (Some _, [_]), _, _) => true | _ => false end = true) as Hok by (vm_compute; reflexivity).
  destruct (loop _ _ _ _ _) as [[[[[r|] [|t [|? ?]]]|e|] v] w]; [done| |done..]. destruct H as (l & u & Hl & _ & _ & -> & _).
  exists v, w. unfold demo_turns in Hl. destruct l as [|? [|? [|? l]]]; cbn in Hl; try discriminate Hl.
  - injection Hl as <- <- <- <-. reflexivity.
  - by destruct l as [|? [|? l]].
Defined.
