(* ===== verification/Transport.v ===== *)
(** * Transport: TLS material of the HTTP client (internal/transport)

    The client keeps the CA pool and the client certificate it loaded last and loads
    them again when a file's size or time has changed.  The files change under it, by the
    rotation of certificates, so every system call has its own view of the disk.  X.509
    itself ([CertPool], [Verify], [tls.X509KeyPair]) is a parameter. *)

From S2P Require Import Prelude GoStr GoText.

Local Open Scope Z_scope.
Local Open Scope go_scope.

Record TLSOptions := { to_CAFile : string; to_CertFile : string; to_KeyFile : string; to_ServerName : string }.
Record fileStamp := { fs_size : Z; fs_modTime : time }.
#[export] Instance fileStamp_eq_dec : EqDecision fileStamp.
Proof. solve_decision. Defined.
Definition zero_stamp : fileStamp := Build_fileStamp 0 0.

(** An error, which may wrap [os.ErrNotExist]. *)
Record terror := { te_text : string; te_not_exist : bool }.

(** What [os.Stat] and [os.ReadFile] find at one moment. *)
Inductive stat_result := StatOk (s : fileStamp) | StatMissing | StatFailed (e : string).
Record view := { vw_stat : string → stat_result; vw_read : string → terror + string }.

Definition statFile (vw : view) (path label : string) : terror + fileStamp :=
  if is_empty path then inr zero_stamp else
  match vw_stat vw path with
  | StatOk s => inr s
  | StatMissing => inl {| te_text := label +:+ " does not exist: " +:+ path; te_not_exist := true |}
  | StatFailed e => inl {| te_text := "stat " +:+ label +:+ ": " +:+ e; te_not_exist := false |}
  end.

Section transport.
(** A certificate, a pool, a loaded pair. *)
Context {certificate pool pair : Type}.
Context (system_roots : pool) (AppendCertsFromPEM : string → option pool).
(** [tls.X509KeyPair] and [Certificate.Verify], for a leaf, the name, the roots and the
    intermediates, at a time. *)
Context (X509KeyPair : string → string → option pair).
Context (Verify : certificate → string → pool → list certificate → time → option string).

Record reloadingTLSMaterial := {
  m_caFile : string; m_certFile : string; m_keyFile : string; m_cachedRoots : option (pool * fileStamp);
  m_cachedClient : option (pair * fileStamp * fileStamp) }.

Definition with_roots (r : pool * fileStamp) (m : reloadingTLSMaterial) : reloadingTLSMaterial :=
  Build_reloadingTLSMaterial (m_caFile m) (m_certFile m) (m_keyFile m) (Some r) (m_cachedClient m).
Definition with_client (c : pair * fileStamp * fileStamp) (m : reloadingTLSMaterial) : reloadingTLSMaterial :=
  Build_reloadingTLSMaterial (m_caFile m) (m_certFile m) (m_keyFile m) (m_cachedRoots m) (Some c).

(** The views of the two system calls of [rootCAs]. *)
Record ca_views := { cv_stat : view; cv_read : view }.

Definition rootCAs (cv : ca_views) (m : reloadingTLSMaterial) : (terror + pool) * reloadingTLSMaterial :=
  if is_empty (m_caFile m) then (inr system_roots, m) else
  match statFile (cv_stat cv) (m_caFile m) "TLS CA file" with
  | inl e => (inl e, m)
  | inr caStamp =>
    let load :=
      match vw_read (cv_read cv) (m_caFile m) with
      | inl e => (inl {| te_text := "read TLS CA file: " +:+ te_text e; te_not_exist := te_not_exist e |}, m)
      | inr caPEM =>
        match AppendCertsFromPEM caPEM with
        | None => (inl {| te_text := "append TLS CA certs: invalid PEM"; te_not_exist := false |}, m)
        | Some roots => (inr roots, with_roots (roots, caStamp) m)
        end
      end in
    match m_cachedRoots m with
    | Some (roots, stamp) => if decide (caStamp = stamp) then (inr roots, m) else load
    | None => load
    end
  end.

Definition cachedClientOr (err : terror) (m : reloadingTLSMaterial) : (terror + pair) * reloadingTLSMaterial :=
  match m_cachedClient m with Some (c, _, _) => (inr c, m) | None => (inl err, m) end.

(** The views of [clientCertificate]: the two [Stat]s and the two reads of
    [tls.LoadX509KeyPair], which takes the certificate first. *)
Record client_views := { cl_stat_cert : view; cl_stat_key : view; cl_read_cert : view; cl_read_key : view }.

Definition LoadX509KeyPair (cl : client_views) (certFile keyFile : string) : terror + pair :=
  match vw_read (cl_read_cert cl) certFile with
  | inl e => inl e
  | inr certPEM =>
    match vw_read (cl_read_key cl) keyFile with
    | inl e => inl e
    | inr keyPEM =>
      match X509KeyPair certPEM keyPEM with
      | None => inl {| te_text := "tls: private key does not match public key"; te_not_exist := false |}
      | Some crt => inr crt
      end
    end
  end.

Definition clientCertificate (cl : client_views) (m : reloadingTLSMaterial) : (terror + pair) * reloadingTLSMaterial :=
  match statFile (cl_stat_cert cl) (m_certFile m) "TLS client certificate" with
  | inl e => cachedClientOr e m
  | inr certStamp =>
    match statFile (cl_stat_key cl) (m_keyFile m) "TLS client key" with
    | inl e => cachedClientOr e m
    | inr keyStamp =>
      let load :=
        match LoadX509KeyPair cl (m_certFile m) (m_keyFile m) with
        | inl e => cachedClientOr {| te_text := "load TLS client certificate: " +:+ te_text e; te_not_exist := te_not_exist e |} m
        | inr crt => (inr crt, with_client (crt, certStamp, keyStamp) m)
        end in
      match m_cachedClient m with
      | Some (crt, s1, s2) => if decide (certStamp = s1) then if decide (keyStamp = s2) then (inr crt, m) else load else load
      | None => load
      end
    end
  end.

Definition verifyServerConnection (cv : ca_views) (now : time) (peers : list certificate) (serverName : string) (m : reloadingTLSMaterial)
    : option terror * reloadingTLSMaterial :=
  match peers with
  | [] => (Some {| te_text := "TLS server certificate missing from peer"; te_not_exist := false |}, m)
  | leaf :: intermediates =>
    match rootCAs cv m with
    | (inl e, m) => (Some e, m)
    | (inr roots, m) =>
      (match Verify leaf serverName roots intermediates now with
       | Some e => Some {| te_text := "verify TLS server certificate: " +:+ e; te_not_exist := false |}
       | None => None
       end, m)
    end
  end.

(** ** The client *)

(** An error that is not [ErrNotExist] stops the constructor. *)
Definition serious {A} (r : terror + A) : option terror :=
  match r with inl e => if te_not_exist e then None else Some e | inr _ => None end.

Definition newReloadingTLSMaterial (cv : ca_views) (cl : client_views) (o : TLSOptions) : terror + reloadingTLSMaterial :=
  let m := Build_reloadingTLSMaterial (to_CAFile o) (to_CertFile o) (to_KeyFile o) None None in
  let '(r, m) := if is_empty (to_CAFile o) then (inr system_roots, m) else rootCAs cv m in
  match r with
  | inl e => inl e
  | inr _ =>
    if negb (is_empty (to_CertFile o)) || negb (is_empty (to_KeyFile o)) then
      let '(r, m) := clientCertificate cl m in
      match serious r with Some e => inl e | None => inr m end
    else inr m
  end.

(** The TLS configuration: how the server is verified and whether a certificate is shown. *)
Record tls_config := { tc_ServerName : string; tc_InsecureSkipVerify : bool; tc_VerifyConnection : bool; tc_GetClientCertificate : bool }.

Definition trimmed (o : TLSOptions) : TLSOptions :=
  {| to_CAFile := TrimSpace (to_CAFile o); to_CertFile := TrimSpace (to_CertFile o); to_KeyFile := TrimSpace (to_KeyFile o);
     to_ServerName := TrimSpace (to_ServerName o) |}.
Definition set (s : string) : bool := negb (is_empty s).

(** [NewHTTPClient]: the timeout and, when one is made, the TLS configuration with the
    material behind it. *)
Definition NewHTTPClient (cv : ca_views) (cl cl2 : client_views) (timeout : duration) (opts : TLSOptions)
    : terror + (duration * option (tls_config * reloadingTLSMaterial)) :=
  let timeout := if timeout <=? 0 then 10 * second else timeout in
  let o := trimmed opts in
  if set (to_CAFile o) && negb (set (to_ServerName o))
  then inl {| te_text := "TLS server name is required with a custom CA"; te_not_exist := false |} else
  if set (to_CAFile o) || (set (to_CertFile o) && set (to_KeyFile o)) || set (to_ServerName o) then
    match newReloadingTLSMaterial cv cl o with
    | inl e => inl e
    | inr m =>
      let config shows := {| tc_ServerName := to_ServerName o; tc_InsecureSkipVerify := set (to_CAFile o);
                             tc_VerifyConnection := set (to_CAFile o); tc_GetClientCertificate := shows |} in
      if set (to_CertFile o) || set (to_KeyFile o) then
        if negb (set (to_CertFile o)) || negb (set (to_KeyFile o))
        then inl {| te_text := "TLS client cert and key must be provided together"; te_not_exist := false |} else
        let '(r, m) := clientCertificate cl2 m in
        match serious r with Some e => inl e | None => inr (timeout, Some (config true, m)) end
      else inr (timeout, Some (config false, m))
    end
  else inr (timeout, None).

(** ** internal/transport/health.go *)

(** Each attempt has a status or no answer; after it the context may be done.  [None]: it
    still waits; [Some None]: the backend is ready. *)
Fixpoint WaitForHealth (attempts : list (option Z * bool)) : option (option string) :=
  match attempts with
  | [] => None
  | (reply, done) :: attempts =>
    if match reply with Some status => (200 <=? status) && (status <? 300) | None => false end then Some None else
    if done : bool then Some (Some "health check timeout"%string) else WaitForHealth attempts
  end.

(** ** What the client shows *)

(** The results of successive handshakes. *)
Fixpoint handshakes (cls : list client_views) (m : reloadingTLSMaterial) : list (terror + pair) * reloadingTLSMaterial :=
  match cls with
  | [] => ([], m)
  | cl :: cls =>
    let '(r, m) := clientCertificate cl m in
    let '(rs, m) := handshakes cls m in (r :: rs, m)
  end.

(** [p] is what the two files held when a handshake read them. *)
Definition loaded_from (certFile keyFile : string) (cl : client_views) (p : pair) : Prop :=
  ∃ c k, vw_read (cl_read_cert cl) certFile = inr c ∧ vw_read (cl_read_key cl) keyFile = inr k ∧ X509KeyPair c k = Some p.
Definition stamped (certFile keyFile : string) (cl : client_views) (s1 s2 : fileStamp) : Prop :=
  statFile (cl_stat_cert cl) certFile "TLS client certificate" = inr s1 ∧ statFile (cl_stat_key cl) keyFile "TLS client key" = inr s2.

(** What is kept was loaded in one of the [past] handshakes. *)
Definition cache_ok (certFile keyFile : string) (past : list client_views) (m : reloadingTLSMaterial) : Prop :=
  m_certFile m = certFile ∧ m_keyFile m = keyFile ∧
  match m_cachedClient m with
  | None => True
  | Some (p, s1, s2) => ∃ cl, cl ∈ past ∧ loaded_from certFile keyFile cl p ∧ stamped certFile keyFile cl s1 s2
  end.

Lemma LoadX509KeyPair_spec cl c k p : LoadX509KeyPair cl c k = inr p ↔ loaded_from c k cl p.
Proof.
  unfold LoadX509KeyPair, loaded_from. split.
  - destruct (vw_read _ c) as [|cp]; [done|]. destruct (vw_read _ k) as [|kp]; [done|]. destruct (X509KeyPair cp kp) eqn:E; [|done].
    intros [= ->]. by exists cp, kp.
  - intros (cp & kp & -> & -> & ->). done.
Qed.

(** A pair on a disk that does not change and whose stamps tell it from the pairs
    loaded before. *)
Definition settled (certFile keyFile : string) (past : list client_views) (cl : client_views) (p : pair) : Prop :=
  loaded_from certFile keyFile cl p ∧ ∃ s1 s2, stamped certFile keyFile cl s1 s2 ∧
    ∀ old p', old ∈ past → stamped certFile keyFile old s1 s2 → loaded_from certFile keyFile old p' → p' = p.

Lemma clientCertificate_spec certFile keyFile past cl m : cache_ok certFile keyFile past m →
  let '(r, m') := clientCertificate cl m in
  cache_ok certFile keyFile (past ++ [cl]) m' ∧
  match r with
  | inr p => (∃ old, old ∈ past ++ [cl] ∧ loaded_from certFile keyFile old p) ∧ is_Some (m_cachedClient m')
  | inl _ => m_cachedClient m = None ∧ m' = m
  end ∧ ∀ p, settled certFile keyFile past cl p → r = inr p.
Proof.
  intros (Hc & Hk & Hm).
  assert (cache_ok certFile keyFile (past ++ [cl]) m) as Hkeep.
  { split_and!; [done..|]. destruct (m_cachedClient m) as [[[p s1] s2]|]; [|done]. destruct Hm as (old & Hin & H).
    exists old. split; [apply elem_of_app; by left|done]. }
  assert (∀ e, (∀ p, ¬ settled certFile keyFile past cl p) → let '(r, m') := cachedClientOr e m in cache_ok certFile keyFile (past ++ [cl]) m' ∧
    match r with inr p => (∃ old, old ∈ past ++ [cl] ∧ loaded_from certFile keyFile old p) ∧ is_Some (m_cachedClient m')
    | inl _ => m_cachedClient m = None ∧ m' = m end ∧ ∀ p, settled certFile keyFile past cl p → r = inr p) as Hor.
  { intros e Hno. unfold cachedClientOr. destruct (m_cachedClient m) as [[[p s1] s2]|] eqn:E; cbn; rewrite ?E; (split; [done|split; [|by intros q ?%Hno]]); [|done].
    split; [|done]. destruct Hm as (old & Hin & H & _). exists old. split; [apply elem_of_app; by left|done]. }
  unfold clientCertificate. rewrite Hc, Hk.
  destruct (statFile (cl_stat_cert cl) _ _) as [e|s1] eqn:E1; [apply Hor; by intros p (_ & t1 & t2 & [H1 H2] & _); rewrite E1 in H1|].
  destruct (statFile (cl_stat_key cl) _ _) as [e|s2] eqn:E2; [apply Hor; by intros p (_ & t1 & t2 & [H1 H2] & _); rewrite E2 in H2|].
  set (load := match LoadX509KeyPair cl certFile keyFile with inl e => _ | inr crt => _ end).
  assert (let '(r, m') := load in cache_ok certFile keyFile (past ++ [cl]) m' ∧
    match r with inr p => (∃ old, old ∈ past ++ [cl] ∧ loaded_from certFile keyFile old p) ∧ is_Some (m_cachedClient m')
    | inl _ => m_cachedClient m = None ∧ m' = m end ∧ ∀ p, settled certFile keyFile past cl p → r = inr p) as Hload.
  { subst load. destruct (LoadX509KeyPair cl certFile keyFile) as [e|p] eqn:El.
    - apply Hor. intros p [Hp%LoadX509KeyPair_spec _]. congruence.
    - apply LoadX509KeyPair_spec in El as Hl. cbn. split; [|split; [split; [|done]|]].
      + split_and!; [done..|]. exists cl. split; [apply elem_of_app; right; by left|]. done.
      + exists cl. split; [apply elem_of_app; right; by left|done].
      + intros q [Hq%LoadX509KeyPair_spec _]. congruence. }
  clearbody load. destruct (m_cachedClient m) as [[[p t1] t2]|] eqn:Em; [|exact Hload].
  destruct (decide (s1 = t1)) as [<-|]; [|exact Hload]. destruct (decide (s2 = t2)) as [<-|]; [|exact Hload].
  destruct Hm as (old & Hin & Hold & Hst). split; [done|split; [split; [|by rewrite Em]|]].
  - exists old. split; [apply elem_of_app; by left|done].
  - intros q (_ & u1 & u2 & [Hu1 Hu2] & Htell). rewrite E1 in Hu1. rewrite E2 in Hu2. injection Hu1 as <-. injection Hu2 as <-.
    f_equal. by apply (Htell old).
Qed.

Lemma handshakes_spec certFile keyFile cls : ∀ past m, cache_ok certFile keyFile past m →
  ∀ i cl r, cls !! i = Some cl → (handshakes cls m).1 !! i = Some r →
    match r with
    | inr p => ∃ old, old ∈ past ++ take (S i) cls ∧ loaded_from certFile keyFile old p
    | inl _ => m_cachedClient m = None ∧ ∀ j q, (j < i)%nat → (handshakes cls m).1 !! j ≠ Some (inr q)
    end ∧ ∀ p, settled certFile keyFile (past ++ take i cls) cl p → r = inr p.
Proof.
  induction cls as [|c0 cls IH]; intros past m Hm i cl r Hcl Hr; [done|]. cbn [handshakes] in *.
  pose proof (clientCertificate_spec certFile keyFile past c0 m Hm) as Hc. destruct (clientCertificate c0 m) as [r0 m1] eqn:E0.
  destruct Hc as (Hm1 & Hr0 & Hset). specialize (IH _ m1 Hm1). destruct (handshakes cls m1) as [rs m2] eqn:E. cbn [fst] in *.
  destruct i as [|i]; cbn in Hcl, Hr.
  - injection Hcl as ->. injection Hr as ->. rewrite app_nil_r. cbn [take]. split; [|done].
    destruct r as [e|p]; [|by destruct Hr0 as [? _]]. destruct Hr0 as [H0 _]. split; [done|lia].
  - specialize (IH i cl r Hcl Hr). cbn [take]. rewrite <- !app_assoc in IH. cbn [app] in IH. destruct IH as [H1 H2]. split; [|done].
    destruct r as [e|p]; [|done]. destruct H1 as [Hnone Hj].
    destruct r0 as [e0|p0]; [|destruct Hr0 as [_ Hs]; rewrite Hnone in Hs; by destruct Hs]. destruct Hr0 as [H0 _]. split; [done|].
    intros [|j] q Hlt; cbn; [done|]. apply Hj. lia.
Qed.

(** C40: the client shows the control plane only certificates that belong to their
    keys, whatever happens to the files during a handshake.  Each certificate shown was
    read, with its key, in this handshake or one before; an error can only come before
    the first certificate was shown; and a pair on disk is shown as soon as it does not
    change during a handshake, if its sizes and times tell it from the pairs loaded
    before. *)
Theorem shown_pairs_match certFile keyFile caFile cls :
  let m := Build_reloadingTLSMaterial caFile certFile keyFile None None in
  ∀ i cl r, cls !! i = Some cl → (handshakes cls m).1 !! i = Some r →
    match r with
    | inr p => ∃ old, old ∈ take (S i) cls ∧ loaded_from certFile keyFile old p
    | inl _ => ∀ j q, (j < i)%nat → (handshakes cls m).1 !! j ≠ Some (inr q)
    end ∧ ∀ p, settled certFile keyFile (take i cls) cl p → r = inr p.
Proof.
  intros m i cl r Hcl Hr. pose proof (handshakes_spec certFile keyFile cls [] m ltac:(done) i cl r Hcl Hr) as [H1 H2]. split; [|done].
  destruct r; [by destruct H1|done].
Qed.

(** ** How the server is verified *)

(** Go's own verification is switched off only where [verifyServerConnection] takes its
    place, and then a name is required; it accepts a connection only with a chain to the
    roots it has. *)
Lemma insecure_is_verified cv cl cl2 timeout opts t c m :
  NewHTTPClient cv cl cl2 timeout opts = inr (t, Some (c, m)) → tc_InsecureSkipVerify c = true →
  tc_VerifyConnection c = true ∧ tc_ServerName c ≠ EmptyString.
Proof.
  unfold NewHTTPClient. destruct (set (to_CAFile (trimmed opts)) && negb _) eqn:E; [done|]. destruct (_ || _); [|done].
  destruct (newReloadingTLSMaterial _ _ _) as [|m0]; [done|]. intros H.
  assert (tc_InsecureSkipVerify c = set (to_CAFile (trimmed opts)) ∧ tc_VerifyConnection c = set (to_CAFile (trimmed opts)) ∧
    tc_ServerName c = to_ServerName (trimmed opts)) as (-> & -> & ->).
  { destruct (set (to_CertFile _) || _); [|by injection H as _ <- _]. destruct (_ || _); [done|].
    destruct (clientCertificate cl2 m0) as [r m1]. destruct (serious r); [done|]. by injection H as _ <- _. }
  intros Hca. rewrite Hca in E. split; [done|]. cbn in E. by apply negb_false_iff, negb_true_iff, is_empty_false in E.
Qed.

Lemma verify_accepts cv now peers name m m' : verifyServerConnection cv now peers name m = (None, m') →
  ∃ leaf rest roots, peers = leaf :: rest ∧ (rootCAs cv m).1 = inr roots ∧ Verify leaf name roots rest now = None.
Proof.
  unfold verifyServerConnection. destruct peers as [|leaf rest]; [done|]. destruct (rootCAs cv m) as [[e|roots] m1]; [done|].
  destruct (Verify leaf name roots rest now) eqn:E; [done|]. intros _. by exists leaf, rest, roots.
Qed.

(** A certificate without its key, or the reverse, is an error only beside a CA file or
    a server name; alone it is dropped without a word. *)
Lemma lone_certificate_ignored cv cl cl2 timeout certFile : 0 < timeout →
  NewHTTPClient cv cl cl2 timeout (Build_TLSOptions "" certFile "" "") = inr (timeout, None).
Proof.
  intros Ht. unfold NewHTTPClient. rewrite (proj2 (Z.leb_gt _ _) Ht). unfold set, trimmed. cbn -[TrimSpace is_empty].
  change (TrimSpace "") with EmptyString. cbn [is_empty negb andb orb]. by rewrite andb_false_r.
Qed.
End transport.

(** ** A rotation seen by four handshakes *)

Definition demo_disk (l : list (string * (string * Z))) : view := {|
  vw_stat := λ p, match List.find (λ e, str_eqb e.1 p) l with Some (_, (_, t)) => StatOk (Build_fileStamp 2 t) | None => StatMissing end;
  vw_read := λ p, match List.find (λ e, str_eqb e.1 p) l with Some (_, (d, _)) => inr d | None => inl (Build_terror "open" true) end |}.
Definition demo_pair (c k : string) : option string := if str_eqb (str_drop 1 c) (str_drop 1 k) then Some c else None.
Definition still (v : view) : client_views := Build_client_views v v v v.
Definition old_disk : view := demo_disk [("c", ("C1", 10)); ("k", ("K1", 10))]%string.
Definition new_disk : view := demo_disk [("c", ("C2", 20)); ("k", ("K2", 20))]%string.

(** No file yet; the first pair; the key of the next one beside the old certificate; the
    next pair. *)
Definition demo_handshakes : list client_views :=
  [still (demo_disk []); still old_disk; still (demo_disk [("c", ("C1", 10)); ("k", ("K2", 20))]%string); still new_disk].
Definition demo_material : @reloadingTLSMaterial unit string := Build_reloadingTLSMaterial "" "c" "k" None None.
Definition demo_shown := (handshakes (pool := unit) demo_pair demo_handshakes demo_material).1.

Example rotation_is_seamless : map (λ r, match r with inr p => p | inl _ => "error"%string end) demo_shown = ["error"; "C1"; "C1"; "C2"]%string.
Proof. vm_compute. reflexivity. Qed.

Lemma shown_pairs_match_witness :
  (∃ old, old ∈ take 3 demo_handshakes ∧ loaded_from demo_pair "c" "k" old "C1") ∧ demo_shown !! 3%nat = Some (inr "C2"%string).
Proof.
  pose proof (shown_pairs_match (pool := unit) demo_pair "c" "k" "" demo_handshakes) as H. cbv zeta in H. fold demo_material in H. split.
  - destruct (H 2%nat (still (demo_disk [("c", ("C1", 10)); ("k", ("K2", 20))]%string)) (inr "C1"%string) eq_refl ltac:(vm_compute; reflexivity)) as [H1 _]. exact H1.
  - assert (is_Some (demo_shown !! 3%nat)) as [r Hr] by (vm_compute; by eexists). fold demo_shown in H.
    destruct (H 3%nat (still new_disk) r eq_refl Hr) as [_ H2]. rewrite Hr. f_equal. apply H2. split.
    + exists "C2"%string, "K2"%string. by vm_compute.
    + exists (Build_fileStamp 2 20), (Build_fileStamp 2 20). split; [by vm_compute|]. intros old p' Hin [Hst _] _. exfalso.
      unfold demo_handshakes in Hin. cbn [take] in Hin. rewrite !elem_of_cons, elem_of_nil in Hin.
      destruct_or? Hin; subst; vm_compute in Hst; try discriminate Hst; done.
Defined.
