(* ===== verification/Main.v ===== *)
(** * Main: the command and the build (cmd/seagull-agent/main.go, build/sbom/main.go)

    The command line, the order in which the agent is put together, and the modules in
    the bill of materials of a build. *)

From S2P Require Import Prelude GoStr GoText GoFields GoIP Effects FileUtil Client Protocol.
From S2P Require Settings CertPair Transport Inventory AuthLog Spool Cycle Report Service.

Local Open Scope Z_scope.
Local Open Scope go_scope.

(** ** The process *)

(** The files and the standard output while there is no service, then the service. *)
Record process := { pr_files : files; pr_out : list string; pr_service : option Service.world }.
Definition set_files (fs : files) (p : process) : process := {| pr_files := fs; pr_out := pr_out p; pr_service := pr_service p |}.
Definition print (s : string) (p : process) : process := {| pr_files := pr_files p; pr_out := pr_out p ++ [s]; pr_service := pr_service p |}.
Definition set_service (w : Service.world) (p : process) : process := {| pr_files := pr_files p; pr_out := pr_out p; pr_service := Some w |}.

(** A computation of [main]; its error is the message of [log.Fatalf]. *)
Definition PM : Type → Type := M process string.
Definition fatal {W E A} (what : string) (text : E → string) (m : M W E A) : M W string A :=
  r <- try m;; match r with inl e => throw (what +:+ ": " +:+ text e) | inr a => retM a end.
Definition onFiles {A} (m : FM A) : PM A := zoom pr_files set_files m.

(** [buildinfo.String]. *)
Definition build_String (b : Report.build) : string :=
  "seagull-agent " +:+ Report.b_Version b +:+ " (" +:+ Report.b_Commit b +:+ ", " +:+ Report.b_Channel b +:+ ", " +:+ Report.b_GOOS b +:+ "/" +:+
  Report.b_GOARCH b +:+ ", protocol " +:+ Itoa Version +:+ ", event schema " +:+ Itoa EventSchemaVersion +:+ ")".

Section main.
Context (x : Service.externals).
(** [url.Parse]. *)
Context (url_Parse : string → option Settings.url).
(** The X.509 of the HTTP client, and what it sees of the files. *)
Context {pool pair : Type} (system_roots : pool) (AppendCertsFromPEM : string → option pool) (X509KeyPair : string → string → option pair).
Context (ca_seen : files → Transport.ca_views) (client_seen client_seen2 : files → Transport.client_views).

(** [fmt.Fprintln]. *)
Definition Fprintln (s : string) : PM unit := sys_or "write" (print s).

(** [executeCommand]: whether the command was one; an error is one of a command. *)
Definition executeCommand (args : list string) : PM bool :=
  match args with
  | [] => retM false
  | command :: rest =>
    if str_eqb command "--version" || str_eqb command "version" then
      match rest with
      | [] => Fprintln (build_String (Service.x_build x));;; retM true
      | _ => throw "version does not accept arguments"%string
      end
    else if str_eqb command "validate-ca" then
      match rest with
      | [path] =>
        r <- onFiles (ReadFile path);;
        match r with
        | Read bundle =>
          match CertPair.ValidateServerCA (Service.x_pem_decode x) (Service.x_parse_certificate x) bundle with
          | inl e => throw e
          | inr _ => Fprintln "valid server CA bundle";;; retM true
          end
        | NotExist => throw "read server CA bundle: no such file"%string
        | ReadFailed => throw "read server CA bundle"%string
        end
      | _ => throw "validate-ca requires one PEM file path"%string
      end
    else throw ("unknown command " +:+ quoted command)
  end.

Definition resolveTLSServerName (apiURL configured : string) : string :=
  let serverName := TrimSpace configured in
  if negb (is_empty serverName) then serverName else
  match url_Parse (TrimSpace apiURL) with
  | None => ""
  | Some parsed => Settings.u_Hostname parsed
  end.

(** The options [main] gives to the HTTP client. *)
Definition client_options (cfg : Settings.Config) : Transport.TLSOptions :=
  let t := Settings.c_TLS cfg in {|
  Transport.to_CAFile := TrimSpace (Settings.cfg_TLSCAFile t); Transport.to_CertFile := TrimSpace (Settings.cfg_TLSCertFile t);
  Transport.to_KeyFile := TrimSpace (Settings.cfg_TLSKeyFile t);
  Transport.to_ServerName := resolveTLSServerName (Settings.cfg_APIURL (Settings.c_Core cfg)) (Settings.cfg_TLSServerName t) |}.

Definition NewHTTPClient (fs : files) (cfg : Settings.Config)
    : Transport.terror + (duration * option (Transport.tls_config * Transport.reloadingTLSMaterial)) :=
  Transport.NewHTTPClient system_roots AppendCertsFromPEM X509KeyPair (ca_seen fs) (client_seen fs) (client_seen2 fs)
    (Settings.cfg_HTTPTimeout (Settings.c_Core cfg)) (client_options cfg).

(** [main]: whether it has returned.  [loaded] is the answer of [Settings.LoadConfig]; the
    rest is what [Service.New] and [Service.Run] are given. *)
Definition main (args : list string) (loaded : string + Settings.Config) (client : cworld) (ids : list string) (keys : list (option (string * string)))
    (auth : AuthLog.aworld) (queue : Spool.sworld)
    (health : option string) (an : Service.answers) (ctx : list bool) (ob : Cycle.observed) (turns : list Service.turn) : PM bool :=
  handled <- fatal "[AGENT] command error" id (executeCommand args);;
  if handled : bool then retM true else
  match loaded with
  | inl e => throw e
  | inr cfg =>
    let t := Settings.c_TLS cfg in
    fatal "[AGENT] TLS client recovery error" id
      (onFiles (CertPair.RecoverPair (Service.x_suffix x) (Service.x_x509_key_pair x) (TrimSpace (Settings.cfg_TLSCertFile t)) (TrimSpace (Settings.cfg_TLSKeyFile t))));;;
    fs <- gets pr_files;;
    match NewHTTPClient fs cfg with
    | inl e => throw ("[AGENT] TLS client init error: " +:+ Transport.te_text e)
    | inr _ =>
      svc <- fatal "[AGENT] init error" id (onFiles (Service.New x cfg client ids keys auth queue));;
      r <- fatal "[AGENT] run error" cerror_text (zoom (λ _, svc) set_service (Service.Run x cfg health an ctx ob turns));;
      match r.1 with
      | None => retM false
      | Some None => retM true
      | Some (Some e) => throw ("[AGENT] run error: " +:+ cerror_text e)
      end
    end
  end.
End main.

(** ** The modules of a build (build/sbom) *)

Record component := {
  bm_Type : string; bm_BOMRef : string; bm_Name : string; bm_Version : string; bm_PURL : string;
  bm_Hashes : list (string * string); bm_Properties : list (string * string) }.

(** The entry of one line of the output, if it is that of a module. *)
Definition module_of (fields : list string) : option component :=
  match fields with
  | kind :: path :: moduleVersion :: rest =>
    if negb (str_eqb kind "dep" || str_eqb kind "mod") then None else
    if is_empty path || is_empty moduleVersion || str_eqb moduleVersion "(devel)" then None else
    let ref := "pkg:golang/" +:+ path +:+ "@" +:+ moduleVersion in
    Some {| bm_Type := "library"; bm_BOMRef := ref; bm_Name := path; bm_Version := moduleVersion; bm_PURL := ref; bm_Hashes := [];
            bm_Properties := match rest with sum :: _ => if HasPrefix sum "h1:" then [("go:mod:h1"%string, sum)] else [] | [] => [] end |}
  | _ => None
  end.

Definition module_line (acc : string * gmap string component) (line : string) : string * gmap string component :=
  let '(goVersion, seen) := acc in
  let trimmed := TrimSpace line in
  if is_empty trimmed then acc else
  if is_empty goVersion && Contains trimmed ": go" then (List.last (Fields trimmed) EmptyString, seen) else
  match module_of (Fields trimmed) with
  | Some entry => (goVersion, <[bm_BOMRef entry := entry]> seen)
  | None => acc
  end.

(** [readBuildModules], of the output of [go version -m]. *)
Definition readBuildModules (output : string) : list component * string :=
  let '(goVersion, seen) := fold_left module_line (Split output newline) ("", ∅) in
  (omap (λ ref, seen !! ref) (merge_sort String.le (elements (dom seen))), goVersion).

(** ** The client of settings that load *)

Section loaded.
Context (LookupEnv : string → option string) (file : string → read_result) (ParseDuration : string → option Z) (ParseFloat : string → option SpecFloat.spec_float)
  (ParseCIDR : string → option Net.ipnet) (url_Parse : string → option Settings.url) (LoadIdentityState : string → string → option Enroll.PersistedIdentityState)
  (EvalSymlinks : string → option string) (stat_executable : string → option bool).
#[local] Abbreviation LoadConfig' := (Settings.LoadConfig LookupEnv file ParseDuration ParseFloat ParseCIDR url_Parse LoadIdentityState EvalSymlinks stat_executable).

(** The address of the server has passed its check, and the TLS settings are trimmed. *)
Lemma LoadConfig_endpoint cfg : LoadConfig' = inr cfg →
  Settings.ValidateEndpointURL url_Parse "SEAGULL_API_URL" (Settings.cfg_APIURL (Settings.c_Core cfg)) = None ∧
  Settings.c_TLS cfg = Settings.load_TLS LookupEnv ∧
  is_empty (Settings.cfg_TLSCertFile (Settings.c_TLS cfg)) = is_empty (Settings.cfg_TLSKeyFile (Settings.c_TLS cfg)).
Proof.
  intros H. pose proof (Settings.LoadConfig_checks _ _ _ _ _ _ _ _ _ _ H) as (_ & _ & Htls & _ & _ & identity & topology & _ & ->).
  cbn [Settings.c_Core Settings.c_TLS]. split; [|split; [done|by apply eqb_prop]].
  unfold Settings.LoadConfig, Settings.fatal_or in H. set (core := Settings.load_Core _ _) in *.
  destruct (Settings.ValidateAgentID _); [done|]. destruct (is_empty (Settings.cfg_APIURL core)); [done|].
  by destruct (Settings.ValidateEndpointURL _ _ _).
Qed.

Context {pool pair : Type} (system_roots : pool) (AppendCertsFromPEM : string → option pool) (X509KeyPair : string → string → option pair).

(** Why a client can fail that was given the material of these files. *)
Definition ca_unusable (cv : Transport.ca_views) (caFile : string) (e : Transport.terror) : Prop :=
  caFile ≠ "" ∧ ∃ m, Transport.m_caFile m = caFile ∧ (Transport.rootCAs (pair := pair) system_roots AppendCertsFromPEM cv m).1 = inl e.
Definition pair_unusable (cls : list Transport.client_views) (certFile : string) (e : Transport.terror) : Prop :=
  certFile ≠ "" ∧ Transport.te_not_exist e = false ∧ ∃ cl m, cl ∈ cls ∧ (Transport.clientCertificate (pool := pool) X509KeyPair cl m).1 = inl e.

Lemma serious_spec {A} (r : Transport.terror + A) e : Transport.serious r = Some e → r = inl e ∧ Transport.te_not_exist e = false.
Proof. destruct r as [e'|]; [|done]. cbn. destruct (Transport.te_not_exist e') eqn:E; [done|]. intros [= <-]. done. Qed.

Lemma material_fails cv cl cl2 o e : is_empty (Transport.to_CertFile o) = is_empty (Transport.to_KeyFile o) →
  Transport.newReloadingTLSMaterial system_roots AppendCertsFromPEM X509KeyPair cv cl o = inl e →
  ca_unusable cv (Transport.to_CAFile o) e ∨ pair_unusable [cl; cl2] (Transport.to_CertFile o) e.
Proof.
  intros Hboth. unfold Transport.newReloadingTLSMaterial. set (m0 := Transport.Build_reloadingTLSMaterial _ _ _ _ _).
  destruct (is_empty (Transport.to_CAFile o)) eqn:Eca; [|destruct (Transport.rootCAs _ _ cv m0) as [[e'|roots] m] eqn:Er].
  2: { intros [= ->]. left. split; [by intros E; rewrite E in Eca|]. exists m0. split; [done|]. by rewrite Er. }
  all: rewrite <- Hboth; destruct (is_empty (Transport.to_CertFile o)) eqn:Ec; [done|]; cbn [negb orb].
  all: destruct (Transport.clientCertificate _ _ _) as [r m'] eqn:Ec'; destruct (Transport.serious r) as [e'|] eqn:Es; [|done]; intros [= ->].
  all: apply serious_spec in Es as [-> He]; right; split; [by intros E; rewrite E in Ec|]; split; [done|].
  all: eexists cl, _; split; [left|]; by rewrite Ec'.
Qed.

(** The client of settings that load.  Its server name is the configured one or the host
    of the checked address; it verifies the server itself exactly when it has a CA file,
    and never leaves it unverified; it shows a certificate exactly when one is configured;
    and it can only fail on the material in the files, never on the combination of the
    settings. *)
Theorem client_of_loaded_settings ca cl cl2 fs cfg : LoadConfig' = inr cfg →
  let t := Settings.c_TLS cfg in
  let name := TrimSpace (resolveTLSServerName url_Parse (Settings.cfg_APIURL (Settings.c_Core cfg)) (Settings.cfg_TLSServerName t)) in
  name ≠ "" →
  match NewHTTPClient url_Parse system_roots AppendCertsFromPEM X509KeyPair ca cl cl2 fs cfg with
  | inr (_, Some (c, _)) => Transport.tc_ServerName c = name ∧ Transport.tc_InsecureSkipVerify c = Transport.tc_VerifyConnection c ∧
      Transport.tc_VerifyConnection c = Transport.set (Settings.cfg_TLSCAFile t) ∧ Transport.tc_GetClientCertificate c = Transport.set (Settings.cfg_TLSCertFile t)
  | inr (_, None) => False
  | inl e => ca_unusable (ca fs) (Settings.cfg_TLSCAFile t) e ∨ pair_unusable [cl fs; cl2 fs] (Settings.cfg_TLSCertFile t) e
  end.
Proof.
  intros (_ & Ht & Htls)%LoadConfig_endpoint t name Hname.
  assert (TrimSpace (Settings.cfg_TLSCAFile t) = Settings.cfg_TLSCAFile t ∧ TrimSpace (Settings.cfg_TLSCertFile t) = Settings.cfg_TLSCertFile t ∧
    TrimSpace (Settings.cfg_TLSKeyFile t) = Settings.cfg_TLSKeyFile t) as (Hca & Hcert & Hkey).
  { subst t. rewrite Ht. cbn -[TrimSpace]. by rewrite !TrimSpace_idem. }
  assert (is_empty name = false) as Hset by (by destruct name).
  unfold NewHTTPClient, Transport.NewHTTPClient, client_options, Transport.trimmed, Transport.set. fold t. cbn -[TrimSpace is_empty].
  rewrite Hca, Hcert, Hkey, Hca, Hcert, Hkey. fold name. rewrite Hset. cbn [negb]. rewrite andb_false_r, orb_true_r. fold t in Htls.
  destruct (Transport.newReloadingTLSMaterial _ _ _ _ _ _) as [e|m] eqn:Em.
  - by apply (material_fails _ _ (cl2 fs)) in Em.
  - rewrite <- Htls. destruct (is_empty (Settings.cfg_TLSCertFile t)) eqn:Ec; cbn [negb orb]; [done|].
    destruct (Transport.clientCertificate _ _ _) as [r m'] eqn:Er. destruct (Transport.serious r) as [e|] eqn:Es; [|done].
    apply serious_spec in Es as [-> He]. right. split; [by intros E; rewrite E in Ec|]. split; [done|]. exists (cl2 fs), m. split; [by right; left|]. by rewrite Er.
Qed.
End loaded.

(** ** Commands do not start the agent *)

(** A command, and an unknown word, leaves the files alone and starts no service. *)
Lemma commands_start_nothing x url_Parse {pool pair} (roots : pool) append (kp : string → string → option pair) ca cl cl2
    args loaded client ids keys auth queue health an ctx ob turns v p : args ≠ [] →
  match main x url_Parse roots append kp ca cl cl2 args loaded client ids keys auth queue health an ctx ob turns v p with
  | (Ok ended, _, p') => ended = true ∧ pr_files p' = pr_files p ∧ pr_service p' = pr_service p
  | (Err _, _, p') | (Crashed, _, p') => pr_files p' = pr_files p ∧ pr_service p' = pr_service p
  end.
Proof.
  intros Hargs. set (I := λ q, pr_files q = pr_files p ∧ pr_service q = pr_service p).
  assert (∀ s, triple I (Fprintln s;;; retM true) (λ b q, b = true ∧ I q) (λ _, I) I) as Hprint.
  { intros s. unfold Fprintln. eapply triple_bind with (Q' := λ _, I); [by apply triple_sys_or|]. intros _. by apply triple_ret. }
  enough (triple I (executeCommand x args) (λ b q, b = true ∧ I q) (λ _, I) I) as H.
  { specialize (H v p (conj eq_refl eq_refl)). unfold main, fatal, bindM, try. destruct (executeCommand x args v p) as [[[[]|e|] v'] q]; cbn; [| |done..]; by destruct H. }
  destruct args as [|command rest]; [done|]. unfold executeCommand. destruct (_ || _).
  { destruct rest; [apply Hprint|by apply triple_throw]. }
  destruct (str_eqb _ _); [|by apply triple_throw]. destruct rest as [|path [|? ?]]; [by apply triple_throw| |by apply triple_throw].
  eapply triple_bind with (Q' := λ _, I).
  - unfold onFiles. apply triple_start. intros q Hq. set (same := λ fs, fs = pr_files q).
    eapply triple_conseq; [apply (triple_zoom pr_files set_files q (ReadFile path) (λ _, same) (λ _, same) same)|done|..].
    + eapply preserves_reads, ReadFile_reads.
    + by intros a w (fs & -> & ->).
    + by intros a w (fs & -> & ->).
    + by intros w (fs & -> & ->).
  - intros [bundle| |]; [|by apply triple_throw..]. destruct (CertPair.ValidateServerCA _ _ _); [by apply triple_throw|apply Hprint].
Qed.

(** ** The list of modules is exact *)

Lemma module_line_fold lines : ∀ g seen, g ≠ "" →
  fold_left module_line lines (g, seen) = (g, fold_left (λ s c, <[bm_BOMRef c := c]> s) (omap (λ l, module_of (Fields (TrimSpace l))) lines) seen).
Proof.
  induction lines as [|l lines IH]; intros g seen Hg; [done|]. cbn [fold_left module_line]. destruct (is_empty (TrimSpace l)) eqn:El.
  - assert (TrimSpace l = "") as Hl by (by destruct (TrimSpace l)). cbn [omap list_omap]. rewrite Hl, IH by done. done.
  - assert (is_empty g = false) as -> by (by destruct g). cbn [andb omap list_omap]. by destruct (module_of _); rewrite IH.
Qed.

Lemma fold_insert_lookup entries r (c : component) : ∀ seen : gmap string component,
  fold_left (λ s c, <[bm_BOMRef c := c]> s) entries seen !! r = Some c ↔
  (∃ pre post, entries = pre ++ c :: post ∧ bm_BOMRef c = r ∧ Forall (λ d, bm_BOMRef d ≠ r) post) ∨
  (seen !! r = Some c ∧ Forall (λ d, bm_BOMRef d ≠ r) entries).
Proof.
  induction entries as [|e entries IH]; intros seen; cbn [fold_left].
  - split; [by right|]. by intros [(pre & ? & H & _)|[? _]]; [destruct pre|].
  - rewrite IH, lookup_insert_Some, Forall_cons. split.
    + intros [(pre & post & -> & H)|[[[Hr ->]|[Hne Hs]] Hf]]; [left; by exists (e :: pre), post|left; by exists [], entries|by right].
    + intros [(pre & post & He & Hr & Hf)|(Hs & Hne & Hf)]; [|right; split; [right|]; done].
      destruct pre as [|d pre]; injection He as -> ->; [right; split; [by left|done]|left; by exists pre, post].
Qed.

(** The modules listed are, in the order of their references and each reference once,
    the last entries with their references among the module lines after the line that
    names the version. *)
Theorem readBuildModules_exact output first lines : Split output newline = first :: lines →
  Contains (TrimSpace first) ": go" = true → List.last (Fields (TrimSpace first)) "" ≠ "" →
  let entries := omap (λ l, module_of (Fields (TrimSpace l))) lines in
  let '(modules, goVersion) := readBuildModules output in
  goVersion = List.last (Fields (TrimSpace first)) "" ∧ StronglySorted String.le (map bm_BOMRef modules) ∧ NoDup (map bm_BOMRef modules) ∧
  ∀ c, c ∈ modules ↔ ∃ pre post, entries = pre ++ c :: post ∧ Forall (λ d, bm_BOMRef d ≠ bm_BOMRef c) post.
Proof.
  intros Hs Hgo Hl entries. unfold readBuildModules. rewrite Hs. cbn [fold_left module_line].
  assert (is_empty (TrimSpace first) = false) as -> by (by destruct (TrimSpace first)). rewrite Hgo. cbn [is_empty andb].
  rewrite module_line_fold by done. set (seen := fold_left _ _ _). split; [done|].
  assert (∀ r c, seen !! r = Some c ↔ ∃ pre post, entries = pre ++ c :: post ∧ bm_BOMRef c = r ∧ Forall (λ d, bm_BOMRef d ≠ r) post) as Hseen.
  { intros r c. unfold seen. rewrite fold_insert_lookup, lookup_empty. naive_solver. }
  set (refs := merge_sort String.le (elements (dom seen))).
  assert (∀ l, (∀ r, r ∈ l → is_Some (seen !! r)) → map bm_BOMRef (omap (λ r, seen !! r) l) = l) as Hmap.
  { induction l as [|r l IH]; intros Hin; [done|]. cbn [omap list_omap]. destruct (Hin r) as [c Hc]; [left|]. rewrite Hc. cbn [map].
    apply Hseen in Hc as (? & ? & _ & -> & _). f_equal. apply IH. intros r' Hr'. apply Hin. by right. }
  assert (∀ r, r ∈ refs ↔ is_Some (seen !! r)) as Hrefs.
  { intros r. unfold refs. rewrite merge_sort_Permutation, elem_of_elements. apply elem_of_dom. }
  rewrite Hmap by (intros r; apply Hrefs). split; [apply (StronglySorted_merge_sort _)|]. split; [unfold refs; rewrite merge_sort_Permutation; apply NoDup_elements|].
  intros c. rewrite list_elem_of_omap. split.
  - intros (r & _ & Hc). apply Hseen in Hc as (pre & post & He & <- & Hf). by exists pre, post.
  - intros (pre & post & He & Hf). exists (bm_BOMRef c). assert (seen !! bm_BOMRef c = Some c) as Hc by (apply Hseen; by exists pre, post).
    split; [by apply Hrefs; exists c|done].
Qed.

(** ** Examples *)

Definition demo_output : string := Join [
  "bin/agent: go1.22"; " path example"; " dep golang.org/x/net v0.2.0 h1:abc="; " mod example (devel)"; " dep github.com/google/uuid v1.6.0";
  " dep golang.org/x/net v0.2.0"; " build -trimpath=true"; ""]%string (String newline "").
Example demo_modules : let '(modules, goVersion) := readBuildModules demo_output in
  (goVersion, map bm_BOMRef modules, map bm_Properties modules) =
  ("go1.22", ["pkg:golang/github.com/google/uuid@v1.6.0"; "pkg:golang/golang.org/x/net@v0.2.0"], [[]; []])%string.
Proof. vm_compute. reflexivity. Qed.

Example readBuildModules_exact_demo : let '(modules, goVersion) := readBuildModules demo_output in
  goVersion = "go1.22"%string ∧ StronglySorted String.le (map bm_BOMRef modules).
Proof.
  pose proof (readBuildModules_exact demo_output "bin/agent: go1.22" (tail (Split demo_output newline)) ltac:(vm_compute; reflexivity)
    ltac:(vm_compute; reflexivity) ltac:(by vm_compute)) as H.
  destruct (readBuildModules demo_output) as [modules goVersion]. destruct H as (-> & H & _). split; [by vm_compute|exact H].
Qed.

Definition demo_settings : string + Settings.Config := Settings.demo_load.
Example demo_client :
  match demo_settings with
  | inr cfg => match NewHTTPClient (pool := unit) (pair := unit) Settings.demo_url tt (λ _, None) (λ _ _, None)
                 (λ _, Transport.Build_ca_views Transport.new_disk Transport.new_disk) (λ _, Transport.still Transport.new_disk)
                 (λ _, Transport.still Transport.new_disk) ∅ cfg with
               | inr (_, Some (c, _)) => Some (Transport.tc_ServerName c, Transport.tc_InsecureSkipVerify c)
               | _ => None
               end
  | inl _ => None
  end = Some ("api.example"%string, false).
Proof. vm_compute. reflexivity. Qed.

(** The command line: the version, and a word that is not a command. *)
Definition demo_process : process := Build_process ∅ [] None.
Definition demo_command (args : list string) := executeCommand Service.demo_externals args (quiet 0) demo_process.
Example version_prints : pr_out (demo_command ["version"%string]).2 = ["seagull-agent 1.0 (, , linux/amd64, protocol 1, event schema 1)"%string].
Proof. vm_compute. reflexivity. Qed.
Example unknown_fails : (demo_command ["run"%string]).1.1 = Err ("unknown command " +:+ quoted "run").
Proof. vm_compute. reflexivity. Qed.
